(* ===== verification/_CoqProject ===== *)
-Q . S2P
Prelude.v
Types.v
Participants.v
Thresholds.v
CryptoTypes.v
Domain.v
Samples.v
KeyState.v
KeyEvent.v
ContractState.v
Running.v
Initializing.v
Resharing.v
ProtocolState.v
ProtocolTrace.v
ProtocolExamples.v
Config.v
Attestation.v
AttestationProofs.v
Tee.v
TeeProofs.v
Update.v
NodeMigrations.v
ForeignChain.v
Dto.v
Requests.v
Contract.v
ContractCalls.v
RequestLifecycle.v
ContractProofs.v
ContractTee.v
ContractExamples.v
TsTypes.v
TsParticipants.v
Polynomials.v
Interpolation.v
Dkg.v
DkgProofs.v
DkgHonest.v
DkgTheorems.v
EchoBroadcast.v
EchoBroadcastProofs.v
EchoNetwork.v
EchoLiveness.v
EchoTheorems.v
RobustEcdsa.v
RobustEcdsaProofs.v
RobustEcdsaTheorems.v
Ckd.v
OtEcdsa.v
TripleBits.v
TripleGf.v
Transcript.v
TripleExtension.v
TripleMul.v
ProofSystems.v
TripleGeneration.v
TripleHonest.v
TripleTheorems.v
NodePrimitives.v
Db.v
Assets.v
AssetWorld.v
AssetTheorems.v
AssetCleanup.v
RecentBlocks.v
RecentBlocksProofs.v
RecentBlocksInv.v
RecentBlocksRun.v
RecentBlocksTheorems.v
RequestQueue.v
RequestQueueProofs.v
RequestQueueTheorems.v
Keyshare.v
KeyshareProofs.v
KeyshareTheorems.v
