(* ===== verification/Prelude.v ===== *)
(** * Verification of the NEAR MPC network

    The repository runs a network of nodes that hold shares of signing keys, and
    a smart contract on NEAR that coordinates them.  This library has three parts.

    - The contract ([src/crates/contract], with [contract-interface],
      [crypto-types], [signature-verifier]) keeps the committee and its keys, hands
      out key events (generation and resharing of keys), accepts requests from
      users and responses from nodes, checks that nodes run attested images
      ([src/crates/attestation], [src/crates/mpc-attestation]), and lets the
      committee vote on its own code.
    - The threshold cryptography ([src/crates/threshold-signatures]) generates and
      reshares the keys and computes signatures and derived keys; its messages
      go through an echo broadcast.
    - The node ([src/crates/node]) stores its keyshares, triples and
      presignatures, follows the chain, and decides which request to attempt when.

    They meet as follows: a key event of the contract ([KeyEventId]) names the run
    of the key generation whose keyshares the node stores; the keyset of the
    contract says which keyshares become permanent; the node's queue
    offers the requests of the contract to the signing protocols, which take
    triples and presignatures from the asset storage; and the contract checks the
    signature that comes back.

    ** Conventions

    - Fallible code returns [result E A]: [Ok], [Err] or [Panic].  Panics
      ([unwrap], [expect], indexing, [env::panic_str]) are kept apart from errors,
      so "this [unwrap] cannot fail" is a statement.  A [&mut self] method is a
      function from the old state to [result Error (State * A)].  In the contract
      the runtime reverts the state on [Err] and on [Panic], so none is returned
      there; in the node, where effects survive an error, the state is returned
      next to the result ([AssetCleanup], [Keyshare]).
    - [Struct::method] is the definition [Struct_method], or [method] where that is
      unique; fields carry a prefix of their struct.  Integers are [Z].  The
      contract is built without overflow checks, so the wrapping operations of this
      file are used where it computes on [u32], [u64] or [usize] (32 bits on
      wasm32); the node is built with overflow checks, so that overflow panics.
    - The host functions of the runtime are the record [Env] ([Types]).  Promises
      are the list of [Effect]s a method returns ([Contract]).  In the node the
      clock, random nonces, the state of the network and the order in which a hash
      map is traversed are arguments; a shared [Arc] is an index into a store that
      is part of the state ([RecentBlocks], [RequestQueue]); a file operation
      returns the states of the directory after each write, which are those a
      crash may leave ([Keyshare]).
    - A protocol of the threshold cryptography is a function of its random numbers
      and of the messages its channels deliver, in the order of delivery.
    - Third-party code is a parameter, given by a class, with its documented
      behaviour as a class of laws: [Libraries] (hex, SHA, DCAP quote verification,
      JSON), [Curves] (curves, ecrecover, SHA3-256) and [UpdateHost] (storage price,
      JSON length) for the contract; ciphersuites, hashes and serialisation in
      [Polynomials], [Dkg], [RobustEcdsa], [Ckd], [OtEcdsa], and for the triples
      [Keccak], [OtHashes], [OtSuite], [ChallengeSuite] and [GenerationSuite]; [AesGcm], [Serde],
      [Sha256] and [KeyEncodings] for the node.  Each has a concrete instance on
      which the theorems are run.

    ** Contract: files and sources

    - [Prelude]: results, machine integers, list lemmas, tactics.
    - [Types]: [errors.rs], the host environment, enumerations.
    - [Participants], [Thresholds]: [primitives/participants.rs],
      [thresholds.rs], [votes.rs]: the committee with its ids, the 60% threshold
      rule, which proposals for a new committee are admissible.
    - [CryptoTypes], [Domain], [KeyState]: [crypto_shared/types.rs],
      [primitives/domain.rs], [primitives/key_state.rs]: public keys, the registry
      of domains, epochs, key event ids, authentication.
    - [KeyEvent]: [state/key_event.rs]: attempts, leader, votes, timeouts.
    - [ContractState], [Running], [Initializing], [Resharing], [ProtocolState]:
      [state.rs] and [state/*.rs]: the phases of the protocol, their invariants
      ([Running_ok], [Initializing_ok], [Resharing_ok]) and the machine made of
      them ([protocol_call], [protocol_run]).
    - [ProtocolTrace]: what every history of the machine guarantees.
    - [Config], [Update], [NodeMigrations], [ForeignChain], [Requests], [Dto]:
      [config.rs], [update.rs], [node_migrations.rs], the foreign-chain types,
      [primitives/signature.rs], [primitives/ckd.rs], [crypto_shared/kdf.rs] and
      the signature verifier, and the attestation part of [dto_mapping.rs] with
      the node's side of it ([convert_to_contract_dto.rs]: Module [Dto.Node]).
    - [Attestation], [AttestationProofs]: verification of quotes and event logs.
    - [Tee], [TeeProofs]: [tee/proposal.rs], [tee/tee_state.rs],
      [primitives/time.rs]: the image whitelist and the stored attestations.
    - [Contract]: every state-changing method of [lib.rs] and the views that
      compute something.  [ContractCalls]: all methods as one transition relation
      ([contract_run]), with the entry points that refuse a deposit where a method
      is not payable ([contract_call]).  The state is read back from storage after
      every call ([MpcContract_stored]; only timestamps lose precision).
    - [RequestLifecycle]: the contract together with the promises the runtime
      keeps for it ([World]): calls, timeouts, and callbacks that deliver a
      response or a timeout in a later step, in any order.
    - [ContractProofs], [ContractTee]: theorems about histories of the contract.
    - [Samples], [ProtocolExamples], [ContractExamples]: concrete histories on
      which the theorems are instantiated, and histories that show defects.

    ** Threshold signatures: files and sources

    - [TsTypes], [TsParticipants]: [errors.rs], [participants.rs], [thresholds.rs].
    - [Polynomials], [Interpolation]: [crypto/polynomials.rs]: polynomials, their
      commitments, Lagrange coefficients one by one and batched; a concrete ciphersuite
      in which everything is computed.
    - [Dkg], [DkgProofs], [DkgHonest], [DkgTheorems]: [dkg.rs] and [lib.rs]: key
      generation, resharing and refresh.
    - [EchoBroadcast], [EchoBroadcastProofs], [EchoNetwork], [EchoLiveness],
      [EchoTheorems]: [protocol/echo_broadcast.rs]: the loop of one party, and a
      network of parties of which some are faulty.
    - [RobustEcdsa], [RobustEcdsaProofs], [RobustEcdsaTheorems]: [ecdsa/mod.rs],
      [ecdsa/robust_ecdsa]: presigning, rerandomization, signing.
    - [OtEcdsa]: [ecdsa/ot_based_ecdsa]: the same from Beaver
      triples.  [Ckd]: [confidential_key_derivation].
    - [TripleBits], [TripleGf]: [triples/bits.rs]: vectors and
      matrices of bits on machine words, described by their bits.
    - [Transcript]: [crypto/proofs/strobe.rs] and
      [strobe_transcript.rs]: transcripts and the generators built from them.
    - [TripleExtension]: [triples/correlated_ot_extension.rs] and
      [random_ot_extension.rs].  [TripleMul]: base transfers,
      conversion of products to sums, multiplication with all participants.
    - [ProofSystems]: [crypto/commitment.rs], [crypto/proofs/dlog.rs], [dlogeq.rs].
    - [TripleGeneration]: [triples/generation.rs], round by
      round.  [TripleHonest]: the rounds of a run of honest participants.
      [TripleTheorems]: a concrete suite, and the theorems.

    ** Node: files and sources

    - [NodePrimitives], [Db]: [primitives.rs] (unique ids) and [db.rs] (the encrypted
      database).
    - [Assets]: [assets.rs]: the queues of triples and presignatures
      and their storage.  [AssetWorld]: the tasks of a node that
      share a storage, interleaved at the accesses to memory and database, with
      restarts.  [AssetTheorems]: theorems and examples.
    - [AssetCleanup]: [assets/cleanup.rs].
    - [RecentBlocks]: [requests/recent_blocks_tracker.rs], on a heap of nodes.
      [RecentBlocksProofs], [RecentBlocksInv]: its invariant (a
      tree whose links agree, with final and canonical marks) and what each
      operation does to it.  [RecentBlocksRun]: the
      specification, which looks at the whole history of blocks, and the relation of
      the two.  [RecentBlocksTheorems]: theorems and examples.
    - [RequestQueue], [RequestQueueProofs], [RequestQueueTheorems]:
      [requests/queue.rs] and [requests/debug.rs]: the queue, its histories
      ([qreachable]), theorems and examples.
    - [Keyshare], [KeyshareProofs], [KeyshareTheorems]: [keyshare.rs] and
      [keyshare/*.rs] but the cloud storage: the storage, what each operation does in
      all the states it goes through, histories with crashes ([kstep]).

    ** What is shown

    - Contract, refinement: whatever methods are called, the protocol state of a
      deployed contract moves only by transitions of the protocol machine (C1); the
      machine never panics and keeps its invariants (C6).
    - Keys: every key of the committee was confirmed by all its members in one
      attempt (C2), and public keys never change (C3).
    - Votes: updates, committees and stored attestations are traced back to the
      calls that justify them (C5, C14, C31).
    - Requests: accepted responses are valid and reach the promise that waits for
      them, late ones change nothing, and users get no other ones (C4).
    - Attestation: which quotes are accepted and what they determine (C28,
      C32, C33), re-verification (C27).
    - Threshold cryptography: keys are shared consistently whatever the others
      send (C12) and honest runs finish (C22); resharing keeps the key (C16);
      the broadcast agrees, progresses and terminates (C13, C23, C37);
      signatures verify (C10, C17), presignatures are consistent (C30), derived
      keys are right (C29).
    - Triples: an honest run of the generation ends with shared triples as
      presigning assumes them (C11); two parties share the products of their
      inputs (C26); transcripts never panic (C34); multiplication of bit
      vectors is the carry-less product (C35).
    - Node, assets: an owned asset is used at most once (C7), [take_owned]
      returns when it can (C25), stale assets are removed (C24).
    - Node, requests: the tracker classifies blocks as the history says
      (C8) and its final blocks are one chain (C21); attempts are made only for
      requests on the chain (C18), by one leader (C19), a bounded number of times
      (C36), and are made when they are due (C20).
    - Node, keyshares: permanent keyshares are never lost (C9) and no key event is
      started twice (C15), across crashes outside one window of the storage.
    - Defects: the window of the keyshare storage (C39), short vectors that make the
      triple generation panic (C38), attestations that anybody can overwrite (C40).

    Further theorems stand beside these in the same files, such as that domain ids
    are not reused and new domains and images were voted ([ProtocolTrace],
    [ContractTee]), what a completed update and an imported backup leave in the
    keyshare storage ([KeyshareTheorems]), the batched interpolation ([DkgTheorems]),
    and other defects ([ProtocolExamples], [ContractExamples], [AssetTheorems],
    [RequestQueueTheorems], [EchoTheorems]).

    ** Bounds and fuel

    Epochs, domain ids and participant numbers are bounded by the widths of
    their types ([call_fits], [Participants_bounded]); a history that exhausts a
    64-bit counter is excluded explicitly ([zlen ... <= u64_max]).  The echo
    broadcast tolerates (n-1)/3 faulty participants.  Where recursion is not
    structural, fuel is enough by a theorem: one message of the broadcast is
    handled within four iterations (C37); the walks of the block tree take the number
    of its nodes, which a chain of parents cannot exceed; [take_owned] is given the
    outcomes of its polls, and ends within the number of queued assets (C25);
    [derive_loop] of [RobustEcdsa] tries at most 255 counters, as the source does;
    at most [2^20] triples are generated at once, so that the encoded hashes fit the
    32-bit length of a transcript message; [str_replace_loop] takes the length of the text plus one, and every step
    consumes a character or a non-empty pattern.

    ** Not modelled

    [migrate] and the state of version 3.6.0; Borsh and JSON encodings other than
    those named above; logging, metrics and printed forms; gas accounting beyond
    the explicit checks; plain getters.  Of the threshold cryptography: FROST
    signing, which calls [frost_core] for every step, and the runtime that schedules
    the protocols.  Two futures that the source joins are run one after the other,
    which matters only for the choice between two errors.  That oblivious transfers
    and proofs hide secrets and resist forgery is a probabilistic argument over the
    hash functions and is not stated; the theorems on triples are about honest runs, and
    name the random choices they exclude ([generic_choices], [generic]).  Of the node: network, indexer,
    coordinator and providers, which are asynchronous tasks around I/O, and the
    cloud keyshare storage. *)

From Stdlib Require Export ZArith Lia.
From stdpp Require Export strings option base gmap sets list.

Open Scope Z_scope.

(** ** Results

    A Rust call ends in one of three ways: it returns [Ok], it returns [Err],
    or it panics ([unwrap], [expect], an index out of range, [assert!],
    [env::panic_str]).  Panics are kept apart from errors so that "this
    [unwrap] cannot fail" is a statement of the model. *)

Inductive panic : Type :=
  | PanicUnwrap
  | PanicExpect (msg : string)
  | PanicIndex
  | PanicAssert (msg : string)
  | PanicStr (msg : string).

Inductive result (E A : Type) : Type :=
  | Ok (a : A)
  | Err (e : E)
  | Panic (p : panic).
Arguments Ok {_ _} _.
Arguments Err {_ _} _.
Arguments Panic {_ _} _.

#[global] Instance result_ret {E} : MRet (result E) := λ _ a, Ok a.
#[global] Instance result_bind {E} : MBind (result E) :=
  λ _ _ k m, match m with Ok a => k a | Err e => Err e | Panic p => Panic p end.
#[global] Instance result_fmap {E} : FMap (result E) :=
  λ _ _ f m, match m with Ok a => Ok (f a) | Err e => Err e | Panic p => Panic p end.

#[global] Instance panic_eq_dec : EqDecision panic.
Proof. solve_decision. Defined.
#[global] Instance result_eq_dec {E A} `{EqDecision E, EqDecision A} :
  EqDecision (result E A).
Proof. solve_decision. Defined.

(** [Option::ok_or] and [Result::map_err]. *)
Definition ok_or {E A} (o : option A) (e : E) : result E A :=
  match o with Some a => Ok a | None => Err e end.

Definition map_err {E F A} (f : E → F) (r : result E A) : result F A :=
  match r with Ok a => Ok a | Err e => Err (f e) | Panic p => Panic p end.

(** [Option::unwrap], [Option::expect] and indexing. *)
Definition unwrap {E A} (o : option A) : result E A :=
  match o with Some a => Ok a | None => Panic PanicUnwrap end.

Definition index {E A} (l : list A) (i : nat) : result E A :=
  match l !! i with Some a => Ok a | None => Panic PanicIndex end.

Definition is_ok {E A} (r : result E A) : bool :=
  match r with Ok _ => true | _ => false end.

Definition no_panic {E A} (r : result E A) : Prop :=
  match r with Panic _ => False | _ => True end.

Lemma bind_Ok {E A B} (m : result E A) (k : A → result E B) b :
  m ≫= k = Ok b ↔ ∃ a, m = Ok a ∧ k a = Ok b.
Proof. destruct m; simpl; naive_solver. Qed.

Lemma fmap_Ok {E A B} (m : result E A) (f : A → B) b :
  f <$> m = Ok b ↔ ∃ a, m = Ok a ∧ b = f a.
Proof. destruct m; simpl; naive_solver. Qed.

Lemma bind_no_panic {E A B} (m : result E A) (k : A → result E B) :
  no_panic m → (∀ a, m = Ok a → no_panic (k a)) → no_panic (m ≫= k).
Proof. destruct m; simpl; auto. Qed.

Lemma fmap_no_panic {E A B} (m : result E A) (f : A → B) :
  no_panic m → no_panic (f <$> m).
Proof. by destruct m. Qed.

Lemma ok_or_Ok {E A} (o : option A) (e : E) a : ok_or o e = Ok a ↔ o = Some a.
Proof. destruct o; simpl; naive_solver. Qed.

Lemma ok_or_no_panic {E A} (o : option A) (e : E) : no_panic (ok_or o e).
Proof. by destruct o. Qed.

(** ** Machine integers

    [u32], [u64], [u128] and [usize] values are [Z]s.  Unchecked additions and
    [as] casts wrap: the contract is built with the [release-contract] profile,
    which does not turn [overflow-checks] on.  The contract runs on wasm32, so
    [usize] has 32 bits there. *)

Definition u32_max : Z := 2 ^ 32 - 1.
Definition u64_max : Z := 2 ^ 64 - 1.
Definition u128_max : Z := 2 ^ 128 - 1.
Definition u32_add (a b : Z) : Z := (a + b) mod 2 ^ 32.
Definition u64_add (a b : Z) : Z := (a + b) mod 2 ^ 64.
Definition u64_mul (a b : Z) : Z := (a * b) mod 2 ^ 64.
Definition u32_sub (a b : Z) : Z := (a - b) mod 2 ^ 32.
Definition u64_sub (a b : Z) : Z := (a - b) mod 2 ^ 64.
Definition as_u32 (a : Z) : Z := a mod 2 ^ 32.
Definition as_usize (a : Z) : Z := a mod 2 ^ 32.
Definition is_u32 (a : Z) : Prop := 0 ≤ a ≤ u32_max.
Definition is_u64 (a : Z) : Prop := 0 ≤ a ≤ u64_max.

(** [u64::div_ceil], by a positive divisor. *)
Definition u64_div_ceil (a b : Z) : Z :=
  let q := a / b in if 0 <? a mod b then q + 1 else q.

(** [len()] as an integer. *)
Definition zlen {A} (l : list A) : Z := Z.of_nat (length l).
Definition zsize `{Size A} (x : A) : Z := Z.of_nat (size x).

Lemma u32_add_small a b : 0 ≤ a + b ≤ u32_max → u32_add a b = a + b.
Proof. unfold u32_add, u32_max. intros. apply Z.mod_small. lia. Qed.
Lemma u64_add_small a b : 0 ≤ a + b ≤ u64_max → u64_add a b = a + b.
Proof. unfold u64_add, u64_max. intros. apply Z.mod_small. lia. Qed.
Lemma u64_mul_small a b : 0 ≤ a * b ≤ u64_max → u64_mul a b = a * b.
Proof. unfold u64_mul, u64_max. intros. apply Z.mod_small. lia. Qed.
Lemma u32_sub_small a b : 0 ≤ a - b ≤ u32_max → u32_sub a b = a - b.
Proof. unfold u32_sub, u32_max. intros. apply Z.mod_small. lia. Qed.
Lemma u64_sub_small a b : 0 ≤ a - b ≤ u64_max → u64_sub a b = a - b.
Proof. unfold u64_sub, u64_max. intros. apply Z.mod_small. lia. Qed.
Lemma as_usize_small a : 0 ≤ a ≤ u32_max → as_usize a = a.
Proof. unfold as_usize, u32_max. intros. apply Z.mod_small. lia. Qed.

(** [u64_div_ceil] rounds up: it is the least [k] with [a <= k * b]. *)
Lemma u64_div_ceil_spec a b k : 0 < b → u64_div_ceil a b ≤ k ↔ a ≤ k * b.
Proof.
  intros Hb. unfold u64_div_ceil.
  pose proof (Z.div_mod a b ltac:(lia)). pose proof (Z.mod_pos_bound a b Hb).
  destruct (Z.ltb_spec 0 (a mod b)); nia.
Qed.

Lemma zlen_nil {A} : zlen (@nil A) = 0.
Proof. done. Qed.
Lemma zlen_cons {A} (x : A) l : zlen (x :: l) = 1 + zlen l.
Proof. unfold zlen. simpl. lia. Qed.
Lemma zlen_app {A} (l k : list A) : zlen (l ++ k) = zlen l + zlen k.
Proof. unfold zlen. rewrite length_app. lia. Qed.
Lemma zlen_nonneg {A} (l : list A) : 0 ≤ zlen l.
Proof. unfold zlen. lia. Qed.
Lemma zlen_omap_le {A B} (f : A → option B) (l : list A) : zlen (omap f l) <= zlen l.
Proof.
  unfold zlen. induction l as [|x l IH]; csimpl; [lia|]. case_match; simpl; lia.
Qed.

Lemma zlen_fmap {A B} (f : A → B) (l : list A) : zlen (f <$> l) = zlen l.
Proof. unfold zlen. by rewrite length_fmap. Qed.

Lemma zlen_pos {A} (l : list A) : l ≠ [] → 0 < zlen l.
Proof. destruct l; [done|]. intros _. unfold zlen. simpl. lia. Qed.
Lemma non_nil_elem {A} (l : list A) : l ≠ [] → ∃ x, x ∈ l.
Proof. destruct l as [|x l]; [done|]. intros _. exists x. constructor. Qed.

(** ** Iterator helpers of the Rust standard library *)

(** [iter().any(p)], [iter().all(p)] and [iter().find(p)]. *)
Definition any {A} (p : A → bool) (l : list A) : bool := existsb p l.
Definition all {A} (p : A → bool) (l : list A) : bool := forallb p l.
Fixpoint find {A} (p : A → bool) (l : list A) : option A :=
  match l with [] => None | x :: l => if p x then Some x else find p l end.

(** [iter().position(p)] and [iter().rposition(p)]. *)
Fixpoint position {A} (p : A → bool) (l : list A) : option nat :=
  match l with
  | [] => None
  | x :: l => if p x then Some 0%nat else S <$> position p l
  end.
Fixpoint rposition {A} (p : A → bool) (l : list A) : option nat :=
  match l with
  | [] => None
  | x :: l =>
    match rposition p l with
    | Some i => Some (S i)
    | None => if p x then Some 0%nat else None
    end
  end.

(** [iter().min_by_key(f)]: the first element with the least key. *)
Fixpoint min_by_key {A} (f : A → Z) (l : list A) : option A :=
  match l with
  | [] => None
  | x :: l =>
    match min_by_key f l with
    | None => Some x
    | Some y => if f x <=? f y then Some x else Some y
    end
  end.

(** A filter every element passes changes nothing. *)
Lemma filter_all {A} (P : A → Prop) `{∀ x, Decision (P x)} (l : list A) :
  (∀ x, x ∈ l → P x) → filter P l = l.
Proof.
  induction l as [|x l IH]; intros Hall; [done|].
  rewrite filter_cons_True by (apply Hall; set_solver). f_equal. apply IH. set_solver.
Qed.

Lemma any_spec {A} (p : A → bool) l : any p l = true ↔ ∃ x, x ∈ l ∧ p x = true.
Proof.
  unfold any. rewrite existsb_exists. split; intros (x & ? & ?); exists x;
    by rewrite ?list_elem_of_In in *.
Qed.

Lemma all_spec {A} (p : A → bool) l : all p l = true ↔ ∀ x, x ∈ l → p x = true.
Proof.
  unfold all. rewrite forallb_forall. by setoid_rewrite list_elem_of_In.
Qed.

Lemma any_false {A} (p : A → bool) l : any p l = false ↔ ∀ x, x ∈ l → p x = false.
Proof.
  split.
  - intros Hf x Hx. destruct (p x) eqn:E; [|done].
    assert (any p l = true) by (apply any_spec; eauto). congruence.
  - intros Hf. destruct (any p l) eqn:E; [|done].
    apply any_spec in E as (x & ? & ?). rewrite Hf in *; naive_solver.
Qed.

Lemma find_Some {A} (p : A → bool) l x : find p l = Some x → x ∈ l ∧ p x = true.
Proof. induction l; simpl; [done|]. case_match; set_solver. Qed.

Lemma find_None {A} (p : A → bool) l : find p l = None ↔ ∀ x, x ∈ l → p x = false.
Proof.
  induction l as [|a l IH]; simpl; [set_solver|].
  setoid_rewrite elem_of_cons. destruct (p a) eqn:E; rewrite ?IH; split.
  - done.
  - intros H. rewrite H in E by auto. done.
  - naive_solver.
  - naive_solver.
Qed.

Lemma find_is_Some {A} (p : A → bool) l x :
  x ∈ l → p x = true → is_Some (find p l).
Proof.
  intros. destruct (find p l) eqn:E; [eauto|].
  rewrite find_None in E. rewrite E in *; naive_solver.
Qed.

Lemma list_filter_all {A} (P : A → Prop) `{!∀ x, Decision (P x)} (l : list A) :
  (∀ x, x ∈ l → P x) → filter P l = l.
Proof.
  induction l as [|x l IH]; intros Hl; [done|]. rewrite filter_cons_True by (apply Hl; set_solver).
  f_equal. apply IH. set_solver.
Qed.

Lemma list_filter_none {A} (P : A → Prop) `{!∀ x, Decision (P x)} (l : list A) :
  (∀ x, x ∈ l → ¬ P x) → filter P l = [].
Proof.
  induction l as [|x l IH]; intros Hl; [done|]. rewrite filter_cons_False by (apply Hl; set_solver).
  apply IH. set_solver.
Qed.

Lemma min_by_key_is_Some {A} (f : A → Z) l : l ≠ [] → is_Some (min_by_key f l).
Proof. destruct l; [done|]. intros _. simpl. repeat case_match; eauto. Qed.

Lemma min_by_key_spec {A} (f : A → Z) l x :
  min_by_key f l = Some x → x ∈ l ∧ ∀ y, y ∈ l → f x ≤ f y.
Proof.
  revert x. induction l as [|a l IH]; intros x; simpl; [done|].
  destruct (min_by_key f l) as [b|] eqn:E.
  - specialize (IH b eq_refl) as [Hb Hmin].
    destruct (Z.leb_spec (f a) (f b)); intros [= <-]; split; try set_solver;
      intros y [->|Hy]%elem_of_cons; try lia; specialize (Hmin y Hy); lia.
  - intros [= <-]. destruct l as [|c l]; [set_solver|].
    destruct (min_by_key_is_Some f (c :: l)); [done|congruence].
Qed.

Lemma rposition_Some {A} (p : A → bool) l i :
  rposition p l = Some i →
  (∃ x, l !! i = Some x ∧ p x = true) ∧
  ∀ j x, (i < j)%nat → l !! j = Some x → p x = false.
Proof.
  revert i. induction l as [|a l IH]; intros i; simpl; [done|].
  destruct (rposition p l) as [k|] eqn:E.
  - intros [= <-]. destruct (IH k eq_refl) as [[x [Hx Hp]] Hlast]. split; [eauto|].
    intros [|j] y Hj Hy; [lia|]. simpl in Hy.
    apply (Hlast j y); [lia|done].
  - destruct (p a) eqn:Hp; [|done]. intros [= <-]. split; [eauto|].
    intros [|j] y Hj Hy; [lia|]. simpl in Hy. clear -E Hy.
    revert j E Hy. induction l as [|b l IHl]; intros j; simpl; [done|].
    destruct (rposition p l) eqn:El; [done|]. destruct (p b) eqn:Hb; [done|].
    intros _. destruct j; simpl; intros; [congruence|eauto].
Qed.

Lemma rposition_None {A} (p : A → bool) l :
  rposition p l = None ↔ ∀ x, x ∈ l → p x = false.
Proof.
  induction l as [|a l IH]; simpl; [set_solver|].
  destruct (rposition p l) as [k|] eqn:E.
  - split; [done|]. intros H. assert (Some k = None); [|done].
    apply IH. set_solver.
  - destruct (p a) eqn:Hp; split; try done; try set_solver.
    intros H. rewrite H in Hp; [done|set_solver].
Qed.

(** ** Automation *)

Create HintDb mpc discriminated.
#[export] Hint Resolve zlen_nonneg ok_or_no_panic fmap_no_panic : mpc.
#[export] Hint Extern 1 (no_panic (Ok _)) => exact I : mpc.
#[export] Hint Extern 1 (no_panic (Err _)) => exact I : mpc.

Create Rewrite HintDb mpc_rw.
#[export] Hint Rewrite @zlen_nil @zlen_cons @zlen_app @zlen_fmap : mpc_rw.

(** Split the [bind]s, tests and matches of a hypothesis [f x = Ok y]. *)
Ltac inv_ok :=
  repeat match goal with
  | H : _ ≫= _ = Ok _ |- _ => apply bind_Ok in H as (? & ? & H)
  | H : _ <$> _ = Ok _ |- _ => apply fmap_Ok in H as (? & ? & ?)
  | H : ok_or _ _ = Ok _ |- _ => apply ok_or_Ok in H
  | H : Ok _ = Ok _ |- _ => injection H as H
  | H : Err _ = Ok _ |- _ => discriminate H
  | H : Panic _ = Ok _ |- _ => discriminate H
  | H : (if ?b then _ else _) = Ok _ |- _ => destruct b eqn:?
  | H : (match ?b with _ => _ end) = Ok _ |- _ => destruct b eqn:?
  end; simplify_eq/=.

(** Turn boolean tests of hypotheses into propositions. *)
Ltac prop_bools :=
  repeat match goal with
  | H : bool_decide _ = true |- _ => apply bool_decide_eq_true in H
  | H : bool_decide _ = false |- _ => apply bool_decide_eq_false in H
  | H : (_ <? _) = true |- _ => apply Z.ltb_lt in H
  | H : (_ <? _) = false |- _ => apply Z.ltb_ge in H
  | H : (_ <=? _) = true |- _ => apply Z.leb_le in H
  | H : (_ <=? _) = false |- _ => apply Z.leb_gt in H
  | H : (_ =? _) = true |- _ => apply Z.eqb_eq in H
  | H : (_ =? _) = false |- _ => apply Z.eqb_neq in H
  | H : negb _ = true |- _ => apply negb_true_iff in H
  | H : negb _ = false |- _ => apply negb_false_iff in H
  | H : _ && _ = true |- _ => apply andb_true_iff in H as [? ?]
  | H : _ || _ = false |- _ => apply orb_false_iff in H as [? ?]
  end.
