(* ===== verification/Types.v ===== *)
(** * Shared types: NEAR host values, domains, errors

    The values every component of the contract passes around: account ids and
    public keys of the NEAR SDK, the call environment ([near_sdk::env]), the
    domain enumerations, and the error enumerations of [errors.rs]. *)

From S2P Require Import Prelude.

(** ** Values of the NEAR SDK

    An [AccountId] is a string; newtypes over integers ([ParticipantId(u32)],
    [DomainId(u64)], [EpochId(u64)], [AttemptId(u64)], [UpdateId(u64)],
    [Threshold(u64)]) are the integers themselves, and so are the
    [Authenticated*] wrappers.  A [near_sdk::PublicKey] is a curve tag followed
    by the key's bytes. *)

Abbreviation AccountId := string (only parsing).
Abbreviation ParticipantId := Z (only parsing).
Abbreviation DomainId := Z (only parsing).
Abbreviation EpochId := Z (only parsing).
Abbreviation AttemptId := Z (only parsing).
Abbreviation Threshold := Z (only parsing).
Abbreviation BlockHeight := Z (only parsing).
Abbreviation AuthenticatedParticipantId := Z (only parsing).
Abbreviation AuthenticatedAccountId := string (only parsing).
Abbreviation bytes := (list Z) (only parsing).

Inductive CurveType : Type := ED25519 | SECP256K1.

#[global] Instance CurveType_eq_dec : EqDecision CurveType.
Proof. solve_decision. Defined.
#[global] Instance CurveType_countable : Countable CurveType.
Proof.
  refine (inj_countable' (λ c, match c with ED25519 => true | SECP256K1 => false end)
    (λ b : bool, if b then ED25519 else SECP256K1) _); by intros [].
Defined.

Record PublicKey : Type := mkPublicKey {
  curve_type : CurveType;
  key_data : bytes;
}.

#[global] Instance PublicKey_eq_dec : EqDecision PublicKey.
Proof. solve_decision. Defined.
#[global] Instance PublicKey_countable : Countable PublicKey.
Proof.
  refine (inj_countable' (λ k, (curve_type k, key_data k))
    (λ p, mkPublicKey p.1 p.2) _); by intros [].
Defined.

(** The host environment of one call: what [near_sdk::env] answers. *)
Record Env : Type := mkEnv {
  signer_account_id : AccountId;
  predecessor_account_id : AccountId;
  signer_account_pk : PublicKey;
  current_account_id : AccountId;
  block_height : BlockHeight;
  block_timestamp : Z;
  attached_deposit : Z;
  prepaid_gas : Z;
}.

(** ** Domain enumerations *)

Inductive SignatureScheme : Type := Secp256k1 | Ed25519 | Bls12381 | V2Secp256k1.
Inductive DomainPurpose : Type := Sign | ForeignTx | CKD.

#[global] Instance SignatureScheme_eq_dec : EqDecision SignatureScheme.
Proof. solve_decision. Defined.
#[global] Instance DomainPurpose_eq_dec : EqDecision DomainPurpose.
Proof. solve_decision. Defined.

Inductive ForeignChain : Type :=
  | Solana | Bitcoin | Ethereum | Base | Bnb | Arbitrum | Abstract | Starknet.

#[global] Instance ForeignChain_eq_dec : EqDecision ForeignChain.
Proof. solve_decision. Defined.

(** ** Errors

    One inductive type per error enumeration of [errors.rs].  The free-text
    message some errors carry ([Error::message]) is for the reader of a log and
    is left out: an [Error] is its [ErrorKind]. *)

Inductive NodeMigrationError : Type :=
  | MigrationNotFound
  | AccountPublicKeyMismatch
  | KeysetMismatch.

Inductive TeeError : Type := TeeValidationFailed.

Inductive RequestError : Type := Timeout.

Inductive SignError : Type := PayloadCollision | UnsupportedKeyVersion.

Inductive RespondError : Type :=
  | InvalidSignature
  | SignatureSchemeMismatch
  | RespondDomainNotFound
  | RespondTweakNotOnCurve.

Inductive PublicKeyError : Type :=
  | DerivedKeyConversionFailed
  | PublicKeyDomainNotFound
  | PublicKeyTweakNotOnCurve.

Inductive KeyEventError : Type :=
  | KeyEventIdMismatch
  | ActiveKeyEvent
  | NoActiveKeyEvent.

Inductive VoteError : Type :=
  | VoterNotParticipant
  | VoterNotParticipantNorProposedParticipant
  | ParticipantVoteAlreadyRegistered
  | VoterNotLeader
  | InconsistentVotingState
  | VoterAlreadyAborted
  | VoteAlreadySubmitted
  | VoterPending.

Inductive InvalidParameters : Type :=
  | MalformedPayload
  | InsufficientDeposit
  | InsufficientGas
  | RequestNotFound
  | UpdateNotFound
  | ParticipantAlreadyInSet
  | ParticipantAlreadyUsed
  | DomainNotFound (provided : DomainId)
  | EpochMismatch (provided expected : EpochId)
  | NextDomainIdMismatch
  | InvalidDomainId
  | WrongDomainPurpose (domain_id : DomainId) (expected actual : DomainPurpose)
  | InvalidTeeRemoteAttestation
  | InvalidAppPublicKey
  | InvalidTlsPublicKey
  | CallerNotSigner
  | ChainNotInPolicy (requested : ForeignChain).

Inductive InvalidState : Type :=
  | ProtocolStateNotRunning
  | ProtocolStateNotResharing
  | ProtocolStateNotInitializing
  | ProtocolStateNotRunningNorResharing
  | UnexpectedProtocolState
  | ContractStateIsMissing
  | ParticipantIndexOutOfRange
  | NotParticipant.

Inductive InvalidThreshold : Type :=
  | MinAbsRequirementFailed
  | MinRelRequirementFailed
  | MaxRequirementFailed
  | DKGThresholdFailed.

Inductive InvalidCandidateSet : Type :=
  | InsufficientOldParticipants
  | IncoherentParticipantIds
  | NewParticipantIdsNotContiguous
  | NewParticipantIdsTooHigh
  | InvalidParticipantsTeeQuote.

Inductive ConversionError : Type := DataConversion.

Inductive DomainError : Type :=
  | NoSuchDomain
  | NewDomainIdsNotContiguous (expected_id : DomainId)
  | AddDomainsMustAddAtLeastOneDomain
  | InvalidDomains
  | DomainsMismatch
  | InvalidSchemePurposeCombination (scheme : SignatureScheme) (purpose : DomainPurpose).

Inductive ErrorKind : Type :=
  | ESign (e : SignError)
  | ERespond (e : RespondError)
  | EPublicKey (e : PublicKeyError)
  | EVote (e : VoteError)
  | EInvalidParameters (e : InvalidParameters)
  | EInvalidState (e : InvalidState)
  | EConversionError (e : ConversionError)
  | EInvalidThreshold (e : InvalidThreshold)
  | EInvalidCandidateSet (e : InvalidCandidateSet)
  | EKeyEventError (e : KeyEventError)
  | EDomainError (e : DomainError)
  | ETeeError (e : TeeError)
  | ENodeMigrationError (e : NodeMigrationError).

Abbreviation Error := ErrorKind (only parsing).
