(* ===== verification/Participants.v ===== *)
(** * Participants ([primitives/participants.rs])

    The participant set of the network: an append-only list of
    (account, id, info) triples and the next free participant id. *)

From S2P Require Import Prelude Types.

(** ** Data *)

Record ParticipantInfo : Type := mkParticipantInfo {
  url : string;
  sign_pk : PublicKey;
}.

#[global] Instance ParticipantInfo_eq_dec : EqDecision ParticipantInfo.
Proof. solve_decision. Defined.

Abbreviation ParticipantEntry := (AccountId * ParticipantId * ParticipantInfo)%type (only parsing).

Record Participants : Type := mkParticipants {
  next_id : ParticipantId;
  participants : list ParticipantEntry;
}.

#[global] Instance Participants_eq_dec : EqDecision Participants.
Proof. solve_decision. Defined.

Definition entry_account (e : ParticipantEntry) : AccountId := e.1.1.
Definition entry_id (e : ParticipantEntry) : ParticipantId := e.1.2.
Definition entry_info (e : ParticipantEntry) : ParticipantInfo := e.2.

(** ** Operations *)

Definition ParticipantId_next (id : ParticipantId) : ParticipantId := u32_add id 1.

Definition Participants_new : Participants := mkParticipants 0 [].

Definition Participants_len (ps : Participants) : Z := zlen (participants ps).

Definition Participants_insert_with_id (ps : Participants) (account_id : AccountId)
    (info : ParticipantInfo) (id : ParticipantId) : result Error Participants :=
  if any (λ e, bool_decide (entry_account e = account_id) || (entry_id e =? id))
       (participants ps)
  then Err (EInvalidParameters ParticipantAlreadyInSet)
  else if id <? next_id ps
  then Err (EInvalidParameters ParticipantAlreadyUsed)
  else Ok (mkParticipants (u32_add id 1) (participants ps ++ [(account_id, id, info)])).

Definition Participants_insert (ps : Participants) (account_id : AccountId)
    (info : ParticipantInfo) : result Error Participants :=
  Participants_insert_with_id ps account_id info (next_id ps).

(** The loop of [validate]: it fills the two sets and stops at the first id
    that is not below [next_id]. *)
Fixpoint Participants_validate_loop (next : ParticipantId) (l : list ParticipantEntry)
    (ids : gset Z) (accounts : gset string) : result Error (gset Z * gset string) :=
  match l with
  | [] => Ok (ids, accounts)
  | e :: l =>
    let accounts := {[entry_account e]} ∪ accounts in
    let ids := {[entry_id e]} ∪ ids in
    if next <=? entry_id e
    then Err (EInvalidCandidateSet IncoherentParticipantIds)
    else Participants_validate_loop next l ids accounts
  end.

Definition Participants_validate (ps : Participants) : result Error unit :=
  '(ids, accounts) ← Participants_validate_loop (next_id ps) (participants ps) ∅ ∅;
  if negb (zsize ids =? Participants_len ps)
  then Err (EInvalidCandidateSet IncoherentParticipantIds)
  else if negb (zsize accounts =? Participants_len ps)
  then Err (EInvalidCandidateSet IncoherentParticipantIds)
  else Ok tt.

Definition Participants_is_participant_given_account_id (ps : Participants)
    (account_id : AccountId) : bool :=
  any (λ e, bool_decide (entry_account e = account_id)) (participants ps).

Definition Participants_is_participant_given_participant_id (ps : Participants)
    (participant_id : ParticipantId) : bool :=
  any (λ e, entry_id e =? participant_id) (participants ps).

Definition Participants_init (next : ParticipantId) (l : list ParticipantEntry) : Participants :=
  mkParticipants next l.

Definition Participants_info (ps : Participants) (account_id : AccountId) :
    option ParticipantInfo :=
  entry_info <$> find (λ e, bool_decide (entry_account e = account_id)) (participants ps).

(** The loop of [update_info]: overwrite the first entry of the account. *)
Fixpoint Participants_update_info_loop (l : list ParticipantEntry) (account_id : AccountId)
    (new_info : ParticipantInfo) : option (list ParticipantEntry) :=
  match l with
  | [] => None
  | e :: l =>
    if bool_decide (entry_account e = account_id)
    then Some ((entry_account e, entry_id e, new_info) :: l)
    else cons e <$> Participants_update_info_loop l account_id new_info
  end.

Definition Participants_update_info (ps : Participants) (account_id : AccountId)
    (new_info : ParticipantInfo) : result Error Participants :=
  l ← ok_or (Participants_update_info_loop (participants ps) account_id new_info)
        (EInvalidState NotParticipant);
  Ok (mkParticipants (next_id ps) l).

(** ** Views of a participant set *)

Definition accounts_of (ps : Participants) : list AccountId := entry_account <$> participants ps.
Definition ids_of (ps : Participants) : list ParticipantId := entry_id <$> participants ps.

(** What [validate] promises. *)
Record Participants_wf (ps : Participants) : Prop := {
  wf_ids : NoDup (ids_of ps);
  wf_accounts : NoDup (accounts_of ps);
  wf_next : ∀ id, id ∈ ids_of ps → id < next_id ps;
}.

(** ** Lemmas *)

Lemma is_participant_account_spec ps a :
  Participants_is_participant_given_account_id ps a = true ↔ a ∈ accounts_of ps.
Proof.
  unfold Participants_is_participant_given_account_id, accounts_of.
  rewrite any_spec, list_elem_of_fmap. split.
  - intros (e & ? & ?%bool_decide_eq_true). by exists e.
  - intros (e & -> & ?). exists e. by rewrite bool_decide_eq_true.
Qed.

Lemma is_participant_id_spec ps i :
  Participants_is_participant_given_participant_id ps i = true ↔ i ∈ ids_of ps.
Proof.
  unfold Participants_is_participant_given_participant_id, ids_of.
  rewrite any_spec, list_elem_of_fmap. split.
  - intros (e & ? & ?%Z.eqb_eq). by exists e.
  - intros (e & -> & ?). exists e. by rewrite Z.eqb_eq.
Qed.

Lemma Participants_len_accounts ps : Participants_len ps = zlen (accounts_of ps).
Proof. unfold accounts_of. by rewrite zlen_fmap. Qed.
Lemma Participants_len_ids ps : Participants_len ps = zlen (ids_of ps).
Proof. unfold ids_of. by rewrite zlen_fmap. Qed.

Lemma validate_loop_spec next l ids accs r :
  Participants_validate_loop next l ids accs = Ok r ↔
  (∀ e, e ∈ l → entry_id e < next) ∧
  r = (list_to_set (entry_id <$> l) ∪ ids, list_to_set (entry_account <$> l) ∪ accs).
Proof.
  revert ids accs. induction l as [|e l IH]; intros ids accs; simpl.
  - split; [intros [= <-]; split; [set_solver|f_equal; set_solver]|].
    intros [_ ->]. do 2 f_equal; set_solver.
  - destruct (Z.leb_spec next (entry_id e)) as [Hle|Hlt].
    + split; [done|]. intros [H _]. specialize (H e). set_solver by lia.
    + rewrite IH. split; intros [H ->]; (split; [|f_equal; set_solver]).
      * intros e' [->|]%elem_of_cons; [lia|auto].
      * intros e' ?. apply H. set_solver.
Qed.

(** A list has as many elements as the set of its elements exactly when it
    has no duplicates. *)
Lemma size_list_to_set_NoDup `{Countable A} (l : list A) :
  size (list_to_set l : gset A) = length l ↔ NoDup l.
Proof.
  split; [|apply size_list_to_set].
  induction l as [|x l IH]; intros Hs; [constructor|].
  assert (Hle : ∀ k : list A, (size (list_to_set k : gset A) ≤ length k)%nat).
  { clear. induction k as [|y k IHk]; [done|]. simpl.
    rewrite size_union_alt, size_singleton.
    pose proof (subseteq_size (list_to_set k ∖ {[y]}) (list_to_set k : gset A)
      ltac:(set_solver)). lia. }
  simpl in Hs. destruct (decide (x ∈ (list_to_set l : gset A))) as [Hin|Hin].
  - rewrite (subseteq_union_1_L {[x]} (list_to_set l)) in Hs by set_solver.
    specialize (Hle l). lia.
  - rewrite size_union, size_singleton in Hs by set_solver.
    constructor; [set_solver|apply IH; lia].
Qed.

Lemma Participants_validate_Ok ps :
  Participants_validate ps = Ok tt ↔ Participants_wf ps.
Proof.
  unfold Participants_validate. rewrite bind_Ok. split.
  - intros ([ids accs] & [Hlt Hr]%validate_loop_spec & H). simplify_eq.
    rewrite !(right_id_L ∅ (∪)) in H. inv_ok. prop_bools.
    unfold zsize, Participants_len, zlen in *. split.
    + apply size_list_to_set_NoDup. unfold ids_of. rewrite length_fmap. lia.
    + apply size_list_to_set_NoDup. unfold accounts_of. rewrite length_fmap. lia.
    + intros id (e & -> & He)%list_elem_of_fmap. auto.
  - intros [Hi Ha Hn]. eexists. rewrite validate_loop_spec. split; [split; [|done]|].
    + intros e He. apply Hn. apply list_elem_of_fmap. eauto.
    + rewrite !(right_id_L ∅ (∪)). unfold zsize, Participants_len, zlen.
      rewrite (size_list_to_set (C:=gset Z) _ Hi), (size_list_to_set (C:=gset string) _ Ha).
      unfold ids_of, accounts_of. rewrite !length_fmap. by rewrite !Z.eqb_refl.
Qed.

(** [validate] reports one kind of error and never panics. *)
Lemma Participants_validate_total ps :
  Participants_validate ps = Ok tt ∨
  Participants_validate ps = Err (EInvalidCandidateSet IncoherentParticipantIds).
Proof.
  unfold Participants_validate.
  assert (H : ∀ n l i a, (∃ r, Participants_validate_loop n l i a = Ok r) ∨
    Participants_validate_loop n l i a = Err (EInvalidCandidateSet IncoherentParticipantIds)).
  { intros n l. induction l as [|e l IH]; intros; simpl; [eauto|]. case_match; eauto. }
  destruct (H (next_id ps) (participants ps) ∅ ∅) as [[[ids accs] ->]| ->]; simpl; [|auto].
  repeat case_match; auto.
Qed.

Lemma Participants_wf_len_set ps (s : gset string) :
  Participants_wf ps → s ⊆ list_to_set (accounts_of ps) →
  zsize s ≤ Participants_len ps.
Proof.
  intros Hwf Hs. rewrite Participants_len_accounts. unfold zsize, zlen.
  rewrite <- (size_list_to_set (C:=gset string) (accounts_of ps)) by apply Hwf.
  apply subseteq_size in Hs. lia.
Qed.

Lemma Participants_wf_ids_len_set ps (s : gset Z) :
  Participants_wf ps → s ⊆ list_to_set (ids_of ps) →
  zsize s ≤ Participants_len ps.
Proof.
  intros Hwf Hs. rewrite Participants_len_ids. unfold zsize, zlen.
  rewrite <- (size_list_to_set (C:=gset Z) (ids_of ps)) by apply Hwf.
  apply subseteq_size in Hs. lia.
Qed.

(** If as many distinct members voted as there are participants, all of them did. *)
Lemma full_account_set ps (s : gset string) :
  Participants_wf ps → s ⊆ list_to_set (accounts_of ps) →
  zsize s = Participants_len ps → s = list_to_set (accounts_of ps).
Proof.
  intros Hwf Hs Hsz. apply set_subseteq_size_eq; [done|].
  rewrite size_list_to_set by apply Hwf. rewrite Participants_len_accounts in Hsz.
  unfold zsize, zlen in Hsz. lia.
Qed.

Lemma full_id_set ps (s : gset Z) :
  Participants_wf ps → s ⊆ list_to_set (ids_of ps) →
  zsize s = Participants_len ps → s = list_to_set (ids_of ps).
Proof.
  intros Hwf Hs Hsz. apply set_subseteq_size_eq; [done|].
  rewrite size_list_to_set by apply Hwf. rewrite Participants_len_ids in Hsz.
  unfold zsize, zlen in Hsz. lia.
Qed.

(** [insert_with_id] keeps the set well formed, as long as the id is not
    [u32::MAX] (whose successor wraps to 0). *)
Lemma Participants_insert_with_id_wf ps a info id ps' :
  Participants_wf ps → 0 ≤ id < u32_max →
  Participants_insert_with_id ps a info id = Ok ps' →
  Participants_wf ps' ∧
  accounts_of ps' = accounts_of ps ++ [a] ∧ ids_of ps' = ids_of ps ++ [id] ∧
  next_id ps' = id + 1.
Proof.
  intros [Hi Ha Hn] Hid H. unfold Participants_insert_with_id in H. inv_ok.
  prop_bools. rename Heqb into Hfresh. rewrite any_false in Hfresh.
  rewrite u32_add_small by (unfold u32_max in *; lia).
  assert (Ea : accounts_of (mkParticipants (id + 1) (participants ps ++ [(a, id, info)]))
    = accounts_of ps ++ [a]) by (unfold accounts_of; simpl; by rewrite fmap_app).
  assert (Ei : ids_of (mkParticipants (id + 1) (participants ps ++ [(a, id, info)]))
    = ids_of ps ++ [id]) by (unfold ids_of; simpl; by rewrite fmap_app).
  split; [|done]. split; rewrite ?Ea, ?Ei; simpl.
  - apply NoDup_app. split; [done|]. split; [|apply NoDup_singleton].
    intros i (e & -> & He)%list_elem_of_fmap Heq%list_elem_of_singleton.
    specialize (Hfresh e He). prop_bools. done.
  - apply NoDup_app. split; [done|]. split; [|apply NoDup_singleton].
    intros i (e & -> & He)%list_elem_of_fmap Heq%list_elem_of_singleton.
    specialize (Hfresh e He). prop_bools. done.
  - intros i [Hin| ->%list_elem_of_singleton]%elem_of_app; [|lia].
    specialize (Hn i Hin). lia.
Qed.

Lemma update_info_loop_spec l a info l' :
  Participants_update_info_loop l a info = Some l' →
  entry_account <$> l' = entry_account <$> l ∧ entry_id <$> l' = entry_id <$> l ∧
  find (λ e, bool_decide (entry_account e = a)) l' =
    (λ e, (entry_account e, entry_id e, info)) <$>
      find (λ e, bool_decide (entry_account e = a)) l ∧
  ∀ b, b ≠ a → find (λ e, bool_decide (entry_account e = b)) l' =
               find (λ e, bool_decide (entry_account e = b)) l.
Proof.
  revert l'. induction l as [|e l IH]; intros l'; simpl; [done|].
  case_bool_decide as He.
  - intros [= <-]. simpl. unfold entry_account at 1; simpl.
    repeat split; try done.
    + by rewrite bool_decide_eq_true_2.
    + intros b Hb. unfold entry_account at 1; simpl.
      rewrite !bool_decide_eq_false_2 by congruence. done.
  - destruct (Participants_update_info_loop l a info) as [l''|] eqn:E; simpl; [|done].
    intros [= <-]. destruct (IH l'' eq_refl) as (Ha & Hi & Hf & Hb).
    rewrite !fmap_cons, Ha, Hi. repeat split; try done; simpl.
    + rewrite bool_decide_eq_false_2 by done. done.
    + intros b Hne. case_bool_decide; auto.
Qed.

Lemma Participants_update_info_spec ps a info ps' :
  Participants_update_info ps a info = Ok ps' →
  accounts_of ps' = accounts_of ps ∧ ids_of ps' = ids_of ps ∧
  next_id ps' = next_id ps ∧ a ∈ accounts_of ps ∧
  Participants_info ps' a = Some info ∧
  ∀ b, b ≠ a → Participants_info ps' b = Participants_info ps b.
Proof.
  unfold Participants_update_info. intros H. inv_ok.
  apply update_info_loop_spec in H0 as Hs. destruct Hs as (Ha & Hi & Hf & Hb).
  unfold accounts_of, ids_of, Participants_info; simpl. rewrite Ha, Hi, Hf.
  assert (Hex : is_Some (find (λ e, bool_decide (entry_account e = a)) (participants ps))).
  { clear -H0. revert H0. generalize (participants ps) x.
    intros l. induction l as [|e l IH]; intros l'; simpl; [done|].
    case_bool_decide; [eauto|].
    destruct (Participants_update_info_loop l a info) eqn:E; simpl; [eauto|done]. }
  destruct Hex as [e He]. rewrite He. simpl.
  split; [done|]. split; [done|]. split; [done|]. split.
  - apply find_Some in He as [He ?%bool_decide_eq_true].
    apply list_elem_of_fmap. by exists e.
  - split; [done|]. intros b Hne. by rewrite Hb.
Qed.

Lemma Participants_update_info_wf ps a info ps' :
  Participants_update_info ps a info = Ok ps' → Participants_wf ps → Participants_wf ps'.
Proof.
  intros (Ha & Hi & Hn & _)%Participants_update_info_spec [? ? Hnext].
  split; rewrite ?Ha, ?Hi, ?Hn; auto.
Qed.

(** Keeping some of the entries keeps the set well formed. *)
Lemma Participants_wf_sublist ps l :
  Participants_wf ps → l `sublist_of` participants ps →
  Participants_wf (mkParticipants (next_id ps) l).
Proof.
  intros [Hi Ha Hn] Hsub. unfold ids_of, accounts_of in *.
  assert (H1 : (entry_id <$> l) `sublist_of` (entry_id <$> participants ps))
    by by apply fmap_sublist.
  assert (H2 : (entry_account <$> l) `sublist_of` (entry_account <$> participants ps))
    by by apply fmap_sublist.
  split; simpl.
  - by eapply sublist_NoDup.
  - by eapply sublist_NoDup.
  - intros id Hid. apply Hn. by eapply elem_of_sublist.
Qed.
