(* ===== verification/Thresholds.v ===== *)
(** * Threshold parameters ([primitives/thresholds.rs])

    A participant set with its signing threshold, the rules a threshold obeys,
    and the rules a proposal for new parameters obeys against the current
    ones; and the votes on such proposals ([primitives/votes.rs]). *)

From S2P Require Import Prelude Types Participants.

(** ** Data *)

Definition MIN_THRESHOLD_ABSOLUTE : Z := 2.

Record ThresholdParameters : Type := mkThresholdParameters {
  tp_participants : Participants;
  tp_threshold : Threshold;
}.

#[global] Instance ThresholdParameters_eq_dec : EqDecision ThresholdParameters.
Proof. solve_decision. Defined.

(** ** Operations *)

Definition ThresholdParameters_validate_threshold (n_shares : Z) (k : Threshold) :
    result Error unit :=
  if n_shares <? k then Err (EInvalidThreshold MaxRequirementFailed)
  else if k <? MIN_THRESHOLD_ABSOLUTE then Err (EInvalidThreshold MinAbsRequirementFailed)
  else
    let percentage_bound := u64_div_ceil (u64_mul 3 n_shares) 5 in
    if k <? percentage_bound then Err (EInvalidThreshold MinRelRequirementFailed)
    else Ok tt.

Definition ThresholdParameters_new (ps : Participants) (k : Threshold) :
    result Error ThresholdParameters :=
  match ThresholdParameters_validate_threshold (Participants_len ps) k with
  | Ok _ => Ok (mkThresholdParameters ps k)
  | Err e => Err e
  | Panic p => Panic p
  end.

Definition ThresholdParameters_validate (tp : ThresholdParameters) : result Error unit :=
  _ ← ThresholdParameters_validate_threshold
        (Participants_len (tp_participants tp)) (tp_threshold tp);
  Participants_validate (tp_participants tp).

(** The two maps [validate_incoming_proposal] builds from the current set. *)
Definition old_by_id (l : list ParticipantEntry) : gmap Z string :=
  foldl (λ m e, <[entry_id e := entry_account e]> m) ∅ l.
Definition old_by_acc (l : list ParticipantEntry) : gmap string (Z * ParticipantInfo) :=
  foldl (λ m e, <[entry_account e := (entry_id e, entry_info e)]> m) ∅ l.

(** The loop over the proposed participants: the least and greatest id of the
    new ones, and how many are old. *)
Fixpoint incoming_proposal_loop (by_id : gmap Z string)
    (by_acc : gmap string (Z * ParticipantInfo)) (l : list ParticipantEntry)
    (new_min_id new_max_id n_old : Z) : result Error (Z * Z * Z) :=
  match l with
  | [] => Ok (new_min_id, new_max_id, n_old)
  | e :: l =>
    match by_acc !! entry_account e with
    | Some (old_id, old_info) =>
      if negb (entry_id e =? old_id)
      then Err (EInvalidCandidateSet IncoherentParticipantIds)
      else if negb (bool_decide (entry_info e = old_info))
      then Err (EInvalidCandidateSet IncoherentParticipantIds)
      else incoming_proposal_loop by_id by_acc l new_min_id new_max_id (u64_add n_old 1)
    | None =>
      if bool_decide (is_Some (by_id !! entry_id e))
      then Err (EInvalidCandidateSet IncoherentParticipantIds)
      else incoming_proposal_loop by_id by_acc l
             (Z.min new_min_id (entry_id e)) (Z.max new_max_id (entry_id e)) n_old
    end
  end.

Definition ThresholdParameters_validate_incoming_proposal
    (self proposal : ThresholdParameters) : result Error unit :=
  _ ← ThresholdParameters_validate proposal;
  let old := participants (tp_participants self) in
  '(new_min_id, new_max_id, n_old) ←
    incoming_proposal_loop (old_by_id old) (old_by_acc old)
      (participants (tp_participants proposal)) u32_max 0 0;
  if n_old <? tp_threshold self
  then Err (EInvalidCandidateSet InsufficientOldParticipants)
  else
    let n_new := u64_sub (Participants_len (tp_participants proposal)) n_old in
    if 0 <? n_new then
      if negb (u64_sub n_new 1 =? u32_sub new_max_id new_min_id)
      then Err (EInvalidCandidateSet NewParticipantIdsNotContiguous)
      else if negb (new_min_id =? next_id (tp_participants self))
      then Err (EInvalidCandidateSet NewParticipantIdsNotContiguous)
      else if negb (u32_add new_max_id 1 =? next_id (tp_participants proposal))
      then Err (EInvalidCandidateSet NewParticipantIdsTooHigh)
      else Ok tt
    else Ok tt.

Definition ThresholdParameters_update_info (tp : ThresholdParameters)
    (account_id : AccountId) (new_info : ParticipantInfo) :
    result Error ThresholdParameters :=
  ps ← Participants_update_info (tp_participants tp) account_id new_info;
  Ok (mkThresholdParameters ps (tp_threshold tp)).

(** ** What the checks promise *)

(** Machine bounds of the values a deserialized proposal can carry: ids are
    [u32]s and a vector on wasm32 has fewer than [2^32] elements. *)
Record Participants_bounded (ps : Participants) : Prop := {
  bounded_ids : ∀ id, id ∈ ids_of ps → 0 ≤ id;
  bounded_next : is_u32 (next_id ps);
  bounded_len : Participants_len ps ≤ u32_max;
}.

(** A threshold between 60% of the participants (rounded up) and all of
    them, and at least two. *)
Definition threshold_ok (n k : Z) : Prop := 2 ≤ k ∧ k ≤ n ∧ 3 * n ≤ 5 * k.

Record ThresholdParameters_wf (tp : ThresholdParameters) : Prop := {
  wf_participants : Participants_wf (tp_participants tp);
  wf_threshold : threshold_ok (Participants_len (tp_participants tp)) (tp_threshold tp);
}.

Definition is_old (self : Participants) (e : ParticipantEntry) : Prop :=
  entry_account e ∈ accounts_of self.
#[global] Instance is_old_dec self e : Decision (is_old self e).
Proof. unfold is_old. apply _. Defined.

(** Participants of [q] that were in [p] already, and the others. *)
Definition old_entries (p q : Participants) : list ParticipantEntry :=
  filter (is_old p) (participants q).
Definition new_entries (p q : Participants) : list ParticipantEntry :=
  filter (λ e, ¬ is_old p e) (participants q).

(** What an accepted proposal satisfies. *)
Record incoming_ok (self proposal : ThresholdParameters) : Prop := {
  inc_wf : ThresholdParameters_wf proposal;
  inc_old_same : ∀ e, e ∈ old_entries (tp_participants self) (tp_participants proposal) →
    e ∈ participants (tp_participants self);
  inc_new_fresh : ∀ e, e ∈ new_entries (tp_participants self) (tp_participants proposal) →
    entry_id e ∉ ids_of (tp_participants self);
  inc_quorum : tp_threshold self ≤
    zlen (old_entries (tp_participants self) (tp_participants proposal));
  inc_new_ids : new_entries (tp_participants self) (tp_participants proposal) ≠ [] →
    next_id (tp_participants proposal) = next_id (tp_participants self) +
      zlen (new_entries (tp_participants self) (tp_participants proposal)) ∧
    ∀ e, e ∈ new_entries (tp_participants self) (tp_participants proposal) →
      next_id (tp_participants self) ≤ entry_id e < next_id (tp_participants proposal);
}.

(** ** Lemmas *)

Lemma validate_threshold_Ok n k :
  0 ≤ n ≤ u32_max →
  ThresholdParameters_validate_threshold n k = Ok tt ↔ threshold_ok n k.
Proof.
  intros Hn. unfold ThresholdParameters_validate_threshold, threshold_ok, MIN_THRESHOLD_ABSOLUTE.
  rewrite u64_mul_small by (unfold u32_max, u64_max in *; lia).
  pose proof (u64_div_ceil_spec (3 * n) 5 k ltac:(lia)).
  destruct (Z.ltb_spec n k), (Z.ltb_spec k 2), (Z.ltb_spec k (u64_div_ceil (3 * n) 5));
    split; try done; lia.
Qed.

Lemma ThresholdParameters_validate_Ok tp :
  Participants_len (tp_participants tp) ≤ u32_max →
  ThresholdParameters_validate tp = Ok tt ↔ ThresholdParameters_wf tp.
Proof.
  intros Hlen. unfold ThresholdParameters_validate. rewrite bind_Ok.
  assert (0 ≤ Participants_len (tp_participants tp)) by (unfold Participants_len; auto with mpc).
  split.
  - intros ([] & H1 & H2). split.
    + by apply Participants_validate_Ok.
    + by apply validate_threshold_Ok.
  - intros [H1 H2]. exists tt. split.
    + by apply validate_threshold_Ok.
    + by apply Participants_validate_Ok.
Qed.

Lemma old_by_id_lookup l i :
  is_Some (old_by_id l !! i) ↔ i ∈ entry_id <$> l.
Proof.
  unfold old_by_id. induction l as [|e l IH] using rev_ind; simpl.
  - rewrite lookup_empty. split; [intros [? [=]]|set_solver].
  - rewrite foldl_app, fmap_app; simpl. rewrite lookup_insert, elem_of_app.
    case_decide as Hd; [|rewrite IH]; set_solver.
Qed.

Lemma old_by_acc_None l a :
  old_by_acc l !! a = None ↔ a ∉ entry_account <$> l.
Proof.
  unfold old_by_acc. induction l as [|e l IH] using rev_ind; simpl.
  - rewrite lookup_empty. set_solver.
  - rewrite foldl_app, fmap_app; simpl. rewrite lookup_insert.
    case_decide as Hd; [|rewrite IH]; set_solver.
Qed.

Lemma old_by_acc_Some l a i info :
  NoDup (entry_account <$> l) →
  old_by_acc l !! a = Some (i, info) ↔ (a, i, info) ∈ l.
Proof.
  unfold old_by_acc. induction l as [|e l IH] using rev_ind; simpl.
  - rewrite lookup_empty. set_solver.
  - rewrite fmap_app; simpl. intros (Hnd & Hdisj & _)%NoDup_app.
    rewrite foldl_app; simpl. rewrite lookup_insert, elem_of_app.
    destruct e as [[b j] inf]; unfold entry_account, entry_id, entry_info in *; simpl in *.
    case_decide as Hd.
    + subst. split; [intros [= <- <-]; right; set_solver|].
      intros [Hin|Hin]; [|set_solver].
      exfalso. apply (Hdisj a); [|set_solver].
      apply list_elem_of_fmap. by exists (a, i, info).
    + rewrite (IH Hnd). set_solver.
Qed.

(** Least and greatest id of a list, from given starting values. *)
Definition min_id (l : list ParticipantEntry) (m : Z) : Z := foldl (λ m e, Z.min m (entry_id e)) m l.
Definition max_id (l : list ParticipantEntry) (m : Z) : Z := foldl (λ m e, Z.max m (entry_id e)) m l.

Lemma min_id_spec l m :
  min_id l m ≤ m ∧ (∀ e, e ∈ l → min_id l m ≤ entry_id e) ∧
  (min_id l m = m ∨ ∃ e, e ∈ l ∧ min_id l m = entry_id e).
Proof.
  revert m. induction l as [|x l IH]; intros m; simpl; [set_solver by lia|].
  destruct (IH (Z.min m (entry_id x))) as (H1 & H2 & H3). unfold min_id in *. simpl.
  split; [lia|]. split.
  - intros e [->|He]%elem_of_cons; [lia|auto].
  - destruct H3 as [H3|(e & He & H3)]; [|right; exists e; set_solver].
    destruct (Z.min_spec m (entry_id x)) as [[? Hm]|[? Hm]]; [left; lia|].
    right. exists x. split; [set_solver|lia].
Qed.

Lemma max_id_spec l m :
  m ≤ max_id l m ∧ (∀ e, e ∈ l → entry_id e ≤ max_id l m) ∧
  (max_id l m = m ∨ ∃ e, e ∈ l ∧ max_id l m = entry_id e).
Proof.
  revert m. induction l as [|x l IH]; intros m; simpl; [set_solver by lia|].
  destruct (IH (Z.max m (entry_id x))) as (H1 & H2 & H3). unfold max_id in *. simpl.
  split; [lia|]. split.
  - intros e [->|He]%elem_of_cons; [lia|auto].
  - destruct H3 as [H3|(e & He & H3)]; [|right; exists e; set_solver].
    destruct (Z.max_spec m (entry_id x)) as [[? Hm]|[? Hm]]; [|left; lia].
    right. exists x. split; [set_solver|lia].
Qed.

Lemma filter_old_cons p (e : ParticipantEntry) l : is_old p e →
  filter (is_old p) (e :: l) = e :: filter (is_old p) l ∧
  filter (λ e, ¬ is_old p e) (e :: l) = filter (λ e, ¬ is_old p e) l.
Proof.
  intros. split; [by apply filter_cons_True|]. apply filter_cons_False. tauto.
Qed.

Lemma filter_new_cons p (e : ParticipantEntry) l : ¬ is_old p e →
  filter (is_old p) (e :: l) = filter (is_old p) l ∧
  filter (λ e, ¬ is_old p e) (e :: l) = e :: filter (λ e, ¬ is_old p e) l.
Proof.
  intros. split; [by apply filter_cons_False|]. by apply filter_cons_True.
Qed.

Lemma incoming_loop_spec p l mn mx n r :
  Participants_wf p → 0 ≤ n → n + zlen l ≤ u64_max →
  incoming_proposal_loop (old_by_id (participants p)) (old_by_acc (participants p)) l mn mx n
    = Ok r ↔
  (∀ e, e ∈ l → is_old p e → e ∈ participants p) ∧
  (∀ e, e ∈ l → ¬ is_old p e → entry_id e ∉ ids_of p) ∧
  r = (min_id (filter (λ e, ¬ is_old p e) l) mn, max_id (filter (λ e, ¬ is_old p e) l) mx,
       n + zlen (filter (is_old p) l)).
Proof.
  intros Hwf. revert mn mx n. induction l as [|e l IH]; intros mn mx n Hn Hb.
  { simpl. unfold zlen, min_id, max_id; simpl. rewrite Z.add_0_r.
    split; [intros [= <-]; set_solver|by intros (_ & _ & ->)]. }
  autorewrite with mpc_rw in Hb. pose proof (zlen_nonneg l).
  simpl. destruct (old_by_acc (participants p) !! entry_account e) as [[i info]|] eqn:E.
  - apply old_by_acc_Some in E; [|apply Hwf].
    assert (Hold : is_old p e).
    { apply list_elem_of_fmap. by exists (entry_account e, i, info). }
    destruct (filter_old_cons p e l Hold) as [-> ->]. rewrite zlen_cons.
    assert (Hiff : e ∈ participants p ↔ entry_id e = i ∧ entry_info e = info).
    { split.
      - intros He. destruct e as [[a j] inf].
        apply old_by_acc_Some in E, He; try apply Hwf. unfold entry_account in *; simpl in *.
        rewrite E in He. by injection He as -> ->.
      - intros [<- <-]. by destruct e as [[a j] inf]. }
    rewrite u64_add_small by lia.
    destruct (Z.eqb_spec (entry_id e) i); simpl; [|naive_solver set_solver].
    case_bool_decide; simpl; [|naive_solver set_solver].
    rewrite IH by lia. setoid_rewrite elem_of_cons.
    split; intros (H1 & H2 & ->); (split; [|split; [|f_equal; lia]]); naive_solver.
  - apply old_by_acc_None in E.
    destruct (filter_new_cons p e l E) as [-> ->]. simpl.
    case_bool_decide as Hid; rewrite old_by_id_lookup in Hid.
    + split; [done|]. intros (_ & H2 & _). exfalso. apply (H2 e); [set_solver|done|done].
    + rewrite IH by lia. setoid_rewrite elem_of_cons. unfold is_old in *.
      split; intros (H1 & H2 & ->); (split; [|split; [|done]]); naive_solver.
Qed.

(** The loop as [validate_incoming_proposal] starts it. *)
Lemma incoming_loop_start p q r :
  Participants_wf p → zlen (participants q) ≤ u32_max →
  incoming_proposal_loop (old_by_id (participants p)) (old_by_acc (participants p))
    (participants q) u32_max 0 0 = Ok r ↔
  (∀ e, e ∈ participants q → is_old p e → e ∈ participants p) ∧
  (∀ e, e ∈ participants q → ¬ is_old p e → entry_id e ∉ ids_of p) ∧
  r = (min_id (new_entries p q) u32_max, max_id (new_entries p q) 0, zlen (old_entries p q)).
Proof.
  intros Hwf Hlen. rewrite incoming_loop_spec; [by rewrite Z.add_0_l|done|lia|].
  unfold u32_max, u64_max in *; lia.
Qed.

(** Distinct integers between [a] and [b] are at most [b - a + 1] many. *)
Lemma NoDup_range_length (l : list Z) a b :
  NoDup l → a ≤ b + 1 → (∀ x, x ∈ l → a ≤ x ≤ b) → zlen l ≤ b - a + 1.
Proof.
  intros Hnd Hab Hl.
  assert (Hsub : l ⊆+ seqZ a (b - a + 1)).
  { apply NoDup_submseteq; [done|]. intros x Hx. apply elem_of_seqZ.
    specialize (Hl x Hx). lia. }
  apply submseteq_length in Hsub. rewrite length_seqZ in Hsub. unfold zlen. lia.
Qed.

Lemma filter_zlen_split p (l : list ParticipantEntry) :
  zlen l = zlen (filter (is_old p) l) + zlen (filter (λ e, ¬ is_old p e) l).
Proof.
  induction l as [|e l IH]; [done|]. destruct (decide (is_old p e)).
  - destruct (filter_old_cons p e l) as [-> ->]; [done|]. rewrite !zlen_cons. lia.
  - destruct (filter_new_cons p e l) as [-> ->]; [done|]. rewrite !zlen_cons. lia.
Qed.

Lemma new_entries_NoDup p q :
  Participants_wf q → NoDup (entry_id <$> new_entries p q).
Proof.
  intros Hq. eapply sublist_NoDup; [apply (wf_ids _ Hq)|].
  unfold ids_of, new_entries. apply fmap_sublist. apply sublist_filter.
Qed.

Lemma new_entries_id p q e :
  Participants_wf q → Participants_bounded q → e ∈ new_entries p q →
  0 ≤ entry_id e < next_id q.
Proof.
  intros Hwf Hq [_ He]%list_elem_of_filter.
  assert (entry_id e ∈ ids_of q) by (apply list_elem_of_fmap; eauto).
  split; [by apply Hq|by apply Hwf].
Qed.

(** On a proposal with new participants the machine arithmetic of the three
    tests is exact. *)
Lemma new_ids_tests p q :
  Participants_wf q → Participants_bounded q →
  let new := new_entries p q in
  new ≠ [] → zlen new ≤ u32_max →
  u64_sub (zlen new) 1 = zlen new - 1 ∧
  u32_sub (max_id new 0) (min_id new u32_max) = max_id new 0 - min_id new u32_max ∧
  u32_add (max_id new 0) 1 = max_id new 0 + 1 ∧ 0 < zlen new.
Proof.
  intros Hwf Hq new Hne Hlen.
  destruct (min_id_spec new u32_max) as (_ & Hmin & Hmin').
  destruct (max_id_spec new 0) as (_ & Hmax & Hmax').
  destruct (bounded_next _ Hq) as [? ?].
  destruct (non_nil_elem new Hne) as [e0 He0]. pose proof (zlen_pos new Hne).
  pose proof (Hmin e0 He0). pose proof (Hmax e0 He0).
  pose proof (new_entries_id p q e0 Hwf Hq He0).
  assert (0 ≤ min_id new u32_max).
  { destruct Hmin' as [->|(e & He & ->)]; [done|]. by apply (new_entries_id p q). }
  assert (max_id new 0 < next_id q).
  { destruct Hmax' as [->|(e & He & ->)]; [lia|]. by apply (new_entries_id p q). }
  rewrite u64_sub_small by (unfold u32_max, u64_max in *; lia).
  rewrite u32_sub_small by lia. rewrite u32_add_small by lia. auto.
Qed.

(** The tests on the least and the greatest new id say that the new ids are
    exactly the next free ones. *)
Lemma new_ids_contiguous p q :
  Participants_wf q → Participants_bounded p → Participants_bounded q →
  let new := new_entries p q in
  new ≠ [] →
  (zlen new - 1 = max_id new 0 - min_id new u32_max ∧
   min_id new u32_max = next_id p ∧ max_id new 0 + 1 = next_id q) ↔
  (next_id q = next_id p + zlen new ∧
   ∀ e, e ∈ new → next_id p ≤ entry_id e < next_id q).
Proof.
  intros Hwf Hp Hq new Hne.
  destruct (min_id_spec new u32_max) as (Hm1 & Hm2 & Hm3).
  destruct (max_id_spec new 0) as (Hx1 & Hx2 & Hx3).
  assert (Hin : ∀ e, e ∈ new → 0 ≤ entry_id e < next_id q)
    by (intros; by apply (new_entries_id p q)).
  destruct (non_nil_elem new Hne) as [e0 He0].
  pose proof (Hin e0 He0). pose proof (Hm2 e0 He0). pose proof (Hx2 e0 He0).
  destruct (bounded_next _ Hq) as [? ?]. destruct (bounded_next _ Hp) as [? ?].
  split.
  - intros (Hcount & Hfirst & Hlast). split; [lia|]. intros e He.
    specialize (Hm2 e He). specialize (Hx2 e He). lia.
  - intros [Hnext Hrange].
    pose proof (NoDup_range_length (entry_id <$> new) (min_id new u32_max) (max_id new 0)
      (new_entries_NoDup p q Hwf) ltac:(lia)) as Hlen.
    rewrite zlen_fmap in Hlen. specialize (Hlen ltac:(intros x (e & -> & He)%list_elem_of_fmap; auto)).
    pose proof (Hrange e0 He0).
    assert (next_id p ≤ min_id new u32_max).
    { destruct Hm3 as [->|(e & He & ->)]; [lia|]. by apply Hrange. }
    assert (max_id new 0 < next_id q).
    { destruct Hx3 as [->|(e & He & ->)]; [lia|]. by apply Hrange. }
    lia.
Qed.

Lemma validate_incoming_proposal_Ok self proposal :
  Participants_wf (tp_participants self) →
  Participants_bounded (tp_participants self) →
  Participants_bounded (tp_participants proposal) →
  ThresholdParameters_validate_incoming_proposal self proposal = Ok tt ↔
  incoming_ok self proposal.
Proof.
  intros Hself Hbs Hbp. set (p := tp_participants self) in *.
  set (q := tp_participants proposal) in *.
  unfold ThresholdParameters_validate_incoming_proposal. fold p q.
  pose proof (filter_zlen_split p (participants q)) as Hsplit.
  fold (old_entries p q) (new_entries p q) in Hsplit.
  pose proof (zlen_nonneg (old_entries p q)). pose proof (zlen_nonneg (new_entries p q)).
  pose proof (bounded_len _ Hbp) as Hlen. unfold Participants_len in Hlen.
  pose proof (λ r, incoming_loop_start p q r Hself Hlen) as Hloop.
  assert (En : u64_sub (Participants_len q) (zlen (old_entries p q)) =
    zlen (new_entries p q)).
  { unfold Participants_len.
    rewrite u64_sub_small by (unfold u32_max, u64_max in *; lia). lia. }
  split.
  - intros ([] & Hv & Hr)%bind_Ok. apply bind_Ok in Hr as (r & Hl & Hr).
    apply Hloop in Hl as (Hsame & Hfresh & ->).
    apply ThresholdParameters_validate_Ok in Hv; [|apply Hbp].
    cbn beta iota in Hr. rewrite En in Hr.
    destruct (Z.ltb_spec (zlen (old_entries p q)) (tp_threshold self)); [done|].
    split; fold p q; [done| | |done|].
    + intros e [? ?]%list_elem_of_filter. by apply Hsame.
    + intros e [? ?]%list_elem_of_filter. by apply Hfresh.
    + intros Hne. apply new_ids_contiguous; auto; [apply Hv|].
      destruct (new_ids_tests p q) as (E1 & E2 & E3 & Hpos); auto; [apply Hv|lia|].
      rewrite E1, E2, E3 in Hr. inv_ok; prop_bools; [done|lia].
  - intros [Hv Hsame Hfresh Hquorum Hnew]. fold p q in Hsame, Hfresh, Hquorum, Hnew.
    apply bind_Ok. exists tt.
    split; [by apply ThresholdParameters_validate_Ok; [apply Hbp|]|].
    apply bind_Ok. eexists. rewrite Hloop. split; [split; [|split; [|done]]|]; cbn beta iota; rewrite ?En.
    + intros e He Ho. apply Hsame. by apply list_elem_of_filter.
    + intros e He Ho. apply Hfresh. by apply list_elem_of_filter.
    + destruct (Z.ltb_spec (zlen (old_entries p q)) (tp_threshold self)); [lia|].
      destruct (decide (new_entries p q = [])) as [->|Hne]; [done|].
      destruct (new_ids_tests p q) as (E1 & E2 & E3 & Hpos); auto; [apply Hv|lia|].
      rewrite E1, E2, E3.
      apply new_ids_contiguous in Hnew as (-> & -> & ->); auto; [|apply Hv].
      rewrite !Z.eqb_refl. by case_match.
Qed.

Lemma validate_threshold_no_panic n k : no_panic (ThresholdParameters_validate_threshold n k).
Proof. unfold ThresholdParameters_validate_threshold. by repeat case_match. Qed.

Lemma ThresholdParameters_validate_no_panic tp : no_panic (ThresholdParameters_validate tp).
Proof.
  apply bind_no_panic; [apply validate_threshold_no_panic|]. intros _ _.
  by destruct (Participants_validate_total (tp_participants tp)) as [-> | ->].
Qed.

Lemma incoming_loop_no_panic m1 m2 l a b c : no_panic (incoming_proposal_loop m1 m2 l a b c).
Proof.
  revert a b c. induction l as [|e l IH]; intros; simpl; [done|]. repeat case_match; auto with mpc.
Qed.

Lemma validate_incoming_proposal_no_panic self proposal :
  no_panic (ThresholdParameters_validate_incoming_proposal self proposal).
Proof.
  apply bind_no_panic; [apply ThresholdParameters_validate_no_panic|]. intros _ _.
  apply bind_no_panic; [apply incoming_loop_no_panic|].
  intros [[mn mx] n] _. cbn beta iota zeta.
  repeat match goal with |- no_panic (if ?b then _ else _) => destruct b end; done.
Qed.

(** ** Votes for new threshold parameters ([primitives/votes.rs])

    Each account holds at most one vote; a vote replaces the previous one. *)

Record ThresholdParametersVotes : Type := mkThresholdParametersVotes {
  proposal_by_account : gmap string ThresholdParameters;
}.

Definition ThresholdParametersVotes_default : ThresholdParametersVotes :=
  mkThresholdParametersVotes ∅.

Definition ThresholdParametersVotes_n_votes (v : ThresholdParametersVotes)
    (proposal : ThresholdParameters) (ps : Participants) : Z :=
  zsize (filter (λ kv : string * ThresholdParameters,
    any (λ e, bool_decide (kv.1 = entry_account e)) (participants ps) = true ∧
    kv.2 = proposal) (proposal_by_account v)).

Definition ThresholdParametersVotes_vote (v : ThresholdParametersVotes)
    (proposal : ThresholdParameters) (participant : AuthenticatedAccountId) :
    ThresholdParametersVotes * Z :=
  let m := <[participant := proposal]> (proposal_by_account v) in
  (mkThresholdParametersVotes m,
   zsize (filter (λ kv : string * ThresholdParameters, kv.2 = proposal) m)).

(** The accounts that vote for a proposal. *)
Definition voters_for (v : ThresholdParametersVotes) (proposal : ThresholdParameters) :
    gset string :=
  dom (filter (λ kv : string * ThresholdParameters, kv.2 = proposal) (proposal_by_account v)).

Lemma elem_of_voters_for v proposal a :
  a ∈ voters_for v proposal ↔ proposal_by_account v !! a = Some proposal.
Proof.
  unfold voters_for. rewrite elem_of_dom. split.
  - intros [p [Hp Heq]%map_lookup_filter_Some]. simpl in Heq. by subst.
  - intros Hp. exists proposal. by apply map_lookup_filter_Some.
Qed.

(** The number [vote] returns is the number of accounts that vote for the
    proposal, this vote included. *)
Lemma ThresholdParametersVotes_vote_spec v proposal a :
  let '(v', n) := ThresholdParametersVotes_vote v proposal a in
  n = zsize (voters_for v' proposal) ∧
  voters_for v' proposal = {[a]} ∪ voters_for v proposal ∧
  ∀ q, q ≠ proposal → voters_for v' q = voters_for v q ∖ {[a]}.
Proof.
  unfold ThresholdParametersVotes_vote. split; [|split].
  - unfold zsize, voters_for. by rewrite size_dom.
  - apply set_eq. intros b. rewrite elem_of_union, elem_of_singleton, !elem_of_voters_for.
    simpl. rewrite lookup_insert. case_decide; naive_solver.
  - intros q Hq. apply set_eq. intros b.
    rewrite elem_of_difference, elem_of_singleton, !elem_of_voters_for.
    simpl. rewrite lookup_insert. case_decide; naive_solver.
Qed.

(** [n_votes] counts the voters of the proposal that are in the given set. *)
Lemma ThresholdParametersVotes_n_votes_spec v proposal ps :
  ThresholdParametersVotes_n_votes v proposal ps =
  zsize (filter (λ a, a ∈ accounts_of ps) (voters_for v proposal)).
Proof.
  unfold ThresholdParametersVotes_n_votes, zsize. rewrite <- size_dom.
  do 2 f_equal. apply set_eq. intros a. rewrite elem_of_dom, elem_of_filter, elem_of_voters_for.
  assert (Hm : any (λ e, bool_decide (a = entry_account e)) (participants ps) = true ↔
    a ∈ accounts_of ps).
  { unfold accounts_of. rewrite any_spec, list_elem_of_fmap.
    setoid_rewrite bool_decide_eq_true. naive_solver. }
  split.
  - intros [p [Hp [Ha Heq]]%map_lookup_filter_Some]. simpl in *. subst. tauto.
  - intros [Ha Hp]. exists proposal. apply map_lookup_filter_Some. simpl. tauto.
Qed.
