(* ===== verification/CryptoTypes.v ===== *)
(** * Public keys of a domain ([crypto_shared/types.rs], [crypto-types])

    The key representations the contract stores and serves, and the
    conversions between them.  Curve arithmetic is third-party code: an
    [EdwardsPoint] is represented by the bytes of its compressed form, and
    decompression is a parameter. *)

From S2P Require Import Prelude Types.

(** [dtos::PublicKey]: the interface type, fixed-size byte arrays per curve. *)
Inductive DtoPublicKey : Type :=
  | DtoSecp256k1 (k : bytes)
  | DtoEd25519 (k : bytes)
  | DtoBls12381 (k : bytes).

Inductive PublicKeyExtended : Type :=
  | PkSecp256k1 (near_public_key : PublicKey)
  | PkEd25519 (near_public_key_compressed : PublicKey) (edwards_point : bytes)
  | PkBls12381 (public_key : DtoPublicKey).

Inductive PublicKeyExtendedConversionError : Type :=
  | PublicKeyLengthMalformed
  | FailedDecompressingToEdwardsPoint.

#[global] Instance DtoPublicKey_eq_dec : EqDecision DtoPublicKey.
Proof. solve_decision. Defined.
#[global] Instance PublicKeyExtended_eq_dec : EqDecision PublicKeyExtended.
Proof. solve_decision. Defined.

(** [near_sdk::PublicKey::from_parts] fails on a wrong length; a dto key always
    has the right one. *)
Definition near_key_of_ed25519 (k : bytes) : PublicKey := mkPublicKey ED25519 k.
Definition near_key_of_secp256k1 (k : bytes) : PublicKey := mkPublicKey SECP256K1 k.

(** [From<&near_sdk::PublicKey> for dtos::PublicKey]. *)
Definition dto_of_near_key (pk : PublicKey) : DtoPublicKey :=
  match curve_type pk with
  | SECP256K1 => DtoSecp256k1 (key_data pk)
  | ED25519 => DtoEd25519 (key_data pk)
  end.

(** [TryFrom<PublicKeyExtended> for near_sdk::PublicKey]. *)
Definition near_key_of_extended (k : PublicKeyExtended) : result Error PublicKey :=
  match k with
  | PkSecp256k1 near_public_key => Ok near_public_key
  | PkEd25519 near_public_key_compressed _ => Ok near_public_key_compressed
  | PkBls12381 _ => Err (EConversionError DataConversion)
  end.

(** [From<PublicKeyExtended> for dtos::PublicKey]. *)
Definition dto_of_extended (k : PublicKeyExtended) : DtoPublicKey :=
  match k with
  | PkSecp256k1 near_public_key => dto_of_near_key near_public_key
  | PkEd25519 near_public_key_compressed _ => dto_of_near_key near_public_key_compressed
  | PkBls12381 public_key => public_key
  end.

(** [TryFrom<near_sdk::PublicKey> for Ed25519PublicKey]: the key bytes of an
    ed25519 key. *)
Definition ed25519_of_near_key (pk : PublicKey) : option bytes :=
  match curve_type pk with
  | ED25519 => Some (key_data pk)
  | SECP256K1 => None
  end.

Section Decompress.
(** [EdwardsPoint::from_bytes] of curve25519-dalek. *)
Variable edwards_from_bytes : bytes → option bytes.

(** [TryFrom<near_sdk::PublicKey> for PublicKeyExtended]. *)
Definition extended_of_near_key (near_public_key : PublicKey) :
    result PublicKeyExtendedConversionError PublicKeyExtended :=
  match curve_type near_public_key with
  | ED25519 =>
    if negb (zlen (key_data near_public_key) =? 32) then Err PublicKeyLengthMalformed
    else
      edwards_point ← ok_or (edwards_from_bytes (key_data near_public_key))
                        FailedDecompressingToEdwardsPoint;
      Ok (PkEd25519 near_public_key edwards_point)
  | SECP256K1 => Ok (PkSecp256k1 near_public_key)
  end.

(** [TryFrom<dtos::PublicKey> for PublicKeyExtended]. *)
Definition extended_of_dto (public_key : DtoPublicKey) :
    result PublicKeyExtendedConversionError PublicKeyExtended :=
  match public_key with
  | DtoEd25519 inner_public_key =>
    let near_public_key := near_key_of_ed25519 inner_public_key in
    if negb (zlen (key_data near_public_key) =? 32) then Err PublicKeyLengthMalformed
    else
      edwards_point ← ok_or (edwards_from_bytes (key_data near_public_key))
                        FailedDecompressingToEdwardsPoint;
      Ok (PkEd25519 near_public_key edwards_point)
  | DtoSecp256k1 inner_public_key => Ok (PkSecp256k1 (near_key_of_secp256k1 inner_public_key))
  | DtoBls12381 inner_public_key => Ok (PkBls12381 (DtoBls12381 inner_public_key))
  end.

(** An extended key made from a dto key converts back to the same dto key. *)
Lemma extended_of_dto_roundtrip k e : extended_of_dto k = Ok e → dto_of_extended e = k.
Proof. destruct k; simpl; intros H; inv_ok; done. Qed.

(** The stored key keeps its invariant: the edwards point is the
    decompression of the compressed key. *)
Definition PublicKeyExtended_wf (e : PublicKeyExtended) : Prop :=
  match e with
  | PkSecp256k1 pk => curve_type pk = SECP256K1
  | PkEd25519 pk p => curve_type pk = ED25519 ∧ edwards_from_bytes (key_data pk) = Some p
  | PkBls12381 k => ∃ b, k = DtoBls12381 b
  end.

Lemma extended_of_dto_wf k e : extended_of_dto k = Ok e → PublicKeyExtended_wf e.
Proof. destruct k; simpl; intros H; inv_ok; eauto. Qed.
End Decompress.
