(* ===== verification/Domain.v ===== *)
(** * Domains ([primitives/domain.rs])

    A domain is one root key in one signature scheme.  The registry keeps the
    domains in the order of their ids and the next id, which is never reused;
    [AddDomainsVotes] holds each participant's proposal for new domains. *)

From Stdlib Require Import Sorted.
From S2P Require Import Prelude Types Participants.

(** ** Data *)

Record DomainConfig : Type := mkDomainConfig {
  dc_id : DomainId;
  dc_scheme : SignatureScheme;
  dc_purpose : DomainPurpose;
}.

#[global] Instance DomainConfig_eq_dec : EqDecision DomainConfig.
Proof. solve_decision. Defined.

Record DomainRegistry : Type := mkDomainRegistry {
  dr_domains : list DomainConfig;
  dr_next_domain_id : Z;
}.

#[global] Instance DomainRegistry_eq_dec : EqDecision DomainRegistry.
Proof. solve_decision. Defined.

Definition legacy_ecdsa_id : DomainId := 0.

Definition infer_purpose_from_scheme (s : SignatureScheme) : DomainPurpose :=
  match s with Bls12381 => CKD | _ => Sign end.

Definition is_valid_scheme_for_purpose (p : DomainPurpose) (s : SignatureScheme) : bool :=
  match p, s with
  | Sign, Secp256k1 | Sign, V2Secp256k1 | Sign, Ed25519
  | ForeignTx, Secp256k1 | CKD, Bls12381 => true
  | _, _ => false
  end.

(** [DomainConfigCompat]: a config read from JSON, where the purpose may be
    missing. *)
Record DomainConfigCompat : Type := mkDomainConfigCompat {
  compat_id : DomainId;
  compat_scheme : SignatureScheme;
  compat_purpose : option DomainPurpose;
}.

Definition DomainConfig_from_compat (c : DomainConfigCompat) : DomainConfig :=
  mkDomainConfig (compat_id c) (compat_scheme c)
    (match compat_purpose c with
     | Some p => p
     | None => infer_purpose_from_scheme (compat_scheme c)
     end).

(** ** Operations of the registry *)

Definition DomainRegistry_default : DomainRegistry := mkDomainRegistry [] 0.

Definition DomainRegistry_add_domain (r : DomainRegistry) (s : SignatureScheme)
    (p : DomainPurpose) : DomainRegistry * DomainId :=
  let domain := mkDomainConfig (dr_next_domain_id r) s p in
  (mkDomainRegistry (dr_domains r ++ [domain]) (u64_add (dr_next_domain_id r) 1), dc_id domain).

Definition DomainRegistry_new_single_ecdsa_key_from_legacy : DomainRegistry :=
  (DomainRegistry_add_domain DomainRegistry_default Secp256k1 Sign).1.

Fixpoint DomainRegistry_add_domains (r : DomainRegistry) (ds : list DomainConfig) :
    result Error DomainRegistry :=
  match ds with
  | [] => Ok r
  | d :: ds =>
    let '(r', new_domain_id) := DomainRegistry_add_domain r (dc_scheme d) (dc_purpose d) in
    if negb (new_domain_id =? dc_id d)
    then Err (EDomainError (NewDomainIdsNotContiguous new_domain_id))
    else DomainRegistry_add_domains r' ds
  end.

Definition DomainRegistry_retain_domains (r : DomainRegistry) (num_domains : nat) :
    DomainRegistry :=
  mkDomainRegistry (take num_domains (dr_domains r)) (dr_next_domain_id r).

Definition DomainRegistry_get_domain_by_index (r : DomainRegistry) (i : nat) :
    option DomainConfig :=
  dr_domains r !! i.

Definition DomainRegistry_get_domain_by_domain_id (r : DomainRegistry) (i : DomainId) :
    option DomainConfig :=
  find (λ d, dc_id d =? i) (dr_domains r).

Definition DomainRegistry_most_recent_domain_for_protocol (r : DomainRegistry)
    (s : SignatureScheme) : option DomainId :=
  dc_id <$> find (λ d, bool_decide (dc_scheme d = s)) (reverse (dr_domains r)).

(** The loop of [from_raw_validated] over neighbouring domains. *)
Fixpoint sorted_ids (l : list DomainConfig) : bool :=
  match l with
  | dl :: ((dr :: _) as l') => if dc_id dr <=? dc_id dl then false else sorted_ids l'
  | _ => true
  end.

Definition DomainRegistry_from_raw_validated (ds : list DomainConfig) (next : Z) :
    result Error DomainRegistry :=
  if negb (sorted_ids ds) then Err (EDomainError InvalidDomains)
  else
    match last ds with
    | Some d =>
      if next <=? dc_id d then Err (EDomainError InvalidDomains)
      else Ok (mkDomainRegistry ds next)
    | None => Ok (mkDomainRegistry ds next)
    end.

(** ** Votes to add domains *)

Record AddDomainsVotes : Type := mkAddDomainsVotes {
  add_domains_proposals : gmap Z (list DomainConfig);
}.

Definition AddDomainsVotes_default : AddDomainsVotes := mkAddDomainsVotes ∅.

Definition AddDomainsVotes_vote (v : AddDomainsVotes) (proposal : list DomainConfig)
    (participant : AuthenticatedParticipantId) : AddDomainsVotes * Z :=
  let m := <[participant := proposal]> (add_domains_proposals v) in
  (mkAddDomainsVotes m, zsize (filter (λ kv : Z * list DomainConfig, kv.2 = proposal) m)).

Definition AddDomainsVotes_get_remaining_votes (v : AddDomainsVotes) (ps : Participants) :
    AddDomainsVotes :=
  mkAddDomainsVotes
    (filter (λ kv : Z * list DomainConfig,
       Participants_is_participant_given_participant_id ps kv.1 = true)
       (add_domains_proposals v)).

(** ** Invariant: ids are strictly increasing and below [next_domain_id] *)

Definition domain_ids (r : DomainRegistry) : list DomainId := dc_id <$> dr_domains r.

Record DomainRegistry_wf (r : DomainRegistry) : Prop := {
  reg_sorted : StronglySorted Z.lt (domain_ids r);
  reg_next : ∀ i, i ∈ domain_ids r → i < dr_next_domain_id r;
}.

Lemma DomainRegistry_default_wf : DomainRegistry_wf DomainRegistry_default.
Proof. split; [constructor|set_solver]. Qed.

Lemma DomainRegistry_wf_NoDup r : DomainRegistry_wf r → NoDup (domain_ids r).
Proof.
  intros [Hs _]. revert Hs. generalize (domain_ids r). intros l.
  induction 1 as [|x l Hl IH Hx]; constructor; [|done].
  intros Hin. rewrite Forall_forall in Hx. specialize (Hx x Hin). lia.
Qed.

Lemma StronglySorted_snoc (l : list Z) x :
  StronglySorted Z.lt l → (∀ y, y ∈ l → y < x) → StronglySorted Z.lt (l ++ [x]).
Proof.
  intros Hl Hx. induction Hl as [|a l Hl IH Ha]; simpl; [repeat constructor|].
  constructor.
  - apply IH. intros. apply Hx. set_solver.
  - apply Forall_app. split; [done|]. constructor; [apply Hx; set_solver|constructor].
Qed.

Lemma StronglySorted_take {A} (R : relation A) l n :
  StronglySorted R l → StronglySorted R (take n l).
Proof.
  intros Hl. revert n. induction Hl as [|a l Hl IH Ha]; intros [|n]; simpl; try constructor.
  - apply IH.
  - apply Forall_take. done.
Qed.

Lemma DomainRegistry_add_domain_wf r s p :
  DomainRegistry_wf r → 0 ≤ dr_next_domain_id r < u64_max →
  DomainRegistry_wf (DomainRegistry_add_domain r s p).1.
Proof.
  intros [Hs Hn] Hb. unfold DomainRegistry_add_domain, domain_ids in *; simpl.
  rewrite u64_add_small by lia. split; simpl; unfold domain_ids; simpl.
  - rewrite fmap_app; simpl. by apply StronglySorted_snoc.
  - intros i. rewrite fmap_app, elem_of_app. intros [Hi|Hi].
    + specialize (Hn i Hi). lia.
    + apply list_elem_of_singleton in Hi. subst. simpl. lia.
Qed.

Lemma DomainRegistry_retain_domains_wf r n :
  DomainRegistry_wf r → DomainRegistry_wf (DomainRegistry_retain_domains r n).
Proof.
  intros [Hs Hn]. unfold DomainRegistry_retain_domains, domain_ids in *. split; simpl.
  - unfold domain_ids; simpl. rewrite fmap_take. by apply StronglySorted_take.
  - intros i. unfold domain_ids; simpl. rewrite fmap_take.
    intros Hi%elem_of_take. destruct Hi as (k & Hk & _). apply Hn.
    by apply list_elem_of_lookup_2 in Hk.
Qed.

(** [add_domains] accepts exactly the lists whose ids continue the registry,
    and then appends them as they are. *)
Lemma DomainRegistry_add_domains_spec r ds r' :
  0 ≤ dr_next_domain_id r → dr_next_domain_id r + zlen ds ≤ u64_max →
  DomainRegistry_add_domains r ds = Ok r' ↔
  r' = mkDomainRegistry (dr_domains r ++ ds) (dr_next_domain_id r + zlen ds) ∧
  dc_id <$> ds = seqZ (dr_next_domain_id r) (zlen ds).
Proof.
  revert r. induction ds as [|d ds IH]; intros r Hr Hb.
  { simpl. rewrite app_nil_r, zlen_nil, Z.add_0_r. destruct r. naive_solver. }
  rewrite zlen_cons, fmap_cons in *. pose proof (zlen_nonneg ds).
  cbn [DomainRegistry_add_domains DomainRegistry_add_domain dc_id].
  rewrite u64_add_small by lia. rewrite seqZ_cons by lia.
  replace (Z.pred (1 + zlen ds)) with (zlen ds) by lia.
  replace (Z.succ (dr_next_domain_id r)) with (dr_next_domain_id r + 1) by lia.
  destruct (Z.eqb_spec (dr_next_domain_id r) (dc_id d)) as [Heq|Hne]; cbn [negb].
  - rewrite IH by (simpl; lia). cbn [dr_domains dr_next_domain_id].
    replace (mkDomainConfig (dr_next_domain_id r) (dc_scheme d) (dc_purpose d)) with d
      by (destruct d; simpl in *; congruence).
    rewrite <- app_assoc, Z.add_assoc. cbn [app]. rewrite Heq.
    split; intros [-> Hids]; (split; [done|congruence]).
  - split; [done|]. intros [_ Hids]. congruence.
Qed.

Lemma DomainRegistry_add_domains_wf r ds r' :
  DomainRegistry_wf r → 0 ≤ dr_next_domain_id r → dr_next_domain_id r + zlen ds ≤ u64_max →
  DomainRegistry_add_domains r ds = Ok r' → DomainRegistry_wf r'.
Proof.
  revert r. induction ds as [|d ds IH]; intros r Hwf Hr Hb; simpl; [by intros [= <-]|].
  rewrite zlen_cons in Hb. pose proof (zlen_nonneg ds).
  destruct (Z.eqb_spec (dr_next_domain_id r) (dc_id d)); simpl; [|done].
  apply IH; simpl; rewrite ?u64_add_small by lia; try lia.
  pose proof (DomainRegistry_add_domain_wf r (dc_scheme d) (dc_purpose d) Hwf ltac:(lia)) as Hw.
  unfold DomainRegistry_add_domain in Hw. simpl in Hw. by rewrite u64_add_small in Hw by lia.
Qed.

Lemma sorted_ids_spec l : sorted_ids l = true ↔ StronglySorted Z.lt (dc_id <$> l).
Proof.
  induction l as [|d [|d' l] IH]; [split; [constructor|done]|split; [repeat constructor|done]|].
  change (sorted_ids (d :: d' :: l)) with
    (if dc_id d' <=? dc_id d then false else sorted_ids (d' :: l)).
  destruct (Z.leb_spec (dc_id d') (dc_id d)).
  - split; [done|]. rewrite !fmap_cons. intros [_ Hf]%StronglySorted_inv.
    rewrite Forall_cons in Hf. destruct Hf. lia.
  - rewrite IH, (fmap_cons _ d). split; [|by intros [? _]%StronglySorted_inv].
    intros Hs. constructor; [done|]. rewrite fmap_cons in *.
    apply StronglySorted_inv in Hs as [_ Hf]. constructor; [lia|].
    eapply Forall_impl; [exact Hf|]. simpl. lia.
Qed.

Lemma DomainRegistry_from_raw_validated_wf ds n r :
  DomainRegistry_from_raw_validated ds n = Ok r →
  r = mkDomainRegistry ds n ∧ DomainRegistry_wf r.
Proof.
  unfold DomainRegistry_from_raw_validated. intros H.
  destruct (sorted_ids ds) eqn:Hs; simpl in H; [|done]. apply sorted_ids_spec in Hs.
  assert (Hr : r = mkDomainRegistry ds n) by (inv_ok; done). split; [done|]. subst r.
  split; [done|]. unfold domain_ids; simpl. destruct (last ds) as [d|] eqn:Hl.
  - destruct (Z.leb_spec n (dc_id d)); [done|].
    apply last_Some in Hl as [l ->]. rewrite fmap_app in *. simpl in *.
    intros i [Hi|Hi]%elem_of_app; [|apply list_elem_of_singleton in Hi; lia].
    clear -Hs Hi H0. induction (dc_id <$> l) as [|x k IH]; [set_solver|].
    simpl in Hs. apply StronglySorted_inv in Hs as [Hs Hf].
    rewrite Forall_app in Hf. destruct Hf as [_ Hf]. rewrite Forall_singleton in Hf.
    apply elem_of_cons in Hi as [->|Hi]; [lia|auto].
  - apply last_None in Hl as ->. set_solver.
Qed.

(** In a well-formed registry a domain is found by its id. *)
Lemma get_domain_by_domain_id_spec r i d :
  DomainRegistry_wf r →
  DomainRegistry_get_domain_by_domain_id r i = Some d ↔ d ∈ dr_domains r ∧ dc_id d = i.
Proof.
  intros Hwf%DomainRegistry_wf_NoDup. unfold DomainRegistry_get_domain_by_domain_id. split.
  - intros [? ?%Z.eqb_eq]%find_Some. auto.
  - intros [Hin Hid]. destruct (find_is_Some (λ d, dc_id d =? i) (dr_domains r) d) as [d' Hd'];
      [done|by apply Z.eqb_eq|]. rewrite Hd'. f_equal.
    apply find_Some in Hd' as [Hin' Hid'%Z.eqb_eq].
    unfold domain_ids in Hwf. clear -Hwf Hin Hid Hin' Hid'. subst i.
    induction (dr_domains r) as [|e l IH]; [set_solver|].
    rewrite fmap_cons in Hwf. apply NoDup_cons in Hwf as [Hni Hwf].
    apply elem_of_cons in Hin, Hin'.
    destruct Hin as [->|Hin], Hin' as [->|Hin']; auto.
    + exfalso. apply Hni. rewrite <- Hid'. apply list_elem_of_fmap. eauto.
    + exfalso. apply Hni. rewrite Hid'. apply list_elem_of_fmap. eauto.
Qed.

Lemma remaining_votes_dom v ps i :
  i ∈ dom (add_domains_proposals (AddDomainsVotes_get_remaining_votes v ps)) → i ∈ ids_of ps.
Proof.
  simpl. rewrite elem_of_dom. intros [p [_ Hp]%map_lookup_filter_Some]. simpl in Hp.
  by apply is_participant_id_spec.
Qed.
