(* ===== verification/Samples.v ===== *)
(** * Concrete data for the closed examples

    A committee of three accounts with threshold two, the environment of a
    call by a given account at a given height, two public keys and two
    domains.  The examples that run the definitions on concrete inputs are
    built from these. *)

From S2P Require Import Prelude Types Participants Thresholds CryptoTypes Domain.

Definition sample_key : PublicKey := mkPublicKey ED25519 [].
Definition tls_key (i : Z) : bytes := replicate 32 i.
Definition sample_info (u : string) (i : Z) : ParticipantInfo :=
  mkParticipantInfo u (mkPublicKey ED25519 (tls_key i)).

Definition sample_entry (a : string) (i : Z) : ParticipantEntry := (a, i, sample_info a i).

Definition committee : Participants :=
  mkParticipants 3 [sample_entry "alice" 0; sample_entry "bob" 1; sample_entry "carol" 2].

Definition committee_params : ThresholdParameters := mkThresholdParameters committee 2.

Definition call_by (a : string) (height : Z) : Env :=
  mkEnv a a sample_key "v1.signer" height (height * 1000000000) 0 300000000000000.

(** The same call with a deposit. *)
Definition paying (n : Z) (env : Env) : Env :=
  mkEnv (signer_account_id env) (predecessor_account_id env) (signer_account_pk env)
    (current_account_id env) (block_height env) (block_timestamp env) n (prepaid_gas env).

Definition group_key : PublicKeyExtended := PkSecp256k1 (mkPublicKey SECP256K1 [1; 2]).
Definition other_key : PublicKeyExtended := PkSecp256k1 (mkPublicKey SECP256K1 [3; 4]).

Definition ecdsa_domain : DomainConfig := mkDomainConfig 0 Secp256k1 Sign.
Definition eddsa_domain : DomainConfig := mkDomainConfig 1 Ed25519 Sign.

Lemma committee_params_wf : ThresholdParameters_wf committee_params.
Proof. by apply ThresholdParameters_validate_Ok. Qed.

#[export] Hint Resolve committee_params_wf : mpc.
