(* ===== verification/KeyState.v ===== *)
(** * Keys, epochs and authentication ([primitives/key_state.rs])

    Epoch and attempt counters, the identifier of a key event, the keyset of an
    epoch, and the two constructors that authenticate the signer of a call
    against a participant set. *)

From S2P Require Import Prelude Types CryptoTypes Participants.

(** ** Counters *)

Definition EpochId_next (e : EpochId) : EpochId := u64_add e 1.
Definition AttemptId_new : AttemptId := 0.
Definition AttemptId_next (a : AttemptId) : AttemptId := u64_add a 1.

(** ** Key events and keysets *)

Record KeyEventId : Type := mkKeyEventId {
  ke_epoch_id : EpochId;
  ke_domain_id : DomainId;
  ke_attempt_id : AttemptId;
}.

#[global] Instance KeyEventId_eq_dec : EqDecision KeyEventId.
Proof. solve_decision. Defined.

Record KeyForDomain : Type := mkKeyForDomain {
  kd_domain_id : DomainId;
  kd_key : PublicKeyExtended;
  kd_attempt : AttemptId;
}.

#[global] Instance KeyForDomain_eq_dec : EqDecision KeyForDomain.
Proof. solve_decision. Defined.

Record Keyset : Type := mkKeyset {
  ks_epoch_id : EpochId;
  ks_domains : list KeyForDomain;
}.

#[global] Instance Keyset_eq_dec : EqDecision Keyset.
Proof. solve_decision. Defined.

Definition Keyset_public_key (ks : Keyset) (domain_id : DomainId) :
    result Error PublicKeyExtended :=
  k ← ok_or (find (λ k, kd_domain_id k =? domain_id) (ks_domains ks))
        (EDomainError NoSuchDomain);
  Ok (kd_key k).

(** ** Authentication of the signer *)

Definition AuthenticatedParticipantId_new (env : Env) (ps : Participants) :
    result Error AuthenticatedParticipantId :=
  ok_or (entry_id <$> find (λ e, bool_decide (entry_account e = signer_account_id env))
                        (participants ps))
    (EInvalidState NotParticipant).

Definition AuthenticatedAccountId_new (env : Env) (ps : Participants) :
    result Error AuthenticatedAccountId :=
  if any (λ e, bool_decide (entry_account e = signer_account_id env)) (participants ps)
  then Ok (signer_account_id env)
  else Err (EInvalidState NotParticipant).

(** ** Lemmas *)

Lemma EpochId_next_small e : 0 ≤ e < u64_max → EpochId_next e = e + 1.
Proof. intros. apply u64_add_small. lia. Qed.
Lemma AttemptId_next_small a : 0 ≤ a < u64_max → AttemptId_next a = a + 1.
Proof. intros. apply u64_add_small. lia. Qed.

Lemma AuthenticatedParticipantId_new_Ok env ps i :
  AuthenticatedParticipantId_new env ps = Ok i →
  i ∈ ids_of ps ∧ signer_account_id env ∈ accounts_of ps ∧
  ∃ info, (signer_account_id env, i, info) ∈ participants ps.
Proof.
  unfold AuthenticatedParticipantId_new. rewrite ok_or_Ok, fmap_Some.
  intros (e & [Hin Hacc%bool_decide_eq_true]%find_Some & ->).
  unfold ids_of, accounts_of. rewrite !list_elem_of_fmap. repeat split; eauto.
  rewrite <- Hacc. exists (entry_info e). by destruct e as [[? ?] ?].
Qed.

Lemma AuthenticatedParticipantId_new_member env ps :
  signer_account_id env ∈ accounts_of ps →
  ∃ i, AuthenticatedParticipantId_new env ps = Ok i.
Proof.
  unfold AuthenticatedParticipantId_new, accounts_of.
  intros (e & Hs & He)%list_elem_of_fmap.
  destruct (find_is_Some (λ e, bool_decide (entry_account e = signer_account_id env))
    (participants ps) e) as [e' ->]; [done|by apply bool_decide_eq_true|].
  by eexists.
Qed.

Lemma AuthenticatedAccountId_new_Ok env ps a :
  AuthenticatedAccountId_new env ps = Ok a ↔
  a = signer_account_id env ∧ signer_account_id env ∈ accounts_of ps.
Proof.
  unfold AuthenticatedAccountId_new.
  pose proof (is_participant_account_spec ps (signer_account_id env)) as H.
  unfold Participants_is_participant_given_account_id in H.
  destruct (any _ _); naive_solver.
Qed.

Lemma AuthenticatedParticipantId_new_no_panic env ps :
  no_panic (AuthenticatedParticipantId_new env ps).
Proof. apply ok_or_no_panic. Qed.
Lemma AuthenticatedAccountId_new_no_panic env ps :
  no_panic (AuthenticatedAccountId_new env ps).
Proof. unfold AuthenticatedAccountId_new. by case_match. Qed.

#[export] Hint Resolve AuthenticatedParticipantId_new_no_panic
  AuthenticatedAccountId_new_no_panic : mpc.

(** Two participants with the same id are the same account, and conversely. *)
Lemma AuthenticatedParticipantId_new_inj env1 env2 ps i :
  Participants_wf ps →
  AuthenticatedParticipantId_new env1 ps = Ok i →
  AuthenticatedParticipantId_new env2 ps = Ok i →
  signer_account_id env1 = signer_account_id env2.
Proof.
  intros [Hi _ _] (_ & _ & i1 & H1)%AuthenticatedParticipantId_new_Ok
    (_ & _ & i2 & H2)%AuthenticatedParticipantId_new_Ok.
  unfold ids_of in Hi.
  apply list_elem_of_lookup in H1 as [k1 Hk1]. apply list_elem_of_lookup in H2 as [k2 Hk2].
  assert (k1 = k2) as ->; [|congruence].
  eapply NoDup_lookup; [exact Hi| |]; rewrite list_lookup_fmap; [rewrite Hk1|rewrite Hk2]; done.
Qed.
