(* ===== verification/KeyEvent.v ===== *)
(** * Key events ([state/key_event.rs])

    One [KeyEvent] manages the generation or resharing of one domain's key:
    the leader starts attempts ("instances"), every participant votes for the
    resulting public key, and an attempt ends by agreement of all, by
    disagreement, by an abort vote or by a timeout in blocks.

    Methods that take [&mut self] return the new state.  When they return an
    error the state they leave behind is not modelled: every caller propagates
    the error up to a contract method whose failure makes the runtime discard
    all writes. *)

From S2P Require Import Prelude Types CryptoTypes Participants Thresholds Domain KeyState.
From S2P Require Import Samples.

(** ** Data *)

Inductive VoteSuccessResult : Type :=
  | Voted (count : Z)
  | PublicKeyDisagreement.

Record KeyEventInstance : Type := mkKeyEventInstance {
  kei_attempt_id : AttemptId;
  kei_started_in : BlockHeight;
  kei_expires_on : BlockHeight;
  kei_completed : gset Z;
  kei_public_key : option PublicKeyExtended;
}.

Record KeyEvent : Type := mkKeyEvent {
  kev_epoch_id : EpochId;
  kev_domain : DomainConfig;
  kev_parameters : ThresholdParameters;
  kev_instance : option KeyEventInstance;
  kev_next_attempt_id : AttemptId;
}.

Definition set_instance (ke : KeyEvent) (i : option KeyEventInstance) : KeyEvent :=
  mkKeyEvent (kev_epoch_id ke) (kev_domain ke) (kev_parameters ke) i (kev_next_attempt_id ke).

(** ** One attempt *)

Definition KeyEventInstance_new (env : Env) (attempt_id : AttemptId) (timeout_blocks : Z) :
    KeyEventInstance :=
  mkKeyEventInstance attempt_id (block_height env)
    (u64_add (u64_add (block_height env) 1) timeout_blocks) ∅ None.

Definition KeyEventInstance_active (env : Env) (i : KeyEventInstance) : bool :=
  block_height env <? kei_expires_on i.

Definition KeyEventInstance_vote_success (i : KeyEventInstance)
    (candidate : AuthenticatedParticipantId) (public_key : PublicKeyExtended) :
    result Error (KeyEventInstance * VoteSuccessResult) :=
  let vote i :=
    if bool_decide (candidate ∈ kei_completed i)
    then Err (EVote VoteAlreadySubmitted)
    else
      let completed := {[candidate]} ∪ kei_completed i in
      Ok (mkKeyEventInstance (kei_attempt_id i) (kei_started_in i) (kei_expires_on i)
            completed (kei_public_key i), Voted (zsize completed)) in
  match kei_public_key i with
  | Some existing_public_key =>
    if negb (bool_decide (existing_public_key = public_key))
    then Ok (i, PublicKeyDisagreement)
    else vote i
  | None =>
    vote (mkKeyEventInstance (kei_attempt_id i) (kei_started_in i) (kei_expires_on i)
            (kei_completed i) (Some public_key))
  end.

(** ** The key event *)

Definition KeyEvent_new (epoch_id : EpochId) (domain : DomainConfig)
    (proposed_parameters : ThresholdParameters) : KeyEvent :=
  mkKeyEvent epoch_id domain proposed_parameters None AttemptId_new.

Definition KeyEvent_from_raw (epoch_id : EpochId) (domain : DomainConfig)
    (parameters : ThresholdParameters) (instance : option KeyEventInstance)
    (next_attempt_id : AttemptId) : KeyEvent :=
  mkKeyEvent epoch_id domain parameters instance next_attempt_id.

Definition KeyEvent_cleanup_if_timed_out (env : Env) (ke : KeyEvent) : KeyEvent :=
  match kev_instance ke with
  | Some i => if negb (KeyEventInstance_active env i) then set_instance ke None else ke
  | None => ke
  end.

Definition KeyEvent_verify_leader (env : Env) (ke : KeyEvent) : result Error unit :=
  leader ← unwrap (min_by_key entry_id (participants (tp_participants (kev_parameters ke))));
  if negb (bool_decide (entry_account leader = signer_account_id env))
  then Err (EVote VoterNotLeader)
  else Ok tt.

Definition KeyEvent_start (env : Env) (ke : KeyEvent) (key_event_id : KeyEventId)
    (timeout_blocks : Z) : result Error KeyEvent :=
  let ke := KeyEvent_cleanup_if_timed_out env ke in
  if bool_decide (is_Some (kev_instance ke))
  then Err (EKeyEventError ActiveKeyEvent)
  else
    let expected_key_event_id :=
      mkKeyEventId (kev_epoch_id ke) (dc_id (kev_domain ke)) (kev_next_attempt_id ke) in
    if negb (bool_decide (key_event_id = expected_key_event_id))
    then Err (EKeyEventError KeyEventIdMismatch)
    else
      _ ← KeyEvent_verify_leader env ke;
      Ok (mkKeyEvent (kev_epoch_id ke) (kev_domain ke) (kev_parameters ke)
            (Some (KeyEventInstance_new env (kev_next_attempt_id ke) timeout_blocks))
            (AttemptId_next (kev_next_attempt_id ke))).

Definition KeyEvent_verify_vote (env : Env) (ke : KeyEvent) (key_event_id : KeyEventId) :
    result Error (KeyEvent * AuthenticatedParticipantId) :=
  candidate ← AuthenticatedParticipantId_new env (tp_participants (kev_parameters ke));
  let ke := KeyEvent_cleanup_if_timed_out env ke in
  match kev_instance ke with
  | None => Err (EKeyEventError NoActiveKeyEvent)
  | Some instance =>
    if negb (ke_epoch_id key_event_id =? kev_epoch_id ke)
       || negb (ke_domain_id key_event_id =? dc_id (kev_domain ke))
       || negb (ke_attempt_id key_event_id =? kei_attempt_id instance)
    then Err (EKeyEventError KeyEventIdMismatch)
    else Ok (ke, candidate)
  end.

Definition KeyEvent_vote_success (env : Env) (ke : KeyEvent) (key_event_id : KeyEventId)
    (public_key : PublicKeyExtended) : result Error (KeyEvent * bool) :=
  '(ke, candidate) ← KeyEvent_verify_vote env ke key_event_id;
  instance ← unwrap (kev_instance ke);
  '(instance, r) ← KeyEventInstance_vote_success instance candidate public_key;
  let ke := set_instance ke (Some instance) in
  match r with
  | Voted count =>
    if count =? Participants_len (tp_participants (kev_parameters ke))
    then Ok (ke, true)
    else Ok (ke, false)
  | PublicKeyDisagreement => Ok (set_instance ke None, false)
  end.

Definition KeyEvent_vote_abort (env : Env) (ke : KeyEvent) (key_event_id : KeyEventId) :
    result Error KeyEvent :=
  '(ke, candidate) ← KeyEvent_verify_vote env ke key_event_id;
  instance ← unwrap (kev_instance ke);
  if bool_decide (candidate ∈ kei_completed instance)
  then Err (EVote VoteAlreadySubmitted)
  else Ok (set_instance ke None).

Definition KeyEvent_current_key_event_id (env : Env) (ke : KeyEvent) : option KeyEventId :=
  instance ← kev_instance ke;
  if kei_expires_on instance <=? block_height env then None
  else Some (mkKeyEventId (kev_epoch_id ke) (dc_id (kev_domain ke)) (kei_attempt_id instance)).

(** ** Invariant

    The voters of the running attempt are participants, not yet all of them,
    and a public key is recorded exactly when someone voted. *)

Record KeyEventInstance_wf (ps : Participants) (i : KeyEventInstance) : Prop := {
  kei_members : kei_completed i ⊆ list_to_set (ids_of ps);
  kei_open : zsize (kei_completed i) < Participants_len ps;
  kei_key : kei_public_key i = None ↔ kei_completed i = ∅;
}.

Record KeyEvent_wf (ke : KeyEvent) : Prop := {
  kev_params_wf : ThresholdParameters_wf (kev_parameters ke);
  kev_instance_wf : ∀ i, kev_instance ke = Some i →
    KeyEventInstance_wf (tp_participants (kev_parameters ke)) i;
}.

(** What no operation of a key event changes. *)
Record same_event (ke ke' : KeyEvent) : Prop := {
  same_epoch : kev_epoch_id ke' = kev_epoch_id ke;
  same_domain : kev_domain ke' = kev_domain ke;
  same_params : kev_parameters ke' = kev_parameters ke;
}.

#[global] Instance same_event_preorder : PreOrder same_event.
Proof. split; [done|]. intros ??? [] []. split; congruence. Qed.

(** ** Behaviour of each operation *)

Lemma wf_participants_nonempty tp :
  ThresholdParameters_wf tp → participants (tp_participants tp) ≠ [].
Proof.
  intros [_ (H2 & Hn & _)] Hnil. unfold Participants_len in Hn. rewrite Hnil, zlen_nil in Hn. lia.
Qed.

Lemma KeyEvent_new_wf e d tp : ThresholdParameters_wf tp → KeyEvent_wf (KeyEvent_new e d tp).
Proof. by split. Qed.

Lemma set_instance_same ke i : same_event ke (set_instance ke i).
Proof. done. Qed.

Lemma set_instance_None_wf ke : KeyEvent_wf ke → KeyEvent_wf (set_instance ke None).
Proof. intros [? _]. by split. Qed.

(** Clean-up keeps the instance exactly when it has not expired. *)
Lemma KeyEvent_cleanup_spec env ke :
  same_event ke (KeyEvent_cleanup_if_timed_out env ke) ∧
  kev_next_attempt_id (KeyEvent_cleanup_if_timed_out env ke) = kev_next_attempt_id ke ∧
  ∀ i, kev_instance (KeyEvent_cleanup_if_timed_out env ke) = Some i ↔
    kev_instance ke = Some i ∧ block_height env < kei_expires_on i.
Proof.
  unfold KeyEvent_cleanup_if_timed_out, KeyEventInstance_active.
  destruct (kev_instance ke) as [i|] eqn:E; [|split; [done|split; [done|naive_solver]]].
  destruct (Z.ltb_spec (block_height env) (kei_expires_on i)); simpl;
    (split; [done|split; [done|]]); intros j; rewrite ?E; naive_solver lia.
Qed.

Lemma KeyEvent_cleanup_wf env ke :
  KeyEvent_wf ke → KeyEvent_wf (KeyEvent_cleanup_if_timed_out env ke).
Proof.
  intros [Hp Hi]. destruct (KeyEvent_cleanup_spec env ke) as ([? ? Hs] & _ & Hc).
  split; rewrite Hs; [done|]. intros i [? _]%Hc. auto.
Qed.

(** The leader is the account with the least participant id. *)
Definition is_leader (ps : Participants) (a : AccountId) : Prop :=
  ∃ e, e ∈ participants ps ∧ entry_account e = a ∧
       ∀ e', e' ∈ participants ps → entry_id e ≤ entry_id e'.

Lemma KeyEvent_verify_leader_Ok env ke :
  Participants_wf (tp_participants (kev_parameters ke)) →
  KeyEvent_verify_leader env ke = Ok tt ↔
  is_leader (tp_participants (kev_parameters ke)) (signer_account_id env).
Proof.
  intros Hwf. unfold KeyEvent_verify_leader, is_leader.
  set (ps := tp_participants (kev_parameters ke)) in *. split.
  - intros H. inv_ok. unfold unwrap in *.
    destruct (min_by_key entry_id (participants ps)) as [e|] eqn:E; simplify_eq.
    apply min_by_key_spec in E as [He Hmin]. prop_bools. eauto.
  - intros (e & He & <- & Hmin).
    destruct (min_by_key_is_Some entry_id (participants ps)) as [l Hl];
      [intros Hnil; rewrite Hnil in He; set_solver|].
    rewrite Hl. simpl. apply min_by_key_spec in Hl as [Hin Hleast].
    assert (l = e) as ->; [|by rewrite bool_decide_eq_true_2].
    specialize (Hmin l Hin). specialize (Hleast e He).
    apply list_elem_of_lookup in Hin as [i Hi], He as [j Hj].
    assert (i = j) as ->; [|congruence].
    eapply NoDup_lookup; [apply (wf_ids _ Hwf)| |]; unfold ids_of; rewrite list_lookup_fmap.
    + by rewrite Hi.
    + rewrite Hj. simpl. f_equal. lia.
Qed.

Lemma KeyEvent_verify_leader_no_panic env ke :
  ThresholdParameters_wf (kev_parameters ke) → no_panic (KeyEvent_verify_leader env ke).
Proof.
  intros Hwf%wf_participants_nonempty. unfold KeyEvent_verify_leader.
  destruct (min_by_key_is_Some entry_id _ Hwf) as [e ->]. simpl. by case_match.
Qed.

Lemma KeyEvent_start_Ok env ke id timeout ke' :
  ThresholdParameters_wf (kev_parameters ke) →
  KeyEvent_start env ke id timeout = Ok ke' ↔
  (∀ i, kev_instance ke = Some i → kei_expires_on i ≤ block_height env) ∧
  id = mkKeyEventId (kev_epoch_id ke) (dc_id (kev_domain ke)) (kev_next_attempt_id ke) ∧
  is_leader (tp_participants (kev_parameters ke)) (signer_account_id env) ∧
  ke' = mkKeyEvent (kev_epoch_id ke) (kev_domain ke) (kev_parameters ke)
          (Some (KeyEventInstance_new env (kev_next_attempt_id ke) timeout))
          (AttemptId_next (kev_next_attempt_id ke)).
Proof.
  intros Hwf. unfold KeyEvent_start.
  destruct (KeyEvent_cleanup_spec env ke) as ([-> -> ->] & -> & Hc).
  assert (Hnone : kev_instance (KeyEvent_cleanup_if_timed_out env ke) = None ↔
    ∀ i, kev_instance ke = Some i → kei_expires_on i ≤ block_height env).
  { rewrite eq_None_not_Some. split.
    - intros Hn i Hi. destruct (decide (kei_expires_on i ≤ block_height env)); [done|].
      exfalso. apply Hn. exists i. apply Hc. split; [done|lia].
    - intros Hall [i [Hi Hlt]%Hc]. specialize (Hall i Hi). lia. }
  rewrite eq_None_not_Some in Hnone.
  assert (Hl : KeyEvent_verify_leader env (KeyEvent_cleanup_if_timed_out env ke) =
    KeyEvent_verify_leader env ke).
  { unfold KeyEvent_verify_leader. by destruct (KeyEvent_cleanup_spec env ke) as ([_ _ ->] & _). }
  rewrite Hl. pose proof (KeyEvent_verify_leader_Ok env ke (wf_participants _ Hwf)) as Hlead.
  case_bool_decide as Hi; [naive_solver|]. case_bool_decide as Hid; simpl; [|naive_solver].
  rewrite bind_Ok. split.
  - intros ([] & ? & [= <-]). naive_solver.
  - intros (_ & _ & ? & ->). exists tt. naive_solver.
Qed.

Lemma KeyEvent_start_no_panic env ke id timeout :
  KeyEvent_wf ke → no_panic (KeyEvent_start env ke id timeout).
Proof.
  intros Hwf. unfold KeyEvent_start. repeat case_match; try done.
  apply bind_no_panic; [|done]. apply KeyEvent_verify_leader_no_panic.
  destruct (KeyEvent_cleanup_spec env ke) as ([_ _ ->] & _). apply Hwf.
Qed.

Lemma KeyEvent_start_wf env ke id timeout ke' :
  KeyEvent_wf ke → KeyEvent_start env ke id timeout = Ok ke' →
  KeyEvent_wf ke' ∧ same_event ke ke'.
Proof.
  intros Hwf (_ & _ & _ & ->)%KeyEvent_start_Ok; [|apply Hwf]. split; [|done].
  split; simpl; [apply Hwf|]. intros i [= <-]. split; simpl; [set_solver| |done].
  unfold zsize. rewrite size_empty.
  pose proof (wf_participants_nonempty _ (kev_params_wf _ Hwf)) as Hne%zlen_pos.
  done.
Qed.

Lemma KeyEvent_verify_vote_Ok env ke id ke' c :
  KeyEvent_verify_vote env ke id = Ok (ke', c) →
  ke' = KeyEvent_cleanup_if_timed_out env ke ∧
  AuthenticatedParticipantId_new env (tp_participants (kev_parameters ke)) = Ok c ∧
  ∃ i, kev_instance ke = Some i ∧ kev_instance ke' = Some i ∧
    block_height env < kei_expires_on i ∧
    id = mkKeyEventId (kev_epoch_id ke) (dc_id (kev_domain ke)) (kei_attempt_id i).
Proof.
  unfold KeyEvent_verify_vote. intros H. inv_ok. prop_bools.
  destruct (KeyEvent_cleanup_spec env ke) as ([He Hd Hp] & _ & Hc).
  split; [done|]. split; [done|]. rename k into i. exists i.
  apply Hc in Heqo as Hi. destruct Hi as [Hi Hlt].
  repeat split; try done. rewrite He, Hd in *. destruct id; simpl in *. congruence.
Qed.

Lemma KeyEvent_verify_vote_no_panic env ke id : no_panic (KeyEvent_verify_vote env ke id).
Proof.
  unfold KeyEvent_verify_vote. apply bind_no_panic; [auto with mpc|].
  intros. by repeat case_match.
Qed.

Definition instance_with_vote (i : KeyEventInstance) (c : AuthenticatedParticipantId)
    (pk : PublicKeyExtended) : KeyEventInstance :=
  mkKeyEventInstance (kei_attempt_id i) (kei_started_in i) (kei_expires_on i)
    ({[c]} ∪ kei_completed i) (Some pk).

Lemma instance_vote_success_cases i c pk i' r :
  KeyEventInstance_vote_success i c pk = Ok (i', r) →
  (r = PublicKeyDisagreement ∧ ∃ k, kei_public_key i = Some k ∧ k ≠ pk) ∨
  ((c ∉ kei_completed i) ∧ (kei_public_key i = None ∨ kei_public_key i = Some pk) ∧
   i' = instance_with_vote i c pk ∧ r = Voted (zsize ({[c]} ∪ kei_completed i))).
Proof.
  unfold KeyEventInstance_vote_success, instance_with_vote.
  destruct (kei_public_key i) as [k|] eqn:E; intros H; inv_ok; prop_bools; subst; naive_solver.
Qed.

Lemma instance_with_vote_wf ps i c pk :
  Participants_wf ps → KeyEventInstance_wf ps i → c ∈ ids_of ps →
  zsize ({[c]} ∪ kei_completed i) ≠ Participants_len ps →
  KeyEventInstance_wf ps (instance_with_vote i c pk).
Proof.
  intros Hps [Hm Ho Hk] Hc Hne.
  assert (Hsub : {[c]} ∪ kei_completed i ⊆ list_to_set (ids_of ps)) by set_solver.
  split; simpl; [done| |].
  - pose proof (Participants_wf_ids_len_set ps _ Hps Hsub). lia.
  - split; [done|set_solver].
Qed.

(** A success vote either is the last one needed, in which case every
    participant has voted for this key in this attempt, or leaves a
    well-formed event in which the vote is recorded, or finds a different key
    recorded and ends the attempt. *)
Lemma KeyEvent_vote_success_cases env ke id pk ke' b :
  KeyEvent_wf ke → KeyEvent_vote_success env ke id pk = Ok (ke', b) →
  ∃ i c, kev_instance ke = Some i ∧ block_height env < kei_expires_on i ∧
    id = mkKeyEventId (kev_epoch_id ke) (dc_id (kev_domain ke)) (kei_attempt_id i) ∧
    AuthenticatedParticipantId_new env (tp_participants (kev_parameters ke)) = Ok c ∧
    same_event ke ke' ∧ kev_next_attempt_id ke' = kev_next_attempt_id ke ∧
    ((b = false ∧ kev_instance ke' = None ∧ ∃ k, kei_public_key i = Some k ∧ k ≠ pk) ∨
     ((c ∉ kei_completed i) ∧ (kei_public_key i = None ∨ kei_public_key i = Some pk) ∧
      kev_instance ke' = Some (instance_with_vote i c pk) ∧
      (b = true ↔ {[c]} ∪ kei_completed i = list_to_set (ids_of (tp_participants (kev_parameters ke)))) ∧
      (b = false → KeyEvent_wf ke'))).
Proof.
  intros Hwf H. unfold KeyEvent_vote_success in H.
  apply bind_Ok in H as ([ke1 c] & Hv & H).
  apply KeyEvent_verify_vote_Ok in Hv as (-> & Hauth & i & Hi & Hi1 & Hlt & Hid).
  rewrite Hi1 in H. simpl in H. apply bind_Ok in H as ([i' r] & Hr & H).
  destruct (KeyEvent_cleanup_spec env ke) as ([He Hd Hp] & Hn & Hc).
  exists i, c. split; [done|]. split; [done|]. split; [done|]. split; [done|].
  assert (Hsame : ∀ x, same_event ke (set_instance (KeyEvent_cleanup_if_timed_out env ke) x))
    by (intros; by split).
  pose proof (kev_params_wf _ Hwf) as Hpw. pose proof (kev_instance_wf _ Hwf i Hi) as Hiw.
  apply AuthenticatedParticipantId_new_Ok in Hauth as (Hmem & _).
  apply instance_vote_success_cases in Hr as [(-> & Hk)|(Hc' & Hk & -> & ->)].
  - injection H as <- <-. simpl. repeat split; try done; simpl; try congruence. left. auto.
  - simpl in H. rewrite Hp in H.
    assert (Hb : b = true ↔ zsize ({[c]} ∪ kei_completed i) =
      Participants_len (tp_participants (kev_parameters ke))).
    { inv_ok; prop_bools; naive_solver. }
    assert (ke' = set_instance (KeyEvent_cleanup_if_timed_out env ke)
      (Some (instance_with_vote i c pk))) as -> by (inv_ok; done).
    split; [done|]. split; [done|]. right. split; [done|]. split; [done|]. split; [done|].
    assert (Hsub : {[c]} ∪ kei_completed i ⊆
      list_to_set (ids_of (tp_participants (kev_parameters ke)))).
    { pose proof (kei_members _ _ Hiw). set_solver. }
    split.
    + rewrite Hb. split; [apply full_id_set; [apply Hpw|done]|]. intros ->.
      unfold zsize. rewrite size_list_to_set by apply Hpw. by rewrite Participants_len_ids.
    + intros ->. split; simpl; rewrite Hp; [done|]. intros j [= <-].
      apply instance_with_vote_wf; [apply Hpw|done|done|]. intros Heq. by apply Hb in Heq.
Qed.

Lemma KeyEvent_vote_success_no_panic env ke id pk :
  no_panic (KeyEvent_vote_success env ke id pk).
Proof.
  unfold KeyEvent_vote_success. apply bind_no_panic; [apply KeyEvent_verify_vote_no_panic|].
  intros [ke1 c] (_ & _ & i & _ & -> & _)%KeyEvent_verify_vote_Ok. simpl.
  apply bind_no_panic.
  - unfold KeyEventInstance_vote_success. by repeat case_match.
  - intros [i' r] _. by repeat case_match.
Qed.

Lemma KeyEvent_vote_success_wf env ke id pk ke' :
  KeyEvent_wf ke → KeyEvent_vote_success env ke id pk = Ok (ke', false) → KeyEvent_wf ke'.
Proof.
  intros Hwf H. destruct (KeyEvent_vote_success_cases _ _ _ _ _ _ Hwf H)
    as (i & c & _ & _ & _ & _ & [? ? Hp] & _ & [(_ & Hn & _)|(_ & _ & _ & _ & Hw)]); [|auto].
  split; rewrite Hp; [apply Hwf|]. by rewrite Hn.
Qed.

Lemma KeyEvent_vote_abort_Ok env ke id ke' :
  KeyEvent_vote_abort env ke id = Ok ke' →
  ∃ i c, kev_instance ke = Some i ∧ block_height env < kei_expires_on i ∧
    id = mkKeyEventId (kev_epoch_id ke) (dc_id (kev_domain ke)) (kei_attempt_id i) ∧
    AuthenticatedParticipantId_new env (tp_participants (kev_parameters ke)) = Ok c ∧
    (c ∉ kei_completed i) ∧ ke' = set_instance ke None.
Proof.
  unfold KeyEvent_vote_abort. intros H. apply bind_Ok in H as ([ke1 c] & Hv & H).
  apply KeyEvent_verify_vote_Ok in Hv as (-> & Hauth & i & Hi & Hi1 & Hlt & Hid).
  rewrite Hi1 in H. simpl in H. inv_ok. prop_bools.
  destruct (KeyEvent_cleanup_spec env ke) as ([He Hd Hp] & Hn & Hc).
  exists i, c. repeat split; try done. unfold set_instance. congruence.
Qed.

Lemma KeyEvent_vote_abort_no_panic env ke id : no_panic (KeyEvent_vote_abort env ke id).
Proof.
  unfold KeyEvent_vote_abort. apply bind_no_panic; [apply KeyEvent_verify_vote_no_panic|].
  intros [ke1 c] (_ & _ & i & _ & -> & _)%KeyEvent_verify_vote_Ok. simpl. by case_match.
Qed.

Lemma KeyEvent_vote_abort_wf env ke id ke' :
  KeyEvent_wf ke → KeyEvent_vote_abort env ke id = Ok ke' →
  KeyEvent_wf ke' ∧ same_event ke ke'.
Proof.
  intros Hwf (i & c & _ & _ & _ & _ & _ & ->)%KeyEvent_vote_abort_Ok.
  split; [by apply set_instance_None_wf|done].
Qed.

#[export] Hint Resolve KeyEvent_vote_abort_no_panic KeyEvent_vote_success_no_panic
  KeyEvent_start_no_panic KeyEvent_new_wf : mpc.

(** ** Where recorded votes come from

    [V c id pk] says that participant [c] voted for [pk] in the attempt [id].
    If that holds of the votes an event has recorded, every operation keeps it
    so, once the vote just cast is added. *)

Definition event_id (ke : KeyEvent) (a : AttemptId) : KeyEventId :=
  mkKeyEventId (kev_epoch_id ke) (dc_id (kev_domain ke)) a.

Definition votes_justified (V : ParticipantId → KeyEventId → PublicKeyExtended → Prop)
    (ke : KeyEvent) : Prop :=
  ∀ i pk c, kev_instance ke = Some i → kei_public_key i = Some pk → c ∈ kei_completed i →
    V c (event_id ke (kei_attempt_id i)) pk.

Lemma new_votes_justified V e d tp : votes_justified V (KeyEvent_new e d tp).
Proof. done. Qed.

Lemma start_votes_justified V env ke id t ke' :
  KeyEvent_wf ke → KeyEvent_start env ke id t = Ok ke' → votes_justified V ke'.
Proof. intros Hwf (_ & _ & _ & ->)%KeyEvent_start_Ok; [|apply Hwf]. intros i pk c [= <-]. done. Qed.

Lemma abort_votes_justified V env ke id ke' :
  KeyEvent_vote_abort env ke id = Ok ke' → votes_justified V ke'.
Proof. by intros (? & ? & _ & _ & _ & _ & _ & ->)%KeyEvent_vote_abort_Ok. Qed.

Lemma success_votes_justified (V : ParticipantId → KeyEventId → PublicKeyExtended → Prop)
    env ke id pk ke' b :
  KeyEvent_wf ke → votes_justified V ke →
  KeyEvent_vote_success env ke id pk = Ok (ke', b) →
  (∀ c, AuthenticatedParticipantId_new env (tp_participants (kev_parameters ke)) = Ok c →
    V c id pk) →
  votes_justified V ke' ∧
  (b = true → ∀ c, c ∈ ids_of (tp_participants (kev_parameters ke)) → V c id pk).
Proof.
  intros Hwf Hj Hv Hnew. destruct (KeyEvent_vote_success_cases _ _ _ _ _ _ Hwf Hv) as
    (j & a & Hi & _ & Hid & Ha & [He Hd _] & _ & [(-> & Hn & _)|(_ & Hk & Hi' & Hall & _)]).
  { split; [|done]. intros i k c Hi'. congruence. }
  assert (Hvoters : ∀ c, c ∈ {[a]} ∪ kei_completed j → V c id pk).
  { intros c [->%elem_of_singleton|Hc]%elem_of_union; [by apply Hnew|]. subst id.
    apply (Hj j pk c Hi); [|done]. destruct Hk as [Hk|Hk]; [|done].
    apply (kei_key _ _ (kev_instance_wf _ Hwf j Hi)) in Hk. set_solver. }
  split.
  - intros i k c Hii Hpk Hc. rewrite Hi' in Hii. injection Hii as <-. simpl in *.
    injection Hpk as <-. unfold event_id. rewrite He, Hd, <- Hid. auto.
  - intros Hb c Hc. apply Hvoters. rewrite (proj1 Hall Hb). by apply elem_of_list_to_set.
Qed.

(** ** Runs of a key event

    The calls a key event receives, in order, each with the environment it is
    made in.  A call that fails changes nothing; the run goes on until a vote
    returns [true]. *)

Inductive KeyEventCall : Type :=
  | CStart (env : Env) (id : KeyEventId) (timeout_blocks : Z)
  | CVoteSuccess (env : Env) (id : KeyEventId) (pk : PublicKeyExtended)
  | CVoteAbort (env : Env) (id : KeyEventId).

Definition KeyEvent_call (ke : KeyEvent) (c : KeyEventCall) : result Error (KeyEvent * bool) :=
  match c with
  | CStart env id timeout => ke' ← KeyEvent_start env ke id timeout; Ok (ke', false)
  | CVoteSuccess env id pk => KeyEvent_vote_success env ke id pk
  | CVoteAbort env id => ke' ← KeyEvent_vote_abort env ke id; Ok (ke', false)
  end.

(** [KeyEvent_run ke log ke']: from [ke], the accepted calls [log] lead to
    [ke'], none of them completing the event; rejected calls leave no trace. *)
Inductive KeyEvent_run (ke : KeyEvent) : list KeyEventCall → KeyEvent → Prop :=
  | run_nil : KeyEvent_run ke [] ke
  | run_accepted log ke1 c ke2 :
      KeyEvent_run ke log ke1 → KeyEvent_call ke1 c = Ok (ke2, false) →
      KeyEvent_run ke (log ++ [c]) ke2
  | run_rejected log ke1 c e :
      KeyEvent_run ke log ke1 → KeyEvent_call ke1 c = Err e →
      KeyEvent_run ke log ke1.

(** The state a list of calls leads to, if all of them are accepted. *)
Fixpoint KeyEvent_replay (ke : KeyEvent) (calls : list KeyEventCall) : option KeyEvent :=
  match calls with
  | [] => Some ke
  | c :: calls =>
    match KeyEvent_call ke c with
    | Ok (ke', false) => KeyEvent_replay ke' calls
    | _ => None
    end
  end.

Definition started_ids (log : list KeyEventCall) : list KeyEventId :=
  omap (λ c, match c with CStart _ id _ => Some id | _ => None end) log.

(** The voter [c] voted for [pk] in the attempt [id] in one of the calls. *)
Definition voted_in (ps : Participants) (log : list KeyEventCall) (id : KeyEventId)
    (pk : PublicKeyExtended) (c : ParticipantId) : Prop :=
  ∃ env, CVoteSuccess env id pk ∈ log ∧ AuthenticatedParticipantId_new env ps = Ok c.

Lemma KeyEvent_replay_run ke calls ke' :
  KeyEvent_replay ke calls = Some ke' → KeyEvent_run ke calls ke'.
Proof.
  assert (∀ log ke1, KeyEvent_run ke log ke1 → KeyEvent_replay ke1 calls = Some ke' →
    KeyEvent_run ke (log ++ calls) ke') as H; [|apply (H []); constructor].
  induction calls as [|c calls IH]; simpl; intros log ke1 Hrun Hr.
  { injection Hr as <-. by rewrite app_nil_r. }
  destruct (KeyEvent_call ke1 c) as [[ke2 []]| |] eqn:E; try done.
  rewrite cons_middle, (assoc_L (++)). eapply IH; [|done]. by econstructor.
Qed.

Lemma KeyEvent_call_wf ke c ke' :
  KeyEvent_wf ke → KeyEvent_call ke c = Ok (ke', false) → KeyEvent_wf ke' ∧ same_event ke ke'.
Proof.
  intros Hwf. destruct c; simpl; intros H.
  - inv_ok. eauto using KeyEvent_start_wf.
  - split; [by eapply KeyEvent_vote_success_wf|].
    destruct (KeyEvent_vote_success_cases _ _ _ _ _ _ Hwf H) as (? & ? & _ & _ & _ & _ & ? & _).
    done.
  - inv_ok. eauto using KeyEvent_vote_abort_wf.
Qed.

Lemma KeyEvent_run_wf ke log ke' :
  KeyEvent_wf ke → KeyEvent_run ke log ke' → KeyEvent_wf ke' ∧ same_event ke ke'.
Proof.
  intros Hwf. induction 1 as [|log ke1 c ke2 _ IH Hc|]; [done| |done].
  destruct IH as [Hw1 Hs1]. destruct (KeyEvent_call_wf _ _ _ Hw1 Hc). split; [done|by etrans].
Qed.

Lemma voted_in_mono ps log log' id pk c :
  log ⊆ log' → voted_in ps log id pk c → voted_in ps log' id pk c.
Proof. intros Hs (env & ? & ?). exists env. auto. Qed.

(** Every recorded voter really voted for the recorded key in this attempt. *)
Lemma KeyEvent_run_recorded ke log ke' :
  KeyEvent_wf ke → kev_instance ke = None → KeyEvent_run ke log ke' →
  votes_justified (λ c id pk, voted_in (tp_participants (kev_parameters ke)) log id pk c) ke'.
Proof.
  intros Hwf Hnone Hrun. induction Hrun as [|log ke1 c ke2 Hrun IH Hc|]; [|..|done].
  { intros i pk c Hi. congruence. }
  destruct (KeyEvent_run_wf _ _ _ Hwf Hrun) as [Hw1 [_ _ Hp]].
  destruct c as [env id t|env id k|env id]; simpl in Hc.
  - apply bind_Ok in Hc as (ke3 & Hs & [= <-]). by eapply start_votes_justified.
  - refine (proj1 (success_votes_justified _ _ _ _ _ _ _ Hw1 _ Hc _)).
    + intros i pk c Hi Hpk Hcc. eapply voted_in_mono; [|by eapply IH]. set_solver.
    + rewrite Hp. intros c Hcc. exists env. split; [set_solver|done].
  - apply bind_Ok in Hc as (ke3 & Hs & [= <-]). by eapply abort_votes_justified.
Qed.

(** Agreement.  When a vote completes a key event ([vote_success] returns
    [true]), every participant of the event has voted, in that very attempt,
    for that very public key. *)
Theorem KeyEvent_agreement epoch domain params log ke env id pk ke' :
  ThresholdParameters_wf params →
  KeyEvent_run (KeyEvent_new epoch domain params) log ke →
  KeyEvent_vote_success env ke id pk = Ok (ke', true) →
  ∀ c, c ∈ ids_of (tp_participants params) →
    voted_in (tp_participants params) (log ++ [CVoteSuccess env id pk]) id pk c.
Proof.
  intros Hp Hrun Hv c Hc. pose proof (KeyEvent_new_wf epoch domain _ Hp) as Hwf.
  destruct (KeyEvent_run_wf _ _ _ Hwf Hrun) as [Hw1 [_ _ Hps]]. simpl in Hps.
  pose proof (KeyEvent_run_recorded _ _ _ Hwf eq_refl Hrun) as Hj. simpl in Hj.
  refine (proj2 (success_votes_justified (λ c i k, voted_in (tp_participants params)
    (log ++ [CVoteSuccess env id pk]) i k c) _ _ _ _ _ _ Hw1 _ Hv _) eq_refl c _);
    [| |by rewrite Hps].
  - intros i k d Hi Hk Hd. eapply voted_in_mono; [|by eapply Hj]. set_solver.
  - rewrite Hps. intros d Hd. exists env. split; [set_solver|done].
Qed.

(** Three participants agreeing on a key in the first attempt. *)
Definition sample_id : KeyEventId := mkKeyEventId 5 0 0.
Definition sample_votes : list KeyEventCall :=
  [CStart (call_by "alice" 10) sample_id 30;
   CVoteSuccess (call_by "bob" 12) sample_id group_key;
   CVoteSuccess (call_by "carol" 15) sample_id group_key].

Lemma KeyEvent_agreement_witness :
  voted_in committee (sample_votes ++ [CVoteSuccess (call_by "alice" 16) sample_id group_key])
    sample_id group_key 1.
Proof.
  eapply (KeyEvent_agreement 5 ecdsa_domain committee_params sample_votes).
  - apply committee_params_wf.
  - apply KeyEvent_replay_run. reflexivity.
  - reflexivity.
  - vm_compute. right. left.
Defined.

Lemma KeyEvent_call_next_attempt ke c ke' :
  KeyEvent_wf ke → KeyEvent_call ke c = Ok (ke', false) →
  (started_ids [c] = [] ∧ kev_next_attempt_id ke' = kev_next_attempt_id ke) ∨
  (started_ids [c] = [event_id ke (kev_next_attempt_id ke)] ∧
   kev_next_attempt_id ke' = AttemptId_next (kev_next_attempt_id ke)).
Proof.
  intros Hwf. destruct c; simpl; intros H.
  - inv_ok. apply KeyEvent_start_Ok in H0 as (_ & -> & _ & ->); [|apply Hwf]. right. done.
  - left. split; [done|]. destruct (KeyEvent_vote_success_cases _ _ _ _ _ _ Hwf H)
      as (? & ? & _ & _ & _ & _ & _ & ? & _). done.
  - inv_ok. apply KeyEvent_vote_abort_Ok in H0 as (? & ? & _ & _ & _ & _ & _ & ->). left. done.
Qed.

(** Attempts are numbered 0, 1, 2, ... in the order they are started, so
    no two attempts of a key event share a [KeyEventId], as long as fewer than
    2^64 calls are made. *)
Theorem KeyEvent_attempts_consecutive epoch domain params log ke :
  ThresholdParameters_wf params →
  KeyEvent_run (KeyEvent_new epoch domain params) log ke →
  zlen log <= u64_max →
  started_ids log = (λ n, mkKeyEventId epoch (dc_id domain) (Z.of_nat n)) <$>
                      seq 0 (length (started_ids log)) ∧
  kev_next_attempt_id ke = zlen (started_ids log) ∧
  NoDup (started_ids log).
Proof.
  intros Hp Hrun Hlen. pose proof (KeyEvent_new_wf epoch domain _ Hp) as Hwf.
  enough (started_ids log = (λ n, mkKeyEventId epoch (dc_id domain) (Z.of_nat n)) <$>
            seq 0 (length (started_ids log)) ∧
          kev_next_attempt_id ke = zlen (started_ids log)) as [Hs Hn].
  { split; [done|]. split; [done|]. rewrite Hs. apply NoDup_fmap_2; [|apply NoDup_seq].
    intros x y [= Hxy]. lia. }
  induction Hrun as [|log ke1 c ke2 Hrun IH Hc|]; [done| |auto].
  rewrite zlen_app, zlen_cons, zlen_nil in Hlen.
  destruct (KeyEvent_run_wf _ _ _ Hwf Hrun) as [Hw1 [He Hd _]].
  destruct IH as [Hs Hn]; [lia|].
  assert (Hle : zlen (started_ids log) ≤ zlen log).
  { apply zlen_omap_le. }
  assert (Happ : started_ids (log ++ [c]) = started_ids log ++ started_ids [c])
    by apply omap_app.
  rewrite Happ.
  destruct (KeyEvent_call_next_attempt _ _ _ Hw1 Hc) as [[-> ->]|[-> ->]].
  - by rewrite app_nil_r.
  - rewrite length_app, seq_app, fmap_app, <-Hs, zlen_app. simpl. split.
    + unfold event_id. rewrite He, Hd, Hn. done.
    + rewrite Hn, zlen_cons, zlen_nil. unfold AttemptId_next. rewrite u64_add_small; [lia|].
      unfold is_u64. pose proof (zlen_nonneg (started_ids log)). lia.
Qed.

Lemma KeyEvent_attempts_consecutive_witness :
  started_ids [CStart (call_by "alice" 10) (mkKeyEventId 5 0 0) 30;
               CVoteAbort (call_by "bob" 12) (mkKeyEventId 5 0 0);
               CStart (call_by "alice" 13) (mkKeyEventId 5 0 1) 30] =
  [mkKeyEventId 5 0 0; mkKeyEventId 5 0 1].
Proof.
  eapply (KeyEvent_attempts_consecutive 5 ecdsa_domain committee_params).
  - apply committee_params_wf.
  - apply KeyEvent_replay_run. reflexivity.
  - done.
Defined.
