(* ===== verification/ContractState.v ===== *)
(** * The protocol states of the contract ([state.rs], [state/*.rs])

    The records of the three phases (running, key generation for new domains,
    resharing to new parameters), the enumeration that joins them, and the
    invariant of each phase.  The transitions are in [Running], [Initializing],
    [Resharing] and [ProtocolState]. *)

From S2P Require Import Prelude Types CryptoTypes Participants Thresholds Domain Samples.
From S2P Require Import KeyState KeyEvent.

(** ** Data *)

Record RunningContractState : Type := mkRunning {
  rs_domains : DomainRegistry;
  rs_keyset : Keyset;
  rs_parameters : ThresholdParameters;
  rs_parameters_votes : ThresholdParametersVotes;
  rs_add_domains_votes : AddDomainsVotes;
  rs_previously_cancelled_resharing_epoch_id : option EpochId;
}.

Record InitializingContractState : Type := mkInitializing {
  is_domains : DomainRegistry;
  is_epoch_id : EpochId;
  is_generated_keys : list KeyForDomain;
  is_generating_key : KeyEvent;
  is_cancel_votes : gset Z;
}.

Record ResharingContractState : Type := mkResharing {
  rh_previous_running_state : RunningContractState;
  rh_reshared_keys : list KeyForDomain;
  rh_resharing_key : KeyEvent;
  rh_cancellation_requests : gset string;
}.

Inductive ProtocolContractState : Type :=
  | NotInitialized
  | Initializing (s : InitializingContractState)
  | Running (s : RunningContractState)
  | Resharing (s : ResharingContractState).

(** [RunningContractState::new]. *)
Definition RunningContractState_new (domains : DomainRegistry) (keyset : Keyset)
    (parameters : ThresholdParameters) (add_domains_votes : AddDomainsVotes) :
    RunningContractState :=
  let remaining_add_domain_votes :=
    AddDomainsVotes_get_remaining_votes add_domains_votes (tp_participants parameters) in
  mkRunning domains keyset parameters ThresholdParametersVotes_default
    remaining_add_domain_votes None.

(** ** Invariants *)

(** Parameters that passed [validate] and fit their machine types. *)
Record params_ok (tp : ThresholdParameters) : Prop := {
  params_wf : ThresholdParameters_wf tp;
  params_bounded : Participants_bounded (tp_participants tp);
}.

Record registry_ok (r : DomainRegistry) : Prop := {
  registry_wf : DomainRegistry_wf r;
  registry_next : 0 ≤ dr_next_domain_id r ≤ u64_max;
}.

(** The keys are those of the first domains of the registry, in its order. *)
Definition keys_for (keys : list KeyForDomain) (ds : list DomainConfig) : Prop :=
  kd_domain_id <$> keys = dc_id <$> ds.

Record Running_ok (s : RunningContractState) : Prop := {
  run_registry : registry_ok (rs_domains s);
  run_keys : keys_for (ks_domains (rs_keyset s)) (dr_domains (rs_domains s));
  run_params : params_ok (rs_parameters s);
  run_voters : ∀ a p, proposal_by_account (rs_parameters_votes s) !! a = Some p →
    a ∈ accounts_of (tp_participants p);
  run_domain_voters : dom (add_domains_proposals (rs_add_domains_votes s)) ⊆
    list_to_set (ids_of (tp_participants (rs_parameters s)));
  run_cancelled : is_Some (rs_previously_cancelled_resharing_epoch_id s) →
    dr_domains (rs_domains s) ≠ [];
}.

Record Initializing_ok (s : InitializingContractState) : Prop := {
  init_registry : registry_ok (is_domains s);
  init_keys : keys_for (is_generated_keys s)
    (take (length (is_generated_keys s)) (dr_domains (is_domains s)));
  init_current : dr_domains (is_domains s) !! length (is_generated_keys s) =
    Some (kev_domain (is_generating_key s));
  init_epoch : kev_epoch_id (is_generating_key s) = is_epoch_id s;
  init_event : KeyEvent_wf (is_generating_key s);
  init_bounded : Participants_bounded (tp_participants (kev_parameters (is_generating_key s)));
  init_cancel : is_cancel_votes s ⊆
    list_to_set (ids_of (tp_participants (kev_parameters (is_generating_key s))));
  init_cancel_open : zsize (is_cancel_votes s) < tp_threshold (kev_parameters (is_generating_key s));
}.

Record Resharing_ok (s : ResharingContractState) : Prop := {
  resh_previous : Running_ok (rh_previous_running_state s);
  resh_keys : keys_for (rh_reshared_keys s)
    (take (length (rh_reshared_keys s)) (dr_domains (rs_domains (rh_previous_running_state s))));
  resh_public_keys : kd_key <$> rh_reshared_keys s =
    kd_key <$> take (length (rh_reshared_keys s))
      (ks_domains (rs_keyset (rh_previous_running_state s)));
  resh_current : dr_domains (rs_domains (rh_previous_running_state s)) !!
    length (rh_reshared_keys s) = Some (kev_domain (rh_resharing_key s));
  resh_event : KeyEvent_wf (rh_resharing_key s);
  resh_incoming : incoming_ok (rs_parameters (rh_previous_running_state s))
    (kev_parameters (rh_resharing_key s));
  resh_bounded : Participants_bounded (tp_participants (kev_parameters (rh_resharing_key s)));
  resh_cancel : rh_cancellation_requests s ⊆
    list_to_set (accounts_of (tp_participants (rs_parameters (rh_previous_running_state s))));
  resh_cancel_open : zsize (rh_cancellation_requests s) <
    tp_threshold (rs_parameters (rh_previous_running_state s));
}.

Definition Protocol_ok (s : ProtocolContractState) : Prop :=
  match s with
  | NotInitialized => True
  | Initializing s => Initializing_ok s
  | Running s => Running_ok s
  | Resharing s => Resharing_ok s
  end.

(** ** Lemmas shared by the phases *)

Lemma Running_new_ok domains keyset parameters votes :
  registry_ok domains → keys_for (ks_domains keyset) (dr_domains domains) →
  params_ok parameters →
  Running_ok (RunningContractState_new domains keyset parameters votes).
Proof.
  intros Hr Hk Hp. split; simpl; try done.
  intros i Hi. apply elem_of_list_to_set. exact (remaining_votes_dom votes _ _ Hi).
Qed.

(** A resharing state that starts from a running state. *)
Lemma Resharing_fresh_ok s epoch first proposal :
  Running_ok s → incoming_ok (rs_parameters s) proposal →
  Participants_bounded (tp_participants proposal) →
  dr_domains (rs_domains s) !! 0%nat = Some first →
  Resharing_ok (mkResharing
    (RunningContractState_new (rs_domains s) (rs_keyset s) (rs_parameters s)
       (rs_add_domains_votes s)) [] (KeyEvent_new epoch first proposal) ∅).
Proof.
  intros Hs Hp Hb Hd.
  assert (Hprev : Running_ok (RunningContractState_new (rs_domains s) (rs_keyset s)
    (rs_parameters s) (rs_add_domains_votes s))) by (apply Running_new_ok; apply Hs).
  split; try done; [by apply KeyEvent_new_wf, Hp|].
  simpl. unfold zsize. rewrite size_empty.
  destruct (wf_threshold _ (params_wf _ (run_params _ Hs))). lia.
Qed.

Lemma keys_for_length keys ds : keys_for keys ds → length keys = length ds.
Proof. intros H%(f_equal length). by rewrite !length_fmap in H. Qed.

Lemma keys_for_snoc keys ds d k :
  keys_for keys (take (length keys) ds) → ds !! length keys = Some d →
  kd_domain_id k = dc_id d →
  keys_for (keys ++ [k]) (take (length (keys ++ [k])) ds).
Proof.
  unfold keys_for. intros Hk Hd Hid. rewrite length_app, Nat.add_1_r.
  rewrite (take_S_r _ _ d) by done. rewrite !fmap_app, Hk. simpl. by rewrite Hid.
Qed.

(** With no domain after them the keys cover the whole registry. *)
Lemma keys_for_full (keys : list KeyForDomain) ds :
  keys_for keys (take (length keys) ds) → ds !! length keys = None → keys_for keys ds.
Proof. intros Hk Hn%lookup_ge_None. by rewrite take_ge in Hk. Qed.
