(* ===== verification/Running.v ===== *)
(** * The running phase ([state/running.rs])

    Votes for new parameters, which lead to resharing, and votes for new
    domains, which lead to key generation. *)

From S2P Require Import Prelude Types CryptoTypes Participants Thresholds Domain Samples.
From S2P Require Import KeyState KeyEvent ContractState.

(** ** Operations *)

Definition RunningContractState_prospective_epoch_id (s : RunningContractState) : EpochId :=
  EpochId_next
    (match rs_previously_cancelled_resharing_epoch_id s with
     | Some cancelled_epoch_id => cancelled_epoch_id
     | None => ks_epoch_id (rs_keyset s)
     end).

Definition RunningContractState_transition_to_resharing_no_checks (s : RunningContractState)
    (proposal : ThresholdParameters) : RunningContractState * option ResharingContractState :=
  match DomainRegistry_get_domain_by_index (rs_domains s) 0 with
  | Some first_domain =>
    let epoch_id := RunningContractState_prospective_epoch_id s in
    (s, Some (mkResharing
      (RunningContractState_new (rs_domains s) (rs_keyset s) (rs_parameters s)
         (rs_add_domains_votes s))
      [] (KeyEvent_new epoch_id first_domain proposal) ∅))
  | None =>
    (RunningContractState_new (rs_domains s)
       (mkKeyset (EpochId_next (ks_epoch_id (rs_keyset s))) [])
       proposal (rs_add_domains_votes s), None)
  end.

Definition RunningContractState_process_new_parameters_proposal (env : Env)
    (s : RunningContractState) (proposal : ThresholdParameters) :
    result Error (RunningContractState * bool) :=
  _ ← ThresholdParameters_validate_incoming_proposal (rs_parameters s) proposal;
  candidate ← AuthenticatedAccountId_new env (tp_participants proposal);
  if negb (is_ok (AuthenticatedAccountId_new env (tp_participants (rs_parameters s)))) &&
     (ThresholdParametersVotes_n_votes (rs_parameters_votes s) proposal
        (tp_participants (rs_parameters s)) <? tp_threshold (rs_parameters s))
  then Err (EVote VoterPending)
  else
    let '(votes, n_votes) :=
      ThresholdParametersVotes_vote (rs_parameters_votes s) proposal candidate in
    Ok (mkRunning (rs_domains s) (rs_keyset s) (rs_parameters s) votes
          (rs_add_domains_votes s) (rs_previously_cancelled_resharing_epoch_id s),
        Participants_len (tp_participants proposal) =? n_votes).

Definition RunningContractState_vote_new_parameters (env : Env) (s : RunningContractState)
    (prospective_epoch_id : EpochId) (proposal : ThresholdParameters) :
    result Error (RunningContractState * option ResharingContractState) :=
  let expected := RunningContractState_prospective_epoch_id s in
  if negb (prospective_epoch_id =? expected)
  then Err (EInvalidParameters (EpochMismatch prospective_epoch_id expected))
  else
    '(s, accepted) ← RunningContractState_process_new_parameters_proposal env s proposal;
    if accepted : bool
    then Ok (RunningContractState_transition_to_resharing_no_checks s proposal)
    else Ok (s, None).

(** The loop that rejects the first domain whose scheme does not fit its
    purpose. *)
Fixpoint check_schemes (domains : list DomainConfig) : result Error unit :=
  match domains with
  | [] => Ok tt
  | d :: domains =>
    if negb (is_valid_scheme_for_purpose (dc_purpose d) (dc_scheme d))
    then Err (EDomainError (InvalidSchemePurposeCombination (dc_scheme d) (dc_purpose d)))
    else check_schemes domains
  end.

Definition RunningContractState_vote_add_domains (env : Env) (s : RunningContractState)
    (domains : list DomainConfig) :
    result Error (RunningContractState * option InitializingContractState) :=
  if bool_decide (domains = [])
  then Err (EDomainError AddDomainsMustAddAtLeastOneDomain)
  else
    _ ← check_schemes domains;
    participant ← AuthenticatedParticipantId_new env (tp_participants (rs_parameters s));
    let '(votes, n_votes) := AddDomainsVotes_vote (rs_add_domains_votes s) domains participant in
    let s := mkRunning (rs_domains s) (rs_keyset s) (rs_parameters s) (rs_parameters_votes s)
               votes (rs_previously_cancelled_resharing_epoch_id s) in
    if Participants_len (tp_participants (rs_parameters s)) =? n_votes
    then
      new_domains ← DomainRegistry_add_domains (rs_domains s) domains;
      first ← index domains 0;
      Ok (s, Some (mkInitializing new_domains (ks_epoch_id (rs_keyset s))
                     (ks_domains (rs_keyset s))
                     (KeyEvent_new (ks_epoch_id (rs_keyset s)) first (rs_parameters s)) ∅))
    else Ok (s, None).

Definition RunningContractState_is_participant_given_account_id (s : RunningContractState)
    (account_id : AccountId) : bool :=
  Participants_is_participant_given_account_id (tp_participants (rs_parameters s)) account_id.

(** ** Votes for new parameters *)

Definition set_parameters_votes (s : RunningContractState) (v : ThresholdParametersVotes) :
    RunningContractState :=
  mkRunning (rs_domains s) (rs_keyset s) (rs_parameters s) v
    (rs_add_domains_votes s) (rs_previously_cancelled_resharing_epoch_id s).

(** The current participants that vote for a proposal. *)
Definition current_voters (s : RunningContractState) (proposal : ThresholdParameters) :
    gset string :=
  filter (λ a, a ∈ accounts_of (tp_participants (rs_parameters s)))
    (voters_for (rs_parameters_votes s) proposal).

Lemma voters_for_members s proposal :
  Running_ok s → voters_for (rs_parameters_votes s) proposal ⊆
    list_to_set (accounts_of (tp_participants proposal)).
Proof.
  intros Hs a Ha%elem_of_voters_for. apply elem_of_list_to_set. by eapply run_voters.
Qed.

Record proposal_vote (env : Env) (s : RunningContractState) (proposal : ThresholdParameters)
    (s' : RunningContractState) (accepted : bool) : Prop := {
  pv_incoming : incoming_ok (rs_parameters s) proposal;
  pv_member : signer_account_id env ∈ accounts_of (tp_participants proposal);
  pv_admitted : signer_account_id env ∉ accounts_of (tp_participants (rs_parameters s)) →
    tp_threshold (rs_parameters s) ≤ zsize (current_voters s proposal);
  pv_state : s' = set_parameters_votes s
    (ThresholdParametersVotes_vote (rs_parameters_votes s) proposal (signer_account_id env)).1;
  pv_voters : voters_for (rs_parameters_votes s') proposal =
    {[signer_account_id env]} ∪ voters_for (rs_parameters_votes s) proposal;
  pv_accepted : accepted = true ↔ voters_for (rs_parameters_votes s') proposal =
    list_to_set (accounts_of (tp_participants proposal));
}.

Lemma process_new_parameters_proposal_Ok env s proposal s' b :
  Running_ok s → Participants_bounded (tp_participants proposal) →
  RunningContractState_process_new_parameters_proposal env s proposal = Ok (s', b) →
  proposal_vote env s proposal s' b.
Proof.
  intros Hs Hb H. unfold RunningContractState_process_new_parameters_proposal in H.
  apply bind_Ok in H as ([] & Hv & H). apply bind_Ok in H as (a & Ha & H).
  apply validate_incoming_proposal_Ok in Hv; [|apply Hs|apply Hs|done].
  apply AuthenticatedAccountId_new_Ok in Ha as [-> Ha].
  destruct (negb _ && _) eqn:Hadm in H; [done|].
  pose proof (ThresholdParametersVotes_vote_spec (rs_parameters_votes s) proposal
    (signer_account_id env)) as Hvote.
  destruct (ThresholdParametersVotes_vote _ _ _) as [v' n] eqn:Ev.
  destruct Hvote as (-> & Hvoters & _). injection H as <- <-.
  split; cbn [rs_parameters_votes rs_parameters]; try done.
  - intros Hni. apply andb_false_iff in Hadm as [Hadm|Hadm].
    + apply negb_false_iff in Hadm.
      destruct (AuthenticatedAccountId_new env _) eqn:E; [|done|done].
      by apply AuthenticatedAccountId_new_Ok in E as [_ ?].
    + apply Z.ltb_ge in Hadm. by rewrite ThresholdParametersVotes_n_votes_spec in Hadm.
  - by rewrite Ev.
  - rewrite Z.eqb_eq. pose proof (voters_for_members s proposal Hs) as Hsub.
    assert (Hpw : Participants_wf (tp_participants proposal)) by apply Hv.
    split.
    + intros Hn. apply full_account_set; [done| |done]. rewrite Hvoters.
      apply union_subseteq. split; [|done]. apply singleton_subseteq_l. by apply elem_of_list_to_set.
    + intros ->. unfold zsize. rewrite size_list_to_set by apply Hpw.
      by rewrite Participants_len_accounts.
Qed.

Lemma set_parameters_votes_ok s v :
  Running_ok s →
  (∀ a p, proposal_by_account v !! a = Some p → a ∈ accounts_of (tp_participants p)) →
  Running_ok (set_parameters_votes s v).
Proof. intros [] Hv. by split. Qed.

Lemma proposal_vote_ok env s proposal s' b :
  Running_ok s → proposal_vote env s proposal s' b → Running_ok s'.
Proof.
  intros Hs Hp. rewrite (pv_state _ _ _ _ _ Hp). apply set_parameters_votes_ok; [done|].
  intros a p. simpl. rewrite lookup_insert_Some. intros [[<- <-]|[_ ?]].
  - apply Hp.
  - by eapply run_voters.
Qed.

(** Acceptance needs the votes of at least [threshold] current participants. *)
Lemma accepted_quorum env s proposal s' :
  Running_ok s → proposal_vote env s proposal s' true →
  tp_threshold (rs_parameters s) ≤ zsize (current_voters s' proposal).
Proof.
  intros Hs Hp. etrans; [apply (inc_quorum _ _ (pv_incoming _ _ _ _ _ Hp))|].
  pose proof (proj1 (pv_accepted _ _ _ _ _ Hp) eq_refl) as Hall.
  unfold current_voters. rewrite Hall, (pv_state _ _ _ _ _ Hp). simpl.
  set (old := old_entries _ _).
  assert (NoDup (entry_account <$> old)) as Hnd.
  { pose proof (wf_accounts _ (wf_participants _ (inc_wf _ _ (pv_incoming _ _ _ _ _ Hp)))) as Hn.
    unfold accounts_of in Hn. eapply sublist_NoDup; [exact Hn|].
    apply fmap_sublist, sublist_filter. }
  rewrite <- (zlen_fmap entry_account old). unfold zlen, zsize. apply inj_le.
  rewrite <- (size_list_to_set (C:=gset string)) by done. apply subseteq_size.
  intros a (e & -> & [Ho He]%list_elem_of_filter)%elem_of_list_to_set%list_elem_of_fmap.
  apply elem_of_filter. split; [exact Ho|]. apply elem_of_list_to_set.
  unfold accounts_of. apply list_elem_of_fmap. eauto.
Qed.

Lemma transition_to_resharing_ok s proposal s' o :
  Running_ok s → incoming_ok (rs_parameters s) proposal →
  Participants_bounded (tp_participants proposal) →
  RunningContractState_transition_to_resharing_no_checks s proposal = (s', o) →
  Running_ok s' ∧ ∀ r, o = Some r → Resharing_ok r.
Proof.
  intros Hs Hp Hb. unfold RunningContractState_transition_to_resharing_no_checks,
    DomainRegistry_get_domain_by_index.
  destruct (dr_domains (rs_domains s) !! 0%nat) as [d|] eqn:Hd; intros [= <- <-].
  - split; [done|]. intros r [= <-]. by apply Resharing_fresh_ok.
  - split; [|done]. apply Running_new_ok; [apply Hs| |split; [apply Hp|done]].
    simpl. apply lookup_ge_None in Hd.
    destruct (dr_domains (rs_domains s)); [done|simpl in Hd; lia].
Qed.

Lemma vote_new_parameters_cases env s epoch proposal s' o :
  Running_ok s → Participants_bounded (tp_participants proposal) →
  RunningContractState_vote_new_parameters env s epoch proposal = Ok (s', o) →
  epoch = RunningContractState_prospective_epoch_id s ∧
  ∃ s1 accepted, proposal_vote env s proposal s1 accepted ∧
    (s', o) = if accepted : bool
      then RunningContractState_transition_to_resharing_no_checks s1 proposal else (s1, None).
Proof.
  intros Hs Hb H. unfold RunningContractState_vote_new_parameters in H.
  destruct (Z.eqb_spec epoch (RunningContractState_prospective_epoch_id s)); [|done].
  split; [done|]. simpl in H. apply bind_Ok in H as ([s1 b] & Hp & H).
  exists s1, b. split; [by apply process_new_parameters_proposal_Ok|].
  destruct b; congruence.
Qed.

Lemma Running_vote_new_parameters_ok env s epoch proposal s' o :
  Running_ok s → Participants_bounded (tp_participants proposal) →
  RunningContractState_vote_new_parameters env s epoch proposal = Ok (s', o) →
  Running_ok s' ∧ ∀ r, o = Some r → Resharing_ok r.
Proof.
  intros Hs Hb (_ & s1 & b & Hp & H)%vote_new_parameters_cases; [|done|done].
  pose proof (proposal_vote_ok _ _ _ _ _ Hs Hp). destruct b.
  - eapply transition_to_resharing_ok; [done| |done|done].
    rewrite (pv_state _ _ _ _ _ Hp). apply Hp.
  - by injection H as -> ->.
Qed.

Lemma process_proposal_no_panic env s proposal :
  no_panic (RunningContractState_process_new_parameters_proposal env s proposal).
Proof.
  apply bind_no_panic; [apply validate_incoming_proposal_no_panic|]. intros _ _.
  apply bind_no_panic; [auto with mpc|]. intros a _. by destruct (_ && _).
Qed.

Lemma Running_vote_new_parameters_no_panic env s epoch proposal :
  no_panic (RunningContractState_vote_new_parameters env s epoch proposal).
Proof.
  unfold RunningContractState_vote_new_parameters. case_match; [done|].
  apply bind_no_panic; [apply process_proposal_no_panic|]. by intros [? []] _.
Qed.

(** ** Votes to add domains *)

Definition set_add_domains_votes (s : RunningContractState) (v : AddDomainsVotes) :
    RunningContractState :=
  mkRunning (rs_domains s) (rs_keyset s) (rs_parameters s) (rs_parameters_votes s)
    v (rs_previously_cancelled_resharing_epoch_id s).

Lemma check_schemes_Ok ds :
  check_schemes ds = Ok tt ↔
  ∀ d, d ∈ ds → is_valid_scheme_for_purpose (dc_purpose d) (dc_scheme d) = true.
Proof.
  induction ds as [|d ds IH]; simpl; [set_solver|].
  destruct (is_valid_scheme_for_purpose _ _) eqn:E; simpl; [rewrite IH|];
    setoid_rewrite elem_of_cons; [naive_solver|].
  split; [done|]. intros H. specialize (H d (or_introl eq_refl)). congruence.
Qed.

(** All the participants vote for the same new domains. *)
Definition all_voted_domains (s : RunningContractState) (ds : list DomainConfig) : Prop :=
  ∀ i, i ∈ ids_of (tp_participants (rs_parameters s)) →
    add_domains_proposals (rs_add_domains_votes s) !! i = Some ds.

Record domains_vote (env : Env) (s : RunningContractState) (ds : list DomainConfig)
    (s' : RunningContractState) (o : option InitializingContractState) : Prop := {
  dv_nonempty : ds ≠ [];
  dv_schemes : ∀ d, d ∈ ds → is_valid_scheme_for_purpose (dc_purpose d) (dc_scheme d) = true;
  dv_voter : ∃ c, AuthenticatedParticipantId_new env (tp_participants (rs_parameters s)) = Ok c ∧
    s' = set_add_domains_votes s
      (AddDomainsVotes_vote (rs_add_domains_votes s) ds c).1;
  dv_complete : is_Some o ↔ all_voted_domains s' ds;
  dv_next : ∀ i, o = Some i → ∃ first r, head ds = Some first ∧
    DomainRegistry_add_domains (rs_domains s) ds = Ok r ∧
    i = mkInitializing r (ks_epoch_id (rs_keyset s)) (ks_domains (rs_keyset s))
          (KeyEvent_new (ks_epoch_id (rs_keyset s)) first (rs_parameters s)) ∅;
}.

Lemma all_voted_domains_count s ds c :
  Running_ok s → c ∈ ids_of (tp_participants (rs_parameters s)) →
  let '(v', n) := AddDomainsVotes_vote (rs_add_domains_votes s) ds c in
  Participants_len (tp_participants (rs_parameters s)) = n ↔
  all_voted_domains (set_add_domains_votes s v') ds.
Proof.
  intros Hs Hc. unfold AddDomainsVotes_vote, all_voted_domains. simpl.
  set (m := <[c := ds]> (add_domains_proposals (rs_add_domains_votes s))).
  set (f := filter _ m). unfold zsize. rewrite <- (size_dom (D:=gset Z)).
  assert (Hf : ∀ i, i ∈ dom f ↔ m !! i = Some ds).
  { intros i. rewrite elem_of_dom. unfold f. split.
    - intros [p [Hp ?]%map_lookup_filter_Some]. simpl in *. by subst.
    - intros Hi. exists ds. by apply map_lookup_filter_Some. }
  pose proof (wf_participants _ (params_wf _ (run_params _ Hs))) as Hpw.
  assert (Hsub : dom f ⊆ list_to_set (ids_of (tp_participants (rs_parameters s)))).
  { intros i Hi%Hf. apply elem_of_list_to_set. unfold m in Hi.
    apply lookup_insert_Some in Hi as [[<- _]|[_ Hi]]; [done|].
    apply elem_of_dom_2, (run_domain_voters _ Hs) in Hi. by apply elem_of_list_to_set in Hi. }
  fold (zsize (dom f)). split.
  - intros Hn i Hi. apply Hf. symmetry in Hn. rewrite (full_id_set _ _ Hpw Hsub Hn).
    by apply elem_of_list_to_set.
  - intros Hall. assert (dom f = list_to_set (ids_of (tp_participants (rs_parameters s)))) as ->.
    { apply (anti_symm (⊆)); [done|]. intros i Hi%elem_of_list_to_set. by apply Hf, Hall. }
    unfold zsize. rewrite size_list_to_set by apply Hpw. by rewrite Participants_len_ids.
Qed.

Lemma vote_add_domains_Ok env s ds s' o :
  Running_ok s → RunningContractState_vote_add_domains env s ds = Ok (s', o) →
  domains_vote env s ds s' o.
Proof.
  intros Hs H. unfold RunningContractState_vote_add_domains in H.
  case_bool_decide as Hne; [done|]. apply bind_Ok in H as ([] & Hsch & H).
  apply bind_Ok in H as (c & Hc & H).
  pose proof (AuthenticatedParticipantId_new_Ok _ _ _ Hc) as (Hmem & _).
  pose proof (all_voted_domains_count s ds c Hs Hmem) as Hcount.
  destruct (AddDomainsVotes_vote (rs_add_domains_votes s) ds c) as [v n] eqn:Ev.
  cbn [rs_parameters rs_domains rs_keyset] in H.
  assert (Hs' : s' = set_add_domains_votes s v) by (inv_ok; done). subst s'.
  split; [done|by apply check_schemes_Ok|exists c; by rewrite Ev| |].
  - rewrite <- Hcount, <- Z.eqb_eq. destruct (_ =? n); [|inv_ok; split; [by intros [? ?]|done]].
    inv_ok. split; [done|by eexists].
  - intros i ->. destruct (_ =? n); [|done]. inv_ok.
    destruct ds as [|d ds]; [done|]. unfold index in *. simpl in *. simplify_eq. eauto.
Qed.

Lemma set_add_domains_votes_ok env s ds c :
  Running_ok s →
  AuthenticatedParticipantId_new env (tp_participants (rs_parameters s)) = Ok c →
  Running_ok (set_add_domains_votes s (AddDomainsVotes_vote (rs_add_domains_votes s) ds c).1).
Proof.
  intros [] (Hc & _)%AuthenticatedParticipantId_new_Ok. split; try done.
  simpl. rewrite dom_insert. set_solver.
Qed.

Lemma add_domains_initializing_ok s ds r first :
  Running_ok s → dr_next_domain_id (rs_domains s) + zlen ds ≤ u64_max →
  head ds = Some first → DomainRegistry_add_domains (rs_domains s) ds = Ok r →
  Initializing_ok (mkInitializing r (ks_epoch_id (rs_keyset s)) (ks_domains (rs_keyset s))
    (KeyEvent_new (ks_epoch_id (rs_keyset s)) first (rs_parameters s)) ∅).
Proof.
  intros [Hreg Hkeys Hp _ _ _] Hb Hhd Hadd. pose proof (registry_next _ Hreg) as Hn.
  pose proof (keys_for_length _ _ Hkeys) as Hlen. pose proof (zlen_nonneg ds).
  pose proof (DomainRegistry_add_domains_wf _ _ _ (registry_wf _ Hreg) (proj1 Hn) Hb Hadd) as Hwf.
  apply DomainRegistry_add_domains_spec in Hadd as [-> _]; [|lia|done].
  split; simpl; try done.
  - split; simpl; [done|lia].
  - by rewrite Hlen, take_app_length.
  - rewrite Hlen, lookup_app_r, Nat.sub_diag by done. by destruct ds.
  - by apply KeyEvent_new_wf, Hp.
  - apply Hp.
  - unfold zsize. rewrite size_empty. destruct (wf_threshold _ (params_wf _ Hp)). lia.
Qed.

Lemma Running_vote_add_domains_ok env s ds s' o :
  Running_ok s → dr_next_domain_id (rs_domains s) + zlen ds ≤ u64_max →
  RunningContractState_vote_add_domains env s ds = Ok (s', o) →
  Running_ok s' ∧ ∀ i, o = Some i → Initializing_ok i.
Proof.
  intros Hs Hb H%vote_add_domains_Ok; [|done]. split.
  - destruct (dv_voter _ _ _ _ _ H) as (c & Hc & ->). by eapply set_add_domains_votes_ok.
  - intros i (first & r & Hhd & Hadd & ->)%(dv_next _ _ _ _ _ H).
    by eapply add_domains_initializing_ok.
Qed.

Lemma DomainRegistry_add_domains_no_panic r ds : no_panic (DomainRegistry_add_domains r ds).
Proof. revert r. induction ds; intros r; simpl; [done|]. case_match; [done|auto]. Qed.

Lemma check_schemes_no_panic ds : no_panic (check_schemes ds).
Proof. induction ds; simpl; [done|]. by case_match. Qed.

Lemma Running_vote_add_domains_no_panic env s ds :
  no_panic (RunningContractState_vote_add_domains env s ds).
Proof.
  unfold RunningContractState_vote_add_domains. case_bool_decide as Hne; [done|].
  apply bind_no_panic; [apply check_schemes_no_panic|]. intros _ _.
  apply bind_no_panic; [auto with mpc|]. intros c _.
  destruct (AddDomainsVotes_vote _ _ _) as [v n]. case_match; [|done].
  apply bind_no_panic; [apply DomainRegistry_add_domains_no_panic|]. intros r _.
  apply bind_no_panic; [|done]. by destruct ds.
Qed.

#[export] Hint Resolve Running_vote_add_domains_no_panic Running_vote_new_parameters_no_panic : mpc.


(** ** What a transition out of the running phase needs *)

(** Parameters change only on a quorum.  When [vote_new_parameters] moves
    the contract to resharing (or, with no domain yet, installs the new
    parameters at once), the proposal is admissible against the current
    parameters, the accounts that vote for this very proposal (the caller
    included) are exactly the proposed participants, and at least [threshold]
    of them are current participants. *)
Theorem parameters_change_needs_quorum env s epoch proposal s' o :
  Running_ok s → Participants_bounded (tp_participants proposal) →
  RunningContractState_vote_new_parameters env s epoch proposal = Ok (s', o) →
  is_Some o ∨ rs_parameters s' ≠ rs_parameters s →
  let voters := {[signer_account_id env]} ∪ voters_for (rs_parameters_votes s) proposal in
  incoming_ok (rs_parameters s) proposal ∧
  voters = list_to_set (accounts_of (tp_participants proposal)) ∧
  tp_threshold (rs_parameters s) ≤
    zsize (filter (λ a, a ∈ accounts_of (tp_participants (rs_parameters s))) voters).
Proof.
  intros Hs Hb (_ & s1 & b & Hp & Heq)%vote_new_parameters_cases Hchg voters; [|done|done].
  pose proof (pv_state _ _ _ _ _ Hp) as Hs1. destruct b.
  - pose proof (accepted_quorum _ _ _ _ Hs Hp) as Hq. unfold current_voters in Hq.
    rewrite (pv_voters _ _ _ _ _ Hp), Hs1 in Hq.
    split; [apply Hp|]. split; [|done].
    rewrite <- (proj1 (pv_accepted _ _ _ _ _ Hp) eq_refl). by rewrite (pv_voters _ _ _ _ _ Hp).
  - injection Heq as -> ->. subst s1. destruct Hchg as [[? ?]|?]; done.
Qed.

(** Key generation starts only on unanimity.  [vote_add_domains] moves to
    the initializing phase exactly when every current participant's recorded
    vote is this list of domains; then their ids continue the registry and
    each scheme fits its purpose. *)
Theorem new_domains_need_all_participants env s ds s' o :
  Running_ok s → dr_next_domain_id (rs_domains s) + zlen ds ≤ u64_max →
  RunningContractState_vote_add_domains env s ds = Ok (s', o) →
  (is_Some o ↔ all_voted_domains s' ds) ∧
  ∀ i, o = Some i →
    dr_domains (is_domains i) = dr_domains (rs_domains s) ++ ds ∧
    dc_id <$> ds = seqZ (dr_next_domain_id (rs_domains s)) (zlen ds) ∧
    (∀ d, d ∈ ds → is_valid_scheme_for_purpose (dc_purpose d) (dc_scheme d) = true) ∧
    is_generated_keys i = ks_domains (rs_keyset s) ∧
    kev_parameters (is_generating_key i) = rs_parameters s.
Proof.
  intros Hs Hb H%vote_add_domains_Ok; [|done]. split; [apply H|].
  intros i (first & r & _ & Hadd & ->)%(dv_next _ _ _ _ _ H).
  apply DomainRegistry_add_domains_spec in Hadd as [-> Hids];
    [|apply (registry_next _ (run_registry _ Hs))|done].
  repeat split; try done. apply H.
Qed.

(** A running contract with the sample committee. *)
Definition running_with (ds : list DomainConfig) (keys : list KeyForDomain) :
    RunningContractState :=
  RunningContractState_new (mkDomainRegistry ds (zlen ds)) (mkKeyset 5 keys)
    committee_params AddDomainsVotes_default.

Definition sample_running : RunningContractState :=
  running_with [ecdsa_domain] [mkKeyForDomain 0 group_key 0].

Lemma committee_params_ok : params_ok committee_params.
Proof.
  split; [apply committee_params_wf|]. split; [|done|done].
  intros i. change (i ∈ [0; 1; 2] → 0 ≤ i). rewrite !elem_of_cons, elem_of_nil. lia.
Qed.

Lemma sample_running_ok : Running_ok sample_running.
Proof.
  apply Running_new_ok; [|done|apply committee_params_ok]. split; [|done].
  apply (DomainRegistry_from_raw_validated_wf [ecdsa_domain] 1). reflexivity.
Qed.

(** Replacing carol by dave. *)
Definition new_committee : Participants :=
  mkParticipants 4 [sample_entry "alice" 0; sample_entry "bob" 1; sample_entry "dave" 3].
Definition new_params : ThresholdParameters := mkThresholdParameters new_committee 2.

Lemma new_committee_bounded : Participants_bounded new_committee.
Proof.
  split; [|done|done]. intros i. change (i ∈ [0; 1; 3] → 0 ≤ i).
  rewrite !elem_of_cons, elem_of_nil. lia.
Qed.

Definition sample_voted : RunningContractState :=
  set_parameters_votes sample_running (mkThresholdParametersVotes
    (<["alice" := new_params]> (<["bob" := new_params]> ∅))).

Lemma sample_voted_ok : Running_ok sample_voted.
Proof.
  apply set_parameters_votes_ok; [apply sample_running_ok|].
  intros a p. simpl. rewrite !lookup_insert_Some, lookup_empty.
  intros [[<- <-]|[_ [[<- <-]|[_ ?]]]]; [| |done];
    by apply (bool_decide_eq_true_1 _).
Qed.

Lemma parameters_change_needs_quorum_witness :
  2 ≤ zsize (filter (λ a, a ∈ accounts_of committee)
    ({["dave"]} ∪ voters_for (rs_parameters_votes sample_voted) new_params)).
Proof.
  eapply (parameters_change_needs_quorum (call_by "dave" 10) sample_voted 6 new_params).
  - apply sample_voted_ok.
  - apply new_committee_bounded.
  - reflexivity.
  - left. by eexists.
Defined.

Definition sample_domain_votes : RunningContractState :=
  set_add_domains_votes sample_running
    (mkAddDomainsVotes (<[0 := [eddsa_domain]]> (<[1 := [eddsa_domain]]> ∅))).

Lemma sample_domain_votes_ok : Running_ok sample_domain_votes.
Proof.
  destruct sample_running_ok. split; try done.
  by apply (bool_decide_eq_true_1 _).
Qed.

Lemma new_domains_need_all_participants_witness :
  ∃ i, dr_domains (is_domains i) = [ecdsa_domain; eddsa_domain].
Proof.
  edestruct (new_domains_need_all_participants (call_by "carol" 10) sample_domain_votes
    [eddsa_domain]) as [_ H].
  - apply sample_domain_votes_ok.
  - done.
  - reflexivity.
  - eexists. apply H. reflexivity.
Defined.
