(* ===== verification/Initializing.v ===== *)
(** * The key-generation phase ([state/initializing.rs])

    One key event per new domain; the keys already generated are a prefix of
    the registry.  A threshold of participants can cancel, keeping that prefix. *)

From S2P Require Import Prelude Types CryptoTypes Participants Thresholds Domain Samples.
From S2P Require Import KeyState KeyEvent ContractState.

(** ** Operations *)

Definition InitializingContractState_start (env : Env) (s : InitializingContractState)
    (key_event_id : KeyEventId) (key_event_timeout_blocks : Z) :
    result Error InitializingContractState :=
  ke ← KeyEvent_start env (is_generating_key s) key_event_id key_event_timeout_blocks;
  Ok (mkInitializing (is_domains s) (is_epoch_id s) (is_generated_keys s) ke
        (is_cancel_votes s)).

Definition InitializingContractState_vote_pk (env : Env) (s : InitializingContractState)
    (key_event_id : KeyEventId) (public_key : PublicKeyExtended) :
    result Error (InitializingContractState * option RunningContractState) :=
  '(ke, completed) ← KeyEvent_vote_success env (is_generating_key s) key_event_id public_key;
  if completed : bool then
    let generated_keys := is_generated_keys s ++
      [mkKeyForDomain (ke_domain_id key_event_id) public_key (ke_attempt_id key_event_id)] in
    match DomainRegistry_get_domain_by_index (is_domains s) (length generated_keys) with
    | Some next_domain =>
      Ok (mkInitializing (is_domains s) (is_epoch_id s) generated_keys
            (KeyEvent_new (is_epoch_id s) next_domain (kev_parameters ke))
            (is_cancel_votes s), None)
    | None =>
      Ok (mkInitializing (is_domains s) (is_epoch_id s) generated_keys ke (is_cancel_votes s),
          Some (RunningContractState_new (is_domains s)
                  (mkKeyset (is_epoch_id s) generated_keys)
                  (kev_parameters ke) AddDomainsVotes_default))
    end
  else
    Ok (mkInitializing (is_domains s) (is_epoch_id s) (is_generated_keys s) ke
          (is_cancel_votes s), None).

Definition InitializingContractState_vote_abort (env : Env) (s : InitializingContractState)
    (key_event_id : KeyEventId) : result Error InitializingContractState :=
  ke ← KeyEvent_vote_abort env (is_generating_key s) key_event_id;
  Ok (mkInitializing (is_domains s) (is_epoch_id s) (is_generated_keys s) ke
        (is_cancel_votes s)).

Definition InitializingContractState_vote_cancel (env : Env) (s : InitializingContractState)
    (next_domain_id : Z) :
    result Error (InitializingContractState * option RunningContractState) :=
  if negb (next_domain_id =? dr_next_domain_id (is_domains s))
  then Err (EInvalidParameters NextDomainIdMismatch)
  else
    participant ← AuthenticatedParticipantId_new env
                    (tp_participants (kev_parameters (is_generating_key s)));
    let required_threshold := as_usize (tp_threshold (kev_parameters (is_generating_key s))) in
    let inserted := negb (bool_decide (participant ∈ is_cancel_votes s)) in
    let cancel_votes := {[participant]} ∪ is_cancel_votes s in
    let s := mkInitializing (is_domains s) (is_epoch_id s) (is_generated_keys s)
               (is_generating_key s) cancel_votes in
    if inserted && (required_threshold <=? zsize cancel_votes)
    then
      let domains := DomainRegistry_retain_domains (is_domains s)
                       (length (is_generated_keys s)) in
      Ok (s, Some (RunningContractState_new domains
                     (mkKeyset (is_epoch_id s) (is_generated_keys s))
                     (kev_parameters (is_generating_key s)) AddDomainsVotes_default))
    else Ok (s, None).

Definition InitializingContractState_is_participant_given_account_id
    (s : InitializingContractState) (account_id : AccountId) : bool :=
  Participants_is_participant_given_account_id
    (tp_participants (kev_parameters (is_generating_key s))) account_id.

(** ** Preservation of the invariant *)

Definition set_generating_key (s : InitializingContractState) (ke : KeyEvent) :
    InitializingContractState :=
  mkInitializing (is_domains s) (is_epoch_id s) (is_generated_keys s) ke (is_cancel_votes s).

Lemma set_generating_key_ok s ke :
  Initializing_ok s → KeyEvent_wf ke → same_event (is_generating_key s) ke →
  Initializing_ok (set_generating_key s ke).
Proof. intros [] Hke [He Hd Hp]. split; simpl; rewrite ?Hd, ?He, ?Hp; done. Qed.

Lemma Initializing_start_ok env s id t s' :
  Initializing_ok s → InitializingContractState_start env s id t = Ok s' → Initializing_ok s'.
Proof.
  intros Hs H. unfold InitializingContractState_start in H. inv_ok.
  destruct (KeyEvent_start_wf _ _ _ _ _ (init_event _ Hs) H0).
  by apply (set_generating_key_ok s).
Qed.

Lemma Initializing_vote_abort_ok env s id s' :
  Initializing_ok s → InitializingContractState_vote_abort env s id = Ok s' →
  Initializing_ok s'.
Proof.
  intros Hs H. unfold InitializingContractState_vote_abort in H. inv_ok.
  destruct (KeyEvent_vote_abort_wf _ _ _ _ (init_event _ Hs) H0).
  by apply (set_generating_key_ok s).
Qed.

(** A completed key extends the generated prefix by the current domain. *)
Lemma generated_snoc env s id pk ke b :
  Initializing_ok s → KeyEvent_vote_success env (is_generating_key s) id pk = Ok (ke, b) →
  same_event (is_generating_key s) ke ∧
  keys_for (is_generated_keys s ++ [mkKeyForDomain (ke_domain_id id) pk (ke_attempt_id id)])
    (take (length (is_generated_keys s ++
             [mkKeyForDomain (ke_domain_id id) pk (ke_attempt_id id)]))
       (dr_domains (is_domains s))).
Proof.
  intros Hs Hv. destruct (KeyEvent_vote_success_cases _ _ _ _ _ _ (init_event _ Hs) Hv)
    as (i & c & _ & _ & -> & _ & Hsame & _). split; [done|].
  eapply keys_for_snoc; [apply Hs|apply Hs|done].
Qed.

Lemma Initializing_vote_pk_ok env s id pk s' o :
  Initializing_ok s → InitializingContractState_vote_pk env s id pk = Ok (s', o) →
  match o with None => Initializing_ok s' | Some r => Running_ok r end.
Proof.
  intros Hs H. unfold InitializingContractState_vote_pk in H.
  apply bind_Ok in H as ([ke b] & Hv & H).
  destruct (generated_snoc _ _ _ _ _ _ Hs Hv) as [[He Hd Hp] Hkeys].
  assert (Hps : params_ok (kev_parameters (is_generating_key s)))
    by (split; [apply (init_event _ Hs)|apply Hs]).
  destruct b; simpl in H.
  - unfold DomainRegistry_get_domain_by_index in H. rewrite Hp in H.
    destruct (dr_domains (is_domains s) !! _) as [next|] eqn:Hnext; injection H as <- <-.
    + split; simpl; try done; try apply Hs.
      by apply KeyEvent_new_wf, Hps.
    + apply Running_new_ok; [apply Hs| |done]. by apply keys_for_full.
  - injection H as <- <-. apply (set_generating_key_ok s); [done| |done].
    eapply KeyEvent_vote_success_wf; [apply (init_event _ Hs)|done].
Qed.

Lemma as_usize_threshold tp :
  ThresholdParameters_wf tp → Participants_bounded (tp_participants tp) →
  as_usize (tp_threshold tp) = tp_threshold tp.
Proof.
  intros [_ [? [? _]]] [_ _ ?]. apply as_usize_small. lia.
Qed.

(** The outcome of a cancel vote. *)
Lemma Initializing_vote_cancel_cases env s n s' o :
  Initializing_ok s → InitializingContractState_vote_cancel env s n = Ok (s', o) →
  n = dr_next_domain_id (is_domains s) ∧
  ∃ c, AuthenticatedParticipantId_new env
         (tp_participants (kev_parameters (is_generating_key s))) = Ok c ∧
    s' = mkInitializing (is_domains s) (is_epoch_id s) (is_generated_keys s)
           (is_generating_key s) ({[c]} ∪ is_cancel_votes s) ∧
    (is_Some o ↔ tp_threshold (kev_parameters (is_generating_key s)) ≤
                   zsize (is_cancel_votes s')) ∧
    ∀ r, o = Some r → r = RunningContractState_new
      (DomainRegistry_retain_domains (is_domains s) (length (is_generated_keys s)))
      (mkKeyset (is_epoch_id s) (is_generated_keys s))
      (kev_parameters (is_generating_key s)) AddDomainsVotes_default.
Proof.
  intros Hs H. unfold InitializingContractState_vote_cancel in H.
  destruct (Z.eqb_spec n (dr_next_domain_id (is_domains s))); [|done]. split; [done|].
  simpl in H. apply bind_Ok in H as (c & Hc & H). exists c. split; [done|].
  rewrite as_usize_threshold in H; [|apply (init_event _ Hs)|apply Hs].
  assert (s' = mkInitializing (is_domains s) (is_epoch_id s) (is_generated_keys s)
    (is_generating_key s) ({[c]} ∪ is_cancel_votes s)) as -> by (inv_ok; done).
  split; [done|]. simpl. split.
  - case_bool_decide as Hin; simpl in H.
    + injection H as <-. split; [by intros [? ?]|].
      assert ({[c]} ∪ is_cancel_votes s = is_cancel_votes s) as -> by set_solver.
      pose proof (init_cancel_open _ Hs). lia.
    + destruct (Z.leb_spec (tp_threshold (kev_parameters (is_generating_key s)))
        (zsize ({[c]} ∪ is_cancel_votes s))); injection H as <-.
      * split; [done|by eexists].
      * split; [by intros [? ?]|lia].
  - intros r ->. inv_ok. done.
Qed.

Lemma Initializing_vote_cancel_ok env s n s' o :
  Initializing_ok s → InitializingContractState_vote_cancel env s n = Ok (s', o) →
  match o with None => Initializing_ok s' | Some r => Running_ok r end.
Proof.
  intros Hs (_ & c & Hc & -> & Hdone & Hr)%Initializing_vote_cancel_cases; [|done].
  destruct o as [r|].
  - rewrite (Hr r eq_refl). apply Running_new_ok.
    + split; [apply DomainRegistry_retain_domains_wf, Hs|apply Hs].
    + apply Hs.
    + split; [apply (init_event _ Hs)|apply Hs].
  - apply AuthenticatedParticipantId_new_Ok in Hc as (Hc & _).
    assert (¬ tp_threshold (kev_parameters (is_generating_key s)) ≤
      zsize ({[c]} ∪ is_cancel_votes s)) by (intros Hle%Hdone; by destruct Hle).
    destruct Hs. split; simpl in *; try done; [set_solver|lia].
Qed.

Lemma Initializing_start_no_panic env s id t :
  Initializing_ok s → no_panic (InitializingContractState_start env s id t).
Proof.
  intros Hs. apply bind_no_panic; [|done]. apply KeyEvent_start_no_panic, Hs.
Qed.

Lemma Initializing_vote_pk_no_panic env s id pk :
  no_panic (InitializingContractState_vote_pk env s id pk).
Proof. apply bind_no_panic; [auto with mpc|]. intros [ke []] _; simpl; by repeat case_match. Qed.

Lemma Initializing_vote_abort_no_panic env s id :
  no_panic (InitializingContractState_vote_abort env s id).
Proof. apply bind_no_panic; auto with mpc. Qed.

Lemma Initializing_vote_cancel_no_panic env s n :
  no_panic (InitializingContractState_vote_cancel env s n).
Proof.
  unfold InitializingContractState_vote_cancel. case_match; [done|].
  apply bind_no_panic; [auto with mpc|]. intros c _. by repeat case_match.
Qed.

#[export] Hint Resolve Initializing_start_no_panic Initializing_vote_pk_no_panic
  Initializing_vote_abort_no_panic Initializing_vote_cancel_no_panic : mpc.
