(* ===== verification/Resharing.v ===== *)
(** * The resharing phase ([state/resharing.rs])

    One key event per domain, under the proposed parameters, each for the
    public key the domain already has.  The previous running state is kept for
    re-proposals and for cancellation. *)

From S2P Require Import Prelude Types CryptoTypes Participants Thresholds Domain Samples.
From S2P Require Import KeyState KeyEvent ContractState Running.

(** ** Operations *)

Definition ResharingContractState_previous_keyset (s : ResharingContractState) : Keyset :=
  rs_keyset (rh_previous_running_state s).

Definition ResharingContractState_prospective_epoch_id (s : ResharingContractState) : EpochId :=
  kev_epoch_id (rh_resharing_key s).

Definition ResharingContractState_vote_new_parameters (env : Env) (s : ResharingContractState)
    (prospective_epoch_id : EpochId) (proposal : ThresholdParameters) :
    result Error (ResharingContractState * option ResharingContractState) :=
  let expected := EpochId_next (ResharingContractState_prospective_epoch_id s) in
  if negb (prospective_epoch_id =? expected)
  then Err (EInvalidParameters (EpochMismatch prospective_epoch_id expected))
  else
    '(prev, accepted) ← RunningContractState_process_new_parameters_proposal env
                          (rh_previous_running_state s) proposal;
    let s := mkResharing prev (rh_reshared_keys s) (rh_resharing_key s)
               (rh_cancellation_requests s) in
    if accepted : bool then
      first ← unwrap (DomainRegistry_get_domain_by_index (rs_domains prev) 0);
      Ok (s, Some (mkResharing
        (RunningContractState_new (rs_domains prev) (rs_keyset prev) (rs_parameters prev)
           (rs_add_domains_votes prev))
        []
        (KeyEvent_new (EpochId_next (ResharingContractState_prospective_epoch_id s)) first proposal)
        ∅))
    else Ok (s, None).

Definition ResharingContractState_start (env : Env) (s : ResharingContractState)
    (key_event_id : KeyEventId) (key_event_timeout_blocks : Z) :
    result Error ResharingContractState :=
  ke ← KeyEvent_start env (rh_resharing_key s) key_event_id key_event_timeout_blocks;
  Ok (mkResharing (rh_previous_running_state s) (rh_reshared_keys s) ke
        (rh_cancellation_requests s)).

Definition ResharingContractState_vote_reshared (env : Env) (s : ResharingContractState)
    (key_event_id : KeyEventId) :
    result Error (ResharingContractState * option RunningContractState) :=
  previous_key ← index (ks_domains (ResharingContractState_previous_keyset s))
                   (length (rh_reshared_keys s));
  '(ke, completed) ← KeyEvent_vote_success env (rh_resharing_key s) key_event_id
                       (kd_key previous_key);
  let prev := rh_previous_running_state s in
  if completed : bool then
    let new_key := mkKeyForDomain (ke_domain_id key_event_id) (kd_key previous_key)
                     (ke_attempt_id key_event_id) in
    let reshared_keys := rh_reshared_keys s ++ [new_key] in
    match DomainRegistry_get_domain_by_index (rs_domains prev) (length reshared_keys) with
    | Some next_domain =>
      Ok (mkResharing prev reshared_keys
            (KeyEvent_new (kev_epoch_id ke) next_domain (kev_parameters ke))
            (rh_cancellation_requests s), None)
    | None =>
      Ok (mkResharing prev reshared_keys ke (rh_cancellation_requests s),
          Some (RunningContractState_new (rs_domains prev)
                  (mkKeyset (kev_epoch_id ke) reshared_keys)
                  (kev_parameters ke) (rs_add_domains_votes prev)))
    end
  else
    Ok (mkResharing prev (rh_reshared_keys s) ke (rh_cancellation_requests s), None).

Definition ResharingContractState_vote_abort (env : Env) (s : ResharingContractState)
    (key_event_id : KeyEventId) : result Error ResharingContractState :=
  ke ← KeyEvent_vote_abort env (rh_resharing_key s) key_event_id;
  Ok (mkResharing (rh_previous_running_state s) (rh_reshared_keys s) ke
        (rh_cancellation_requests s)).

Definition ResharingContractState_vote_cancel_resharing (env : Env)
    (s : ResharingContractState) :
    result Error (ResharingContractState * option RunningContractState) :=
  let prev := rh_previous_running_state s in
  candidate ← AuthenticatedAccountId_new env (tp_participants (rs_parameters prev));
  let cancellation_requests := {[candidate]} ∪ rh_cancellation_requests s in
  let s := mkResharing prev (rh_reshared_keys s) (rh_resharing_key s) cancellation_requests in
  if tp_threshold (rs_parameters prev) <=? zsize cancellation_requests
  then
    Ok (s, Some (mkRunning (rs_domains prev) (rs_keyset prev) (rs_parameters prev)
                   (rs_parameters_votes prev) (rs_add_domains_votes prev)
                   (Some (ResharingContractState_prospective_epoch_id s))))
  else Ok (s, None).

Definition ResharingContractState_is_participant_or_prospective_participant
    (s : ResharingContractState) (account_id : AccountId) : bool :=
  RunningContractState_is_participant_given_account_id
    (rh_previous_running_state s) account_id
  || Participants_is_participant_given_account_id
       (tp_participants (kev_parameters (rh_resharing_key s))) account_id.

(** ** Preservation of the invariant *)

Definition set_resharing_key (s : ResharingContractState) (ke : KeyEvent) :
    ResharingContractState :=
  mkResharing (rh_previous_running_state s) (rh_reshared_keys s) ke
    (rh_cancellation_requests s).

Lemma set_resharing_key_ok s ke :
  Resharing_ok s → KeyEvent_wf ke → same_event (rh_resharing_key s) ke →
  Resharing_ok (set_resharing_key s ke).
Proof. intros [] Hke [He Hd Hp]. split; simpl; rewrite ?Hd, ?He, ?Hp; done. Qed.

Lemma Resharing_start_ok env s id t s' :
  Resharing_ok s → ResharingContractState_start env s id t = Ok s' → Resharing_ok s'.
Proof.
  intros Hs H. unfold ResharingContractState_start in H. inv_ok.
  destruct (KeyEvent_start_wf _ _ _ _ _ (resh_event _ Hs) H0).
  by apply (set_resharing_key_ok s).
Qed.

Lemma Resharing_vote_abort_ok env s id s' :
  Resharing_ok s → ResharingContractState_vote_abort env s id = Ok s' → Resharing_ok s'.
Proof.
  intros Hs H. unfold ResharingContractState_vote_abort in H. inv_ok.
  destruct (KeyEvent_vote_abort_wf _ _ _ _ (resh_event _ Hs) H0).
  by apply (set_resharing_key_ok s).
Qed.

(** The domain being reshared has a key in the previous keyset. *)
Lemma resharing_previous_key s :
  Resharing_ok s → ∃ k, ks_domains (ResharingContractState_previous_keyset s) !!
    length (rh_reshared_keys s) = Some k ∧ kd_domain_id k = dc_id (kev_domain (rh_resharing_key s)).
Proof.
  intros Hs. pose proof (run_keys _ (resh_previous _ Hs)) as Hk.
  pose proof (resh_current _ Hs) as Hc. unfold keys_for in Hk.
  apply (f_equal (λ l, l !! length (rh_reshared_keys s))) in Hk.
  rewrite !list_lookup_fmap, Hc in Hk. simpl in Hk. apply fmap_Some in Hk as (k & ? & ?). eauto.
Qed.

Lemma vote_reshared_cases env s id s' o :
  Resharing_ok s → ResharingContractState_vote_reshared env s id = Ok (s', o) →
  ∃ k ke completed,
    ks_domains (ResharingContractState_previous_keyset s) !! length (rh_reshared_keys s) = Some k ∧
    KeyEvent_vote_success env (rh_resharing_key s) id (kd_key k) = Ok (ke, completed) ∧
    same_event (rh_resharing_key s) ke ∧
    let keys := rh_reshared_keys s ++
      [mkKeyForDomain (ke_domain_id id) (kd_key k) (ke_attempt_id id)] in
    let prev := rh_previous_running_state s in
    keys_for keys (take (length keys) (dr_domains (rs_domains prev))) ∧
    kd_key <$> keys = kd_key <$> take (length keys) (ks_domains (rs_keyset prev)) ∧
    if completed : bool then
      match dr_domains (rs_domains prev) !! length keys with
      | Some d => o = None ∧ s' = mkResharing prev keys
          (KeyEvent_new (kev_epoch_id (rh_resharing_key s)) d (kev_parameters (rh_resharing_key s)))
          (rh_cancellation_requests s)
      | None => o = Some (RunningContractState_new (rs_domains prev)
          (mkKeyset (kev_epoch_id (rh_resharing_key s)) keys)
          (kev_parameters (rh_resharing_key s)) (rs_add_domains_votes prev))
      end
    else o = None ∧ s' = set_resharing_key s ke.
Proof.
  intros Hs H. destruct (resharing_previous_key s Hs) as (k & Hk & Hid).
  unfold ResharingContractState_vote_reshared, index in H. rewrite Hk in H. simpl in H.
  apply bind_Ok in H as ([ke b] & Hv & H). exists k, ke, b. split; [done|]. split; [done|].
  destruct (KeyEvent_vote_success_cases _ _ _ _ _ _ (resh_event _ Hs) Hv)
    as (i & c & _ & _ & Heid & _ & Hsame & _). split; [done|]. intros keys prev.
  split; [eapply keys_for_snoc; [apply Hs|apply Hs|by rewrite Heid]|]. split.
  { unfold keys. rewrite length_app, Nat.add_1_r, (take_S_r _ _ k) by done.
    rewrite !fmap_app. f_equal. apply Hs. }
  destruct Hsame as [He Hd Hp]. rewrite He, Hp in H. fold keys in H.
  unfold DomainRegistry_get_domain_by_index in H. fold prev in H.
  destruct b; [|by injection H as <- <-].
  destruct (dr_domains (rs_domains prev) !! length keys); by injection H as <- <-.
Qed.

Lemma Resharing_vote_reshared_ok env s id s' o :
  Resharing_ok s → ResharingContractState_vote_reshared env s id = Ok (s', o) →
  match o with None => Resharing_ok s' | Some r => Running_ok r end.
Proof.
  intros Hs (k & ke & b & Hk & Hv & Hsame & Hkeys & Hpks & H)%vote_reshared_cases; [|done].
  assert (Hps : params_ok (kev_parameters (rh_resharing_key s)))
    by (split; [apply (resh_event _ Hs)|apply Hs]).
  destruct b.
  - destruct (dr_domains _ !! length (rh_reshared_keys s ++ _)) as [d|] eqn:Hd.
    + destruct H as [-> ->]. split; simpl; try done; try apply Hs.
      by apply KeyEvent_new_wf, Hps.
    + subst o. apply Running_new_ok; [apply (resh_previous _ Hs)| |done]. by apply keys_for_full.
  - destruct H as [-> ->]. apply set_resharing_key_ok; [done| |done].
    eapply KeyEvent_vote_success_wf; [apply (resh_event _ Hs)|done].
Qed.

Lemma resharing_has_domain s :
  Resharing_ok s → ∃ d, dr_domains (rs_domains (rh_previous_running_state s)) !! 0%nat = Some d.
Proof.
  intros Hs. pose proof (resh_current _ Hs) as Hc.
  destruct (dr_domains (rs_domains (rh_previous_running_state s))) as [|d ds]; [done|by exists d].
Qed.

Definition set_previous (s : ResharingContractState) (r : RunningContractState) :
    ResharingContractState :=
  mkResharing r (rh_reshared_keys s) (rh_resharing_key s) (rh_cancellation_requests s).

Lemma resharing_vote_new_parameters_cases env s epoch proposal s' o :
  Resharing_ok s → Participants_bounded (tp_participants proposal) →
  ResharingContractState_vote_new_parameters env s epoch proposal = Ok (s', o) →
  epoch = EpochId_next (ResharingContractState_prospective_epoch_id s) ∧
  ∃ prev accepted, proposal_vote env (rh_previous_running_state s) proposal prev accepted ∧
    s' = set_previous s prev ∧
    if accepted : bool then ∃ first, dr_domains (rs_domains prev) !! 0%nat = Some first ∧
      o = Some (mkResharing
        (RunningContractState_new (rs_domains prev) (rs_keyset prev) (rs_parameters prev)
           (rs_add_domains_votes prev)) [] (KeyEvent_new epoch first proposal) ∅)
    else o = None.
Proof.
  intros Hs Hb H. unfold ResharingContractState_vote_new_parameters in H.
  destruct (Z.eqb_spec epoch (EpochId_next (ResharingContractState_prospective_epoch_id s)))
    as [Heq|]; [|done].
  split; [done|]. simpl in H. apply bind_Ok in H as ([prev b] & Hp & H).
  apply process_new_parameters_proposal_Ok in Hp; [|apply Hs|done].
  exists prev, b. split; [done|]. destruct b; [|inv_ok; done].
  apply bind_Ok in H as (d & Hd & H). unfold unwrap, DomainRegistry_get_domain_by_index in Hd.
  destruct (dr_domains (rs_domains prev) !! 0%nat) eqn:E; [|done]. injection Hd as ->.
  injection H as <- <-. split; [done|]. exists d. split; [done|]. by rewrite Heq.
Qed.

Lemma set_previous_ok env s prev proposal b :
  Resharing_ok s → proposal_vote env (rh_previous_running_state s) proposal prev b →
  Resharing_ok (set_previous s prev).
Proof.
  intros Hs Hp. pose proof (proposal_vote_ok _ _ _ _ _ (resh_previous _ Hs) Hp).
  pose proof (pv_state _ _ _ _ _ Hp) as ->. by destruct Hs.
Qed.

Lemma Resharing_vote_new_parameters_ok env s epoch proposal s' o :
  Resharing_ok s → Participants_bounded (tp_participants proposal) →
  ResharingContractState_vote_new_parameters env s epoch proposal = Ok (s', o) →
  Resharing_ok s' ∧ ∀ r, o = Some r → Resharing_ok r.
Proof.
  intros Hs Hb (_ & prev & b & Hp & -> & H)%resharing_vote_new_parameters_cases; [|done|done].
  split; [by eapply set_previous_ok|]. intros r ->. destruct b; [|done].
  destruct H as (d & Hd & [= ->]). apply Resharing_fresh_ok; [| |done|done].
  - by eapply proposal_vote_ok; [apply Hs|].
  - rewrite (pv_state _ _ _ _ _ Hp). apply Hp.
Qed.

Lemma vote_cancel_resharing_cases env s s' o :
  Resharing_ok s → ResharingContractState_vote_cancel_resharing env s = Ok (s', o) →
  let prev := rh_previous_running_state s in
  signer_account_id env ∈ accounts_of (tp_participants (rs_parameters prev)) ∧
  s' = mkResharing prev (rh_reshared_keys s) (rh_resharing_key s)
         ({[signer_account_id env]} ∪ rh_cancellation_requests s) ∧
  (is_Some o ↔ tp_threshold (rs_parameters prev) ≤ zsize (rh_cancellation_requests s')) ∧
  ∀ r, o = Some r → r = mkRunning (rs_domains prev) (rs_keyset prev) (rs_parameters prev)
    (rs_parameters_votes prev) (rs_add_domains_votes prev)
    (Some (ResharingContractState_prospective_epoch_id s)).
Proof.
  intros Hs H. unfold ResharingContractState_vote_cancel_resharing in H.
  apply bind_Ok in H as (a & [-> Ha]%AuthenticatedAccountId_new_Ok & H). simpl in H.
  split; [done|].
  destruct (Z.leb_spec (tp_threshold (rs_parameters (rh_previous_running_state s)))
    (zsize ({[signer_account_id env]} ∪ rh_cancellation_requests s)));
    injection H as <- <-; (split; [done|]); (split; [|naive_solver]); simpl.
  - split; [done|by eexists].
  - split; [by intros [? ?]|lia].
Qed.

Lemma Resharing_vote_cancel_ok env s s' o :
  Resharing_ok s → ResharingContractState_vote_cancel_resharing env s = Ok (s', o) →
  match o with None => Resharing_ok s' | Some r => Running_ok r end.
Proof.
  intros Hs (Ha & -> & Hdone & Hr)%vote_cancel_resharing_cases; [|done]. destruct o as [r|].
  - rewrite (Hr r eq_refl). destruct (resh_previous _ Hs). split; try done.
    intros _. simpl. destruct (resharing_has_domain s Hs) as [d Hd]. intros Hn. by rewrite Hn in Hd.
  - assert (¬ tp_threshold (rs_parameters (rh_previous_running_state s)) ≤
      zsize ({[signer_account_id env]} ∪ rh_cancellation_requests s))
      by (intros Hle%Hdone; by destruct Hle).
    destruct Hs. split; simpl in *; try done; [|lia].
    apply union_subseteq. split; [|done]. by apply singleton_subseteq_l, elem_of_list_to_set.
Qed.

Lemma Resharing_start_no_panic env s id t :
  Resharing_ok s → no_panic (ResharingContractState_start env s id t).
Proof. intros Hs. apply bind_no_panic; [|done]. apply KeyEvent_start_no_panic, Hs. Qed.

(** [previous_keyset().domains[self.reshared_keys.len()]] is in range. *)
Lemma Resharing_vote_reshared_no_panic env s id :
  Resharing_ok s → no_panic (ResharingContractState_vote_reshared env s id).
Proof.
  intros Hs. destruct (resharing_previous_key s Hs) as (k & Hk & _).
  unfold ResharingContractState_vote_reshared, index. rewrite Hk. simpl.
  apply bind_no_panic; [auto with mpc|]. intros [ke []] _; by repeat case_match.
Qed.

Lemma Resharing_vote_abort_no_panic env s id :
  no_panic (ResharingContractState_vote_abort env s id).
Proof. apply bind_no_panic; auto with mpc. Qed.

Lemma Resharing_vote_cancel_no_panic env s :
  no_panic (ResharingContractState_vote_cancel_resharing env s).
Proof. apply bind_no_panic; [auto with mpc|]. intros a _. simpl. by case_match. Qed.

(** [get_domain_by_index(0).unwrap()] finds a domain. *)
Lemma Resharing_vote_new_parameters_no_panic env s epoch proposal :
  Resharing_ok s → Participants_bounded (tp_participants proposal) →
  no_panic (ResharingContractState_vote_new_parameters env s epoch proposal).
Proof.
  intros Hs Hb. unfold ResharingContractState_vote_new_parameters. case_match; [done|].
  apply bind_no_panic; [apply process_proposal_no_panic|]. intros [prev b] Hp.
  apply process_new_parameters_proposal_Ok in Hp; [|apply Hs|done]. destruct b; [|done].
  destruct (resharing_has_domain s Hs) as [d Hd].
  rewrite (pv_state _ _ _ _ _ Hp). unfold DomainRegistry_get_domain_by_index. simpl.
  by rewrite Hd.
Qed.

#[export] Hint Resolve Resharing_start_no_panic Resharing_vote_reshared_no_panic
  Resharing_vote_abort_no_panic Resharing_vote_cancel_no_panic
  Resharing_vote_new_parameters_no_panic : mpc.
