(* ===== verification/ProtocolState.v ===== *)
(** * The protocol state machine ([state.rs])

    The dispatch of every operation to the phase the contract is in, the
    invariant of the whole machine and its consequences along arbitrary
    sequences of calls. *)

From S2P Require Import Prelude Types CryptoTypes Participants Thresholds Domain Samples.
From S2P Require Import KeyState KeyEvent ContractState Running Initializing Resharing.

(** ** Views *)

Definition ProtocolContractState_domain_registry (s : ProtocolContractState) :
    result Error DomainRegistry :=
  match s with
  | Running s => Ok (rs_domains s)
  | Resharing s => Ok (rs_domains (rh_previous_running_state s))
  | _ => Err (EInvalidState ProtocolStateNotRunningNorResharing)
  end.

Definition ProtocolContractState_public_key (s : ProtocolContractState) (domain_id : DomainId) :
    result Error PublicKeyExtended :=
  match s with
  | Running s => Keyset_public_key (rs_keyset s) domain_id
  | Resharing s => Keyset_public_key (ResharingContractState_previous_keyset s) domain_id
  | _ => Err (EInvalidState ProtocolStateNotRunningNorResharing)
  end.

Definition ProtocolContractState_threshold (s : ProtocolContractState) : result Error Threshold :=
  match s with
  | Initializing s => Ok (tp_threshold (kev_parameters (is_generating_key s)))
  | Running s => Ok (tp_threshold (rs_parameters s))
  | Resharing s => Ok (tp_threshold (rs_parameters (rh_previous_running_state s)))
  | NotInitialized => Err (EInvalidState UnexpectedProtocolState)
  end.

Definition ProtocolContractState_most_recent_domain_for_protocol (s : ProtocolContractState)
    (signature_scheme : SignatureScheme) : result Error DomainId :=
  r ← ProtocolContractState_domain_registry s;
  ok_or (DomainRegistry_most_recent_domain_for_protocol r signature_scheme)
    (EDomainError NoSuchDomain).

(** [None] stands for [ContractNotInitialized]. *)
Definition ProtocolContractState_threshold_parameters (s : ProtocolContractState) :
    option ThresholdParameters :=
  match s with
  | NotInitialized => None
  | Initializing s => Some (kev_parameters (is_generating_key s))
  | Running s => Some (rs_parameters s)
  | Resharing s => Some (rs_parameters (rh_previous_running_state s))
  end.

Definition ProtocolContractState_is_running_or_resharing (s : ProtocolContractState) : bool :=
  match s with Running _ | Resharing _ => true | _ => false end.

Definition ProtocolContractState_authenticate_update_vote (env : Env)
    (s : ProtocolContractState) : result Error unit :=
  match s with
  | Initializing s =>
    _ ← AuthenticatedParticipantId_new env
          (tp_participants (kev_parameters (is_generating_key s))); Ok tt
  | Running s =>
    _ ← AuthenticatedParticipantId_new env (tp_participants (rs_parameters s)); Ok tt
  | Resharing s =>
    _ ← AuthenticatedParticipantId_new env
          (tp_participants (rs_parameters (rh_previous_running_state s))); Ok tt
  | NotInitialized => Err (EInvalidState UnexpectedProtocolState)
  end.

Definition ProtocolContractState_active_participants (s : ProtocolContractState) :
    result Error Participants :=
  match s with
  | Initializing s => Ok (tp_participants (kev_parameters (is_generating_key s)))
  | Running s => Ok (tp_participants (rs_parameters s))
  | Resharing s => Ok (tp_participants (kev_parameters (rh_resharing_key s)))
  | NotInitialized => Panic (PanicStr "Protocol must be Initializing, Running, or Resharing to access active participants")
  end.

Definition ProtocolContractState_is_existing_or_prospective_participant
    (s : ProtocolContractState) (account_id : AccountId) : result Error bool :=
  match s with
  | Initializing s =>
    Ok (InitializingContractState_is_participant_given_account_id s account_id)
  | Running s => Ok (RunningContractState_is_participant_given_account_id s account_id)
  | Resharing s =>
    Ok (ResharingContractState_is_participant_or_prospective_participant s account_id)
  | NotInitialized => Err (EInvalidState UnexpectedProtocolState)
  end.

(** ** Operations

    The new value of [self] and the state the caller has to install, if any. *)

Definition lift_transition {A B} (same : A → ProtocolContractState)
    (next : B → ProtocolContractState) (r : result Error (A * option B)) :
    result Error (ProtocolContractState * option ProtocolContractState) :=
  '(s, o) ← r; Ok (same s, option_map next o).

Definition ProtocolContractState_start_keygen_instance (env : Env) (s : ProtocolContractState)
    (key_event_id : KeyEventId) (key_event_timeout_blocks : Z) :
    result Error ProtocolContractState :=
  match s with
  | Initializing s =>
    Initializing <$> InitializingContractState_start env s key_event_id key_event_timeout_blocks
  | _ => Err (EInvalidState ProtocolStateNotInitializing)
  end.

Definition ProtocolContractState_start_reshare_instance (env : Env) (s : ProtocolContractState)
    (key_event_id : KeyEventId) (key_event_timeout_blocks : Z) :
    result Error ProtocolContractState :=
  match s with
  | Resharing s =>
    Resharing <$> ResharingContractState_start env s key_event_id key_event_timeout_blocks
  | _ => Err (EInvalidState ProtocolStateNotResharing)
  end.

Definition ProtocolContractState_vote_reshared (env : Env) (s : ProtocolContractState)
    (key_event_id : KeyEventId) :
    result Error (ProtocolContractState * option ProtocolContractState) :=
  match s with
  | Resharing s =>
    lift_transition Resharing Running
      (ResharingContractState_vote_reshared env s key_event_id)
  | _ => Err (EInvalidState ProtocolStateNotResharing)
  end.

Definition ProtocolContractState_vote_cancel_resharing (env : Env) (s : ProtocolContractState) :
    result Error (ProtocolContractState * option ProtocolContractState) :=
  match s with
  | Resharing s =>
    lift_transition Resharing Running
      (ResharingContractState_vote_cancel_resharing env s)
  | _ => Err (EInvalidState ProtocolStateNotResharing)
  end.

Definition ProtocolContractState_vote_pk (env : Env) (s : ProtocolContractState)
    (key_event_id : KeyEventId) (public_key : PublicKeyExtended) :
    result Error (ProtocolContractState * option ProtocolContractState) :=
  match s with
  | Initializing s =>
    lift_transition Initializing Running
      (InitializingContractState_vote_pk env s key_event_id public_key)
  | _ => Err (EInvalidState ProtocolStateNotInitializing)
  end.

Definition ProtocolContractState_vote_new_parameters (env : Env) (s : ProtocolContractState)
    (prospective_epoch_id : EpochId) (proposed_parameters : ThresholdParameters) :
    result Error (ProtocolContractState * option ProtocolContractState) :=
  match s with
  | Running s =>
    lift_transition Running Resharing
      (RunningContractState_vote_new_parameters env s prospective_epoch_id proposed_parameters)
  | Resharing s =>
    lift_transition Resharing Resharing
      (ResharingContractState_vote_new_parameters env s prospective_epoch_id proposed_parameters)
  | _ => Err (EInvalidState ProtocolStateNotRunningNorResharing)
  end.

Definition ProtocolContractState_vote_add_domains (env : Env) (s : ProtocolContractState)
    (domains : list DomainConfig) :
    result Error (ProtocolContractState * option ProtocolContractState) :=
  match s with
  | Running s =>
    lift_transition Running Initializing
      (RunningContractState_vote_add_domains env s domains)
  | _ => Err (EInvalidState ProtocolStateNotRunning)
  end.

Definition ProtocolContractState_vote_abort_key_event_instance (env : Env)
    (s : ProtocolContractState) (key_event_id : KeyEventId) :
    result Error ProtocolContractState :=
  match s with
  | Resharing s => Resharing <$> ResharingContractState_vote_abort env s key_event_id
  | Initializing s => Initializing <$> InitializingContractState_vote_abort env s key_event_id
  | _ => Err (EInvalidState ProtocolStateNotRunningNorResharing)
  end.

Definition ProtocolContractState_vote_cancel_keygen (env : Env) (s : ProtocolContractState)
    (next_domain_id : Z) :
    result Error (ProtocolContractState * option ProtocolContractState) :=
  match s with
  | Initializing s =>
    lift_transition Initializing Running
      (InitializingContractState_vote_cancel env s next_domain_id)
  | _ => Err (EInvalidState ProtocolStateNotInitializing)
  end.

(** ** Calls

    The calls that act on the protocol state, each with the environment it is
    made in.  [PTeeResharing] is the part of [verify_tee] that starts a
    resharing and [PUpdateInfo] the part of [conclude_node_migration] that
    edits a participant (both in [lib.rs]); [proposal] and [info] are what
    those methods computed. *)

Inductive ProtocolCall : Type :=
  | PStartKeygen (env : Env) (id : KeyEventId) (timeout_blocks : Z)
  | PStartReshare (env : Env) (id : KeyEventId) (timeout_blocks : Z)
  | PVotePk (env : Env) (id : KeyEventId) (pk : PublicKeyExtended)
  | PVoteReshared (env : Env) (id : KeyEventId)
  | PVoteAbort (env : Env) (id : KeyEventId)
  | PVoteCancelKeygen (env : Env) (next_domain_id : Z)
  | PVoteCancelResharing (env : Env)
  | PVoteNewParameters (env : Env) (epoch : EpochId) (proposal : ThresholdParameters)
  | PVoteAddDomains (env : Env) (ds : list DomainConfig)
  | PTeeResharing (proposal : ThresholdParameters)
  | PUpdateInfo (account : AccountId) (info : ParticipantInfo).

(** [if let Some(new_state) = ... { self.protocol_state = new_state }]. *)
Definition install (r : result Error (ProtocolContractState * option ProtocolContractState)) :
    result Error ProtocolContractState :=
  '(s, o) ← r; Ok (default s o).

Definition tee_resharing (s : RunningContractState) (proposal : ThresholdParameters) :
    result Error ProtocolContractState :=
  _ ← ThresholdParameters_validate_incoming_proposal (rs_parameters s) proposal;
  let '(s, res) := RunningContractState_transition_to_resharing_no_checks s proposal in
  Ok (match res with Some resharing => Resharing resharing | None => Running s end).

Definition update_participant_info (s : RunningContractState) (account : AccountId)
    (info : ParticipantInfo) : result Error RunningContractState :=
  parameters ← ThresholdParameters_update_info (rs_parameters s) account info;
  Ok (mkRunning (rs_domains s) (rs_keyset s) parameters (rs_parameters_votes s)
        (rs_add_domains_votes s) (rs_previously_cancelled_resharing_epoch_id s)).

Definition protocol_call (s : ProtocolContractState) (c : ProtocolCall) :
    result Error ProtocolContractState :=
  match c with
  | PStartKeygen env id t => ProtocolContractState_start_keygen_instance env s id t
  | PStartReshare env id t => ProtocolContractState_start_reshare_instance env s id t
  | PVotePk env id pk => install (ProtocolContractState_vote_pk env s id pk)
  | PVoteReshared env id => install (ProtocolContractState_vote_reshared env s id)
  | PVoteAbort env id => ProtocolContractState_vote_abort_key_event_instance env s id
  | PVoteCancelKeygen env n => install (ProtocolContractState_vote_cancel_keygen env s n)
  | PVoteCancelResharing env => install (ProtocolContractState_vote_cancel_resharing env s)
  | PVoteNewParameters env epoch p =>
    install (ProtocolContractState_vote_new_parameters env s epoch p)
  | PVoteAddDomains env ds => install (ProtocolContractState_vote_add_domains env s ds)
  | PTeeResharing p =>
    match s with
    | Running s => tee_resharing s p
    | _ => Err (EInvalidState ProtocolStateNotRunning)
    end
  | PUpdateInfo a info =>
    match s with
    | Running s => Running <$> update_participant_info s a info
    | _ => Err (EInvalidState ProtocolStateNotRunning)
    end
  end.

Definition registry_of (s : ProtocolContractState) : DomainRegistry :=
  match s with
  | NotInitialized => DomainRegistry_default
  | Initializing s => is_domains s
  | Running s => rs_domains s
  | Resharing s => rs_domains (rh_previous_running_state s)
  end.

(** The epoch of the keys in use, and the greatest epoch the state knows of. *)
Definition epoch_of (s : ProtocolContractState) : EpochId :=
  match s with
  | NotInitialized => 0
  | Initializing s => is_epoch_id s
  | Running s => ks_epoch_id (rs_keyset s)
  | Resharing s => ks_epoch_id (ResharingContractState_previous_keyset s)
  end.
Definition epoch_high (s : ProtocolContractState) : EpochId :=
  match s with
  | Running s =>
    default (ks_epoch_id (rs_keyset s)) (rs_previously_cancelled_resharing_epoch_id s)
  | Resharing s => ResharingContractState_prospective_epoch_id s
  | _ => epoch_of s
  end.

(** The arguments fit their machine types, and fewer than [2^64] domains and
    epochs are ever created. *)
Definition call_fits (s : ProtocolContractState) (c : ProtocolCall) : Prop :=
  match c with
  | PVoteNewParameters _ _ p | PTeeResharing p =>
    Participants_bounded (tp_participants p) ∧ epoch_high s < u64_max
  | PVoteAddDomains _ ds => dr_next_domain_id (registry_of s) + zlen ds ≤ u64_max
  | _ => True
  end.

(** ** The invariant is preserved *)

Lemma lift_transition_Ok {A B} (same : A → ProtocolContractState)
    (next : B → ProtocolContractState) r s :
  install (lift_transition same next r) = Ok s →
  ∃ a o, r = Ok (a, o) ∧ s = match o with Some b => next b | None => same a end.
Proof.
  destruct r as [[a o]| |]; [|done|done]. intros [= <-]. exists a, o. by destruct o.
Qed.

Lemma update_participant_info_ok s a info s' :
  Running_ok s → update_participant_info s a info = Ok s' → Running_ok s'.
Proof.
  intros Hs H. apply bind_Ok in H as (tp & Htp & [= <-]).
  apply bind_Ok in Htp as (ps & Hps & [= <-]).
  pose proof (Participants_update_info_spec _ _ _ _ Hps) as (Ha & Hi & Hn & _).
  assert (Hlen : Participants_len ps = Participants_len (tp_participants (rs_parameters s)))
    by (rewrite !Participants_len_ids; by rewrite Hi).
  destruct Hs as [? ? [[Hpw Hth] [Hb1 Hb2 Hb3]] ? Hdv ?]. split; simpl; try done; [|by rewrite Hi].
  split; [split|split]; simpl; rewrite ?Hlen, ?Hi, ?Hn; try done.
  by eapply Participants_update_info_wf.
Qed.

Lemma tee_resharing_ok s p s' :
  Running_ok s → Participants_bounded (tp_participants p) →
  tee_resharing s p = Ok s' → Protocol_ok s'.
Proof.
  intros Hs Hb H. unfold tee_resharing in H. apply bind_Ok in H as ([] & Hv & H).
  apply validate_incoming_proposal_Ok in Hv; [|apply Hs|apply Hs|done].
  destruct (RunningContractState_transition_to_resharing_no_checks s p) as [s1 o] eqn:E.
  destruct (transition_to_resharing_ok _ _ _ _ Hs Hv Hb E) as [Hs1 Ho].
  injection H as <-. destruct o as [r|]; [by apply Ho|done].
Qed.

Lemma protocol_call_ok s c s' :
  Protocol_ok s → call_fits s c → protocol_call s c = Ok s' → Protocol_ok s'.
Proof.
  intros Hs Hfit H. destruct c; simpl in *; destruct s as [|s|s|s]; try done; simpl in *;
    try (apply lift_transition_Ok in H as (s1 & o & H & ->));
    try (apply fmap_Ok in H as (s1 & H & ->)).
  - by eapply Initializing_start_ok.
  - by eapply Resharing_start_ok.
  - apply Initializing_vote_pk_ok in H; [|done]. by destruct o.
  - apply Resharing_vote_reshared_ok in H; [|done]. by destruct o.
  - by eapply Initializing_vote_abort_ok.
  - by eapply Resharing_vote_abort_ok.
  - apply Initializing_vote_cancel_ok in H; [|done]. by destruct o.
  - apply Resharing_vote_cancel_ok in H; [|done]. by destruct o.
  - apply Running_vote_new_parameters_ok in H as [? Ho]; [|done|apply Hfit].
    destruct o; [by apply Ho|done].
  - apply Resharing_vote_new_parameters_ok in H as [? Ho]; [|done|apply Hfit].
    destruct o; [by apply Ho|done].
  - apply Running_vote_add_domains_ok in H as [? Ho]; [|done|done].
    destruct o; [by apply Ho|done].
  - by eapply tee_resharing_ok; [|apply Hfit|].
  - by eapply update_participant_info_ok.
Qed.

Lemma install_no_panic {A B} (same : A → ProtocolContractState)
    (next : B → ProtocolContractState) r :
  no_panic r → no_panic (install (lift_transition same next r)).
Proof. by destruct r as [[]| |]. Qed.

Lemma Participants_update_info_no_panic ps a info : no_panic (Participants_update_info ps a info).
Proof.
  apply bind_no_panic; [apply ok_or_no_panic|done].
Qed.

Lemma protocol_call_no_panic s c :
  Protocol_ok s → call_fits s c → no_panic (protocol_call s c).
Proof.
  intros Hs Hfit. destruct c; destruct s as [|s|s|s]; simpl in *; try done;
    try apply install_no_panic; try apply fmap_no_panic; auto with mpc.
  - apply Resharing_vote_new_parameters_no_panic; [done|apply Hfit].
  - apply bind_no_panic; [apply validate_incoming_proposal_no_panic|]. intros _ _.
    by destruct (RunningContractState_transition_to_resharing_no_checks _ _) as [? []].
  - apply bind_no_panic; [|done]. apply bind_no_panic; [|done].
    apply Participants_update_info_no_panic.
Qed.

(** ** Runs *)

(** The protocol part of [init] and [init_running] ([lib.rs]). *)
Definition protocol_init (parameters : ThresholdParameters) :
    result Error ProtocolContractState :=
  _ ← ThresholdParameters_validate parameters;
  Ok (Running (RunningContractState_new DomainRegistry_default (mkKeyset 0 []) parameters
                 AddDomainsVotes_default)).

Definition protocol_init_running (domains : list DomainConfig) (next_domain_id : Z)
    (keyset : Keyset) (parameters : ThresholdParameters) :
    result Error ProtocolContractState :=
  _ ← ThresholdParameters_validate parameters;
  registry ← DomainRegistry_from_raw_validated domains next_domain_id;
  if negb (bool_decide (dc_id <$> dr_domains registry = kd_domain_id <$> ks_domains keyset))
  then Err (EDomainError DomainsMismatch)
  else Ok (Running (RunningContractState_new registry keyset parameters AddDomainsVotes_default)).

(** The states a contract can be deployed in. *)
Inductive initial : ProtocolContractState → Prop :=
  | initial_fresh parameters s :
      Participants_bounded (tp_participants parameters) →
      protocol_init parameters = Ok s → initial s
  | initial_running domains next_domain_id keyset parameters s :
      Participants_bounded (tp_participants parameters) → is_u64 (ks_epoch_id keyset) →
      is_u64 next_domain_id →
      protocol_init_running domains next_domain_id keyset parameters = Ok s → initial s.

(** [protocol_run s0 log s]: the accepted calls [log] lead from [s0] to [s].
    A call that fails is reverted by the runtime and leaves no trace. *)
Inductive protocol_run (s0 : ProtocolContractState) :
    list ProtocolCall → ProtocolContractState → Prop :=
  | prun_nil : protocol_run s0 [] s0
  | prun_call log s c s' :
      protocol_run s0 log s → call_fits s c → protocol_call s c = Ok s' →
      protocol_run s0 (log ++ [c]) s'.

Lemma initial_ok s : initial s → Protocol_ok s.
Proof.
  destruct 1 as [p s Hb H|ds n ks p s Hb _ Hn H].
  - apply bind_Ok in H as ([] & Hv & [= <-]).
    apply ThresholdParameters_validate_Ok in Hv; [|apply Hb].
    apply Running_new_ok; [|done|done]. split; [apply DomainRegistry_default_wf|done].
  - apply bind_Ok in H as ([] & Hv & H). apply bind_Ok in H as (r & Hr & H).
    apply ThresholdParameters_validate_Ok in Hv; [|apply Hb].
    apply DomainRegistry_from_raw_validated_wf in Hr as [-> Hr].
    case_bool_decide as Hids; [|done]. injection H as <-.
    apply Running_new_ok; [|done|done]. split; done.
Qed.

Lemma protocol_run_ok s0 log s : Protocol_ok s0 → protocol_run s0 log s → Protocol_ok s.
Proof. intros H0. induction 1; [done|]. by eapply protocol_call_ok. Qed.

(** C6: the machine never panics.  From every state a deployed contract can
    reach, every call either succeeds, in a state that satisfies the invariant
    of its phase, or returns an error: no [unwrap] and no index of the protocol
    state fails. *)
Theorem protocol_safe s0 log s c :
  initial s0 → protocol_run s0 log s → call_fits s c →
  Protocol_ok s ∧
  ((∃ s', protocol_call s c = Ok s' ∧ Protocol_ok s') ∨ ∃ e, protocol_call s c = Err e).
Proof.
  intros H0%initial_ok Hrun Hfit. pose proof (protocol_run_ok _ _ _ H0 Hrun) as Hs.
  split; [done|]. pose proof (protocol_call_no_panic _ _ Hs Hfit) as Hnp.
  destruct (protocol_call s c) as [s'|e|] eqn:E; [|by eauto|done].
  left. exists s'. split; [done|]. by eapply protocol_call_ok.
Qed.

(** ** What is permanent

    Views of a state that do not depend on its phase. *)

Definition key_pair (k : KeyForDomain) : DomainId * PublicKeyExtended :=
  (kd_domain_id k, kd_key k).

Definition keys_of (s : ProtocolContractState) : list (DomainId * PublicKeyExtended) :=
  match s with
  | NotInitialized => []
  | Initializing s => key_pair <$> is_generated_keys s
  | Running s => key_pair <$> ks_domains (rs_keyset s)
  | Resharing s => key_pair <$> ks_domains (ResharingContractState_previous_keyset s)
  end.

(** Who holds the key shares: accounts, their ids and the threshold. *)
Definition committee_of (tp : ThresholdParameters) : list AccountId * list ParticipantId * Threshold :=
  (accounts_of (tp_participants tp), ids_of (tp_participants tp), tp_threshold tp).

Record evolves (s s' : ProtocolContractState) : Prop := {
  ev_keys : keys_of s `prefix_of` keys_of s';
  ev_next : dr_next_domain_id (registry_of s) ≤ dr_next_domain_id (registry_of s');
  ev_fresh : ∀ id, id < dr_next_domain_id (registry_of s) →
    id ∉ domain_ids (registry_of s) → id ∉ domain_ids (registry_of s');
  ev_epoch : epoch_of s ≤ epoch_of s';
  ev_committee : epoch_of s = epoch_of s' →
    committee_of <$> ProtocolContractState_threshold_parameters s =
    committee_of <$> ProtocolContractState_threshold_parameters s';
}.

#[global] Instance evolves_preorder : PreOrder evolves.
Proof.
  split; [by split|]. intros s1 s2 s3 [K1 N1 F1 E1 C1] [K2 N2 F2 E2 C2].
  split; [by etrans|lia| |lia|].
  - intros id Hid Hni. apply F2; [lia|auto].
  - intros Heq. rewrite C1, C2 by lia. done.
Qed.

(** The epochs a state knows of are above that of its keys. *)
Definition epochs_ok (s : ProtocolContractState) : Prop :=
  0 ≤ epoch_of s ∧ epoch_of s ≤ epoch_high s ∧
  match s with Resharing _ => epoch_of s < epoch_high s | _ => True end.

Ltac epoch_lia :=
  unfold epochs_ok, epoch_high, epoch_of, ResharingContractState_prospective_epoch_id,
    ResharingContractState_previous_keyset in *; simpl in *; lia.

Lemma evolves_core s s' :
  keys_of s = keys_of s' → registry_of s = registry_of s' → epoch_of s = epoch_of s' →
  committee_of <$> ProtocolContractState_threshold_parameters s =
    committee_of <$> ProtocolContractState_threshold_parameters s' →
  evolves s s'.
Proof. intros Hk Hr He Hc. split; rewrite <- ?Hk, <- ?Hr, <- ?He; done. Qed.

Lemma key_pair_ext (l l' : list KeyForDomain) :
  kd_domain_id <$> l = kd_domain_id <$> l' → kd_key <$> l = kd_key <$> l' →
  key_pair <$> l = key_pair <$> l'.
Proof.
  revert l'. induction l as [|k l IH]; intros [|k' l'] Hi Hk; try done.
  rewrite !fmap_cons in *. injection Hi as Hi1 Hi2. injection Hk as Hk1 Hk2.
  f_equal; [|by apply IH]. unfold key_pair. congruence.
Qed.

Lemma vote_pk_evolves env s id pk s1 o :
  Initializing_ok s → InitializingContractState_vote_pk env s id pk = Ok (s1, o) →
  let s' := match o with Some r => Running r | None => Initializing s1 end in
  evolves (Initializing s) s' ∧ epoch_of s' = is_epoch_id s ∧ epoch_high s' = is_epoch_id s.
Proof.
  intros Hs H. unfold InitializingContractState_vote_pk in H.
  apply bind_Ok in H as ([ke b] & Hv & H).
  destruct (generated_snoc _ _ _ _ _ _ Hs Hv) as [[He Hd Hp] _].
  destruct b; [destruct (DomainRegistry_get_domain_by_index _ _)|];
    injection H as <- <-; (split; [|done]); (split; simpl; try done);
    rewrite ?fmap_app, ?Hp; by try apply prefix_app_r.
Qed.

Lemma vote_cancel_keygen_evolves env s n s1 o :
  Initializing_ok s → InitializingContractState_vote_cancel env s n = Ok (s1, o) →
  let s' := match o with Some r => Running r | None => Initializing s1 end in
  evolves (Initializing s) s' ∧ epoch_of s' = is_epoch_id s ∧ epoch_high s' = is_epoch_id s.
Proof.
  intros Hs (_ & c & _ & -> & _ & Hr)%Initializing_vote_cancel_cases; [|done].
  destruct o as [r|]; [rewrite (Hr r eq_refl)|by split].
  split; [|done]. split; try done. simpl. intros i _ Hni Hi. apply Hni.
  unfold domain_ids in *. simpl in Hi. rewrite fmap_take in Hi.
  apply elem_of_take in Hi as (k & Hk & _). by eapply list_elem_of_lookup_2.
Qed.

Lemma vote_reshared_evolves env s id s1 o :
  Resharing_ok s → epochs_ok (Resharing s) →
  ResharingContractState_vote_reshared env s id = Ok (s1, o) →
  let s' := match o with Some r => Running r | None => Resharing s1 end in
  evolves (Resharing s) s' ∧ epochs_ok s' ∧
  (is_Some o → epoch_of (Resharing s) < epoch_of s').
Proof.
  intros Hs (H0 & _ & Hlt)
    (k & ke & b & Hk & Hv & [He Hd Hp] & Hkeys & Hpks & H)%vote_reshared_cases; [|done].
  destruct b.
  - destruct (dr_domains _ !! length (rh_reshared_keys s ++ _)) as [d|] eqn:Hnd.
    + destruct H as [-> ->]. split; [by split|]. split; [|by intros [? ?]].
      epoch_lia.
    + subst o. split; [|split; [epoch_lia|intros _; epoch_lia]].
      pose proof (run_keys _ (resh_previous _ Hs)) as Hprev.
      pose proof (keys_for_full _ _ Hkeys Hnd) as Hfull.
      rewrite take_ge in Hpks
        by (apply lookup_ge_None in Hnd; by rewrite (keys_for_length _ _ Hprev)).
      split; try done; try epoch_lia. simpl.
      unfold ResharingContractState_previous_keyset.
      erewrite key_pair_ext; [done| |by symmetry]. unfold keys_for in *. congruence.
  - destruct H as [-> ->]. split; [by split|]. split; [|by intros [? ?]].
    epoch_lia.
Qed.

Lemma vote_cancel_resharing_evolves env s s1 o :
  Resharing_ok s → epochs_ok (Resharing s) →
  ResharingContractState_vote_cancel_resharing env s = Ok (s1, o) →
  let s' := match o with Some r => Running r | None => Resharing s1 end in
  evolves (Resharing s) s' ∧ epochs_ok s'.
Proof.
  intros Hs Hep (_ & -> & _ & Hr)%vote_cancel_resharing_cases; [|done].
  destruct o as [r|]; [rewrite (Hr r eq_refl)|]; (split; [by split|epoch_lia]).
Qed.

Lemma transition_evolves s p s1 o :
  Running_ok s → epochs_ok (Running s) → epoch_high (Running s) < u64_max →
  RunningContractState_transition_to_resharing_no_checks s p = (s1, o) →
  let s' := match o with Some r => Resharing r | None => Running s1 end in
  evolves (Running s) s' ∧ epochs_ok s'.
Proof.
  intros Hs Hep Hmax. unfold RunningContractState_transition_to_resharing_no_checks,
    DomainRegistry_get_domain_by_index.
  destruct (dr_domains (rs_domains s) !! 0%nat) as [d|] eqn:Hd; intros [= <- <-].
  - split; [by split|]. unfold epochs_ok in *. simpl in *.
    unfold ResharingContractState_prospective_epoch_id, RunningContractState_prospective_epoch_id.
    simpl. destruct (rs_previously_cancelled_resharing_epoch_id s); simpl in *;
      rewrite EpochId_next_small; epoch_lia.
  - assert (dr_domains (rs_domains s) = []) as Hnil.
    { apply lookup_ge_None in Hd. destruct (dr_domains (rs_domains s)); [done|simpl in Hd; lia]. }
    assert (rs_previously_cancelled_resharing_epoch_id s = None) as Hc.
    { apply eq_None_not_Some. intros Hc. by apply (run_cancelled _ Hs). }
    assert (ks_domains (rs_keyset s) = []) as Hk.
    { apply nil_length_inv. rewrite (keys_for_length _ _ (run_keys _ Hs)). by rewrite Hnil. }
    unfold epochs_ok in *. simpl in *. rewrite Hc in *. simpl in *.
    split; [|rewrite EpochId_next_small; lia].
    split; simpl; rewrite ?Hk, ?EpochId_next_small by lia; try done; lia.
Qed.

Lemma vote_new_parameters_evolves env s epoch p s1 o :
  Running_ok s → epochs_ok (Running s) → epoch_high (Running s) < u64_max →
  Participants_bounded (tp_participants p) →
  RunningContractState_vote_new_parameters env s epoch p = Ok (s1, o) →
  let s' := match o with Some r => Resharing r | None => Running s1 end in
  evolves (Running s) s' ∧ epochs_ok s'.
Proof.
  intros Hs Hep Hmax Hb (_ & s2 & b & Hp & H)%vote_new_parameters_cases; [|done|done].
  assert (evolves (Running s) (Running s2)) as Hev
    by (rewrite (pv_state _ _ _ _ _ Hp); by apply evolves_core).
  assert (epochs_ok (Running s2) ∧ epoch_high (Running s2) < u64_max) as [Hep2 Hmax2]
    by (rewrite (pv_state _ _ _ _ _ Hp); done).
  destruct b.
  - destruct (transition_evolves s2 p s1 o) as [Hev2 ?];
      [by eapply proposal_vote_ok|done|done|done|]. split; [by etrans|done].
  - by injection H as -> ->.
Qed.

Lemma resharing_vote_new_parameters_evolves env s epoch p s1 o :
  Resharing_ok s → epochs_ok (Resharing s) → epoch_high (Resharing s) < u64_max →
  Participants_bounded (tp_participants p) →
  ResharingContractState_vote_new_parameters env s epoch p = Ok (s1, o) →
  let s' := match o with Some r => Resharing r | None => Resharing s1 end in
  evolves (Resharing s) s' ∧ epochs_ok s'.
Proof.
  intros Hs Hep Hmax Hb (-> & prev & b & Hp & -> & H)%resharing_vote_new_parameters_cases;
    [|done|done].
  rewrite (pv_state _ _ _ _ _ Hp) in *. destruct b.
  - destruct H as (d & _ & ->). split; [by apply evolves_core|].
    assert (EpochId_next (kev_epoch_id (rh_resharing_key s)) =
      kev_epoch_id (rh_resharing_key s) + 1) by (apply EpochId_next_small; epoch_lia).
    epoch_lia.
  - subst o. split; [by apply evolves_core|done].
Qed.

Lemma vote_add_domains_evolves env s ds s1 o :
  Running_ok s → epochs_ok (Running s) →
  dr_next_domain_id (rs_domains s) + zlen ds ≤ u64_max →
  RunningContractState_vote_add_domains env s ds = Ok (s1, o) →
  let s' := match o with Some r => Initializing r | None => Running s1 end in
  evolves (Running s) s' ∧ epochs_ok s'.
Proof.
  intros Hs Hep Hb H%vote_add_domains_Ok; [|done].
  destruct (dv_voter _ _ _ _ _ H) as (c & _ & ->). destruct o as [i|].
  - destruct (dv_next _ _ _ _ _ H i eq_refl) as (first & r & _ & Hadd & ->).
    apply DomainRegistry_add_domains_spec in Hadd as [-> Hids];
      [|apply (registry_next _ (run_registry _ Hs))|done].
    pose proof (zlen_nonneg ds). split; [|epoch_lia].
    split; simpl; try done; [lia|]. intros id Hlt Hni.
    unfold domain_ids in *. simpl. rewrite fmap_app, Hids, not_elem_of_app.
    split; [done|]. rewrite elem_of_seqZ. lia.
  - split; [by apply evolves_core|done].
Qed.

Lemma update_participant_info_evolves s a info s1 :
  epochs_ok (Running s) → update_participant_info s a info = Ok s1 →
  evolves (Running s) (Running s1) ∧ epochs_ok (Running s1).
Proof.
  intros Hep H. apply bind_Ok in H as (tp & Htp & [= <-]).
  apply bind_Ok in Htp as (ps & Hps & [= <-]).
  pose proof (Participants_update_info_spec _ _ _ _ Hps) as (Ha & Hi & _).
  split; [|done]. apply evolves_core; try done. simpl. unfold committee_of. simpl.
  by rewrite Ha, Hi.
Qed.

Lemma protocol_call_evolves s c s' :
  Protocol_ok s → epochs_ok s → call_fits s c → protocol_call s c = Ok s' →
  evolves s s' ∧ epochs_ok s'.
Proof.
  intros Hs Hep Hfit H. destruct c; simpl in *; destruct s as [|s|s|s]; try done;
    cbn [Protocol_ok] in Hs; cbn [protocol_call] in H;
    try (apply lift_transition_Ok in H as (s1 & o & H & ->));
    try (apply fmap_Ok in H as (s1 & H & ->)).
  - apply bind_Ok in H as (ke & Hke & [= <-]).
    destruct (KeyEvent_start_wf _ _ _ _ _ (init_event _ Hs) Hke) as [_ [_ _ Hp]].
    split; [|done]. apply evolves_core; try done. simpl. by rewrite Hp.
  - apply bind_Ok in H as (ke & Hke & [= <-]).
    destruct (KeyEvent_start_wf _ _ _ _ _ (resh_event _ Hs) Hke) as [_ [He _ _]].
    split; [by apply evolves_core|]. epoch_lia.
  - destruct (vote_pk_evolves _ _ _ _ _ _ Hs H) as (? & E1 & E2). split; [done|].
    unfold epochs_ok in *. rewrite E1, E2. simpl in *. destruct o; lia.
  - by destruct (vote_reshared_evolves _ _ _ _ _ Hs Hep H) as (? & ? & _).
  - apply bind_Ok in H as (ke & Hke & [= <-]).
    destruct (KeyEvent_vote_abort_wf _ _ _ _ (init_event _ Hs) Hke) as [_ [_ _ Hp]].
    split; [|done]. apply evolves_core; try done. simpl. by rewrite Hp.
  - apply bind_Ok in H as (ke & Hke & [= <-]).
    destruct (KeyEvent_vote_abort_wf _ _ _ _ (resh_event _ Hs) Hke) as [_ [He _ _]].
    split; [by apply evolves_core|]. epoch_lia.
  - destruct (vote_cancel_keygen_evolves _ _ _ _ _ Hs H) as (? & E1 & E2). split; [done|].
    unfold epochs_ok in *. rewrite E1, E2. simpl in *. destruct o; lia.
  - by eapply vote_cancel_resharing_evolves.
  - destruct Hfit. by eapply vote_new_parameters_evolves.
  - destruct Hfit. by eapply resharing_vote_new_parameters_evolves.
  - by eapply vote_add_domains_evolves.
  - destruct Hfit. apply bind_Ok in H as ([] & _ & H).
    destruct (RunningContractState_transition_to_resharing_no_checks s proposal) as [s1 o] eqn:E.
    pose proof (transition_evolves _ _ _ _ Hs Hep ltac:(done) E). injection H as <-. by destruct o.
  - by eapply update_participant_info_evolves.
Qed.
