(* ===== verification/ProtocolTrace.v ===== *)
(** * Who decided what: the protocol state machine over whole histories

    Every change the state machine makes is traced back to the calls of the
    accounts that had to agree to it: the committee to each key it holds, the
    proposed participants to a resharing, the participants to new domains.
    The theorems are about arbitrary histories of a deployed contract. *)

From S2P Require Import Prelude Types CryptoTypes Participants Thresholds Domain Samples.
From S2P Require Import KeyState KeyEvent ContractState Running Initializing Resharing.
From S2P Require Import ProtocolState.

(** ** Votes as calls of a history *)

(** The account [a] voted for the parameters [p]. *)
Definition cast_parameters (log : list ProtocolCall) (a : AccountId)
    (p : ThresholdParameters) : Prop :=
  ∃ env epoch, PVoteNewParameters env epoch p ∈ log ∧ signer_account_id env = a.

(** The participant [i] of [ps] voted to add the domains [ds]. *)
Definition cast_domains (log : list ProtocolCall) (ps : Participants) (i : ParticipantId)
    (ds : list DomainConfig) : Prop :=
  ∃ env, PVoteAddDomains env ds ∈ log ∧ AuthenticatedParticipantId_new env ps = Ok i.

(** The participant [c] of [ps] reported that it holds a share of the key [pk]
    from the attempt [id], generated or reshared. *)
Definition confirmed (log : list ProtocolCall) (ps : Participants) (c : ParticipantId)
    (id : KeyEventId) (pk : PublicKeyExtended) : Prop :=
  ∃ env, (PVotePk env id pk ∈ log ∨ PVoteReshared env id ∈ log) ∧
    AuthenticatedParticipantId_new env ps = Ok c.

(** All of [ps] confirmed the key [k] in the epoch [epoch]. *)
Definition all_confirmed (log : list ProtocolCall) (ps : Participants) (epoch : EpochId)
    (k : KeyForDomain) : Prop :=
  ∀ c, c ∈ ids_of ps →
    confirmed log ps c (mkKeyEventId epoch (kd_domain_id k) (kd_attempt k)) (kd_key k).

Definition keyset_of (s : ProtocolContractState) : list KeyForDomain :=
  match s with
  | NotInitialized => []
  | Initializing s => is_generated_keys s
  | Running s => ks_domains (rs_keyset s)
  | Resharing s => ks_domains (ResharingContractState_previous_keyset s)
  end.

(** ** Authentication depends on accounts and ids only *)

Lemma auth_intro env ps i info :
  Participants_wf ps → (signer_account_id env, i, info) ∈ participants ps →
  AuthenticatedParticipantId_new env ps = Ok i.
Proof.
  intros Hwf Hin. destruct (AuthenticatedParticipantId_new_member env ps) as [j Hj].
  { unfold accounts_of. apply list_elem_of_fmap. by eexists (_, _, _). }
  pose proof (AuthenticatedParticipantId_new_Ok _ _ _ Hj) as (_ & _ & info' & Hin').
  rewrite Hj. f_equal. apply list_elem_of_lookup in Hin as [x Hx], Hin' as [y Hy].
  assert (x = y) as ->; [|congruence].
  eapply NoDup_lookup; [apply (wf_accounts _ Hwf)|..]; unfold accounts_of;
    rewrite list_lookup_fmap; [by rewrite Hx|by rewrite Hy].
Qed.

Lemma auth_ext env ps ps' :
  accounts_of ps = accounts_of ps' → ids_of ps = ids_of ps' →
  AuthenticatedParticipantId_new env ps = AuthenticatedParticipantId_new env ps'.
Proof.
  unfold AuthenticatedParticipantId_new, accounts_of, ids_of.
  generalize (participants ps) as l, (participants ps') as l'.
  induction l as [|e l IH]; intros [|e' l'] Ha Hi; try done.
  rewrite !fmap_cons in *. injection Ha as Ha1 Ha2. injection Hi as Hi1 Hi2.
  simpl. rewrite Ha1. case_bool_decide; simpl; [by rewrite Hi1|by apply IH].
Qed.

(** A participant kept by an accepted proposal keeps its id, and a new one
    never takes the id of a current one. *)
Lemma auth_incoming env old new i :
  incoming_ok old new → Participants_wf (tp_participants old) →
  AuthenticatedParticipantId_new env (tp_participants old) = Ok i →
  i ∈ ids_of (tp_participants new) →
  AuthenticatedParticipantId_new env (tp_participants new) = Ok i.
Proof.
  intros Hinc Hold (Hi & _ & info & Hin)%AuthenticatedParticipantId_new_Ok Hnew.
  unfold ids_of in Hnew. apply list_elem_of_fmap in Hnew as (e & He & Hein).
  destruct (decide (is_old (tp_participants old) e)) as [Ho|Ho].
  - assert (e ∈ participants (tp_participants old)) as Heo.
    { apply (inc_old_same _ _ Hinc). by apply list_elem_of_filter. }
    assert (e = (signer_account_id env, i, info)) as ->.
    { apply list_elem_of_lookup in Hin as [x Hx], Heo as [y Hy].
      assert (x = y) as ->; [|congruence].
      eapply NoDup_lookup; [apply (wf_ids _ Hold)|..]; unfold ids_of;
        rewrite list_lookup_fmap; [by rewrite Hx|by rewrite Hy, He]. }
    eapply auth_intro; [apply (inc_wf _ _ Hinc)|done].
  - exfalso. apply (inc_new_fresh _ _ Hinc e); [by apply list_elem_of_filter|]. by rewrite <- He.
Qed.

(** ** The justification invariant *)

Create HintDb mono.

Section history.
Variable s0 : ProtocolContractState.

(** A key is one the contract was deployed with, unchanged since, or one the
    whole committee confirmed in the current epoch. *)
Definition key_justified (log : list ProtocolCall) (ps : Participants) (epoch : EpochId)
    (k : KeyForDomain) : Prop :=
  (epoch = epoch_of s0 ∧ k ∈ keyset_of s0) ∨ all_confirmed log ps epoch k.

Record running_justified (log : list ProtocolCall) (s : RunningContractState) : Prop := {
  rj_parameters : ∀ a p, proposal_by_account (rs_parameters_votes s) !! a = Some p →
    cast_parameters log a p;
  rj_domains : ∀ i ds, add_domains_proposals (rs_add_domains_votes s) !! i = Some ds →
    cast_domains log (tp_participants (rs_parameters s)) i ds;
  rj_keys : ∀ k, k ∈ ks_domains (rs_keyset s) →
    key_justified log (tp_participants (rs_parameters s)) (ks_epoch_id (rs_keyset s)) k;
}.

(** The votes of a key event are calls of the history. *)
Definition event_justified (log : list ProtocolCall) (ke : KeyEvent) : Prop :=
  votes_justified (confirmed log (tp_participants (kev_parameters ke))) ke.

(** The new domains were voted by every participant. *)
Definition domains_voted (log : list ProtocolCall) (s : InitializingContractState) : Prop :=
  ∃ ds, ds ≠ [] ∧ ds `suffix_of` dr_domains (is_domains s) ∧
    ∀ i, i ∈ ids_of (tp_participants (kev_parameters (is_generating_key s))) →
      cast_domains log (tp_participants (kev_parameters (is_generating_key s))) i ds.

Record initializing_justified (log : list ProtocolCall) (s : InitializingContractState) : Prop := {
  ij_domains : domains_voted log s;
  ij_event : event_justified log (is_generating_key s);
  ij_keys : ∀ k, k ∈ is_generated_keys s →
    key_justified log (tp_participants (kev_parameters (is_generating_key s))) (is_epoch_id s) k;
}.

(** The proposed parameters came from [verify_tee] or were voted by every
    proposed participant. *)
Definition resharing_voted (log : list ProtocolCall) (p : ThresholdParameters) : Prop :=
  PTeeResharing p ∈ log ∨ ∀ a, a ∈ accounts_of (tp_participants p) → cast_parameters log a p.

Record resharing_justified (log : list ProtocolCall) (s : ResharingContractState) : Prop := {
  hj_previous : running_justified log (rh_previous_running_state s);
  hj_voted : resharing_voted log (kev_parameters (rh_resharing_key s));
  hj_event : event_justified log (rh_resharing_key s);
  hj_keys : ∀ k, k ∈ rh_reshared_keys s →
    all_confirmed log (tp_participants (kev_parameters (rh_resharing_key s)))
      (ResharingContractState_prospective_epoch_id s) k;
}.

Definition justified (log : list ProtocolCall) (s : ProtocolContractState) : Prop :=
  match s with
  | NotInitialized => True
  | Initializing s => initializing_justified log s
  | Running s => running_justified log s
  | Resharing s => resharing_justified log s
  end.

(** ** More history only helps *)

Lemma cast_parameters_mono log log' a p :
  log ⊆ log' → cast_parameters log a p → cast_parameters log' a p.
Proof. intros Hs (env & e & ? & ?). exists env, e. auto. Qed.

Lemma cast_domains_mono log log' ps i ds :
  log ⊆ log' → cast_domains log ps i ds → cast_domains log' ps i ds.
Proof. intros Hs (env & ? & ?). exists env. auto. Qed.

Lemma confirmed_mono log log' ps c id pk :
  log ⊆ log' → confirmed log ps c id pk → confirmed log' ps c id pk.
Proof. intros Hs (env & Hin & ?). exists env. split; [|done]. destruct Hin; auto. Qed.

Lemma key_justified_mono log log' ps e k :
  log ⊆ log' → key_justified log ps e k → key_justified log' ps e k.
Proof.
  intros Hs [?|H]; [by left|]. right. intros c Hc. eapply confirmed_mono; [done|by apply H].
Qed.

#[local] Hint Resolve cast_parameters_mono cast_domains_mono confirmed_mono key_justified_mono
  : mono.

Lemma running_justified_mono log log' s :
  log ⊆ log' → running_justified log s → running_justified log' s.
Proof. intros Hs []. split; eauto with mono. Qed.

Lemma event_justified_mono log log' ke :
  log ⊆ log' → event_justified log ke → event_justified log' ke.
Proof. intros Hs H i pk c ???. eapply confirmed_mono; [done|by eapply H]. Qed.

Lemma justified_mono log log' s : log ⊆ log' → justified log s → justified log' s.
Proof.
  intros Hs. destruct s as [|s|s|s]; simpl; [done| |by apply running_justified_mono|].
  - intros [(ds & ? & ? & ?) ? ?]. split; [|by eapply event_justified_mono|by eauto with mono].
    exists ds. eauto with mono.
  - intros [? Hv ? Hk]. split; [by eapply running_justified_mono| |by eapply event_justified_mono|].
    + destruct Hv as [?|?]; [left; auto|right; eauto with mono].
    + intros k Hin c Hc. eapply confirmed_mono; [done|by apply Hk].
Qed.

(** ** Every call keeps the state justified *)

Lemma Running_new_justified log domains keyset params votes :
  (∀ i ds, add_domains_proposals votes !! i = Some ds → i ∈ ids_of (tp_participants params) →
    cast_domains log (tp_participants params) i ds) →
  (∀ k, k ∈ ks_domains keyset →
    key_justified log (tp_participants params) (ks_epoch_id keyset) k) →
  running_justified log (RunningContractState_new domains keyset params votes).
Proof.
  intros Hd Hk. split; [done| |done]. intros i ds.
  cbn [RunningContractState_new rs_add_domains_votes AddDomainsVotes_get_remaining_votes
    add_domains_proposals].
  intros [Hi Hp]%map_lookup_filter_Some. apply Hd; [done|]. by apply is_participant_id_spec.
Qed.

(** The running state kept inside a resharing state. *)
Lemma Running_renew_justified log s :
  running_justified log s →
  running_justified log (RunningContractState_new (rs_domains s) (rs_keyset s)
    (rs_parameters s) (rs_add_domains_votes s)).
Proof. intros []. apply Running_new_justified; auto. Qed.

Lemma proposal_vote_justified log env epoch s p s' b :
  PVoteNewParameters env epoch p ∈ log → running_justified log s →
  proposal_vote env s p s' b →
  running_justified log s' ∧ (b = true → resharing_voted log p).
Proof.
  intros Hin [Hp Hd Hk] Hv.
  assert (Hall : ∀ a, proposal_by_account (rs_parameters_votes s') !! a = Some p →
    cast_parameters log a p).
  { intros a. rewrite (pv_state _ _ _ _ _ Hv). simpl. rewrite lookup_insert_Some.
    intros [[<- _]|[_ ?]]; [by exists env, epoch|auto]. }
  split.
  - rewrite (pv_state _ _ _ _ _ Hv). split; [|done|done]. intros a q. simpl.
    rewrite lookup_insert_Some. intros [[<- <-]|[_ ?]]; [by exists env, epoch|auto].
  - intros Hb. right. intros a Ha. apply Hall, elem_of_voters_for.
    rewrite (proj1 (pv_accepted _ _ _ _ _ Hv) Hb). by apply elem_of_list_to_set.
Qed.

Lemma fresh_resharing_justified log s epoch first p :
  running_justified log s → resharing_voted log p →
  resharing_justified log (mkResharing
    (RunningContractState_new (rs_domains s) (rs_keyset s) (rs_parameters s)
       (rs_add_domains_votes s)) [] (KeyEvent_new epoch first p) ∅).
Proof.
  intros Hs Hv. split; simpl; [by apply Running_renew_justified|done|done|].
  intros k Hk. by apply elem_of_nil in Hk.
Qed.

Lemma transition_justified log s p s1 o :
  Running_ok s → incoming_ok (rs_parameters s) p → running_justified log s →
  resharing_voted log p →
  RunningContractState_transition_to_resharing_no_checks s p = (s1, o) →
  justified log (match o with Some r => Resharing r | None => Running s1 end).
Proof.
  intros Hs Hinc Hj Hv. unfold RunningContractState_transition_to_resharing_no_checks.
  destruct (DomainRegistry_get_domain_by_index _ _); intros [= <- <-].
  - by apply fresh_resharing_justified.
  - apply Running_new_justified; [|intros k Hk; by apply elem_of_nil in Hk].
    intros i ds (env & ? & ?)%(rj_domains _ _ Hj) Hi. exists env. split; [done|].
    eapply auth_incoming; [done| |done|done]. apply (wf_participants _ (params_wf _ (run_params _ Hs))).
Qed.

(** A vote in a key event, whose call is in the history. *)
Lemma event_vote_justified log env ke id pk ke' b :
  KeyEvent_wf ke → event_justified log ke →
  KeyEvent_vote_success env ke id pk = Ok (ke', b) →
  PVotePk env id pk ∈ log ∨ PVoteReshared env id ∈ log →
  same_event ke ke' ∧ event_justified log ke' ∧
  (b = true → all_confirmed log (tp_participants (kev_parameters ke)) (kev_epoch_id ke)
    (mkKeyForDomain (ke_domain_id id) pk (ke_attempt_id id))).
Proof.
  intros Hwf Hj Hv Hin.
  destruct (success_votes_justified _ _ _ _ _ _ _ Hwf Hj Hv) as [Hj' Hall];
    [intros c Hc; by exists env|].
  destruct (KeyEvent_vote_success_cases _ _ _ _ _ _ Hwf Hv)
    as (i & c & _ & _ & Hid & _ & Hsame & _).
  split; [done|]. split; [unfold event_justified; by rewrite (same_params _ _ Hsame)|].
  intros Hb d Hd. subst id. by apply Hall.
Qed.

Lemma vote_pk_justified log env s id pk s1 o :
  Initializing_ok s → initializing_justified log s → PVotePk env id pk ∈ log →
  InitializingContractState_vote_pk env s id pk = Ok (s1, o) →
  justified log (match o with Some r => Running r | None => Initializing s1 end).
Proof.
  intros Hs [Hd He Hk] Hin H. unfold InitializingContractState_vote_pk in H.
  apply bind_Ok in H as ([ke b] & Hv & H).
  destruct (event_vote_justified _ _ _ _ _ _ _ (init_event _ Hs) He Hv)
    as ([Hep Hdo Hp] & Hj & Hall); [by left|].
  assert (Hkeys : b = true → ∀ k, k ∈ is_generated_keys s ++
    [mkKeyForDomain (ke_domain_id id) pk (ke_attempt_id id)] →
    key_justified log (tp_participants (kev_parameters (is_generating_key s))) (is_epoch_id s) k).
  { intros Hb k [?| ->%list_elem_of_singleton]%elem_of_app; [by apply Hk|].
    right. rewrite <- (init_epoch _ Hs). by apply Hall. }
  unfold domains_voted in Hd. rewrite <- Hp in Hd, Hkeys, Hk.
  destruct b; [destruct (DomainRegistry_get_domain_by_index _ _)|]; injection H as <- <-.
  - split; simpl; [done|done|]. by apply Hkeys.
  - apply Running_new_justified; [done|by apply Hkeys].
  - split; simpl; done.
Qed.

Lemma vote_reshared_justified log env s id s1 o :
  Resharing_ok s → resharing_justified log s → PVoteReshared env id ∈ log →
  ResharingContractState_vote_reshared env s id = Ok (s1, o) →
  justified log (match o with Some r => Running r | None => Resharing s1 end).
Proof.
  intros Hs [Hprev Hvot He Hk] Hin
    (k & ke & b & _ & Hv & _ & _ & _ & H)%vote_reshared_cases; [|done].
  destruct (event_vote_justified _ _ _ _ _ _ _ (resh_event _ Hs) He Hv)
    as ([Hep Hdo Hp] & Hj & Hall); [by right|].
  assert (Hkeys : b = true → ∀ k', k' ∈ rh_reshared_keys s ++
    [mkKeyForDomain (ke_domain_id id) (kd_key k) (ke_attempt_id id)] →
    all_confirmed log (tp_participants (kev_parameters (rh_resharing_key s)))
      (kev_epoch_id (rh_resharing_key s)) k').
  { intros Hb k' [?| ->%list_elem_of_singleton]%elem_of_app; [by apply Hk|]. by apply Hall. }
  destruct b; [destruct (dr_domains _ !! _) as [d|]|].
  - destruct H as [-> ->]. split; simpl; [done|done|done|by apply Hkeys].
  - subst o. apply Running_new_justified; [|intros k' Hk'; right; by apply Hkeys].
    intros i ds (env' & ? & ?)%(rj_domains _ _ Hprev) Hi. exists env'. split; [done|].
    eapply auth_incoming; [apply Hs| |done|done].
    apply (wf_participants _ (params_wf _ (run_params _ (resh_previous _ Hs)))).
  - destruct H as [-> ->]. split; simpl; rewrite ?Hp; [done|done|done|].
    unfold ResharingContractState_prospective_epoch_id in *. simpl. by rewrite Hep.
Qed.

Lemma vote_new_parameters_justified log env s epoch p s1 o :
  Running_ok s → Participants_bounded (tp_participants p) → running_justified log s →
  PVoteNewParameters env epoch p ∈ log →
  RunningContractState_vote_new_parameters env s epoch p = Ok (s1, o) →
  justified log (match o with Some r => Resharing r | None => Running s1 end).
Proof.
  intros Hs Hb Hj Hin (_ & s2 & b & Hp & H)%vote_new_parameters_cases; [|done|done].
  destruct (proposal_vote_justified _ _ _ _ _ _ _ Hin Hj Hp) as [Hj2 Hv]. destruct b.
  - eapply transition_justified; [by eapply proposal_vote_ok| |done|by apply Hv|done].
    rewrite (pv_state _ _ _ _ _ Hp). apply Hp.
  - by injection H as -> ->.
Qed.

Lemma resharing_vote_new_parameters_justified log env s epoch p s1 o :
  Resharing_ok s → Participants_bounded (tp_participants p) → resharing_justified log s →
  PVoteNewParameters env epoch p ∈ log →
  ResharingContractState_vote_new_parameters env s epoch p = Ok (s1, o) →
  justified log (match o with Some r => Resharing r | None => Resharing s1 end).
Proof.
  intros Hs Hb [Hprev Hv He Hk] Hin
    (_ & prev & b & Hp & -> & H)%resharing_vote_new_parameters_cases; [|done|done].
  destruct (proposal_vote_justified _ _ _ _ _ _ _ Hin Hprev Hp) as [Hj2 Hv2]. destruct b.
  - destruct H as (d & _ & ->). by apply fresh_resharing_justified; [|apply Hv2].
  - subst o. by split.
Qed.

Lemma vote_add_domains_justified log env s ds s1 o :
  Running_ok s → dr_next_domain_id (rs_domains s) + zlen ds ≤ u64_max →
  running_justified log s → PVoteAddDomains env ds ∈ log →
  RunningContractState_vote_add_domains env s ds = Ok (s1, o) →
  justified log (match o with Some r => Initializing r | None => Running s1 end).
Proof.
  intros Hs Hb [Hp Hd Hk] Hin H%vote_add_domains_Ok; [|done].
  destruct (dv_voter _ _ _ _ _ H) as (c & Hc & Hs1).
  assert (Hcast : ∀ i ds', add_domains_proposals (rs_add_domains_votes s1) !! i = Some ds' →
    cast_domains log (tp_participants (rs_parameters s)) i ds').
  { subst s1. intros i ds'. simpl. rewrite lookup_insert_Some.
    intros [[<- <-]|[_ ?]]; [by exists env|auto]. }
  destruct o as [st|]; [|by subst s1].
  destruct (dv_next _ _ _ _ _ H st eq_refl) as (first & r & _ & Hadd & ->).
  apply DomainRegistry_add_domains_spec in Hadd as [-> _];
    [|apply (registry_next _ (run_registry _ Hs))|done].
  split; [|done|done]. exists ds. split; [apply H|]. split; [by eexists|]. simpl.
  intros i Hi. apply Hcast. apply (proj1 (dv_complete _ _ _ _ _ H)); [by eexists|]. by subst s1.
Qed.

Lemma update_participant_info_justified log s a info s1 :
  running_justified log s → update_participant_info s a info = Ok s1 →
  running_justified log s1.
Proof.
  intros [Hp Hd Hk] H. apply bind_Ok in H as (tp & Htp & [= <-]).
  apply bind_Ok in Htp as (ps & Hps & [= <-]).
  pose proof (Participants_update_info_spec _ _ _ _ Hps) as (Ha & Hi & _).
  split; simpl; [done| |].
  - intros i ds (env & ? & Hauth)%Hd. exists env. split; [done|]. by rewrite (auth_ext env _ _ Ha Hi).
  - intros k Hin. destruct (Hk k Hin) as [?|Hall]; [by left|right].
    intros c. rewrite Hi. intros (env & ? & Hauth)%Hall. exists env. split; [done|].
    by rewrite (auth_ext env _ _ Ha Hi).
Qed.

Lemma protocol_call_justified log s c s' :
  Protocol_ok s → call_fits s c → justified log s → c ∈ log → protocol_call s c = Ok s' →
  justified log s'.
Proof.
  intros Hs Hfit Hj Hin H. destruct c; destruct s as [|s|s|s]; try done;
    cbn [Protocol_ok] in Hs; cbn [justified] in Hj; simpl in Hfit; cbn [protocol_call] in H;
    try (apply lift_transition_Ok in H as (s1 & o & H & ->));
    try (apply fmap_Ok in H as (s1 & H & ->)).
  - apply bind_Ok in H as (ke & Hke & [= <-]).
    destruct (KeyEvent_start_wf _ _ _ _ _ (init_event _ Hs) Hke) as [_ [_ _ Hp]].
    destruct Hj as [Hd He Hk]. split; simpl; [|by eapply start_votes_justified, Hke; apply Hs|].
    + unfold domains_voted. simpl. by rewrite Hp.
    + by rewrite Hp.
  - apply bind_Ok in H as (ke & Hke & [= <-]).
    destruct (KeyEvent_start_wf _ _ _ _ _ (resh_event _ Hs) Hke) as [_ [Hep _ Hp]].
    destruct Hj as [Hd Hv He Hk]. split; simpl; rewrite ?Hp; try done.
    + eapply start_votes_justified, Hke. apply Hs.
    + unfold ResharingContractState_prospective_epoch_id in *. simpl. by rewrite Hep.
  - by eapply vote_pk_justified.
  - by eapply vote_reshared_justified.
  - apply bind_Ok in H as (ke & Hke & [= <-]).
    destruct (KeyEvent_vote_abort_wf _ _ _ _ (init_event _ Hs) Hke) as [_ [_ _ Hp]].
    destruct Hj as [Hd He Hk]. split; simpl; [|by eapply abort_votes_justified|].
    + unfold domains_voted. simpl. by rewrite Hp.
    + by rewrite Hp.
  - apply bind_Ok in H as (ke & Hke & [= <-]).
    destruct (KeyEvent_vote_abort_wf _ _ _ _ (resh_event _ Hs) Hke) as [_ [Hep _ Hp]].
    destruct Hj as [Hd Hv He Hk]. split; simpl; rewrite ?Hp; try done.
    + by eapply abort_votes_justified.
    + unfold ResharingContractState_prospective_epoch_id in *. simpl. by rewrite Hep.
  - destruct (Initializing_vote_cancel_cases _ _ _ _ _ Hs H) as (_ & c & _ & -> & _ & Hr).
    destruct Hj as [Hd He Hk]. destruct o as [r|]; [rewrite (Hr r eq_refl)|by split].
    by apply Running_new_justified.
  - destruct (vote_cancel_resharing_cases _ _ _ _ Hs H) as (_ & -> & _ & Hr).
    destruct Hj as [[] ? ? ?]. destruct o as [r|]; [rewrite (Hr r eq_refl); by split|by split].
  - destruct Hfit. by eapply vote_new_parameters_justified.
  - destruct Hfit. by eapply resharing_vote_new_parameters_justified.
  - by eapply vote_add_domains_justified.
  - destruct Hfit as [Hb _]. apply bind_Ok in H as ([] & Hv & H).
    apply validate_incoming_proposal_Ok in Hv; [|apply Hs|apply Hs|done].
    destruct (RunningContractState_transition_to_resharing_no_checks s proposal) as [s1 o] eqn:E.
    pose proof (transition_justified log _ _ _ _ Hs Hv Hj (or_introl Hin) E).
    injection H as <-. by destruct o.
  - by eapply update_participant_info_justified.
Qed.

Lemma initial_justified s : initial s → s = s0 → justified [] s.
Proof.
  destruct 1 as [p s Hb H|ds n ks p s Hb _ _ H]; intros Heq.
  - apply bind_Ok in H as ([] & _ & [= <-]).
    split; [done|done|]. intros k Hk. by apply elem_of_nil in Hk.
  - apply bind_Ok in H as ([] & _ & H). apply bind_Ok in H as (r & _ & H).
    case_match; [done|]. injection H as <-. split; [done|done|].
    intros k Hk. left. by rewrite <- Heq.
Qed.

Lemma protocol_run_justified log s :
  initial s0 → protocol_run s0 log s → Protocol_ok s ∧ justified log s.
Proof.
  intros H0. induction 1 as [|log s c s' Hrun [Hs Hj] Hfit Hc].
  { split; [by apply initial_ok|by apply initial_justified]. }
  split; [by eapply protocol_call_ok|].
  eapply protocol_call_justified; [done|done| |set_solver|done].
  eapply justified_mono; [|done]. set_solver.
Qed.

End history.

(** ** What the histories of a deployed contract satisfy *)

Lemma initial_epochs s : initial s → epochs_ok s.
Proof.
  destruct 1 as [p s Hb H|ds n ks p s Hb [He _] _ H].
  - apply bind_Ok in H as ([] & _ & [= <-]). done.
  - apply bind_Ok in H as ([] & _ & H). apply bind_Ok in H as (r & _ & H).
    case_match; [done|]. injection H as <-. unfold epochs_ok. simpl. lia.
Qed.

Lemma protocol_run_evolves s log s' :
  Protocol_ok s → epochs_ok s → protocol_run s log s' →
  evolves s s' ∧ Protocol_ok s' ∧ epochs_ok s'.
Proof.
  intros Hs Hep. induction 1 as [|log s1 c s2 Hrun (Hev & Hs1 & Hep1) Hfit Hc]; [done|].
  destruct (protocol_call_evolves _ _ _ Hs1 Hep1 Hfit Hc) as [Hev2 ?].
  split; [by etrans|]. split; [by eapply protocol_call_ok|done].
Qed.

(** C2: the committee holds every key it is responsible for.  In every running
    state a deployed contract reaches, each key of the current keyset either is
    one the contract was deployed with (in the epoch it was deployed in) or was
    confirmed by every current participant, in the current epoch and in the
    attempt the keyset records. *)
Theorem committee_confirmed_every_key s0 log s k :
  initial s0 → protocol_run s0 log (Running s) → k ∈ ks_domains (rs_keyset s) →
  (ks_epoch_id (rs_keyset s) = epoch_of s0 ∧ k ∈ keyset_of s0) ∨
  all_confirmed log (tp_participants (rs_parameters s)) (ks_epoch_id (rs_keyset s)) k.
Proof.
  intros H0 Hrun Hk. destruct (protocol_run_justified _ _ _ H0 Hrun) as [_ Hj].
  by apply (rj_keys _ _ _ Hj).
Qed.

(** C14: a resharing was agreed on.  Whenever the contract is resharing, the
    proposed parameters are admissible against the current ones, and they were
    proposed by [verify_tee] or every proposed participant called
    [vote_new_parameters] with exactly these parameters. *)
Theorem resharing_was_voted s0 log s :
  initial s0 → protocol_run s0 log (Resharing s) →
  incoming_ok (rs_parameters (rh_previous_running_state s)) (kev_parameters (rh_resharing_key s)) ∧
  resharing_voted log (kev_parameters (rh_resharing_key s)).
Proof.
  intros H0 Hrun. destruct (protocol_run_justified _ _ _ H0 Hrun) as [Hs Hj].
  split; [apply Hs|apply Hj].
Qed.

(** Key generation was agreed on.  Whenever the contract generates keys,
    the last domains of its registry are a list that every participant voted
    for, in a call of [vote_add_domains]. *)
Theorem new_domains_were_voted s0 log s :
  initial s0 → protocol_run s0 log (Initializing s) → domains_voted log s.
Proof.
  intros H0 Hrun. destruct (protocol_run_justified _ _ _ H0 Hrun) as [_ Hj]. apply Hj.
Qed.

(** [public_key] reads the view [keys_of]. *)
Definition lookup_key (l : list (DomainId * PublicKeyExtended)) (d : DomainId) :
    option PublicKeyExtended :=
  snd <$> find (λ p, p.1 =? d) l.

Lemma Keyset_public_key_lookup ks d :
  Keyset_public_key ks d =
  ok_or (lookup_key (key_pair <$> ks_domains ks) d) (EDomainError NoSuchDomain).
Proof.
  unfold Keyset_public_key, lookup_key. induction (ks_domains ks) as [|k l IH]; [done|].
  rewrite fmap_cons. simpl. destruct (kd_domain_id k =? d); [done|apply IH].
Qed.

Lemma lookup_key_prefix l l' d pk :
  l `prefix_of` l' → lookup_key l d = Some pk → lookup_key l' d = Some pk.
Proof.
  intros [k ->]. unfold lookup_key. induction l as [|p l IH]; simpl; [done|].
  destruct (p.1 =? d); [done|apply IH].
Qed.

(** C3: public keys are permanent.  Once [public_key] answers for a domain, it
    gives the same answer in every later running or resharing state: no
    resharing, cancellation or new domain changes or removes a key. *)
Theorem public_key_permanent s0 log s log' s' d pk :
  initial s0 → protocol_run s0 log s → protocol_run s log' s' →
  ProtocolContractState_public_key s d = Ok pk →
  ProtocolContractState_is_running_or_resharing s' = true →
  ProtocolContractState_public_key s' d = Ok pk.
Proof.
  intros H0 Hrun Hrun' Hpk Hph.
  destruct (protocol_run_evolves _ _ _ (initial_ok _ H0) (initial_epochs _ H0) Hrun)
    as (_ & Hs & Hep).
  destruct (protocol_run_evolves _ _ _ Hs Hep Hrun') as ([Hkeys _ _ _ _] & _ & _).
  assert (lookup_key (keys_of s) d = Some pk) as Hl.
  { destruct s; try done; simpl in Hpk; rewrite Keyset_public_key_lookup in Hpk;
      by apply ok_or_Ok in Hpk. }
  eapply lookup_key_prefix in Hl; [|done].
  destruct s'; try done; simpl; rewrite Keyset_public_key_lookup; by apply ok_or_Ok.
Qed.

(** Domain ids are never reused.  An id below [next_domain_id] that is not
    in the registry (its domain was cancelled) never comes back, and
    [next_domain_id] never decreases. *)
Theorem domain_ids_never_reused s0 log s log' s' id :
  initial s0 → protocol_run s0 log s → protocol_run s log' s' →
  dr_next_domain_id (registry_of s) ≤ dr_next_domain_id (registry_of s') ∧
  (id < dr_next_domain_id (registry_of s) → id ∉ domain_ids (registry_of s) →
   id ∉ domain_ids (registry_of s')).
Proof.
  intros H0 Hrun Hrun'.
  destruct (protocol_run_evolves _ _ _ (initial_ok _ H0) (initial_epochs _ H0) Hrun)
    as (_ & Hs & Hep).
  destruct (protocol_run_evolves _ _ _ Hs Hep Hrun') as ([_ Hn Hf _ _] & _ & _). auto.
Qed.

(** The epoch identifies the committee.  The epoch of the keys in use never
    decreases, and two states of a history with the same epoch have the same
    participants, with the same ids, and the same threshold. *)
Theorem epoch_determines_committee s0 log s log' s' :
  initial s0 → protocol_run s0 log s → protocol_run s log' s' →
  epoch_of s ≤ epoch_of s' ∧
  (epoch_of s = epoch_of s' →
   committee_of <$> ProtocolContractState_threshold_parameters s =
   committee_of <$> ProtocolContractState_threshold_parameters s').
Proof.
  intros H0 Hrun Hrun'.
  destruct (protocol_run_evolves _ _ _ (initial_ok _ H0) (initial_epochs _ H0) Hrun)
    as (_ & Hs & Hep).
  destruct (protocol_run_evolves _ _ _ Hs Hep Hrun') as ([_ _ _ He Hc] & _ & _). auto.
Qed.
