(* ===== verification/ProtocolExamples.v ===== *)
(** * Histories of the protocol state machine, run

    A concrete history (a domain is added, then the committee changes) on which
    the theorems of [ProtocolTrace] are instantiated, and a history in which a
    cancelled resharing epoch is used again. *)

From S2P Require Import Prelude Types CryptoTypes Participants Thresholds Domain Samples.
From S2P Require Import KeyState KeyEvent ContractState Running Initializing Resharing.
From S2P Require Import ProtocolState ProtocolTrace.

(** ** Replaying a list of calls *)

Definition boundedb (ps : Participants) : bool :=
  all (λ i, 0 <=? i) (ids_of ps) && (0 <=? next_id ps) && (next_id ps <=? u32_max) &&
  (Participants_len ps <=? u32_max).

Definition call_fitsb (s : ProtocolContractState) (c : ProtocolCall) : bool :=
  match c with
  | PVoteNewParameters _ _ p | PTeeResharing p =>
    boundedb (tp_participants p) && (epoch_high s <? u64_max)
  | PVoteAddDomains _ ds => dr_next_domain_id (registry_of s) + zlen ds <=? u64_max
  | _ => true
  end.

Fixpoint protocol_replay (s : ProtocolContractState) (calls : list ProtocolCall) :
    option ProtocolContractState :=
  match calls with
  | [] => Some s
  | c :: calls =>
    if call_fitsb s c then
      match protocol_call s c with Ok s' => protocol_replay s' calls | _ => None end
    else None
  end.

Lemma boundedb_spec ps : boundedb ps = true → Participants_bounded ps.
Proof.
  unfold boundedb. intros H. prop_bools. split; [|done|done].
  intros i Hi. rewrite all_spec in H. by apply Z.leb_le, H.
Qed.

Lemma call_fitsb_spec s c : call_fitsb s c = true → call_fits s c.
Proof.
  destruct c; simpl; intros H; prop_bools; auto using boundedb_spec.
Qed.

Lemma protocol_replay_run s calls s' :
  protocol_replay s calls = Some s' → protocol_run s calls s'.
Proof.
  assert (∀ log s1, protocol_run s log s1 → protocol_replay s1 calls = Some s' →
    protocol_run s (log ++ calls) s') as H; [|apply (H []); constructor].
  induction calls as [|c calls IH]; simpl; intros log s1 Hrun Hr.
  { injection Hr as <-. by rewrite app_nil_r. }
  destruct (call_fitsb s1 c) eqn:Hf; [|done].
  destruct (protocol_call s1 c) as [s2| |] eqn:E; try done.
  rewrite cons_middle, (assoc_L (++)). eapply IH; [|done].
  econstructor; [done|by apply call_fitsb_spec|done].
Qed.

(** The state a replay ends in; [NotInitialized] if a call is refused. *)
Definition after (s : ProtocolContractState) (calls : list ProtocolCall) :
    ProtocolContractState :=
  default NotInitialized (protocol_replay s calls).

Lemma after_run s calls :
  is_Some (protocol_replay s calls) → protocol_run s calls (after s calls).
Proof. intros [s' H]. unfold after. rewrite H. by apply protocol_replay_run. Qed.

(** ** A domain is added and the committee changes *)

(** The sample committee, deployed with one key in epoch 5. *)
Definition deployed : ProtocolContractState := Running sample_running.

Lemma deployed_initial : initial deployed.
Proof.
  eapply (initial_running [ecdsa_domain] 1 (mkKeyset 5 [mkKeyForDomain 0 group_key 0])
    committee_params); [apply committee_params_ok|done|done|reflexivity].
Qed.

Definition add_eddsa : list ProtocolCall :=
  (λ a, PVoteAddDomains (call_by a 10) [eddsa_domain]) <$> ["alice"; "bob"; "carol"].

Definition generate_eddsa : list ProtocolCall :=
  PStartKeygen (call_by "alice" 11) (mkKeyEventId 5 1 0) 30 ::
  ((λ a, PVotePk (call_by a 12) (mkKeyEventId 5 1 0) other_key) <$> ["alice"; "bob"; "carol"]).

Definition propose_new : list ProtocolCall :=
  (λ a, PVoteNewParameters (call_by a 20) 6 new_params) <$> ["alice"; "bob"; "dave"].

Definition reshare (d : DomainId) : list ProtocolCall :=
  PStartReshare (call_by "alice" 21) (mkKeyEventId 6 d 0) 30 ::
  ((λ a, PVoteReshared (call_by a 22) (mkKeyEventId 6 d 0)) <$> ["alice"; "bob"; "dave"]).

Definition full_history : list ProtocolCall :=
  add_eddsa ++ generate_eddsa ++ propose_new ++ reshare 0 ++ reshare 1.

Definition reshared : RunningContractState :=
  match after deployed full_history with Running s => s | _ => sample_running end.

Lemma full_history_run : protocol_run deployed full_history (Running reshared).
Proof. apply protocol_replay_run. vm_compute. reflexivity. Qed.

(** ** The theorems on this history *)

Lemma protocol_safe_witness :
  (∃ s', protocol_call (Running reshared)
     (PVoteCancelResharing (call_by "alice" 30)) = Ok s' ∧ Protocol_ok s') ∨
  ∃ e, protocol_call (Running reshared) (PVoteCancelResharing (call_by "alice" 30)) = Err e.
Proof.
  eapply (protocol_safe deployed full_history (Running reshared)).
  - apply deployed_initial.
  - apply full_history_run.
  - exact I.
Defined.

Lemma committee_confirmed_every_key_witness :
  (6 = 5 ∧ mkKeyForDomain 1 other_key 0 ∈ keyset_of deployed) ∨
  all_confirmed full_history new_committee 6 (mkKeyForDomain 1 other_key 0).
Proof.
  apply (committee_confirmed_every_key deployed full_history reshared).
  - apply deployed_initial.
  - apply full_history_run.
  - apply (bool_decide_eq_true_1 _). vm_compute. reflexivity.
Defined.

Lemma resharing_was_voted_witness :
  resharing_voted (add_eddsa ++ generate_eddsa ++ propose_new) new_params.
Proof.
  assert (∃ r, protocol_run deployed (add_eddsa ++ generate_eddsa ++ propose_new) (Resharing r) ∧
    kev_parameters (rh_resharing_key r) = new_params) as (r & Hrun & <-).
  { eexists. split; [apply protocol_replay_run; vm_compute; reflexivity|reflexivity]. }
  exact (proj2 (resharing_was_voted deployed _ r deployed_initial Hrun)).
Defined.

Lemma new_domains_were_voted_witness :
  ∃ s, protocol_replay deployed add_eddsa = Some (Initializing s) ∧ domains_voted add_eddsa s.
Proof.
  eexists. split; [vm_compute; reflexivity|].
  eapply (new_domains_were_voted deployed).
  - apply deployed_initial.
  - apply protocol_replay_run. vm_compute. reflexivity.
Defined.

Lemma public_key_permanent_witness :
  ProtocolContractState_public_key (Running reshared) 0 = Ok group_key.
Proof.
  eapply (public_key_permanent deployed [] deployed).
  - apply deployed_initial.
  - constructor.
  - apply full_history_run.
  - reflexivity.
  - reflexivity.
Defined.

(** The voters of [generate_eddsa] cancel instead: domain 1 is gone for good. *)
Definition cancelled_keygen : list ProtocolCall :=
  add_eddsa ++ ((λ a, PVoteCancelKeygen (call_by a 12) 2) <$> ["alice"; "bob"]).

Lemma domain_ids_never_reused_witness :
  1 ∉ domain_ids (registry_of (after (after deployed cancelled_keygen) propose_new)).
Proof.
  eapply (domain_ids_never_reused deployed cancelled_keygen (after deployed cancelled_keygen)
    propose_new).
  - apply deployed_initial.
  - apply after_run. vm_compute. by eexists.
  - apply after_run. vm_compute. by eexists.
  - vm_compute. reflexivity.
  - apply (bool_decide_eq_true_1 _). vm_compute. reflexivity.
Defined.

Lemma epoch_determines_committee_witness :
  5 ≤ epoch_of (Running reshared) ∧
  Some (committee_of committee_params) =
    committee_of <$> ProtocolContractState_threshold_parameters
      (after deployed (add_eddsa ++ generate_eddsa)).
Proof.
  split.
  - eapply (epoch_determines_committee deployed [] deployed).
    + apply deployed_initial.
    + constructor.
    + apply full_history_run.
  - eapply (epoch_determines_committee deployed [] deployed).
    + apply deployed_initial.
    + constructor.
    + apply after_run. vm_compute. by eexists.
    + vm_compute. reflexivity.
Defined.

(** ** A cancelled epoch that is used again *)

(** A resharing to [new_params] in epoch 6 starts its first attempt and is
    cancelled by two participants. *)
Definition first_resharing : list ProtocolCall :=
  propose_new ++ [PStartReshare (call_by "alice" 21) (mkKeyEventId 6 0 0) 30].
Definition cancel_it : list ProtocolCall :=
  (λ a, PVoteCancelResharing (call_by a 22)) <$> ["alice"; "bob"].

(** Bob is replaced instead, after a domain was added. *)
Definition other_params : ThresholdParameters :=
  mkThresholdParameters (mkParticipants 4
    [sample_entry "alice" 0; sample_entry "carol" 2; sample_entry "erin" 3]) 2.
Definition second_resharing : list ProtocolCall :=
  add_eddsa ++ generate_eddsa ++
  ((λ a, PVoteNewParameters (call_by a 30) 6 other_params) <$> ["alice"; "carol"; "erin"]) ++
  [PStartReshare (call_by "alice" 31) (mkKeyEventId 6 0 0) 30].

(** A cancelled resharing epoch can be used again.  The contract remembers
    the epoch of a cancelled resharing so that it is not reused, but adding a
    domain forgets it: here two resharings, to different committees, run in
    the same epoch, and their attempts have the same [KeyEventId]. *)
Theorem cancelled_epoch_reused :
  let cancelled := after deployed (first_resharing ++ cancel_it) in
  protocol_run deployed (first_resharing ++ cancel_it) cancelled ∧
  (∃ r, cancelled = Running r ∧ rs_previously_cancelled_resharing_epoch_id r = Some 6) ∧
  ∃ r1 r2, protocol_run deployed first_resharing (Resharing r1) ∧
    protocol_run cancelled second_resharing (Resharing r2) ∧
    kev_parameters (rh_resharing_key r1) ≠ kev_parameters (rh_resharing_key r2) ∧
    KeyEvent_current_key_event_id (call_by "alice" 21) (rh_resharing_key r1) =
      Some (mkKeyEventId 6 0 0) ∧
    KeyEvent_current_key_event_id (call_by "alice" 31) (rh_resharing_key r2) =
      Some (mkKeyEventId 6 0 0).
Proof.
  split; [apply after_run; vm_compute; by eexists|].
  split; [eexists; split; vm_compute; reflexivity|].
  eexists _, _. split; [apply protocol_replay_run; vm_compute; reflexivity|].
  split; [apply protocol_replay_run; vm_compute; reflexivity|].
  split; [done|]. split; vm_compute; reflexivity.
Qed.

(** ** A participant id that is used again *)

Definition shrunk : ThresholdParameters :=
  mkThresholdParameters (mkParticipants 2 [sample_entry "alice" 0; sample_entry "bob" 1]) 2.
Definition regrown : ThresholdParameters :=
  mkThresholdParameters (mkParticipants 3
    [sample_entry "alice" 0; sample_entry "bob" 1; sample_entry "dave" 2]) 2.

(** The voters move to [p] in [epoch], at block [b], and reshare the key of
    domain 0. *)
Definition move_to (p : ThresholdParameters) (epoch b : Z) (voters : list string) :
    list ProtocolCall :=
  ((λ a, PVoteNewParameters (call_by a b) epoch p) <$> voters) ++
  PStartReshare (call_by "alice" (b + 1)) (mkKeyEventId epoch 0 0) 30 ::
  ((λ a, PVoteReshared (call_by a (b + 2)) (mkKeyEventId epoch 0 0)) <$> voters).

Definition leave_and_join : list ProtocolCall :=
  move_to shrunk 6 20 ["alice"; "bob"] ++ move_to regrown 7 30 ["alice"; "bob"; "dave"].

(** An id can be given to another account.  The ids of new participants
    must continue from [next_id], which is what keeps an id from being reused;
    but a proposal without new participants may lower [next_id].  Here Carol, with
    id 2, leaves, and Dave then joins with id 2. *)
Theorem participant_id_reused :
  let s := after deployed leave_and_join in
  protocol_run deployed leave_and_join s ∧
  (∃ r, s = Running r ∧ rs_parameters r = regrown) ∧
  AuthenticatedParticipantId_new (call_by "carol" 10) committee = Ok 2 ∧
  AuthenticatedParticipantId_new (call_by "dave" 40) (tp_participants regrown) = Ok 2.
Proof.
  split; [apply after_run; vm_compute; by eexists|].
  split; [eexists; split; vm_compute; reflexivity|]. split; reflexivity.
Qed.
