(* ===== verification/Config.v ===== *)
(** * Contract configuration ([config.rs], [contract-interface] [config.rs])

    The stored configuration, the interface type of [update_config] and of the
    [config] view, the optional fields of [init], and the conversions of
    [dto_mapping.rs].  All fields are [u64]. *)

From S2P Require Import Prelude.

Definition DEFAULT_KEY_EVENT_TIMEOUT_BLOCKS : Z := 30.
Definition DEFAULT_TEE_UPGRADE_DEADLINE_DURATION_SECONDS : Z := 7 * 24 * 60 * 60.
Definition DEFAULT_CONTRACT_UPGRADE_DEPOSIT_TERA_GAS : Z := 50.
Definition DEFAULT_SIGN_CALL_GAS_ATTACHMENT_REQUIREMENT_TERA_GAS : Z := 15.
Definition DEFAULT_CKD_CALL_GAS_ATTACHMENT_REQUIREMENT_TERA_GAS : Z := 15.
Definition DEFAULT_RETURN_SIGNATURE_AND_CLEAN_STATE_ON_SUCCESS_CALL_TERA_GAS : Z := 7.
Definition DEFAULT_RETURN_CK_AND_CLEAN_STATE_ON_SUCCESS_CALL_TERA_GAS : Z := 7.
Definition DEFAULT_FAIL_ON_TIMEOUT_TERA_GAS : Z := 2.
Definition DEFAULT_CLEAN_TEE_STATUS_TERA_GAS : Z := 10.
Definition DEFAULT_CLEANUP_ORPHANED_NODE_MIGRATIONS_TERA_GAS : Z := 3.
Definition DEFAULT_REMOVE_NON_PARTICIPANT_UPDATE_VOTES_TERA_GAS : Z := 5.

Record Config : Type := mkConfig {
  key_event_timeout_blocks : Z;
  tee_upgrade_deadline_duration_seconds : Z;
  contract_upgrade_deposit_tera_gas : Z;
  sign_call_gas_attachment_requirement_tera_gas : Z;
  ckd_call_gas_attachment_requirement_tera_gas : Z;
  return_signature_and_clean_state_on_success_call_tera_gas : Z;
  return_ck_and_clean_state_on_success_call_tera_gas : Z;
  fail_on_timeout_tera_gas : Z;
  clean_tee_status_tera_gas : Z;
  cleanup_orphaned_node_migrations_tera_gas : Z;
  remove_non_participant_update_votes_tera_gas : Z;
}.

#[global] Instance Config_eq_dec : EqDecision Config.
Proof. solve_decision. Defined.

(** [dtos::Config]. *)
Record DtoConfig : Type := mkDtoConfig {
  dto_key_event_timeout_blocks : Z;
  dto_tee_upgrade_deadline_duration_seconds : Z;
  dto_contract_upgrade_deposit_tera_gas : Z;
  dto_sign_call_gas_attachment_requirement_tera_gas : Z;
  dto_ckd_call_gas_attachment_requirement_tera_gas : Z;
  dto_return_signature_and_clean_state_on_success_call_tera_gas : Z;
  dto_return_ck_and_clean_state_on_success_call_tera_gas : Z;
  dto_fail_on_timeout_tera_gas : Z;
  dto_clean_tee_status_tera_gas : Z;
  dto_cleanup_orphaned_node_migrations_tera_gas : Z;
  dto_remove_non_participant_update_votes_tera_gas : Z;
}.

#[global] Instance DtoConfig_eq_dec : EqDecision DtoConfig.
Proof. solve_decision. Defined.

(** [dtos::InitConfig]. *)
Record InitConfig : Type := mkInitConfig {
  init_key_event_timeout_blocks : option Z;
  init_tee_upgrade_deadline_duration_seconds : option Z;
  init_contract_upgrade_deposit_tera_gas : option Z;
  init_sign_call_gas_attachment_requirement_tera_gas : option Z;
  init_ckd_call_gas_attachment_requirement_tera_gas : option Z;
  init_return_signature_and_clean_state_on_success_call_tera_gas : option Z;
  init_return_ck_and_clean_state_on_success_call_tera_gas : option Z;
  init_fail_on_timeout_tera_gas : option Z;
  init_clean_tee_status_tera_gas : option Z;
  init_cleanup_orphaned_node_migrations_tera_gas : option Z;
  init_remove_non_participant_update_votes_tera_gas : option Z;
}.

Definition Config_default : Config := {|
  key_event_timeout_blocks := DEFAULT_KEY_EVENT_TIMEOUT_BLOCKS;
  tee_upgrade_deadline_duration_seconds := DEFAULT_TEE_UPGRADE_DEADLINE_DURATION_SECONDS;
  contract_upgrade_deposit_tera_gas := DEFAULT_CONTRACT_UPGRADE_DEPOSIT_TERA_GAS;
  sign_call_gas_attachment_requirement_tera_gas := DEFAULT_SIGN_CALL_GAS_ATTACHMENT_REQUIREMENT_TERA_GAS;
  ckd_call_gas_attachment_requirement_tera_gas := DEFAULT_CKD_CALL_GAS_ATTACHMENT_REQUIREMENT_TERA_GAS;
  return_signature_and_clean_state_on_success_call_tera_gas := DEFAULT_RETURN_SIGNATURE_AND_CLEAN_STATE_ON_SUCCESS_CALL_TERA_GAS;
  return_ck_and_clean_state_on_success_call_tera_gas := DEFAULT_RETURN_CK_AND_CLEAN_STATE_ON_SUCCESS_CALL_TERA_GAS;
  fail_on_timeout_tera_gas := DEFAULT_FAIL_ON_TIMEOUT_TERA_GAS;
  clean_tee_status_tera_gas := DEFAULT_CLEAN_TEE_STATUS_TERA_GAS;
  cleanup_orphaned_node_migrations_tera_gas := DEFAULT_CLEANUP_ORPHANED_NODE_MIGRATIONS_TERA_GAS;
  remove_non_participant_update_votes_tera_gas := DEFAULT_REMOVE_NON_PARTICIPANT_UPDATE_VOTES_TERA_GAS;
|}.

(** [From<InitConfig> for Config]: start from the default and overwrite the
    fields that are given. *)
Definition Config_from_init (c : InitConfig) : Config := {|
  key_event_timeout_blocks :=
    default (key_event_timeout_blocks Config_default) (init_key_event_timeout_blocks c);
  tee_upgrade_deadline_duration_seconds :=
    default (tee_upgrade_deadline_duration_seconds Config_default) (init_tee_upgrade_deadline_duration_seconds c);
  contract_upgrade_deposit_tera_gas :=
    default (contract_upgrade_deposit_tera_gas Config_default) (init_contract_upgrade_deposit_tera_gas c);
  sign_call_gas_attachment_requirement_tera_gas :=
    default (sign_call_gas_attachment_requirement_tera_gas Config_default) (init_sign_call_gas_attachment_requirement_tera_gas c);
  ckd_call_gas_attachment_requirement_tera_gas :=
    default (ckd_call_gas_attachment_requirement_tera_gas Config_default) (init_ckd_call_gas_attachment_requirement_tera_gas c);
  return_signature_and_clean_state_on_success_call_tera_gas :=
    default (return_signature_and_clean_state_on_success_call_tera_gas Config_default) (init_return_signature_and_clean_state_on_success_call_tera_gas c);
  return_ck_and_clean_state_on_success_call_tera_gas :=
    default (return_ck_and_clean_state_on_success_call_tera_gas Config_default) (init_return_ck_and_clean_state_on_success_call_tera_gas c);
  fail_on_timeout_tera_gas :=
    default (fail_on_timeout_tera_gas Config_default) (init_fail_on_timeout_tera_gas c);
  clean_tee_status_tera_gas :=
    default (clean_tee_status_tera_gas Config_default) (init_clean_tee_status_tera_gas c);
  cleanup_orphaned_node_migrations_tera_gas :=
    default (cleanup_orphaned_node_migrations_tera_gas Config_default) (init_cleanup_orphaned_node_migrations_tera_gas c);
  remove_non_participant_update_votes_tera_gas :=
    default (remove_non_participant_update_votes_tera_gas Config_default) (init_remove_non_participant_update_votes_tera_gas c);
|}.

(** [From<&Config> for dtos::Config]. *)
Definition DtoConfig_from_config (c : Config) : DtoConfig := {|
  dto_key_event_timeout_blocks := key_event_timeout_blocks c;
  dto_tee_upgrade_deadline_duration_seconds := tee_upgrade_deadline_duration_seconds c;
  dto_contract_upgrade_deposit_tera_gas := contract_upgrade_deposit_tera_gas c;
  dto_sign_call_gas_attachment_requirement_tera_gas := sign_call_gas_attachment_requirement_tera_gas c;
  dto_ckd_call_gas_attachment_requirement_tera_gas := ckd_call_gas_attachment_requirement_tera_gas c;
  dto_return_signature_and_clean_state_on_success_call_tera_gas := return_signature_and_clean_state_on_success_call_tera_gas c;
  dto_return_ck_and_clean_state_on_success_call_tera_gas := return_ck_and_clean_state_on_success_call_tera_gas c;
  dto_fail_on_timeout_tera_gas := fail_on_timeout_tera_gas c;
  dto_clean_tee_status_tera_gas := clean_tee_status_tera_gas c;
  dto_cleanup_orphaned_node_migrations_tera_gas := cleanup_orphaned_node_migrations_tera_gas c;
  dto_remove_non_participant_update_votes_tera_gas := remove_non_participant_update_votes_tera_gas c;
|}.

(** [From<dtos::Config> for Config]. *)
Definition Config_from_dto (c : DtoConfig) : Config := {|
  key_event_timeout_blocks := dto_key_event_timeout_blocks c;
  tee_upgrade_deadline_duration_seconds := dto_tee_upgrade_deadline_duration_seconds c;
  contract_upgrade_deposit_tera_gas := dto_contract_upgrade_deposit_tera_gas c;
  sign_call_gas_attachment_requirement_tera_gas := dto_sign_call_gas_attachment_requirement_tera_gas c;
  ckd_call_gas_attachment_requirement_tera_gas := dto_ckd_call_gas_attachment_requirement_tera_gas c;
  return_signature_and_clean_state_on_success_call_tera_gas := dto_return_signature_and_clean_state_on_success_call_tera_gas c;
  return_ck_and_clean_state_on_success_call_tera_gas := dto_return_ck_and_clean_state_on_success_call_tera_gas c;
  fail_on_timeout_tera_gas := dto_fail_on_timeout_tera_gas c;
  clean_tee_status_tera_gas := dto_clean_tee_status_tera_gas c;
  cleanup_orphaned_node_migrations_tera_gas := dto_cleanup_orphaned_node_migrations_tera_gas c;
  remove_non_participant_update_votes_tera_gas := dto_remove_non_participant_update_votes_tera_gas c;
|}.

(** The configuration [init] and [init_running] store. *)
Definition Config_of_option (c : option InitConfig) : Config :=
  from_option Config_from_init Config_default c.

(** No field is lost or swapped between the stored and the interface type. *)
Lemma Config_dto_roundtrip c : Config_from_dto (DtoConfig_from_config c) = c.
Proof. by destruct c. Qed.
Lemma DtoConfig_roundtrip c : DtoConfig_from_config (Config_from_dto c) = c.
Proof. by destruct c. Qed.
