(* ===== verification/Attestation.v ===== *)
(** * Remote attestation ([crates/attestation], [crates/mpc-attestation])

    The verification of a TDX quote with its event log (the checks on top of
    the quote verification of [dcap_qvl]), the verification of an MPC node's
    attestation against the allowed image and launcher hashes, and the
    re-verification of a stored one.

    The cryptographic and parsing libraries are the class [Libraries]. *)

From S2P Require Import Prelude Types.

Abbreviation MpcDockerImageHash := bytes (only parsing).
Abbreviation LauncherDockerComposeHash := bytes (only parsing).

(** ** Data ([attestation/src/*.rs]) *)

Record EventLog : Type := mkEventLog {
  el_imr : Z;
  el_event_type : Z;
  el_digest : bytes;
  el_event : string;
  el_event_payload : string;
}.

Record TcbInfo : Type := mkTcbInfo {
  ti_mrtd : bytes;
  ti_rtmr0 : bytes;
  ti_rtmr1 : bytes;
  ti_rtmr2 : bytes;
  ti_rtmr3 : bytes;
  ti_os_image_hash : option bytes;
  ti_compose_hash : bytes;
  ti_device_id : bytes;
  ti_app_compose : string;
  ti_event_log : list EventLog;
}.

Record AppCompose : Type := mkAppCompose {
  ac_manifest_version : Z;
  ac_name : string;
  ac_runner : string;
  ac_docker_compose_file : string;
  ac_kms_enabled : bool;
  ac_tproxy_enabled : option bool;
  ac_gateway_enabled : option bool;
  ac_public_logs : bool;
  ac_public_sysinfo : bool;
  ac_local_key_provider_enabled : bool;
  ac_key_provider_id : option string;
  ac_allowed_envs : list string;
  ac_no_instance_id : bool;
  ac_secure_time : option bool;
  ac_pre_launch_script : option string;
}.

Record Measurements : Type := mkMeasurements {
  me_mrtd : bytes;
  me_rtmr0 : bytes;
  me_rtmr1 : bytes;
  me_rtmr2 : bytes;
}.

Record ExpectedMeasurements : Type := mkExpectedMeasurements {
  em_rtmrs : Measurements;
  em_key_provider_event_digest : bytes;
}.

(** The fields of [dcap_qvl]'s [TDReport10] and [VerifiedReport] that are read;
    the report is [None] when it is not a TD 1.0 report. *)
Record TDReport10 : Type := mkTDReport10 {
  td_report_data : bytes;
  td_rt_mr0 : bytes;
  td_rt_mr1 : bytes;
  td_rt_mr2 : bytes;
  td_rt_mr3 : bytes;
  td_mr_td : bytes;
}.

Record VerifiedReport : Type := mkVerifiedReport {
  vr_status : string;
  vr_advisory_ids : list string;
  vr_report : option TDReport10;
}.

(** [dcap_qvl]'s [QuoteCollateralV3], with the fields the code takes apart, and
    the newtype [Collateral] around it. *)
Record QuoteCollateralV3 : Type := mkQuoteCollateralV3 {
  qc_pck_crl_issuer_chain : string;
  qc_root_ca_crl : bytes;
  qc_pck_crl : bytes;
  qc_tcb_info_issuer_chain : string;
  qc_tcb_info : string;
  qc_tcb_info_signature : bytes;
  qc_qe_identity_issuer_chain : string;
  qc_qe_identity : string;
  qc_qe_identity_signature : bytes;
  qc_pck_certificate_chain : option string;
}.

Record Collateral : Type := mkCollateral { quote_collateral : QuoteCollateralV3 }.

Record DstackAttestation : Type := mkDstackAttestation {
  da_quote : bytes;
  da_collateral : Collateral;
  da_tcb_info : TcbInfo;
}.

Inductive MeasurementsError : Type :=
  | NoTd10Report
  | InvalidTcbInfo
  | InvalidHexValue (name value : string)
  | InvalidLength (name : string) (length : Z).

(** Texts built with [format!] are kept without the values they interpolate. *)
Inductive VerificationError : Type :=
  | EmbeddedMeasurementsParsing (e : MeasurementsError)
  | DcapVerification (message : string)
  | ReportNotTd10
  | TcbStatusNotUpToDate (status : string)
  | NonEmptyAdvisoryIds (ids : list string)
  | WrongHash (name found expected : string)
  | InvalidEventType (event_type : Z)
  | EventDecoding (digest : string)
  | AppComposeParsing (message : string)
  | MissingEvent (name : string)
  | DuplicateEvent (name : string)
  | InvalidAppComposeConfig (app_compose : string)
  | AppComposeEventPayloadWrongSize (size : Z)
  | AppComposeEventPayloadNotHex (payload : string)
  | ExpiredCertificate (attestation_time expiry_time : Z)
  | InvalidMockAttestation
  | Custom (message : string).

(** ** The libraries the code calls *)

Class Libraries : Type := {
  hex_encode : bytes → string;
  hex_decode : string → option bytes;
  sha256 : bytes → bytes;
  sha384 : bytes → bytes;
  sha3_384 : bytes → bytes;
  dcap_verify : bytes → QuoteCollateralV3 → Z → string + VerifiedReport;
  app_compose_from_str : string → string + AppCompose;
}.

(** Documented behaviour: SHA-384 and SHA3-384 digests have 48 bytes. *)
Class LibraryLaws `{Libraries} : Prop := {
  sha384_length : ∀ b, length (sha384 b) = 48%nat;
  sha3_384_length : ∀ b, length (sha3_384 b) = 48%nat;
}.

Definition string_bytes (s : string) : bytes :=
  (λ c, Z.of_N (Ascii.N_of_ascii c)) <$> String.list_ascii_of_string s.

Lemma string_bytes_inj s s' : string_bytes s = string_bytes s' → s = s'.
Proof.
  unfold string_bytes. intros Heq.
  assert (Inj (=) (=) (λ c, Z.of_N (Ascii.N_of_ascii c))).
  { intros c c' Hc%N2Z.inj. rewrite <- (Ascii.ascii_N_embedding c), Hc.
    apply Ascii.ascii_N_embedding. }
  apply (inj (fmap _)) in Heq.
  rewrite <- (String.string_of_list_ascii_of_string s).
  rewrite <- (String.string_of_list_ascii_of_string s'). congruence.
Qed.

Definition EXPECTED_QUOTE_STATUS : string := "UpToDate".
Definition DSTACK_EVENT_TYPE : Z := 134217729.
Definition COMPOSE_HASH_EVENT : string := "compose-hash".
Definition KEY_PROVIDER_EVENT : string := "key-provider".
Definition RTMR3_INDEX : Z := 3.

(** [bool.or_err(e)]. *)
Definition or_err {E} (b : bool) (e : E) : result E unit := if b then Ok tt else Err e.

(** [u32::to_ne_bytes] on the little-endian targets the code is built for. *)
Definition u32_le_bytes (a : Z) : bytes :=
  [a mod 256; (a / 256) mod 256; (a / 65536) mod 256; (a / 16777216) mod 256].

(** ** Checks on the quote ([attestation/src/attestation.rs]) *)

Definition get_single_event (t : TcbInfo) (event_name : string) :
    result VerificationError EventLog :=
  match filter (λ e, el_event e = event_name ∧ el_imr e = RTMR3_INDEX) (ti_event_log t) with
  | [] => Err (MissingEvent event_name)
  | event :: rest =>
    match rest with [] => Ok event | _ :: _ => Err (DuplicateEvent event_name) end
  end.

Definition validate_app_compose_config (a : AppCompose) : bool :=
  (ac_manifest_version a =? 2) && bool_decide (ac_runner a = "docker-compose") &&
  negb (ac_kms_enabled a) && bool_decide (ac_gateway_enabled a = Some false) &&
  ac_public_logs a && ac_public_sysinfo a && ac_local_key_provider_enabled a &&
  bool_decide (ac_allowed_envs a = []) && ac_no_instance_id a &&
  bool_decide (ac_pre_launch_script a = None).

Section checks.
Context `{L : Libraries}.

Definition compare_hashes (name : string) (found expected : bytes) :
    result VerificationError unit :=
  or_err (bool_decide (found = expected))
    (WrongHash name (hex_encode found) (hex_encode expected)).

Definition compare_hex_hashes (name found expected : string) : result VerificationError unit :=
  or_err (bool_decide (found = expected)) (WrongHash name found expected).

Definition event_digest (event_type : Z) (event : string) (payload : bytes) : bytes :=
  sha384 (u32_le_bytes event_type ++ string_bytes ":" ++ string_bytes event ++
          string_bytes ":" ++ payload).

(** The loop over the RTMR3 events. *)
Fixpoint replay_rtmr3 (events : list EventLog) (digest : bytes) :
    result VerificationError bytes :=
  match events with
  | [] => Ok digest
  | event :: events =>
    if negb (el_event_type event =? DSTACK_EVENT_TYPE)
    then Err (InvalidEventType (el_event_type event))
    else
      match hex_decode (el_event_payload event) with
      | None => Err (EventDecoding (hex_encode (el_digest event)))
      | Some payload_bytes =>
        _ ← compare_hashes "event_digest" (el_digest event)
              (event_digest (el_event_type event) (el_event event) payload_bytes);
        replay_rtmr3 events (sha384 (digest ++ el_digest event))
      end
  end.

Definition verify_event_log_rtmr3 (event_log : list EventLog) (expected_digest : bytes) :
    result VerificationError unit :=
  digest ← replay_rtmr3 (filter (λ e, el_imr e = RTMR3_INDEX) event_log) (replicate 48 0);
  compare_hashes "event_log" digest expected_digest.

Definition validate_app_compose_payload (expected_event_payload_hex app_compose : string) :
    result VerificationError unit :=
  match hex_decode expected_event_payload_hex with
  | None => Err (AppComposeEventPayloadNotHex expected_event_payload_hex)
  | Some b =>
    if bool_decide (length b = 32%nat)
    then compare_hashes "app_compose_payload" (sha256 (string_bytes app_compose)) b
    else Err (AppComposeEventPayloadWrongSize (zlen b))
  end.

Definition verify_tcb_status (r : VerifiedReport) : result VerificationError unit :=
  _ ← or_err (bool_decide (vr_status r = EXPECTED_QUOTE_STATUS))
        (TcbStatusNotUpToDate (vr_status r));
  or_err (bool_decide (vr_advisory_ids r = [])) (NonEmptyAdvisoryIds (vr_advisory_ids r)).

Definition verify_report_data (expected : bytes) (actual : TDReport10) :
    result VerificationError unit :=
  compare_hashes "report_data" (td_report_data actual) expected.

Definition verify_static_rtmrs (r : TDReport10) (t : TcbInfo) (m : ExpectedMeasurements) :
    result VerificationError unit :=
  let e := em_rtmrs m in
  _ ← compare_hashes "rtmr0_report_data" (td_rt_mr0 r) (me_rtmr0 e);
  _ ← compare_hashes "rtmr1_report_data" (td_rt_mr1 r) (me_rtmr1 e);
  _ ← compare_hashes "rtmr2_report_data" (td_rt_mr2 r) (me_rtmr2 e);
  _ ← compare_hashes "mrtd_report_data" (td_mr_td r) (me_mrtd e);
  _ ← compare_hashes "rtmr0_tcb_info" (ti_rtmr0 t) (me_rtmr0 e);
  _ ← compare_hashes "rtmr1_tcb_info" (ti_rtmr1 t) (me_rtmr1 e);
  _ ← compare_hashes "rtmr2_tcb_info" (ti_rtmr2 t) (me_rtmr2 e);
  compare_hashes "mtrd_tcb_info" (ti_mrtd t) (me_mrtd e).

Definition verify_key_provider_digest (t : TcbInfo) (expected_digest : bytes) :
    result VerificationError unit :=
  e ← get_single_event t KEY_PROVIDER_EVENT;
  compare_hashes "key_provider" (el_digest e) expected_digest.

Fixpoint verify_any_measurements (r : TDReport10) (t : TcbInfo)
    (accepted : list ExpectedMeasurements) : result VerificationError unit :=
  match accepted with
  | [] => Err (WrongHash "expected_measurements" "none matched"
                 "one of the embedded TCB info sets (prod or dev)")
  | m :: accepted =>
    if is_ok (verify_static_rtmrs r t m) &&
       is_ok (verify_key_provider_digest t (em_key_provider_event_digest m))
    then Ok tt
    else verify_any_measurements r t accepted
  end.

Definition verify_rtmr3 (r : TDReport10) (t : TcbInfo) : result VerificationError unit :=
  _ ← compare_hashes "rtmr3" (ti_rtmr3 t) (td_rt_mr3 r);
  verify_event_log_rtmr3 (ti_event_log t) (td_rt_mr3 r).

Definition verify_app_compose (t : TcbInfo) : result VerificationError unit :=
  match app_compose_from_str (ti_app_compose t) with
  | inl e => Err (AppComposeParsing e)
  | inr app_compose =>
    _ ← or_err (validate_app_compose_config app_compose)
          (InvalidAppComposeConfig (ti_app_compose t));
    e ← get_single_event t COMPOSE_HASH_EVENT;
    _ ← compare_hex_hashes "app_compose_event_hash" (el_event_payload e)
          (hex_encode (ti_compose_hash t));
    validate_app_compose_payload (el_event_payload e) (ti_app_compose t)
  end.

Definition DstackAttestation_verify (a : DstackAttestation)
    (expected_report_data : bytes) (timestamp_seconds : Z)
    (accepted_measurements : list ExpectedMeasurements) : result VerificationError unit :=
  match dcap_verify (da_quote a) (quote_collateral (da_collateral a)) timestamp_seconds with
  | inl e => Err (DcapVerification e)
  | inr verification_result =>
    match vr_report verification_result with
    | None => Err ReportNotTd10
    | Some report_data =>
      _ ← verify_tcb_status verification_result;
      _ ← verify_report_data expected_report_data report_data;
      _ ← verify_rtmr3 report_data (da_tcb_info a);
      _ ← verify_app_compose (da_tcb_info a);
      verify_any_measurements report_data (da_tcb_info a) accepted_measurements
    end
  end.

End checks.

(** ** Report data ([mpc-attestation/src/report_data.rs]) *)

Definition REPORT_DATA_SIZE : nat := 64.
Definition BINARY_VERSION_OFFSET : nat := 0.
Definition BINARY_VERSION_SIZE : nat := 2.
Definition PUBLIC_KEYS_OFFSET : nat := BINARY_VERSION_OFFSET + BINARY_VERSION_SIZE.
Definition PUBLIC_KEYS_HASH_SIZE : nat := 48.

Inductive ReportDataVersion : Type := V1.

(** [u16::to_be_bytes] and [u16::from_be_bytes]. *)
Definition u16_be_bytes (a : Z) : bytes := [(a / 256) mod 256; a mod 256].
Definition u16_of_be_bytes (hi lo : Z) : Z := hi * 256 + lo.

Definition ReportDataVersion_to_be_bytes (v : ReportDataVersion) : bytes :=
  match v with V1 => u16_be_bytes 1 end.
Definition ReportDataVersion_from_be_bytes (hi lo : Z) : option ReportDataVersion :=
  if u16_of_be_bytes hi lo =? 1 then Some V1 else None.

Record ReportDataV1 : Type := mkReportDataV1 {
  rd_tls_public_key : bytes;
  rd_account_public_key : bytes;
}.

(** [a[from..from + src.len()].copy_from_slice(src)]. *)
Definition copy_into (a : bytes) (from : nat) (src : bytes) : bytes :=
  take from a ++ src ++ drop (from + length src) a.

Section report_data.
Context `{L : Libraries}.

Definition compute_public_keys_hash (tls_public_key account_public_key : bytes) : bytes :=
  sha3_384 (tls_public_key ++ account_public_key).

Definition ReportDataV1_to_bytes (r : ReportDataV1) : bytes :=
  let report_data := replicate REPORT_DATA_SIZE 0 in
  let report_data := copy_into report_data BINARY_VERSION_OFFSET
                       (ReportDataVersion_to_be_bytes V1) in
  copy_into report_data PUBLIC_KEYS_OFFSET
    (compute_public_keys_hash (rd_tls_public_key r) (rd_account_public_key r)).

Definition ReportDataV1_from_bytes (b : bytes) : bytes :=
  take PUBLIC_KEYS_HASH_SIZE (drop PUBLIC_KEYS_OFFSET b).

End report_data.

(** ** Attestations of MPC nodes ([mpc-attestation/src/attestation.rs]) *)

Definition MPC_IMAGE_HASH_EVENT : string := "mpc-image-digest".
Definition DEFAULT_EXPIRATION_DURATION_SECONDS : Z := 60 * 60 * 24 * 7.

Inductive MockAttestation : Type :=
  | MockValid
  | MockInvalid
  | MockWithConstraints (mpc_docker_image_hash : option MpcDockerImageHash)
      (launcher_docker_compose_hash : option LauncherDockerComposeHash)
      (expiry_timestamp_seconds : option Z).

Record ValidatedDstackAttestation : Type := mkValidatedDstackAttestation {
  vd_mpc_image_hash : MpcDockerImageHash;
  vd_launcher_compose_hash : LauncherDockerComposeHash;
  vd_expiry_timestamp_seconds : Z;
}.

Inductive VerifiedAttestation : Type :=
  | VerifiedDstack (a : ValidatedDstackAttestation)
  | VerifiedMock (m : MockAttestation).

Definition verify_mpc_hash (image_hash : MpcDockerImageHash)
    (allowed_hashes : list MpcDockerImageHash) : result VerificationError unit :=
  if bool_decide (allowed_hashes = [])
  then Err (Custom "the allowed mpc image hashes list is empty")
  else if negb (bool_decide (image_hash ∈ allowed_hashes))
  then Err (Custom "MPC image hash is not in the allowed hashes list")
  else Ok tt.

Definition verify_launcher_compose_hash (launcher_compose_hash : LauncherDockerComposeHash)
    (allowed_hashes : list LauncherDockerComposeHash) : result VerificationError unit :=
  if bool_decide (allowed_hashes = [])
  then Err (Custom "the allowed mpc launcher compose hashes list is empty")
  else if negb (bool_decide (launcher_compose_hash ∈ allowed_hashes))
  then Err (Custom "MPC launcher compose hash is not in the allowed hashes list")
  else Ok tt.

Definition verify_mock_attestation (m : MockAttestation)
    (allowed_mpc_docker_image_hashes : list MpcDockerImageHash)
    (allowed_launcher_docker_compose_hashes : list LauncherDockerComposeHash)
    (timestamp_seconds : Z) : result VerificationError unit :=
  match m with
  | MockValid => Ok tt
  | MockInvalid => Err InvalidMockAttestation
  | MockWithConstraints image launcher expiry =>
    _ ← match image with
        | None => Ok tt
        | Some hash =>
          if bool_decide (allowed_mpc_docker_image_hashes = [])
          then Err (Custom "the allowed mpc image hashes list is empty")
          else or_err (bool_decide (hash ∈ allowed_mpc_docker_image_hashes))
                 (Custom "MPC image hash is not in the allowed hashes list")
        end;
    _ ← match launcher with
        | None => Ok tt
        | Some hash =>
          if bool_decide (allowed_launcher_docker_compose_hashes = [])
          then Err (Custom "the allowed mpc launcher compose hashes list is empty")
          else or_err (bool_decide (hash ∈ allowed_launcher_docker_compose_hashes))
                 (Custom "launcher compose hash is not in the allowed hashes list")
        end;
    match expiry with
    | None => Ok tt
    | Some expiry_timestamp =>
      or_err (timestamp_seconds <? expiry_timestamp)
        (ExpiredCertificate timestamp_seconds expiry_timestamp)
    end
  end.

Definition VerifiedAttestation_re_verify (a : VerifiedAttestation) (timestamp_seconds : Z)
    (allowed_mpc_docker_image_hashes : list MpcDockerImageHash)
    (allowed_launcher_docker_compose_hashes : list LauncherDockerComposeHash) :
    result VerificationError unit :=
  match a with
  | VerifiedDstack (mkValidatedDstackAttestation mpc_image_hash launcher_compose_hash expiry) =>
    if expiry <? timestamp_seconds
    then Err (Custom "The attestation expired")
    else
      _ ← verify_mpc_hash mpc_image_hash allowed_mpc_docker_image_hashes;
      verify_launcher_compose_hash launcher_compose_hash
        allowed_launcher_docker_compose_hashes
  | VerifiedMock m =>
    verify_mock_attestation m allowed_mpc_docker_image_hashes
      allowed_launcher_docker_compose_hashes timestamp_seconds
  end.

Section mpc_attestation.
Context `{L : Libraries}.

(** [mpc_attestation::Attestation]. *)
Inductive MpcAttestation : Type :=
  | MpcDstack (a : DstackAttestation)
  | MpcMock (m : MockAttestation).

(** The image hash an attestation reports in its event log. *)
Definition reported_image_hash (t : TcbInfo) : result VerificationError MpcDockerImageHash :=
  e ← get_single_event t MPC_IMAGE_HASH_EVENT;
  match hex_decode (el_event_payload e) with
  | None => Err (Custom "provided mpc image is not hex encoded")
  | Some b =>
    if bool_decide (length b = 32%nat) then Ok b
    else Err (Custom "The provided MPC image hash is not 32 bytes")
  end.

Definition Attestation_verify (a : MpcAttestation) (expected_report_data : bytes)
    (current_timestamp_seconds : Z)
    (allowed_mpc_docker_image_hashes : list MpcDockerImageHash)
    (allowed_launcher_docker_compose_hashes : list LauncherDockerComposeHash)
    (accepted_measurements : list ExpectedMeasurements) :
    result VerificationError VerifiedAttestation :=
  match a with
  | MpcDstack d =>
    mpc_image_hash ← reported_image_hash (da_tcb_info d);
    _ ← verify_mpc_hash mpc_image_hash allowed_mpc_docker_image_hashes;
    launcher_compose_hash ←
      match app_compose_from_str (ti_app_compose (da_tcb_info d)) with
      | inl e => Err (AppComposeParsing e)
      | inr app_compose => Ok (sha256 (string_bytes (ac_docker_compose_file app_compose)))
      end;
    _ ← verify_launcher_compose_hash launcher_compose_hash
          allowed_launcher_docker_compose_hashes;
    _ ← DstackAttestation_verify d expected_report_data current_timestamp_seconds
          accepted_measurements;
    let expiration_timestamp_seconds :=
      u64_add current_timestamp_seconds DEFAULT_EXPIRATION_DURATION_SECONDS in
    Ok (VerifiedDstack (mkValidatedDstackAttestation mpc_image_hash launcher_compose_hash
          expiration_timestamp_seconds))
  | MpcMock m =>
    _ ← verify_mock_attestation m allowed_mpc_docker_image_hashes
          allowed_launcher_docker_compose_hashes current_timestamp_seconds;
    Ok (VerifiedMock m)
  end.

End mpc_attestation.
