(* ===== verification/AttestationProofs.v ===== *)
(** * What an accepted attestation guarantees

    The exact conditions under which a quote is accepted, the life of a stored
    attestation, and that the measured register RTMR3 determines the launcher
    configuration and the MPC image an attestation can claim. *)

From S2P Require Import Prelude Types Attestation.

Lemma or_err_Ok {E} b (e : E) : or_err b e = Ok tt ↔ b = true.
Proof. by destruct b. Qed.

Lemma bind_unit_Ok {E A} (m : result E unit) (k : result E A) a :
  (m ≫= λ _, k) = Ok a ↔ m = Ok tt ∧ k = Ok a.
Proof. rewrite bind_Ok. split; [intros ([] & ? & ?)|intros [? ?]; exists tt]; done. Qed.

Lemma is_ok_unit {E} (r : result E unit) : is_ok r = true ↔ r = Ok tt.
Proof. by destruct r as [[]| |]. Qed.

(** The RTMR3 events of a log with a given name. *)
Definition rtmr3_events (t : TcbInfo) : list EventLog :=
  filter (λ e, el_imr e = RTMR3_INDEX) (ti_event_log t).

Definition single_event (t : TcbInfo) (name : string) (e : EventLog) : Prop :=
  filter (λ e, el_event e = name ∧ el_imr e = RTMR3_INDEX) (ti_event_log t) = [e].

Lemma get_single_event_Ok t name e : get_single_event t name = Ok e ↔ single_event t name e.
Proof. unfold get_single_event, single_event. destruct (filter _ _) as [|x [|y l]]; naive_solver. Qed.

Lemma single_event_unique t name e e' :
  single_event t name e → e' ∈ rtmr3_events t → el_event e' = name → e' = e.
Proof.
  intros Hs [Hi Hin]%list_elem_of_filter Hn.
  assert (e' ∈ filter (λ e, el_event e = name ∧ el_imr e = RTMR3_INDEX) (ti_event_log t))
    as He by (by apply list_elem_of_filter).
  unfold single_event in Hs. rewrite Hs in He. by apply list_elem_of_singleton in He.
Qed.

Lemma single_event_in t name e :
  single_event t name e → e ∈ rtmr3_events t ∧ el_event e = name.
Proof.
  intros Hs. assert (e ∈ [e]) as He by set_solver. unfold single_event in Hs.
  rewrite <- Hs in He. apply list_elem_of_filter in He as [[? ?] ?].
  split; [|done]. by apply list_elem_of_filter.
Qed.

Section spec.
Context `{L : Libraries}.

Lemma compare_hashes_Ok name found expected :
  compare_hashes name found expected = Ok tt ↔ found = expected.
Proof. unfold compare_hashes. by rewrite or_err_Ok, bool_decide_eq_true. Qed.

(** ** The event log *)

(** The digest recorded for an event is that of its contents. *)
Definition event_measured (e : EventLog) : Prop :=
  el_event_type e = DSTACK_EVENT_TYPE ∧
  ∃ payload, hex_decode (el_event_payload e) = Some payload ∧
    el_digest e = event_digest (el_event_type e) (el_event e) payload.

(** RTMR3 after measuring the events in order. *)
Definition extend_rtmr (digest : bytes) (e : EventLog) : bytes :=
  sha384 (digest ++ el_digest e).
Definition measure (events : list EventLog) : bytes :=
  foldl extend_rtmr (replicate 48 0) events.

Lemma replay_rtmr3_Ok events digest d :
  replay_rtmr3 events digest = Ok d ↔
  (∀ e, e ∈ events → event_measured e) ∧ d = foldl extend_rtmr digest events.
Proof.
  revert digest. induction events as [|e events IH]; intros digest; simpl.
  { split; [intros [= <-]; set_solver|naive_solver]. }
  setoid_rewrite elem_of_cons. unfold event_measured.
  destruct (Z.eqb_spec (el_event_type e) DSTACK_EVENT_TYPE) as [Ht|Ht]; simpl;
    [|split; [done|naive_solver]].
  destruct (hex_decode (el_event_payload e)) as [p|] eqn:Hp; [|split; [done|naive_solver]].
  rewrite bind_unit_Ok, compare_hashes_Ok, IH. naive_solver.
Qed.

Lemma verify_event_log_Ok log d :
  verify_event_log_rtmr3 log d = Ok tt ↔
  (∀ e, e ∈ filter (λ e, el_imr e = RTMR3_INDEX) log → event_measured e) ∧
  measure (filter (λ e, el_imr e = RTMR3_INDEX) log) = d.
Proof.
  unfold verify_event_log_rtmr3. rewrite bind_Ok. split.
  - intros (x & [Hall ->]%replay_rtmr3_Ok & H%compare_hashes_Ok). done.
  - intros [Hall <-]. eexists. rewrite replay_rtmr3_Ok, compare_hashes_Ok. done.
Qed.

(** ** The whole quote *)

Record static_match (r : TDReport10) (t : TcbInfo) (m : ExpectedMeasurements) : Prop := {
  sm_report : mkMeasurements (td_mr_td r) (td_rt_mr0 r) (td_rt_mr1 r) (td_rt_mr2 r) = em_rtmrs m;
  sm_tcb : mkMeasurements (ti_mrtd t) (ti_rtmr0 t) (ti_rtmr1 t) (ti_rtmr2 t) = em_rtmrs m;
  sm_key_provider : ∃ e, single_event t KEY_PROVIDER_EVENT e ∧
    el_digest e = em_key_provider_event_digest m;
}.

Lemma verify_static_rtmrs_Ok r t m :
  verify_static_rtmrs r t m = Ok tt ↔
  mkMeasurements (td_mr_td r) (td_rt_mr0 r) (td_rt_mr1 r) (td_rt_mr2 r) = em_rtmrs m ∧
  mkMeasurements (ti_mrtd t) (ti_rtmr0 t) (ti_rtmr1 t) (ti_rtmr2 t) = em_rtmrs m.
Proof.
  unfold verify_static_rtmrs. rewrite !bind_unit_Ok, !compare_hashes_Ok.
  destruct (em_rtmrs m) as [m0 m1 m2 m3]. simpl. split.
  - intros (? & ? & ? & ? & ? & ? & ? & ?). split; congruence.
  - intros [[= -> -> -> ->] [= -> -> -> ->]]. auto 10.
Qed.

Lemma verify_any_measurements_Ok r t ms :
  verify_any_measurements r t ms = Ok tt ↔ ∃ m, m ∈ ms ∧ static_match r t m.
Proof.
  assert (Hm : ∀ m, is_ok (verify_static_rtmrs r t m) &&
    is_ok (verify_key_provider_digest t (em_key_provider_event_digest m)) = true ↔
    static_match r t m).
  { intros m. rewrite andb_true_iff, !is_ok_unit, verify_static_rtmrs_Ok.
    unfold verify_key_provider_digest. rewrite bind_Ok.
    setoid_rewrite get_single_event_Ok. setoid_rewrite compare_hashes_Ok.
    split; [intros [[? ?] ?]; by split|intros []; done]. }
  induction ms as [|m ms IH]; simpl; [set_solver|].
  destruct (_ && _) eqn:E; setoid_rewrite elem_of_cons.
  - apply Hm in E. split; [|done]. intros _. exists m. auto.
  - rewrite IH. assert (¬ static_match r t m) by (intros ?%Hm; congruence). naive_solver.
Qed.

(** What an accepted quote guarantees about the platform [r] and the event
    log [t]. *)
Record quote_accepted (r : TDReport10) (t : TcbInfo) (report_data : bytes)
    (ms : list ExpectedMeasurements) : Prop := {
  qa_report_data : td_report_data r = report_data;
  qa_rtmr3 : ti_rtmr3 t = td_rt_mr3 r;
  qa_measured : ∀ e, e ∈ rtmr3_events t → event_measured e;
  qa_replay : measure (rtmr3_events t) = td_rt_mr3 r;
  qa_config : ∃ a, app_compose_from_str (ti_app_compose t) = inr a ∧
    validate_app_compose_config a = true;
  qa_compose : ∃ e, single_event t COMPOSE_HASH_EVENT e ∧
    el_event_payload e = hex_encode (ti_compose_hash t) ∧
    length (sha256 (string_bytes (ti_app_compose t))) = 32%nat ∧
    hex_decode (el_event_payload e) = Some (sha256 (string_bytes (ti_app_compose t)));
  qa_static : ∃ m, m ∈ ms ∧ static_match r t m;
}.

Lemma validate_payload_Ok hex app_compose :
  validate_app_compose_payload hex app_compose = Ok tt ↔
  length (sha256 (string_bytes app_compose)) = 32%nat ∧
  hex_decode hex = Some (sha256 (string_bytes app_compose)).
Proof.
  unfold validate_app_compose_payload. destruct (hex_decode hex) as [b|]; [|naive_solver].
  case_bool_decide; [rewrite compare_hashes_Ok|]; naive_solver.
Qed.

Lemma verify_app_compose_Ok t :
  verify_app_compose t = Ok tt ↔
  (∃ a, app_compose_from_str (ti_app_compose t) = inr a ∧ validate_app_compose_config a = true) ∧
  ∃ e, single_event t COMPOSE_HASH_EVENT e ∧
    el_event_payload e = hex_encode (ti_compose_hash t) ∧
    length (sha256 (string_bytes (ti_app_compose t))) = 32%nat ∧
    hex_decode (el_event_payload e) = Some (sha256 (string_bytes (ti_app_compose t))).
Proof.
  unfold verify_app_compose. destruct (app_compose_from_str (ti_app_compose t)) as [|a];
    [naive_solver|].
  rewrite bind_unit_Ok, or_err_Ok, bind_Ok.
  assert (∀ e : EventLog, compare_hex_hashes "app_compose_event_hash" (el_event_payload e)
    (hex_encode (ti_compose_hash t)) = Ok tt ↔
    el_event_payload e = hex_encode (ti_compose_hash t)) as Hhex.
  { intros e. unfold compare_hex_hashes. by rewrite or_err_Ok, bool_decide_eq_true. }
  setoid_rewrite bind_unit_Ok. setoid_rewrite get_single_event_Ok.
  setoid_rewrite validate_payload_Ok. setoid_rewrite Hhex. naive_solver.
Qed.

Lemma DstackAttestation_verify_Ok a rd now ms :
  DstackAttestation_verify a rd now ms = Ok tt ↔
  ∃ v r, dcap_verify (da_quote a) (quote_collateral (da_collateral a)) now = inr v ∧ vr_report v = Some r ∧
    vr_status v = EXPECTED_QUOTE_STATUS ∧ vr_advisory_ids v = [] ∧
    quote_accepted r (da_tcb_info a) rd ms.
Proof.
  unfold DstackAttestation_verify. destruct (dcap_verify _ _ _) as [|v]; [naive_solver|].
  destruct (vr_report v) as [r|] eqn:Hr; [|naive_solver].
  rewrite !bind_unit_Ok. unfold verify_tcb_status, verify_report_data, verify_rtmr3.
  rewrite !bind_unit_Ok, !or_err_Ok, !bool_decide_eq_true, !compare_hashes_Ok,
    verify_event_log_Ok, verify_app_compose_Ok, verify_any_measurements_Ok.
  split.
  - intros ((? & ?) & ? & (? & ? & ?) & (? & ?) & ?). exists v, r.
    repeat (split; [done|]). by split.
  - intros (v' & r' & [= <-] & Hr' & ? & ? & []). rewrite Hr in Hr'. injection Hr' as <-. split_and!; done.
Qed.

End spec.

(** ** RTMR3 determines the measured configuration *)

(** A separator that occurs in neither prefix splits a list in one way. *)
Lemma split_at_separator {A} (x : A) l1 l2 k1 k2 :
  x ∉ l1 → x ∉ l2 → l1 ++ x :: k1 = l2 ++ x :: k2 → l1 = l2 ∧ k1 = k2.
Proof.
  revert l2. induction l1 as [|a l1 IH]; intros [|b l2] H1 H2 Heq; simpl in Heq.
  - by injection Heq as ->.
  - injection Heq as -> _. set_solver.
  - injection Heq as -> _. set_solver.
  - injection Heq as -> Heq. destruct (IH l2) as [-> ->]; [set_solver|set_solver|done|]. by subst.
Qed.

Section rtmr3.
Context `{L : Libraries} `{Laws : !LibraryLaws}.

(** *** What the verification of an event log hashes

    The input of the digest of an event, and the inputs of the successive values of the register. *)
Definition event_inputs (e : EventLog) : list bytes :=
  match hex_decode (el_event_payload e) with
  | Some payload => [u32_le_bytes (el_event_type e) ++ string_bytes ":" ++
      string_bytes (el_event e) ++ string_bytes ":" ++ payload]
  | None => []
  end.

Fixpoint register_inputs (digest : bytes) (events : list EventLog) : list bytes :=
  match events with
  | [] => []
  | e :: events => (digest ++ el_digest e) :: register_inputs (extend_rtmr digest e) events
  end.

Definition measured_inputs (events : list EventLog) : list bytes :=
  register_inputs (replicate 48 0) events ++ (events ≫= event_inputs).

(** Two different inputs, one of each list, with the same digest. *)
Definition collides (h : bytes → bytes) (xs ys : list bytes) : bool :=
  existsb (λ x, existsb (λ y, negb (bool_decide (x = y)) && bool_decide (h x = h y)) ys) xs.

(** SHA-384 fails on two logs: two different inputs of them collide, or one of the registers returns
    to its initial value. *)
Definition log_collision (l1 l2 : list EventLog) : bool :=
  collides sha384 (measured_inputs l1) (measured_inputs l2) ||
  existsb (λ x, bool_decide (sha384 x = replicate 48 0))
    (register_inputs (replicate 48 0) l1 ++ register_inputs (replicate 48 0) l2).

(** A hash function fails on what two attestations hash: SHA-384 on their event logs, or SHA-256 on
    their application configurations. *)
Definition hash_failure (t1 t2 : TcbInfo) : bool :=
  log_collision (rtmr3_events t1) (rtmr3_events t2) ||
  collides sha256 [string_bytes (ti_app_compose t1)] [string_bytes (ti_app_compose t2)].

Lemma collides_false h xs ys x y :
  collides h xs ys = false → x ∈ xs → y ∈ ys → h x = h y → x = y.
Proof.
  intros Hc Hx Hy Heq. destruct (decide (x = y)) as [|Hne]; [done|exfalso].
  assert (collides h xs ys = true); [|congruence].
  apply existsb_exists. exists x. split; [by apply list_elem_of_In|].
  apply existsb_exists. exists y. split; [by apply list_elem_of_In|].
  by rewrite bool_decide_eq_false_2, bool_decide_eq_true_2.
Qed.

(** Logs on which SHA-384 does not fail. *)
Record log_hashed (l1 l2 : list EventLog) : Prop := {
  lh_inj : ∀ x y, x ∈ measured_inputs l1 → y ∈ measured_inputs l2 → sha384 x = sha384 y → x = y;
  lh_start : ∀ x, x ∈ register_inputs (replicate 48 0) l1 ∨ x ∈ register_inputs (replicate 48 0) l2 →
    sha384 x ≠ replicate 48 0;
}.

Lemma log_collision_false l1 l2 : log_collision l1 l2 = false → log_hashed l1 l2.
Proof.
  intros [Hc Hs]%orb_false_iff. split.
  - intros x y. by apply collides_false.
  - intros x Hx%elem_of_app Heq.
    assert (existsb (λ x, bool_decide (sha384 x = replicate 48 0))
      (register_inputs (replicate 48 0) l1 ++ register_inputs (replicate 48 0) l2) = true); [|congruence].
    apply existsb_exists. exists x. by rewrite <- list_elem_of_In, bool_decide_eq_true_2.
Qed.

Lemma measure_snoc l e : measure (l ++ [e]) = sha384 (measure l ++ el_digest e).
Proof. unfold measure. by rewrite foldl_app. Qed.

Lemma measure_length l : length (measure l) = 48%nat.
Proof.
  induction l as [|e l _] using rev_ind; [done|]. rewrite measure_snoc. apply sha384_length.
Qed.

Lemma register_inputs_app d l1 l2 :
  register_inputs d (l1 ++ l2) = register_inputs d l1 ++ register_inputs (foldl extend_rtmr d l1) l2.
Proof. revert d. induction l1 as [|e l1 IH]; intros d; simpl; [done|]. by rewrite IH. Qed.

Lemma register_inputs_last l e :
  measure l ++ el_digest e ∈ register_inputs (replicate 48 0) (l ++ [e]).
Proof. rewrite register_inputs_app. apply elem_of_app. right. simpl. left. Qed.

Lemma measured_inputs_snoc x l e : x ∈ measured_inputs l → x ∈ measured_inputs (l ++ [e]).
Proof. unfold measured_inputs. rewrite register_inputs_app, bind_app, !elem_of_app. tauto. Qed.

Lemma log_hashed_init l1 e1 l2 e2 : log_hashed (l1 ++ [e1]) (l2 ++ [e2]) → log_hashed l1 l2.
Proof.
  intros [Hi Hs]. split.
  - intros x y Hx Hy. apply Hi; by apply measured_inputs_snoc.
  - intros x Hx. apply Hs. rewrite !register_inputs_app, !elem_of_app. tauto.
Qed.

(** The register determines the digests that were measured, in order. *)
Lemma measure_inj l1 l2 :
  log_hashed l1 l2 → measure l1 = measure l2 → el_digest <$> l1 = el_digest <$> l2.
Proof.
  revert l2. induction l1 as [|e1 l1 IH] using rev_ind; intros l2 Hh Heq.
  - destruct l2 as [|e2 l2 _] using rev_ind; [done|]. rewrite measure_snoc in Heq.
    edestruct (lh_start _ _ Hh); [|by symmetry]. right. apply register_inputs_last.
  - destruct l2 as [|e2 l2 _] using rev_ind.
    { rewrite measure_snoc in Heq. edestruct (lh_start _ _ Hh); [|done]. left. apply register_inputs_last. }
    rewrite !measure_snoc in Heq.
    apply (lh_inj _ _ Hh) in Heq; [|apply elem_of_app; left; apply register_inputs_last..].
    apply app_inj_1 in Heq as [Hm Hd]; [|by rewrite !measure_length].
    rewrite !fmap_app, (IH l2) by (done || by eapply log_hashed_init). simpl. by rewrite Hd.
Qed.

Lemma event_inputs_in l e p :
  e ∈ l → hex_decode (el_event_payload e) = Some p →
  u32_le_bytes (el_event_type e) ++ string_bytes ":" ++ string_bytes (el_event e) ++
    string_bytes ":" ++ p ∈ measured_inputs l.
Proof.
  intros He Hp. apply elem_of_app. right. apply list_elem_of_bind. exists e. split; [|done].
  unfold event_inputs. rewrite Hp. left.
Qed.

(** No name of a measured event contains the separator [:]. *)
Definition names_plain (t : TcbInfo) : Prop :=
  ∀ e, e ∈ rtmr3_events t → 58 ∉ string_bytes (el_event e).

(** Two logs with the same register agree on the payload of every event that
    is single in both, if the names of one log are plain. *)
Lemma single_event_payload t1 t2 name e1 e2 :
  log_hashed (rtmr3_events t1) (rtmr3_events t2) →
  measure (rtmr3_events t1) = measure (rtmr3_events t2) →
  (∀ e, e ∈ rtmr3_events t1 → event_measured e) →
  (∀ e, e ∈ rtmr3_events t2 → event_measured e) →
  names_plain t1 → 58 ∉ string_bytes name →
  single_event t1 name e1 → single_event t2 name e2 →
  hex_decode (el_event_payload e1) = hex_decode (el_event_payload e2).
Proof.
  intros Hh Hm Hev1 Hev2 Hplain Hname Hs1 Hs2.
  apply measure_inj in Hm as Hd; [|done].
  pose proof (single_event_in _ _ _ Hs2) as [Hin2 Hn2].
  pose proof Hin2 as [j Hj]%list_elem_of_lookup.
  pose proof (f_equal (λ l, l !! j) Hd) as Hdj. simpl in Hdj.
  rewrite !list_lookup_fmap, Hj in Hdj. simpl in Hdj.
  apply fmap_Some in Hdj as (e & He & Hdig).
  assert (e ∈ rtmr3_events t1) as Hin by (by eapply list_elem_of_lookup_2).
  destruct (Hev1 e Hin) as (Ht1 & p1 & Hp1 & Hd1).
  destruct (Hev2 e2 Hin2) as (Ht2 & p2 & Hp2 & Hd2).
  rewrite Hd1, Hd2 in Hdig. unfold event_digest in Hdig. symmetry in Hdig.
  apply (lh_inj _ _ Hh) in Hdig as Hpre; [|by apply (event_inputs_in _ _ p1)|by apply (event_inputs_in _ _ p2)].
  rewrite Ht1, Ht2 in Hpre. apply app_inv_head in Hpre. injection Hpre as Hpre.
  apply split_at_separator in Hpre as [Hne Hpe]; [|by apply Hplain|by rewrite Hn2].
  apply string_bytes_inj in Hne.
  assert (e = e1) as -> by (eapply single_event_unique; [done|done|congruence]).
  congruence.
Qed.

End rtmr3.

(** ** Attestations of MPC nodes *)

Section mpc.
Context `{L : Libraries}.

Lemma verify_mpc_hash_Ok h hs : verify_mpc_hash h hs = Ok tt ↔ h ∈ hs.
Proof.
  unfold verify_mpc_hash. case_bool_decide; [set_solver|]. by case_bool_decide.
Qed.

Lemma verify_launcher_compose_hash_Ok h hs : verify_launcher_compose_hash h hs = Ok tt ↔ h ∈ hs.
Proof.
  unfold verify_launcher_compose_hash. case_bool_decide; [set_solver|]. by case_bool_decide.
Qed.

Lemma reported_image_hash_Ok t h :
  reported_image_hash t = Ok h ↔ length h = 32%nat ∧
  ∃ e, single_event t MPC_IMAGE_HASH_EVENT e ∧ hex_decode (el_event_payload e) = Some h.
Proof.
  unfold reported_image_hash. rewrite bind_Ok. setoid_rewrite get_single_event_Ok. split.
  - intros (e & He & H). destruct (hex_decode (el_event_payload e)) eqn:E; [|done].
    case_bool_decide; [|done]. injection H as <-. eauto.
  - intros (Hlen & e & He & Hd). exists e. rewrite Hd. split; [done|].
    by rewrite bool_decide_eq_true_2.
Qed.

(** The image and launcher hashes a node reports. *)
Record claims (d : DstackAttestation) (image launcher : bytes) : Prop := {
  cl_image : reported_image_hash (da_tcb_info d) = Ok image;
  cl_launcher : ∃ a, app_compose_from_str (ti_app_compose (da_tcb_info d)) = inr a ∧
    launcher = sha256 (string_bytes (ac_docker_compose_file a));
}.

Lemma Attestation_verify_Dstack_Ok d rd now images launchers ms v :
  Attestation_verify (MpcDstack d) rd now images launchers ms = Ok v ↔
  ∃ image launcher, claims d image launcher ∧ image ∈ images ∧ launcher ∈ launchers ∧
    DstackAttestation_verify d rd now ms = Ok tt ∧
    v = VerifiedDstack (mkValidatedDstackAttestation image launcher
          (u64_add now DEFAULT_EXPIRATION_DURATION_SECONDS)).
Proof.
  cbn [Attestation_verify]. split.
  - intros (image & Hi & H)%bind_Ok. apply bind_unit_Ok in H as [?%verify_mpc_hash_Ok H].
    apply bind_Ok in H as (launcher & Hl & H).
    apply bind_unit_Ok in H as [?%verify_launcher_compose_hash_Ok H].
    apply bind_unit_Ok in H as [? [= <-]]. exists image, launcher.
    split; [|by split_and!]. split; [done|].
    destruct (app_compose_from_str _) as [|a] eqn:E; [done|]. injection Hl as <-. eauto.
  - intros (image & launcher & [? (a & Ha & ->)] & ? & ? & ? & ->).
    apply bind_Ok. exists image. split; [done|].
    apply bind_unit_Ok. split; [by apply verify_mpc_hash_Ok|].
    apply bind_Ok. eexists. rewrite Ha. split; [done|].
    apply bind_unit_Ok. split; [by apply verify_launcher_compose_hash_Ok|].
    by apply bind_unit_Ok.
Qed.

(** C28: a quote is accepted exactly when the quote verifies, the platform is up
    to date without advisories, the report data are the expected ones, RTMR3 is
    the measurement of the event log, whose events are measured correctly, the
    application configuration is the measured one and a secure one, and the
    static measurements are in the accepted list. *)
Theorem quote_acceptance a rd now ms :
  DstackAttestation_verify a rd now ms = Ok tt ↔
  ∃ v r, dcap_verify (da_quote a) (quote_collateral (da_collateral a)) now = inr v ∧ vr_report v = Some r ∧
    vr_status v = EXPECTED_QUOTE_STATUS ∧ vr_advisory_ids v = [] ∧
    quote_accepted r (da_tcb_info a) rd ms.
Proof. apply DstackAttestation_verify_Ok. Qed.

(** The life of an accepted attestation.  It is stored with the image and
    launcher hashes the node reported, both of them allowed, and passes
    re-verification exactly as long as seven days have not passed and both
    hashes are still allowed. *)
Theorem accepted_attestation_lifetime d rd now images launchers ms v :
  0 ≤ now → now + DEFAULT_EXPIRATION_DURATION_SECONDS ≤ u64_max →
  Attestation_verify (MpcDstack d) rd now images launchers ms = Ok v →
  ∃ image launcher, claims d image launcher ∧ image ∈ images ∧ launcher ∈ launchers ∧
    ∀ t images' launchers',
      VerifiedAttestation_re_verify v t images' launchers' = Ok tt ↔
      t ≤ now + DEFAULT_EXPIRATION_DURATION_SECONDS ∧ image ∈ images' ∧ launcher ∈ launchers'.
Proof.
  intros H0 Hmax (image & launcher & Hcl & Hi & Hl & _ & ->)%Attestation_verify_Dstack_Ok.
  exists image, launcher. split; [done|]. split; [done|]. split; [done|].
  intros t images' launchers'. simpl.
  rewrite u64_add_small by (unfold DEFAULT_EXPIRATION_DURATION_SECONDS in *; lia).
  destruct (Z.ltb_spec (now + DEFAULT_EXPIRATION_DURATION_SECONDS) t).
  - split; [done|]. intros [? _]. lia.
  - rewrite bind_unit_Ok, verify_mpc_hash_Ok, verify_launcher_compose_hash_Ok. naive_solver.
Qed.

Context `{Laws : !LibraryLaws}.

(** C32: RTMR3 determines what a node can claim.  If two accepted attestations
    report the same RTMR3 register, and no event name in the first log contains
    the separator, they report the same application configuration, the same
    image hash and the same launcher hash, unless a hash function fails on the
    very inputs that the verification of the two attestations hashes: two
    different inputs among them collide, or one of them takes a register back
    to its initial value. *)
Theorem rtmr3_determines_claims d1 rd1 now1 images1 launchers1 ms1 v1
    d2 rd2 now2 images2 launchers2 ms2 v2 :
  Attestation_verify (MpcDstack d1) rd1 now1 images1 launchers1 ms1 = Ok v1 →
  Attestation_verify (MpcDstack d2) rd2 now2 images2 launchers2 ms2 = Ok v2 →
  ti_rtmr3 (da_tcb_info d1) = ti_rtmr3 (da_tcb_info d2) →
  names_plain (da_tcb_info d1) →
  hash_failure (da_tcb_info d1) (da_tcb_info d2) = false →
  ti_app_compose (da_tcb_info d1) = ti_app_compose (da_tcb_info d2) ∧
  ∃ image launcher, claims d1 image launcher ∧ claims d2 image launcher.
Proof.
  intros (i1 & l1 & [Hi1 (a1 & Ha1 & ->)] & _ & _ & (w1 & r1 & _ & _ & _ & _ & Q1)
      %DstackAttestation_verify_Ok & _)%Attestation_verify_Dstack_Ok
    (i2 & l2 & [Hi2 (a2 & Ha2 & ->)] & _ & _ & (w2 & r2 & _ & _ & _ & _ & Q2)
      %DstackAttestation_verify_Ok & _)%Attestation_verify_Dstack_Ok Hr Hplain
    [Hlog%log_collision_false Happ]%orb_false_iff.
  assert (Hm : measure (rtmr3_events (da_tcb_info d1)) = measure (rtmr3_events (da_tcb_info d2))).
  { rewrite (qa_replay _ _ _ _ Q1), (qa_replay _ _ _ _ Q2).
    rewrite <- (qa_rtmr3 _ _ _ _ Q1), <- (qa_rtmr3 _ _ _ _ Q2). done. }
  pose proof Hi1 as (_ & e1 & Hs1 & Hd1)%reported_image_hash_Ok.
  pose proof Hi2 as (_ & e2 & Hs2 & Hd2)%reported_image_hash_Ok.
  destruct (qa_compose _ _ _ _ Q1) as (c1 & Hc1 & _ & _ & Hh1).
  destruct (qa_compose _ _ _ _ Q2) as (c2 & Hc2 & _ & _ & Hh2).
  pose proof (λ n, single_event_payload _ _ n e1 e2 Hlog Hm (qa_measured _ _ _ _ Q1)
    (qa_measured _ _ _ _ Q2) Hplain) as Hi.
  pose proof (λ n, single_event_payload _ _ n c1 c2 Hlog Hm (qa_measured _ _ _ _ Q1)
    (qa_measured _ _ _ _ Q2) Hplain) as Hc.
  specialize (Hi MPC_IMAGE_HASH_EVENT ltac:(by apply (bool_decide_eq_true_1 _)) Hs1 Hs2).
  specialize (Hc COMPOSE_HASH_EVENT ltac:(by apply (bool_decide_eq_true_1 _)) Hc1 Hc2).
  rewrite Hh1, Hh2 in Hc. injection Hc as Hc.
  apply (collides_false _ _ _ _ _ Happ) in Hc as Hc%string_bytes_inj; [|left..].
  split; [done|].
  assert (i1 = i2) as -> by congruence.
  assert (a1 = a2) as -> by congruence.
  exists i2, (sha256 (string_bytes (ac_docker_compose_file a2))).
  split; split; eauto.
Qed.

(** Report data bind both public keys.  The report data of a node are 64
    bytes from which the hash of its keys can be read back, and equal report
    data come from the same keys, unless SHA3-384 collides on the two pairs of keys. *)
Theorem report_data_binds_keys r1 r2 :
  length (ReportDataV1_to_bytes r1) = 64%nat ∧
  ReportDataV1_from_bytes (ReportDataV1_to_bytes r1) =
    compute_public_keys_hash (rd_tls_public_key r1) (rd_account_public_key r1) ∧
  (length (rd_tls_public_key r1) = length (rd_tls_public_key r2) →
   ReportDataV1_to_bytes r1 = ReportDataV1_to_bytes r2 →
   r1 = r2 ∨
   (rd_tls_public_key r1 ++ rd_account_public_key r1 ≠ rd_tls_public_key r2 ++ rd_account_public_key r2 ∧
    sha3_384 (rd_tls_public_key r1 ++ rd_account_public_key r1) =
    sha3_384 (rd_tls_public_key r2 ++ rd_account_public_key r2))).
Proof.
  assert (Hto : ∀ r, ReportDataV1_to_bytes r = [0; 1] ++
    compute_public_keys_hash (rd_tls_public_key r) (rd_account_public_key r) ++ replicate 14 0).
  { intros r. unfold ReportDataV1_to_bytes, copy_into, compute_public_keys_hash.
    by rewrite sha3_384_length. }
  assert (Hfrom : ∀ r, ReportDataV1_from_bytes (ReportDataV1_to_bytes r) =
    compute_public_keys_hash (rd_tls_public_key r) (rd_account_public_key r)).
  { intros r. rewrite Hto. unfold ReportDataV1_from_bytes. simpl drop.
    apply take_app_length'. symmetry. apply sha3_384_length. }
  split; [|split; [apply Hfrom|]].
  - rewrite Hto, !length_app. unfold compute_public_keys_hash. by rewrite sha3_384_length.
  - intros Hlen Heq%(f_equal ReportDataV1_from_bytes). rewrite !Hfrom in Heq.
    unfold compute_public_keys_hash in Heq.
    destruct (decide (rd_tls_public_key r1 ++ rd_account_public_key r1 =
      rd_tls_public_key r2 ++ rd_account_public_key r2)) as [Hk|]; [|by right].
    apply app_inj_1 in Hk as [? ?]; [|done]. left. destruct r1, r2. simpl in *. congruence.
Qed.

End mpc.

(** ** A concrete instance

    Functions of the right shape in place of the libraries, and an attestation
    they accept. *)

Definition string_of_bytes (b : bytes) : string :=
  String.string_of_list_ascii ((λ z, Ascii.ascii_of_N (Z.to_N z)) <$> b).

Definition sample_compose : AppCompose :=
  mkAppCompose 2 "mpc" "docker-compose" "services" false None (Some false) true true true None []
    true None None.

(** A digest of [n] bytes: the bytes of a polynomial in the input, modulo [2 ^ 64 - 59]. *)
Definition mix (n : nat) (b : bytes) : bytes :=
  let v := foldl (λ a x, (a * 257 + x + 1) mod 18446744073709551557) 7 b in
  (λ i, (v / 256 ^ Z.of_nat (i mod 8)) mod 256) <$> seq 0 n.

Definition sample_event (name payload : string) : EventLog :=
  mkEventLog RTMR3_INDEX DSTACK_EVENT_TYPE
    (mix 48 (u32_le_bytes DSTACK_EVENT_TYPE ++ string_bytes ":" ++ string_bytes name ++
             string_bytes ":" ++ string_bytes payload)) name payload.

Definition sample_app_compose : string := "{docker-compose: services}".
Definition sample_image : string := "fedcba9876543210fedcba9876543210".

Definition sample_log : list EventLog :=
  [sample_event COMPOSE_HASH_EVENT (string_of_bytes (mix 32 (string_bytes sample_app_compose)));
   sample_event MPC_IMAGE_HASH_EVENT sample_image;
   sample_event KEY_PROVIDER_EVENT "local"].

Definition sample_rtmr3 : bytes :=
  foldl (λ d e, mix 48 (d ++ el_digest e)) (replicate 48 0) sample_log.

Definition sample_libraries : Libraries := {|
  hex_encode := string_of_bytes;
  hex_decode := λ s, Some (string_bytes s);
  sha256 := mix 32;
  sha384 := mix 48;
  sha3_384 := mix 48;
  dcap_verify := λ q _ _,
    inr (mkVerifiedReport "UpToDate" [] (Some (mkTDReport10 q [] [] [] sample_rtmr3 [])));
  app_compose_from_str := λ _, inr sample_compose;
|}.

Lemma mix_length n b : length (mix n b) = n.
Proof. unfold mix. by rewrite length_fmap, length_seq. Qed.

Lemma sample_laws : @LibraryLaws sample_libraries.
Proof. split; intros b; apply mix_length. Qed.

Definition sample_tcb : TcbInfo :=
  mkTcbInfo [] [] [] [] sample_rtmr3 None (mix 32 (string_bytes sample_app_compose)) []
    sample_app_compose sample_log.

Definition sample_collateral : Collateral :=
  mkCollateral (mkQuoteCollateralV3 "crl chain" [1] [2] "tcb chain" "tcb" [3] "qe chain" "qe" [4] None).

Definition sample_attestation : DstackAttestation :=
  mkDstackAttestation [7] sample_collateral sample_tcb.

(** Another machine that runs the same: a different quote, device, operating system image and boot
    event. *)
Definition other_attestation : DstackAttestation :=
  mkDstackAttestation [8] sample_collateral
    (mkTcbInfo [] [] [] [] sample_rtmr3 (Some [5]) (mix 32 (string_bytes sample_app_compose)) [6]
       sample_app_compose (mkEventLog 0 DSTACK_EVENT_TYPE [9] "boot" "rom" :: sample_log)).

Definition sample_measurements : ExpectedMeasurements :=
  mkExpectedMeasurements (mkMeasurements [] [] [] [])
    (el_digest (sample_event KEY_PROVIDER_EVENT "local")).

Definition sample_launcher : bytes := mix 32 (string_bytes "services").

Definition sample_verified : VerifiedAttestation :=
  VerifiedDstack (mkValidatedDstackAttestation (string_bytes sample_image) sample_launcher 605800).

Lemma sample_attestation_accepted :
  @Attestation_verify sample_libraries (MpcDstack sample_attestation) [7] 1000
    [string_bytes sample_image] [sample_launcher] [sample_measurements] = Ok sample_verified.
Proof. vm_compute. reflexivity. Qed.

Lemma other_attestation_accepted :
  is_ok (@Attestation_verify sample_libraries (MpcDstack other_attestation) [8] 2000
    [string_bytes sample_image] [sample_launcher] [sample_measurements]) = true.
Proof. vm_compute. reflexivity. Qed.

Lemma accepted_attestation_lifetime_witness :
  ∃ image launcher, @claims sample_libraries sample_attestation image launcher ∧
    (VerifiedAttestation_re_verify sample_verified 605800 [image] [launcher] = Ok tt) ∧
    ¬ (VerifiedAttestation_re_verify sample_verified 605801 [image] [launcher] = Ok tt).
Proof.
  destruct (@accepted_attestation_lifetime sample_libraries sample_attestation [7] 1000
    [string_bytes sample_image] [sample_launcher] [sample_measurements] sample_verified
    ltac:(lia) ltac:(done) sample_attestation_accepted)
    as (image & launcher & Hc & _ & _ & Hlife).
  exists image, launcher. split; [exact Hc|]. split.
  - apply Hlife. split; [done|]. split; left.
  - intros [Ht _]%Hlife. unfold DEFAULT_EXPIRATION_DURATION_SECONDS in Ht. lia.
Defined.

Lemma sample_names_plain : names_plain sample_tcb.
Proof.
  intros e He. unfold rtmr3_events in He. apply list_elem_of_filter in He as [_ He].
  cbn [sample_tcb ti_event_log sample_log] in He.
  repeat (apply elem_of_cons in He as [->|He]; [by apply (bool_decide_eq_true_1 _)|]).
  by apply elem_of_nil in He.
Qed.

Lemma rtmr3_determines_claims_witness :
  sample_attestation ≠ other_attestation ∧
  ∃ image launcher, @claims sample_libraries sample_attestation image launcher ∧
    @claims sample_libraries other_attestation image launcher.
Proof.
  split; [discriminate|]. pose proof other_attestation_accepted as H.
  destruct (@Attestation_verify sample_libraries (MpcDstack other_attestation) [8] 2000
    [string_bytes sample_image] [sample_launcher] [sample_measurements]) as [v| |] eqn:E;
    [clear H|discriminate H..].
  apply (@rtmr3_determines_claims sample_libraries sample_laws sample_attestation [7] 1000 _ _ _ _
    other_attestation [8] 2000 _ _ _ _ sample_attestation_accepted E eq_refl sample_names_plain).
  vm_compute. reflexivity.
Defined.

Lemma report_data_binds_keys_witness :
  @ReportDataV1_from_bytes (@ReportDataV1_to_bytes sample_libraries (mkReportDataV1 [1] [2])) =
    @compute_public_keys_hash sample_libraries [1] [2].
Proof.
  exact (proj1 (proj2 (@report_data_binds_keys sample_libraries sample_laws
    (mkReportDataV1 [1] [2]) (mkReportDataV1 [3] [4])))).
Defined.
