(* ===== verification/Tee.v ===== *)
(** * TEE state of the contract ([tee/proposal.rs], [tee/tee_state.rs],
      [primitives/time.rs])

    The whitelist of image hashes with its grace period, the votes for new
    hashes, and the attestations stored for the nodes. *)

From S2P Require Import Prelude Types CryptoTypes Participants Attestation.

(** ** Time ([primitives/time.rs])

    A [Duration], and the time since the Unix epoch, in nanoseconds. *)

Definition NANOS : Z := 1000000000.
Abbreviation Duration := Z (only parsing).
Abbreviation Timestamp := Z (only parsing).

Definition Duration_from_secs (s : Z) : Duration := s * NANOS.

Definition Timestamp_now (env : Env) : Timestamp := block_timestamp env.

(** [Duration::checked_add] fails when the seconds exceed a [u64]. *)
Definition Timestamp_checked_add (t : Timestamp) (d : Duration) : option Timestamp :=
  if t + d <? 2 ^ 64 * NANOS then Some (t + d) else None.

(** Big-endian bytes of a [k]-byte unsigned integer, and back. *)
Fixpoint be_bytes (k : nat) (n : Z) : bytes :=
  match k with
  | O => []
  | S k => (n / 256 ^ Z.of_nat k) mod 256 :: be_bytes k n
  end.
Definition of_be_bytes (b : bytes) : Z := foldl (λ a x, a * 256 + x) 0 b.

Definition Timestamp_serialize (t : Timestamp) : bytes := be_bytes 8 (t / NANOS).
Definition Timestamp_deserialize (b : bytes) : Timestamp := Duration_from_secs (of_be_bytes b).

(** ** Allowed image hashes ([tee/proposal.rs]) *)

Record CodeHashesVotes : Type := mkCodeHashesVotes {
  code_votes : gmap Z MpcDockerImageHash;
}.

Definition CodeHashesVotes_count_votes (v : CodeHashesVotes) (proposal : MpcDockerImageHash) : Z :=
  zsize (filter (λ kv : Z * MpcDockerImageHash, kv.2 = proposal) (code_votes v)).

Definition CodeHashesVotes_vote (v : CodeHashesVotes) (proposal : MpcDockerImageHash)
    (participant : AuthenticatedParticipantId) : CodeHashesVotes * Z :=
  let v := mkCodeHashesVotes (<[participant := proposal]> (code_votes v)) in
  (v, CodeHashesVotes_count_votes v proposal).

Definition CodeHashesVotes_clear_votes (v : CodeHashesVotes) : CodeHashesVotes :=
  mkCodeHashesVotes ∅.

Record AllowedMpcDockerImage : Type := mkAllowedMpcDockerImage {
  am_image_hash : MpcDockerImageHash;
  am_docker_compose_hash : LauncherDockerComposeHash;
  am_added : Timestamp;
}.

Record AllowedDockerImageHashes : Type := mkAllowedDockerImageHashes {
  allowed_tee_proposals : list AllowedMpcDockerImage;
}.

(** Whether the grace period of an entry is over. *)
Definition grace_period_over (env : Env) (deadline : Duration) (e : AllowedMpcDockerImage) : bool :=
  match Timestamp_checked_add (am_added e) deadline with
  | None => true
  | Some grace_period_deadline => grace_period_deadline <? Timestamp_now env
  end.

Definition AllowedDockerImageHashes_valid_entries (env : Env) (a : AllowedDockerImageHashes)
    (tee_upgrade_deadline_duration : Duration) : list AllowedMpcDockerImage :=
  let cutoff_index := default 0%nat
    (rposition (grace_period_over env tee_upgrade_deadline_duration)
       (allowed_tee_proposals a)) in
  drop cutoff_index (allowed_tee_proposals a).

Definition AllowedDockerImageHashes_cleanup_expired_hashes (env : Env)
    (a : AllowedDockerImageHashes) (tee_upgrade_deadline_duration : Duration) :
    AllowedDockerImageHashes :=
  mkAllowedDockerImageHashes
    (AllowedDockerImageHashes_valid_entries env a tee_upgrade_deadline_duration).

Definition AllowedDockerImageHashes_get (env : Env) (a : AllowedDockerImageHashes)
    (tee_upgrade_deadline_duration : Duration) : list AllowedMpcDockerImage :=
  AllowedDockerImageHashes_valid_entries env a tee_upgrade_deadline_duration.

(** [Vec::remove] and [Vec::insert] at an index that is in range. *)
Definition vec_remove {A} (l : list A) (i : nat) : list A := take i l ++ drop (S i) l.
Definition vec_insert {A} (l : list A) (i : nat) (x : A) : list A := take i l ++ x :: drop i l.

(** [str::replace]: every occurrence of [pat], from left to right. *)
Fixpoint str_replace_loop (n : nat) (pat to s : string) : string :=
  match n with
  | O => s
  | S n =>
    if String.prefix pat s
    then String.append to
           (str_replace_loop n pat to
              (String.substring (String.length pat) (String.length s - String.length pat) s))
    else
      match s with
      | String.EmptyString => String.EmptyString
      | String.String c s => String.String c (str_replace_loop n pat to s)
      end
  end.
Definition str_replace (s pat to : string) : string :=
  str_replace_loop (S (String.length s)) pat to s.

(** The text of [contract/assets/launcher_docker_compose.yaml.template]. *)
Definition LAUNCHER_DOCKER_COMPOSE_YAML_TEMPLATE : string :=
"version: '3.8'

services:
  launcher:
    image: nearone/mpc-launcher@sha256:e28cb0425db06255fe5fc7aadb79534ac63c94c7a721f75c1af1e934d2eb0701

    container_name: launcher

    environment:
      - PLATFORM=TEE
      - DOCKER_CONTENT_TRUST=1
      - DEFAULT_IMAGE_DIGEST=sha256:{{DEFAULT_IMAGE_DIGEST_HASH}}

    volumes:
      - /var/run/docker.sock:/var/run/docker.sock
      - /var/run/dstack.sock:/var/run/dstack.sock
      - /tapp:/tapp:ro
      - shared-volume:/mnt/shared:ro

    security_opt:
      - no-new-privileges:true

    read_only: true

    tmpfs:
      - /tmp

volumes:
  shared-volume:
    name: shared-volume
".

Section images.
Context `{L : Libraries}.

Definition filled_template (h : MpcDockerImageHash) : string :=
  str_replace LAUNCHER_DOCKER_COMPOSE_YAML_TEMPLATE "{{DEFAULT_IMAGE_DIGEST_HASH}}" (hex_encode h).

Definition get_docker_compose_hash {E} (mpc_docker_image_hash : MpcDockerImageHash) :
    result E LauncherDockerComposeHash :=
  let hash := sha256 (string_bytes (filled_template mpc_docker_image_hash)) in
  if bool_decide (length hash = 32%nat) then Ok hash
  else Panic (PanicAssert "Docker compose hash must be 32 bytes long").

Definition AllowedDockerImageHashes_insert {E} (env : Env) (a : AllowedDockerImageHashes)
    (code_hash : MpcDockerImageHash) (tee_upgrade_deadline_duration : Duration) :
    result E AllowedDockerImageHashes :=
  let a := AllowedDockerImageHashes_cleanup_expired_hashes env a tee_upgrade_deadline_duration in
  let l :=
    match position (λ e, bool_decide (am_image_hash e = code_hash)) (allowed_tee_proposals a) with
    | Some pos => vec_remove (allowed_tee_proposals a) pos
    | None => allowed_tee_proposals a
    end in
  docker_compose_hash ← get_docker_compose_hash code_hash;
  let new_entry := mkAllowedMpcDockerImage code_hash docker_compose_hash (Timestamp_now env) in
  let insert_index :=
    default (length l) (rposition (λ e, am_added new_entry <? am_added e) l) in
  Ok (mkAllowedDockerImageHashes (vec_insert l insert_index new_entry)).

End images.

(** ** Stored attestations ([tee/tee_state.rs]) *)

Record NodeId : Type := mkNodeId {
  node_account_id : AccountId;
  node_tls_public_key : PublicKey;
  node_account_public_key : option PublicKey;
}.

Record NodeAttestation : Type := mkNodeAttestation {
  na_node_id : NodeId;
  na_verified_attestation : VerifiedAttestation;
}.

Inductive TeeQuoteStatus : Type := QuoteValid | QuoteInvalid (reason : VerificationError + string).
Inductive AttestationSubmissionError : Type :=
  | InvalidAttestation (e : VerificationError)
  | InvalidTlsKey.
Inductive ParticipantInsertion : Type :=
  | NewlyInsertedParticipant
  | UpdatedExistingParticipant.
Inductive TeeValidationResult : Type :=
  | Full
  | Partial (participants_with_valid_attestation : Participants).
Inductive AttestationCheckError : Type :=
  | CallerNotParticipant
  | AttestationNotFound
  | AttestationOwnerMismatch
  | AttestationKeyMismatch.

Record TeeState : Type := mkTeeState {
  ts_allowed_docker_image_hashes : AllowedDockerImageHashes;
  ts_allowed_launcher_compose_hashes : list LauncherDockerComposeHash;
  ts_votes : CodeHashesVotes;
  ts_stored_attestations : gmap PublicKey NodeAttestation;
}.

Definition TeeState_default : TeeState :=
  mkTeeState (mkAllowedDockerImageHashes []) [] (mkCodeHashesVotes ∅) ∅.

Definition set_stored_attestations (s : TeeState) (m : gmap PublicKey NodeAttestation) : TeeState :=
  mkTeeState (ts_allowed_docker_image_hashes s) (ts_allowed_launcher_compose_hashes s)
    (ts_votes s) m.

(** What is read back of a TEE state that was written to storage: every type is
    stored exactly but [Timestamp]. *)
Definition AllowedMpcDockerImage_stored (e : AllowedMpcDockerImage) : AllowedMpcDockerImage :=
  mkAllowedMpcDockerImage (am_image_hash e) (am_docker_compose_hash e)
    (Timestamp_deserialize (Timestamp_serialize (am_added e))).
Definition TeeState_stored (s : TeeState) : TeeState :=
  mkTeeState
    (mkAllowedDockerImageHashes
       (AllowedMpcDockerImage_stored <$> allowed_tee_proposals (ts_allowed_docker_image_hashes s)))
    (ts_allowed_launcher_compose_hashes s) (ts_votes s) (ts_stored_attestations s).

Definition mocked_attestations (l : list ParticipantEntry) : gmap PublicKey NodeAttestation :=
  foldl (λ m e, <[sign_pk (entry_info e) :=
      mkNodeAttestation (mkNodeId (entry_account e) (sign_pk (entry_info e)) None)
        (VerifiedMock MockValid)]> m) ∅ l.

Definition TeeState_with_mocked_participant_attestations (ps : Participants) : TeeState :=
  set_stored_attestations TeeState_default (mocked_attestations (participants ps)).

(** [env::block_timestamp_ms()] is the timestamp in whole milliseconds. *)
Definition TeeState_current_time_seconds (env : Env) : Z :=
  let current_time_milliseconds := block_timestamp env / 1000000 in
  current_time_milliseconds / 1000.

Definition TeeState_get_allowed_mpc_docker_images (env : Env) (s : TeeState)
    (tee_upgrade_deadline_duration : Duration) : list AllowedMpcDockerImage :=
  AllowedDockerImageHashes_get env (ts_allowed_docker_image_hashes s)
    tee_upgrade_deadline_duration.

Definition TeeState_get_allowed_mpc_docker_image_hashes (env : Env) (s : TeeState)
    (tee_upgrade_deadline_duration : Duration) : list MpcDockerImageHash :=
  am_image_hash <$> TeeState_get_allowed_mpc_docker_images env s tee_upgrade_deadline_duration.

Definition TeeState_find_node_id_by_tls_key (s : TeeState) (tls_public_key : PublicKey) :
    option NodeId :=
  na_node_id <$> ts_stored_attestations s !! tls_public_key.

Definition TeeState_reverify_participants (env : Env) (s : TeeState) (node_id : NodeId)
    (tee_upgrade_deadline_duration : Duration) : TeeQuoteStatus :=
  let allowed_mpc_docker_image_hashes :=
    TeeState_get_allowed_mpc_docker_image_hashes env s tee_upgrade_deadline_duration in
  match ts_stored_attestations s !! node_tls_public_key node_id with
  | None => QuoteInvalid (inr "participant has no attestation")
  | Some participant_attestation =>
    match VerifiedAttestation_re_verify (na_verified_attestation participant_attestation)
            (TeeState_current_time_seconds env) allowed_mpc_docker_image_hashes
            (ts_allowed_launcher_compose_hashes s) with
    | Ok _ => QuoteValid
    | Err err => QuoteInvalid (inl err)
    | Panic _ => QuoteInvalid (inr "unreachable")
    end
  end.

(** The filter of [reverify_and_cleanup_participants]. *)
Definition has_valid_attestation (env : Env) (s : TeeState)
    (tee_upgrade_deadline_duration : Duration) (e : ParticipantEntry) : bool :=
  let tls_public_key := sign_pk (entry_info e) in
  let maybe_node := TeeState_find_node_id_by_tls_key s tls_public_key in
  let node_id := mkNodeId (entry_account e) tls_public_key
                   (n ← maybe_node; node_account_public_key n) in
  match TeeState_reverify_participants env s node_id tee_upgrade_deadline_duration with
  | QuoteValid => true
  | QuoteInvalid _ => false
  end.

Definition TeeState_reverify_and_cleanup_participants (env : Env) (s : TeeState)
    (ps : Participants) (tee_upgrade_deadline_duration : Duration) :
    TeeState * TeeValidationResult :=
  let s := mkTeeState
    (AllowedDockerImageHashes_cleanup_expired_hashes env (ts_allowed_docker_image_hashes s)
       tee_upgrade_deadline_duration)
    (ts_allowed_launcher_compose_hashes s) (ts_votes s) (ts_stored_attestations s) in
  let participants_with_valid_attestation :=
    List.filter (has_valid_attestation env s tee_upgrade_deadline_duration) (participants ps) in
  if negb (zlen participants_with_valid_attestation =? Participants_len ps)
  then (s, Partial (Participants_init (next_id ps) participants_with_valid_attestation))
  else (s, Full).

Definition TeeState_vote (s : TeeState) (code_hash : MpcDockerImageHash)
    (participant : AuthenticatedParticipantId) : TeeState * Z :=
  let '(votes, n) := CodeHashesVotes_vote (ts_votes s) code_hash participant in
  (mkTeeState (ts_allowed_docker_image_hashes s) (ts_allowed_launcher_compose_hashes s)
     votes (ts_stored_attestations s), n).

Definition TeeState_clean_non_participants (s : TeeState) (ps : Participants) : TeeState :=
  let active_tls_keys : gset PublicKey :=
    list_to_set ((λ e, sign_pk (entry_info e)) <$> participants ps) in
  let stale_keys :=
    filter (λ k, k ∉ active_tls_keys) (fst <$> map_to_list (ts_stored_attestations s)) in
  set_stored_attestations s (foldl (λ m k, delete k m) (ts_stored_attestations s) stale_keys).

Definition TeeState_get_tee_accounts (s : TeeState) : list NodeId :=
  (λ kv, na_node_id kv.2) <$> map_to_list (ts_stored_attestations s).

Definition TeeState_is_caller_an_attested_participant (env : Env) (s : TeeState)
    (ps : Participants) : result AttestationCheckError unit :=
  let signer_pk := signer_account_pk env in
  let signer_id := signer_account_id env in
  info ← ok_or (Participants_info ps signer_id) CallerNotParticipant;
  attestation ← ok_or (ts_stored_attestations s !! sign_pk info) AttestationNotFound;
  if negb (bool_decide (node_account_id (na_node_id attestation) = signer_id))
  then Err AttestationOwnerMismatch
  else
    match node_account_public_key (na_node_id attestation) with
    | Some node_pk =>
      if negb (bool_decide (node_pk = signer_pk)) then Err AttestationKeyMismatch else Ok tt
    | None => Ok tt
    end.

Section state.
Context `{L : Libraries}.
(** The measurements compiled in from the assets of [mpc-attestation]. *)
Variable default_measurements : list ExpectedMeasurements.

Definition TeeState_add_participant (env : Env) (s : TeeState) (node_id : NodeId)
    (attestation : MpcAttestation) (tee_upgrade_deadline_duration : Duration) :
    result AttestationSubmissionError (TeeState * ParticipantInsertion) :=
  tls_public_key ← ok_or (ed25519_of_near_key (node_tls_public_key node_id)) InvalidTlsKey;
  let account_public_key := pk ← node_account_public_key node_id; ed25519_of_near_key pk in
  let account_key_bytes :=
    match account_public_key with Some pk => pk | None => replicate 32 0 end in
  let expected_report_data :=
    ReportDataV1_to_bytes (mkReportDataV1 tls_public_key account_key_bytes) in
  verified_attestation ←
    map_err InvalidAttestation
      (Attestation_verify attestation expected_report_data (TeeState_current_time_seconds env)
         (TeeState_get_allowed_mpc_docker_image_hashes env s tee_upgrade_deadline_duration)
         (ts_allowed_launcher_compose_hashes s) default_measurements);
  let tls_pk := node_tls_public_key node_id in
  let insertion := ts_stored_attestations s !! tls_pk in
  Ok (set_stored_attestations s
        (<[tls_pk := mkNodeAttestation node_id verified_attestation]> (ts_stored_attestations s)),
      match insertion with
      | Some _ => UpdatedExistingParticipant
      | None => NewlyInsertedParticipant
      end).

Definition TeeState_whitelist_tee_proposal {E} (env : Env) (s : TeeState)
    (tee_proposal : MpcDockerImageHash) (tee_upgrade_deadline_duration : Duration) :
    result E TeeState :=
  let votes := CodeHashesVotes_clear_votes (ts_votes s) in
  launcher ← get_docker_compose_hash tee_proposal;
  images ← AllowedDockerImageHashes_insert env (ts_allowed_docker_image_hashes s) tee_proposal
             tee_upgrade_deadline_duration;
  Ok (mkTeeState images (ts_allowed_launcher_compose_hashes s ++ [launcher]) votes
        (ts_stored_attestations s)).

End state.
