(* ===== verification/TeeProofs.v ===== *)
(** * Properties of the TEE state

    When an image hash expires, what whitelisting a hash does, which nodes pass
    re-verification, and what clean-up and the caller check guarantee. *)

From Stdlib Require Import Sorted.
From S2P Require Import Prelude Types CryptoTypes Participants Thresholds Samples Attestation.
From S2P Require Import AttestationProofs Tee.

(** ** Timestamps *)

Lemma of_be_bytes_acc l a :
  foldl (λ a x, a * 256 + x) a l = a * 256 ^ zlen l + of_be_bytes l.
Proof.
  unfold of_be_bytes. revert a. induction l as [|x l IH]; intros a.
  { rewrite zlen_nil. simpl. lia. }
  rewrite zlen_cons. cbn [foldl]. rewrite IH, (IH (0 * 256 + x)).
  pose proof (zlen_nonneg l). rewrite Z.pow_add_r by lia. lia.
Qed.

Lemma be_bytes_length k n : length (be_bytes k n) = k.
Proof. induction k; simpl; congruence. Qed.

Lemma of_be_bytes_be_bytes k n : of_be_bytes (be_bytes k n) = n mod 256 ^ Z.of_nat k.
Proof.
  induction k as [|k IH]; [by rewrite Z.mod_1_r|].
  cbn [be_bytes]. unfold of_be_bytes. cbn [foldl]. rewrite of_be_bytes_acc, IH.
  unfold zlen. rewrite be_bytes_length. rewrite Nat2Z.inj_succ, Z.pow_succ_r by lia.
  rewrite (Z.mul_comm 256), Z.rem_mul_r by lia. lia.
Qed.

(** A timestamp survives storage up to the second.  Storing writes the
    whole seconds, so reading back rounds down to a second, and the order of
    two timestamps is kept. *)
Theorem timestamp_storage t t' :
  0 ≤ t < 2 ^ 64 * NANOS → 0 ≤ t' < 2 ^ 64 * NANOS →
  Timestamp_deserialize (Timestamp_serialize t) = t - t mod NANOS ∧
  (t ≤ t' → Timestamp_deserialize (Timestamp_serialize t) ≤
            Timestamp_deserialize (Timestamp_serialize t')).
Proof.
  assert (H : ∀ t, 0 ≤ t < 2 ^ 64 * NANOS →
    Timestamp_deserialize (Timestamp_serialize t) = t - t mod NANOS).
  { clear. intros t Ht. unfold Timestamp_deserialize, Timestamp_serialize, Duration_from_secs.
    rewrite of_be_bytes_be_bytes, Z.mod_small.
    - pose proof (Z.div_mod t NANOS ltac:(done)). lia.
    - split; [apply Z.div_pos; done || lia|]. apply Z.div_lt_upper_bound; [done|].
      change (256 ^ Z.of_nat 8) with (2 ^ 64). lia. }
  intros Ht Ht'. rewrite !H by done. split; [done|]. intros Hle.
  pose proof (Z.div_mod t NANOS ltac:(done)). pose proof (Z.div_mod t' NANOS ltac:(done)).
  pose proof (Z.div_le_mono t t' NANOS ltac:(done) Hle). unfold NANOS in *. lia.
Qed.

Lemma timestamp_storage_witness :
  Timestamp_deserialize (Timestamp_serialize 1500000000) = 1000000000.
Proof.
  destruct (timestamp_storage 1500000000 1500000000 ltac:(done) ltac:(done)) as [-> _].
  reflexivity.
Defined.

Lemma Timestamp_stored_twice t :
  let stored t := Timestamp_deserialize (Timestamp_serialize t) in stored (stored t) = stored t.
Proof.
  cbv zeta. unfold Timestamp_deserialize, Timestamp_serialize, Duration_from_secs.
  rewrite !of_be_bytes_be_bytes, Z.div_mul by done. by rewrite Z.mod_mod by done.
Qed.

Lemma TeeState_stored_twice s : TeeState_stored (TeeState_stored s) = TeeState_stored s.
Proof.
  unfold TeeState_stored. cbn. do 2 f_equal. rewrite <- list_fmap_compose.
  apply list_fmap_ext. intros i e _. unfold AllowedMpcDockerImage_stored. cbn.
  f_equal. apply Timestamp_stored_twice.
Qed.

(** ** The whitelist *)

(** When an image hash stops being allowed.  The allowed entries are a
    suffix of the whitelist that is never empty when the whitelist is not, and
    an entry is left out exactly when the grace period of a later entry is
    over. *)
Theorem image_hash_expiry env a d :
  let l := allowed_tee_proposals a in
  ∃ n, AllowedDockerImageHashes_valid_entries env a d = drop n l ∧
    (l ≠ [] → (n < length l)%nat) ∧
    ∀ i, (i < n)%nat ↔
      ∃ j e, (i < j)%nat ∧ l !! j = Some e ∧ grace_period_over env d e = true.
Proof.
  intros l. unfold AllowedDockerImageHashes_valid_entries. fold l.
  exists (default 0%nat (rposition (grace_period_over env d) l)). split; [done|].
  destruct (rposition _ l) as [k|] eqn:E; simpl.
  - apply rposition_Some in E as [(x & Hx & Hp) Hlast]. split.
    + intros _. by eapply lookup_lt_Some.
    + intros i. split; [eauto 6|]. intros (j & e & Hij & He & Ho).
      destruct (decide (j ≤ k)%nat); [lia|]. rewrite (Hlast j e) in Ho by (done || lia). done.
  - split; [destruct l; simpl; [done|lia]|]. intros i. split; [lia|].
    intros (j & e & _ & He & Ho). rewrite rposition_None in E.
    rewrite E in Ho; [done|by eapply list_elem_of_lookup_2].
Qed.

(** The entries are in the order they were added, none in the future, each
    image once. *)
Record whitelist_ok (now : Timestamp) (l : list AllowedMpcDockerImage) : Prop := {
  wl_sorted : StronglySorted Z.le (am_added <$> l);
  wl_past : ∀ e, e ∈ l → am_added e ≤ now;
  wl_nodup : NoDup (am_image_hash <$> l);
}.

Lemma StronglySorted_sublist {A} (R : relation A) l k :
  l `sublist_of` k → StronglySorted R k → StronglySorted R l.
Proof.
  induction 1 as [|x l k Hs IH|x l k Hs IH]; intros H; [done| |].
  - apply StronglySorted_inv in H as [H Hf]. constructor; [auto|].
    rewrite Forall_forall in *. intros y Hy. apply Hf. by eapply elem_of_sublist.
  - apply StronglySorted_inv in H as [H _]. auto.
Qed.

Lemma whitelist_ok_sublist now l k : l `sublist_of` k → whitelist_ok now k → whitelist_ok now l.
Proof.
  intros Hs [H1 H2 H3]. split.
  - eapply StronglySorted_sublist; [by apply fmap_sublist|done].
  - intros e He. apply H2. by eapply elem_of_sublist.
  - eapply sublist_NoDup; [done|by apply fmap_sublist].
Qed.

Lemma vec_remove_filter (l : list AllowedMpcDockerImage) h :
  NoDup (am_image_hash <$> l) →
  match position (λ e, bool_decide (am_image_hash e = h)) l with
  | Some pos => vec_remove l pos
  | None => l
  end = filter (λ e, am_image_hash e ≠ h) l.
Proof.
  induction l as [|e l IH]; [done|]. rewrite fmap_cons. intros [Hni Hnd]%NoDup_cons. simpl.
  case_bool_decide as He.
  - unfold vec_remove. simpl. rewrite filter_cons_False by auto. subst h. symmetry.
    apply filter_all. intros x Hx Heq. apply Hni.
    apply list_elem_of_fmap. eauto.
  - rewrite filter_cons_True by done. rewrite <- IH by done.
    by destruct (position _ l).
Qed.

Lemma rposition_future now l :
  (∀ e, e ∈ l → am_added e ≤ now) → rposition (λ e, now <? am_added e) l = None.
Proof.
  intros Hp. apply rposition_None. intros e He. apply Z.ltb_ge. auto.
Qed.

Section images.
Context `{L : Libraries}.

Lemma insert_spec {E} env a h d c :
  whitelist_ok (Timestamp_now env) (allowed_tee_proposals a) →
  get_docker_compose_hash (E:=E) h = Ok c →
  AllowedDockerImageHashes_insert (E:=E) env a h d = Ok (mkAllowedDockerImageHashes
    (filter (λ e, am_image_hash e ≠ h) (AllowedDockerImageHashes_valid_entries env a d) ++
     [mkAllowedMpcDockerImage h c (Timestamp_now env)])).
Proof.
  intros Hwl Hc. unfold AllowedDockerImageHashes_insert.
  cbn [AllowedDockerImageHashes_cleanup_expired_hashes allowed_tee_proposals].
  assert (Hv : whitelist_ok (Timestamp_now env) (AllowedDockerImageHashes_valid_entries env a d)).
  { eapply whitelist_ok_sublist; [|done]. apply sublist_drop. }
  rewrite vec_remove_filter by apply Hv. rewrite Hc. cbn [mbind result_bind].
  cbn [am_added]. rewrite rposition_future.
  - simpl. do 2 f_equal. unfold vec_insert. by rewrite firstn_all, drop_all.
  - intros e [_ He]%list_elem_of_filter. by apply Hv.
Qed.

(** Whitelisting an image.  With a clock that does not run backwards, the
    new entry becomes the last one, older entries that are still allowed are
    kept in order, an older entry of the same image is replaced, and the
    whitelist stays ordered and free of duplicates. *)
Theorem whitelist_insert {E} env a h d c :
  whitelist_ok (Timestamp_now env) (allowed_tee_proposals a) →
  get_docker_compose_hash (E:=E) h = Ok c →
  ∃ a', AllowedDockerImageHashes_insert (E:=E) env a h d = Ok a' ∧
    allowed_tee_proposals a' =
      filter (λ e, am_image_hash e ≠ h) (AllowedDockerImageHashes_valid_entries env a d) ++
      [mkAllowedMpcDockerImage h c (Timestamp_now env)] ∧
    whitelist_ok (Timestamp_now env) (allowed_tee_proposals a').
Proof.
  intros Hwl Hc. eexists. split; [by apply insert_spec|]. split; [done|]. simpl.
  set (l := filter _ _).
  assert (Hl : whitelist_ok (Timestamp_now env) l).
  { eapply whitelist_ok_sublist; [|done]. unfold l. etrans; [apply sublist_filter|].
    apply sublist_drop. }
  destruct Hl as [Hs Hp Hn]. split.
  - rewrite fmap_app. simpl. clear -Hs Hp.
    assert (Forall (λ x, x ≤ Timestamp_now env) (am_added <$> l)) as Hf.
    { apply Forall_forall. intros x (e & -> & He)%list_elem_of_fmap. auto. }
    induction Hs as [|x k Hk IH Hx]; simpl; [repeat constructor|].
    apply Forall_cons in Hf as [? ?]. constructor; [auto|]. apply Forall_app. by repeat constructor.
  - intros e [He|He]%elem_of_app; [auto|]. apply list_elem_of_singleton in He. by subst.
  - rewrite fmap_app. simpl. apply NoDup_app. split; [done|]. split; [|apply NoDup_singleton].
    intros x (e & -> & [Hne _]%list_elem_of_filter)%list_elem_of_fmap Hx.
    by apply list_elem_of_singleton in Hx.
Qed.

(** The template around the image digest. *)
Definition template_head : string :=
  String.substring 0 278 LAUNCHER_DOCKER_COMPOSE_YAML_TEMPLATE.
Definition template_tail : string :=
  String.substring 307 322 LAUNCHER_DOCKER_COMPOSE_YAML_TEMPLATE.

Lemma filled_template_eq h :
  filled_template h = String.append template_head (String.append (hex_encode h) template_tail).
Proof. vm_compute. reflexivity. Qed.

Lemma string_bytes_app s s' :
  string_bytes (String.append s s') = string_bytes s ++ string_bytes s'.
Proof.
  unfold string_bytes. induction s as [|c s IH]; [done|].
  change (String.append (String.String c s) s') with (String.String c (String.append s s')).
  cbn [String.list_ascii_of_string]. by rewrite !fmap_cons, IH.
Qed.

Lemma get_docker_compose_hash_Ok {E} h c :
  get_docker_compose_hash (E:=E) h = Ok c → sha256 (string_bytes (filled_template h)) = c.
Proof.
  unfold get_docker_compose_hash. generalize (filled_template h). intros t H.
  case_bool_decide; [|done]. by injection H.
Qed.

(** The launcher hash identifies the image.  Two images with the same
    launcher compose hash have the same hexadecimal text, unless SHA-256
    collides on their two compose files. *)
Theorem launcher_hash_identifies_image {E} h1 h2 c :
  get_docker_compose_hash (E:=E) h1 = Ok c → get_docker_compose_hash (E:=E) h2 = Ok c →
  hex_encode h1 = hex_encode h2 ∨
  (filled_template h1 ≠ filled_template h2 ∧
   sha256 (string_bytes (filled_template h1)) = sha256 (string_bytes (filled_template h2))).
Proof.
  intros H1%get_docker_compose_hash_Ok H2%get_docker_compose_hash_Ok.
  destruct (decide (filled_template h1 = filled_template h2))
    as [Heq%(f_equal string_bytes)|Hne]; [|right; split; [exact Hne|by rewrite H1, H2]].
  left. rewrite !filled_template_eq, !string_bytes_app in Heq.
  apply app_inv_head, app_inv_tail in Heq. by apply string_bytes_inj.
Qed.

End images.

(** ** Which nodes are attested *)

Lemma reverify_valid env s n d :
  TeeState_reverify_participants env s n d = QuoteValid ↔
  ∃ a, ts_stored_attestations s !! node_tls_public_key n = Some a ∧
    VerifiedAttestation_re_verify (na_verified_attestation a) (TeeState_current_time_seconds env)
      (TeeState_get_allowed_mpc_docker_image_hashes env s d)
      (ts_allowed_launcher_compose_hashes s) = Ok tt.
Proof.
  unfold TeeState_reverify_participants.
  destruct (ts_stored_attestations s !! node_tls_public_key n) as [a|];
    [|split; [done|by intros (? & ? & _)]].
  destruct (VerifiedAttestation_re_verify _ _ _ _) as [[]| |] eqn:E; (split; [try done|]).
  - intros _. eauto.
  - done.
  - intros (a' & [= <-] & H). congruence.
  - intros (a' & [= <-] & H). congruence.
Qed.

(** Attestations that hold now, for the key a participant is registered with. *)
Definition attested (env : Env) (s : TeeState) (d : Duration) (e : ParticipantEntry) : Prop :=
  ∃ a, ts_stored_attestations s !! sign_pk (entry_info e) = Some a ∧
    VerifiedAttestation_re_verify (na_verified_attestation a) (TeeState_current_time_seconds env)
      (TeeState_get_allowed_mpc_docker_image_hashes env s d)
      (ts_allowed_launcher_compose_hashes s) = Ok tt.

Lemma has_valid_attestation_spec env s d e :
  has_valid_attestation env s d e = true ↔ attested env s d e.
Proof.
  unfold has_valid_attestation, attested.
  pose proof (reverify_valid env s (mkNodeId (entry_account e) (sign_pk (entry_info e))
    (n ← TeeState_find_node_id_by_tls_key s (sign_pk (entry_info e));
     node_account_public_key n)) d) as H. simpl in H.
  rewrite <- H. destruct (TeeState_reverify_participants _ _ _ _); naive_solver.
Qed.

Lemma drop_rposition_idem {A} (p : A → bool) l n :
  n = default 0%nat (rposition p l) →
  drop (default 0%nat (rposition p (drop n l))) (drop n l) = drop n l.
Proof.
  destruct (rposition p l) as [k|] eqn:E; intros ->; cbn [default option_rect from_option id];
    [|rewrite drop_0, E; done].
  apply rposition_Some in E as [_ Hlast].
  destruct (rposition p (drop k l)) as [j|] eqn:Ej; cbn [from_option]; [|by rewrite drop_0].
  apply rposition_Some in Ej as [(x & Hx & Hp) _]. rewrite lookup_drop in Hx.
  destruct j as [|j]; [done|]. rewrite (Hlast (k + S j)%nat x) in Hp; [done|lia|done].
Qed.

(** The state after the expired hashes are cleaned up. *)
Definition cleaned (env : Env) (s : TeeState) (d : Duration) : TeeState :=
  mkTeeState (AllowedDockerImageHashes_cleanup_expired_hashes env
      (ts_allowed_docker_image_hashes s) d)
    (ts_allowed_launcher_compose_hashes s) (ts_votes s) (ts_stored_attestations s).

Lemma cleaned_allowed env s d :
  TeeState_get_allowed_mpc_docker_image_hashes env (cleaned env s d) d =
  TeeState_get_allowed_mpc_docker_image_hashes env s d.
Proof.
  unfold TeeState_get_allowed_mpc_docker_image_hashes, TeeState_get_allowed_mpc_docker_images,
    AllowedDockerImageHashes_get. f_equal.
  unfold AllowedDockerImageHashes_valid_entries. simpl. by apply drop_rposition_idem.
Qed.

Lemma cleaned_attested env s d e : attested env (cleaned env s d) d e ↔ attested env s d e.
Proof. unfold attested. by rewrite cleaned_allowed. Qed.

Lemma List_filter_sublist {A} (p : A → bool) l : List.filter p l `sublist_of` l.
Proof. induction l as [|x l IH]; simpl; [done|]. destruct (p x); by constructor. Qed.

Lemma List_filter_elem {A} (p : A → bool) l x :
  x ∈ List.filter p l ↔ x ∈ l ∧ p x = true.
Proof. rewrite !list_elem_of_In. apply filter_In. Qed.

Lemma List_filter_full {A} (p : A → bool) l :
  length (List.filter p l) = length l ↔ ∀ x, x ∈ l → p x = true.
Proof.
  induction l as [|x l IH]; simpl; [set_solver|]. setoid_rewrite elem_of_cons.
  pose proof (sublist_length _ _ (List_filter_sublist p l)).
  destruct (p x) eqn:E; simpl.
  - rewrite Nat.succ_inj_wd, IH. naive_solver.
  - split; [lia|]. intros Hall. rewrite Hall in E; [done|auto].
Qed.

(** The outcome of re-verifying the participants. *)
Lemma reverify_and_cleanup_spec env s ps d s' r :
  TeeState_reverify_and_cleanup_participants env s ps d = (s', r) →
  s' = cleaned env s d ∧
  match r with
  | Full => ∀ e, e ∈ participants ps → attested env s d e
  | Partial ps' => next_id ps' = next_id ps ∧ participants ps' `sublist_of` participants ps ∧
      (∀ e, e ∈ participants ps' ↔ e ∈ participants ps ∧ attested env s d e) ∧
      ∃ e, e ∈ participants ps ∧ ¬ attested env s d e
  end.
Proof.
  unfold TeeState_reverify_and_cleanup_participants. fold (cleaned env s d).
  set (p := has_valid_attestation env (cleaned env s d) d).
  assert (Hp : ∀ e, p e = true ↔ attested env s d e).
  { intros e. unfold p. by rewrite has_valid_attestation_spec, cleaned_attested. }
  pose proof (List_filter_full p (participants ps)) as Hfull.
  unfold Participants_len, zlen. 
  destruct (Z.eqb_spec (Z.of_nat (length (List.filter p (participants ps))))
    (Z.of_nat (length (participants ps)))) as [Heq|Hne]; simpl; intros [= <- <-];
    (split; [done|]).
  - apply Nat2Z.inj in Heq. intros e He. by apply Hp, Hfull.
  - split; [done|]. split; [apply List_filter_sublist|]. split.
    + intros e. simpl. by rewrite List_filter_elem, Hp.
    + destruct (find (λ e, negb (p e)) (participants ps)) as [e|] eqn:E.
      * apply find_Some in E as [He Hn]. exists e. split; [done|]. intros Ha%Hp.
        by rewrite Ha in Hn.
      * exfalso. apply Hne. f_equal. apply Hfull. intros e He. rewrite find_None in E.
        by apply negb_false_iff, E.
Qed.

(** Re-verification of the participants.  Everyone passes ([Full]) or the
    participants that pass, and only those, are returned with the ids they had;
    either way the hashes that are allowed and the stored attestations do not
    change. *)
Theorem reverification_outcome env s ps d :
  let '(s', r) := TeeState_reverify_and_cleanup_participants env s ps d in
  ts_stored_attestations s' = ts_stored_attestations s ∧
  TeeState_get_allowed_mpc_docker_image_hashes env s' d =
    TeeState_get_allowed_mpc_docker_image_hashes env s d ∧
  match r with
  | Full => ∀ e, e ∈ participants ps → attested env s d e
  | Partial ps' => next_id ps' = next_id ps ∧
      (∀ e, e ∈ participants ps' ↔ e ∈ participants ps ∧ attested env s d e) ∧
      ∃ e, e ∈ participants ps ∧ ¬ attested env s d e
  end.
Proof.
  destruct (TeeState_reverify_and_cleanup_participants env s ps d) as [s' r] eqn:E.
  apply reverify_and_cleanup_spec in E as [-> Hr]. split; [done|]. split; [apply cleaned_allowed|].
  destruct r; [done|]. naive_solver.
Qed.

Lemma foldl_delete_lookup {A} (l : list PublicKey) (m : gmap PublicKey A) k :
  foldl (λ m k, delete k m) m l !! k = if decide (k ∈ l) then None else m !! k.
Proof.
  revert m. induction l as [|x l IH]; intros m; cbn [foldl].
  { rewrite decide_False by apply not_elem_of_nil. done. }
  rewrite IH. destruct (decide (k ∈ l)) as [Hk|Hk].
  - rewrite decide_True by set_solver. done.
  - destruct (decide (k = x)) as [->|Hne].
    + rewrite decide_True by set_solver. apply lookup_delete_eq.
    + rewrite decide_False by set_solver. by rewrite lookup_delete_ne.
Qed.

(** Clean-up after a resharing keeps the attestation of a key exactly when
    a participant is registered with that key. *)
Theorem clean_non_participants_spec s ps k :
  ts_stored_attestations (TeeState_clean_non_participants s ps) !! k =
  if decide (k ∈ (λ e, sign_pk (entry_info e)) <$> participants ps)
  then ts_stored_attestations s !! k else None.
Proof.
  unfold TeeState_clean_non_participants. simpl. rewrite foldl_delete_lookup.
  set (keys := (λ e, sign_pk (entry_info e)) <$> participants ps).
  assert (Hst : k ∈ filter (λ k, k ∉ (list_to_set keys : gset PublicKey))
    (fst <$> map_to_list (ts_stored_attestations s)) ↔
    (k ∉ keys) ∧ is_Some (ts_stored_attestations s !! k)).
  { rewrite list_elem_of_filter, elem_of_list_to_set. apply and_iff_compat_l.
    rewrite list_elem_of_fmap. split.
    - intros ([k' a] & -> & Ha%elem_of_map_to_list). by eexists.
    - intros [a Ha]. exists (k, a). split; [done|]. by apply elem_of_map_to_list. }
  destruct (decide (k ∈ keys)) as [Hk|Hk].
  - rewrite decide_False; [done|]. intros [? _]%Hst. done.
  - destruct (decide (k ∈ filter _ _)) as [|Hns]; [done|].
    apply eq_None_not_Some. intros Hs. apply Hns, Hst. done.
Qed.

(** Who passes the caller check.  The signer is accepted exactly when it is
    a participant whose registered TLS key has a stored attestation that belongs
    to its account and, if it names an account key, to the key that signed. *)
Theorem attested_caller env s ps :
  TeeState_is_caller_an_attested_participant env s ps = Ok tt ↔
  ∃ info a, Participants_info ps (signer_account_id env) = Some info ∧
    ts_stored_attestations s !! sign_pk info = Some a ∧
    node_account_id (na_node_id a) = signer_account_id env ∧
    ∀ pk, node_account_public_key (na_node_id a) = Some pk → pk = signer_account_pk env.
Proof.
  unfold TeeState_is_caller_an_attested_participant. rewrite bind_Ok.
  setoid_rewrite ok_or_Ok. setoid_rewrite bind_Ok. setoid_rewrite ok_or_Ok.
  split.
  - intros (info & Hi & a & Ha & H). exists info, a. split; [done|]. split; [done|].
    case_bool_decide as Hacc; [|done]. split; [done|].
    intros pk Hpk. rewrite Hpk in H. simpl in H. by case_bool_decide.
  - intros (info & a & Hi & Ha & Hacc & Hpk). exists info. split; [done|]. exists a.
    split; [done|]. rewrite bool_decide_eq_true_2 by done. simpl.
    destruct (node_account_public_key _) as [pk|]; [|done].
    by rewrite bool_decide_eq_true_2 by auto.
Qed.

(** ** Examples *)

Definition sample_whitelist : AllowedDockerImageHashes :=
  mkAllowedDockerImageHashes
    [mkAllowedMpcDockerImage [1] [] 0; mkAllowedMpcDockerImage [2] [] (5 * NANOS)].

Lemma sample_whitelist_ok : whitelist_ok (20 * NANOS) (allowed_tee_proposals sample_whitelist).
Proof.
  split.
  - repeat constructor; done.
  - intros e. simpl. rewrite !elem_of_cons, elem_of_nil. intros [->|[->|[]]]; done.
  - by apply (bool_decide_eq_true_1 _).
Qed.

(** Image 2 is enforced since second 15: image 1 is dropped and image 3 joins. *)
Lemma whitelist_insert_witness :
  ∃ a', AllowedDockerImageHashes_insert (L:=sample_libraries) (E:=unit) (call_by "alice" 20)
      sample_whitelist [3] (10 * NANOS) = Ok a' ∧
    am_image_hash <$> allowed_tee_proposals a' = [[2]; [3]].
Proof.
  destruct (whitelist_insert (L:=sample_libraries) (E:=unit) (call_by "alice" 20) sample_whitelist
    [3] (10 * NANOS) (mix 32 (string_bytes (filled_template (L:=sample_libraries) [3])))
    sample_whitelist_ok ltac:(vm_compute; reflexivity)) as (a' & H & Heq & _).
  exists a'. split; [exact H|]. rewrite Heq. vm_compute. reflexivity.
Defined.

Lemma launcher_hash_identifies_image_witness :
  hex_encode (Libraries:=sample_libraries) [3] = hex_encode (Libraries:=sample_libraries) [3] ∨
  (filled_template (L:=sample_libraries) [3] ≠ filled_template (L:=sample_libraries) [3] ∧
   sha256 (Libraries:=sample_libraries) (string_bytes (filled_template (L:=sample_libraries) [3])) =
   sha256 (Libraries:=sample_libraries) (string_bytes (filled_template (L:=sample_libraries) [3]))).
Proof.
  apply (launcher_hash_identifies_image (L:=sample_libraries) (E:=unit) [3] [3]
    (mix 32 (string_bytes (filled_template (L:=sample_libraries) [3])))); vm_compute; reflexivity.
Defined.
