(* ===== verification/Update.v ===== *)
(** * Contract and configuration updates ([update.rs])

    Participants propose an update (new code or a new configuration) and vote
    for it; the handler [vote_update] runs the update with [do_update] once a
    threshold of the current participants voted for it.  [IterableMap]s are
    finite maps: nothing depends on their order.  The JSON encoding of a
    configuration, the sizes of two types on wasm32, the price of storage and
    the unit of gas are parameters. *)

From S2P Require Import Prelude Types Participants Config Attestation.

Abbreviation UpdateId := Z (only parsing).

Inductive Update : Type :=
  | UContract (code : bytes)
  | UConfig (config : DtoConfig).

#[global] Instance Update_eq_dec : EqDecision Update.
Proof. solve_decision. Defined.

Record ProposeUpdateArgs : Type := mkProposeUpdateArgs {
  pa_code : option bytes;
  pa_config : option DtoConfig;
}.

Record UpdateEntry : Type := mkUpdateEntry {
  ue_update : Update;
  ue_bytes_used : Z;
}.

Record ProposedUpdates : Type := mkProposedUpdates {
  vote_by_participant : gmap string UpdateId;
  entries : gmap Z UpdateEntry;
  pu_id : UpdateId;
}.

(** [dtos::UpdateHash]. *)
Inductive UpdateHash : Type :=
  | HCode (h : bytes)
  | HConfig (h : bytes).

Record UpdateVotes : Type := mkUpdateVotes {
  uv_votes : gmap string UpdateId;
  uv_updates : gmap Z UpdateHash;
}.

(** The promise [do_update] creates on the contract's own account. *)
Inductive UpdateAction : Type :=
  | DeployAndMigrate (code : bytes) (gas : Z)
  | CallUpdateConfig (config : DtoConfig) (gas : Z).

#[global] Instance UpdateAction_eq_dec : EqDecision UpdateAction.
Proof. solve_decision. Defined.

Class UpdateHost : Type := {
  config_json : DtoConfig → bytes;
  size_of_update_entry : Z;
  size_of_account_id : Z;
  storage_byte_cost : Z;
  gas_from_tgas : Z → Z;
}.

(** ** Operations *)

(** [UpdateId::generate]: the counter after the call, and the id handed out. *)
Definition UpdateId_generate (self : UpdateId) : UpdateId * UpdateId := (u64_add self 1, self).

(** [TryFrom<ProposeUpdateArgs> for Update]. *)
Definition Update_try_from (a : ProposeUpdateArgs) : result Error Update :=
  match pa_code a, pa_config a with
  | Some contract, None => Ok (UContract contract)
  | None, Some config => Ok (UConfig config)
  | _, _ => Err (EConversionError DataConversion)
  end.

Definition ProposedUpdates_default : ProposedUpdates := mkProposedUpdates ∅ ∅ 0.

Definition ProposedUpdates_remove_vote (p : ProposedUpdates) (voter : AccountId) : ProposedUpdates :=
  mkProposedUpdates (delete voter (vote_by_participant p)) (entries p) (pu_id p).

Definition ProposedUpdates_vote (p : ProposedUpdates) (id : UpdateId) (voter : AccountId) :
    option ProposedUpdates :=
  let p := ProposedUpdates_remove_vote p voter in
  if bool_decide (is_Some (entries p !! id)) then
    Some (mkProposedUpdates (<[voter := id]> (vote_by_participant p)) (entries p) (pu_id p))
  else None.

Definition ProposedUpdates_remove_votes (p : ProposedUpdates) (accounts : list AccountId) :
    ProposedUpdates :=
  foldl ProposedUpdates_remove_vote p accounts.

Definition ProposedUpdates_remove_non_participant_votes (p : ProposedUpdates)
    (ps : Participants) : ProposedUpdates :=
  let non_participants :=
    filter (λ voter, negb (Participants_is_participant_given_account_id ps voter))
      (elements (dom (vote_by_participant p))) in
  ProposedUpdates_remove_votes p non_participants.

Section Host.
Context `{UpdateHost}.

Definition bytes_used (update : Update) : Z :=
  let bytes_used := size_of_update_entry + 128 * size_of_account_id in
  match update with
  | UContract code => bytes_used + zlen code
  | UConfig config => bytes_used + zlen (config_json config)
  end.

(** [NearToken::saturating_mul]. *)
Definition required_deposit (bytes_used : Z) : Z := Z.min (storage_byte_cost * bytes_used) u128_max.

Definition ProposedUpdates_required_deposit (update : Update) : Z :=
  required_deposit (bytes_used update).

Definition ProposedUpdates_propose (p : ProposedUpdates) (update : Update) :
    ProposedUpdates * UpdateId :=
  let bytes_used := bytes_used update in
  let '(next, id) := UpdateId_generate (pu_id p) in
  (mkProposedUpdates (vote_by_participant p)
     (<[id := mkUpdateEntry update bytes_used]> (entries p)) next, id).

Definition ProposedUpdates_do_update (p : ProposedUpdates) (id : UpdateId) (gas : Z) :
    option (ProposedUpdates * UpdateAction) :=
  match entries p !! id with
  | None => None
  | Some entry =>
      let p := mkProposedUpdates ∅ ∅ (pu_id p) in
      let action :=
        match ue_update entry with
        | UContract code => DeployAndMigrate code gas
        | UConfig config =>
            let new_config_gas_value :=
              gas_from_tgas (dto_contract_upgrade_deposit_tera_gas config) in
            CallUpdateConfig config new_config_gas_value
        end in
      Some (p, action)
  end.

Context `{Libraries}.

(** [IntoInterfaceType<UpdateHash> for &Update]. *)
Definition UpdateHash_of (u : Update) : UpdateHash :=
  match u with
  | UContract code => HCode (sha256 code)
  | UConfig config => HConfig (sha256 (config_json config))
  end.

Definition ProposedUpdates_all_updates (p : ProposedUpdates) : UpdateVotes :=
  mkUpdateVotes (vote_by_participant p) ((λ e, UpdateHash_of (ue_update e)) <$> entries p).

End Host.

(** ** Lemmas *)

Lemma remove_votes_spec l p :
  ProposedUpdates_remove_votes p l =
  mkProposedUpdates (filter (λ v, v.1 ∉ l) (vote_by_participant p)) (entries p) (pu_id p).
Proof.
  revert p. induction l as [|a l IH]; intros p; unfold ProposedUpdates_remove_votes in *; simpl.
  - rewrite map_filter_id; [by destruct p|]. intros. simpl. set_solver.
  - rewrite IH. simpl. f_equal. apply map_eq. intros i. apply option_eq. intros x.
    rewrite !map_lookup_filter_Some, lookup_delete_Some. simpl. set_solver.
Qed.

Lemma remove_non_participant_votes_spec p ps a :
  vote_by_participant (ProposedUpdates_remove_non_participant_votes p ps) !! a =
  if Participants_is_participant_given_account_id ps a then vote_by_participant p !! a else None.
Proof.
  unfold ProposedUpdates_remove_non_participant_votes. rewrite remove_votes_spec. simpl.
  apply option_eq. intros x. rewrite map_lookup_filter_Some. simpl.
  rewrite list_elem_of_filter, elem_of_elements, elem_of_dom.
  destruct (Participants_is_participant_given_account_id ps a); simpl; split;
    [by intros []|intros Hx; split; [done|by intros []]| |done].
  intros [Hx Hn]. destruct Hn. split; [done|by eexists].
Qed.

Section Votes.
Context `{UpdateHost}.

(** A call on the proposals, as the handlers make them. *)
Inductive UpdateCall : Type :=
  | CPropose (u : Update)
  | CVote (id : UpdateId) (voter : AccountId)
  | CRemoveVote (voter : AccountId)
  | CRemoveNonParticipants (ps : Participants)
  | CDoUpdate (id : UpdateId) (gas : Z).

Definition update_call (p : ProposedUpdates) (c : UpdateCall) : option ProposedUpdates :=
  match c with
  | CPropose u => Some (ProposedUpdates_propose p u).1
  | CVote id voter => ProposedUpdates_vote p id voter
  | CRemoveVote voter => Some (ProposedUpdates_remove_vote p voter)
  | CRemoveNonParticipants ps => Some (ProposedUpdates_remove_non_participant_votes p ps)
  | CDoUpdate id gas => fst <$> ProposedUpdates_do_update p id gas
  end.

(** The calls that succeeded, latest last. *)
Inductive update_run : list UpdateCall → ProposedUpdates → Prop :=
  | update_run_nil : update_run [] ProposedUpdates_default
  | update_run_snoc log p c p' :
      update_run log p → update_call p c = Some p' → update_run (log ++ [c]) p'.

Definition update_replay (log : list UpdateCall) : option ProposedUpdates :=
  foldl (λ o c, o ≫= λ p, update_call p c) (Some ProposedUpdates_default) log.

Lemma update_replay_run log p : update_replay log = Some p → update_run log p.
Proof.
  revert p. induction log as [|c log IH] using rev_ind; intros p; unfold update_replay.
  - intros [= <-]. constructor.
  - rewrite foldl_app. cbn [foldl]. intros (q & Hq & Hc)%bind_Some.
    econstructor; [by apply IH|done].
Qed.

Definition proposals (log : list UpdateCall) : list Update :=
  omap (λ c, match c with CPropose u => Some u | _ => None end) log.

(** What running an update does. *)
Definition action_of (u : Update) (gas : Z) : UpdateAction :=
  match u with
  | UContract code => DeployAndMigrate code gas
  | UConfig config =>
      CallUpdateConfig config (gas_from_tgas (dto_contract_upgrade_deposit_tera_gas config))
  end.

Record updates_ok (log : list UpdateCall) (p : ProposedUpdates) : Prop := {
  uo_id : pu_id p = zlen (proposals log);
  uo_entries : ∀ id e, entries p !! id = Some e →
    0 ≤ id ∧ proposals log !! Z.to_nat id = Some (ue_update e);
  uo_votes : ∀ a id, vote_by_participant p !! a = Some id →
    is_Some (entries p !! id) ∧ CVote id a ∈ log;
}.

Lemma proposals_snoc log c :
  proposals (log ++ [c]) =
  proposals log ++ match c with CPropose u => [u] | _ => [] end.
Proof. unfold proposals. rewrite omap_app. f_equal. by destruct c. Qed.

Lemma propose_updates_ok log p u :
  updates_ok log p → zlen (proposals log) < u64_max →
  updates_ok (log ++ [CPropose u]) (ProposedUpdates_propose p u).1.
Proof.
  intros [Hid He Hv] Hmax. pose proof (Zle_0_nat (length (proposals log))) as Hnn.
  unfold zlen in *. constructor; simpl.
  - rewrite proposals_snoc. unfold zlen. rewrite length_app. simpl.
    rewrite u64_add_small by lia. lia.
  - intros id e Hl. rewrite proposals_snoc. apply lookup_insert_Some in Hl as [[<- <-]|[Hne Hl]].
    + split; [lia|]. rewrite Hid, Nat2Z.id. simpl. apply list_lookup_middle. done.
    + destruct (He id e Hl) as [H0 Hp]. split; [done|]. by apply lookup_app_l_Some.
  - intros a id Ha. destruct (Hv a id Ha) as [Hs Hc]. split; [|set_solver].
    apply lookup_insert_is_Some. destruct (decide (pu_id p = id)); [by left|by right].
Qed.

(** Calls that add no proposal and no vote keep a sub-map of the votes. *)
Lemma shrink_updates_ok log p p' c :
  (∀ u, c ≠ CPropose u) → updates_ok log p →
  pu_id p' = pu_id p → entries p' = entries p →
  vote_by_participant p' ⊆ vote_by_participant p → updates_ok (log ++ [c]) p'.
Proof.
  intros Hc [Hid He Hv] Hi Heq Hs.
  assert (proposals (log ++ [c]) = proposals log) as Hp
    by (rewrite proposals_snoc; destruct c as [u| | | |]; [by destruct (Hc u)|by rewrite app_nil_r..]).
  constructor; rewrite ?Hp, ?Hi, ?Heq; [done..|].
  intros a id Ha. destruct (Hv a id) as [? ?]; [by eapply lookup_weaken|]. set_solver.
Qed.

Lemma update_run_ok log p :
  update_run log p → zlen (proposals log) ≤ u64_max → updates_ok log p.
Proof.
  induction 1 as [|log p c p' Hrun IH Hc]; intros Hmax.
  { constructor; simpl; [done| |]; intros ??; by rewrite lookup_empty. }
  assert (zlen (proposals log) + (match c with CPropose _ => 1 | _ => 0 end) ≤ u64_max) as Hb.
  { revert Hmax. rewrite proposals_snoc. unfold zlen. rewrite length_app. destruct c; simpl; lia. }
  destruct c as [u|id v|v|ps|id gas]; simpl in Hc.
  - simplify_eq. apply propose_updates_ok; [apply IH|]; lia.
  - unfold ProposedUpdates_vote in Hc. case_bool_decide as Hs; simplify_eq. simpl in Hs.
    destruct (IH ltac:(lia)) as [Hid He Hv].
    constructor; rewrite ?proposals_snoc, ?app_nil_r; simpl; [done..|].
    intros a i [[<- <-]|[Hne Hl]]%lookup_insert_Some; [set_solver|].
    rewrite lookup_delete_ne in Hl by done. destruct (Hv a i Hl). set_solver.
  - simplify_eq. eapply shrink_updates_ok; [done|apply IH; lia|done..|]. simpl.
    apply delete_subseteq.
  - simplify_eq. eapply shrink_updates_ok; [done|apply IH; lia| | |];
      unfold ProposedUpdates_remove_non_participant_votes; rewrite remove_votes_spec; [done..|].
    apply map_filter_subseteq.
  - unfold ProposedUpdates_do_update in Hc. destruct (entries p !! id); simplify_eq/=.
    destruct (IH ltac:(lia)) as [Hid He Hv]. constructor;
      rewrite ?proposals_snoc, ?app_nil_r; simpl; [done| |]; intros ??; by rewrite lookup_empty.
Qed.

(** An update id stands for one update for ever.  However proposals, votes
    and executions follow each other (at most [2^64 - 1] proposals), the update
    that [do_update] runs for an id is the one that was proposed under that id:
    the id is its position in the history of all proposals, ids freed by an
    execution are not handed out again, and every vote counted for the id was
    cast for it.  Running an update clears all proposals and votes. *)
Theorem update_id_identifies_update log p id gas p' action :
  update_run log p → zlen (proposals log) ≤ u64_max →
  ProposedUpdates_do_update p id gas = Some (p', action) →
  (∃ u, proposals log !! Z.to_nat id = Some u ∧ action = action_of u gas) ∧
  (∀ a, vote_by_participant p !! a = Some id → CVote id a ∈ log) ∧
  vote_by_participant p' = ∅ ∧ entries p' = ∅ ∧ pu_id p' = zlen (proposals log).
Proof.
  intros Hrun Hmax Hdo. destruct (update_run_ok log p Hrun Hmax) as [Hid He Hv].
  unfold ProposedUpdates_do_update in Hdo. destruct (entries p !! id) as [e|] eqn:Hl; simplify_eq.
  destruct (He id e Hl) as [_ Hp].
  split_and!; [exists (ue_update e); split; [done|by destruct (ue_update e)]| |done..].
  intros a Ha. by destruct (Hv a id Ha).
Qed.

End Votes.

(** ** Example *)

Definition sample_update_host : UpdateHost := {|
  config_json := λ _, [123; 125];
  size_of_update_entry := 96;
  size_of_account_id := 12;
  storage_byte_cost := 10 ^ 19;
  gas_from_tgas := λ t, t * 10 ^ 12;
|}.

(** Two proposals; the second is run and frees its id, a third one is voted for. *)
Definition sample_update_log : list UpdateCall :=
  [CPropose (UContract [1]); CPropose (UContract [2]); CVote 1 "alice"; CDoUpdate 1 50;
   CPropose (UContract [3]); CVote 2 "bob"].

Lemma update_id_identifies_update_witness :
  let p := default ProposedUpdates_default (update_replay (H:=sample_update_host) sample_update_log) in
  ∃ p', ProposedUpdates_do_update (H:=sample_update_host) p 2 50 = Some (p', DeployAndMigrate [3] 50) ∧
  ((∃ u, proposals sample_update_log !! 2%nat = Some u ∧
     DeployAndMigrate [3] 50 = action_of (H:=sample_update_host) u 50) ∧
   (∀ a, vote_by_participant p !! a = Some 2 → CVote 2 a ∈ sample_update_log) ∧
   vote_by_participant p' = ∅ ∧ entries p' = ∅ ∧ pu_id p' = zlen (proposals sample_update_log)).
Proof.
  intros p. eexists. split; [vm_compute; reflexivity|].
  apply (update_id_identifies_update (H:=sample_update_host) sample_update_log p 2 50).
  - apply update_replay_run. vm_compute. reflexivity.
  - vm_compute. discriminate.
  - vm_compute. reflexivity.
Defined.
