(* ===== verification/NodeMigrations.v ===== *)
(** * Node migrations ([node_migrations.rs])

    The backup service each operator registered and the destination node of
    each ongoing migration.  [IterableMap]s are finite maps; a loop over one is
    a fold over its entries. *)

From S2P Require Import Prelude Types Participants.

Record BackupServiceInfo : Type := mkBackupServiceInfo {
  bs_public_key : bytes;
}.

Record DestinationNodeInfo : Type := mkDestinationNodeInfo {
  dn_signer_account_pk : PublicKey;
  dn_destination_node_info : ParticipantInfo;
}.

Record NodeMigrations : Type := mkNodeMigrations {
  backup_services_info : gmap string BackupServiceInfo;
  ongoing_migrations : gmap string DestinationNodeInfo;
}.

Definition NodeMigrations_default : NodeMigrations := mkNodeMigrations ∅ ∅.

Definition NodeMigrations_set_backup_service_info (m : NodeMigrations) (account_id : AccountId)
    (info : BackupServiceInfo) : NodeMigrations :=
  mkNodeMigrations (<[account_id := info]> (backup_services_info m)) (ongoing_migrations m).

Definition NodeMigrations_set_destination_node_info (m : NodeMigrations) (account_id : AccountId)
    (info : DestinationNodeInfo) : NodeMigrations :=
  mkNodeMigrations (backup_services_info m) (<[account_id := info]> (ongoing_migrations m)).

Definition NodeMigrations_remove_account_data (m : NodeMigrations) (account_id : AccountId) :
    NodeMigrations :=
  mkNodeMigrations (delete account_id (backup_services_info m))
    (delete account_id (ongoing_migrations m)).

Definition NodeMigrations_remove_migration (m : NodeMigrations) (account_id : AccountId) :
    NodeMigrations * option DestinationNodeInfo :=
  (mkNodeMigrations (backup_services_info m) (delete account_id (ongoing_migrations m)),
   ongoing_migrations m !! account_id).

Definition NodeMigrations_get_for_account (m : NodeMigrations) (account_id : AccountId) :
    AccountId * option BackupServiceInfo * option DestinationNodeInfo :=
  (account_id, backup_services_info m !! account_id, ongoing_migrations m !! account_id).

Abbreviation MigrationInfo := (option BackupServiceInfo * option DestinationNodeInfo)%type
  (only parsing).

(** The body of the second loop of [get_all]: [and_modify] or [or_insert]. *)
Definition record_destination (id : AccountId) (d : DestinationNodeInfo)
    (combined : gmap string MigrationInfo) : gmap string MigrationInfo :=
  match combined !! id with
  | Some entry => <[id := (entry.1, Some d)]> combined
  | None => <[id := (None, Some d)]> combined
  end.

Definition NodeMigrations_get_all (m : NodeMigrations) : gmap string MigrationInfo :=
  let combined :=
    map_fold (λ id b (c : gmap string MigrationInfo), <[id := (Some b, None)]> c) ∅
      (backup_services_info m) in
  map_fold record_destination combined (ongoing_migrations m).

(** The two loops compute, for each account, what [get_for_account] answers. *)
Lemma backups_combined (b : gmap string BackupServiceInfo) :
  map_fold (λ id b (c : gmap string MigrationInfo), <[id := (Some b, None)]> c) ∅ b =
  (λ b, (Some b, None)) <$> b.
Proof.
  apply (map_fold_weak_ind (λ c b, c = (λ b, (Some b, None)) <$> b)).
  - by rewrite fmap_empty.
  - intros i x m c _ ->. by rewrite fmap_insert.
Qed.

Lemma get_all_spec m a :
  NodeMigrations_get_all m !! a =
  match backup_services_info m !! a, ongoing_migrations m !! a with
  | None, None => None
  | b, d => Some (b, d)
  end.
Proof.
  unfold NodeMigrations_get_all. cbv zeta. rewrite backups_combined.
  generalize (ongoing_migrations m). intros o.
  apply (map_fold_weak_ind (λ (c : gmap string MigrationInfo) o, c !! a =
    match backup_services_info m !! a, o !! a with None, None => None | b, d => Some (b, d) end)).
  - rewrite lookup_fmap, lookup_empty. by destruct (backup_services_info m !! a).
  - intros i d o' c Hi IH. unfold record_destination.
    destruct (decide (i = a)) as [->|Hne].
    + rewrite lookup_insert_eq. rewrite Hi in IH. rewrite IH.
      destruct (backup_services_info m !! a); simpl; by rewrite lookup_insert_eq.
    + rewrite lookup_insert_ne by done. rewrite <- IH.
      destruct (c !! i); by rewrite lookup_insert_ne.
Qed.
