(* ===== verification/ForeignChain.v ===== *)
(** * Foreign-chain requests and policy ([contract-interface] [foreign_chain.rs])

    The request types of [verify_foreign_transaction] and the policy that lists
    the RPC providers per chain.  Hashes and transaction ids are byte arrays. *)

From S2P Require Import Prelude Types.

Inductive ForeignTxPayloadVersion : Type := PayloadV1.

Inductive EvmFinality : Type := EvmLatest | EvmSafe | EvmFinalized.
Inductive SolanaFinality : Type := SolProcessed | SolConfirmed | SolFinalized.
Inductive StarknetFinality : Type := AcceptedOnL2 | AcceptedOnL1.

Inductive EvmExtractor : Type := EvmBlockHash | EvmLogExtractor (log_index : Z).
Inductive SolanaExtractor : Type :=
  | SolanaProgramIdIndex (ix_index : Z)
  | SolanaDataHash (ix_index : Z).
Inductive BitcoinExtractor : Type := BtcBlockHash.
Inductive StarknetExtractor : Type := SnBlockHash | SnLogExtractor (log_index : Z).

Record EvmRpcRequest : Type := mkEvmRpcRequest {
  evm_tx_id : bytes;
  evm_extractors : list EvmExtractor;
  evm_finality : EvmFinality;
}.

Record SolanaRpcRequest : Type := mkSolanaRpcRequest {
  sol_tx_id : bytes;
  sol_finality : SolanaFinality;
  sol_extractors : list SolanaExtractor;
}.

Record BitcoinRpcRequest : Type := mkBitcoinRpcRequest {
  btc_tx_id : bytes;
  btc_confirmations : Z;
  btc_extractors : list BitcoinExtractor;
}.

Record StarknetRpcRequest : Type := mkStarknetRpcRequest {
  sn_tx_id : bytes;
  sn_finality : StarknetFinality;
  sn_extractors : list StarknetExtractor;
}.

Inductive ForeignChainRpcRequest : Type :=
  | ReqAbstract (r : EvmRpcRequest)
  | ReqEthereum (r : EvmRpcRequest)
  | ReqSolana (r : SolanaRpcRequest)
  | ReqBitcoin (r : BitcoinRpcRequest)
  | ReqStarknet (r : StarknetRpcRequest).

Definition ForeignChainRpcRequest_chain (r : ForeignChainRpcRequest) : ForeignChain :=
  match r with
  | ReqAbstract _ => Abstract
  | ReqEthereum _ => Ethereum
  | ReqSolana _ => Solana
  | ReqBitcoin _ => Bitcoin
  | ReqStarknet _ => Starknet
  end.

Record VerifyForeignTransactionRequestArgs : Type := mkVerifyForeignTransactionRequestArgs {
  va_request : ForeignChainRpcRequest;
  va_domain_id : DomainId;
  va_payload_version : ForeignTxPayloadVersion;
}.

Record VerifyForeignTransactionRequest : Type := mkVerifyForeignTransactionRequest {
  vr_request : ForeignChainRpcRequest;
  vr_domain_id : DomainId;
  vr_payload_version : ForeignTxPayloadVersion;
}.

(** [dto_mapping.rs]. *)
Definition args_into_verify_foreign_tx_request (a : VerifyForeignTransactionRequestArgs) :
    VerifyForeignTransactionRequest := {|
  vr_domain_id := va_domain_id a;
  vr_request := va_request a;
  vr_payload_version := va_payload_version a;
|}.

(** ** Policy *)

Abbreviation RpcProvider := string (only parsing).

#[global] Instance ForeignChain_countable : Countable ForeignChain.
Proof.
  refine (inj_countable' (λ c, match c with
    | Solana => 0 | Bitcoin => 1 | Ethereum => 2 | Base => 3
    | Bnb => 4 | Arbitrum => 5 | Abstract => 6 | Starknet => 7 end)%nat
    (λ n, match n with
    | 0 => Solana | 1 => Bitcoin | 2 => Ethereum | 3 => Base
    | 4 => Bnb | 5 => Arbitrum | 6 => Abstract | _ => Starknet end)%nat _); by intros [].
Defined.

(** [ForeignChainPolicy]: the providers of a chain are a non-empty set. *)
Record ForeignChainPolicy : Type := mkForeignChainPolicy {
  chains : gmap ForeignChain (gset string);
}.

#[global] Instance ForeignChainPolicy_eq_dec : EqDecision ForeignChainPolicy.
Proof. solve_decision. Defined.

Definition ForeignChainPolicy_default : ForeignChainPolicy := mkForeignChainPolicy ∅.

(** [ForeignChainPolicyVotes]: the vote of each account. *)
Record ForeignChainPolicyVotes : Type := mkForeignChainPolicyVotes {
  proposal_by_account : gmap string ForeignChainPolicy;
}.

Definition ForeignChainPolicyVotes_default : ForeignChainPolicyVotes :=
  mkForeignChainPolicyVotes ∅.

(** ** Requests as map keys *)

#[global] Instance ForeignTxPayloadVersion_eq_dec : EqDecision ForeignTxPayloadVersion.
Proof. solve_decision. Defined.
#[global] Instance EvmFinality_eq_dec : EqDecision EvmFinality.
Proof. solve_decision. Defined.
#[global] Instance SolanaFinality_eq_dec : EqDecision SolanaFinality.
Proof. solve_decision. Defined.
#[global] Instance StarknetFinality_eq_dec : EqDecision StarknetFinality.
Proof. solve_decision. Defined.
#[global] Instance EvmExtractor_eq_dec : EqDecision EvmExtractor.
Proof. solve_decision. Defined.
#[global] Instance SolanaExtractor_eq_dec : EqDecision SolanaExtractor.
Proof. solve_decision. Defined.
#[global] Instance BitcoinExtractor_eq_dec : EqDecision BitcoinExtractor.
Proof. solve_decision. Defined.
#[global] Instance StarknetExtractor_eq_dec : EqDecision StarknetExtractor.
Proof. solve_decision. Defined.
#[global] Instance EvmRpcRequest_eq_dec : EqDecision EvmRpcRequest.
Proof. solve_decision. Defined.
#[global] Instance SolanaRpcRequest_eq_dec : EqDecision SolanaRpcRequest.
Proof. solve_decision. Defined.
#[global] Instance BitcoinRpcRequest_eq_dec : EqDecision BitcoinRpcRequest.
Proof. solve_decision. Defined.
#[global] Instance StarknetRpcRequest_eq_dec : EqDecision StarknetRpcRequest.
Proof. solve_decision. Defined.
#[global] Instance ForeignChainRpcRequest_eq_dec : EqDecision ForeignChainRpcRequest.
Proof. solve_decision. Defined.
#[global] Instance VerifyForeignTransactionRequest_eq_dec :
  EqDecision VerifyForeignTransactionRequest.
Proof. solve_decision. Defined.

(** A request as a triple of a chain tag with the finality, the transaction
    id and the extractors, each extractor a pair of a tag and an index. *)
Definition evm_code (r : EvmRpcRequest) : Z * bytes * list (bool * Z) :=
  (match evm_finality r with EvmLatest => 0 | EvmSafe => 1 | EvmFinalized => 2 end,
   evm_tx_id r,
   (λ e, match e with EvmBlockHash => (false, 0) | EvmLogExtractor i => (true, i) end)
     <$> evm_extractors r).
Definition evm_decode (c : Z * bytes * list (bool * Z)) : EvmRpcRequest :=
  mkEvmRpcRequest c.1.2
    ((λ e : bool * Z, if e.1 then EvmLogExtractor e.2 else EvmBlockHash) <$> c.2)
    (if decide (c.1.1 = 0) then EvmLatest else if decide (c.1.1 = 1) then EvmSafe else EvmFinalized).

Definition sol_code (r : SolanaRpcRequest) : Z * bytes * list (bool * Z) :=
  (match sol_finality r with SolProcessed => 0 | SolConfirmed => 1 | SolFinalized => 2 end,
   sol_tx_id r,
   (λ e, match e with SolanaProgramIdIndex i => (false, i) | SolanaDataHash i => (true, i) end)
     <$> sol_extractors r).
Definition sol_decode (c : Z * bytes * list (bool * Z)) : SolanaRpcRequest :=
  mkSolanaRpcRequest c.1.2
    (if decide (c.1.1 = 0) then SolProcessed
     else if decide (c.1.1 = 1) then SolConfirmed else SolFinalized)
    ((λ e : bool * Z, if e.1 then SolanaDataHash e.2 else SolanaProgramIdIndex e.2) <$> c.2).

Definition btc_code (r : BitcoinRpcRequest) : Z * bytes * list (bool * Z) :=
  (btc_confirmations r, btc_tx_id r,
   (λ e, match e with BtcBlockHash => (false, 0) end) <$> btc_extractors r).
Definition btc_decode (c : Z * bytes * list (bool * Z)) : BitcoinRpcRequest :=
  mkBitcoinRpcRequest c.1.2 c.1.1 ((λ _ : bool * Z, BtcBlockHash) <$> c.2).

Definition sn_code (r : StarknetRpcRequest) : Z * bytes * list (bool * Z) :=
  (match sn_finality r with AcceptedOnL2 => 0 | AcceptedOnL1 => 1 end, sn_tx_id r,
   (λ e, match e with SnBlockHash => (false, 0) | SnLogExtractor i => (true, i) end)
     <$> sn_extractors r).
Definition sn_decode (c : Z * bytes * list (bool * Z)) : StarknetRpcRequest :=
  mkStarknetRpcRequest c.1.2 (if decide (c.1.1 = 0) then AcceptedOnL2 else AcceptedOnL1)
    ((λ e : bool * Z, if e.1 then SnLogExtractor e.2 else SnBlockHash) <$> c.2).

Lemma extractors_roundtrip {E} (f : E → bool * Z) (g : bool * Z → E) (l : list E) :
  (∀ e, g (f e) = e) → g <$> (f <$> l) = l.
Proof. intros Hgf. rewrite <- list_fmap_compose. induction l; simpl; by f_equal. Qed.

Lemma evm_roundtrip r : evm_decode (evm_code r) = r.
Proof.
  destruct r as [t l f]. unfold evm_decode, evm_code. simpl.
  rewrite extractors_roundtrip by (by intros []). by destruct f.
Qed.
Lemma sol_roundtrip r : sol_decode (sol_code r) = r.
Proof.
  destruct r as [t f l]. unfold sol_decode, sol_code. simpl.
  rewrite extractors_roundtrip by (by intros []). by destruct f.
Qed.
Lemma btc_roundtrip r : btc_decode (btc_code r) = r.
Proof.
  destruct r as [t f l]. unfold btc_decode, btc_code. simpl.
  by rewrite extractors_roundtrip by (by intros []).
Qed.
Lemma sn_roundtrip r : sn_decode (sn_code r) = r.
Proof.
  destruct r as [t f l]. unfold sn_decode, sn_code. simpl.
  rewrite extractors_roundtrip by (by intros []). by destruct f.
Qed.

#[global] Instance VerifyForeignTransactionRequest_countable :
  Countable VerifyForeignTransactionRequest.
Proof.
  refine (inj_countable'
    (λ r, (vr_domain_id r, match vr_request r with
      | ReqAbstract r => (0, evm_code r) | ReqEthereum r => (1, evm_code r)
      | ReqSolana r => (2, sol_code r) | ReqBitcoin r => (3, btc_code r)
      | ReqStarknet r => (4, sn_code r) end))
    (λ c, mkVerifyForeignTransactionRequest
      (if decide (c.2.1 = 0) then ReqAbstract (evm_decode c.2.2)
       else if decide (c.2.1 = 1) then ReqEthereum (evm_decode c.2.2)
       else if decide (c.2.1 = 2) then ReqSolana (sol_decode c.2.2)
       else if decide (c.2.1 = 3) then ReqBitcoin (btc_decode c.2.2)
       else ReqStarknet (sn_decode c.2.2)) c.1 PayloadV1) _).
  intros [r d []]. simpl. f_equal.
  destruct r; simpl; f_equal; auto using evm_roundtrip, sol_roundtrip, btc_roundtrip, sn_roundtrip.
Defined.
