(* ===== verification/Dto.v ===== *)
(** * Attestations on the wire ([dto_mapping.rs], [convert_to_contract_dto.rs], [tcb_info.rs])

    [submit_participant_info] receives an attestation whose measurements are
    hex strings; the contract works with byte arrays of fixed length.  A node
    writes its attestation in this form ([convert_to_contract_dto.rs]) and the
    contract reads it.  The hashes of a mock attestation change their newtype
    only. *)

From Stdlib Require Import Ascii.
From S2P Require Import Prelude Types Attestation.

(** [dtos::EventLog] and [dtos::TcbInfo]. *)
Record DtoEventLog : Type := mkDtoEventLog {
  del_imr : Z;
  del_event_type : Z;
  del_digest : string;
  del_event : string;
  del_event_payload : string;
}.

Record DtoTcbInfo : Type := mkDtoTcbInfo {
  dti_mrtd : string;
  dti_rtmr0 : string;
  dti_rtmr1 : string;
  dti_rtmr2 : string;
  dti_rtmr3 : string;
  dti_os_image_hash : string;
  dti_compose_hash : string;
  dti_device_id : string;
  dti_app_compose : string;
  dti_event_log : list DtoEventLog;
}.

Inductive ParsingError : Type :=
  | WrongLength (len : Z)
  | UnexpectedHexCharacter.

(** [collect::<Result<Vec<_>, _>>()]: the first error wins. *)
Fixpoint collect {E A B} (f : A → result E B) (l : list A) : result E (list B) :=
  match l with
  | [] => Ok []
  | a :: l => b ← f a; bs ← collect f l; Ok (b :: bs)
  end.

(** [dtos::Collateral]. *)
Record DtoCollateral : Type := mkDtoCollateral {
  dc_pck_crl_issuer_chain : string;
  dc_root_ca_crl : bytes;
  dc_pck_crl : bytes;
  dc_tcb_info_issuer_chain : string;
  dc_tcb_info : string;
  dc_tcb_info_signature : bytes;
  dc_qe_identity_issuer_chain : string;
  dc_qe_identity : string;
  dc_qe_identity_signature : bytes;
  dc_pck_certificate_chain : option string;
}.

(** [dtos::DstackAttestation], [dtos::MockAttestation] and [dtos::Attestation]. *)
Record DtoDstackAttestation : Type := mkDtoDstackAttestation {
  dda_quote : bytes;
  dda_collateral : DtoCollateral;
  dda_tcb_info : DtoTcbInfo;
}.

Inductive DtoMockAttestation : Type :=
  | DtoMockValid
  | DtoMockInvalid
  | DtoMockWithConstraints (mpc_docker_image_hash : option bytes)
      (launcher_docker_compose_hash : option bytes) (expiry_timestamp_seconds : option Z).

Inductive DtoAttestation : Type :=
  | DtoDstack (a : DtoDstackAttestation)
  | DtoMock (m : DtoMockAttestation).

(** [dtos::VerifiedAttestation], the answer of [get_attestation]. *)
Inductive DtoVerifiedAttestation : Type :=
  | DtoVerifiedDstack (mpc_image_hash launcher_compose_hash : bytes) (expiry_timestamp_seconds : Z)
  | DtoVerifiedMock (m : DtoMockAttestation).

(** [IntoContractType<Collateral> for dtos::Collateral]. *)
Definition Collateral_into_contract_type (c : DtoCollateral) : Collateral :=
  mkCollateral {|
    qc_pck_crl_issuer_chain := dc_pck_crl_issuer_chain c;
    qc_root_ca_crl := dc_root_ca_crl c;
    qc_pck_crl := dc_pck_crl c;
    qc_tcb_info_issuer_chain := dc_tcb_info_issuer_chain c;
    qc_tcb_info := dc_tcb_info c;
    qc_tcb_info_signature := dc_tcb_info_signature c;
    qc_qe_identity_issuer_chain := dc_qe_identity_issuer_chain c;
    qc_qe_identity := dc_qe_identity c;
    qc_qe_identity_signature := dc_qe_identity_signature c;
    qc_pck_certificate_chain := dc_pck_certificate_chain c;
  |}.

(** [IntoInterfaceType<dtos::Collateral> for Collateral]. *)
Definition Collateral_into_dto (c : Collateral) : DtoCollateral :=
  let c := quote_collateral c in {|
    dc_pck_crl_issuer_chain := qc_pck_crl_issuer_chain c;
    dc_root_ca_crl := qc_root_ca_crl c;
    dc_pck_crl := qc_pck_crl c;
    dc_tcb_info_issuer_chain := qc_tcb_info_issuer_chain c;
    dc_tcb_info := qc_tcb_info c;
    dc_tcb_info_signature := qc_tcb_info_signature c;
    dc_qe_identity_issuer_chain := qc_qe_identity_issuer_chain c;
    dc_qe_identity := qc_qe_identity c;
    dc_qe_identity_signature := qc_qe_identity_signature c;
    dc_pck_certificate_chain := qc_pck_certificate_chain c;
  |}.

Definition MockAttestation_into_contract_type (m : DtoMockAttestation) : MockAttestation :=
  match m with
  | DtoMockValid => MockValid
  | DtoMockInvalid => MockInvalid
  | DtoMockWithConstraints mpc_docker_image_hash launcher_docker_compose_hash expiry_timestamp_seconds =>
      MockWithConstraints mpc_docker_image_hash launcher_docker_compose_hash expiry_timestamp_seconds
  end.

Definition MockAttestation_into_dto (m : MockAttestation) : DtoMockAttestation :=
  match m with
  | MockValid => DtoMockValid
  | MockInvalid => DtoMockInvalid
  | MockWithConstraints mpc_docker_image_hash launcher_docker_compose_hash expiry_timestamp_seconds =>
      DtoMockWithConstraints mpc_docker_image_hash launcher_docker_compose_hash expiry_timestamp_seconds
  end.

Definition VerifiedAttestation_into_dto (v : VerifiedAttestation) : DtoVerifiedAttestation :=
  match v with
  | VerifiedMock mock_attestation => DtoVerifiedMock (MockAttestation_into_dto mock_attestation)
  | VerifiedDstack validated =>
      DtoVerifiedDstack (vd_mpc_image_hash validated) (vd_launcher_compose_hash validated)
        (vd_expiry_timestamp_seconds validated)
  end.

Section Dto.
Context `{Libraries}.

(** [TryFrom<String> for HexBytes<N>]. *)
Definition HexBytes_try_from (N : nat) (value : string) : result ParsingError bytes :=
  let len := Z.of_nat (String.length value) in
  if bool_decide (len = 2 * Z.of_nat N) then
    match hex_decode value with
    | Some v => if bool_decide (length v = N) then Ok v else Err (WrongLength len)
    | None => Err UnexpectedHexCharacter
    end
  else Err (WrongLength len).

(** [From<HexBytes<N>> for String]. *)
Definition HexBytes_into (b : bytes) : string := hex_encode b.

Definition try_convert (N : nat) (s : string) : result Error bytes :=
  map_err (λ _, EConversionError DataConversion) (HexBytes_try_from N s).

Definition EventLog_try_from_dto (e : DtoEventLog) : result Error EventLog :=
  digest ← try_convert 48 (del_digest e);
  Ok (mkEventLog (del_imr e) (del_event_type e) digest (del_event e) (del_event_payload e)).

Definition TcbInfo_try_from_dto (t : DtoTcbInfo) : result Error TcbInfo :=
  event_log ← collect EventLog_try_from_dto (dti_event_log t);
  os_image_hash ←
    (if bool_decide (dti_os_image_hash t = EmptyString) then Ok None
     else Some <$> try_convert 32 (dti_os_image_hash t));
  mrtd ← try_convert 48 (dti_mrtd t);
  rtmr0 ← try_convert 48 (dti_rtmr0 t);
  rtmr1 ← try_convert 48 (dti_rtmr1 t);
  rtmr2 ← try_convert 48 (dti_rtmr2 t);
  rtmr3 ← try_convert 48 (dti_rtmr3 t);
  compose_hash ← try_convert 32 (dti_compose_hash t);
  device_id ← try_convert 32 (dti_device_id t);
  Ok (mkTcbInfo mrtd rtmr0 rtmr1 rtmr2 rtmr3 os_image_hash compose_hash device_id
        (dti_app_compose t) event_log).

Definition DstackAttestation_try_from_dto (a : DtoDstackAttestation) :
    result Error DstackAttestation :=
  tcb_info ← TcbInfo_try_from_dto (dda_tcb_info a);
  Ok (mkDstackAttestation (dda_quote a) (Collateral_into_contract_type (dda_collateral a)) tcb_info).

Definition Attestation_try_from_dto (a : DtoAttestation) : result Error MpcAttestation :=
  match a with
  | DtoDstack d => MpcDstack <$> DstackAttestation_try_from_dto d
  | DtoMock m => Ok (MpcMock (MockAttestation_into_contract_type m))
  end.

Definition EventLog_into_dto (e : EventLog) : DtoEventLog :=
  mkDtoEventLog (el_imr e) (el_event_type e) (HexBytes_into (el_digest e)) (el_event e)
    (el_event_payload e).

Definition TcbInfo_into_dto (t : TcbInfo) : DtoTcbInfo := {|
  dti_mrtd := HexBytes_into (ti_mrtd t);
  dti_rtmr0 := HexBytes_into (ti_rtmr0 t);
  dti_rtmr1 := HexBytes_into (ti_rtmr1 t);
  dti_rtmr2 := HexBytes_into (ti_rtmr2 t);
  dti_rtmr3 := HexBytes_into (ti_rtmr3 t);
  dti_os_image_hash := from_option HexBytes_into EmptyString (ti_os_image_hash t);
  dti_compose_hash := HexBytes_into (ti_compose_hash t);
  dti_device_id := HexBytes_into (ti_device_id t);
  dti_app_compose := ti_app_compose t;
  dti_event_log := EventLog_into_dto <$> ti_event_log t;
|}.

Definition DstackAttestation_into_dto (a : DstackAttestation) : DtoDstackAttestation :=
  mkDtoDstackAttestation (da_quote a) (Collateral_into_dto (da_collateral a))
    (TcbInfo_into_dto (da_tcb_info a)).

End Dto.

(** ** The node's side ([node/src/trait_extensions/convert_to_contract_dto.rs]) *)

Module Node.
Section Node.
Context `{Libraries}.

Definition MockAttestation_into_contract_interface_type (m : MockAttestation) : DtoMockAttestation :=
  match m with
  | MockValid => DtoMockValid
  | MockInvalid => DtoMockInvalid
  | MockWithConstraints mpc_docker_image_hash launcher_docker_compose_hash expiry_timestamp_seconds =>
      DtoMockWithConstraints mpc_docker_image_hash launcher_docker_compose_hash expiry_timestamp_seconds
  end.

Definition Collateral_into_contract_interface_type (c : Collateral) : DtoCollateral :=
  let c := quote_collateral c in {|
    dc_pck_crl_issuer_chain := qc_pck_crl_issuer_chain c;
    dc_root_ca_crl := qc_root_ca_crl c;
    dc_pck_crl := qc_pck_crl c;
    dc_tcb_info_issuer_chain := qc_tcb_info_issuer_chain c;
    dc_tcb_info := qc_tcb_info c;
    dc_tcb_info_signature := qc_tcb_info_signature c;
    dc_qe_identity_issuer_chain := qc_qe_identity_issuer_chain c;
    dc_qe_identity := qc_qe_identity c;
    dc_qe_identity_signature := qc_qe_identity_signature c;
    dc_pck_certificate_chain := qc_pck_certificate_chain c;
  |}.

Definition EventLog_into_contract_interface_type (e : EventLog) : DtoEventLog :=
  mkDtoEventLog (el_imr e) (el_event_type e) (HexBytes_into (el_digest e)) (el_event e)
    (el_event_payload e).

Definition TcbInfo_into_contract_interface_type (t : TcbInfo) : DtoTcbInfo := {|
  dti_mrtd := HexBytes_into (ti_mrtd t);
  dti_rtmr0 := HexBytes_into (ti_rtmr0 t);
  dti_rtmr1 := HexBytes_into (ti_rtmr1 t);
  dti_rtmr2 := HexBytes_into (ti_rtmr2 t);
  dti_rtmr3 := HexBytes_into (ti_rtmr3 t);
  dti_os_image_hash := from_option HexBytes_into EmptyString (ti_os_image_hash t);
  dti_compose_hash := HexBytes_into (ti_compose_hash t);
  dti_device_id := HexBytes_into (ti_device_id t);
  dti_app_compose := ti_app_compose t;
  dti_event_log := EventLog_into_contract_interface_type <$> ti_event_log t;
|}.

Definition DstackAttestation_into_contract_interface_type (a : DstackAttestation) :
    DtoDstackAttestation :=
  mkDtoDstackAttestation (da_quote a) (Collateral_into_contract_interface_type (da_collateral a))
    (TcbInfo_into_contract_interface_type (da_tcb_info a)).

Definition Attestation_into_contract_interface_type (a : MpcAttestation) : DtoAttestation :=
  match a with
  | MpcDstack d => DtoDstack (DstackAttestation_into_contract_interface_type d)
  | MpcMock m => DtoMock (MockAttestation_into_contract_interface_type m)
  end.

End Node.
End Node.

(** ** What is read

    The specification of the reader: [s] is the hex text of the [N] bytes [b],
    and the fields of an attestation correspond one by one. *)

Section Reads.
Context `{Libraries}.

Definition hex_field (N : nat) (s : string) (b : bytes) : Prop :=
  String.length s = (2 * N)%nat ∧ hex_decode s = Some b ∧ length b = N.

Record EventLog_reads (d : DtoEventLog) (e : EventLog) : Prop := {
  er_imr : el_imr e = del_imr d;
  er_event_type : el_event_type e = del_event_type d;
  er_digest : hex_field 48 (del_digest d) (el_digest e);
  er_event : el_event e = del_event d;
  er_event_payload : el_event_payload e = del_event_payload d;
}.

Record TcbInfo_reads (d : DtoTcbInfo) (t : TcbInfo) : Prop := {
  tr_mrtd : hex_field 48 (dti_mrtd d) (ti_mrtd t);
  tr_rtmr0 : hex_field 48 (dti_rtmr0 d) (ti_rtmr0 t);
  tr_rtmr1 : hex_field 48 (dti_rtmr1 d) (ti_rtmr1 t);
  tr_rtmr2 : hex_field 48 (dti_rtmr2 d) (ti_rtmr2 t);
  tr_rtmr3 : hex_field 48 (dti_rtmr3 d) (ti_rtmr3 t);
  tr_os : match ti_os_image_hash t with
          | None => dti_os_image_hash d = EmptyString
          | Some h => hex_field 32 (dti_os_image_hash d) h
          end;
  tr_compose : hex_field 32 (dti_compose_hash d) (ti_compose_hash t);
  tr_device : hex_field 32 (dti_device_id d) (ti_device_id t);
  tr_app_compose : ti_app_compose t = dti_app_compose d;
  tr_log : Forall2 EventLog_reads (dti_event_log d) (ti_event_log t);
}.

Record Collateral_reads (d : DtoCollateral) (c : QuoteCollateralV3) : Prop := {
  cr_pck_crl_issuer_chain : qc_pck_crl_issuer_chain c = dc_pck_crl_issuer_chain d;
  cr_root_ca_crl : qc_root_ca_crl c = dc_root_ca_crl d;
  cr_pck_crl : qc_pck_crl c = dc_pck_crl d;
  cr_tcb_info_issuer_chain : qc_tcb_info_issuer_chain c = dc_tcb_info_issuer_chain d;
  cr_tcb_info : qc_tcb_info c = dc_tcb_info d;
  cr_tcb_info_signature : qc_tcb_info_signature c = dc_tcb_info_signature d;
  cr_qe_identity_issuer_chain : qc_qe_identity_issuer_chain c = dc_qe_identity_issuer_chain d;
  cr_qe_identity : qc_qe_identity c = dc_qe_identity d;
  cr_qe_identity_signature : qc_qe_identity_signature c = dc_qe_identity_signature d;
  cr_pck_certificate_chain : qc_pck_certificate_chain c = dc_pck_certificate_chain d;
}.

Inductive MockAttestation_reads : DtoMockAttestation → MockAttestation → Prop :=
  | mr_valid : MockAttestation_reads DtoMockValid MockValid
  | mr_invalid : MockAttestation_reads DtoMockInvalid MockInvalid
  | mr_constraints image launcher expiry :
      MockAttestation_reads (DtoMockWithConstraints image launcher expiry)
        (MockWithConstraints image launcher expiry).

Inductive Attestation_reads : DtoAttestation → MpcAttestation → Prop :=
  | ar_dstack d a :
      da_quote a = dda_quote d →
      Collateral_reads (dda_collateral d) (quote_collateral (da_collateral a)) →
      TcbInfo_reads (dda_tcb_info d) (da_tcb_info a) →
      Attestation_reads (DtoDstack d) (MpcDstack a)
  | ar_mock d m : MockAttestation_reads d m → Attestation_reads (DtoMock d) (MpcMock m).

Lemma HexBytes_try_from_Ok N s b : HexBytes_try_from N s = Ok b ↔ hex_field N s b.
Proof.
  unfold HexBytes_try_from, hex_field. case_bool_decide as Hl; [|split; [done|intros []; lia]].
  destruct (hex_decode s) as [v|]; [|naive_solver].
  case_bool_decide as Hv; split; [intros [= <-]; split; [lia|done]|naive_solver|done|].
  intros (_ & [= ->] & ?). done.
Qed.

Lemma try_convert_Ok N s b : try_convert N s = Ok b ↔ hex_field N s b.
Proof.
  rewrite <- HexBytes_try_from_Ok. unfold try_convert.
  destruct (HexBytes_try_from N s); simpl; naive_solver.
Qed.

Lemma EventLog_try_from_Ok d e : EventLog_try_from_dto d = Ok e ↔ EventLog_reads d e.
Proof.
  unfold EventLog_try_from_dto. rewrite bind_Ok. setoid_rewrite try_convert_Ok. split.
  - intros (g & Hg & [= <-]). by split.
  - intros [Hi Ht Hd He Hp]. eexists. split; [done|]. destruct e; simpl in *. congruence.
Qed.

Lemma collect_Ok {E A B} (f : A → result E B) (P : A → B → Prop) l l' :
  (∀ a b, f a = Ok b ↔ P a b) → collect f l = Ok l' ↔ Forall2 P l l'.
Proof.
  intros Hf. revert l'. induction l as [|a l IH]; intros l'; cbn [collect].
  - split; [by intros [= <-]|]. by intros ->%Forall2_nil_inv_l.
  - rewrite bind_Ok. setoid_rewrite bind_Ok. split.
    + intros (b & Hb%Hf & bs & Hbs%IH & [= <-]). by constructor.
    + intros (b & bs & Hb%Hf & Hbs%IH & ->)%Forall2_cons_inv_l. eauto.
Qed.

Lemma os_image_hash_Ok s o :
  (if bool_decide (s = EmptyString) then Ok None else Some <$> try_convert 32 s) = Ok o ↔
  match o with None => s = EmptyString | Some h => hex_field 32 s h end.
Proof.
  case_bool_decide as Hs.
  - subst. split; [by intros [= <-]|]. destruct o as [h|]; [|done]. by intros [].
  - rewrite fmap_Ok. setoid_rewrite try_convert_Ok. destruct o; naive_solver.
Qed.

Lemma TcbInfo_try_from_Ok d t : TcbInfo_try_from_dto d = Ok t ↔ TcbInfo_reads d t.
Proof.
  unfold TcbInfo_try_from_dto. split.
  - intros (l & Hl & H1)%bind_Ok. apply bind_Ok in H1 as (os & Hos & H1).
    apply bind_Ok in H1 as (m & Hm & H1). apply bind_Ok in H1 as (r0 & Hr0 & H1).
    apply bind_Ok in H1 as (r1 & Hr1 & H1). apply bind_Ok in H1 as (r2 & Hr2 & H1).
    apply bind_Ok in H1 as (r3 & Hr3 & H1). apply bind_Ok in H1 as (ch & Hch & H1).
    apply bind_Ok in H1 as (dv & Hdv & [= <-]).
    split; try by apply try_convert_Ok.
    + by apply os_image_hash_Ok.
    + done.
    + eapply collect_Ok; [apply EventLog_try_from_Ok|done].
  - intros [H1 H2 H3 H4 H5 Ho H6 H7 Ha Hl].
    apply (collect_Ok _ _ _ _ EventLog_try_from_Ok) in Hl. rewrite Hl. cbn [mbind result_bind].
    apply os_image_hash_Ok in Ho. rewrite Ho. cbn [mbind result_bind].
    apply try_convert_Ok in H1, H2, H3, H4, H5, H6, H7.
    rewrite H1, H2, H3, H4, H5, H6, H7. cbn [mbind result_bind]. rewrite <- Ha. by destruct t.
Qed.

Lemma Collateral_into_contract_type_spec d c :
  Collateral_into_contract_type d = c ↔ Collateral_reads d (quote_collateral c).
Proof.
  split; [by intros <-|]. intros []. destruct c as [[]], d; simpl in *. by simplify_eq.
Qed.

Lemma MockAttestation_into_contract_type_spec d m :
  MockAttestation_into_contract_type d = m ↔ MockAttestation_reads d m.
Proof. split; [intros <-; destruct d; constructor|by intros []]. Qed.

Lemma Attestation_try_from_Ok d a : Attestation_try_from_dto d = Ok a ↔ Attestation_reads d a.
Proof.
  split.
  - destruct d as [d|m]; cbn [Attestation_try_from_dto].
    + intros (x & (t & Ht%TcbInfo_try_from_Ok & [= <-])%bind_Ok & ->)%fmap_Ok.
      constructor; [done| |done]. by apply Collateral_into_contract_type_spec.
    + intros [= <-]. constructor. by apply MockAttestation_into_contract_type_spec.
  - intros [x y Hq Hc%Collateral_into_contract_type_spec Ht%TcbInfo_try_from_Ok|x m Hm].
    + cbn [Attestation_try_from_dto]. unfold DstackAttestation_try_from_dto. rewrite Ht. cbn.
      rewrite Hc, <- Hq. by destruct y.
    + cbn [Attestation_try_from_dto]. by apply MockAttestation_into_contract_type_spec in Hm as ->.
Qed.

End Reads.

(** ** Round trip *)

Definition is_bytes (n : nat) (b : bytes) : Prop := length b = n ∧ Forall (λ x, 0 ≤ x < 256) b.

Record TcbInfo_sized (t : TcbInfo) : Prop := {
  tz_mrtd : is_bytes 48 (ti_mrtd t);
  tz_rtmr0 : is_bytes 48 (ti_rtmr0 t);
  tz_rtmr1 : is_bytes 48 (ti_rtmr1 t);
  tz_rtmr2 : is_bytes 48 (ti_rtmr2 t);
  tz_rtmr3 : is_bytes 48 (ti_rtmr3 t);
  tz_os : ∀ h, ti_os_image_hash t = Some h → is_bytes 32 h;
  tz_compose : is_bytes 32 (ti_compose_hash t);
  tz_device : is_bytes 32 (ti_device_id t);
  tz_log : Forall (λ e, is_bytes 48 (el_digest e)) (ti_event_log t);
}.

(** The byte arrays of an attestation have their lengths, as the types of the code say. *)
Definition Attestation_sized (a : MpcAttestation) : Prop :=
  match a with MpcDstack d => TcbInfo_sized (da_tcb_info d) | MpcMock _ => True end.

(** Documented behaviour of the [hex] crate. *)
Class HexLaws `{Libraries} : Prop := {
  hex_roundtrip : ∀ b, Forall (λ x, 0 ≤ x < 256) b → hex_decode (hex_encode b) = Some b;
  hex_length : ∀ b, String.length (hex_encode b) = (2 * length b)%nat;
  hex_bytes : ∀ s b, hex_decode s = Some b → Forall (λ x, 0 ≤ x < 256) b;
}.

Section Roundtrip.
Context `{Laws : HexLaws}.

Lemma hex_field_sized N s b : hex_field N s b → is_bytes N b.
Proof. intros (_ & Hd & Hl). split; [done|by eapply hex_bytes]. Qed.

Lemma hex_field_into N b : is_bytes N b → hex_field N (HexBytes_into b) b.
Proof.
  intros [Hl Hb]. unfold hex_field, HexBytes_into. by rewrite hex_length, hex_roundtrip, Hl.
Qed.

Lemma TcbInfo_reads_sized d t : TcbInfo_reads d t → TcbInfo_sized t.
Proof.
  intros []. split; try by eapply hex_field_sized.
  - intros h Hh. rewrite Hh in tr_os0. by eapply hex_field_sized.
  - eapply Forall2_Forall_r; [done|]. apply Forall_true. intros x y []. by eapply hex_field_sized.
Qed.

Lemma TcbInfo_reads_into t :
  TcbInfo_sized t → TcbInfo_reads (Node.TcbInfo_into_contract_interface_type t) t.
Proof.
  intros []. split; try by apply hex_field_into.
  - cbn [Node.TcbInfo_into_contract_interface_type dti_os_image_hash].
    destruct (ti_os_image_hash t) as [h|]; [|done]. by apply hex_field_into, tz_os0.
  - done.
  - apply Forall2_fmap_l, Forall_Forall2_diag. eapply Forall_impl; [done|].
    intros e He. split; try done. by apply hex_field_into.
Qed.

Lemma Attestation_reads_sized d a : Attestation_reads d a → Attestation_sized a.
Proof. intros [x y _ _ Ht|]; [by eapply TcbInfo_reads_sized|done]. Qed.

Lemma Attestation_reads_into a :
  Attestation_sized a → Attestation_reads (Node.Attestation_into_contract_interface_type a) a.
Proof.
  destruct a as [d|m]; intros Hs; constructor; simpl.
  - done.
  - by split.
  - by apply TcbInfo_reads_into.
  - destruct m; constructor.
Qed.

(** The only error of the reader. *)
Lemma try_convert_total N s :
  (∃ b, try_convert N s = Ok b) ∨ try_convert N s = Err (EConversionError DataConversion).
Proof.
  unfold try_convert, HexBytes_try_from. case_bool_decide; [|by right].
  destruct (hex_decode s); [|by right]. case_bool_decide; [by left; eexists|by right].
Qed.

Lemma collect_total {E A B} (f : A → result E B) err l :
  (∀ a, (∃ b, f a = Ok b) ∨ f a = Err err) → (∃ bs, collect f l = Ok bs) ∨ collect f l = Err err.
Proof.
  intros Hf. induction l as [|a l IH]; cbn [collect]; [by left; eexists|].
  destruct (Hf a) as [[b ->]| ->]; [|by right]. cbn.
  destruct IH as [[bs ->]| ->]; [by left; eexists|by right].
Qed.

Lemma TcbInfo_try_from_total d :
  (∃ t, TcbInfo_try_from_dto d = Ok t) ∨
  TcbInfo_try_from_dto d = Err (EConversionError DataConversion).
Proof.
  unfold TcbInfo_try_from_dto.
  destruct (collect_total EventLog_try_from_dto (EConversionError DataConversion) (dti_event_log d))
    as [[l ->]| ->]; [| |by right]; cbn [mbind result_bind].
  { intros e. unfold EventLog_try_from_dto.
    destruct (try_convert_total 48 (del_digest e)) as [[g ->]| ->]; [by left; eexists|by right]. }
  assert ((∃ o, (if bool_decide (dti_os_image_hash d = EmptyString) then Ok None
                 else Some <$> try_convert 32 (dti_os_image_hash d)) = Ok (E:=Error) o) ∨
          (if bool_decide (dti_os_image_hash d = EmptyString) then Ok None
           else Some <$> try_convert 32 (dti_os_image_hash d)) = Err (EConversionError DataConversion))
    as [[o ->]| ->]; [|cbn [mbind result_bind]|by right].
  { case_bool_decide; [by left; eexists|].
    destruct (try_convert_total 32 (dti_os_image_hash d)) as [[h ->]| ->]; [by left; eexists|by right]. }
  repeat match goal with
  | |- context [try_convert ?N ?s] =>
      destruct (try_convert_total N s) as [[? ->]| ->]; [|by right]; cbn [mbind result_bind]
  end.
  by left; eexists.
Qed.

(** C33: the wire format of an attestation is exact.  The contract reads a
    submitted attestation, real or mock, exactly as the attestation with the
    same quote, the same ten fields of the collateral, the same event log and
    configuration, and the bytes whose hex texts are given, each of the right
    length (48 bytes for the registers and event digests, 32 for the hashes, the
    OS image hash optionally empty); what is read has byte arrays of these
    lengths, everything else is refused with a conversion error, without a
    panic; and whatever attestation (with byte arrays of these lengths) a node
    writes out, the contract reads back unchanged. *)
Theorem attestation_wire_format (d : DtoAttestation) (a : MpcAttestation) :
  (Attestation_try_from_dto d = Ok a ↔ Attestation_reads d a) ∧
  (Attestation_reads d a → Attestation_sized a) ∧
  ((∃ a', Attestation_try_from_dto d = Ok a') ∨
   Attestation_try_from_dto d = Err (EConversionError DataConversion)) ∧
  (Attestation_sized a →
   Attestation_try_from_dto (Node.Attestation_into_contract_interface_type a) = Ok a).
Proof.
  split; [apply Attestation_try_from_Ok|]. split; [apply Attestation_reads_sized|]. split.
  - destruct d as [d|m]; cbn [Attestation_try_from_dto]; [|by left; eexists].
    unfold DstackAttestation_try_from_dto.
    destruct (TcbInfo_try_from_total (dda_tcb_info d)) as [[t ->]| ->]; [by left; eexists|by right].
  - intros Hs. by apply Attestation_try_from_Ok, Attestation_reads_into.
Qed.

(** What the contract writes is read back as well. *)
Lemma DstackAttestation_into_dto_read a :
  TcbInfo_sized (da_tcb_info a) → DstackAttestation_try_from_dto (DstackAttestation_into_dto a) = Ok a.
Proof.
  intros Hs%TcbInfo_reads_into%TcbInfo_try_from_Ok. unfold DstackAttestation_try_from_dto.
  cbn [DstackAttestation_into_dto dda_tcb_info].
  change (TcbInfo_into_dto (da_tcb_info a)) with (Node.TcbInfo_into_contract_interface_type (da_tcb_info a)).
  rewrite Hs. by destruct a as [? [[]] ?].
Qed.

End Roundtrip.

(** ** Example

    Lower-case hex, the encoding the [hex] crate documents, with the other
    libraries fixed arbitrarily. *)

Definition nibble (n : nat) : ascii := ascii_of_nat (if (n <? 10)%nat then 48 + n else 87 + n).

Definition unnibble (c : ascii) : option nat :=
  let n := nat_of_ascii c in
  (if (48 <=? n) && (n <=? 57) then Some (n - 48)
   else if (97 <=? n) && (n <=? 102) then Some (n - 87)
   else if (65 <=? n) && (n <=? 70) then Some (n - 55) else None)%nat.

Fixpoint to_hex (b : bytes) : string :=
  match b with
  | [] => EmptyString
  | x :: b => String (nibble (Z.to_nat (x / 16))) (String (nibble (Z.to_nat (x mod 16))) (to_hex b))
  end.

Fixpoint of_hex (s : string) : option bytes :=
  match s with
  | EmptyString => Some []
  | String _ EmptyString => None
  | String h (String l s) =>
      h ← unnibble h; l ← unnibble l; b ← of_hex s; Some (Z.of_nat h * 16 + Z.of_nat l :: b)
  end.

Lemma unnibble_nibble n : (n < 16)%nat → unnibble (nibble n) = Some n.
Proof. intros Hn. do 16 (destruct n as [|n]; [reflexivity|]). lia. Qed.

Lemma unnibble_bound c n : unnibble c = Some n → (n < 16)%nat.
Proof.
  unfold unnibble. generalize (nat_of_ascii c). intros k.
  repeat match goal with |- context [(?a <=? ?b)%nat] => destruct (Nat.leb_spec a b) end;
    simpl; intros [=]; lia.
Qed.

Lemma of_hex_to_hex b : Forall (λ x, 0 ≤ x < 256) b → of_hex (to_hex b) = Some b.
Proof.
  induction 1 as [|x b Hx Hb IH]; [done|]. cbn [to_hex of_hex].
  pose proof (Z.mod_pos_bound x 16 ltac:(lia)). pose proof (Z.div_mod x 16 ltac:(lia)).
  rewrite !unnibble_nibble by (apply Nat2Z.inj_lt; rewrite Z2Nat.id; lia).
  cbn [mbind option_bind]. rewrite IH. cbn [mbind option_bind]. rewrite !Z2Nat.id by lia.
  do 2 f_equal. lia.
Qed.

Lemma of_hex_bytes n s b :
  (String.length s ≤ n)%nat → of_hex s = Some b → Forall (λ x, 0 ≤ x < 256) b.
Proof.
  revert s b. induction n as [|n IH]; intros s b Hn.
  - destruct s; [|simpl in Hn; lia]. intros [= <-]. constructor.
  - destruct s as [|h [|l s]]; cbn [of_hex].
    + intros [= <-]. constructor.
    + done.
    + intros (nh & Hh & (nl & Hl & (b' & Hb & [= <-])%bind_Some)%bind_Some)%bind_Some.
      apply unnibble_bound in Hh, Hl. constructor; [lia|]. simpl in Hn.
      apply (IH s); [lia|done].
Qed.

Definition hex_libraries : Libraries := {|
  hex_encode := to_hex;
  hex_decode := of_hex;
  sha256 := λ b, b;
  sha384 := λ b, b;
  sha3_384 := λ b, b;
  dcap_verify := λ _ _ _, inl "no quote";
  app_compose_from_str := λ s, inl s;
|}.

Lemma hex_libraries_laws : @HexLaws hex_libraries.
Proof.
  split; simpl.
  - apply of_hex_to_hex.
  - intros b. induction b as [|x b IH]; simpl; [done|]. rewrite IH. lia.
  - intros s b. by apply (of_hex_bytes (String.length s)).
Qed.

Definition wire_tcb : TcbInfo :=
  mkTcbInfo (replicate 48 1) (replicate 48 2) (replicate 48 3) (replicate 48 4) (replicate 48 5)
    (Some (replicate 32 6)) (replicate 32 7) (replicate 32 255) "{}"
    [mkEventLog 3 134217729 (replicate 48 171) "compose-hash" "00ff"].

Definition wire_collateral : Collateral :=
  mkCollateral (mkQuoteCollateralV3 "pck chain" [1] [2; 3] "tcb chain" "tcb" [4] "qe chain" "qe" [5]
    (Some "certificates")).

Definition wire_attestation : MpcAttestation :=
  MpcDstack (mkDstackAttestation [9] wire_collateral wire_tcb).

Lemma attestation_wire_format_witness :
  @Attestation_try_from_dto hex_libraries
    (@Node.Attestation_into_contract_interface_type hex_libraries wire_attestation) =
  Ok wire_attestation.
Proof.
  apply (@attestation_wire_format hex_libraries hex_libraries_laws (DtoMock DtoMockInvalid)).
  constructor; simpl; [..|intros h [= <-]| | |repeat constructor];
    by apply (bool_decide_eq_true_1 _).
Defined.
