(* ===== verification/Requests.v ===== *)
(** * Signature and key-derivation requests

    [primitives/signature.rs], [primitives/ckd.rs], [crypto_shared/kdf.rs] and
    the [signature-verifier] crate: payloads, request keys, the derivation of
    tweaks and app ids, and the check of a response.  Curve arithmetic, SHA3
    and the host's signature checks are parameters. *)

From Stdlib Require Import Ascii.
From S2P Require Import Prelude Types CryptoTypes Attestation ForeignChain.

Abbreviation Tweak := bytes (only parsing).
Abbreviation CkdAppId := bytes (only parsing).
Abbreviation CryptoHash := bytes (only parsing).
Abbreviation Bls12381G1PublicKey := bytes (only parsing).

(** ** Data *)

Inductive Payload : Type :=
  | Ecdsa (b : bytes)
  | Eddsa (b : bytes).

Definition ECDSA_PAYLOAD_SIZE_BYTES : Z := 32.
Definition EDDSA_PAYLOAD_SIZE_LOWER_BOUND_BYTES : Z := 32.
Definition EDDSA_PAYLOAD_SIZE_UPPER_BOUND_BYTES : Z := 1232.

Record SignatureRequest : Type := mkSignatureRequest {
  sr_tweak : Tweak;
  sr_payload : Payload;
  sr_domain_id : DomainId;
}.

Record SignRequestArgs : Type := mkSignRequestArgs {
  sa_path : string;
  sa_payload_v2 : option Payload;
  sa_deprecated_payload : option bytes;
  sa_domain_id : option DomainId;
  sa_deprecated_key_version : option Z;
}.

Record SignRequest : Type := mkSignRequest {
  sq_payload : Payload;
  sq_path : string;
  sq_domain_id : DomainId;
}.

Record CKDRequestArgs : Type := mkCKDRequestArgs {
  ca_derivation_path : string;
  ca_app_public_key : Bls12381G1PublicKey;
  ca_domain_id : DomainId;
}.

Record CKDRequest : Type := mkCKDRequest {
  ck_app_public_key : Bls12381G1PublicKey;
  ck_app_id : CkdAppId;
  ck_domain_id : DomainId;
}.

Record CKDResponse : Type := mkCKDResponse {
  ckr_big_y : Bls12381G1PublicKey;
  ckr_big_c : Bls12381G1PublicKey;
}.

Record K256Signature : Type := mkK256Signature {
  ks_big_r : bytes;
  ks_s : bytes;
  ks_recovery_id : Z;
}.

Inductive SignatureResponse : Type :=
  | RespSecp256k1 (signature : K256Signature)
  | RespEd25519 (signature : bytes).

Record VerifyForeignTransactionResponse : Type := mkVerifyForeignTransactionResponse {
  vf_payload_hash : bytes;
  vf_signature : SignatureResponse;
}.

#[global] Instance Payload_eq_dec : EqDecision Payload.
Proof. solve_decision. Defined.
#[global] Instance SignatureRequest_eq_dec : EqDecision SignatureRequest.
Proof. solve_decision. Defined.
#[global] Instance CKDRequest_eq_dec : EqDecision CKDRequest.
Proof. solve_decision. Defined.
#[global] Instance CKDResponse_eq_dec : EqDecision CKDResponse.
Proof. solve_decision. Defined.
#[global] Instance K256Signature_eq_dec : EqDecision K256Signature.
Proof. solve_decision. Defined.
#[global] Instance SignatureResponse_eq_dec : EqDecision SignatureResponse.
Proof. solve_decision. Defined.
#[global] Instance VerifyForeignTransactionResponse_eq_dec :
  EqDecision VerifyForeignTransactionResponse.
Proof. solve_decision. Defined.

#[global] Instance SignatureRequest_countable : Countable SignatureRequest.
Proof.
  refine (inj_countable'
    (λ r, (sr_tweak r, match sr_payload r with Ecdsa b => (true, b) | Eddsa b => (false, b) end,
           sr_domain_id r))
    (λ c : bytes * (bool * bytes) * Z,
       mkSignatureRequest c.1.1 (if c.1.2.1 then Ecdsa c.1.2.2 else Eddsa c.1.2.2) c.2) _).
  by intros [t [] d].
Defined.
#[global] Instance CKDRequest_countable : Countable CKDRequest.
Proof.
  refine (inj_countable' (λ r, (ck_app_public_key r, ck_app_id r, ck_domain_id r))
    (λ c : bytes * bytes * Z, mkCKDRequest c.1.1 c.1.2 c.2) _); by intros [].
Defined.

(** ** Payloads *)

(** [Bytes::<MIN, MAX>::new]. *)
Definition Bytes_new (MIN_LEN MAX_LEN : Z) (b : bytes) : result Error bytes :=
  if (zlen b <? MIN_LEN) || (MAX_LEN <? zlen b) then Err (EInvalidParameters MalformedPayload)
  else Ok b.

(** [Bytes::<N, N>::as_fixed_bytes]: the conversion to an array is unwrapped. *)
Definition Bytes_as_fixed_bytes (N : Z) (b : bytes) : result Error bytes :=
  if bool_decide (zlen b = N) then Ok b else Panic PanicUnwrap.

Definition Payload_from_legacy_ecdsa (b : bytes) : result Error Payload :=
  match Bytes_new ECDSA_PAYLOAD_SIZE_BYTES ECDSA_PAYLOAD_SIZE_BYTES b with
  | Ok b => Ok (Ecdsa b)
  | _ => Panic PanicUnwrap
  end.

Definition Payload_as_ecdsa (p : Payload) : result Error (option bytes) :=
  match p with
  | Ecdsa b => Some <$> Bytes_as_fixed_bytes ECDSA_PAYLOAD_SIZE_BYTES b
  | Eddsa _ => Ok None
  end.

Definition Payload_as_eddsa (p : Payload) : option bytes :=
  match p with Eddsa b => Some b | Ecdsa _ => None end.

(** [TryFrom<SignRequestArgs> for SignRequest]. *)
Definition SignRequest_try_from (args : SignRequestArgs) : result Error SignRequest :=
  payload ←
    match sa_payload_v2 args, sa_deprecated_payload args with
    | Some payload, None => Ok payload
    | None, Some payload => Payload_from_legacy_ecdsa payload
    | _, _ => Err (EInvalidParameters MalformedPayload)
    end;
  domain_id ←
    match sa_domain_id args, sa_deprecated_key_version args with
    | Some domain_id, None => Ok domain_id
    | None, Some key_version => Ok key_version
    | _, _ => Err (EInvalidParameters InvalidDomainId)
    end;
  Ok (mkSignRequest payload (sa_path args) domain_id).

(** ** Derivation *)

Class Curves : Type := {
  sha3_256 : bytes → bytes;
  (** whether [k256::Scalar::from_repr] accepts the bytes *)
  k256_scalar_from_repr : bytes → bool;
  (** whether [k256::PublicKey::try_from] accepts an encoded point *)
  k256_public_key : bytes → bool;
  (** [GENERATOR * tweak + public_key], encoded, unless it is the identity *)
  secp256k1_add : bytes → bytes → option bytes;
  (** [public_key + BASEPOINT * tweak], compressed *)
  ed25519_add : bytes → bytes → bytes;
  ecrecover : bytes → bytes → Z → bool → option bytes;
  ed25519_verify : bytes → bytes → bytes → bool;
}.

Definition TWEAK_DERIVATION_PREFIX : string := "near-mpc-recovery v0.1.0 epsilon derivation:".
Definition APP_ID_DERIVATION_PREFIX : string := "near-mpc v0.1.0 app_id derivation:".

Section Derivation.
Context `{Curves}.

Definition derivation_input (derivation_prefix predecessor_id path : string) : bytes :=
  string_bytes (derivation_prefix +:+ predecessor_id +:+ "," +:+ path).

Definition derive_from_path (derivation_prefix predecessor_id path : string) : bytes :=
  sha3_256 (derivation_input derivation_prefix predecessor_id path).

Definition derive_tweak (predecessor_id path : string) : Tweak :=
  derive_from_path TWEAK_DERIVATION_PREFIX predecessor_id path.

Definition derive_app_id (predecessor_id derivation_path : string) : CkdAppId :=
  derive_from_path APP_ID_DERIVATION_PREFIX predecessor_id derivation_path.

(** [None] is the error [TweakNotOnCurve]. *)
Definition derive_key_secp256k1 (public_key : bytes) (tweak : Tweak) : option bytes :=
  if k256_scalar_from_repr tweak then secp256k1_add public_key tweak else None.

Definition derive_public_key_edwards_point_ed25519 (edwards_point : bytes) (tweak : Tweak) : bytes :=
  ed25519_add edwards_point tweak.

Definition SignatureRequest_new (domain : DomainId) (payload : Payload)
    (predecessor_id path : string) : SignatureRequest :=
  mkSignatureRequest (derive_tweak predecessor_id path) payload domain.

Definition CKDRequest_new (app_public_key : Bls12381G1PublicKey) (domain_id : DomainId)
    (predecessor_id derivation_path : string) : CKDRequest :=
  mkCKDRequest app_public_key (derive_app_id predecessor_id derivation_path) domain_id.

(** ** Signature checks ([signature-verifier]) *)

(** [K256Signature::to_ecrecover_bytes]: [r] is the x coordinate of the
    compressed point, without its first byte. *)
Definition to_ecrecover_bytes (s : K256Signature) : bytes := drop 1 (ks_big_r s) ++ ks_s s.

Definition verify_ecdsa_signature (signature : K256Signature) (message public_key : bytes) : bool :=
  match ecrecover message (to_ecrecover_bytes signature) (ks_recovery_id signature) true with
  | Some recovered => bool_decide (recovered = public_key)
  | None => false
  end.

Definition verify_eddsa_signature (signature message public_key : bytes) : bool :=
  ed25519_verify signature message public_key.

End Derivation.

(** [TryFrom<&near_sdk::PublicKey> for Secp256k1PublicKey]. *)
Definition secp256k1_of_near_key (pk : PublicKey) : option bytes :=
  match curve_type pk with SECP256K1 => Some (key_data pk) | ED25519 => None end.

(** ** Derivation separates users *)

(** NEAR account ids are made of lower-case letters, digits and [. _ -]. *)
Fixpoint no_comma (s : string) : bool :=
  match s with
  | EmptyString => true
  | String c s => negb (bool_decide (c = ","%char)) && no_comma s
  end.

Lemma string_append_cancel (p a b : string) : p +:+ a = p +:+ b → a = b.
Proof. induction p as [|c p IH]; simpl; [done|]. intros [= ?]. auto. Qed.

Lemma split_at_comma (a b p q : string) :
  no_comma a = true → no_comma b = true →
  a +:+ "," +:+ p = b +:+ "," +:+ q → a = b ∧ p = q.
Proof.
  revert b. induction a as [|c a IH]; intros [|d b] Ha Hb Heq; simpl in *.
  - by injection Heq.
  - injection Heq as <- _. done.
  - injection Heq as -> _. done.
  - injection Heq as <- Heq. apply andb_true_iff in Ha as [_ Ha], Hb as [_ Hb].
    destruct (IH b Ha Hb Heq). by subst.
Qed.

Lemma derivation_input_inj pre a b p q :
  no_comma a = true → no_comma b = true →
  derivation_input pre a p = derivation_input pre b q → a = b ∧ p = q.
Proof.
  unfold derivation_input. intros Ha Hb Heq%string_bytes_inj%string_append_cancel.
  by apply split_at_comma.
Qed.

Section Separation.
Context `{Curves}.

(** Two different inputs of SHA3-256 with the same digest. *)
Definition sha3_256_collision (x y : bytes) : Prop := x ≠ y ∧ sha3_256 x = sha3_256 y.

(** Derivation separates users.  The tweak of a request is derived from the
    account that made it and its path: if two accounts, or two paths of one
    account, ever get the same tweak (or the same app id), or a tweak equals an
    app id, then the two derivation inputs are a collision of SHA3-256.
    Account ids have no comma, so ["a,b" / "c"] and ["a" / "b,c"] cannot be
    confused. *)
Theorem derivation_separates_users a b p q :
  no_comma a = true → no_comma b = true →
  (derive_tweak a p = derive_tweak b q → (a = b ∧ p = q) ∨
     sha3_256_collision (derivation_input TWEAK_DERIVATION_PREFIX a p)
                        (derivation_input TWEAK_DERIVATION_PREFIX b q)) ∧
  (derive_app_id a p = derive_app_id b q → (a = b ∧ p = q) ∨
     sha3_256_collision (derivation_input APP_ID_DERIVATION_PREFIX a p)
                        (derivation_input APP_ID_DERIVATION_PREFIX b q)) ∧
  (derive_tweak a p = derive_app_id b q →
     sha3_256_collision (derivation_input TWEAK_DERIVATION_PREFIX a p)
                        (derivation_input APP_ID_DERIVATION_PREFIX b q)).
Proof.
  intros Ha Hb.
  assert (∀ pre, derive_from_path pre a p = derive_from_path pre b q → (a = b ∧ p = q) ∨
    sha3_256_collision (derivation_input pre a p) (derivation_input pre b q)) as Hsame.
  { intros pre Heq.
    destruct (decide (derivation_input pre a p = derivation_input pre b q)) as [Hi|Hi].
    - left. by eapply derivation_input_inj.
    - by right. }
  split; [apply Hsame|]. split; [apply Hsame|]. intros Heq. split; [|done].
  unfold derivation_input. intros Hi%string_bytes_inj. discriminate Hi.
Qed.

End Separation.

(** ** Example: identity hash and group operations *)

Definition sample_curves : Curves := {|
  sha3_256 := λ b, b;
  k256_scalar_from_repr := λ _, true;
  k256_public_key := λ _, true;
  secp256k1_add := λ p _, Some p;
  ed25519_add := λ p _, p;
  ecrecover := λ _ s _ _, Some s;
  ed25519_verify := λ s m p, bool_decide (s = m ++ p);
|}.

Lemma derivation_separates_users_witness :
  derive_tweak (H:=sample_curves) "alice.near" "b,c" ≠
  derive_tweak (H:=sample_curves) "bob.near" "c".
Proof.
  intros Heq.
  destruct (proj1 (derivation_separates_users (H:=sample_curves) "alice.near" "bob.near" "b,c" "c"
    ltac:(vm_compute; reflexivity) ltac:(vm_compute; reflexivity)) Heq)
    as [[Hab _]|[Hne Hsha]]; [discriminate Hab|exact (Hne Hsha)].
Defined.
