(* ===== verification/Contract.v ===== *)
(** * The contract ([lib.rs])

    [MpcContract] and its methods.  A method is a function of the call's
    environment and of the contract, and returns the new contract together with
    the promises it scheduled ([Effect]); an [Err] or a panic reverts the call.
    [env::panic_str] of an error is a panic that carries the error's name.
    Logging is left out. *)

From S2P Require Import Prelude Types CryptoTypes Participants Thresholds Domain KeyState.
From S2P Require Import KeyEvent ContractState Running ProtocolState Config Attestation Tee.
From S2P Require Import Update NodeMigrations ForeignChain Dto Requests.

Record Metrics : Type := mkMetrics {
  sign_with_v1_payload_count : Z;
  sign_with_v2_payload_count : Z;
}.

Record MpcContract : Type := mkMpcContract {
  protocol_state : ProtocolContractState;
  pending_signature_requests : gmap SignatureRequest CryptoHash;
  pending_ckd_requests : gmap CKDRequest CryptoHash;
  pending_verify_foreign_tx_requests : gmap VerifyForeignTransactionRequest CryptoHash;
  proposed_updates : ProposedUpdates;
  foreign_chain_policy : ForeignChainPolicy;
  foreign_chain_policy_votes : ForeignChainPolicyVotes;
  config : Config;
  tee_state : TeeState;
  accept_requests : bool;
  node_migrations : NodeMigrations;
  metrics : Metrics;
}.

(** Assignments to a field. *)
Definition set_protocol_state (s : ProtocolContractState) (c : MpcContract) : MpcContract :=
  mkMpcContract s (pending_signature_requests c) (pending_ckd_requests c)
    (pending_verify_foreign_tx_requests c) (proposed_updates c) (foreign_chain_policy c)
    (foreign_chain_policy_votes c) (config c) (tee_state c) (accept_requests c)
    (node_migrations c) (metrics c).
Definition set_pending_signature_requests (m : gmap SignatureRequest CryptoHash)
    (c : MpcContract) : MpcContract :=
  mkMpcContract (protocol_state c) m (pending_ckd_requests c)
    (pending_verify_foreign_tx_requests c) (proposed_updates c) (foreign_chain_policy c)
    (foreign_chain_policy_votes c) (config c) (tee_state c) (accept_requests c)
    (node_migrations c) (metrics c).
Definition set_pending_ckd_requests (m : gmap CKDRequest CryptoHash) (c : MpcContract) :
    MpcContract :=
  mkMpcContract (protocol_state c) (pending_signature_requests c) m
    (pending_verify_foreign_tx_requests c) (proposed_updates c) (foreign_chain_policy c)
    (foreign_chain_policy_votes c) (config c) (tee_state c) (accept_requests c)
    (node_migrations c) (metrics c).
Definition set_pending_verify_foreign_tx_requests
    (m : gmap VerifyForeignTransactionRequest CryptoHash) (c : MpcContract) : MpcContract :=
  mkMpcContract (protocol_state c) (pending_signature_requests c) (pending_ckd_requests c) m
    (proposed_updates c) (foreign_chain_policy c) (foreign_chain_policy_votes c) (config c)
    (tee_state c) (accept_requests c) (node_migrations c) (metrics c).
Definition set_proposed_updates (p : ProposedUpdates) (c : MpcContract) : MpcContract :=
  mkMpcContract (protocol_state c) (pending_signature_requests c) (pending_ckd_requests c)
    (pending_verify_foreign_tx_requests c) p (foreign_chain_policy c)
    (foreign_chain_policy_votes c) (config c) (tee_state c) (accept_requests c)
    (node_migrations c) (metrics c).
Definition set_foreign_chain_policy (p : ForeignChainPolicy) (v : ForeignChainPolicyVotes)
    (c : MpcContract) : MpcContract :=
  mkMpcContract (protocol_state c) (pending_signature_requests c) (pending_ckd_requests c)
    (pending_verify_foreign_tx_requests c) (proposed_updates c) p v (config c) (tee_state c)
    (accept_requests c) (node_migrations c) (metrics c).
Definition set_config (cfg : Config) (c : MpcContract) : MpcContract :=
  mkMpcContract (protocol_state c) (pending_signature_requests c) (pending_ckd_requests c)
    (pending_verify_foreign_tx_requests c) (proposed_updates c) (foreign_chain_policy c)
    (foreign_chain_policy_votes c) cfg (tee_state c) (accept_requests c) (node_migrations c)
    (metrics c).
Definition set_tee_state (t : TeeState) (c : MpcContract) : MpcContract :=
  mkMpcContract (protocol_state c) (pending_signature_requests c) (pending_ckd_requests c)
    (pending_verify_foreign_tx_requests c) (proposed_updates c) (foreign_chain_policy c)
    (foreign_chain_policy_votes c) (config c) t (accept_requests c) (node_migrations c)
    (metrics c).
Definition set_accept_requests (b : bool) (c : MpcContract) : MpcContract :=
  mkMpcContract (protocol_state c) (pending_signature_requests c) (pending_ckd_requests c)
    (pending_verify_foreign_tx_requests c) (proposed_updates c) (foreign_chain_policy c)
    (foreign_chain_policy_votes c) (config c) (tee_state c) b (node_migrations c) (metrics c).
Definition set_node_migrations (m : NodeMigrations) (c : MpcContract) : MpcContract :=
  mkMpcContract (protocol_state c) (pending_signature_requests c) (pending_ckd_requests c)
    (pending_verify_foreign_tx_requests c) (proposed_updates c) (foreign_chain_policy c)
    (foreign_chain_policy_votes c) (config c) (tee_state c) (accept_requests c) m (metrics c).
Definition set_metrics (m : Metrics) (c : MpcContract) : MpcContract :=
  mkMpcContract (protocol_state c) (pending_signature_requests c) (pending_ckd_requests c)
    (pending_verify_foreign_tx_requests c) (proposed_updates c) (foreign_chain_policy c)
    (foreign_chain_policy_votes c) (config c) (tee_state c) (accept_requests c)
    (node_migrations c) m.

(** ** Promises *)

Inductive YieldRequest : Type :=
  | YSign (r : SignatureRequest)
  | YCkd (r : CKDRequest)
  | YForeign (r : VerifyForeignTransactionRequest).

Inductive YieldResponse : Type :=
  | AnsSign (r : SignatureResponse)
  | AnsCkd (r : CKDResponse)
  | AnsForeign (r : VerifyForeignTransactionResponse).

#[global] Instance YieldRequest_eq_dec : EqDecision YieldRequest.
Proof. solve_decision. Defined.
#[global] Instance YieldResponse_eq_dec : EqDecision YieldResponse.
Proof. solve_decision. Defined.

Inductive Effect : Type :=
  | Transfer (to : AccountId) (amount : Z)
  | RunUpdate (action : UpdateAction)
  | CallSelf (method : string) (gas : Z)
  | YieldCreate (data_id : CryptoHash) (request : YieldRequest) (callback_gas : Z)
  | YieldResume (data_id : CryptoHash) (response : YieldResponse).

#[global] Instance Effect_eq_dec : EqDecision Effect.
Proof. solve_decision. Defined.

Definition REMOVE_NON_PARTICIPANT_UPDATE_VOTES : string := "remove_non_participant_update_votes".
Definition CLEAN_TEE_STATUS : string := "clean_tee_status".
Definition CLEANUP_ORPHANED_NODE_MIGRATIONS : string := "cleanup_orphaned_node_migrations".
Definition FAIL_ON_TIMEOUT : string := "fail_on_timeout".

Definition MINIMUM_SIGN_REQUEST_DEPOSIT : Z := 1.
Definition MINIMUM_CKD_REQUEST_DEPOSIT : Z := 1.

(** [env::panic_str(&err.to_string())]. *)
Definition panic_str {A} (msg : string) : result Error A := Panic (PanicStr msg).
Definition expect {A} (o : option A) (msg : string) : result Error A :=
  match o with Some a => Ok a | None => Panic (PanicExpect msg) end.

(** ** Who calls *)

Definition caller_is_signer (env : Env) : bool :=
  bool_decide (signer_account_id env = predecessor_account_id env).

Definition assert_caller_is_signer (env : Env) : result Error AccountId :=
  if bool_decide (signer_account_id env = predecessor_account_id env)
  then Ok (signer_account_id env)
  else Panic (PanicAssert "Caller must be the signer account").

Definition voter_account (env : Env) (c : MpcContract) : result Error AccountId :=
  if negb (caller_is_signer env) then Err (EInvalidParameters CallerNotSigner)
  else
    let voter := signer_account_id env in
    _ ← ProtocolContractState_authenticate_update_vote env (protocol_state c);
    Ok voter.

Definition voter_or_panic (env : Env) (c : MpcContract) : result Error AccountId :=
  _ ← assert_caller_is_signer env;
  match voter_account env c with
  | Ok voter => Ok voter
  | _ => panic_str "not a voter"
  end.

Definition assert_caller_is_attested_participant_and_protocol_active (env : Env)
    (c : MpcContract) : result Error unit :=
  ps ← ProtocolContractState_active_participants (protocol_state c);
  _ ← assert_caller_is_signer env;
  match TeeState_is_caller_an_attested_participant env (tee_state c) ps with
  | Ok _ => Ok tt
  | _ => Panic (PanicAssert "Caller must be an attested participant")
  end.

(** [#[private]]: only the contract itself may call the method. *)
Definition assert_private (env : Env) : result Error unit :=
  if bool_decide (predecessor_account_id env = current_account_id env) then Ok tt
  else panic_str "Method is private".

Section Contract.
Context `{L : Libraries} `{K : Curves} `{U : UpdateHost}.
Variable default_measurements : list ExpectedMeasurements.

Definition tee_upgrade_deadline (c : MpcContract) : Duration :=
  Duration_from_secs (tee_upgrade_deadline_duration_seconds (config c)).

Definition public_key_extended (c : MpcContract) (domain_id : DomainId) :
    result Error PublicKeyExtended :=
  ProtocolContractState_public_key (protocol_state c) domain_id.

Definition threshold (c : MpcContract) : result Error Threshold :=
  ProtocolContractState_threshold (protocol_state c).

(** ** User API *)

(** Returns true if the request was already pending. *)
Definition add_signature_request (c : MpcContract) (request : SignatureRequest)
    (data_id : CryptoHash) : MpcContract * bool :=
  let m := pending_signature_requests c in
  (set_pending_signature_requests (<[request := data_id]> m) c,
   bool_decide (is_Some (m !! request))).

Definition add_ckd_request (c : MpcContract) (request : CKDRequest) (data_id : CryptoHash) :
    MpcContract * bool :=
  let m := pending_ckd_requests c in
  (set_pending_ckd_requests (<[request := data_id]> m) c, bool_decide (is_Some (m !! request))).

Definition add_verify_foreign_tx_request (c : MpcContract)
    (request : VerifyForeignTransactionRequest) (data_id : CryptoHash) : MpcContract * bool :=
  let m := pending_verify_foreign_tx_requests c in
  (set_pending_verify_foreign_tx_requests (<[request := data_id]> m) c,
   bool_decide (is_Some (m !! request))).

(** The deposit check of the three request methods: the refund it schedules. *)
Definition check_deposit (env : Env) (minimum : Z) : result Error (list Effect) :=
  if attached_deposit env <? minimum then panic_str "InsufficientDeposit"
  else
    let diff := attached_deposit env - minimum in
    Ok (if 0 <? diff then [Transfer (predecessor_account_id env) diff] else []).

(** Looks up the domain of a request and checks its purpose. *)
Definition request_domain (c : MpcContract) (domain_id : DomainId) (purpose : DomainPurpose) :
    result Error DomainConfig :=
  match ProtocolContractState_domain_registry (protocol_state c) with
  | Ok domains =>
    match DomainRegistry_get_domain_by_domain_id domains domain_id with
    | None => panic_str "DomainNotFound"
    | Some domain_config =>
      if negb (bool_decide (dc_purpose domain_config = purpose)) then panic_str "WrongDomainPurpose"
      else Ok domain_config
    end
  | _ => panic_str "ProtocolStateNotRunningNorResharing"
  end.

Definition check_gas (env : Env) (required_tera_gas : Z) : result Error unit :=
  if prepaid_gas env <? gas_from_tgas required_tera_gas then panic_str "InsufficientGas" else Ok tt.

(** The part of [sign] that checks the payload against the domain's scheme. *)
Definition check_payload (scheme : SignatureScheme) (payload : Payload) : result Error unit :=
  match scheme with
  | Secp256k1 | V2Secp256k1 =>
    o ← Payload_as_ecdsa payload;
    hash ← expect o "Payload is not Ecdsa";
    if k256_scalar_from_repr hash then Ok tt
    else Panic (PanicExpect "Ecdsa payload cannot be converted to Scalar")
  | Ed25519 => _ ← expect (Payload_as_eddsa payload) "Payload is not EdDSA"; Ok tt
  | Bls12381 => panic_str "InvalidDomainId"
  end.

Definition count_payload_version (args : SignRequestArgs) (m : Metrics) : Metrics :=
  mkMetrics
    (if bool_decide (is_Some (sa_deprecated_payload args))
     then u64_add (sign_with_v1_payload_count m) 1 else sign_with_v1_payload_count m)
    (if bool_decide (is_Some (sa_payload_v2 args))
     then u64_add (sign_with_v2_payload_count m) 1 else sign_with_v2_payload_count m).

(** [data_id] is the id of the yielded promise, which the host writes to
    [DATA_ID_REGISTER]. *)
Definition sign (env : Env) (c : MpcContract) (args : SignRequestArgs) (data_id : CryptoHash) :
    result Error (MpcContract * list Effect) :=
  let c := set_metrics (count_payload_version args (metrics c)) c in
  request ←
    match SignRequest_try_from args with
    | Ok request => Ok request
    | Err _ => Panic PanicUnwrap
    | Panic p => Panic p
    end;
  domain_config ← request_domain c (sq_domain_id request) Sign;
  _ ← check_payload (dc_scheme domain_config) (sq_payload request);
  _ ← check_gas env (sign_call_gas_attachment_requirement_tera_gas (config c));
  refund ← check_deposit env MINIMUM_SIGN_REQUEST_DEPOSIT;
  let request :=
    SignatureRequest_new (sq_domain_id request) (sq_payload request) (predecessor_account_id env)
      (sq_path request) in
  if negb (accept_requests c) then panic_str "TeeValidationFailed"
  else
    let callback_gas :=
      gas_from_tgas (return_signature_and_clean_state_on_success_call_tera_gas (config c)) in
    let '(c, _) := add_signature_request c request data_id in
    Ok (c, refund ++ [YieldCreate data_id (YSign request) callback_gas]).

Definition request_app_private_key (env : Env) (c : MpcContract) (args : CKDRequestArgs)
    (data_id : CryptoHash) : result Error (MpcContract * list Effect) :=
  _ ← request_domain c (ca_domain_id args) CKD;
  _ ← check_gas env (ckd_call_gas_attachment_requirement_tera_gas (config c));
  refund ← check_deposit env MINIMUM_CKD_REQUEST_DEPOSIT;
  if negb (accept_requests c) then panic_str "TeeValidationFailed"
  else
    let request :=
      CKDRequest_new (ca_app_public_key args) (ca_domain_id args) (predecessor_account_id env)
        (ca_derivation_path args) in
    let callback_gas :=
      gas_from_tgas (return_ck_and_clean_state_on_success_call_tera_gas (config c)) in
    let '(c, _) := add_ckd_request c request data_id in
    Ok (c, refund ++ [YieldCreate data_id (YCkd request) callback_gas]).

Definition verify_foreign_transaction (env : Env) (c : MpcContract)
    (args : VerifyForeignTransactionRequestArgs) (data_id : CryptoHash) :
    result Error (MpcContract * list Effect) :=
  _ ← request_domain c (va_domain_id args) ForeignTx;
  let requested_chain := ForeignChainRpcRequest_chain (va_request args) in
  if negb (bool_decide (is_Some (chains (foreign_chain_policy c) !! requested_chain)))
  then panic_str "ChainNotInPolicy"
  else
    _ ← check_gas env (sign_call_gas_attachment_requirement_tera_gas (config c));
    refund ← check_deposit env MINIMUM_SIGN_REQUEST_DEPOSIT;
    if negb (accept_requests c) then panic_str "TeeValidationFailed"
    else
      let callback_gas :=
        gas_from_tgas (return_signature_and_clean_state_on_success_call_tera_gas (config c)) in
      let request := args_into_verify_foreign_tx_request args in
      let '(c, _) := add_verify_foreign_tx_request c request data_id in
      Ok (c, refund ++ [YieldCreate data_id (YForeign request) callback_gas]).

(** ** Views *)

Definition public_key (c : MpcContract) (domain_id : option DomainId) : result Error DtoPublicKey :=
  dto_of_extended <$> public_key_extended c (default legacy_ecdsa_id domain_id).

(** The point of a stored secp256k1 key. *)
Definition secp256k1_point (near_public_key : PublicKey) : result Error bytes :=
  secp_pk ← expect (secp256k1_of_near_key near_public_key)
              "Secp256k1 variant always has a secp256k1 key";
  if k256_public_key secp_pk then Ok secp_pk
  else Panic (PanicExpect "stored key is always valid").

Definition derived_public_key (env : Env) (c : MpcContract) (path : string)
    (predecessor : option AccountId) (domain_id : option DomainId) : result Error DtoPublicKey :=
  let predecessor := default (predecessor_account_id env) predecessor in
  let tweak := derive_tweak predecessor path in
  pk ← public_key_extended c (default legacy_ecdsa_id domain_id);
  match pk with
  | PkSecp256k1 near_public_key =>
    affine ← secp256k1_point near_public_key;
    derived ← ok_or (derive_key_secp256k1 affine tweak) (EPublicKey PublicKeyTweakNotOnCurve);
    Ok (DtoSecp256k1 derived)
  | PkEd25519 _ edwards_point =>
    Ok (DtoEd25519 (derive_public_key_edwards_point_ed25519 edwards_point tweak))
  | PkBls12381 public_key => Ok public_key
  end.

Definition latest_key_version (c : MpcContract) (signature_scheme : option SignatureScheme) :
    result Error Z :=
  match ProtocolContractState_most_recent_domain_for_protocol (protocol_state c)
          (default Secp256k1 signature_scheme) with
  | Ok id => Ok (as_u32 id)
  | Err _ => Panic PanicUnwrap
  | Panic p => Panic p
  end.

Definition allowed_docker_image_hashes (env : Env) (c : MpcContract) : list MpcDockerImageHash :=
  reverse (am_image_hash <$>
    TeeState_get_allowed_mpc_docker_images env (tee_state c) (tee_upgrade_deadline c)).

(** ** Node API *)

(** The signature check of [respond]. *)
Definition response_is_valid (request : SignatureRequest) (response : SignatureResponse)
    (public_key : PublicKeyExtended) : result Error bool :=
  match response, public_key with
  | RespSecp256k1 signature_response, PkSecp256k1 near_public_key =>
    affine ← secp256k1_point near_public_key;
    expected_public_key ←
      ok_or (derive_key_secp256k1 affine (sr_tweak request)) (ERespond RespondTweakNotOnCurve);
    o ← Payload_as_ecdsa (sr_payload request);
    payload_hash ← expect o "Payload is not ECDSA";
    Ok (verify_ecdsa_signature signature_response payload_hash expected_public_key)
  | RespEd25519 signature, PkEd25519 _ edwards_point =>
    let derived := derive_public_key_edwards_point_ed25519 edwards_point (sr_tweak request) in
    message ← expect (Payload_as_eddsa (sr_payload request)) "Payload is not EdDSA";
    Ok (verify_eddsa_signature signature message derived)
  | _, _ => Err (ERespond SignatureSchemeMismatch)
  end.

(** The checks [respond] and [respond_verify_foreign_tx] make before they look
    at the response. *)
Definition check_responder (env : Env) (c : MpcContract) : result Error unit :=
  _ ← assert_caller_is_signer env;
  _ ← assert_caller_is_attested_participant_and_protocol_active env c;
  if negb (ProtocolContractState_is_running_or_resharing (protocol_state c))
  then Err (EInvalidState ProtocolStateNotRunning)
  else if negb (accept_requests c) then Err (ETeeError TeeValidationFailed) else Ok tt.

Definition respond (env : Env) (c : MpcContract) (request : SignatureRequest)
    (response : SignatureResponse) : result Error (MpcContract * list Effect) :=
  _ ← check_responder env c;
  public_key ← public_key_extended c (sr_domain_id request);
  signature_is_valid ← response_is_valid request response public_key;
  if negb signature_is_valid then Err (ERespond InvalidSignature)
  else
    match pending_signature_requests c !! request with
    | Some data_id =>
      Ok (set_pending_signature_requests (delete request (pending_signature_requests c)) c,
          [YieldResume data_id (AnsSign response)])
    | None => Err (EInvalidParameters RequestNotFound)
    end.

Definition respond_ckd (env : Env) (c : MpcContract) (request : CKDRequest)
    (response : CKDResponse) : result Error (MpcContract * list Effect) :=
  _ ← assert_caller_is_signer env;
  if negb (ProtocolContractState_is_running_or_resharing (protocol_state c))
  then Err (EInvalidState ProtocolStateNotRunning)
  else if negb (accept_requests c) then Err (ETeeError TeeValidationFailed)
  else
    _ ← assert_caller_is_attested_participant_and_protocol_active env c;
    match pending_ckd_requests c !! request with
    | Some data_id =>
      Ok (set_pending_ckd_requests (delete request (pending_ckd_requests c)) c,
          [YieldResume data_id (AnsCkd response)])
    | None => Err (EInvalidParameters RequestNotFound)
    end.

Definition foreign_response_is_valid (response : VerifyForeignTransactionResponse)
    (public_key : PublicKeyExtended) : result Error bool :=
  match vf_signature response, public_key with
  | RespSecp256k1 signature_response, PkSecp256k1 near_public_key =>
    secp_pk ← expect (secp256k1_of_near_key near_public_key)
                "Secp256k1 variant always has a secp256k1 key";
    Ok (verify_ecdsa_signature signature_response (vf_payload_hash response) secp_pk)
  | _, _ => Err (ERespond SignatureSchemeMismatch)
  end.

Definition respond_verify_foreign_tx (env : Env) (c : MpcContract)
    (request : VerifyForeignTransactionRequest) (response : VerifyForeignTransactionResponse) :
    result Error (MpcContract * list Effect) :=
  _ ← check_responder env c;
  public_key ← public_key_extended c (vr_domain_id request);
  signature_is_valid ← foreign_response_is_valid response public_key;
  if negb signature_is_valid then Err (ERespond InvalidSignature)
  else
    match pending_verify_foreign_tx_requests c !! request with
    | Some data_id =>
      Ok (set_pending_verify_foreign_tx_requests
            (delete request (pending_verify_foreign_tx_requests c)) c,
          [YieldResume data_id (AnsForeign response)])
    | None => Err (EInvalidParameters RequestNotFound)
    end.

(** [storage_usage] is what the host answers to [env::storage_usage()]: the
    bytes the account has written to the trie so far.  It is read before and
    after the attestation is added; [stored_attestations] is an in-memory
    [BTreeMap] of the contract state, which is written to the trie only after
    the method has returned, so both reads give the same number. *)
Definition submit_participant_info (env : Env) (storage_usage : Z) (c : MpcContract)
    (proposed_participant_attestation : DtoAttestation) (tls_public_key : bytes) :
    result Error (MpcContract * list Effect) :=
  attestation ← Attestation_try_from_dto proposed_participant_attestation;
  let account_key := signer_account_pk env in
  account_id ← assert_caller_is_signer env;
  let initial_storage := storage_usage in
  '(tee, attestation_insertion_result) ←
    map_err (λ _, EInvalidParameters InvalidTeeRemoteAttestation)
      (TeeState_add_participant default_measurements env (tee_state c)
         (mkNodeId account_id (near_key_of_ed25519 tls_public_key) (Some account_key))
         attestation (tee_upgrade_deadline c));
  let caller_is_not_participant := negb (is_ok (voter_account env c)) in
  let is_new_attestation :=
    match attestation_insertion_result with
    | NewlyInsertedParticipant => true
    | UpdatedExistingParticipant => false
    end in
  let c := set_tee_state tee c in
  if is_new_attestation || caller_is_not_participant then
    let storage_used := u64_sub storage_usage initial_storage in
    let cost := required_deposit storage_used in
    let attached := attached_deposit env in
    if attached <? cost then Err (EInvalidParameters InsufficientDeposit)
    else
      let diff := attached - cost in
      Ok (c, if 0 <? diff then [Transfer account_id diff] else [])
  else Ok (c, []).

Definition vote_new_parameters (env : Env) (c : MpcContract) (prospective_epoch_id : EpochId)
    (proposal : ThresholdParameters) : result Error MpcContract :=
  let '(tee, validation_result) :=
    TeeState_reverify_and_cleanup_participants env (tee_state c) (tp_participants proposal)
      (tee_upgrade_deadline c) in
  let c := set_tee_state tee c in
  match validation_result with
  | Full =>
    s ← install (ProtocolContractState_vote_new_parameters env (protocol_state c)
                   prospective_epoch_id proposal);
    Ok (set_protocol_state s c)
  | Partial _ => Err (EInvalidParameters InvalidTeeRemoteAttestation)
  end.

Definition vote_add_domains (env : Env) (c : MpcContract) (domains : list DomainConfig) :
    result Error MpcContract :=
  s ← install (ProtocolContractState_vote_add_domains env (protocol_state c) domains);
  Ok (set_protocol_state s c).

Definition vote_foreign_chain_policy (env : Env) (c : MpcContract) (policy : ForeignChainPolicy) :
    result Error MpcContract :=
  match protocol_state c with
  | Running running_state =>
    voter ← AuthenticatedAccountId_new env (tp_participants (rs_parameters running_state));
    let votes := <[voter := policy]> (proposal_by_account (foreign_chain_policy_votes c)) in
    let total_votes :=
      zlen (filter (λ e : ParticipantEntry, votes !! entry_account e = Some policy)
              (participants (tp_participants (rs_parameters running_state)))) in
    if total_votes =? Participants_len (tp_participants (rs_parameters running_state))
    then Ok (set_foreign_chain_policy policy (mkForeignChainPolicyVotes ∅) c)
    else Ok (set_foreign_chain_policy (foreign_chain_policy c) (mkForeignChainPolicyVotes votes) c)
  | _ => panic_str "protocol must be in running state"
  end.

Definition start_keygen_instance (env : Env) (c : MpcContract) (key_event_id : KeyEventId) :
    result Error MpcContract :=
  _ ← assert_caller_is_attested_participant_and_protocol_active env c;
  s ← ProtocolContractState_start_keygen_instance env (protocol_state c) key_event_id
        (key_event_timeout_blocks (config c));
  Ok (set_protocol_state s c).

(** Decompression of an Edwards point is a parameter of the key conversion. *)
Definition vote_pk (decompress : bytes → option bytes) (env : Env) (c : MpcContract)
    (key_event_id : KeyEventId) (public_key : DtoPublicKey) : result Error MpcContract :=
  _ ← assert_caller_is_attested_participant_and_protocol_active env c;
  extended_key ←
    map_err (λ _, EInvalidParameters MalformedPayload) (extended_of_dto decompress public_key);
  s ← install (ProtocolContractState_vote_pk env (protocol_state c) key_event_id extended_key);
  Ok (set_protocol_state s c).

Definition start_reshare_instance (env : Env) (c : MpcContract) (key_event_id : KeyEventId) :
    result Error MpcContract :=
  _ ← assert_caller_is_attested_participant_and_protocol_active env c;
  s ← ProtocolContractState_start_reshare_instance env (protocol_state c) key_event_id
        (key_event_timeout_blocks (config c));
  Ok (set_protocol_state s c).

Definition vote_reshared (env : Env) (c : MpcContract) (key_event_id : KeyEventId) :
    result Error (MpcContract * list Effect) :=
  _ ← assert_caller_is_attested_participant_and_protocol_active env c;
  '(s, o) ← ProtocolContractState_vote_reshared env (protocol_state c) key_event_id;
  match o with
  | Some new_state =>
    Ok (set_protocol_state new_state c,
        [CallSelf REMOVE_NON_PARTICIPANT_UPDATE_VOTES
           (gas_from_tgas (remove_non_participant_update_votes_tera_gas (config c)));
         CallSelf CLEAN_TEE_STATUS (gas_from_tgas (clean_tee_status_tera_gas (config c)));
         CallSelf CLEANUP_ORPHANED_NODE_MIGRATIONS
           (gas_from_tgas (cleanup_orphaned_node_migrations_tera_gas (config c)))])
  | None => Ok (set_protocol_state s c, [])
  end.

Definition vote_cancel_resharing (env : Env) (c : MpcContract) : result Error MpcContract :=
  s ← install (ProtocolContractState_vote_cancel_resharing env (protocol_state c));
  Ok (set_protocol_state s c).

Definition vote_cancel_keygen (env : Env) (c : MpcContract) (next_domain_id : Z) :
    result Error MpcContract :=
  s ← install (ProtocolContractState_vote_cancel_keygen env (protocol_state c) next_domain_id);
  Ok (set_protocol_state s c).

Definition vote_abort_key_event_instance (env : Env) (c : MpcContract)
    (key_event_id : KeyEventId) : result Error MpcContract :=
  _ ← assert_caller_is_attested_participant_and_protocol_active env c;
  s ← ProtocolContractState_vote_abort_key_event_instance env (protocol_state c) key_event_id;
  Ok (set_protocol_state s c).

(** ** Updates *)

Definition propose_update (env : Env) (c : MpcContract) (args : ProposeUpdateArgs) :
    result Error (MpcContract * list Effect * UpdateId) :=
  proposer ← voter_or_panic env c;
  update ← Update_try_from args;
  let attached := attached_deposit env in
  let required := ProposedUpdates_required_deposit update in
  if attached <? required then Err (EInvalidParameters InsufficientDeposit)
  else
    let '(p, id) := ProposedUpdates_propose (proposed_updates c) update in
    let diff := attached - required in
    Ok (set_proposed_updates p c, if 0 <? diff then [Transfer proposer diff] else [], id).

Definition vote_update (env : Env) (c : MpcContract) (id : UpdateId) :
    result Error (MpcContract * list Effect * bool) :=
  match protocol_state c with
  | Running running_state =>
    threshold ← threshold c;
    voter ← voter_or_panic env c;
    match ProposedUpdates_vote (proposed_updates c) id voter with
    | None => Err (EInvalidParameters UpdateNotFound)
    | Some p =>
      let valid_votes_count :=
        zlen (filter (λ e : ParticipantEntry, vote_by_participant p !! entry_account e = Some id)
                (participants (tp_participants (rs_parameters running_state)))) in
      if valid_votes_count <? threshold then Ok (set_proposed_updates p c, [], false)
      else
        let update_gas_deposit := gas_from_tgas (contract_upgrade_deposit_tera_gas (config c)) in
        match ProposedUpdates_do_update p id update_gas_deposit with
        | None => Err (EInvalidParameters UpdateNotFound)
        | Some (p, promise) => Ok (set_proposed_updates p c, [RunUpdate promise], true)
        end
    end
  | _ => panic_str "protocol must be in running state"
  end.

Definition remove_update_vote (env : Env) (c : MpcContract) : result Error MpcContract :=
  match protocol_state c with
  | Running _ =>
    voter ← voter_or_panic env c;
    Ok (set_proposed_updates (ProposedUpdates_remove_vote (proposed_updates c) voter) c)
  | _ => panic_str "protocol must be in running state"
  end.

Definition update_config (env : Env) (c : MpcContract) (cfg : DtoConfig) :
    result Error MpcContract :=
  _ ← assert_private env;
  Ok (set_config (Config_from_dto cfg) c).

(** ** Node images and attestations *)

Definition vote_code_hash (env : Env) (c : MpcContract) (code_hash : MpcDockerImageHash) :
    result Error MpcContract :=
  _ ← voter_or_panic env c;
  threshold_parameters ←
    match ProtocolContractState_threshold_parameters (protocol_state c) with
    | Some threshold_parameters => Ok threshold_parameters
    | None => panic_str "Contract is not initialized. Can not vote for a new image hash before initialization."
    end;
  participant ← AuthenticatedParticipantId_new env (tp_participants threshold_parameters);
  let '(tee, votes) := TeeState_vote (tee_state c) code_hash participant in
  threshold ← threshold c;
  if threshold <=? votes then
    tee ← TeeState_whitelist_tee_proposal env tee code_hash (tee_upgrade_deadline c);
    Ok (set_tee_state tee c)
  else Ok (set_tee_state tee c).

Definition verify_tee (env : Env) (c : MpcContract) : result Error (MpcContract * bool) :=
  _ ← voter_or_panic env c;
  match protocol_state c with
  | Running running_state =>
    let current_params := rs_parameters running_state in
    let '(tee, validation_result) :=
      TeeState_reverify_and_cleanup_participants env (tee_state c)
        (tp_participants current_params) (tee_upgrade_deadline c) in
    let c := set_tee_state tee c in
    match validation_result with
    | Full => Ok (set_accept_requests true c, true)
    | Partial participants_with_valid_attestation =>
      let threshold := as_usize (tp_threshold current_params) in
      let remaining := Participants_len participants_with_valid_attestation in
      if remaining <? threshold then Ok (set_accept_requests false c, false)
      else
        let c := set_accept_requests true c in
        threshold_parameters ←
          match ThresholdParameters_new participants_with_valid_attestation threshold with
          | Ok threshold_parameters => Ok threshold_parameters
          | Err _ => Panic (PanicExpect "Require valid threshold parameters")
          | Panic p => Panic p
          end;
        s ← tee_resharing running_state threshold_parameters;
        Ok (set_protocol_state s c, true)
    end
  | _ => Err (EInvalidState ProtocolStateNotRunning)
  end.

Definition remove_non_participant_update_votes (c : MpcContract) : result Error MpcContract :=
  match protocol_state c with
  | Running s =>
    Ok (set_proposed_updates
          (ProposedUpdates_remove_non_participant_votes (proposed_updates c)
             (tp_participants (rs_parameters s))) c)
  | _ => Err (EInvalidState ProtocolStateNotRunning)
  end.

Definition clean_tee_status (env : Env) (c : MpcContract) : result Error MpcContract :=
  _ ← assert_private env;
  match protocol_state c with
  | Running s =>
    Ok (set_tee_state (TeeState_clean_non_participants (tee_state c)
                         (tp_participants (rs_parameters s))) c)
  | _ => Err (EInvalidState ProtocolStateNotRunning)
  end.

(** ** Callbacks of yielded promises

    [None] is the [PromiseError] of a yield that timed out: the pending request
    is dropped and the returned promise fails the user's transaction. *)

Inductive PromiseOrValue (A : Type) : Type :=
  | Value (a : A)
  | ReturnPromise (p : Effect).

Definition fail_on_timeout_promise (c : MpcContract) : Effect :=
  CallSelf FAIL_ON_TIMEOUT (gas_from_tgas (fail_on_timeout_tera_gas (config c))).

Definition return_signature_and_clean_state_on_success (env : Env) (c : MpcContract)
    (request : SignatureRequest) (signature : option SignatureResponse) :
    result Error (MpcContract * PromiseOrValue SignatureResponse) :=
  _ ← assert_private env;
  match signature with
  | Some signature => Ok (c, Value _ signature)
  | None =>
    Ok (set_pending_signature_requests (delete request (pending_signature_requests c)) c,
        ReturnPromise _ (fail_on_timeout_promise c))
  end.

Definition return_ck_and_clean_state_on_success (env : Env) (c : MpcContract)
    (request : CKDRequest) (ck : option CKDResponse) :
    result Error (MpcContract * PromiseOrValue CKDResponse) :=
  _ ← assert_private env;
  match ck with
  | Some ck => Ok (c, Value _ ck)
  | None =>
    Ok (set_pending_ckd_requests (delete request (pending_ckd_requests c)) c,
        ReturnPromise _ (fail_on_timeout_promise c))
  end.

Definition return_verify_foreign_tx_and_clean_state_on_success (env : Env) (c : MpcContract)
    (request : VerifyForeignTransactionRequest)
    (response : option VerifyForeignTransactionResponse) :
    result Error (MpcContract * PromiseOrValue VerifyForeignTransactionResponse) :=
  _ ← assert_private env;
  match response with
  | Some response => Ok (c, Value _ response)
  | None =>
    Ok (set_pending_verify_foreign_tx_requests
          (delete request (pending_verify_foreign_tx_requests c)) c,
        ReturnPromise _ (fail_on_timeout_promise c))
  end.

Definition fail_on_timeout (env : Env) : result Error unit :=
  _ ← assert_private env; panic_str "Timeout".

(** ** Node migration *)

Definition register_backup_service (env : Env) (c : MpcContract)
    (backup_service_info : BackupServiceInfo) : result Error MpcContract :=
  account_id ← assert_caller_is_signer env;
  eligible ← ProtocolContractState_is_existing_or_prospective_participant (protocol_state c)
               account_id;
  if negb eligible then Err (EInvalidState NotParticipant)
  else Ok (set_node_migrations
             (NodeMigrations_set_backup_service_info (node_migrations c) account_id
                backup_service_info) c).

Definition start_node_migration (env : Env) (c : MpcContract)
    (destination_node_info : DestinationNodeInfo) : result Error MpcContract :=
  account_id ← assert_caller_is_signer env;
  match protocol_state c with
  | Running running_state =>
    if negb (RunningContractState_is_participant_given_account_id running_state account_id)
    then Err (EInvalidState NotParticipant)
    else Ok (set_node_migrations
               (NodeMigrations_set_destination_node_info (node_migrations c) account_id
                  destination_node_info) c)
  | _ => Err (EInvalidState ProtocolStateNotRunning)
  end.

Definition conclude_node_migration (env : Env) (c : MpcContract) (keyset : Keyset) :
    result Error MpcContract :=
  account_id ← assert_caller_is_signer env;
  let signer_pk := signer_account_pk env in
  match protocol_state c with
  | Running running_state =>
    if negb (RunningContractState_is_participant_given_account_id running_state account_id)
    then Err (EInvalidState NotParticipant)
    else if negb (bool_decide (rs_keyset running_state = keyset))
    then Err (ENodeMigrationError KeysetMismatch)
    else
      let '(migrations, o) := NodeMigrations_remove_migration (node_migrations c) account_id in
      let c := set_node_migrations migrations c in
      expected_destination_node ← ok_or o (ENodeMigrationError MigrationNotFound);
      if negb (bool_decide (dn_signer_account_pk expected_destination_node = signer_pk))
      then Err (ENodeMigrationError AccountPublicKeyMismatch)
      else
        let node_id :=
          mkNodeId account_id
            (sign_pk (dn_destination_node_info expected_destination_node))
            (Some (dn_signer_account_pk expected_destination_node)) in
        match TeeState_reverify_participants env (tee_state c) node_id (tee_upgrade_deadline c) with
        | QuoteValid =>
          running_state ← update_participant_info running_state account_id
                            (dn_destination_node_info expected_destination_node);
          Ok (set_protocol_state (Running running_state) c)
        | QuoteInvalid _ => Err (EInvalidParameters InvalidTeeRemoteAttestation)
        end
  | _ => Err (EInvalidState ProtocolStateNotRunning)
  end.

(** The loop over the accounts that registered a backup service. *)
Fixpoint cleanup_orphaned_loop (s : ProtocolContractState) (accounts : list AccountId)
    (m : NodeMigrations) : result Error NodeMigrations :=
  match accounts with
  | [] => Ok m
  | account_id :: accounts =>
    eligible ← ProtocolContractState_is_existing_or_prospective_participant s account_id;
    cleanup_orphaned_loop s accounts
      (if negb eligible then NodeMigrations_remove_account_data m account_id else m)
  end.

Definition cleanup_orphaned_node_migrations (env : Env) (c : MpcContract) :
    result Error MpcContract :=
  _ ← assert_private env;
  let backup_services := elements (dom (backup_services_info (node_migrations c))) in
  m ← cleanup_orphaned_loop (protocol_state c) backup_services (node_migrations c);
  Ok (set_node_migrations m c).

(** The contract as the next method reads it: the state is written to storage when
    a method returns. *)
Definition MpcContract_stored (c : MpcContract) : MpcContract :=
  set_tee_state (TeeState_stored (tee_state c)) c.

(** ** Deployment *)

Definition new_contract (s : ProtocolContractState) (parameters : ThresholdParameters)
    (init_config : option InitConfig) : MpcContract := {|
  protocol_state := s;
  pending_signature_requests := ∅;
  pending_ckd_requests := ∅;
  pending_verify_foreign_tx_requests := ∅;
  proposed_updates := ProposedUpdates_default;
  foreign_chain_policy := ForeignChainPolicy_default;
  foreign_chain_policy_votes := ForeignChainPolicyVotes_default;
  config := Config_of_option init_config;
  tee_state := TeeState_with_mocked_participant_attestations (tp_participants parameters);
  accept_requests := true;
  node_migrations := NodeMigrations_default;
  metrics := mkMetrics 0 0;
|}.

Definition init (parameters : ThresholdParameters) (init_config : option InitConfig) :
    result Error MpcContract :=
  s ← protocol_init parameters;
  Ok (new_contract s parameters init_config).

Definition init_running (env : Env) (domains : list DomainConfig) (next_domain_id : Z)
    (keyset : Keyset) (parameters : ThresholdParameters) (init_config : option InitConfig) :
    result Error MpcContract :=
  _ ← assert_private env;
  s ← protocol_init_running domains next_domain_id keyset parameters;
  Ok (new_contract s parameters init_config).

End Contract.

(** Follow a successful call to its last line. *)
Ltac follow H :=
  repeat lazymatch type of H with
  | _ ≫= _ = Ok _ => apply bind_Ok in H as (? & _ & H); cbn beta iota zeta in H
  | (match ?b with _ => _ end) = Ok _ => destruct b; try discriminate H; cbn beta iota zeta in H
  | Err _ = Ok _ => discriminate H
  | Panic _ = Ok _ => discriminate H
  | panic_str _ = Ok _ => discriminate H
  end.
