(* ===== verification/ContractCalls.v ===== *)
(** * Histories of the contract

    All state-changing methods of [lib.rs] as one type of calls, and the
    refinement of the contract to the protocol state machine: whatever calls
    are made, the protocol state moves only by the transitions of
    [ProtocolState], so the theorems about histories of the machine hold for
    the deployed contract. *)

From S2P Require Import Prelude Types CryptoTypes Participants Thresholds Domain KeyState.
From S2P Require Import KeyEvent ContractState Running ProtocolState Config Attestation Tee.
From S2P Require Import TeeProofs Update NodeMigrations ForeignChain Dto Requests Contract.

Section Calls.
Context `{L : Libraries} `{K : Curves} `{U : UpdateHost}.
Variable default_measurements : list ExpectedMeasurements.
Variable decompress : bytes → option bytes.

Inductive ContractCall : Type :=
  | MSign (env : Env) (args : SignRequestArgs) (data_id : CryptoHash)
  | MRequestKey (env : Env) (args : CKDRequestArgs) (data_id : CryptoHash)
  | MVerifyForeign (env : Env) (args : VerifyForeignTransactionRequestArgs) (data_id : CryptoHash)
  | MRespond (env : Env) (request : SignatureRequest) (response : SignatureResponse)
  | MRespondCkd (env : Env) (request : CKDRequest) (response : CKDResponse)
  | MRespondForeign (env : Env) (request : VerifyForeignTransactionRequest)
      (response : VerifyForeignTransactionResponse)
  | MSubmitInfo (env : Env) (storage_usage : Z) (attestation : DtoAttestation) (tls_key : bytes)
  | MVoteNewParameters (env : Env) (epoch : EpochId) (proposal : ThresholdParameters)
  | MVoteAddDomains (env : Env) (domains : list DomainConfig)
  | MVotePolicy (env : Env) (policy : ForeignChainPolicy)
  | MStartKeygen (env : Env) (id : KeyEventId)
  | MVotePk (env : Env) (id : KeyEventId) (pk : DtoPublicKey)
  | MStartReshare (env : Env) (id : KeyEventId)
  | MVoteReshared (env : Env) (id : KeyEventId)
  | MVoteCancelResharing (env : Env)
  | MVoteCancelKeygen (env : Env) (next_domain_id : Z)
  | MVoteAbort (env : Env) (id : KeyEventId)
  | MProposeUpdate (env : Env) (args : ProposeUpdateArgs)
  | MVoteUpdate (env : Env) (id : UpdateId)
  | MRemoveUpdateVote (env : Env)
  | MUpdateConfig (env : Env) (cfg : DtoConfig)
  | MVoteCodeHash (env : Env) (h : MpcDockerImageHash)
  | MVerifyTee (env : Env)
  | MRemoveNonParticipantVotes (env : Env)
  | MCleanTee (env : Env)
  | MReturnSignature (env : Env) (request : SignatureRequest) (response : option SignatureResponse)
  | MReturnCk (env : Env) (request : CKDRequest) (response : option CKDResponse)
  | MReturnForeign (env : Env) (request : VerifyForeignTransactionRequest)
      (response : option VerifyForeignTransactionResponse)
  | MRegisterBackup (env : Env) (info : BackupServiceInfo)
  | MStartMigration (env : Env) (info : DestinationNodeInfo)
  | MConcludeMigration (env : Env) (keyset : Keyset)
  | MCleanupMigrations (env : Env).

Definition no_effects (r : result Error MpcContract) : result Error (MpcContract * list Effect) :=
  c ← r; Ok (c, []).

Definition method_call (c : MpcContract) (call : ContractCall) :
    result Error (MpcContract * list Effect) :=
  match call with
  | MSign env args d => sign env c args d
  | MRequestKey env args d => request_app_private_key env c args d
  | MVerifyForeign env args d => verify_foreign_transaction env c args d
  | MRespond env rq rs => respond env c rq rs
  | MRespondCkd env rq rs => respond_ckd env c rq rs
  | MRespondForeign env rq rs => respond_verify_foreign_tx env c rq rs
  | MSubmitInfo env u a k => submit_participant_info default_measurements env u c a k
  | MVoteNewParameters env e p => no_effects (vote_new_parameters env c e p)
  | MVoteAddDomains env ds => no_effects (vote_add_domains env c ds)
  | MVotePolicy env p => no_effects (vote_foreign_chain_policy env c p)
  | MStartKeygen env id => no_effects (start_keygen_instance env c id)
  | MVotePk env id pk => no_effects (vote_pk decompress env c id pk)
  | MStartReshare env id => no_effects (start_reshare_instance env c id)
  | MVoteReshared env id => vote_reshared env c id
  | MVoteCancelResharing env => no_effects (vote_cancel_resharing env c)
  | MVoteCancelKeygen env n => no_effects (vote_cancel_keygen env c n)
  | MVoteAbort env id => no_effects (vote_abort_key_event_instance env c id)
  | MProposeUpdate env args => fst <$> propose_update env c args
  | MVoteUpdate env id => fst <$> vote_update env c id
  | MRemoveUpdateVote env => no_effects (remove_update_vote env c)
  | MUpdateConfig env cfg => no_effects (update_config env c cfg)
  | MVoteCodeHash env h => no_effects (vote_code_hash env c h)
  | MVerifyTee env => no_effects (fst <$> verify_tee env c)
  | MRemoveNonParticipantVotes env => no_effects (remove_non_participant_update_votes c)
  | MCleanTee env => no_effects (clean_tee_status env c)
  | MReturnSignature env rq rs =>
    no_effects (fst <$> return_signature_and_clean_state_on_success env c rq rs)
  | MReturnCk env rq rs => no_effects (fst <$> return_ck_and_clean_state_on_success env c rq rs)
  | MReturnForeign env rq rs =>
    no_effects (fst <$> return_verify_foreign_tx_and_clean_state_on_success env c rq rs)
  | MRegisterBackup env info => no_effects (register_backup_service env c info)
  | MStartMigration env info => no_effects (start_node_migration env c info)
  | MConcludeMigration env ks => no_effects (conclude_node_migration env c ks)
  | MCleanupMigrations env => no_effects (cleanup_orphaned_node_migrations env c)
  end.

(** The account, deposit and block of a call. *)
Definition call_env (call : ContractCall) : Env :=
  match call with
  | MSign env _ _ | MRequestKey env _ _ | MVerifyForeign env _ _ | MRespond env _ _
  | MRespondCkd env _ _ | MRespondForeign env _ _ | MSubmitInfo env _ _ _
  | MVoteNewParameters env _ _ | MVoteAddDomains env _ | MVotePolicy env _ | MStartKeygen env _
  | MVotePk env _ _ | MStartReshare env _ | MVoteReshared env _ | MVoteCancelResharing env
  | MVoteCancelKeygen env _ | MVoteAbort env _ | MProposeUpdate env _ | MVoteUpdate env _
  | MRemoveUpdateVote env | MUpdateConfig env _ | MVoteCodeHash env _ | MVerifyTee env
  | MRemoveNonParticipantVotes env | MCleanTee env | MReturnSignature env _ _ | MReturnCk env _ _
  | MReturnForeign env _ _ | MRegisterBackup env _ | MStartMigration env _
  | MConcludeMigration env _ | MCleanupMigrations env => env
  end.

(** The methods marked [payable]; the entry points of all others refuse a call
    with a deposit. *)
Definition payable (call : ContractCall) : bool :=
  match call with
  | MSign _ _ _ | MRequestKey _ _ _ | MVerifyForeign _ _ _ | MSubmitInfo _ _ _ _
  | MProposeUpdate _ _ => true
  | _ => false
  end.

Definition contract_call (c : MpcContract) (call : ContractCall) :
    result Error (MpcContract * list Effect) :=
  if negb (payable call) && negb (attached_deposit (call_env call) =? 0)
  then panic_str "Method doesn't accept deposit"
  else method_call c call.

(** ** The protocol part of a call *)

(** The resharing [verify_tee] starts: the participants whose attestation is
    still valid, with the current threshold. *)
Definition tee_proposal (env : Env) (c : MpcContract) (s : RunningContractState) :
    option ThresholdParameters :=
  match (TeeState_reverify_and_cleanup_participants env (tee_state c)
           (tp_participants (rs_parameters s)) (tee_upgrade_deadline c)).2 with
  | Full => None
  | Partial ps =>
    let threshold := as_usize (tp_threshold (rs_parameters s)) in
    if Participants_len ps <? threshold then None else Some (mkThresholdParameters ps threshold)
  end.

(** The transition of the protocol state machine a call performs, if any. *)
Definition protocol_part (c : MpcContract) (call : ContractCall) : option ProtocolCall :=
  match call with
  | MVoteNewParameters env e p => Some (PVoteNewParameters env e p)
  | MVoteAddDomains env ds => Some (PVoteAddDomains env ds)
  | MStartKeygen env id => Some (PStartKeygen env id (key_event_timeout_blocks (config c)))
  | MVotePk env id pk =>
    match extended_of_dto decompress pk with Ok k => Some (PVotePk env id k) | _ => None end
  | MStartReshare env id => Some (PStartReshare env id (key_event_timeout_blocks (config c)))
  | MVoteReshared env id => Some (PVoteReshared env id)
  | MVoteCancelResharing env => Some (PVoteCancelResharing env)
  | MVoteCancelKeygen env n => Some (PVoteCancelKeygen env n)
  | MVoteAbort env id => Some (PVoteAbort env id)
  | MVerifyTee env =>
    match protocol_state c with Running s => PTeeResharing <$> tee_proposal env c s | _ => None end
  | MConcludeMigration env _ =>
    d ← ongoing_migrations (node_migrations c) !! signer_account_id env;
    Some (PUpdateInfo (signer_account_id env) (dn_destination_node_info d))
  | _ => None
  end.

(** The accepted calls of a history, and the protocol calls they made.  The
    bounds of [call_fits] are on the protocol calls. *)
Inductive contract_run (c0 : MpcContract) :
    list ContractCall → list ProtocolCall → MpcContract → Prop :=
  | crun_nil : contract_run c0 [] [] c0
  | crun_call log plog c call c' fx :
      contract_run c0 log plog c →
      (∀ pc, protocol_part c call = Some pc → call_fits (protocol_state c) pc) →
      contract_call c call = Ok (c', fx) →
      contract_run c0 (log ++ [call]) (plog ++ option_list (protocol_part c call))
        (MpcContract_stored c').

(** A freshly deployed contract. *)
Inductive deployed : MpcContract → Prop :=
  | deployed_init parameters cfg c :
      Participants_bounded (tp_participants parameters) →
      init parameters cfg = Ok c → deployed c
  | deployed_init_running env domains next_domain_id keyset parameters cfg c :
      Participants_bounded (tp_participants parameters) → is_u64 (ks_epoch_id keyset) →
      is_u64 next_domain_id →
      init_running env domains next_domain_id keyset parameters cfg = Ok c → deployed c.
End Calls.

Lemma MpcContract_stored_twice c :
  MpcContract_stored (MpcContract_stored c) = MpcContract_stored c.
Proof. unfold MpcContract_stored, set_tee_state. cbn. by rewrite TeeState_stored_twice. Qed.

Section Refinement.
Context `{L : Libraries} `{K : Curves} `{U : UpdateHost}.
Variable default_measurements : list ExpectedMeasurements.
Variable decompress : bytes → option bytes.

Lemma no_effects_Ok (r : result Error MpcContract) c fx :
  no_effects r = Ok (c, fx) → r = Ok c ∧ fx = [].
Proof. intros (c' & Hr & [= <- <-])%bind_Ok. done. Qed.

(** Methods that leave the protocol state alone. *)
Definition keeps_protocol (c : MpcContract) (r : result Error (MpcContract * list Effect)) : Prop :=
  ∀ c' fx, r = Ok (c', fx) → protocol_state c' = protocol_state c.

Lemma user_methods_keep_protocol env c d :
  (∀ args, keeps_protocol c (sign env c args d)) ∧
  (∀ args, keeps_protocol c (request_app_private_key env c args d)) ∧
  (∀ args, keeps_protocol c (verify_foreign_transaction env c args d)).
Proof.
  split_and!; intros args c' fx H; [unfold sign in H|unfold request_app_private_key in H
    |unfold verify_foreign_transaction in H]; cbv zeta in H;
    unfold add_signature_request, add_ckd_request, add_verify_foreign_tx_request in H;
    cbv zeta in H; follow H; by injection H as <- <-.
Qed.

Lemma node_methods_keep_protocol env c :
  (∀ rq rs, keeps_protocol c (respond env c rq rs)) ∧
  (∀ rq rs, keeps_protocol c (respond_ckd env c rq rs)) ∧
  (∀ rq rs, keeps_protocol c (respond_verify_foreign_tx env c rq rs)) ∧
  (∀ u a k, keeps_protocol c (submit_participant_info default_measurements env u c a k)) ∧
  (∀ p, keeps_protocol c (no_effects (vote_foreign_chain_policy env c p))) ∧
  (∀ h, keeps_protocol c (no_effects (vote_code_hash env c h))).
Proof.
  split_and!; intros; intros c' fx H;
    try (apply no_effects_Ok in H as [H ->]).
  - unfold respond in H. follow H. by injection H as <- <-.
  - unfold respond_ckd in H. follow H. by injection H as <- <-.
  - unfold respond_verify_foreign_tx in H. follow H. by injection H as <- <-.
  - unfold submit_participant_info in H. cbv zeta in H. follow H; by injection H as <- <-.
  - unfold vote_foreign_chain_policy in H. destruct (protocol_state c) eqn:E; follow H;
      injection H as <-; by rewrite <- E.
  - unfold vote_code_hash in H. follow H; by injection H as <-.
Qed.

Lemma update_methods_keep_protocol env c :
  (∀ args, keeps_protocol c (fst <$> propose_update env c args)) ∧
  (∀ id, keeps_protocol c (fst <$> vote_update env c id)) ∧
  keeps_protocol c (no_effects (remove_update_vote env c)) ∧
  (∀ cfg, keeps_protocol c (no_effects (update_config env c cfg))) ∧
  keeps_protocol c (no_effects (clean_tee_status env c)).
Proof.
  split_and!; intros; intros c' fx H;
    try (apply no_effects_Ok in H as [H ->]); try (apply fmap_Ok in H as ([[c1 f1] b] & H & [= -> ->])).
  - unfold propose_update in H. cbv zeta in H. follow H; by injection H as <- <- <-.
  - unfold vote_update in H. destruct (protocol_state c) eqn:E; follow H;
      injection H as <- <- <-; by rewrite <- E.
  - unfold remove_update_vote in H. destruct (protocol_state c) eqn:E; follow H;
      injection H as <-; by rewrite <- E.
  - unfold update_config in H. follow H. by injection H as <-.
  - unfold clean_tee_status in H. destruct (protocol_state c) eqn:E; follow H;
      injection H as <-; by rewrite <- E.
Qed.

Lemma remove_votes_keeps_protocol c :
  keeps_protocol c (no_effects (remove_non_participant_update_votes c)).
Proof.
  intros c' fx [H ->]%no_effects_Ok. unfold remove_non_participant_update_votes in H.
  destruct (protocol_state c) eqn:E; follow H; injection H as <-; by rewrite <- E.
Qed.

Lemma callbacks_keep_protocol env c :
  (∀ rq rs, keeps_protocol c
     (no_effects (fst <$> return_signature_and_clean_state_on_success env c rq rs))) ∧
  (∀ rq rs, keeps_protocol c
     (no_effects (fst <$> return_ck_and_clean_state_on_success env c rq rs))) ∧
  (∀ rq rs, keeps_protocol c
     (no_effects (fst <$> return_verify_foreign_tx_and_clean_state_on_success env c rq rs))) ∧
  (∀ i, keeps_protocol c (no_effects (register_backup_service env c i))) ∧
  (∀ i, keeps_protocol c (no_effects (start_node_migration env c i))) ∧
  keeps_protocol c (no_effects (cleanup_orphaned_node_migrations env c)).
Proof.
  split_and!; intros; intros c' fx H; apply no_effects_Ok in H as [H ->];
    try (apply fmap_Ok in H as ([c1 v] & H & ->)).
  - unfold return_signature_and_clean_state_on_success in H. follow H; by injection H as <- _.
  - unfold return_ck_and_clean_state_on_success in H. follow H; by injection H as <- _.
  - unfold return_verify_foreign_tx_and_clean_state_on_success in H. follow H; by injection H as <- _.
  - unfold register_backup_service in H. follow H. by injection H as <-.
  - unfold start_node_migration in H. destruct (protocol_state c) eqn:E; follow H;
      injection H as <-; by rewrite <- E.
  - unfold cleanup_orphaned_node_migrations in H. follow H. by injection H as <-.
Qed.

(** [verify_tee] and [conclude_node_migration] perform the transition that
    [protocol_part] names. *)
Lemma verify_tee_protocol env c c' b :
  verify_tee env c = Ok (c', b) →
  match protocol_part decompress c (MVerifyTee env) with
  | Some pc => protocol_call (protocol_state c) pc = Ok (protocol_state c')
  | None => protocol_state c' = protocol_state c
  end.
Proof.
  unfold verify_tee, protocol_part, tee_proposal. intros (v & _ & H)%bind_Ok.
  destruct (protocol_state c) as [| |s|] eqn:E; try discriminate H. cbv zeta in H.
  destruct (TeeState_reverify_and_cleanup_participants _ _ _ _) as [tee r] eqn:Er.
  cbn [snd fmap option_fmap option_map].
  destruct r as [|ps]; [injection H as <- <-; exact E|].
  destruct (Participants_len ps <? as_usize (tp_threshold (rs_parameters s))) eqn:El;
    [injection H as <- <-; exact E|].
  apply bind_Ok in H as (tp & Htp & H). apply bind_Ok in H as (s' & Hs' & [= <- <-]).
  cbn [fmap option_fmap option_map]. simpl. rewrite <- Hs'. f_equal.
  unfold ThresholdParameters_new in Htp.
  destruct (ThresholdParameters_validate_threshold _ _) as [[]| |] in Htp;
    simpl in Htp; by simplify_eq.
Qed.

Lemma assert_caller_is_signer_Ok env a :
  assert_caller_is_signer env = Ok a ↔
  a = signer_account_id env ∧ signer_account_id env = predecessor_account_id env.
Proof. unfold assert_caller_is_signer. case_bool_decide; naive_solver. Qed.

(** A migration that succeeds. *)
Record concluded (env : Env) (c : MpcContract) (ks : Keyset) (s : RunningContractState)
    (d : DestinationNodeInfo) : Prop := {
  cm_running : protocol_state c = Running s;
  cm_signer : signer_account_id env = predecessor_account_id env;
  cm_participant :
    RunningContractState_is_participant_given_account_id s (signer_account_id env) = true;
  cm_keyset : rs_keyset s = ks;
  cm_destination : ongoing_migrations (node_migrations c) !! signer_account_id env = Some d;
  cm_key : dn_signer_account_pk d = signer_account_pk env;
  cm_attested :
    TeeState_reverify_participants env (tee_state c)
      (mkNodeId (signer_account_id env) (sign_pk (dn_destination_node_info d))
         (Some (dn_signer_account_pk d))) (tee_upgrade_deadline c) = QuoteValid;
}.

Lemma conclude_node_migration_Ok env c ks c' :
  conclude_node_migration env c ks = Ok c' ↔
  ∃ s d s', concluded env c ks s d ∧
    update_participant_info s (signer_account_id env) (dn_destination_node_info d) = Ok s' ∧
    c' = set_protocol_state (Running s') (set_node_migrations
           (NodeMigrations_remove_migration (node_migrations c) (signer_account_id env)).1 c).
Proof.
  unfold conclude_node_migration. split.
  - intros (a & [-> Hsig]%assert_caller_is_signer_Ok & H)%bind_Ok.
    destruct (protocol_state c) as [| |s|] eqn:E; try discriminate H.
    destruct (RunningContractState_is_participant_given_account_id s _) eqn:Hp;
      [|discriminate H]. cbn [negb] in H.
    destruct (bool_decide (rs_keyset s = ks)) eqn:Hk; [|discriminate H].
    apply bool_decide_eq_true in Hk. cbn in H.
    destruct (ongoing_migrations (node_migrations c) !! signer_account_id env) as [d|] eqn:Hd;
      [|discriminate H]. cbn in H.
    destruct (bool_decide (dn_signer_account_pk d = signer_account_pk env)) eqn:Hpk;
      [|discriminate H]. apply bool_decide_eq_true in Hpk. cbn [negb] in H.
    destruct (TeeState_reverify_participants _ _ _ _) eqn:Hv; [|discriminate H].
    apply bind_Ok in H as (s' & Hs' & [= <-]). by exists s, d, s'.
  - intros (s & d & s' & [E Hsig Hp Hk Hd Hpk Hv] & Hs' & ->).
    rewrite (proj2 (assert_caller_is_signer_Ok env (signer_account_id env)) (conj eq_refl Hsig)).
    cbn [mbind result_bind]. rewrite E, Hp, (bool_decide_eq_true_2 _ Hk).
    cbn [negb NodeMigrations_remove_migration]. rewrite Hd. cbn [ok_or mbind result_bind].
    rewrite (bool_decide_eq_true_2 _ Hpk). cbn [negb].
    match goal with |- context [TeeState_reverify_participants env ?t ?n ?d] =>
      change (TeeState_reverify_participants env t n d) with
        (TeeState_reverify_participants env (tee_state c) n (tee_upgrade_deadline c)) end.
    by rewrite Hv, Hs'.
Qed.

Lemma conclude_node_migration_protocol env c ks c' :
  conclude_node_migration env c ks = Ok c' →
  match protocol_part decompress c (MConcludeMigration env ks) with
  | Some pc => protocol_call (protocol_state c) pc = Ok (protocol_state c')
  | None => protocol_state c' = protocol_state c
  end.
Proof.
  intros (s & d & s' & [E _ _ _ Hd _ _] & Hs' & ->)%conclude_node_migration_Ok.
  unfold protocol_part. rewrite Hd. cbn. by rewrite E, Hs'.
Qed.

Lemma contract_call_method c call r :
  contract_call default_measurements decompress c call = Ok r →
  method_call default_measurements decompress c call = Ok r.
Proof. unfold contract_call. by destruct (negb _ && negb _). Qed.

Lemma contract_call_protocol c call c' fx :
  method_call default_measurements decompress c call = Ok (c', fx) →
  match protocol_part decompress c call with
  | Some pc => protocol_call (protocol_state c) pc = Ok (protocol_state c')
  | None => protocol_state c' = protocol_state c
  end.
Proof.
  destruct call; cbn [method_call]; intros H;
    try (match type of H with ?r = _ =>
      let Hk := fresh in
      assert (keeps_protocol c r) as Hk by
        (first [apply user_methods_keep_protocol|apply node_methods_keep_protocol
               |apply update_methods_keep_protocol|apply remove_votes_keeps_protocol
               |apply callbacks_keep_protocol]);
      exact (Hk _ _ H) end);
    try (apply no_effects_Ok in H as [H ->]).
  - unfold vote_new_parameters in H.
    destruct (TeeState_reverify_and_cleanup_participants _ _ _ _) as [tee []]; [|done].
    by apply bind_Ok in H as (s & Hs & [= <-]).
  - by apply bind_Ok in H as (s & Hs & [= <-]).
  - apply bind_Ok in H as (? & _ & H). by apply bind_Ok in H as (s & Hs & [= <-]).
  - apply bind_Ok in H as (? & _ & H). apply bind_Ok in H as (k & Hk & H).
    apply bind_Ok in H as (s & Hs & [= <-]). cbn [protocol_part].
    destruct (extended_of_dto decompress pk); by simplify_eq/=.
  - apply bind_Ok in H as (? & _ & H). by apply bind_Ok in H as (s & Hs & [= <-]).
  - apply bind_Ok in H as (? & _ & H). apply bind_Ok in H as ([s o] & Hs & H).
    cbn [protocol_part protocol_call]. rewrite Hs. by destruct o; injection H as <- <-.
  - by apply bind_Ok in H as (s & Hs & [= <-]).
  - by apply bind_Ok in H as (s & Hs & [= <-]).
  - apply bind_Ok in H as (? & _ & H). by apply bind_Ok in H as (s & Hs & [= <-]).
  - apply fmap_Ok in H as ([c1 b] & H & ->). by eapply verify_tee_protocol.
  - by eapply conclude_node_migration_protocol.
Qed.

Lemma contract_run_protocol c0 log plog c :
  contract_run default_measurements decompress c0 log plog c →
  protocol_run (protocol_state c0) plog (protocol_state c).
Proof.
  induction 1 as [|log plog c call c' fx Hrun IH Hfit Hcall]; [constructor|].
  pose proof (contract_call_protocol c call c' fx (contract_call_method _ _ _ Hcall)) as H.
  destruct (protocol_part decompress c call) as [pc|] eqn:E; simpl.
  - econstructor; [exact IH|by apply Hfit|exact H].
  - by rewrite app_nil_r, H.
Qed.

Lemma deployed_new c :
  deployed c → ∃ s tp cfg, c = new_contract s tp cfg ∧ initial s.
Proof.
  intros [tp cfg c' Hb (s & Hs & [= <-])%bind_Ok|env ds n ks tp cfg c' Hb He Hn H].
  - exists s, tp, cfg. split; [done|]. by eapply initial_fresh.
  - apply bind_Ok in H as (? & _ & (s & Hs & [= <-])%bind_Ok).
    exists s, tp, cfg. split; [done|]. by eapply initial_running.
Qed.

Lemma deployed_starts c : deployed c → initial (protocol_state c).
Proof. by intros (s & tp & cfg & -> & ?)%deployed_new. Qed.

Lemma deployed_run_ok c0 log plog c :
  deployed c0 → contract_run default_measurements decompress c0 log plog c →
  Protocol_ok (protocol_state c).
Proof.
  intros H0%deployed_starts%initial_ok Hrun%contract_run_protocol. by eapply protocol_run_ok.
Qed.

(** C1: the contract refines the protocol state machine.  Along every history
    of accepted method calls of a deployed contract, the protocol state is one
    the state machine reaches from its initial state by the protocol calls that
    the methods make, one per call at most ([protocol_part]); signing, node
    attestation, updates, callbacks and migrations bookkeeping leave it alone.
    The phase invariant therefore always holds. *)
Theorem contract_refines_protocol c0 log plog c :
  deployed c0 → contract_run default_measurements decompress c0 log plog c →
  initial (protocol_state c0) ∧
  protocol_run (protocol_state c0) plog (protocol_state c) ∧
  Protocol_ok (protocol_state c) ∧ (length plog ≤ length log)%nat.
Proof.
  intros H0 Hrun. split_and!.
  - by apply deployed_starts.
  - by eapply contract_run_protocol.
  - by eapply deployed_run_ok.
  - clear H0. induction Hrun as [|? ? c1 call]; [done|]. rewrite !length_app. simpl.
    destruct (protocol_part decompress c1 call); simpl; lia.
Qed.
End Refinement.
