(* ===== verification/RequestLifecycle.v ===== *)
(** * Life of a request

    The contract together with the promises it yielded.  A yielded promise waits
    until it is resumed with data or times out; the runtime then schedules the
    method that was named when it was created, which runs in a later step, once,
    and may fail for reasons of its own (its gas).  Other calls can come between
    the time-out and the callback, so an entry of the contract's tables may
    belong to a promise that has timed out already; a resumption of a promise
    that is not waiting has no effect.  A request lives from the method that
    creates the promise ([sign], [request_app_private_key],
    [verify_foreign_transaction]), through the node's response, to the callback
    that answers or fails the user's transaction. *)

From S2P Require Import Prelude Types CryptoTypes Participants Thresholds Domain KeyState.
From S2P Require Import KeyEvent ContractState Running ProtocolState Config Attestation Tee.
From S2P Require Import Update NodeMigrations ForeignChain Dto Requests Contract ContractCalls.

(** The entry of a request in the contract's tables. *)
Definition pending (c : MpcContract) (r : YieldRequest) : option CryptoHash :=
  match r with
  | YSign r => pending_signature_requests c !! r
  | YCkd r => pending_ckd_requests c !! r
  | YForeign r => pending_verify_foreign_tx_requests c !! r
  end.

(** A response is of the kind its request asks for. *)
Definition same_kind (r : YieldRequest) (a : YieldResponse) : bool :=
  match r, a with
  | YSign _, AnsSign _ | YCkd _, AnsCkd _ | YForeign _, AnsForeign _ => true
  | _, _ => false
  end.

(** A promise waits, has timed out or been resumed with its callback still to
    come, or its callback is over. *)
Inductive YieldState : Type :=
  | Waiting (request : YieldRequest)
  | TimedOut (request : YieldRequest)
  | Resumed (request : YieldRequest) (response : YieldResponse)
  | Finished (request : YieldRequest).

Record World : Type := mkWorld {
  contract : MpcContract;
  yields : gmap CryptoHash YieldState;
}.

Definition apply_effect (y : gmap CryptoHash YieldState) (e : Effect) :
    gmap CryptoHash YieldState :=
  match e with
  | YieldCreate d r _ => <[d := Waiting r]> y
  | YieldResume d a =>
    match y !! d with Some (Waiting r) => <[d := Resumed r a]> y | _ => y end
  | _ => y
  end.
Definition apply_effects : gmap CryptoHash YieldState → list Effect → gmap CryptoHash YieldState :=
  foldl apply_effect.

(** Promise ids of the runtime are unique. *)
Definition fresh_ids (y : gmap CryptoHash YieldState) (fx : list Effect) : bool :=
  forallb (λ e, match e with YieldCreate d _ _ => bool_decide (y !! d = None) | _ => true end) fx.

Section Lifecycle.
Context `{L : Libraries} `{K : Curves} `{U : UpdateHost}.
Variable default_measurements : list ExpectedMeasurements.
Variable decompress : bytes → option bytes.

Definition is_callback (call : ContractCall) : bool :=
  match call with MReturnSignature _ _ _ | MReturnCk _ _ _ | MReturnForeign _ _ _ => true | _ => false end.

(** The call the runtime makes for a promise; [None] for a time-out. *)
Definition callback_call (env : Env) (r : YieldRequest) (a : option YieldResponse) :
    option ContractCall :=
  match r, a with
  | YSign r, None => Some (MReturnSignature env r None)
  | YSign r, Some (AnsSign a) => Some (MReturnSignature env r (Some a))
  | YCkd r, None => Some (MReturnCk env r None)
  | YCkd r, Some (AnsCkd a) => Some (MReturnCk env r (Some a))
  | YForeign r, None => Some (MReturnForeign env r None)
  | YForeign r, Some (AnsForeign a) => Some (MReturnForeign env r (Some a))
  | _, _ => None
  end.

Inductive WorldStep : Type :=
  | WCall (call : ContractCall)
  | WDeliver (env : Env) (d : CryptoHash)
  | WTimeout (d : CryptoHash)
  | WTimeoutCallback (env : Env) (d : CryptoHash)
  | WFail (d : CryptoHash).

Definition run_call (w : World) (call : ContractCall) : option World :=
  match contract_call default_measurements decompress (contract w) call with
  | Ok (c, fx) =>
    if fresh_ids (yields w) fx
    then Some (mkWorld (MpcContract_stored c) (apply_effects (yields w) fx)) else None
  | _ => None
  end.

(** The callback of the promise [d]; it is private to the contract. *)
Definition run_callback (w : World) (env : Env) (d : CryptoHash) (r : YieldRequest)
    (a : option YieldResponse) : option World :=
  call ← callback_call env r a;
  match contract_call default_measurements decompress (contract w) call with
  | Ok (c, _) => Some (mkWorld (MpcContract_stored c) (<[d := Finished r]> (yields w)))
  | _ => None
  end.

Definition world_step (w : World) (l : WorldStep) : option World :=
  match l with
  | WCall call => if is_callback call then None else run_call w call
  | WDeliver env d =>
    match yields w !! d with
    | Some (Resumed r a) => run_callback w env d r (Some a)
    | _ => None
    end
  | WTimeout d =>
    match yields w !! d with
    | Some (Waiting r) => Some (mkWorld (contract w) (<[d := TimedOut r]> (yields w)))
    | _ => None
    end
  | WTimeoutCallback env d =>
    match yields w !! d with
    | Some (TimedOut r) => run_callback w env d r None
    | _ => None
    end
  | WFail d =>
    match yields w !! d with
    | Some (TimedOut r) | Some (Resumed r _) =>
        Some (mkWorld (contract w) (<[d := Finished r]> (yields w)))
    | _ => None
    end
  end.

Fixpoint world_run (w : World) (ls : list WorldStep) : option World :=
  match ls with
  | [] => Some w
  | l :: ls => w ← world_step w l; world_run w ls
  end.

(** ** What a call does to the tables *)

Inductive pending_change (c c' : MpcContract) (fx : list Effect) : Prop :=
  | change_none :
      (∀ y, apply_effects y fx = y) → (∀ r, pending c' r = pending c r) → pending_change c c' fx
  | change_create d r gas :
      YieldCreate d r gas ∈ fx →
      (∀ y, apply_effects y fx = <[d := Waiting r]> y) →
      (∀ r', pending c' r' = if decide (r' = r) then Some d else pending c r') →
      pending_change c c' fx
  | change_resume d r a :
      fx = [YieldResume d a] → pending c r = Some d → same_kind r a = true →
      (∀ r', pending c' r' = if decide (r' = r) then None else pending c r') →
      pending_change c c' fx.


Definition no_yield (e : Effect) : bool :=
  match e with YieldCreate _ _ _ | YieldResume _ _ => false | _ => true end.

Lemma apply_no_yields y fx : forallb no_yield fx = true → apply_effects y fx = y.
Proof.
  unfold apply_effects. revert y. induction fx as [|e fx IH]; intros y; simpl; [done|].
  intros [He Hfx]%andb_true_iff. rewrite IH by done. by destruct e.
Qed.

Lemma apply_effects_app y fx gx : apply_effects y (fx ++ gx) = apply_effects (apply_effects y fx) gx.
Proof. apply foldl_app. Qed.

Lemma check_deposit_no_yield env m fx : check_deposit env m = Ok fx → forallb no_yield fx = true.
Proof.
  unfold check_deposit. intros H. follow H. injection H as <-. by destruct (0 <? _).
Qed.

(** The three request methods: a refund, then the yield. *)
Lemma create_change c c' refund d r gas :
  forallb no_yield refund = true →
  (∀ r', pending c' r' = if decide (r' = r) then Some d else pending c r') →
  pending_change c c' (refund ++ [YieldCreate d r gas]).
Proof.
  intros Hr Hp. apply (change_create _ _ _ d r gas); [set_solver| |done].
  intros y. by rewrite apply_effects_app, (apply_no_yields y refund).
Qed.

Ltac show_tables :=
  cbn [pending set_pending_signature_requests set_pending_ckd_requests
       set_pending_verify_foreign_tx_requests pending_signature_requests pending_ckd_requests
       pending_verify_foreign_tx_requests set_metrics].

Lemma sign_change env c args d c' fx : sign env c args d = Ok (c', fx) → pending_change c c' fx.
Proof.
  unfold sign. cbv zeta. intros (rq & _ & H)%bind_Ok. apply bind_Ok in H as (dc & _ & H).
  apply bind_Ok in H as (? & _ & H). apply bind_Ok in H as (? & _ & H).
  apply bind_Ok in H as (refund & Hr & H). case_match; [discriminate H|].
  unfold add_signature_request in H. injection H as <- <-.
  apply create_change; [by eapply check_deposit_no_yield|].
  intros [r'|r'|r']; show_tables; [|by rewrite decide_False by done..].
  destruct (decide (YSign r' = YSign _)) as [[= ->]|Hne]; [by rewrite lookup_insert_eq|].
  rewrite lookup_insert_ne; [done|congruence].
Qed.

Lemma ckd_change env c args d c' fx :
  request_app_private_key env c args d = Ok (c', fx) → pending_change c c' fx.
Proof.
  unfold request_app_private_key. cbv zeta. intros (dc & _ & H)%bind_Ok.
  apply bind_Ok in H as (? & _ & H). apply bind_Ok in H as (refund & Hr & H).
  case_match; [discriminate H|].
  unfold add_ckd_request in H. injection H as <- <-.
  apply create_change; [by eapply check_deposit_no_yield|].
  intros [r'|r'|r']; show_tables; [by rewrite decide_False by done| |by rewrite decide_False by done].
  destruct (decide (YCkd r' = YCkd _)) as [[= ->]|Hne]; [by rewrite lookup_insert_eq|].
  rewrite lookup_insert_ne; [done|congruence].
Qed.

Lemma foreign_change env c args d c' fx :
  verify_foreign_transaction env c args d = Ok (c', fx) → pending_change c c' fx.
Proof.
  unfold verify_foreign_transaction. cbv zeta. intros (dc & _ & H)%bind_Ok.
  case_match; [discriminate H|].
  apply bind_Ok in H as (? & _ & H). apply bind_Ok in H as (refund & Hr & H).
  case_match; [discriminate H|].
  unfold add_verify_foreign_tx_request in H. injection H as <- <-.
  apply create_change; [by eapply check_deposit_no_yield|].
  intros [r'|r'|r']; show_tables; [by rewrite decide_False by done..|].
  destruct (decide (YForeign r' = YForeign _)) as [[= ->]|Hne]; [by rewrite lookup_insert_eq|].
  rewrite lookup_insert_ne; [done|congruence].
Qed.


(** Responses: the entry is removed and its promise resumed. *)
Lemma respond_change env c rq rs c' fx : respond env c rq rs = Ok (c', fx) → pending_change c c' fx.
Proof.
  unfold respond. intros (? & _ & H)%bind_Ok. apply bind_Ok in H as (pk & _ & H).
  apply bind_Ok in H as (b & _ & H). case_match; [discriminate H|].
  destruct (pending_signature_requests c !! rq) as [d|] eqn:Hd; [|discriminate H].
  injection H as <- <-. apply (change_resume _ _ _ d (YSign rq) (AnsSign rs)); [done..|].
  intros [r'|r'|r']; show_tables; [|by rewrite decide_False by done..].
  destruct (decide (YSign r' = YSign _)) as [[= ->]|Hne]; [by rewrite lookup_delete_eq|].
  rewrite lookup_delete_ne; [done|congruence].
Qed.

Lemma respond_ckd_change env c rq rs c' fx :
  respond_ckd env c rq rs = Ok (c', fx) → pending_change c c' fx.
Proof.
  unfold respond_ckd. intros (? & _ & H)%bind_Ok. do 2 (case_match; [discriminate H|]).
  apply bind_Ok in H as (pk & _ & H).
  destruct (pending_ckd_requests c !! rq) as [d|] eqn:Hd; [|discriminate H].
  injection H as <- <-. apply (change_resume _ _ _ d (YCkd rq) (AnsCkd rs)); [done..|].
  intros [r'|r'|r']; show_tables; [by rewrite decide_False by done| |by rewrite decide_False by done].
  destruct (decide (YCkd r' = YCkd _)) as [[= ->]|Hne]; [by rewrite lookup_delete_eq|].
  rewrite lookup_delete_ne; [done|congruence].
Qed.

Lemma respond_foreign_change env c rq rs c' fx :
  respond_verify_foreign_tx env c rq rs = Ok (c', fx) → pending_change c c' fx.
Proof.
  unfold respond_verify_foreign_tx. intros (? & _ & H)%bind_Ok. apply bind_Ok in H as (pk & _ & H).
  apply bind_Ok in H as (b & _ & H). case_match; [discriminate H|].
  destruct (pending_verify_foreign_tx_requests c !! rq) as [d|] eqn:Hd; [|discriminate H].
  injection H as <- <-. apply (change_resume _ _ _ d (YForeign rq) (AnsForeign rs)); [done..|].
  intros [r'|r'|r']; show_tables; [by rewrite decide_False by done..|].
  destruct (decide (YForeign r' = YForeign _)) as [[= ->]|Hne]; [by rewrite lookup_delete_eq|].
  rewrite lookup_delete_ne; [done|congruence].
Qed.

(** All other methods leave the tables alone and yield nothing. *)
Definition tables (c : MpcContract) :=
  (pending_signature_requests c, pending_ckd_requests c, pending_verify_foreign_tx_requests c).

Definition quiet (c : MpcContract) (r : result Error (MpcContract * list Effect)) : Prop :=
  ∀ c' fx, r = Ok (c', fx) → tables c' = tables c ∧ forallb no_yield fx = true.

Lemma quiet_change c r c' fx : quiet c r → r = Ok (c', fx) → pending_change c c' fx.
Proof.
  intros Hq [[= Hs Hc Hf] Hy]%Hq. apply change_none.
  - intros y. by apply apply_no_yields.
  - intros [r'|r'|r']; show_tables; congruence.
Qed.

Lemma quiet_no_effects c (r : result Error MpcContract) :
  (∀ c', r = Ok c' → tables c' = tables c) → quiet c (no_effects r).
Proof. intros Hr c' fx [H ->]%no_effects_Ok. split; [by apply Hr|done]. Qed.

Lemma protocol_votes_quiet env c :
  (∀ e p, quiet c (no_effects (vote_new_parameters env c e p))) ∧
  (∀ ds, quiet c (no_effects (vote_add_domains env c ds))) ∧
  (∀ id, quiet c (no_effects (start_keygen_instance env c id))) ∧
  (∀ id pk, quiet c (no_effects (vote_pk decompress env c id pk))) ∧
  (∀ id, quiet c (no_effects (start_reshare_instance env c id))) ∧
  (∀ id, quiet c (vote_reshared env c id)) ∧
  quiet c (no_effects (vote_cancel_resharing env c)) ∧
  (∀ n, quiet c (no_effects (vote_cancel_keygen env c n))) ∧
  (∀ id, quiet c (no_effects (vote_abort_key_event_instance env c id))).
Proof.
  split_and!; intros; try (apply quiet_no_effects; intros c' H).
  - unfold vote_new_parameters in H. follow H. by injection H as <-.
  - unfold vote_add_domains in H. follow H. by injection H as <-.
  - unfold start_keygen_instance in H. follow H. by injection H as <-.
  - unfold vote_pk in H. follow H. by injection H as <-.
  - unfold start_reshare_instance in H. follow H. by injection H as <-.
  - intros c' fx H. unfold vote_reshared in H. follow H; by injection H as <- <-.
  - unfold vote_cancel_resharing in H. follow H. by injection H as <-.
  - unfold vote_cancel_keygen in H. follow H. by injection H as <-.
  - unfold vote_abort_key_event_instance in H. follow H. by injection H as <-.
Qed.

Lemma update_methods_quiet env c :
  (∀ args, quiet c (fst <$> propose_update env c args)) ∧
  (∀ id, quiet c (fst <$> vote_update env c id)) ∧
  quiet c (no_effects (remove_update_vote env c)) ∧
  (∀ cfg, quiet c (no_effects (update_config env c cfg))) ∧
  (∀ h, quiet c (no_effects (vote_code_hash env c h))) ∧
  quiet c (no_effects (fst <$> verify_tee env c)) ∧
  quiet c (no_effects (clean_tee_status env c)) ∧
  (∀ p, quiet c (no_effects (vote_foreign_chain_policy env c p))) ∧
  (∀ u a k, quiet c (submit_participant_info default_measurements env u c a k)).
Proof.
  split_and!; intros; try (apply quiet_no_effects; intros c' H).
  - intros c' fx ([[c1 f1] b] & H & [= -> ->])%fmap_Ok.
    unfold propose_update in H. cbv zeta in H. follow H; injection H as <- <- <-.
    split; [done|by destruct (0 <? _)].
  - intros c' fx ([[c1 f1] b] & H & [= -> ->])%fmap_Ok.
    unfold vote_update in H. follow H; by injection H as <- <- <-.
  - unfold remove_update_vote in H. follow H. by injection H as <-.
  - unfold update_config in H. follow H. by injection H as <-.
  - unfold vote_code_hash in H. follow H; by injection H as <-.
  - apply fmap_Ok in H as ([c1 b] & H & ->). unfold verify_tee in H. follow H; by injection H as <- <-.
  - unfold clean_tee_status in H. follow H. by injection H as <-.
  - unfold vote_foreign_chain_policy in H. follow H; by injection H as <-.
  - intros c' fx H. unfold submit_participant_info in H. cbv zeta in H.
    follow H; injection H as <- <-; (split; [done|]); [by destruct (0 <? _)..|done].
Qed.

Lemma remove_votes_quiet c : quiet c (no_effects (remove_non_participant_update_votes c)).
Proof.
  apply quiet_no_effects. intros c' H. unfold remove_non_participant_update_votes in H.
  follow H. by injection H as <-.
Qed.

Lemma migration_methods_quiet env c :
  (∀ i, quiet c (no_effects (register_backup_service env c i))) ∧
  (∀ i, quiet c (no_effects (start_node_migration env c i))) ∧
  (∀ ks, quiet c (no_effects (conclude_node_migration env c ks))) ∧
  quiet c (no_effects (cleanup_orphaned_node_migrations env c)).
Proof.
  split_and!; intros; apply quiet_no_effects; intros c' H.
  - unfold register_backup_service in H. follow H. by injection H as <-.
  - unfold start_node_migration in H. follow H. by injection H as <-.
  - apply conclude_node_migration_Ok in H as (s & d & s' & _ & _ & ->). done.
  - unfold cleanup_orphaned_node_migrations in H. follow H. by injection H as <-.
Qed.

Lemma contract_call_change c call c' fx :
  is_callback call = false →
  method_call default_measurements decompress c call = Ok (c', fx) → pending_change c c' fx.
Proof.
  destruct call; cbn [method_call is_callback]; intros Hcb H; try discriminate Hcb;
    first [by eapply sign_change|by eapply ckd_change|by eapply foreign_change
          |by eapply respond_change|by eapply respond_ckd_change|by eapply respond_foreign_change
          |eapply quiet_change; [|exact H];
           first [apply protocol_votes_quiet|apply update_methods_quiet
                 |apply remove_votes_quiet|apply migration_methods_quiet]].
Qed.


(** ** The tables and the promises agree *)

Lemma callback_change env r a call c c' fx :
  callback_call env r a = Some call →
  method_call default_measurements decompress c call = Ok (c', fx) →
  ∀ r', pending c' r' =
    match a with
    | None => if decide (r' = r) then None else pending c r'
    | Some _ => pending c r'
    end.
Proof.
  intros Hcall H r'.
  destruct r as [r|r|r], a as [[a|a|a]|]; try discriminate Hcall; injection Hcall as <-;
    apply no_effects_Ok in H as [H _]; apply fmap_Ok in H as ([c1 v] & H & ->);
    apply bind_Ok in H as (? & _ & [= <- <-]); try done;
    destruct r' as [r'|r'|r']; show_tables; cbn [fst]; try (by rewrite decide_False by done);
    destruct (decide _) as [[= ->]|Hne]; show_tables;
    try (by rewrite lookup_delete_eq); rewrite lookup_delete_ne; congruence.
Qed.

Lemma pending_stored c r : pending (MpcContract_stored c) r = pending c r.
Proof. by destruct r. Qed.

(** The promise of a request, answered or not. *)
Inductive promise_for (r : YieldRequest) : YieldState → Prop :=
  | pf_waiting : promise_for r (Waiting r)
  | pf_timed_out : promise_for r (TimedOut r)
  | pf_finished : promise_for r (Finished r).

(** An entry names a promise of its request that has not been resumed; it may
    have timed out. *)
Record world_ok (w : World) : Prop := {
  wo_pending : ∀ r d, pending (contract w) r = Some d →
    ∃ s, yields w !! d = Some s ∧ promise_for r s;
  wo_kinds : ∀ d r a, yields w !! d = Some (Resumed r a) → same_kind r a = true;
}.

Lemma promise_for_inj r r' s : promise_for r s → promise_for r' s → r = r'.
Proof. destruct 1; by inversion 1. Qed.

(** Only a waiting promise changes. *)
Lemma apply_resume y d a :
  (∃ r, y !! d = Some (Waiting r) ∧ apply_effect y (YieldResume d a) = <[d := Resumed r a]> y) ∨
  ((∀ r, y !! d ≠ Some (Waiting r)) ∧ apply_effect y (YieldResume d a) = y).
Proof. simpl. destruct (y !! d) as [[r|r|r b|r]|]; [left; eauto|by right..]. Qed.

Lemma run_call_ok w call w' :
  world_ok w → is_callback call = false → run_call w call = Some w' → world_ok w'.
Proof.
  intros [Hp Hk] Hcb H. unfold run_call in H.
  destruct (contract_call _ _ _ _) as [[c fx]| |] eqn:Hc; try discriminate H.
  apply contract_call_method in Hc.
  destruct (fresh_ids (yields w) fx) eqn:Hf; [|discriminate H]. injection H as <-.
  apply contract_call_change in Hc as [Hy Hr|d r gas Hin Hy Hr|d r a -> Hd Ha Hr]; [| | |done];
    split; cbn [contract yields apply_effects foldl].
  - intros r d. rewrite Hy, pending_stored, Hr. apply Hp.
  - intros d r a. rewrite Hy. apply Hk.
  - intros r' d'. rewrite Hy, pending_stored, Hr. destruct (decide (r' = r)) as [->|Hne].
    + intros [= <-]. rewrite lookup_insert_eq. eexists. split; [done|constructor].
    + intros (s & Hs & Hps)%Hp. exists s. rewrite lookup_insert_ne; [done|]. intros ->.
      unfold fresh_ids in Hf. rewrite forallb_forall in Hf.
      apply list_elem_of_In, Hf, bool_decide_eq_true in Hin. congruence.
  - intros d' r' a. rewrite Hy. intros [[_ ?]|[_ ?]]%lookup_insert_Some; [done|by eapply Hk].
  - intros r' d'. rewrite pending_stored, Hr. destruct (decide (r' = r)) as [->|Hne]; [done|].
    intros (s & Hs & Hps)%Hp. exists s. split; [|done].
    destruct (apply_resume (yields w) d a) as [(q & Hq & ->)|[_ ->]]; [|done].
    rewrite lookup_insert_ne; [done|]. intros ->. destruct (Hp r d' Hd) as (s' & Hs' & Hps').
    destruct Hne. eapply promise_for_inj; [done|]. congruence.
  - intros d' r' a'. destruct (apply_resume (yields w) d a) as [(q & Hq & ->)|[_ ->]]; [|apply Hk].
    intros [[_ [= <- <-]]|[_ ?]]%lookup_insert_Some; [|by eapply Hk].
    destruct (Hp r d Hd) as (s' & Hs' & Hps'). rewrite Hq in Hs'. injection Hs' as <-. by inversion Hps'; subst.
Qed.

(** A promise that moves on without the contract. *)
Lemma world_ok_move w d r s s' :
  world_ok w → yields w !! d = Some s → (∀ r', promise_for r' s → r' = r) → promise_for r s' →
  world_ok (mkWorld (contract w) (<[d := s']> (yields w))).
Proof.
  intros [Hp Hk] Hd Hs Hs'. split; cbn [contract yields].
  - intros r' d' (q & Hq & Hpq)%Hp. destruct (decide (d' = d)) as [->|Hne].
    + rewrite lookup_insert_eq. eexists. split; [done|]. rewrite Hd in Hq. injection Hq as <-.
      by rewrite (Hs r' Hpq).
    + rewrite lookup_insert_ne by done. eauto.
  - intros d' r' a [[_ ->]|[_ ?]]%lookup_insert_Some; [by inversion Hs'|by eapply Hk].
Qed.

Lemma run_callback_ok w env d r a w' :
  world_ok w →
  yields w !! d = Some (match a with None => TimedOut r | Some a => Resumed r a end) →
  run_callback w env d r a = Some w' → world_ok w'.
Proof.
  intros Hw Hd H. unfold run_callback in H. apply bind_Some in H as (call & Hcall & H).
  destruct (contract_call _ _ _ _) as [[c fx]| |] eqn:Hc; try discriminate H.
  apply contract_call_method in Hc.
  injection H as <-. pose proof (callback_change _ _ _ _ _ _ _ Hcall Hc) as Hr.
  destruct (world_ok_move w d r _ (Finished r) Hw Hd) as [Hp Hk];
    [by destruct a; inversion 1|constructor|].
  split; cbn [contract yields] in *; [|done].
  intros r' d'. rewrite pending_stored, Hr. intros Hd'. apply Hp.
  destruct a; [done|]. by destruct (decide (r' = r)).
Qed.

Lemma world_step_ok w l w' : world_ok w → world_step w l = Some w' → world_ok w'.
Proof.
  intros Hw H. destruct l as [call|env d|d|env d|d]; simpl in H.
  - destruct (is_callback call) eqn:E; [done|]. by eapply run_call_ok.
  - destruct (yields w !! d) as [[r|r|r a|r]|] eqn:E; try done.
    by eapply (run_callback_ok w env d r (Some a)).
  - destruct (yields w !! d) as [[r|r|r a|r]|] eqn:E; try done. injection H as <-.
    eapply world_ok_move; [done|done|by inversion 1|constructor].
  - destruct (yields w !! d) as [[r|r|r a|r]|] eqn:E; try done.
    by eapply (run_callback_ok w env d r None).
  - destruct (yields w !! d) as [[r|r|r a|r]|] eqn:E; try done; injection H as <-;
      (eapply world_ok_move; [done|done|by inversion 1|constructor]).
Qed.

Lemma world_run_ok w ls w' : world_ok w → world_run w ls = Some w' → world_ok w'.
Proof.
  revert w. induction ls as [|l ls IH]; intros w Hw; simpl; [by intros [= <-]|].
  intros (w1 & H1 & H2)%bind_Some. eapply IH; [|done]. by eapply world_step_ok.
Qed.

(** A deployed contract with no promises. *)
Definition initial_world (c : MpcContract) : World := mkWorld c ∅.

Lemma initial_world_ok c : deployed c → world_ok (initial_world c).
Proof.
  intros Hc. assert (tables c = (∅, ∅, ∅)) as Ht
    by by apply deployed_new in Hc as (s & tp & cfg & -> & _).
  injection Ht as H1 H2 H3. split; simpl; [|intros d r a; by rewrite lookup_empty].
  intros [r|r|r] d; show_tables; rewrite ?H1, ?H2, ?H3; by rewrite lookup_empty.
Qed.


(** ** Responses reach their users *)

(** The caller checks of the node API. *)
Definition attested_signer (env : Env) (c : MpcContract) : Prop :=
  signer_account_id env = predecessor_account_id env ∧
  ∃ ps, ProtocolContractState_active_participants (protocol_state c) = Ok ps ∧
    TeeState_is_caller_an_attested_participant env (tee_state c) ps = Ok tt.

Lemma check_responder_Ok env c :
  check_responder env c = Ok tt ↔
  attested_signer env c ∧
  ProtocolContractState_is_running_or_resharing (protocol_state c) = true ∧
  accept_requests c = true.
Proof.
  unfold check_responder, assert_caller_is_attested_participant_and_protocol_active,
    assert_caller_is_signer, attested_signer.
  case_bool_decide as Hs; cbn [mbind result_bind]; [|by split; [|intros [[? _] _]]].
  destruct (ProtocolContractState_active_participants _) as [ps| |]; cbn [mbind result_bind];
    [|by split; [|intros [(_ & ps & ? & _) _]]..].
  destruct (TeeState_is_caller_an_attested_participant env (tee_state c) ps) as [[]| |] eqn:Ha;
    cbn [mbind result_bind];
    [|by split; [|intros [(_ & ps' & [= <-] & ?) _]; congruence]..].
  destruct (ProtocolContractState_is_running_or_resharing _), (accept_requests c); simpl;
    (split; [try done|by intros (_ & ? & ?)]).
  intros _. split_and!; [done| |done..]. by exists ps.
Qed.

Lemma respond_Ok env c rq rs c' fx :
  respond env c rq rs = Ok (c', fx) ↔
  ∃ pk d, check_responder env c = Ok tt ∧ public_key_extended c (sr_domain_id rq) = Ok pk ∧
    response_is_valid rq rs pk = Ok true ∧ pending c (YSign rq) = Some d ∧
    c' = set_pending_signature_requests (delete rq (pending_signature_requests c)) c ∧
    fx = [YieldResume d (AnsSign rs)].
Proof.
  unfold respond. split.
  - intros ([] & Hc & H)%bind_Ok. apply bind_Ok in H as (pk & Hpk & H).
    apply bind_Ok in H as (b & Hb & H). destruct b; [|discriminate H]. cbn [negb] in H.
    destruct (pending_signature_requests c !! rq) as [d|] eqn:Hd; [|discriminate H].
    injection H as <- <-. by exists pk, d.
  - intros (pk & d & -> & Hpk & Hb & Hd & -> & ->). cbn [pending] in Hd.
    cbn [mbind result_bind]. rewrite Hpk. cbn [mbind result_bind]. rewrite Hb.
    cbn [mbind result_bind negb]. by rewrite Hd.
Qed.

(** *** Where a resumption comes from *)

Lemma quiet_resume c r c' d a : quiet c r → r = Ok (c', [YieldResume d a]) → False.
Proof. by intros Hq [_ ?]%Hq. Qed.

Lemma create_resume (refund : list Effect) d r gas d' a :
  refund ++ [YieldCreate d r gas] = [YieldResume d' a] → False.
Proof. destruct refund as [|x [|]]; discriminate. Qed.

(** Only [respond] resumes a promise with a signature. *)
Lemma resume_call c call c' d rs :
  is_callback call = false →
  method_call default_measurements decompress c call = Ok (c', [YieldResume d (AnsSign rs)]) →
  ∃ env rq, call = MRespond env rq rs ∧ pending c (YSign rq) = Some d.
Proof.
  destruct call; cbn [method_call is_callback]; intros Hcb H; try discriminate Hcb;
    try (exfalso; eapply quiet_resume; [|exact H];
         first [apply protocol_votes_quiet|apply update_methods_quiet
               |apply remove_votes_quiet|apply migration_methods_quiet]; fail).
  - exfalso. unfold sign in H. cbv zeta in H. follow H. injection H as _ H. by eapply create_resume.
  - exfalso. unfold request_app_private_key in H. cbv zeta in H. follow H. injection H as _ H.
    by eapply create_resume.
  - exfalso. unfold verify_foreign_transaction in H. cbv zeta in H. follow H. injection H as _ H.
    by eapply create_resume.
  - apply respond_Ok in H as (pk & d' & _ & _ & _ & Hd & _ & [= <- <-]). eauto.
  - exfalso. unfold respond_ckd in H. follow H; by injection H.
  - exfalso. unfold respond_verify_foreign_tx in H. follow H; by injection H.
Qed.

(** An earlier call of [respond] accepted this response. *)
Definition response_accepted (c0 : MpcContract) (ls : list WorldStep) (rq : SignatureRequest)
    (rs : SignatureResponse) : Prop :=
  ∃ ls1 ls2 w env pk, ls = ls1 ++ WCall (MRespond env rq rs) :: ls2 ∧
    world_run (initial_world c0) ls1 = Some w ∧ attested_signer env (contract w) ∧
    public_key_extended (contract w) (sr_domain_id rq) = Ok pk ∧ response_is_valid rq rs pk = Ok true.

Lemma response_accepted_app c0 ls rq rs l :
  response_accepted c0 ls rq rs → response_accepted c0 (ls ++ [l]) rq rs.
Proof.
  intros (ls1 & ls2 & w & env & pk & -> & H). exists ls1, (ls2 ++ [l]), w, env, pk.
  split; [by rewrite <- app_assoc|done].
Qed.

Lemma world_run_snoc w ls l : world_run w (ls ++ [l]) = (w' ← world_run w ls; world_step w' l).
Proof.
  revert w. induction ls as [|x ls IH]; intros w; simpl.
  - by destruct (world_step w l).
  - destruct (world_step w x); simpl; [apply IH|done].
Qed.

(** A step that resumes a promise with a signature is a call of [respond]. *)
Lemma step_resumed w l w' d rq rs :
  world_ok w → world_step w l = Some w' → yields w' !! d = Some (Resumed (YSign rq) (AnsSign rs)) →
  yields w !! d = Some (Resumed (YSign rq) (AnsSign rs)) ∨
  ∃ env, l = WCall (MRespond env rq rs) ∧ is_ok (respond env (contract w) rq rs) = true.
Proof.
  intros [Hp Hk] H Hd. destruct l as [call|env d'|d'|env d'|d']; simpl in H.
  - destruct (is_callback call) eqn:Hcb; [done|]. unfold run_call in H.
    destruct (contract_call _ _ _ _) as [[c fx]| |] eqn:Hc; try discriminate H.
    apply contract_call_method in Hc. destruct (fresh_ids _ _); [|discriminate H]. injection H as <-.
    pose proof Hc as [Hy _|d' r gas _ Hy _|d' r a -> Hd' _ _]%contract_call_change; [| | |done];
      cbn [yields] in Hd; [rewrite Hy in Hd; by left| |].
    { rewrite Hy in Hd. apply lookup_insert_Some in Hd as [[_ ?]|[_ ?]]; [done|by left]. }
    cbn [apply_effects foldl] in Hd.
    destruct (apply_resume (yields w) d' a) as [(q & Hq & Ha)|[_ Ha]]; rewrite Ha in Hd; [|by left].
    apply lookup_insert_Some in Hd as [[<- [= -> ->]]|[_ ?]]; [right|by left].
    pose proof Hc as (env & rq' & -> & Hd2)%resume_call; [|done].
    destruct (Hp _ _ Hd2) as (s & Hs & Hps). rewrite Hq in Hs. injection Hs as <-.
    inversion Hps; subst. exists env. split; [done|]. cbn [method_call] in Hc. by rewrite Hc.
  - destruct (yields w !! d') as [[r|r|r a|r]|] eqn:E; try done. unfold run_callback in H.
    apply bind_Some in H as (call & _ & H). destruct (contract_call _ _ _ _) as [[c fx]| |]; try done.
    injection H as <-. cbn [yields] in Hd. apply lookup_insert_Some in Hd as [[_ ?]|[_ ?]]; [done|by left].
  - destruct (yields w !! d') as [[r|r|r a|r]|] eqn:E; try done. injection H as <-. cbn [yields] in Hd.
    apply lookup_insert_Some in Hd as [[_ ?]|[_ ?]]; [done|by left].
  - destruct (yields w !! d') as [[r|r|r a|r]|] eqn:E; try done. unfold run_callback in H.
    apply bind_Some in H as (call & _ & H). destruct (contract_call _ _ _ _) as [[c fx]| |]; try done.
    injection H as <-. cbn [yields] in Hd. apply lookup_insert_Some in Hd as [[_ ?]|[_ ?]]; [done|by left].
  - destruct (yields w !! d') as [[r|r|r a|r]|] eqn:E; try done; injection H as <-; cbn [yields] in Hd;
      apply lookup_insert_Some in Hd as [[_ ?]|[_ ?]]; (done || by left).
Qed.

Lemma resumed_was_accepted c0 ls w d rq rs :
  deployed c0 → world_run (initial_world c0) ls = Some w →
  yields w !! d = Some (Resumed (YSign rq) (AnsSign rs)) → response_accepted c0 ls rq rs.
Proof.
  intros H0. revert w. induction ls as [|l ls IH] using rev_ind; intros w Hrun Hd.
  { injection Hrun as <-. cbn [initial_world yields] in Hd. by rewrite lookup_empty in Hd. }
  rewrite world_run_snoc in Hrun. apply bind_Some in Hrun as (w1 & H1 & Hstep).
  pose proof (world_run_ok _ _ _ (initial_world_ok c0 H0) H1) as Hok.
  destruct (step_resumed _ _ _ _ _ _ Hok Hstep Hd) as [Hold|(env & -> & Hr)].
  - by apply response_accepted_app, (IH w1).
  - destruct (respond env (contract w1) rq rs) as [[c' fx]| |] eqn:E; try discriminate Hr.
    apply respond_Ok in E as (pk & d' & Hc & Hpk & Hv & _). apply check_responder_Ok in Hc as (Hatt & _ & _).
    by exists ls, [], w1, env, pk.
Qed.

(** What an accepted response does with its promise [d]: a waiting promise is
    resumed and its callback hands exactly this response to the user; a promise
    that has timed out already, or is over, stays as it is, and the callback of a
    timed-out one still fails the user's transaction. *)
Definition response_outcome (w w' : World) (d : CryptoHash) (rq : SignatureRequest)
    (rs : SignatureResponse) : Prop :=
  match yields w !! d with
  | Some (Waiting r) =>
      r = YSign rq ∧ yields w' = <[d := Resumed (YSign rq) (AnsSign rs)]> (yields w) ∧
      ∀ env, predecessor_account_id env = current_account_id env → attached_deposit env = 0 →
        world_step w' (WDeliver env d) =
          Some (mkWorld (contract w') (<[d := Finished (YSign rq)]> (yields w'))) ∧
        return_signature_and_clean_state_on_success env (contract w') rq (Some rs) =
          Ok (contract w', Value _ rs)
  | Some (TimedOut r) =>
      r = YSign rq ∧ yields w' = yields w ∧
      ∀ env, predecessor_account_id env = current_account_id env →
        ∃ c, return_signature_and_clean_state_on_success env (contract w') rq None =
          Ok (c, ReturnPromise _ (fail_on_timeout_promise (contract w')))
  | Some (Finished r) => r = YSign rq ∧ yields w' = yields w
  | _ => False
  end.

(** C4: a response reaches the user that waits for it, and users get no other
    ones.  In every world a deployed contract reaches, when [respond] accepts a
    response, the caller is an attested participant calling for itself, the
    signature verifies under the key derived from the domain's key and the
    request's tweak, the entry of the request is gone, and the response goes to
    a promise that was made for exactly this request: if it is still waiting, the
    runtime then delivers exactly this response, and if it has timed out
    meanwhile, nothing changes and the user's transaction fails.  Conversely, a
    promise that holds a signature for its user was resumed by such an accepted
    [respond]. *)
Theorem response_reaches_waiting_user c0 ls w :
  deployed c0 → world_run (initial_world c0) ls = Some w →
  (∀ env rq rs c' fx, respond env (contract w) rq rs = Ok (c', fx) →
     attested_signer env (contract w) ∧
     (∃ pk, public_key_extended (contract w) (sr_domain_id rq) = Ok pk ∧
        response_is_valid rq rs pk = Ok true) ∧
     pending c' (YSign rq) = None ∧
     ∃ d, pending (contract w) (YSign rq) = Some d ∧ fx = [YieldResume d (AnsSign rs)] ∧
       response_outcome w (mkWorld (MpcContract_stored c') (apply_effects (yields w) fx)) d rq rs) ∧
  (∀ d rq rs, yields w !! d = Some (Resumed (YSign rq) (AnsSign rs)) → response_accepted c0 ls rq rs).
Proof.
  intros H0 Hrun. split; [|intros d rq rs; by apply resumed_was_accepted].
  intros env rq rs c' fx (pk & d & Hc & Hpk & Hv & Hd & -> & ->)%respond_Ok.
  pose proof (world_run_ok _ _ _ (initial_world_ok c0 H0) Hrun) as [Hp _].
  apply check_responder_Ok in Hc as (Hatt & _ & _).
  split; [done|]. split; [by exists pk|]. split; [show_tables; apply lookup_delete_eq|].
  exists d. split; [done|]. split; [done|]. destruct (Hp _ _ Hd) as (s & Hs & Hps).
  unfold response_outcome, apply_effects. cbn [foldl apply_effect yields contract]. rewrite Hs.
  inversion Hps; subst; [| |done].
  - split; [done|]. split; [done|]. intros env' He Hdep. unfold world_step. cbn [yields].
    rewrite lookup_insert_eq. unfold run_callback. cbn [callback_call mbind option_bind].
    unfold contract_call. cbn [call_env payable method_call]. rewrite Hdep. cbn [negb andb Z.eqb].
    unfold return_signature_and_clean_state_on_success, assert_private.
    rewrite (bool_decide_eq_true_2 _ He). split; [|done]. cbn. do 2 f_equal.
    apply MpcContract_stored_twice.
  - split; [done|]. split; [done|]. intros env' He.
    unfold return_signature_and_clean_state_on_success, assert_private.
    rewrite (bool_decide_eq_true_2 _ He). by eexists.
Qed.

(** ** Requests that are made once at a time are answerable *)

(** A promise that waits, or whose time-out is still to be handled. *)
Definition live (r : YieldRequest) (o : option YieldState) : Prop :=
  o = Some (Waiting r) ∨ o = Some (TimedOut r).

(** No two such promises are for the same request. *)
Definition distinct_waiting (w : World) : Prop :=
  ∀ d1 d2 r, live r (yields w !! d1) → live r (yields w !! d2) → d1 = d2.

Inductive distinct_run (w0 : World) : World → Prop :=
  | distinct_nil : distinct_run w0 w0
  | distinct_step w l w' :
      distinct_run w0 w → world_step w l = Some w' → distinct_waiting w' → distinct_run w0 w'.

(** Every promise that waits has its entry in the table. *)
Definition answerable (w : World) : Prop :=
  ∀ d r, yields w !! d = Some (Waiting r) → pending (contract w) r = Some d.

Lemma run_call_answerable w call w' :
  world_ok w → answerable w → is_callback call = false →
  run_call w call = Some w' → distinct_waiting w' → answerable w'.
Proof.
  intros [Hp _] Ha Hcb H Hdw'. unfold run_call in H.
  destruct (contract_call _ _ _ _) as [[c fx]| |] eqn:Hc; try discriminate H.
  apply contract_call_method in Hc.
  destruct (fresh_ids (yields w) fx) eqn:Hf; [|discriminate H]. injection H as <-.
  apply contract_call_change in Hc as [Hy Hr|d r gas Hin Hy Hr|d r a -> Hd _ Hr]; [| | |done];
    intros d' r'; cbn [contract yields]; rewrite pending_stored.
  - rewrite Hy, Hr. apply Ha.
  - intros Hw. pose proof (Hdw' d d' r) as Hd. cbn [yields] in Hd. rewrite Hy in Hw, Hd. rewrite Hr.
    destruct (decide (r' = r)) as [->|Hne].
    { f_equal. apply Hd; left; [apply lookup_insert_eq|done]. }
    apply lookup_insert_Some in Hw as [[_ [= ->]]|[_ Hw]]; [done|by apply Ha].
  - cbn [apply_effects foldl]. rewrite Hr. intros Hw.
    assert (yields w !! d' = Some (Waiting r') ∧ (yields w !! d = Some (Waiting r) → d' ≠ d)) as [Hw' Hne].
    { destruct (apply_resume (yields w) d a) as [(q & Hq & Hy)|[Hno Hy]]; rewrite Hy in Hw; [|naive_solver].
      apply lookup_insert_Some in Hw as [[_ ?]|[? ?]]; [done|]. split; [done|congruence]. }
    destruct (decide (r' = r)) as [->|]; [|by apply Ha].
    pose proof (Ha _ _ Hw') as Hd'. assert (d' = d) as -> by congruence. by destruct (Hne Hw').
Qed.

Lemma run_callback_answerable w env d r a w' :
  distinct_waiting w → answerable w →
  yields w !! d = Some (match a with None => TimedOut r | Some a => Resumed r a end) →
  run_callback w env d r a = Some w' → answerable w'.
Proof.
  intros Hdw Ha Hd H. unfold run_callback in H. apply bind_Some in H as (call & Hcall & H).
  destruct (contract_call _ _ _ _) as [[c fx]| |] eqn:Hc; try discriminate H.
  apply contract_call_method in Hc.
  injection H as <-. pose proof (callback_change _ _ _ _ _ _ _ Hcall Hc) as Hr.
  intros d' r'. cbn [yields contract]. intros [[_ ?]|[Hne Hw]]%lookup_insert_Some; [done|].
  rewrite pending_stored, Hr.
  destruct a as [a|]; [by apply Ha|]. destruct (decide (r' = r)) as [->|]; [|by apply Ha].
  destruct Hne. eapply (Hdw d d' r); [by right|by left].
Qed.

(** A promise that moves on without the contract and no longer waits. *)
Lemma answerable_move w d s :
  answerable w → (∀ r, s ≠ Waiting r) → answerable (mkWorld (contract w) (<[d := s]> (yields w))).
Proof.
  intros Ha Hs d' r'. cbn [yields contract]. intros [[_ ?]|[_ ?]]%lookup_insert_Some; [|by apply Ha].
  by destruct (Hs r').
Qed.

Lemma distinct_run_answerable c0 w :
  deployed c0 → distinct_run (initial_world c0) w →
  world_ok w ∧ distinct_waiting w ∧ answerable w.
Proof.
  intros H0. induction 1 as [|w l w' Hrun (Hok & Hdw & Ha) Hstep Hdw'].
  { split; [by apply initial_world_ok|].
    split; [intros d1 d2 r [?|?]|intros d r]; cbn [initial_world yields] in *; by rewrite lookup_empty in *. }
  split; [by eapply world_step_ok|]. split; [done|].
  destruct l as [call|env d|d|env d|d]; simpl in Hstep.
  - destruct (is_callback call) eqn:E; [done|]. by eapply run_call_answerable.
  - destruct (yields w !! d) as [[r|r|r a|r]|] eqn:E; try done.
    by eapply (run_callback_answerable w env d r (Some a)).
  - destruct (yields w !! d) as [[r|r|r a|r]|] eqn:E; try done. injection Hstep as <-. by apply answerable_move.
  - destruct (yields w !! d) as [[r|r|r a|r]|] eqn:E; try done.
    by eapply (run_callback_answerable w env d r None).
  - destruct (yields w !! d) as [[r|r|r a|r]|] eqn:E; try done; injection Hstep as <-; by apply answerable_move.
Qed.

(** A request is answerable until it is answered or times out.  As long as
    no request is repeated while it is pending, every promise that waits has
    its entry in the contract, so an attested node that presents a valid
    signature for it is accepted (while the contract accepts requests) and
    resumes that promise. *)
Theorem unique_requests_answerable c0 w d rq env rs pk :
  deployed c0 → distinct_run (initial_world c0) w →
  yields w !! d = Some (Waiting (YSign rq)) →
  attested_signer env (contract w) → accept_requests (contract w) = true →
  public_key_extended (contract w) (sr_domain_id rq) = Ok pk →
  response_is_valid rq rs pk = Ok true →
  ∃ c', respond env (contract w) rq rs = Ok (c', [YieldResume d (AnsSign rs)]) ∧
    pending c' (YSign rq) = None.
Proof.
  intros H0 Hrun Hd Hatt Hacc Hpk Hv.
  destruct (distinct_run_answerable c0 w H0 Hrun) as (_ & _ & Ha).
  eexists. split.
  - apply respond_Ok. exists pk, d. split_and!; try done; [|by apply Ha].
    apply check_responder_Ok. split_and!; try done.
    unfold public_key_extended in Hpk. by destruct (protocol_state (contract w)).
  - show_tables. apply lookup_delete_eq.
Qed.

End Lifecycle.
