(* ===== verification/ContractProofs.v ===== *)
(** * Properties of the contract's handlers

    Code updates over whole histories, the votes on the foreign-chain policy
    and on node images, the reaction of [verify_tee] to expired attestations,
    node migration, and who can submit attestations. *)

From S2P Require Import Prelude Types CryptoTypes Participants Thresholds Domain KeyState.
From S2P Require Import KeyEvent ContractState Running ProtocolState Config Attestation Tee.
From S2P Require Import TeeProofs Update NodeMigrations ForeignChain Dto Requests Contract.
From S2P Require Import ContractCalls.

(** Follow any method to the contract it returns. *)
Ltac run_handler H :=
  cbn [method_call] in H;
  try (apply no_effects_Ok in H as [H ->]); try (apply fmap_Ok in H as ([? ?] & H & ?); simplify_eq/=);
  first
    [ apply conclude_node_migration_Ok in H as (? & ? & ? & _ & _ & ->)
    | unfold sign, request_app_private_key, verify_foreign_transaction, respond, respond_ckd,
        respond_verify_foreign_tx, submit_participant_info, vote_new_parameters,
        vote_add_domains, vote_foreign_chain_policy, start_keygen_instance, vote_pk,
        start_reshare_instance, vote_reshared, vote_cancel_resharing, vote_cancel_keygen,
        vote_abort_key_event_instance, propose_update, vote_update, remove_update_vote,
        update_config, vote_code_hash, verify_tee, remove_non_participant_update_votes,
        clean_tee_status, return_signature_and_clean_state_on_success,
        return_ck_and_clean_state_on_success, return_verify_foreign_tx_and_clean_state_on_success,
        register_backup_service, start_node_migration, cleanup_orphaned_node_migrations,
        add_signature_request, add_ckd_request, add_verify_foreign_tx_request in H;
      cbv zeta in H; follow H;
      (injection H as <- <- || injection H as <- <- <- || injection H as <-) ].

(** ** Code updates *)

Section Updates.
Context `{L : Libraries} `{K : Curves} `{U : UpdateHost}.
Variable default_measurements : list ExpectedMeasurements.
Variable decompress : bytes → option bytes.

(** The updates proposed in a history of the contract. *)
Definition contract_proposals (log : list ContractCall) : list Update :=
  omap (λ call, match call with
    | MProposeUpdate _ args => match Update_try_from args with Ok u => Some u | _ => None end
    | _ => None
    end) log.

Definition touches_updates (call : ContractCall) : bool :=
  match call with
  | MProposeUpdate _ _ | MVoteUpdate _ _ | MRemoveUpdateVote _ | MRemoveNonParticipantVotes _ => true
  | _ => false
  end.

Lemma updates_untouched c call c' fx :
  touches_updates call = false →
  method_call default_measurements decompress c call = Ok (c', fx) →
  proposed_updates c' = proposed_updates c.
Proof.
  destruct call; cbn [touches_updates]; intros Ht H; by try discriminate Ht; run_handler H.
Qed.

Lemma voter_or_panic_Ok env c a :
  voter_or_panic env c = Ok a ↔
  a = signer_account_id env ∧ signer_account_id env = predecessor_account_id env ∧
  ProtocolContractState_authenticate_update_vote env (protocol_state c) = Ok tt.
Proof.
  unfold voter_or_panic, voter_account, assert_caller_is_signer, caller_is_signer.
  case_bool_decide as Hs; cbn [mbind result_bind negb]; [|naive_solver].
  destruct (ProtocolContractState_authenticate_update_vote _ _) as [[]| |];
    cbn [mbind result_bind]; [split; [by intros [= <-]|by intros [-> _]]|by split; [|intros (_&_&?)]..].
Qed.

(** An accepted vote, taken apart. *)
Record update_vote (env : Env) (c : MpcContract) (id : UpdateId) (s : RunningContractState)
    (p : ProposedUpdates) : Prop := {
  uv_running : protocol_state c = Running s;
  uv_signer : signer_account_id env = predecessor_account_id env;
  uv_member : signer_account_id env ∈ accounts_of (tp_participants (rs_parameters s));
  uv_vote : ProposedUpdates_vote (proposed_updates c) id (signer_account_id env) = Some p;
}.

(** The current participants that vote for an update. *)
Definition update_voters (s : RunningContractState) (p : ProposedUpdates) (id : UpdateId) :
    list AccountId :=
  filter (λ a, vote_by_participant p !! a = Some id) (accounts_of (tp_participants (rs_parameters s))).

Lemma update_voters_count s p id :
  zlen (filter (λ e : ParticipantEntry, vote_by_participant p !! entry_account e = Some id)
          (participants (tp_participants (rs_parameters s)))) = zlen (update_voters s p id).
Proof.
  unfold update_voters, accounts_of, zlen. f_equal.
  induction (participants (tp_participants (rs_parameters s))) as [|e l IH]; [done|].
  rewrite fmap_cons, !filter_cons. repeat case_decide; try done. simpl. by rewrite IH.
Qed.

Lemma vote_update_Ok env c id c' fx b :
  vote_update env c id = Ok (c', fx, b) →
  ∃ s p, update_vote env c id s p ∧
    let gas := gas_from_tgas (contract_upgrade_deposit_tera_gas (config c)) in
    if b then tp_threshold (rs_parameters s) ≤ zlen (update_voters s p id) ∧
      ∃ p' action, ProposedUpdates_do_update p id gas = Some (p', action) ∧
        fx = [RunUpdate action] ∧ proposed_updates c' = p'
    else zlen (update_voters s p id) < tp_threshold (rs_parameters s) ∧
      fx = [] ∧ proposed_updates c' = p.
Proof.
  unfold vote_update, threshold. intros H.
  destruct (protocol_state c) as [| |s|] eqn:E; try discriminate H.
  cbn [ProtocolContractState_threshold mbind result_bind] in H.
  apply bind_Ok in H as (a & (-> & Hsig & Hau)%voter_or_panic_Ok & H).
  rewrite E in Hau. cbn [ProtocolContractState_authenticate_update_vote] in Hau.
  apply bind_Ok in Hau as (i & (_ & Hm & _)%AuthenticatedParticipantId_new_Ok & _).
  destruct (ProposedUpdates_vote _ _ _) as [p|] eqn:Hv; [|discriminate H].
  exists s, p. split; [done|]. rewrite update_voters_count in H. cbv zeta.
  destruct (zlen (update_voters s p id) <? tp_threshold (rs_parameters s)) eqn:Hlt.
  - apply Z.ltb_lt in Hlt. by injection H as <- <- <-.
  - apply Z.ltb_ge in Hlt. destruct (ProposedUpdates_do_update _ _ _) as [[p' act]|] eqn:Hd;
      [|discriminate H]. injection H as <- <- <-. split; [done|]. by exists p', act.
Qed.

(** The history of the proposals inside a history of the contract. *)
Record updates_traced (log : list ContractCall) (ulog : list UpdateCall) (p : ProposedUpdates) :
    Prop := {
  ut_run : update_run ulog p;
  ut_proposals : proposals ulog = contract_proposals log;
  ut_votes : ∀ id a, CVote id a ∈ ulog →
    ∃ env, MVoteUpdate env id ∈ log ∧ signer_account_id env = a ∧
      signer_account_id env = predecessor_account_id env;
}.

Lemma contract_proposals_snoc log call :
  contract_proposals (log ++ [call]) = contract_proposals log ++ contract_proposals [call].
Proof. apply omap_app. Qed.

(** Appending update calls that cast no vote of their own. *)
Lemma updates_traced_snoc log ulog p call c p' :
  updates_traced log ulog p → update_call p c = Some p' →
  contract_proposals [call] = (match c with CPropose u => [u] | _ => [] end) →
  (∀ id a, c = CVote id a → ∃ env, call = MVoteUpdate env id ∧ signer_account_id env = a ∧
     signer_account_id env = predecessor_account_id env) →
  updates_traced (log ++ [call]) (ulog ++ [c]) p'.
Proof.
  intros [Hrun Hp Hv] Hc Hprop Hvote. constructor.
  - by econstructor.
  - by rewrite proposals_snoc, contract_proposals_snoc, Hp, Hprop.
  - intros id a [Hin|Hin]%elem_of_app.
    + destruct (Hv id a Hin) as (env & ? & ?). exists env. set_solver.
    + apply list_elem_of_singleton in Hin as <-.
      destruct (Hvote id a eq_refl) as (env & -> & ? & ?). exists env. set_solver.
Qed.

Lemma updates_traced_same log ulog p call :
  updates_traced log ulog p → contract_proposals [call] = [] → updates_traced (log ++ [call]) ulog p.
Proof.
  intros [Hrun Hp Hv] Hprop. constructor; [done| |].
  - by rewrite contract_proposals_snoc, Hprop, app_nil_r.
  - intros id a Hin. destruct (Hv id a Hin) as (env & ? & ?). exists env. set_solver.
Qed.

Lemma updates_traced_extend log ulog p c p' :
  updates_traced log ulog p → update_call p c = Some p' →
  (∀ u, c ≠ CPropose u) → (∀ id a, c ≠ CVote id a) → updates_traced log (ulog ++ [c]) p'.
Proof.
  intros [Hrun Hp Hv] Hc Hnp Hnv. constructor.
  - by econstructor.
  - rewrite proposals_snoc, Hp. destruct c as [u| | | |]; [by destruct (Hnp u)|by rewrite app_nil_r..].
  - intros id a [Hin|Hin]%elem_of_app; [by apply Hv|].
    apply list_elem_of_singleton in Hin as <-. by destruct (Hnv id a).
Qed.

Lemma propose_update_Ok env c args c' fx id :
  propose_update env c args = Ok (c', fx, id) →
  ∃ u, Update_try_from args = Ok u ∧
    ProposedUpdates_propose (proposed_updates c) u = (proposed_updates c', id).
Proof.
  unfold propose_update. intros (a & _ & H)%bind_Ok. apply bind_Ok in H as (u & Hu & H).
  exists u. split; [done|]. cbv zeta in H. follow H. by injection H as <- <- <-.
Qed.

Lemma contract_call_traced log ulog c call c' fx :
  updates_traced log ulog (proposed_updates c) →
  method_call default_measurements decompress c call = Ok (c', fx) →
  ∃ ulog', updates_traced (log ++ [call]) ulog' (proposed_updates c').
Proof.
  intros Ht H. destruct (touches_updates call) eqn:Etouch.
  2:{ rewrite (updates_untouched _ _ _ _ Etouch H). exists ulog.
      apply updates_traced_same; [done|]. by destruct call. }
  destruct call; try discriminate Etouch; cbn [method_call] in H.
  - apply fmap_Ok in H as ([[c1 f1] id] & (u & Hu & Hp)%propose_update_Ok & [= -> ->]).
    exists (ulog ++ [CPropose u]). eapply updates_traced_snoc; [done|cbn [update_call]; by rewrite Hp| |done].
    unfold contract_proposals. cbn [omap list_omap]. by rewrite Hu.
  - apply fmap_Ok in H as ([[c1 f1] b] & (s & p & [Hrun Hsig Hm Hv] & Hb)%vote_update_Ok & [= -> ->]).
    assert (updates_traced (log ++ [MVoteUpdate env id])
      (ulog ++ [CVote id (signer_account_id env)]) p) as Ht'.
    { eapply updates_traced_snoc; [done|done|done|]. intros ? ? [= <- <-]. by exists env. }
    cbv zeta in Hb. destruct b.
    + destruct Hb as (_ & p' & act & Hd & _ & ->).
      eexists. eapply (updates_traced_extend _ _ _ (CDoUpdate id _)); [done| |done..].
      cbn [update_call]. by rewrite Hd.
    + destruct Hb as (_ & _ & ->). by eexists.
  - apply no_effects_Ok in H as [H _]. unfold remove_update_vote in H.
    destruct (protocol_state c); try discriminate H. apply bind_Ok in H as (a & _ & [= <-]).
    eexists. by eapply (updates_traced_snoc _ _ _ _ (CRemoveVote a)).
  - apply no_effects_Ok in H as [H _]. unfold remove_non_participant_update_votes in H.
    destruct (protocol_state c) as [| |s|]; try discriminate H. injection H as <-.
    eexists. by eapply (updates_traced_snoc _ _ _ _
      (CRemoveNonParticipants (tp_participants (rs_parameters s)))).
Qed.

Lemma contract_run_traced c0 log plog c :
  deployed c0 → contract_run default_measurements decompress c0 log plog c →
  ∃ ulog, updates_traced log ulog (proposed_updates c).
Proof.
  intros H0. induction 1 as [|log plog c call c' fx Hrun [ulog IH] Hfit Hcall].
  - exists []. assert (proposed_updates c0 = ProposedUpdates_default) as ->.
    { by apply deployed_new in H0 as (? & ? & ? & -> & _). }
    constructor; [constructor|done|]. intros ? ? []%elem_of_nil.
  - exact (contract_call_traced _ _ _ _ _ _ IH (contract_call_method _ _ _ _ _ Hcall)).
Qed.

(** C5: code runs only on a threshold of votes.  In every history of a deployed
    contract, when [vote_update] executes an update, the contract is running
    and at least a threshold of its current participants, all different, called
    [vote_update] for this id themselves; what runs is the update that was
    proposed under the id in the history, and nothing else.  Votes of accounts
    that left the committee do not count. *)
Theorem update_needs_threshold c0 log plog c env id c' fx :
  deployed c0 → contract_run default_measurements decompress c0 log plog c →
  zlen (contract_proposals log) ≤ u64_max →
  vote_update env c id = Ok (c', fx, true) →
  ∃ s u voters, protocol_state c = Running s ∧
    NoDup voters ∧ tp_threshold (rs_parameters s) ≤ zlen voters ∧
    (∀ a, a ∈ voters → a ∈ accounts_of (tp_participants (rs_parameters s)) ∧
       ∃ env', MVoteUpdate env' id ∈ log ++ [MVoteUpdate env id] ∧
         signer_account_id env' = a ∧ predecessor_account_id env' = a) ∧
    contract_proposals log !! Z.to_nat id = Some u ∧
    fx = [RunUpdate (action_of u (gas_from_tgas (contract_upgrade_deposit_tera_gas (config c))))].
Proof.
  intros H0 Hrun Hmax (s & p & [Hs Hsig Hm Hv] & Hth & p' & act & Hd & -> & Hp')%vote_update_Ok.
  pose proof (deployed_run_ok _ _ _ _ _ _ H0 Hrun) as Hok. rewrite Hs in Hok.
  destruct (contract_run_traced _ _ _ _ H0 Hrun) as [ulog Ht].
  assert (updates_traced (log ++ [MVoteUpdate env id])
    (ulog ++ [CVote id (signer_account_id env)]) p) as [Hur Hprop Hvotes].
  { eapply updates_traced_snoc; [done|done|done|]. intros ? ? [= <- <-]. by exists env. }
  rewrite contract_proposals_snoc in Hprop. cbn in Hprop. rewrite app_nil_r in Hprop.
  rewrite <- Hprop in Hmax. pose proof (update_run_ok _ _ Hur Hmax) as [Hid He Hvt].
  unfold ProposedUpdates_do_update in Hd.
  destruct (entries p !! id) as [e|] eqn:Hl; [|discriminate Hd]. injection Hd as <- <-.
  destruct (He id e Hl) as [_ Hu]. rewrite Hprop in Hu.
  exists s, (ue_update e), (update_voters s p id). split_and!; try done.
  - apply NoDup_filter, Hok.
  - intros a [Ha Hacc]%list_elem_of_filter. split; [done|]. destruct (Hvt a id Ha) as [_ Hc].
    destruct (Hvotes id a Hc) as (env' & Hin & <- & Heq).
    exists env'. by rewrite <- Heq.
Qed.

End Updates.

(** ** Re-verification of the committee *)

Section VerifyTee.
Context `{L : Libraries} `{K : Curves} `{U : UpdateHost}.

(** Part of a committee, at least a threshold of it, is always accepted as the
    next committee. *)
Lemma sublist_incoming_ok tp ps' :
  params_ok tp → next_id ps' = next_id (tp_participants tp) →
  participants ps' `sublist_of` participants (tp_participants tp) →
  tp_threshold tp ≤ Participants_len ps' →
  params_ok (mkThresholdParameters ps' (tp_threshold tp)) ∧
  incoming_ok tp (mkThresholdParameters ps' (tp_threshold tp)).
Proof.
  intros [[Hwf (H2 & Hn & Hk)] [Hids Hnext Hlen]] Heq Hsub Hth.
  assert (Hin : ∀ e, e ∈ participants ps' → e ∈ participants (tp_participants tp))
    by (intros e He; by eapply elem_of_sublist).
  assert (Hlen' : Participants_len ps' ≤ Participants_len (tp_participants tp)).
  { unfold Participants_len, zlen. apply inj_le, sublist_length, Hsub. }
  assert (Hwf' : ThresholdParameters_wf (mkThresholdParameters ps' (tp_threshold tp))).
  { split; simpl; [|unfold threshold_ok; lia].
    destruct ps' as [n l]. simpl in Heq. subst n. by apply Participants_wf_sublist. }
  assert (Hall : ∀ e, e ∈ participants ps' → is_old (tp_participants tp) e).
  { intros e He. apply list_elem_of_fmap. eauto. }
  assert (Hold : old_entries (tp_participants tp) ps' = participants ps')
    by (unfold old_entries; by apply list_filter_all).
  assert (Hnew : new_entries (tp_participants tp) ps' = [])
    by (apply list_filter_none; auto).
  split; [split; [done|]; split; simpl|split; simpl; rewrite ?Hold, ?Hnew; try done].
  - intros i (e & -> & He)%list_elem_of_fmap. apply Hids, list_elem_of_fmap. eauto.
  - by rewrite Heq.
  - lia.
  - set_solver.
Qed.

(** The state after the committee shrinks to [tp]: a resharing, or directly the
    new parameters while there is no key. *)
Definition committee_becomes (s : RunningContractState) (tp : ThresholdParameters)
    (s' : ProtocolContractState) : Prop :=
  match s' with
  | Resharing r => kev_parameters (rh_resharing_key r) = tp ∧
      rs_keyset (rh_previous_running_state r) = rs_keyset s
  | Running r => dr_domains (rs_domains s) = [] ∧ rs_parameters r = tp
  | _ => False
  end.

Lemma tee_resharing_accepts s ps' :
  Running_ok s → next_id ps' = next_id (tp_participants (rs_parameters s)) →
  participants ps' `sublist_of` participants (tp_participants (rs_parameters s)) →
  tp_threshold (rs_parameters s) ≤ Participants_len ps' →
  ∃ s', tee_resharing s (mkThresholdParameters ps' (tp_threshold (rs_parameters s))) = Ok s' ∧
    committee_becomes s (mkThresholdParameters ps' (tp_threshold (rs_parameters s))) s'.
Proof.
  intros Hs Hn Hsub Hth. destruct (sublist_incoming_ok _ _ (run_params _ Hs) Hn Hsub Hth) as [Hp Hi].
  apply validate_incoming_proposal_Ok in Hi; [|apply Hs|apply Hs|apply Hp].
  unfold tee_resharing. rewrite Hi. cbn [mbind result_bind].
  unfold RunningContractState_transition_to_resharing_no_checks.
  destruct (DomainRegistry_get_domain_by_index (rs_domains s) 0) as [d|] eqn:Hd;
    (eexists; split; [done|]); simpl; [done|]. split; [|done].
  unfold DomainRegistry_get_domain_by_index in Hd. by destruct (dr_domains (rs_domains s)).
Qed.

(** An account of the running committee passes [voter_or_panic]. *)
Lemma voter_or_panic_member env c s :
  protocol_state c = Running s → signer_account_id env = predecessor_account_id env →
  signer_account_id env ∈ accounts_of (tp_participants (rs_parameters s)) →
  voter_or_panic env c = Ok (signer_account_id env).
Proof.
  intros Hs Hsig Hm. apply voter_or_panic_Ok. split; [done|]. split; [done|]. rewrite Hs.
  cbn [ProtocolContractState_authenticate_update_vote].
  by destruct (AuthenticatedParticipantId_new_member env _ Hm) as [i ->].
Qed.

Variable default_measurements : list ExpectedMeasurements.
Variable decompress : bytes → option bytes.

(** C27: what [verify_tee] does.  Called by a participant of a running contract
    it never fails, whatever was attested.  When every participant's attestation
    still holds, requests are accepted and the protocol state stays.  Otherwise
    let [ps'] be the participants whose attestation holds: if they are fewer
    than the threshold, the contract stops accepting requests and changes
    nothing else of the protocol; if not, it accepts requests and reshares to
    exactly [ps'], with their ids and the same threshold. *)
Theorem verify_tee_outcome c0 log plog c s env :
  deployed c0 → contract_run default_measurements decompress c0 log plog c →
  protocol_state c = Running s → signer_account_id env = predecessor_account_id env →
  signer_account_id env ∈ accounts_of (tp_participants (rs_parameters s)) →
  let ps := tp_participants (rs_parameters s) in
  let holds := attested env (tee_state c) (tee_upgrade_deadline c) in
  ∃ c' b, verify_tee env c = Ok (c', b) ∧
    (((∀ e, e ∈ participants ps → holds e) ∧ b = true ∧
      accept_requests c' = true ∧ protocol_state c' = protocol_state c) ∨
     ∃ ps', next_id ps' = next_id ps ∧ participants ps' `sublist_of` participants ps ∧
       (∀ e, e ∈ participants ps' ↔ e ∈ participants ps ∧ holds e) ∧
       (∃ e, e ∈ participants ps ∧ ¬ holds e) ∧
       ((Participants_len ps' < tp_threshold (rs_parameters s) ∧ b = false ∧
         accept_requests c' = false ∧ protocol_state c' = protocol_state c) ∨
        (tp_threshold (rs_parameters s) ≤ Participants_len ps' ∧ b = true ∧
         accept_requests c' = true ∧
         committee_becomes s (mkThresholdParameters ps' (tp_threshold (rs_parameters s)))
           (protocol_state c')))).
Proof.
  intros H0 Hrun Hs Hsig Hm ps holds. pose proof (deployed_run_ok _ _ _ _ _ _ H0 Hrun) as Hok.
  rewrite Hs in Hok. unfold verify_tee.
  rewrite (voter_or_panic_member env c s), Hs by done. cbn [mbind result_bind]. cbv zeta.
  destruct (TeeState_reverify_and_cleanup_participants _ _ _ _) as [tee r] eqn:Er.
  apply reverify_and_cleanup_spec in Er as [-> Hr].
  destruct r as [|ps'].
  { eexists _, true. split; [done|]. left. by split_and!. }
  destruct Hr as (Hn & Hsub & Hmem & Hex). pose proof (run_params _ Hok) as [Hwf Hb].
  destruct (wf_threshold _ Hwf) as (H2 & Hle & Hk). pose proof (bounded_len _ Hb).
  rewrite as_usize_small by lia.
  destruct (Z.ltb_spec (Participants_len ps') (tp_threshold (rs_parameters s))) as [Hlt|Hge].
  { eexists _, false. split; [done|]. right. exists ps'. split_and!; try done. left.
    by split_and!. }
  destruct (sublist_incoming_ok _ _ (run_params _ Hok) Hn Hsub Hge) as [[Hwf' Hb'] _].
  unfold ThresholdParameters_new.
  rewrite (proj2 (validate_threshold_Ok (Participants_len ps')
    (tp_threshold (rs_parameters s)) ltac:(split;
    [unfold Participants_len; auto with mpc|apply Hb'])) (wf_threshold _ Hwf')).
  cbn [mbind result_bind].
  destruct (tee_resharing_accepts s ps' Hok Hn Hsub Hge) as (s' & -> & Hs').
  cbn [mbind result_bind]. eexists _, true. split; [done|]. right. exists ps'.
  split_and!; try done. right. by split_and!.
Qed.
End VerifyTee.

(** ** The foreign-chain policy *)

Section Policy.
Context `{L : Libraries} `{K : Curves} `{U : UpdateHost}.
Variable default_measurements : list ExpectedMeasurements.
Variable decompress : bytes → option bytes.

Lemma policy_untouched c call c' fx :
  (∀ env p, call ≠ MVotePolicy env p) →
  method_call default_measurements decompress c call = Ok (c', fx) →
  foreign_chain_policy c' = foreign_chain_policy c ∧
  foreign_chain_policy_votes c' = foreign_chain_policy_votes c.
Proof.
  destruct call; intros Ht H; try (by destruct (Ht env policy)); run_handler H; by split.
Qed.

Definition policy_voted (log : list ContractCall) (p : ForeignChainPolicy) (a : AccountId) : Prop :=
  ∃ env, MVotePolicy env p ∈ log ∧ signer_account_id env = a.

Lemma contract_run_policy c0 log plog c :
  deployed c0 → contract_run default_measurements decompress c0 log plog c →
  ∀ a p, proposal_by_account (foreign_chain_policy_votes c) !! a = Some p → policy_voted log p a.
Proof.
  intros H0. induction 1 as [|log plog c call c' fx Hrun IH Hfit Hcall%contract_call_method]; intros a p Ha.
  { assert (foreign_chain_policy_votes c0 = ForeignChainPolicyVotes_default) as Hv.
    { by apply deployed_new in H0 as (? & ? & ? & -> & _). }
    rewrite Hv in Ha. cbn in Ha. by rewrite lookup_empty in Ha. }
  change (foreign_chain_policy_votes (MpcContract_stored c')) with
    (foreign_chain_policy_votes c') in Ha.
  assert (Hold : proposal_by_account (foreign_chain_policy_votes c) !! a = Some p →
    policy_voted (log ++ [call]) p a).
  { intros (env & ? & ?)%IH. exists env. set_solver. }
  destruct call; try (apply policy_untouched in Hcall as [_ Hv]; [|done]; rewrite Hv in Ha; auto).
  cbn [method_call] in Hcall. apply no_effects_Ok in Hcall as [Hcall _].
  unfold vote_foreign_chain_policy in Hcall.
  destruct (protocol_state c) as [| |s|]; try discriminate Hcall.
  apply bind_Ok in Hcall as (v & [-> Hm]%AuthenticatedAccountId_new_Ok & Hcall). cbv zeta in Hcall.
  destruct (_ =? _); injection Hcall as <-; cbn in Ha; [by rewrite lookup_empty in Ha|].
  apply lookup_insert_Some in Ha as [[<- <-]|[Hne Ha]]; [|auto]. exists env. set_solver.
Qed.

(** The foreign-chain policy changes only unanimously.  In every history of
    a deployed contract, a call that changes the policy is a vote for the new
    policy in a running contract, and every current participant has voted for
    exactly this policy. *)
Theorem policy_change_is_unanimous c0 log plog c call c' fx :
  deployed c0 → contract_run default_measurements decompress c0 log plog c →
  contract_call default_measurements decompress c call = Ok (c', fx) →
  foreign_chain_policy c' ≠ foreign_chain_policy c →
  ∃ s env, call = MVotePolicy env (foreign_chain_policy c') ∧ protocol_state c = Running s ∧
    ∀ a, a ∈ accounts_of (tp_participants (rs_parameters s)) →
      policy_voted (log ++ [call]) (foreign_chain_policy c') a.
Proof.
  intros H0 Hrun Hcall%contract_call_method Hne. pose proof (contract_run_policy _ _ _ _ H0 Hrun) as Hvotes.
  destruct call; try (apply policy_untouched in Hcall as [? _]; done).
  cbn [method_call] in Hcall. apply no_effects_Ok in Hcall as [Hcall _].
  unfold vote_foreign_chain_policy in Hcall.
  destruct (protocol_state c) as [| |s|]; try discriminate Hcall.
  apply bind_Ok in Hcall as (v & [-> Hm]%AuthenticatedAccountId_new_Ok & Hcall). cbv zeta in Hcall.
  destruct (_ =? _) eqn:Hall; injection Hcall as <-; [|done]. cbn [foreign_chain_policy].
  exists s, env. split; [done|]. split; [done|]. intros a (e & -> & He)%list_elem_of_fmap.
  apply Z.eqb_eq in Hall. unfold Participants_len, zlen in Hall. apply Nat2Z.inj in Hall.
  set (P := λ e : ParticipantEntry, _ = Some policy) in Hall.
  destruct (decide (P e)) as [HP|HP]; [|by pose proof (length_filter_lt P _ _ He HP); lia].
  unfold P in HP. apply lookup_insert_Some in HP as [[<- _]|[_ HP]]; [exists env; set_solver|].
  destruct (Hvotes _ _ HP) as (env' & ? & ?). exists env'. set_solver.
Qed.
End Policy.
