(* ===== verification/ContractTee.v ===== *)
(** * Node images and attestations over histories of the contract

    Where the whitelisted images and the stored attestations of a deployed
    contract come from, and what an attestation submission does to another
    node's entry. *)

From S2P Require Import Prelude Types CryptoTypes Participants Thresholds Domain KeyState.
From S2P Require Import KeyEvent ContractState Running ProtocolState Config Attestation Tee.
From S2P Require Import TeeProofs Update NodeMigrations ForeignChain Dto Requests Contract.
From S2P Require Import ContractCalls ContractProofs.

(** ** What a call does to the TEE state *)

Lemma vec_remove_elem {A} (l : list A) i x : x ∈ vec_remove l i → x ∈ l.
Proof.
  unfold vec_remove. intros [H|H]%elem_of_app;
    (eapply elem_of_sublist; [done|]); [apply sublist_take|apply sublist_drop].
Qed.

Lemma vec_insert_elem {A} (l : list A) i x y : x ∈ vec_insert l i y → x = y ∨ x ∈ l.
Proof.
  unfold vec_insert. intros [H|[->|H]%elem_of_cons]%elem_of_app; [right|by left|right].
  - rewrite <- (take_drop i l). set_solver.
  - rewrite <- (take_drop i l). set_solver.
Qed.

Section TeeChanges.
Context `{L : Libraries} `{K : Curves} `{U : UpdateHost}.
Variable default_measurements : list ExpectedMeasurements.
Variable decompress : bytes → option bytes.

(** The report data the quote of a submission must contain. *)
Definition submission_report_data (env : Env) (tls_public_key : bytes) : bytes :=
  ReportDataV1_to_bytes (mkReportDataV1 tls_public_key
    (default (replicate 32 0) (ed25519_of_near_key (signer_account_pk env)))).

(** The attestation was submitted by its account, and verified on submission
    against the whitelist of that moment. *)
Record submission_verified (c : MpcContract) (env : Env) (dto : DtoAttestation) (tls : bytes)
    (a : NodeAttestation) : Prop := {
  sv_signer : signer_account_id env = predecessor_account_id env;
  sv_node : na_node_id a =
    mkNodeId (signer_account_id env) (near_key_of_ed25519 tls) (Some (signer_account_pk env));
  sv_verified : ∃ att, Attestation_try_from_dto dto = Ok att ∧
    Attestation_verify att (submission_report_data env tls) (TeeState_current_time_seconds env)
      (TeeState_get_allowed_mpc_docker_image_hashes env (tee_state c) (tee_upgrade_deadline c))
      (ts_allowed_launcher_compose_hashes (tee_state c)) default_measurements =
      Ok (na_verified_attestation a);
}.

(** A vote for an image by the participant with id [i]. *)
Record image_vote (c : MpcContract) (env : Env) (i t : Z) : Prop := {
  iv_voter : ∃ tp, ProtocolContractState_threshold_parameters (protocol_state c) = Some tp ∧
    AuthenticatedParticipantId_new env (tp_participants tp) = Ok i;
  iv_threshold : threshold c = Ok t;
}.

Lemma submit_participant_info_Ok env u c dto tls c' fx :
  submit_participant_info default_measurements env u c dto tls = Ok (c', fx) →
  ∃ a, submission_verified c env dto tls a ∧
    tee_state c' = set_stored_attestations (tee_state c)
      (<[near_key_of_ed25519 tls := a]> (ts_stored_attestations (tee_state c))).
Proof.
  unfold submit_participant_info. intros (att & Hatt & H)%bind_Ok. cbv zeta in H.
  apply bind_Ok in H as (acc & [-> Hsig]%assert_caller_is_signer_Ok & H).
  apply bind_Ok in H as ([tee ins] & Hadd & H).
  assert (Hc : tee_state c' = tee) by (cbv zeta in H; follow H; by injection H as <- <-).
  rewrite Hc. clear H Hc.
  destruct (TeeState_add_participant _ _ _ _ _ _) as [[tee' ins']| |] eqn:E; try discriminate Hadd.
  injection Hadd as -> ->. unfold TeeState_add_participant in E.
  cbn [node_tls_public_key ed25519_of_near_key near_key_of_ed25519 curve_type key_data ok_or
       mbind result_bind] in E.
  apply bind_Ok in E as (va & Hva & [= <- <-]).
  eexists. split; [|done]. split; [done|done|]. exists att. split; [done|].
  destruct (Attestation_verify _ _ _ _ _ _) as [va'| |] eqn:Ev in Hva; try discriminate Hva.
  injection Hva as ->. cbn [na_verified_attestation]. rewrite <- Ev.
  unfold submission_report_data. cbn [node_account_public_key mbind option_bind].
  by destruct (ed25519_of_near_key (signer_account_pk env)).
Qed.

Lemma vote_code_hash_Ok env c h c' :
  vote_code_hash env c h = Ok c' →
  ∃ i t, image_vote c env i t ∧
    let '(tee, n) := TeeState_vote (tee_state c) h i in
    (n < t ∧ tee_state c' = tee) ∨
    (t ≤ n ∧ TeeState_whitelist_tee_proposal (E:=Error) env tee h (tee_upgrade_deadline c) =
       Ok (tee_state c')).
Proof.
  unfold vote_code_hash. intros (a & _ & H)%bind_Ok. apply bind_Ok in H as (tp & Htp & H).
  destruct (ProtocolContractState_threshold_parameters _) as [tp'|] eqn:E; [|discriminate Htp].
  injection Htp as ->. apply bind_Ok in H as (i & Hi & H).
  destruct (TeeState_vote (tee_state c) h i) as [tee n] eqn:Ev.
  apply bind_Ok in H as (t & Ht & H). exists i, t. split; [by split; [exists tp|]|]. rewrite Ev.
  destruct (Z.leb_spec t n) as [Hle|Hlt].
  - apply bind_Ok in H as (tee' & Htee & [= <-]). right. done.
  - injection H as <-. by left.
Qed.

(** How the images and votes change. *)
Lemma whitelist_entries env tee h d tee' e :
  TeeState_whitelist_tee_proposal (E:=Error) env tee h d = Ok tee' →
  ts_stored_attestations tee' = ts_stored_attestations tee ∧ code_votes (ts_votes tee') = ∅ ∧
  (e ∈ allowed_tee_proposals (ts_allowed_docker_image_hashes tee') →
   am_image_hash e = h ∨ e ∈ allowed_tee_proposals (ts_allowed_docker_image_hashes tee)).
Proof.
  unfold TeeState_whitelist_tee_proposal. intros (l & _ & H)%bind_Ok.
  apply bind_Ok in H as (images & Hi & [= <-]). split; [done|]. split; [done|].
  unfold AllowedDockerImageHashes_insert in Hi. apply bind_Ok in Hi as (dch & _ & [= <-]).
  cbn [ts_allowed_docker_image_hashes allowed_tee_proposals].
  intros [->|He]%vec_insert_elem; [by left|right].
  cbn [AllowedDockerImageHashes_cleanup_expired_hashes allowed_tee_proposals] in He.
  assert (e ∈ AllowedDockerImageHashes_valid_entries env
    (ts_allowed_docker_image_hashes tee) d) as He'
    by (destruct (position _ _); [by eapply vec_remove_elem|done]).
  eapply elem_of_sublist; [done|apply sublist_drop].
Qed.

Definition changes_tee (call : ContractCall) : bool :=
  match call with
  | MSubmitInfo _ _ _ _ | MVoteNewParameters _ _ _ | MVoteCodeHash _ _ | MVerifyTee _
  | MCleanTee _ => true
  | _ => false
  end.

Lemma tee_untouched c call c' fx :
  changes_tee call = false →
  method_call default_measurements decompress c call = Ok (c', fx) →
  tee_state c' = tee_state c.
Proof.
  destruct call; cbn [changes_tee]; intros Ht H; by try discriminate Ht; run_handler H.
Qed.
Lemma vote_new_parameters_tee env c ep p c' :
  vote_new_parameters env c ep p = Ok c' →
  tee_state c' = cleaned env (tee_state c) (tee_upgrade_deadline c).
Proof.
  unfold vote_new_parameters.
  destruct (TeeState_reverify_and_cleanup_participants _ _ _ _) as [tee r] eqn:Er.
  apply reverify_and_cleanup_spec in Er as [-> _]. cbv zeta. intros H.
  destruct r; [|discriminate H]. by apply bind_Ok in H as (s & _ & [= <-]).
Qed.

Lemma verify_tee_tee env c c' b :
  verify_tee env c = Ok (c', b) →
  tee_state c' = cleaned env (tee_state c) (tee_upgrade_deadline c).
Proof.
  unfold verify_tee. intros (a & _ & H)%bind_Ok.
  destruct (protocol_state c) as [| |s|]; try discriminate H. cbv zeta in H.
  destruct (TeeState_reverify_and_cleanup_participants _ _ _ _) as [tee r] eqn:Er.
  apply reverify_and_cleanup_spec in Er as [-> _]. follow H; by injection H as <- <-.
Qed.

Lemma clean_tee_status_tee env c c' :
  clean_tee_status env c = Ok c' →
  ∃ ps, tee_state c' = TeeState_clean_non_participants (tee_state c) ps.
Proof.
  unfold clean_tee_status. intros (a & _ & H)%bind_Ok.
  destruct (protocol_state c) as [| |s|]; try discriminate H. injection H as <-. by eexists.
Qed.

(** The votes and the whitelist change only by votes; clean-ups only shrink. *)
Lemma images_change c call c' fx :
  method_call default_measurements decompress c call = Ok (c', fx) →
  (∀ env h, call ≠ MVoteCodeHash env h) →
  ts_votes (tee_state c') = ts_votes (tee_state c) ∧
  ∀ e, e ∈ allowed_tee_proposals (ts_allowed_docker_image_hashes (tee_state c')) →
    e ∈ allowed_tee_proposals (ts_allowed_docker_image_hashes (tee_state c)).
Proof.
  intros H Hne. destruct (changes_tee call) eqn:Hc;
    [|by rewrite (tee_untouched _ _ _ _ Hc H)].
  assert (Hcl : ∀ env d, tee_state c' = cleaned env (tee_state c) d →
    ts_votes (tee_state c') = ts_votes (tee_state c) ∧
    ∀ e, e ∈ allowed_tee_proposals (ts_allowed_docker_image_hashes (tee_state c')) →
      e ∈ allowed_tee_proposals (ts_allowed_docker_image_hashes (tee_state c))).
  { intros env d ->. split; [done|]. intros e He. eapply elem_of_sublist; [exact He|].
    apply sublist_drop. }
  destruct call; try discriminate Hc; cbn [method_call] in H;
    try (apply no_effects_Ok in H as [H _]).
  - apply submit_participant_info_Ok in H as (a & _ & ->). done.
  - eapply Hcl, vote_new_parameters_tee, H.
  - by destruct (Hne env h).
  - apply fmap_Ok in H as ([? ?] & H & ->). eapply Hcl, verify_tee_tee, H.
  - apply clean_tee_status_tee in H as [ps ->]. done.
Qed.

Lemma stored_change c call c' fx k a :
  method_call default_measurements decompress c call = Ok (c', fx) →
  ts_stored_attestations (tee_state c') !! k = Some a →
  ts_stored_attestations (tee_state c) !! k = Some a ∨
  ∃ env u dto tls, call = MSubmitInfo env u dto tls ∧ k = near_key_of_ed25519 tls ∧
    submission_verified c env dto tls a.
Proof.
  intros H Hk. destruct (changes_tee call) eqn:Hc;
    [|rewrite (tee_untouched _ _ _ _ Hc H) in Hk; by left].
  destruct call; try discriminate Hc; cbn [method_call] in H;
    try (apply no_effects_Ok in H as [H _]).
  - apply submit_participant_info_Ok in H as (a' & Hv & Ht). rewrite Ht in Hk.
    cbn [set_stored_attestations ts_stored_attestations] in Hk.
    apply lookup_insert_Some in Hk as [[<- <-]|[_ Hk]]; [right|by left]. by eexists _, _, _, _.
  - rewrite (vote_new_parameters_tee _ _ _ _ _ H) in Hk. by left.
  - apply vote_code_hash_Ok in H as (i & t & _ & H). simpl in H.
    destruct H as [[_ Ht]|[_ Ht]]; [rewrite Ht in Hk; by left|].
    apply (whitelist_entries _ _ _ _ _ (mkAllowedMpcDockerImage [] [] 0)) in Ht as [Ht _].
    rewrite Ht in Hk. by left.
  - apply fmap_Ok in H as ([? ?] & H & ->). cbn [fst] in Hk. rewrite (verify_tee_tee _ _ _ _ H) in Hk. by left.
  - apply clean_tee_status_tee in H as [ps Ht]. rewrite Ht in Hk. left. revert Hk.
    unfold TeeState_clean_non_participants. cbn [set_stored_attestations ts_stored_attestations].
    rewrite foldl_delete_lookup. by case_decide.
Qed.

(** ** Histories *)

(** The contract was [c1] when [call] was made in a history [log] from [c0]. *)
Definition called_at (c0 : MpcContract) (log : list ContractCall) (call : ContractCall)
    (c1 : MpcContract) : Prop :=
  ∃ l1 l2 plog, log = l1 ++ call :: l2 ∧
    contract_run default_measurements decompress c0 l1 plog c1.

Lemma called_at_app c0 log call c1 l : called_at c0 log call c1 → called_at c0 (log ++ l) call c1.
Proof. intros (l1 & l2 & plog & -> & H). exists l1, (l2 ++ l), plog. by rewrite <- app_assoc. Qed.

Lemma called_at_last c0 log plog c call :
  contract_run default_measurements decompress c0 log plog c → called_at c0 (log ++ [call]) call c.
Proof. intros H. by exists log, [], plog. Qed.

Lemma mocked_attestations_mock l k a :
  mocked_attestations l !! k = Some a → na_verified_attestation a = VerifiedMock MockValid.
Proof.
  unfold mocked_attestations. induction l as [|e l IH] using rev_ind; [done|].
  rewrite foldl_app. cbn [foldl]. by intros [[_ <-]|[_ H]]%lookup_insert_Some; [|apply IH].
Qed.

Lemma deployed_tee c0 : deployed c0 → ∃ ps,
  tee_state c0 = TeeState_with_mocked_participant_attestations ps.
Proof.
  intros (s & tp & cfg & -> & _)%deployed_new. by eexists.
Qed.

(** C31: where stored attestations come from.  In every history of a deployed
    contract, an attestation stored under a TLS key is either one of the
    placeholders of the first committee, or its own account submitted it under
    this key, and the attestation was verified then, against the report data
    made of the TLS key and the account's key. *)
Theorem stored_attestation_origin c0 log plog c k a :
  deployed c0 → contract_run default_measurements decompress c0 log plog c →
  ts_stored_attestations (tee_state c) !! k = Some a →
  (ts_stored_attestations (tee_state c0) !! k = Some a ∧
   na_verified_attestation a = VerifiedMock MockValid) ∨
  ∃ env u dto tls c1, called_at c0 log (MSubmitInfo env u dto tls) c1 ∧
    k = near_key_of_ed25519 tls ∧ submission_verified c1 env dto tls a.
Proof.
  intros H0. induction 1 as [|log plog c call c' fx Hrun IH Hfit Hcall%contract_call_method]; intros Hk.
  { left. split; [done|]. destruct (deployed_tee _ H0) as [ps Hps].
    rewrite Hps in Hk. exact (mocked_attestations_mock _ _ _ Hk). }
  destruct (stored_change _ _ _ _ _ _ Hcall Hk) as [Hold|(env & u & dto & tls & -> & -> & Hv)].
  - destruct (IH Hold) as [?|(env & u & dto & tls & c1 & Hc & ? & ?)]; [by left|right].
    exists env, u, dto, tls, c1. split; [by apply called_at_app|done].
  - right. exists env, u, dto, tls, c. split; [by eapply called_at_last|done].
Qed.

(** A participant with id [i] of its time voted for the image [h]. *)
Definition image_voted (c0 : MpcContract) (log : list ContractCall) (h : MpcDockerImageHash)
    (i : Z) : Prop :=
  ∃ env c1 t, called_at c0 log (MVoteCodeHash env h) c1 ∧ image_vote c1 env i t.

Lemma image_voted_app c0 log h i l : image_voted c0 log h i → image_voted c0 (log ++ l) h i.
Proof. intros (env & c1 & t & H & ?). exists env, c1, t. split; [by apply called_at_app|done]. Qed.

Lemma image_call_cases (call : ContractCall) :
  (∃ env h, call = MVoteCodeHash env h) ∨ ∀ env h, call ≠ MVoteCodeHash env h.
Proof. destruct call; try (by right). left. eauto. Qed.

Lemma contract_run_image_votes c0 log plog c :
  deployed c0 → contract_run default_measurements decompress c0 log plog c →
  ∀ i h, code_votes (ts_votes (tee_state c)) !! i = Some h → image_voted c0 log h i.
Proof.
  intros H0. induction 1 as [|log plog c call c' fx Hrun IH Hfit Hcall%contract_call_method]; intros i h Hi.
  { destruct (deployed_tee _ H0) as [ps Hps]. rewrite Hps in Hi. discriminate Hi. }
  change (ts_votes (tee_state (MpcContract_stored c'))) with (ts_votes (tee_state c')) in Hi.
  destruct (image_call_cases call) as [(env & h' & ->)|Hne].
  - cbn [method_call] in Hcall. apply no_effects_Ok in Hcall as [Hcall _].
    apply vote_code_hash_Ok in Hcall as (j & t & Hv & [[_ Ht]|[_ Ht]]).
    + rewrite Ht in Hi. cbn [ts_votes code_votes] in Hi. apply lookup_insert_Some in Hi as [[<- <-]|[_ Hi]].
      * exists env, c, t. split; [by eapply called_at_last|done].
      * by apply image_voted_app, IH.
    + apply (whitelist_entries _ _ _ _ _ (mkAllowedMpcDockerImage [] [] 0)) in Ht as (_ & Ht & _).
      rewrite Ht in Hi. by rewrite lookup_empty in Hi.
  - destruct (images_change _ _ _ _ Hcall Hne) as [Hv _]. rewrite Hv in Hi.
    by apply image_voted_app, IH.
Qed.

(** The ids counted by [count_votes]. *)
Definition image_voters (v : CodeHashesVotes) (h : MpcDockerImageHash) : list Z :=
  fst <$> map_to_list (filter (λ kv : Z * MpcDockerImageHash, kv.2 = h) (code_votes v)).

Lemma image_voters_spec v h :
  NoDup (image_voters v h) ∧ zlen (image_voters v h) = CodeHashesVotes_count_votes v h ∧
  ∀ i, i ∈ image_voters v h → code_votes v !! i = Some h.
Proof.
  unfold image_voters, CodeHashesVotes_count_votes, zlen, zsize. split_and!.
  - apply NoDup_fst_map_to_list.
  - by rewrite length_fmap, length_map_to_list.
  - intros i ([j h'] & -> & Hj%elem_of_map_to_list)%list_elem_of_fmap.
    by apply map_lookup_filter_Some in Hj as [Hj <-].
Qed.

(** At some call of the history the votes for [h], by different ids, reached the
    threshold of that moment. *)
Definition image_approved (c0 : MpcContract) (log : list ContractCall)
    (h : MpcDockerImageHash) : Prop :=
  ∃ env l1 l2 plog1 c1 t ids, log = l1 ++ MVoteCodeHash env h :: l2 ∧
    contract_run default_measurements decompress c0 l1 plog1 c1 ∧ threshold c1 = Ok t ∧
    NoDup ids ∧ t ≤ zlen ids ∧
    ∀ i, i ∈ ids → image_voted c0 (l1 ++ [MVoteCodeHash env h]) h i.

Lemma image_approved_app c0 log h l : image_approved c0 log h → image_approved c0 (log ++ l) h.
Proof.
  intros (env & l1 & l2 & plog1 & c1 & t & ids & -> & Hr).
  exists env, l1, (l2 ++ l), plog1, c1, t, ids. by rewrite <- app_assoc.
Qed.

(** An image is whitelisted only by votes.  In every history of a deployed
    contract, an image on the whitelist was put there by a call of
    [vote_code_hash], and at that call at least as many different participant
    ids as the threshold had voted for this image, each as a participant of the
    time it voted. *)
Theorem whitelisted_image_was_voted c0 log plog c e :
  deployed c0 → contract_run default_measurements decompress c0 log plog c →
  e ∈ allowed_tee_proposals (ts_allowed_docker_image_hashes (tee_state c)) →
  image_approved c0 log (am_image_hash e).
Proof.
  intros H0 Hrun. revert e. induction Hrun as [|log plog c call c' fx Hrun IH Hfit Hcall%contract_call_method]; intros e He.
  { destruct (deployed_tee _ H0) as [ps Hps]. rewrite Hps in He. by apply elem_of_nil in He. }
  change (e ∈ AllowedMpcDockerImage_stored <$>
    allowed_tee_proposals (ts_allowed_docker_image_hashes (tee_state c'))) in He.
  apply list_elem_of_fmap in He as (e' & -> & He).
  change (am_image_hash (AllowedMpcDockerImage_stored e')) with (am_image_hash e').
  rename e' into e.
  pose proof (λ H, image_approved_app _ _ _ [call] (IH e H)) as Hold.
  destruct (image_call_cases call) as [(env & h & ->)|Hne];
    [|by apply Hold, (images_change _ _ _ _ Hcall Hne)].
  cbn [method_call] in Hcall. apply no_effects_Ok in Hcall as [Hcall _].
  apply vote_code_hash_Ok in Hcall as (j & t & Hv & [[_ Ht]|[Hle Ht]]).
  { rewrite Ht in He. by apply Hold. }
  apply (whitelist_entries _ _ _ _ _ e) in Ht as (_ & _ & Ht).
  destruct (Ht He) as [<-|He']; [|by apply Hold].
  set (v := mkCodeHashesVotes (<[j := am_image_hash e]> (code_votes (ts_votes (tee_state c))))) in Hle.
  destruct (image_voters_spec v (am_image_hash e)) as (Hnd & Hlen & Hin).
  exists env, log, [], plog, c, t, (image_voters v (am_image_hash e)).
  split_and!; [done|done|apply Hv|done|by rewrite Hlen|].
  intros i Hi%Hin. cbn [v code_votes] in Hi. apply lookup_insert_Some in Hi as [[<- _]|[_ Hi]].
  - exists env, c, t. split; [by eapply called_at_last|done].
  - by eapply image_voted_app, contract_run_image_votes.
Qed.

(** ** Submissions under a key of somebody else *)

Definition refund (fx : list Effect) : Z :=
  foldr (λ f n, match f with Transfer _ a => a + n | _ => n end) 0 fx.

(** What a submission under [tls] gives back of a deposit: all of it if the caller
    is not a participant or nothing is stored under the key yet, and nothing if
    a participant replaces an entry. *)
Definition submission_refund (env : Env) (c : MpcContract) (tls : bytes) : Z :=
  if bool_decide (ts_stored_attestations (tee_state c) !! near_key_of_ed25519 tls = None) ||
     negb (is_ok (voter_account env c))
  then attached_deposit env else 0.

(** C40: any account can take over the entry of another node.  A submission of
    the mock attestation [Valid] is accepted from every account that calls
    directly, participant or not, under every TLS key, whatever is stored under
    the key.  It costs no storage deposit: the deposit comes back in full to a
    caller that is not a participant and to one that adds a new entry; only a
    participant that replaces an entry does not get back what it attached, and
    it need not attach anything.  From then on a participant of another account
    registered with this TLS key fails the check of an attested caller, so it
    can no longer respond to requests or vote in key events. *)
Theorem attestation_takeover env u c tls :
  signer_account_id env = predecessor_account_id env →
  0 ≤ attached_deposit env →
  ∃ c' fx,
    submit_participant_info default_measurements env u c (DtoMock DtoMockValid) tls = Ok (c', fx) ∧
    refund fx = submission_refund env c tls ∧
    ∀ env' ps info, signer_account_id env' ≠ signer_account_id env →
      Participants_info ps (signer_account_id env') = Some info →
      sign_pk info = near_key_of_ed25519 tls →
      TeeState_is_caller_an_attested_participant env' (tee_state c') ps =
        Err AttestationOwnerMismatch.
Proof.
  intros Hsig Hdep.
  assert (Hchk : ∀ c' a env' ps info, na_node_id a =
      mkNodeId (signer_account_id env) (near_key_of_ed25519 tls) (Some (signer_account_pk env)) →
      tee_state c' = set_stored_attestations (tee_state c)
        (<[near_key_of_ed25519 tls := a]> (ts_stored_attestations (tee_state c))) →
      signer_account_id env' ≠ signer_account_id env →
      Participants_info ps (signer_account_id env') = Some info →
      sign_pk info = near_key_of_ed25519 tls →
      TeeState_is_caller_an_attested_participant env' (tee_state c') ps =
        Err AttestationOwnerMismatch).
  { intros c' a env' ps info Ha Hc' Hne Hi Hk. unfold TeeState_is_caller_an_attested_participant.
    rewrite Hi. cbn [ok_or mbind result_bind]. rewrite Hc', Hk.
    cbn [set_stored_attestations ts_stored_attestations]. rewrite lookup_insert_eq.
    cbn [ok_or mbind result_bind]. rewrite Ha. cbn [node_account_id].
    by rewrite bool_decide_eq_false_2 by congruence. }
  assert (Hsub : ∃ c' fx,
    submit_participant_info default_measurements env u c (DtoMock DtoMockValid) tls = Ok (c', fx) ∧
    refund fx = submission_refund env c tls).
  { unfold submit_participant_info, submission_refund. cbn [Attestation_try_from_dto mbind result_bind].
    rewrite (proj2 (assert_caller_is_signer_Ok env (signer_account_id env)) (conj eq_refl Hsig)).
    cbn. replace (u64_sub u u) with 0 by (unfold u64_sub; by rewrite Z.sub_diag).
    replace (required_deposit 0) with 0 by (unfold required_deposit; rewrite Z.mul_0_r; done).
    rewrite (proj2 (Z.ltb_ge _ _) Hdep), Z.sub_0_r.
    destruct (ts_stored_attestations (tee_state c) !! near_key_of_ed25519 tls);
      [rewrite bool_decide_eq_false_2 by done|rewrite bool_decide_eq_true_2 by done]; cbn [orb].
    2: eexists _, _; split; [done|]; destruct (Z.ltb_spec 0 (attached_deposit env)); simpl; lia.
    destruct (negb _); eexists _, _; (split; [done|]); [|done].
    destruct (Z.ltb_spec 0 (attached_deposit env)); simpl; lia. }
  destruct Hsub as (c' & fx & H & Hr). exists c', fx. split; [done|]. split; [done|].
  apply submit_participant_info_Ok in H as (a & [_ Hn _] & Htee). eauto.
Qed.
End TeeChanges.

(** ** Node migration *)

Section Migration.
Context `{L : Libraries} `{K : Curves} `{U : UpdateHost}.
Variable default_measurements : list ExpectedMeasurements.
Variable decompress : bytes → option bytes.

(** Account [a] announced the destination [d] itself. *)
Definition migration_started (log : list ContractCall) (a : AccountId)
    (d : DestinationNodeInfo) : Prop :=
  ∃ env, MStartMigration env d ∈ log ∧ signer_account_id env = a ∧
    signer_account_id env = predecessor_account_id env.

Lemma cleanup_orphaned_loop_ongoing s l m m' a d :
  cleanup_orphaned_loop s l m = Ok m' →
  ongoing_migrations m' !! a = Some d → ongoing_migrations m !! a = Some d.
Proof.
  revert m. induction l as [|x l IH]; intros m; cbn [cleanup_orphaned_loop]; [by intros [= ->]|].
  intros (b & _ & H)%bind_Ok Ha. specialize (IH _ H Ha). destruct b; [done|]. cbn in IH.
  by apply lookup_delete_Some in IH as [_ ?].
Qed.

Lemma contract_run_migrations c0 log plog c a d :
  deployed c0 → contract_run default_measurements decompress c0 log plog c →
  ongoing_migrations (node_migrations c) !! a = Some d → migration_started log a d.
Proof.
  intros H0. induction 1 as [|log plog c call c' fx Hrun IH Hfit Hcall%contract_call_method]; intros Ha.
  { assert (node_migrations c0 = NodeMigrations_default) as Hm.
    { by apply deployed_new in H0 as (? & ? & ? & -> & _). }
    rewrite Hm in Ha. discriminate Ha. }
  change (node_migrations (MpcContract_stored c')) with (node_migrations c') in Ha.
  assert (Hold : ongoing_migrations (node_migrations c) !! a = Some d →
    migration_started (log ++ [call]) a d).
  { intros (env & ? & ?)%IH. exists env. set_solver. }
  destruct call; try (apply Hold; rewrite <- Ha; by run_handler Hcall);
    cbn [method_call] in Hcall; apply no_effects_Ok in Hcall as [Hcall _].
  - unfold start_node_migration in Hcall.
    apply bind_Ok in Hcall as (b & [-> Hsig]%assert_caller_is_signer_Ok & Hcall).
    follow Hcall. injection Hcall as <-. cbn in Ha.
    apply lookup_insert_Some in Ha as [[<- <-]|[_ Ha]]; [|by apply Hold]. exists env. set_solver.
  - apply conclude_node_migration_Ok in Hcall as (s & d' & s' & _ & _ & ->). cbn in Ha.
    apply lookup_delete_Some in Ha as [_ Ha]. by apply Hold.
  - unfold cleanup_orphaned_node_migrations in Hcall. apply bind_Ok in Hcall as (? & _ & Hcall).
    cbv zeta in Hcall. apply bind_Ok in Hcall as (m & Hm & [= <-]). cbn in Ha.
    by eapply Hold, cleanup_orphaned_loop_ongoing.
Qed.

(** What concluding a migration does.  In every history of a deployed
    contract, a successful [conclude_node_migration] is by a participant that
    announced the destination itself, holds the current keyset, signs with the
    key it announced, and has a stored attestation for the destination's TLS key
    that still holds.  It changes the participant's address and key to the
    destination and nothing else of the committee, the threshold, the keys or
    the domains, and the migration is over. *)
Theorem migration_outcome c0 log plog c env ks c' :
  deployed c0 → contract_run default_measurements decompress c0 log plog c →
  conclude_node_migration env c ks = Ok c' →
  let a := signer_account_id env in
  ∃ s s' d, protocol_state c = Running s ∧ protocol_state c' = Running s' ∧
    let ps := tp_participants (rs_parameters s) in
    let ps' := tp_participants (rs_parameters s') in
    a ∈ accounts_of ps ∧ rs_keyset s = ks ∧ migration_started log a d ∧
    dn_signer_account_pk d = signer_account_pk env ∧
    (∃ att, ts_stored_attestations (tee_state c) !! sign_pk (dn_destination_node_info d) =
        Some att ∧
      VerifiedAttestation_re_verify (na_verified_attestation att)
        (TeeState_current_time_seconds env)
        (TeeState_get_allowed_mpc_docker_image_hashes env (tee_state c) (tee_upgrade_deadline c))
        (ts_allowed_launcher_compose_hashes (tee_state c)) = Ok tt) ∧
    accounts_of ps' = accounts_of ps ∧ ids_of ps' = ids_of ps ∧ next_id ps' = next_id ps ∧
    Participants_info ps' a = Some (dn_destination_node_info d) ∧
    (∀ b, b ≠ a → Participants_info ps' b = Participants_info ps b) ∧
    tp_threshold (rs_parameters s') = tp_threshold (rs_parameters s) ∧
    rs_keyset s' = rs_keyset s ∧ rs_domains s' = rs_domains s ∧
    ongoing_migrations (node_migrations c') !! a = None.
Proof.
  intros H0 Hrun (s & d & s' & [E Hsig Hp Hk Hd Hpk Hv] & Hs' & ->)%conclude_node_migration_Ok a.
  exists s, s', d. split; [done|]. split; [done|]. cbv zeta.
  unfold update_participant_info, ThresholdParameters_update_info in Hs'.
  apply bind_Ok in Hs' as (tp & (ps & Hps & [= <-])%bind_Ok & [= <-]).
  apply Participants_update_info_spec in Hps as (? & ? & ? & ? & ? & ?).
  apply reverify_valid in Hv as (att & Hatt & Hre).
  split_and!; try done.
  - by eapply contract_run_migrations.
  - by exists att.
  - apply lookup_delete_eq.
Qed.
End Migration.
