(* ===== verification/ContractExamples.v ===== *)
(** * The contract, run

    A deployed contract with the sample committee and one ECDSA domain, on which
    the theorems about the contract are instantiated, and the histories that
    show where its behaviour is surprising. *)

From S2P Require Import Prelude Types CryptoTypes Participants Thresholds Domain Samples.
From S2P Require Import KeyState KeyEvent ContractState Running ProtocolState ProtocolExamples.
From S2P Require Import Config Attestation AttestationProofs Tee TeeProofs Update.
From S2P Require Import NodeMigrations ForeignChain Dto Requests Contract ContractCalls.
From S2P Require Import RequestLifecycle ContractProofs ContractTee.

#[local] Existing Instance sample_libraries.
#[local] Existing Instance sample_curves.
#[local] Existing Instance sample_update_host.

Definition sample_keyset : Keyset := mkKeyset 5 [mkKeyForDomain 0 group_key 0].

Definition sample_contract : MpcContract :=
  match init_running (call_by "v1.signer" 1) [ecdsa_domain] 1 sample_keyset committee_params None with
  | Ok c => c
  | _ => new_contract NotInitialized committee_params None
  end.

Lemma sample_contract_deployed : deployed sample_contract.
Proof.
  apply (deployed_init_running (call_by "v1.signer" 1) [ecdsa_domain] 1 sample_keyset committee_params None).
  - apply boundedb_spec. reflexivity.
  - done.
  - done.
  - reflexivity.
Qed.

(** A call of the contract by itself. *)
Definition self_call (height : Z) : Env := call_by "v1.signer" height.

Definition sample_payload : Payload := Ecdsa (replicate 32 7).
Definition sample_sign_args : SignRequestArgs :=
  mkSignRequestArgs "path" (Some sample_payload) None (Some 0) None.
Definition sample_request : SignatureRequest :=
  SignatureRequest_new 0 sample_payload "user.near" "path".
(** A signature that the sample [ecrecover] maps to the group key. *)
Definition sample_response : SignatureResponse := RespSecp256k1 (mkK256Signature [0; 1] [2] 0).

Definition user_sign (height : Z) (d : CryptoHash) : WorldStep :=
  WCall (MSign (paying 1 (call_by "user.near" height)) sample_sign_args d).

Definition world_after (ls : list WorldStep) : World :=
  default (initial_world sample_contract)
    (world_run [] Some (initial_world sample_contract) ls).

Lemma world_after_run ls :
  bool_decide (is_Some (world_run [] Some (initial_world sample_contract) ls)) = true →
  world_run [] Some (initial_world sample_contract) ls = Some (world_after ls).
Proof. intros [w Hw]%bool_decide_eq_true. unfold world_after. by rewrite Hw. Qed.

(** The request waits, has timed out, or is answered. *)
Definition waits : list WorldStep := [user_sign 10 [1]].
Definition times_out : list WorldStep := waits ++ [WTimeout [1]].
Definition answered : list WorldStep :=
  waits ++ [WCall (MRespond (call_by "alice" 11) sample_request sample_response)].

Lemma response_reaches_waiting_user_witness :
  let late := world_after times_out in
  let c' := set_pending_signature_requests ∅ (contract (world_after waits)) in
  (∃ d, yields (world_after waits) !! d = Some (Waiting (YSign sample_request))) ∧
  yields late !! [1] = Some (TimedOut (YSign sample_request)) ∧
  apply_effects (yields late) [YieldResume [1] (AnsSign sample_response)] = yields late ∧
  response_accepted [] Some sample_contract answered sample_request sample_response.
Proof.
  intros late c'. split_and!.
  - destruct (response_reaches_waiting_user [] Some sample_contract waits (world_after waits)) as [H _];
      [apply sample_contract_deployed|apply world_after_run; vm_compute; reflexivity|].
    destruct (H (call_by "alice" 11) sample_request sample_response c'
      [YieldResume [1] (AnsSign sample_response)]) as (_ & _ & _ & d & Hd & _);
      [vm_compute; reflexivity|].
    exists d. vm_compute in Hd. injection Hd as <-. vm_compute. reflexivity.
  - vm_compute. reflexivity.
  - destruct (response_reaches_waiting_user [] Some sample_contract times_out late) as [H _];
      [apply sample_contract_deployed|apply world_after_run; vm_compute; reflexivity|].
    destruct (H (call_by "alice" 11) sample_request sample_response c'
      [YieldResume [1] (AnsSign sample_response)]) as (_ & _ & _ & d & Hd & [= <-] & Ho);
      [vm_compute; reflexivity|].
    unfold response_outcome in Ho.
    assert (yields late !! [1] = Some (TimedOut (YSign sample_request))) as E by (vm_compute; reflexivity).
    rewrite E in Ho. apply Ho.
  - destruct (response_reaches_waiting_user [] Some sample_contract answered (world_after answered)) as [_ H];
      [apply sample_contract_deployed|apply world_after_run; vm_compute; reflexivity|].
    apply (H [1]). vm_compute. reflexivity.
Defined.

Definition one_waits : World := world_after [user_sign 10 [1]].

Lemma one_waits_yields : yields one_waits = {[ [1] := Waiting (YSign sample_request) ]}.
Proof. vm_compute. reflexivity. Qed.

Lemma one_waits_run : distinct_run [] Some (initial_world sample_contract) one_waits.
Proof.
  eapply (distinct_step [] Some _ _ (user_sign 10 [1])); [constructor| |].
  - assert (world_run [] Some (initial_world sample_contract) [user_sign 10 [1]] = Some one_waits)
      as H by (apply world_after_run; vm_compute; reflexivity).
    cbn [world_run] in H. by destruct (world_step _ _ _ _).
  - intros d1 d2 r. unfold live. rewrite one_waits_yields.
    by intros [[<- _]%lookup_singleton_Some|[<- _]%lookup_singleton_Some]
      [[<- _]%lookup_singleton_Some|[<- _]%lookup_singleton_Some].
Qed.

Lemma unique_requests_answerable_witness :
  ∃ c', respond (call_by "alice" 11) (contract one_waits) sample_request
      sample_response = Ok (c', [YieldResume [1] (AnsSign sample_response)]) ∧
    pending c' (YSign sample_request) = None.
Proof.
  apply (unique_requests_answerable [] Some sample_contract one_waits [1] sample_request
    (call_by "alice" 11) sample_response group_key).
  - apply sample_contract_deployed.
  - apply one_waits_run.
  - rewrite one_waits_yields. apply lookup_singleton_eq.
  - split; [reflexivity|]. exists committee. split; vm_compute; reflexivity.
  - vm_compute. reflexivity.
  - vm_compute. reflexivity.
  - vm_compute. reflexivity.
Defined.

(** ** Replaying method calls *)

Definition contract_step (st : MpcContract * list ProtocolCall) (call : ContractCall) :
    option (MpcContract * list ProtocolCall) :=
  let '(c, plog) := st in
  let part := protocol_part Some c call in
  if match part with Some pc => call_fitsb (protocol_state c) pc | None => true end then
    match contract_call [] Some c call with
    | Ok (c', _) => Some (MpcContract_stored c', plog ++ option_list part)
    | _ => None
    end
  else None.

Definition contract_replay (c : MpcContract) (calls : list ContractCall) :
    option (MpcContract * list ProtocolCall) :=
  foldl (λ o call, o ≫= λ st, contract_step st call) (Some (c, [])) calls.

Lemma contract_replay_run c0 calls c plog :
  contract_replay c0 calls = Some (c, plog) → contract_run [] Some c0 calls plog c.
Proof.
  revert c plog. induction calls as [|call calls IH] using rev_ind; intros c plog;
    unfold contract_replay.
  - intros [= <- <-]. constructor.
  - rewrite foldl_app. cbn [foldl]. intros ([c1 plog1] & H1%IH & H)%bind_Some.
    unfold contract_step in H.
    destruct (match protocol_part Some c1 call with Some _ => _ | None => _ end) eqn:Hfit;
      [|discriminate H].
    destruct (contract_call [] Some c1 call) as [[c2 fx]| |] eqn:Hc; try discriminate H.
    injection H as <- <-. econstructor; [exact H1| |exact Hc].
    intros pc Hpc. rewrite Hpc in Hfit. by apply call_fitsb_spec.
Qed.

(** The contract a replay from the sample contract ends in. *)
Definition contract_after (calls : list ContractCall) : MpcContract :=
  default sample_contract (fst <$> contract_replay sample_contract calls).
Definition plog_after (calls : list ContractCall) : list ProtocolCall :=
  default [] (snd <$> contract_replay sample_contract calls).

Lemma contract_after_run calls :
  bool_decide (is_Some (contract_replay sample_contract calls)) = true →
  contract_run [] Some sample_contract calls (plog_after calls) (contract_after calls).
Proof.
  intros [[c plog] H]%bool_decide_eq_true. apply contract_replay_run.
  unfold contract_after, plog_after. by rewrite H.
Qed.

(** Dave attests and replaces Carol. *)
Definition replace_carol : list ContractCall :=
  MSubmitInfo (call_by "dave" 19) 0 (DtoMock DtoMockValid) (tls_key 3) ::
  ((λ a, MVoteNewParameters (call_by a 20) 6 new_params) <$> ["alice"; "bob"; "dave"]) ++
  MStartReshare (call_by "alice" 21) (mkKeyEventId 6 0 0) ::
  ((λ a, MVoteReshared (call_by a 22) (mkKeyEventId 6 0 0)) <$> ["alice"; "bob"; "dave"]) ++
  [MRemoveNonParticipantVotes (self_call 23); MCleanTee (self_call 23); MCleanupMigrations (self_call 23)].

Lemma contract_refines_protocol_witness :
  protocol_run (protocol_state sample_contract) (plog_after replace_carol)
    (protocol_state (contract_after replace_carol)).
Proof.
  eapply (contract_refines_protocol [] Some sample_contract replace_carol).
  - apply sample_contract_deployed.
  - apply contract_after_run. vm_compute. reflexivity.
Defined.

(** ** The theorems on sample histories *)

(** Alice proposes new code and votes for it. *)
Definition propose_code : list ContractCall :=
  [MProposeUpdate (paying (10 ^ 27) (call_by "alice" 30))
     (mkProposeUpdateArgs (Some [1; 2; 3]) None);
   MVoteUpdate (call_by "alice" 31) 0].

Lemma update_needs_threshold_witness :
  ∃ voters, NoDup voters ∧ 2 ≤ zlen voters ∧
    ∀ a, a ∈ voters → a ∈ accounts_of committee.
Proof.
  destruct (update_needs_threshold [] Some sample_contract propose_code (plog_after propose_code)
    (contract_after propose_code) (call_by "bob" 32) 0
    (set_proposed_updates (mkProposedUpdates ∅ ∅ 1) (contract_after propose_code))
    [RunUpdate (DeployAndMigrate [1; 2; 3] 50000000000000)])
    as (s & u & voters & Hs & Hnd & Hth & Hv & _ & _).
  - apply sample_contract_deployed.
  - apply contract_after_run. vm_compute. reflexivity.
  - vm_compute. discriminate.
  - vm_compute. reflexivity.
  - exists voters. vm_compute in Hs. injection Hs as <-. split; [exact Hnd|]. split; [exact Hth|].
    intros a Ha. exact (proj1 (Hv a Ha)).
Defined.

Lemma verify_tee_outcome_witness :
  ∃ c' b, verify_tee (call_by "alice" 30) (contract_after propose_code) = Ok (c', b).
Proof.
  destruct (verify_tee_outcome [] Some sample_contract propose_code (plog_after propose_code)
    (contract_after propose_code)
    (match protocol_state sample_contract with Running s => s | _ => sample_running end)
    (call_by "alice" 30)) as (c' & b & H & _).
  - apply sample_contract_deployed.
  - apply contract_after_run. vm_compute. reflexivity.
  - vm_compute. reflexivity.
  - reflexivity.
  - apply (bool_decide_eq_true_1 _). vm_compute. reflexivity.
  - by exists c', b.
Defined.

Definition sample_policy : ForeignChainPolicy :=
  mkForeignChainPolicy {[ Bitcoin := {[ "https://rpc.example" ]} ]}.
Definition policy_votes : list ContractCall :=
  (λ a, MVotePolicy (call_by a 30) sample_policy) <$> ["alice"; "bob"].

Lemma policy_change_is_unanimous_witness :
  ∃ s env, MVotePolicy (call_by "carol" 31) sample_policy = MVotePolicy env sample_policy ∧
    protocol_state (contract_after policy_votes) = Running s.
Proof.
  destruct (policy_change_is_unanimous [] Some sample_contract policy_votes
    (plog_after policy_votes) (contract_after policy_votes)
    (MVotePolicy (call_by "carol" 31) sample_policy)
    (set_foreign_chain_policy sample_policy ForeignChainPolicyVotes_default
       (contract_after policy_votes)) []) as (s & env & H & Hs & _).
  - apply sample_contract_deployed.
  - apply contract_after_run. vm_compute. reflexivity.
  - vm_compute. reflexivity.
  - apply (bool_decide_eq_true_1 _). vm_compute. reflexivity.
  - exists s, env. split; [exact H|exact Hs].
Defined.

Definition dave_attestation : NodeAttestation :=
  mkNodeAttestation (mkNodeId "dave" (near_key_of_ed25519 (tls_key 3)) (Some sample_key))
    (VerifiedMock MockValid).

Lemma stored_attestation_origin_witness :
  (ts_stored_attestations (tee_state sample_contract) !! near_key_of_ed25519 (tls_key 3) =
     Some dave_attestation ∧ VerifiedMock MockValid = VerifiedMock MockValid) ∨
  ∃ env u dto tls c1, called_at [] Some sample_contract replace_carol (MSubmitInfo env u dto tls) c1.
Proof.
  destruct (stored_attestation_origin [] Some sample_contract replace_carol
    (plog_after replace_carol) (contract_after replace_carol) (near_key_of_ed25519 (tls_key 3))
    dave_attestation) as [H|(env & u & dto & tls & c1 & H & _)].
  - apply sample_contract_deployed.
  - apply contract_after_run. vm_compute. reflexivity.
  - vm_compute. reflexivity.
  - left. exact H.
  - right. exists env, u, dto, tls, c1. exact H.
Defined.

Definition sample_hash : MpcDockerImageHash := replicate 32 9.
Definition whitelist_hash : list ContractCall :=
  (λ a, MVoteCodeHash (call_by a 30) sample_hash) <$> ["alice"; "bob"].

Lemma whitelisted_image_was_voted_witness :
  image_approved [] Some sample_contract whitelist_hash sample_hash.
Proof.
  assert (∃ e, e ∈ allowed_tee_proposals (ts_allowed_docker_image_hashes
      (tee_state (contract_after whitelist_hash))) ∧ am_image_hash e = sample_hash)
    as (e & He & <-).
  { eexists. split; [vm_compute; apply list_elem_of_here|reflexivity]. }
  apply (whitelisted_image_was_voted [] Some sample_contract whitelist_hash
    (plog_after whitelist_hash) (contract_after whitelist_hash)).
  - apply sample_contract_deployed.
  - apply contract_after_run. vm_compute. reflexivity.
  - exact He.
Defined.

Lemma attestation_takeover_witness :
  ∃ c' fx, submit_participant_info [] (paying 5 (call_by "mallory" 30)) 0 sample_contract
      (DtoMock DtoMockValid) (tls_key 0) = Ok (c', fx) ∧
    TeeState_is_caller_an_attested_participant (call_by "alice" 31) (tee_state c') committee =
      Err AttestationOwnerMismatch.
Proof.
  destruct (attestation_takeover [] (paying 5 (call_by "mallory" 30)) 0 sample_contract (tls_key 0))
    as (c' & fx & H & _ & Hm).
  - reflexivity.
  - vm_compute. discriminate.
  - exists c', fx. split; [exact H|].
    apply (Hm (call_by "alice" 31) committee (sample_info "alice" 0)); [done|reflexivity..].
Defined.

(** Alice announces a destination and moves there. *)
Definition alice_destination (i : Z) : DestinationNodeInfo :=
  mkDestinationNodeInfo sample_key (sample_info "new" i).
Definition alice_attests : ContractCall :=
  MSubmitInfo (call_by "alice" 29) 0 (DtoMock DtoMockValid) (tls_key 7).
Definition alice_moves : list ContractCall :=
  [alice_attests; MStartMigration (call_by "alice" 30) (alice_destination 7)].

Lemma migration_outcome_witness :
  ∃ d, migration_started alice_moves "alice" d.
Proof.
  assert (∃ c', conclude_node_migration (call_by "alice" 31) (contract_after alice_moves)
    sample_keyset = Ok c') as [c' Hc'] by (eexists; vm_compute; reflexivity).
  destruct (migration_outcome [] Some sample_contract alice_moves (plog_after alice_moves)
    (contract_after alice_moves) (call_by "alice" 31) sample_keyset c')
    as (s & s' & d & _ & _ & _ & _ & H & _).
  - apply sample_contract_deployed.
  - apply contract_after_run. vm_compute. reflexivity.
  - exact Hc'.
  - exists d. exact H.
Defined.

(** ** Surprising histories *)

(** A request that is repeated while it waits can become unanswerable.  The
    second identical request replaces the entry of the first; when the first
    one times out, its callback removes the entry, and nodes can no longer
    respond to the second one, which still waits. *)
Theorem repeated_request_unanswerable :
  let twice := world_after [user_sign 10 [1]; user_sign 100 [2]] in
  let w := world_after [user_sign 10 [1]; user_sign 100 [2]; WTimeout [1]; WTimeoutCallback (self_call 210) [1]] in
  world_run [] Some (initial_world sample_contract)
    [user_sign 10 [1]; user_sign 100 [2]; WTimeout [1]; WTimeoutCallback (self_call 210) [1]] = Some w ∧
  pending (contract twice) (YSign sample_request) = Some [2] ∧
  yields w !! [2] = Some (Waiting (YSign sample_request)) ∧
  attested_signer (call_by "alice" 211) (contract w) ∧
  respond (call_by "alice" 211) (contract w) sample_request sample_response =
    Err (EInvalidParameters RequestNotFound).
Proof.
  split; [apply world_after_run; vm_compute; reflexivity|].
  split; [vm_compute; reflexivity|]. split; [vm_compute; reflexivity|].
  split; [split; [reflexivity|]; exists committee; split; vm_compute; reflexivity|].
  vm_compute. reflexivity.
Qed.

Definition carol_votes_hash : ContractCall := MVoteCodeHash (call_by "carol" 5) sample_hash.

(** Votes for an image survive the voter's departure.  Carol votes for an
    image and is replaced; all clean-ups of the resharing run.  With a threshold
    of two, one vote of a current participant then suffices to whitelist the
    image, because Carol's vote is still counted. *)
Theorem stale_code_hash_vote_counts :
  let c := contract_after (carol_votes_hash :: replace_carol) in
  contract_run [] Some sample_contract (carol_votes_hash :: replace_carol)
    (plog_after (carol_votes_hash :: replace_carol)) c ∧
  ProtocolContractState_threshold_parameters (protocol_state c) = Some new_params ∧
  tp_threshold new_params = 2 ∧ ("carol" ∉ accounts_of (tp_participants new_params)) ∧
  (sample_hash ∉ TeeState_get_allowed_mpc_docker_image_hashes (call_by "alice" 30) (tee_state c)
    (tee_upgrade_deadline c)) ∧
  ∃ c', vote_code_hash (call_by "alice" 30) c sample_hash = Ok c' ∧
    sample_hash ∈ TeeState_get_allowed_mpc_docker_image_hashes (call_by "alice" 30) (tee_state c')
      (tee_upgrade_deadline c').
Proof.
  split; [apply contract_after_run; vm_compute; reflexivity|].
  split; [vm_compute; reflexivity|]. split; [reflexivity|].
  split; [by apply (bool_decide_eq_true_1 _)|].
  split; [apply (bool_decide_eq_true_1 _); vm_compute; reflexivity|].
  eexists. split; [vm_compute; reflexivity|].
  apply (bool_decide_eq_true_1 _). vm_compute. reflexivity.
Qed.

Definition alice_takes_bobs_key : list ContractCall :=
  [MStartMigration (call_by "alice" 30) (alice_destination 1);
   MConcludeMigration (call_by "alice" 31) sample_keyset].

(** A migration may end on the key of another node.  The attestation check of
    a migration looks up the destination's TLS key only, not the account the
    attestation belongs to: Alice can move to the TLS key of Bob's attested node,
    and the committee then has two participants with the same TLS key. *)
Theorem migration_to_foreign_key :
  let c := contract_after alice_takes_bobs_key in
  contract_run [] Some sample_contract alice_takes_bobs_key (plog_after alice_takes_bobs_key) c ∧
  ∃ s i j, protocol_state c = Running s ∧
    Participants_info (tp_participants (rs_parameters s)) "alice" = Some i ∧
    Participants_info (tp_participants (rs_parameters s)) "bob" = Some j ∧
    sign_pk i = sign_pk j ∧
    TeeState_is_caller_an_attested_participant (call_by "alice" 32) (tee_state c)
      (tp_participants (rs_parameters s)) = Err AttestationOwnerMismatch.
Proof.
  split; [apply contract_after_run; vm_compute; reflexivity|].
  eexists _, _, _. split; [vm_compute; reflexivity|]. split; [vm_compute; reflexivity|].
  split; [vm_compute; reflexivity|]. split; vm_compute; reflexivity.
Qed.
