(* ===== verification/TsTypes.v ===== *)
(** * Threshold signatures: errors, results and participants

    [src/crates/threshold-signatures/src]: [errors.rs], [thresholds.rs] and
    [participants.rs].  The files of this crate share this one; it loads the
    Standard Library only, so that both the algebra (MathComp) and the message
    protocols (stdpp) can be built on it.

    A [HashMap] is an association list in which every key occurs once.  [usize]
    has 64 bits here: these protocols run on the nodes. *)

From Stdlib Require Import ZArith Lia String DecimalString Bool List.
From Stdlib Require Import Sorting.Mergesort Sorting.Sorted Sorting.Permutation Orders.
Import ListNotations.
Open Scope Z_scope.

(** ** Results *)

(** A participant is identified by a [u32]. *)
Abbreviation Participant := Z (only parsing).

(** [MessageError]. *)
Inductive MessageError : Type :=
  | BufferFull (capacity : Z)
  | TooShort (len min : Z)
  | InvalidHeader.

(** [ProtocolError]. *)
Inductive ProtocolError : Type :=
  | AssertionFailed (msg : string)
  | DKGNotSupported
  | EmptyOrZeroCoefficients
  | ErrorExtractVerificationKey
  | ErrorFrostRerandomizingParameters
  | ErrorFrostSigningFailed
  | ErrorFrostAggregation
  | ErrorEncoding
  | ErrorReducingBytesToScalar
  | IdentityElement
  | IncompatibleRerandomizationInputs
  | InvalidCommitmentHash
  | InvalidIndex
  | InvalidInput (msg : string)
  | IoError (msg : string)
  | InvalidInterpolationArguments
  | IncorrectNumberOfCommitments
  | InvalidProofOfKnowledge (p : Participant)
  | InvalidSecretShare (p : Participant)
  | MalformedElement
  | MaliciousParticipant (p : Participant)
  | MalformedSigningKey
  | PointSerialization
  | HashingError
  | ZeroScalar
  | Unreachable
  | IntegerOverflow
  | DeserializationError (msg : string)
  | Message (e : MessageError)
  | Other (msg : string).

(** [InitializationError]. *)
Inductive InitializationError : Type :=
  | BadParameters (msg : string)
  | DuplicateParticipants
  | MissingParticipant (role : string) (participant : Participant)
  | NotEnoughParticipants (participants : Z)
  | NotEnoughParticipantsForThreshold (participants threshold : Z)
  | NotEnoughParticipantsForNewThreshold (threshold participants : Z)
  | ThresholdTooSmall (threshold min : Z)
  | ThresholdTooLarge (threshold max : Z)
  | InvalidParticipantIndex.

(** A call returns, fails, or panics. *)
Inductive result (E A : Type) : Type :=
  | Ok (a : A)
  | Err (e : E)
  | Panic (msg : string).
Arguments Ok {_ _} _.
Arguments Err {_ _} _.
Arguments Panic {_ _} _.

(** The [?] operator. *)
Definition rbind {E A B} (m : result E A) (k : A -> result E B) : result E B :=
  match m with Ok a => k a | Err e => Err e | Panic s => Panic s end.

(** [Option::ok_or]. *)
Definition ok_or {E A} (o : option A) (e : E) : result E A :=
  match o with Some a => Ok a | None => Err e end.

(** [collect::<Result<Vec<_>, _>>()] over a fallible map. *)
Fixpoint rmap {E A B} (f : A -> result E B) (l : list A) : result E (list B) :=
  match l with
  | [] => Ok []
  | x :: l => rbind (f x) (fun y => rbind (rmap f l) (fun l' => Ok (y :: l')))
  end.

(** [collect::<Option<Vec<_>>>()]. *)
Fixpoint all_some {A} (l : list (option A)) : option (list A) :=
  match l with
  | [] => Some []
  | Some x :: l => match all_some l with Some l' => Some (x :: l') | None => None end
  | None :: _ => None
  end.

Declare Scope ts_scope.
Delimit Scope ts_scope with ts.
Notation "'let*' x ':=' m 'in' k" := (rbind m (fun x => k))
  (at level 10, x pattern, m at level 100, k at level 200) : ts_scope.
Open Scope ts_scope.

(** [{p:?}] of a participant. *)
Definition debug_participant (p : Participant) : string :=
  ("Participant(" ++ NilZero.string_of_int (Z.to_int p) ++ ")")%string.

Lemma rbind_Ok {E A B} (m : result E A) (k : A -> result E B) b :
  rbind m k = Ok b <-> exists a, m = Ok a /\ k a = Ok b.
Proof.
  destruct m; simpl; split; try discriminate; [eauto| | |]; intros (a' & H & ?); congruence.
Qed.

Lemma ts_ok_or_Ok {E A} (o : option A) (e : E) a : ok_or o e = Ok a <-> o = Some a.
Proof. destruct o; simpl; split; congruence. Qed.

Lemma rmap_Ok {E A B} (f : A -> result E B) l l' :
  rmap f l = Ok l' <-> Forall2 (fun x y => f x = Ok y) l l'.
Proof.
  revert l'. induction l as [|x l IH]; intros l'; simpl.
  - split; [intros [= <-]; constructor|]. intros H. now inversion H.
  - rewrite rbind_Ok. split.
    + intros (y & Hy & H). apply rbind_Ok in H as (l2 & Hl2 & [= <-]).
      constructor; [assumption|]. now apply IH.
    + intros H. inversion H as [|? y ? l2 Hy Hl2]; subst. exists y. split; [assumption|].
      apply IH in Hl2. now rewrite Hl2.
Qed.

Lemma all_some_spec {A} (l : list (option A)) l' :
  all_some l = Some l' <-> l = map Some l'.
Proof.
  revert l'. induction l as [|[x|] l IH]; intros l'; simpl.
  - split; [now intros [= <-]|]. now destruct l'.
  - split.
    + destruct (all_some l) as [l2|] eqn:E; [|discriminate]. intros [= <-].
      simpl. f_equal. now apply IH.
    + destruct l' as [|y l']; [discriminate|]. simpl. intros [= <- H].
      apply IH in H. now rewrite H.
  - split; [discriminate|]. now destruct l'.
Qed.

(** ** Thresholds ([thresholds.rs]) *)

Definition usize_max : Z := 2 ^ 64 - 1.

(** [usize::checked_add], [checked_sub] and [checked_mul]. *)
Definition checked_add (a b : Z) : option Z := if a + b <=? usize_max then Some (a + b) else None.
Definition checked_sub (a b : Z) : option Z := if b <=? a then Some (a - b) else None.
Definition checked_mul (a b : Z) : option Z := if a * b <=? usize_max then Some (a * b) else None.

Abbreviation MaxMalicious := Z (only parsing).
Abbreviation ReconstructionLowerBound := Z (only parsing).

(** [TryFrom<MaxMalicious> for ReconstructionLowerBound]; the only
    [ThresholdError] is the integer overflow. *)
Definition ReconstructionLowerBound_try_from (m : MaxMalicious) : option ReconstructionLowerBound :=
  checked_add m 1.
