(* ===== verification/TsParticipants.v ===== *)
(** * Threshold signatures: participant lists, maps and counters

    [src/crates/threshold-signatures/src/participants.rs], except
    [Participant::scalar] and [ParticipantList::lagrange], which need the scalar
    field ([Polynomials.v], [Dkg.v]).

    The sorted list without duplicates ([ParticipantList_ok]) is what all
    parties agree on; the map and the counter hold at most one entry for each of
    its members ([ParticipantMap_ok], [ParticipantCounter_ok]). *)

From Stdlib Require Import ZArith Lia String Bool List.
From Stdlib Require Import Sorting.Mergesort Sorting.Sorted Sorting.Permutation Orders.
From S2P Require Import TsTypes.
Import ListNotations.
Open Scope Z_scope.
Open Scope ts_scope.

(** ** Definitions *)

(** The derived order on [Participant] is the order of its number; [sort] is a
    stable merge sort. *)
Module ZOrder <: TotalLeBool.
Definition t := Z.
Definition leb := Z.leb.
Lemma leb_total x y : Z.leb x y = true \/ Z.leb y x = true.
Proof. rewrite !Z.leb_le. lia. Qed.
End ZOrder.
Module ZSort := Sort ZOrder.

(** [HashMap<Participant, usize>]. *)
Abbreviation HashMap := (list (Participant * nat)) (only parsing).

Fixpoint HashMap_get (m : HashMap) (p : Participant) : option nat :=
  match m with
  | [] => None
  | (q, i) :: m => if p =? q then Some i else HashMap_get m p
  end.

Fixpoint HashMap_insert (m : HashMap) (p : Participant) (i : nat) : HashMap :=
  match m with
  | [] => [(p, i)]
  | (q, j) :: m => if p =? q then (q, i) :: m else (q, j) :: HashMap_insert m p i
  end.

(** [iter().enumerate().map(...).collect()], from index [i] on. *)
Fixpoint collect_indices (i : nat) (ps : list Participant) (m : HashMap) : HashMap :=
  match ps with
  | [] => m
  | p :: ps => collect_indices (S i) ps (HashMap_insert m p i)
  end.

Record ParticipantList : Type := mkParticipantList {
  pl_participants : list Participant;
  pl_indices : HashMap;
}.

Definition ParticipantList_new_vec (participants : list Participant) : option ParticipantList :=
  let participants := ZSort.sort participants in
  let indices := collect_indices 0 participants [] in
  if (length indices <? length participants)%nat then None
  else Some (mkParticipantList participants indices).

Definition ParticipantList_new (participants : list Participant) : option ParticipantList :=
  ParticipantList_new_vec participants.

Definition ParticipantList_len (l : ParticipantList) : nat := length (pl_participants l).

Definition ParticipantList_is_empty (l : ParticipantList) : bool :=
  match pl_participants l with [] => true | _ => false end.

Definition ParticipantList_contains (l : ParticipantList) (p : Participant) : bool :=
  match HashMap_get (pl_indices l) p with Some _ => true | None => false end.

Definition ParticipantList_others (l : ParticipantList) (me : Participant) : list Participant :=
  filter (fun x => negb (x =? me)) (pl_participants l).

Definition ParticipantList_index (l : ParticipantList) (p : Participant) :
    result ProtocolError nat :=
  ok_or (HashMap_get (pl_indices l) p) InvalidIndex.

Definition ParticipantList_get_participant (l : ParticipantList) (i : nat) : option Participant :=
  nth_error (pl_participants l) i.

Definition ParticipantList_intersection {E} (l others : ParticipantList) :
    result E ParticipantList :=
  match ParticipantList_new_vec
          (filter (ParticipantList_contains others) (pl_participants l)) with
  | Some r => Ok r
  | None => Panic "We know that no duplicates will be created, so unwrapping is safe"
  end.

(** [get_mut(i)] followed by an assignment. *)
Fixpoint set_nth {A} (i : nat) (x : A) (l : list A) : list A :=
  match l, i with
  | [], _ => []
  | _ :: l, O => x :: l
  | y :: l, S i => y :: set_nth i x l
  end.

Record ParticipantMap (T : Type) : Type := mkParticipantMap {
  pm_participants : ParticipantList;
  pm_data : list (option T);
  pm_count : nat;
}.
Arguments mkParticipantMap {_} _ _ _.
Arguments pm_participants {_} _.
Arguments pm_data {_} _.
Arguments pm_count {_} _.

Definition ParticipantMap_new {T} (participants : ParticipantList) : ParticipantMap T :=
  mkParticipantMap participants (repeat None (length (pl_participants participants))) 0.

Definition ParticipantMap_full {T} (m : ParticipantMap T) : bool :=
  (pm_count m =? length (pm_data m))%nat.

Definition ParticipantMap_put {T} (m : ParticipantMap T) (p : Participant) (data : T) :
    ParticipantMap T :=
  match HashMap_get (pl_indices (pm_participants m)) p with
  | Some i =>
    match nth_error (pm_data m) i with
    | Some None =>
      mkParticipantMap (pm_participants m) (set_nth i (Some data) (pm_data m)) (S (pm_count m))
    | _ => m
    end
  | None => m
  end.

Definition ParticipantMap_into_vec_or_none {T} (m : ParticipantMap T) : option (list T) :=
  all_some (pm_data m).

Definition ParticipantMap_index {T} (m : ParticipantMap T) (p : Participant) :
    result ProtocolError T :=
  let* i := ParticipantList_index (pm_participants m) p in
  let* d := ok_or (nth_error (pm_data m) i) InvalidIndex in
  ok_or d (Other "No data found").

(** [counter] is a [usize]; [counter -= 1] is kept as a subtraction on [Z], and
    [ParticipantCounter_ok] shows that it never goes below zero. *)
Record ParticipantCounter : Type := mkParticipantCounter {
  pc_participants : ParticipantList;
  pc_seen : list bool;
  pc_counter : Z;
}.

Definition ParticipantCounter_new (participants : ParticipantList) : ParticipantCounter :=
  mkParticipantCounter participants (repeat false (ParticipantList_len participants))
    (Z.of_nat (ParticipantList_len participants)).

Definition ParticipantCounter_put (c : ParticipantCounter) (p : Participant) :
    ParticipantCounter * bool :=
  match HashMap_get (pl_indices (pc_participants c)) p with
  | None => (c, false)
  | Some i =>
    match nth_error (pc_seen c) i with
    | Some seen_i =>
      let seen := set_nth i true (pc_seen c) in
      let inserted := negb seen_i in
      (mkParticipantCounter (pc_participants c) seen
         (if inserted then pc_counter c - 1 else pc_counter c), inserted)
    | None => (c, false)
    end
  end.

Definition ParticipantCounter_full (c : ParticipantCounter) : bool := pc_counter c =? 0.

(** ** Lists *)

Lemma HashMap_get_insert m p i q :
  HashMap_get (HashMap_insert m p i) q = if q =? p then Some i else HashMap_get m q.
Proof.
  induction m as [|[r j] m IH]; simpl; [now destruct (q =? p)|].
  destruct (Z.eqb_spec p r) as [->|Hpr]; simpl.
  - now destruct (Z.eqb_spec q r).
  - rewrite IH. destruct (Z.eqb_spec q r) as [->|]; [|reflexivity].
    now destruct (Z.eqb_spec r p); [congruence|].
Qed.

Lemma HashMap_insert_keys m p i :
  map fst (HashMap_insert m p i) =
  if in_dec Z.eq_dec p (map fst m) then map fst m else map fst m ++ [p].
Proof.
  induction m as [|[r j] m IH]; simpl; [reflexivity|].
  destruct (Z.eqb_spec p r) as [->|Hpr]; simpl.
  - now destruct (Z.eq_dec r r).
  - rewrite IH. destruct (Z.eq_dec r p); [congruence|].
    now destruct (in_dec Z.eq_dec p (map fst m)).
Qed.

Lemma collect_indices_keys ps : forall i m,
  NoDup (map fst m) ->
  NoDup (map fst (collect_indices i ps m)) /\
  forall p, In p (map fst (collect_indices i ps m)) <-> In p (map fst m) \/ In p ps.
Proof.
  induction ps as [|q ps IH]; intros i m Hm; simpl; [split; [assumption|tauto]|].
  assert (Hk : NoDup (map fst (HashMap_insert m q i)) /\
    forall p, In p (map fst (HashMap_insert m q i)) <-> In p (map fst m) \/ q = p).
  { rewrite HashMap_insert_keys. destruct (in_dec Z.eq_dec q (map fst m)) as [Hin|Hin].
    - split; [assumption|]. intros p. split; [tauto|]. intros [|<-]; assumption.
    - split; [|intros p; rewrite in_app_iff; simpl; tauto].
      apply NoDup_app; [assumption|repeat constructor; intros []|].
      intros a Ha [<-|[]]. contradiction. }
  destruct Hk as [Hnd Hin]. destruct (IH (S i) _ Hnd) as [Hnd' Hin']. split; [assumption|].
  intros p. rewrite Hin', Hin. tauto.
Qed.

Lemma collect_indices_get ps : forall i m p,
  NoDup ps ->
  HashMap_get (collect_indices i ps m) p =
  match find (fun '(_, q) => p =? q) (combine (seq i (length ps)) ps) with
  | Some (j, _) => Some j
  | None => HashMap_get m p
  end.
Proof.
  induction ps as [|q ps IH]; intros i m p Hnd; simpl; [reflexivity|].
  inversion Hnd as [|? ? Hq Hps]; subst. rewrite IH by assumption.
  rewrite HashMap_get_insert. destruct (Z.eqb_spec p q) as [->|]; [|reflexivity].
  destruct (find _ _) as [[j r]|] eqn:E; [|reflexivity].
  apply find_some in E as [Hin Heq]. apply in_combine_r in Hin.
  apply Z.eqb_eq in Heq. congruence.
Qed.

(** On a list without duplicates, [indices] is the inverse of the list. *)
Lemma collect_indices_nth ps p i :
  NoDup ps ->
  HashMap_get (collect_indices 0 ps []) p = Some i <-> nth_error ps i = Some p.
Proof.
  intros Hnd. rewrite collect_indices_get by assumption. simpl HashMap_get.
  enough (H : forall k, match find (fun '(_, q) => p =? q) (combine (seq k (length ps)) ps) with
    | Some (j, _) => Some j | None => None end = Some (k + i)%nat <-> nth_error ps i = Some p)
    by exact (H 0%nat).
  revert i Hnd. induction ps as [|q ps IH]; intros i Hnd k; simpl.
  { split; [discriminate|]. destruct i; discriminate. }
  inversion Hnd as [|? ? Hq Hps]; subst. destruct (Z.eqb_spec p q) as [->|Hpq].
  - destruct i as [|i]; simpl.
    + split; intros _; f_equal; lia.
    + split; [intros [= H]; lia|]. intros H%nth_error_In. contradiction.
  - destruct i as [|i]; simpl.
    + split; [|congruence]. intros H. exfalso.
      destruct (find _ _) as [[j r]|] eqn:E; [|discriminate].
      apply find_some in E as [Hin _]. apply in_combine_l, in_seq in Hin.
      injection H. lia.
    + replace (k + S i)%nat with (S k + i)%nat by lia. now apply IH.
Qed.

(** A participant list is strictly sorted, and [indices] inverts it. *)
Definition ParticipantList_ok (l : ParticipantList) : Prop :=
  StronglySorted Z.lt (pl_participants l) /\
  forall p i, HashMap_get (pl_indices l) p = Some i <-> nth_error (pl_participants l) i = Some p.

Lemma sort_strict ps : NoDup ps -> StronglySorted Z.lt (ZSort.sort ps).
Proof.
  intros Hnd. assert (Hs : StronglySorted Z.le (ZSort.sort ps)).
  { assert (H : StronglySorted (fun a b => is_true (a <=? b)) (ZSort.sort ps)).
    { apply ZSort.StronglySorted_sort. intros a b c. unfold is_true, ZOrder.leb.
      rewrite !Z.leb_le. lia. }
    revert H. generalize (ZSort.sort ps).
    induction 1 as [|x l Hl IH Hx]; constructor; [assumption|].
    eapply Forall_impl; [|exact Hx]. intros y Hy. unfold is_true, ZOrder.leb in Hy.
    now apply Z.leb_le. }
  assert (Hnd' : NoDup (ZSort.sort ps)) by
    (eapply Permutation_NoDup; [apply ZSort.Permuted_sort|assumption]).
  revert Hs Hnd'. generalize (ZSort.sort ps). clear Hnd.
  induction 1 as [|x l Hl IH Hx]; intros Hnd'; constructor;
    inversion Hnd' as [|? ? Hin Hl']; subst; auto.
  rewrite Forall_forall in *. intros y Hy. specialize (Hx y Hy).
  destruct (Z.eq_dec x y) as [->|]; [contradiction|lia].
Qed.

Lemma strict_NoDup l : StronglySorted Z.lt l -> NoDup l.
Proof.
  induction 1 as [|x l Hl IH Hx]; constructor; [|assumption].
  intros Hin. rewrite Forall_forall in Hx. specialize (Hx x Hin). lia.
Qed.

Lemma ParticipantList_new_Some ps l :
  ParticipantList_new ps = Some l <->
  NoDup ps /\ pl_participants l = ZSort.sort ps /\
  pl_indices l = collect_indices 0 (ZSort.sort ps) [].
Proof.
  unfold ParticipantList_new, ParticipantList_new_vec.
  pose proof (ZSort.Permuted_sort ps) as Hperm. set (s := ZSort.sort ps) in *.
  destruct (collect_indices_keys s 0 [] (NoDup_nil _)) as [Hk Hin]. simpl in Hin.
  destruct (Nat.ltb_spec (length (collect_indices 0 s [])) (length s)) as [Hlt|Hge].
  - split; [discriminate|]. intros (Hnd & _). exfalso.
    assert (length s <= length (map fst (collect_indices 0 s [])))%nat; [|rewrite length_map in *; lia].
    apply NoDup_incl_length; [eapply Permutation_NoDup; eassumption|].
    intros p Hp. apply Hin. tauto.
  - split.
    + intros [= <-]. split; [|split; reflexivity]. apply Permutation_sym in Hperm.
      eapply Permutation_NoDup; [exact Hperm|].
      apply (NoDup_incl_NoDup Hk); [rewrite length_map; assumption|].
      intros p Hp. apply Hin in Hp. tauto.
    + destruct l. simpl. intros (_ & -> & ->). reflexivity.
Qed.

Lemma ParticipantList_new_ok ps l :
  ParticipantList_new ps = Some l ->
  ParticipantList_ok l /\ Permutation ps (pl_participants l).
Proof.
  intros (Hnd & Hp & Hi)%ParticipantList_new_Some. pose proof (sort_strict ps Hnd) as Hs.
  split; [split|].
  - now rewrite Hp.
  - intros p i. rewrite Hp, Hi. apply collect_indices_nth. now apply strict_NoDup.
  - rewrite Hp. apply ZSort.Permuted_sort.
Qed.

Lemma ParticipantList_ok_NoDup l : ParticipantList_ok l -> NoDup (pl_participants l).
Proof. intros [Hs _]. now apply strict_NoDup. Qed.

Lemma ParticipantList_contains_In l p :
  ParticipantList_ok l -> ParticipantList_contains l p = true <-> In p (pl_participants l).
Proof.
  intros [_ Hi]. unfold ParticipantList_contains. specialize (Hi p).
  destruct (HashMap_get (pl_indices l) p) as [i|] eqn:E.
  - split; [intros _|reflexivity]. eapply nth_error_In. now apply Hi.
  - split; [discriminate|]. intros (i & Hn)%In_nth_error. apply Hi in Hn. congruence.
Qed.

(** Strictly sorted lists with the same elements are equal. *)
Lemma strict_ext l k :
  StronglySorted Z.lt l -> StronglySorted Z.lt k -> (forall p, In p l <-> In p k) -> l = k.
Proof.
  intros Hl. revert k. induction Hl as [|x l Hl IH Hx]; intros k Hk Heq.
  { destruct k as [|y k]; [reflexivity|]. destruct (proj2 (Heq y)). now left. }
  destruct Hk as [|y k Hk Hy]; [destruct (proj1 (Heq x)); now left|].
  rewrite Forall_forall in Hx, Hy.
  assert (x = y) as <-.
  { destruct (proj1 (Heq x) (or_introl eq_refl)) as [->|Hxk]; [reflexivity|].
    destruct (proj2 (Heq y) (or_introl eq_refl)) as [->|Hyl]; [reflexivity|].
    specialize (Hx y Hyl). specialize (Hy x Hxk). lia. }
  f_equal. apply IH; [assumption|]. intros p. specialize (Heq p). simpl in Heq. split; intros Hp.
  - destruct (proj1 Heq (or_intror Hp)) as [<-|]; [|assumption]. specialize (Hx _ Hp). lia.
  - destruct (proj2 Heq (or_intror Hp)) as [<-|]; [|assumption]. specialize (Hy _ Hp). lia.
Qed.

Lemma ParticipantList_index_get l p i :
  ParticipantList_ok l ->
  ParticipantList_index l p = Ok i <-> ParticipantList_get_participant l i = Some p.
Proof.
  intros [_ Hi]. unfold ParticipantList_index. now rewrite ts_ok_or_Ok, Hi.
Qed.

Lemma ParticipantList_index_len l p i :
  ParticipantList_ok l -> ParticipantList_index l p = Ok i -> (i < ParticipantList_len l)%nat.
Proof.
  intros Hl H. apply ParticipantList_index_get in H; [|assumption].
  apply nth_error_Some. unfold ParticipantList_get_participant in H. congruence.
Qed.

Lemma ParticipantList_index_In l p :
  ParticipantList_ok l -> In p (pl_participants l) -> exists i, ParticipantList_index l p = Ok i.
Proof.
  intros Hl (i & Hi)%In_nth_error. exists i. now apply ParticipantList_index_get.
Qed.

Lemma ParticipantList_others_In l me p :
  In p (ParticipantList_others l me) <-> In p (pl_participants l) /\ p <> me.
Proof.
  unfold ParticipantList_others. rewrite filter_In, negb_true_iff, Z.eqb_neq. tauto.
Qed.

Lemma filter_strict f l : StronglySorted Z.lt l -> StronglySorted Z.lt (filter f l).
Proof.
  induction 1 as [|x l Hl IH Hx]; simpl; [constructor|].
  destruct (f x); [constructor|]; auto. rewrite Forall_forall in *.
  intros y [Hy _]%filter_In. auto.
Qed.

(** The [expect] in [intersection] cannot fail, and the result is the sorted
    list of the common members. *)
Lemma ParticipantList_intersection_ok {E} l k :
  ParticipantList_ok l -> ParticipantList_ok k ->
  exists r, ParticipantList_intersection (E := E) l k = Ok r /\ ParticipantList_ok r /\
    pl_participants r = filter (ParticipantList_contains k) (pl_participants l).
Proof.
  intros Hl Hk. unfold ParticipantList_intersection.
  set (f := filter _ _). assert (Hs : StronglySorted Z.lt f) by (apply filter_strict, Hl).
  destruct (ParticipantList_new_vec f) as [r|] eqn:E0.
  - exists r. destruct (ParticipantList_new_ok _ _ E0) as [Hr Hperm]. repeat split; try apply Hr.
    apply strict_ext; [apply Hr|assumption|]. intros p. split; intros Hp.
    + eapply Permutation_in; [apply Permutation_sym|]; eassumption.
    + eapply Permutation_in; eassumption.
  - exfalso. assert (H : ParticipantList_new f =
      Some (mkParticipantList (ZSort.sort f) (collect_indices 0 (ZSort.sort f) []))).
    { apply ParticipantList_new_Some. split; [now apply strict_NoDup|]. split; reflexivity. }
    unfold ParticipantList_new in H. congruence.
Qed.

(** ** Maps *)

Lemma set_nth_length {A} i (x : A) l : length (set_nth i x l) = length l.
Proof. revert i. induction l; intros [|i]; simpl; auto. Qed.

Lemma set_nth_nth {A} i (x : A) l j :
  (i < length l)%nat ->
  nth_error (set_nth i x l) j = if Nat.eq_dec j i then Some x else nth_error l j.
Proof.
  revert i j. induction l as [|y l IH]; intros [|i] [|j] Hi; simpl in *; try lia; try reflexivity.
  rewrite IH by lia. destruct (Nat.eq_dec j i), (Nat.eq_dec (S j) (S i)); congruence || lia.
Qed.

Definition is_some {A} (o : option A) : bool := match o with Some _ => true | None => false end.

(** The number of entries that satisfy a predicate. *)
Definition count_if {A} (f : A -> bool) (l : list A) : nat := length (filter f l).

Lemma count_if_le {A} (f : A -> bool) l : (count_if f l <= length l)%nat.
Proof. apply filter_length_le. Qed.

Lemma count_if_all {A} (f : A -> bool) l : count_if f l = length l <-> forallb f l = true.
Proof.
  induction l as [|x l IH]; unfold count_if in *; simpl; [tauto|].
  pose proof (filter_length_le f l). destruct (f x); simpl; rewrite <- ?IH.
  - split; intros; lia.
  - split; [lia|discriminate].
Qed.

Lemma count_if_set_nth {A} (f : A -> bool) i x y l :
  nth_error l i = Some y ->
  (count_if f (set_nth i x l) + Nat.b2n (f y) = count_if f l + Nat.b2n (f x))%nat.
Proof.
  revert i. induction l as [|z l IH]; intros [|i]; simpl; try discriminate; unfold count_if in *; simpl.
  - intros [= ->]. destruct (f x), (f y); simpl; lia.
  - intros Hi. specialize (IH i Hi). destruct (f z); simpl; lia.
Qed.

Definition ParticipantMap_ok {T} (m : ParticipantMap T) : Prop :=
  ParticipantList_ok (pm_participants m) /\
  length (pm_data m) = length (pl_participants (pm_participants m)) /\
  pm_count m = count_if is_some (pm_data m).

(** What the map holds for a participant. *)
Definition ParticipantMap_get {T} (m : ParticipantMap T) (p : Participant) : option T :=
  match HashMap_get (pl_indices (pm_participants m)) p with
  | Some i => match nth_error (pm_data m) i with Some d => d | None => None end
  | None => None
  end.

Lemma nth_error_repeat_lt {A} (x : A) n i : (i < n)%nat -> nth_error (repeat x n) i = Some x.
Proof. revert i. induction n; intros [|i] Hi; simpl; try lia; [reflexivity|]. apply IHn. lia. Qed.

Lemma count_if_repeat {A} (f : A -> bool) x n : f x = false -> count_if f (repeat x n) = 0%nat.
Proof. intros Hf. unfold count_if. induction n; simpl; rewrite ?Hf; auto. Qed.

Lemma nth_error_lt_Some {A} (l : list A) i x : nth_error l i = Some x -> (i < length l)%nat.
Proof. intros H. apply nth_error_Some. congruence. Qed.

Lemma ParticipantMap_new_ok {T} l :
  ParticipantList_ok l ->
  ParticipantMap_ok (ParticipantMap_new (T := T) l) /\
  forall p, ParticipantMap_get (ParticipantMap_new (T := T) l) p = None.
Proof.
  intros Hl. split; [repeat split; try apply Hl; simpl|].
  - now rewrite repeat_length.
  - now rewrite count_if_repeat.
  - intros p. unfold ParticipantMap_get. simpl. destruct (HashMap_get _ _) as [i|] eqn:E; [|reflexivity].
    apply Hl, nth_error_lt_Some in E. now rewrite nth_error_repeat_lt.
Qed.

(** [put] stores the first value of a listed participant and nothing else. *)
Lemma ParticipantMap_put_ok {T} (m : ParticipantMap T) p x :
  ParticipantMap_ok m ->
  ParticipantMap_ok (ParticipantMap_put m p x) /\
  pm_participants (ParticipantMap_put m p x) = pm_participants m /\
  forall q, ParticipantMap_get (ParticipantMap_put m p x) q =
    if (q =? p) && ParticipantList_contains (pm_participants m) p &&
       negb (is_some (ParticipantMap_get m p))
    then Some x else ParticipantMap_get m q.
Proof.
  intros (Hl & Hlen & Hc). unfold ParticipantMap_put, ParticipantList_contains.
  unfold ParticipantMap_get at 2.
  destruct (HashMap_get (pl_indices (pm_participants m)) p) as [i|] eqn:E.
  2:{ split; [exact (conj Hl (conj Hlen Hc))|]. split; [reflexivity|]. intros q. destruct (q =? p); simpl; now rewrite ?E, ?Ey. }
  pose proof (nth_error_lt_Some _ _ _ (proj1 (proj2 Hl _ _) E)) as Hi. rewrite <- Hlen in Hi.
  destruct (nth_error (pm_data m) i) as [[y|]|] eqn:Ey.
  1: { split; [exact (conj Hl (conj Hlen Hc))|]. split; [reflexivity|]. intros q. destruct (q =? p); simpl; now rewrite ?E, ?Ey. }
  2: { apply nth_error_None in Ey. lia. }
  split; [split; [assumption|split]|split; [reflexivity|]]; simpl.
  - now rewrite set_nth_length.
  - pose proof (count_if_set_nth is_some i (Some x) None _ Ey). simpl in *. lia.
  - intros q. unfold ParticipantMap_get. simpl.
    destruct (Z.eqb_spec q p) as [->|Hqp]; simpl.
    + rewrite E, set_nth_nth by assumption. now destruct (Nat.eq_dec i i).
    + destruct (HashMap_get _ q) as [j|] eqn:Ej; [|reflexivity].
      rewrite set_nth_nth by assumption. destruct (Nat.eq_dec j i) as [->|]; [|reflexivity].
      apply Hl in E, Ej. congruence.
Qed.

(** A full map yields the values in the order of the participants. *)
Lemma ParticipantMap_full_vec {T} (m : ParticipantMap T) :
  ParticipantMap_ok m ->
  ParticipantMap_full m = true <->
  exists v, ParticipantMap_into_vec_or_none m = Some v.
Proof.
  intros (_ & _ & Hc). unfold ParticipantMap_full, ParticipantMap_into_vec_or_none.
  rewrite Nat.eqb_eq, Hc, count_if_all. generalize (pm_data m). clear.
  induction l as [|[x|] l IH]; simpl.
  - split; [eauto|reflexivity].
  - rewrite IH. split; intros (v & Hv).
    + rewrite Hv. eauto.
    + destruct (all_some l); [eauto|discriminate].
  - split; [discriminate|]. intros (v & ?). discriminate.
Qed.

Lemma ParticipantMap_index_get {T} (m : ParticipantMap T) p x :
  ParticipantMap_index m p = Ok x <-> ParticipantMap_get m p = Some x.
Proof.
  unfold ParticipantMap_index, ParticipantList_index, ParticipantMap_get.
  destruct (HashMap_get _ _) as [i|]; simpl; [|split; discriminate].
  destruct (nth_error (pm_data m) i) as [[y|]|]; simpl; split; congruence.
Qed.

(** ** Counters *)

Definition ParticipantCounter_ok (c : ParticipantCounter) : Prop :=
  ParticipantList_ok (pc_participants c) /\
  length (pc_seen c) = ParticipantList_len (pc_participants c) /\
  pc_counter c = Z.of_nat (count_if negb (pc_seen c)).

Definition ParticipantCounter_has (c : ParticipantCounter) (p : Participant) : bool :=
  match HashMap_get (pl_indices (pc_participants c)) p with
  | Some i => match nth_error (pc_seen c) i with Some b => b | None => false end
  | None => false
  end.

Lemma count_if_repeat_all {A} (f : A -> bool) x n : f x = true -> count_if f (repeat x n) = n.
Proof. intros Hf. unfold count_if. induction n; simpl; rewrite ?Hf; simpl; auto. Qed.

Lemma ParticipantCounter_new_ok l :
  ParticipantList_ok l ->
  ParticipantCounter_ok (ParticipantCounter_new l) /\
  forall p, ParticipantCounter_has (ParticipantCounter_new l) p = false.
Proof.
  intros Hl. split; [repeat split; try apply Hl; simpl|].
  - now rewrite repeat_length.
  - now rewrite count_if_repeat_all.
  - intros p. unfold ParticipantCounter_has. simpl. destruct (HashMap_get _ _) as [i|] eqn:E; [|reflexivity].
    apply Hl, nth_error_lt_Some in E. now rewrite nth_error_repeat_lt.
Qed.

(** [put] answers [true] exactly once for every listed participant. *)
Lemma ParticipantCounter_put_ok c p c' b :
  ParticipantCounter_ok c -> ParticipantCounter_put c p = (c', b) ->
  ParticipantCounter_ok c' /\ pc_participants c' = pc_participants c /\
  b = ParticipantList_contains (pc_participants c) p && negb (ParticipantCounter_has c p) /\
  forall q, ParticipantCounter_has c' q =
    ((q =? p) && ParticipantList_contains (pc_participants c) p) || ParticipantCounter_has c q.
Proof.
  intros (Hl & Hlen & Hc). unfold ParticipantCounter_put, ParticipantList_contains.
  unfold ParticipantCounter_has at 1.
  destruct (HashMap_get (pl_indices (pc_participants c)) p) as [i|] eqn:E.
  2:{ intros [= <- <-]. split; [exact (conj Hl (conj Hlen Hc))|]. split; [reflexivity|]. split; [reflexivity|].
      intros q. now destruct (q =? p). }
  pose proof (nth_error_lt_Some _ _ _ (proj1 (proj2 Hl _ _) E)) as Hi.
  unfold ParticipantList_len in Hlen. rewrite <- Hlen in Hi.
  destruct (nth_error (pc_seen c) i) as [s|] eqn:Es; [|apply nth_error_None in Es; lia].
  intros [= <- <-]. split; [split; [assumption|split]|split; [reflexivity|split; [reflexivity|]]]; simpl.
  - now rewrite set_nth_length.
  - pose proof (count_if_set_nth negb i true s _ Es). simpl in *. rewrite Hc. destruct s; simpl in *; lia.
  - intros q. unfold ParticipantCounter_has. simpl. rewrite andb_true_r.
    destruct (Z.eqb_spec q p) as [->|Hqp]; simpl.
    + rewrite E, set_nth_nth by assumption. now destruct (Nat.eq_dec i i).
    + destruct (HashMap_get _ q) as [j|] eqn:Ej; [|reflexivity].
      rewrite set_nth_nth by assumption. destruct (Nat.eq_dec j i) as [->|]; [|reflexivity].
      apply Hl in E, Ej. congruence.
Qed.

Lemma ParticipantCounter_full_spec c :
  ParticipantCounter_ok c ->
  ParticipantCounter_full c = true <->
  forall p, In p (pl_participants (pc_participants c)) -> ParticipantCounter_has c p = true.
Proof.
  intros (Hl & Hlen & Hc). unfold ParticipantCounter_full. rewrite Z.eqb_eq, Hc.
  unfold ParticipantList_len in Hlen. split.
  - intros H0 p Hp. apply In_nth_error in Hp as (i & Hi). pose proof (nth_error_lt_Some _ _ _ Hi).
    apply Hl in Hi. unfold ParticipantCounter_has. rewrite Hi.
    destruct (nth_error (pc_seen c) i) as [[]|] eqn:E; [reflexivity| |apply nth_error_None in E; lia].
    assert (In false (filter negb (pc_seen c))) as Hin by
      (apply filter_In; split; [eapply nth_error_In; eassumption|reflexivity]).
    unfold count_if in H0. destruct (filter negb (pc_seen c)); [destruct Hin|simpl in H0; lia].
  - intros Hall. unfold count_if. enough (filter negb (pc_seen c) = []) as -> by reflexivity.
    destruct (filter negb (pc_seen c)) as [|b l] eqn:E; [reflexivity|].
    assert (In b (filter negb (pc_seen c))) as Hin by (rewrite E; now left).
    apply filter_In in Hin as [Hin Hb]. apply In_nth_error in Hin as (i & Hi).
    pose proof (nth_error_lt_Some _ _ _ Hi) as Hlt. rewrite Hlen in Hlt.
    destruct (nth_error (pl_participants (pc_participants c)) i) as [p|] eqn:Ep;
      [|apply nth_error_None in Ep; lia].
    specialize (Hall p (nth_error_In _ _ Ep)). apply Hl in Ep.
    unfold ParticipantCounter_has in Hall. rewrite Ep, Hi in Hall. subst. discriminate.
Qed.

Lemma ParticipantMap_vec {T} (m : ParticipantMap T) v :
  ParticipantMap_ok m -> ParticipantMap_into_vec_or_none m = Some v ->
  map (ParticipantMap_get m) (pl_participants (pm_participants m)) = map Some v.
Proof.
  intros (Hl & Hlen & _) Hv. apply all_some_spec in Hv. rewrite <- Hv.
  apply nth_error_ext. intros i. rewrite nth_error_map.
  destruct (nth_error (pl_participants (pm_participants m)) i) as [p|] eqn:E.
  - pose proof (nth_error_lt_Some _ _ _ E) as Hi. rewrite <- Hlen in Hi.
    apply Hl in E. simpl. unfold ParticipantMap_get. rewrite E.
    destruct (nth_error (pm_data m) i) eqn:Ei; [reflexivity|].
    apply nth_error_None in Ei. lia.
  - apply nth_error_None in E. simpl. symmetry. apply nth_error_None. lia.
Qed.

(** A map that holds a value for every participant is full. *)
Lemma ParticipantMap_all_full {T} (m : ParticipantMap T) :
  ParticipantMap_ok m ->
  (forall p, In p (pl_participants (pm_participants m)) -> ParticipantMap_get m p <> None) ->
  exists v, ParticipantMap_into_vec_or_none m = Some v.
Proof.
  intros Hm Hall. apply ParticipantMap_full_vec; [assumption|].
  destruct Hm as (Hl & Hlen & Hc). unfold ParticipantMap_full. rewrite Nat.eqb_eq, Hc.
  apply count_if_all, forallb_forall. intros o (i & Hi)%In_nth_error.
  pose proof (nth_error_lt_Some _ _ _ Hi) as Hlt. rewrite Hlen in Hlt.
  destruct (nth_error (pl_participants (pm_participants m)) i) as [p|] eqn:Ep;
    [|apply nth_error_None in Ep; lia].
  specialize (Hall p (nth_error_In _ _ Ep)). apply Hl in Ep.
  unfold ParticipantMap_get in Hall. rewrite Ep, Hi in Hall. now destruct o.
Qed.
