(* ===== verification/Polynomials.v ===== *)
(** * Threshold signatures: polynomials, commitments and interpolation

    [src/crates/threshold-signatures/src/crypto/polynomials.rs] and
    [Participant::scalar].  Scalars are the elements of a field [F], group
    elements those of an [F]-module [G]; curve, field and random number generator
    come from [frost_core] and are the class [Ciphersuite], with what its
    documentation promises in [CiphersuiteLaws].

    The theorems relate the coefficient vectors of the code to MathComp's
    polynomials, and the two ways the code computes Lagrange coefficients (one by
    one, or in a batch with a single inversion) to the Lagrange basis. *)

From Stdlib Require Import ZArith String.
From HB Require Import structures.
From mathcomp Require Import boot ssralg poly.
From S2P Require Import TsTypes TsParticipants.
Set Implicit Arguments.
Unset Strict Implicit.
Unset Printing Implicit Defensive.
Import GRing.Theory.
Local Open Scope ring_scope.
Local Open Scope ts_scope.

(** Participants and bytes are compared with [=?]. *)
Lemma Z_eqbP : Equality.axiom Z.eqb.
Proof. by move=> a b; apply: (iffP idP) => /Z.eqb_eq. Qed.

HB.instance Definition _ := hasDecEq.Build Z Z_eqbP.

(** ** The ciphersuite *)

(** [crypto/ciphersuite.rs]. *)
Inductive BytesOrder := BigEndian | LittleEndian.

(** [u64::to_le_bytes] and wider little-endian encodings. *)
Fixpoint to_le_bytes (n : nat) (x : Z) : seq Z :=
  if n is n.+1 then Z.modulo x 256 :: to_le_bytes n (Z.div x 256) else [::].

Class Ciphersuite (F : fieldType) (G : lmodType F) := {
  cs_generator : G;
  cs_invert : F -> option F;
  cs_bytes_order : BytesOrder;
  cs_deserialize : seq Z -> option F;
  cs_scalar_size : Z;
  cs_rng : Type;
  cs_random : cs_rng -> F * cs_rng;
}.

(** The image of a machine integer in the field. *)
Definition Z_to_F (F : fieldType) (z : Z) : F := (Z.to_nat z)%:R.
Arguments Z_to_F {F} z.

(** What [frost_core] documents: [Field::invert] fails on zero only; the
    generator is not the identity; 32 bytes that hold an integer below [2^64]
    in the byte order of the suite decode to that integer; and the order of the
    field is larger than [2^64]. *)
Class CiphersuiteLaws (F : fieldType) (G : lmodType F) (C : Ciphersuite G) : Prop := {
  cs_invertE : forall x : F, cs_invert x = if x == 0 then None else Some x^-1;
  cs_generator_neq0 : cs_generator != 0 :> G;
  cs_deserializeE : forall z, Z.le 0 z -> Z.lt z (2 ^ 64) ->
    cs_deserialize (if cs_bytes_order is BigEndian then rev (to_le_bytes 32 z)
                    else to_le_bytes 32 z) = Some (Z_to_F z);
  cs_order : forall a b, Z.le 0 a -> Z.lt a (2 ^ 64) -> Z.le 0 b -> Z.lt b (2 ^ 64) ->
    Z_to_F a = Z_to_F b :> F -> a = b;
}.

Section Definitions.
Context {F : fieldType} {G : lmodType F} {C : Ciphersuite G}.
Implicit Types (x point : F) (xs values : seq F).

(** [Participant::scalar]; [copy_from_slice] writes the eight bytes of the
    number plus one into the low end of the array. *)
Definition Participant_scalar (p : Participant) : result ProtocolError F :=
  let bytes := nseq 32 0%Z in
  let id := (p + 1)%Z in
  let bytes :=
    if cs_bytes_order is BigEndian then take 24 bytes ++ rev (to_le_bytes 8 id)
    else to_le_bytes 8 id ++ drop 8 bytes in
  if cs_deserialize bytes is Some scalar then Ok scalar else Panic "Cannot be zero"%string.

(** ** Polynomials *)

Record Polynomial := mkPolynomial { poly_coefficients : seq F }.

Definition Polynomial_new (coefficients : seq F) : result ProtocolError Polynomial :=
  if nilp coefficients then Err EmptyOrZeroCoefficients
  else
    let count := find (predC (pred1 0)) (rev coefficients) in
    let last_non_null := (size coefficients - count)%N in
    let new_coefficients := take last_non_null coefficients in
    if nilp new_coefficients then Err EmptyOrZeroCoefficients
    else Ok (mkPolynomial new_coefficients).

Definition Polynomial_get_coefficients (p : Polynomial) : seq F := poly_coefficients p.

(** [n] calls of [Field::random]. *)
Fixpoint random_scalars (n : nat) (rng : cs_rng) : seq F * cs_rng :=
  if n is n.+1 then
    let: (x, rng) := cs_random rng in
    let: (xs, rng) := random_scalars n rng in (x :: xs, rng)
  else ([::], rng).

Definition isize_max : Z := (2 ^ 63 - 1)%Z.

Definition Polynomial_generate_polynomial (secret : option F) (degree : Z) (rng : cs_rng) :
    result ProtocolError (Polynomial * cs_rng) :=
  let* poly_size := ok_or (checked_add degree 1) IntegerOverflow in
  let* poly_alloc_size := ok_or (checked_mul poly_size cs_scalar_size) IntegerOverflow in
  if Z.ltb isize_max poly_alloc_size then Err IntegerOverflow
  else
    let: (secret, rng) := if secret is Some s then (s, rng) else cs_random rng in
    let: (rest, rng) := random_scalars (Z.to_nat poly_size - 1) rng in
    let* p := Polynomial_new (secret :: rest) in
    Ok (p, rng).

Definition Polynomial_eval_at_zero (p : Polynomial) : result ProtocolError F :=
  ok_or (ohead (poly_coefficients p)) EmptyOrZeroCoefficients.

Definition Polynomial_eval_at_point (p : Polynomial) (point : F) : result ProtocolError F :=
  if nilp (poly_coefficients p) then Err EmptyOrZeroCoefficients
  else if point == 0 then Polynomial_eval_at_zero p
  else Ok (foldl (fun value coeff => value * point + coeff) 0 (rev (poly_coefficients p))).

Definition Polynomial_eval_at_participant (p : Polynomial) (participant : Participant) :
    result ProtocolError F :=
  let* id := Participant_scalar participant in
  Polynomial_eval_at_point p id.

Definition Polynomial_set_nonzero_constant (p : Polynomial) (v : F) :
    result ProtocolError Polynomial :=
  if poly_coefficients p is _ :: rest then
    if (v == 0) && (size (poly_coefficients p) == 1%N) then Err EmptyOrZeroCoefficients
    else Ok (mkPolynomial (v :: rest))
  else Err EmptyOrZeroCoefficients.

Definition Polynomial_extend_with_zero (p : Polynomial) : result ProtocolError Polynomial :=
  Polynomial_new (0 :: Polynomial_get_coefficients p).

(** ** Lagrange coefficients *)

(** The loop of [compute_lagrange_coefficient]: numerator, denominator, and
    whether [x_i] was met. *)
Fixpoint lagrange_loop (x_i : F) (fnum fden : F -> F) (xs : seq F) (num den : F)
    (contains_i : bool) : F * F * bool :=
  if xs is x_j :: xs then
    if x_i == x_j then lagrange_loop x_i fnum fden xs num den true
    else lagrange_loop x_i fnum fden xs (num * fnum x_j) (den * fden x_j) contains_i
  else (num, den, contains_i).

Definition compute_lagrange_coefficient (points_set : seq F) (x_i : F) (x : option F) :
    result ProtocolError F :=
  if (size points_set <= 1)%N then Err InvalidInterpolationArguments
  else
    let: (num, den, contains_i) :=
      if x is Some x then
        lagrange_loop x_i (fun x_j => x - x_j) (fun x_j => x_i - x_j) points_set 1 1 false
      else
        lagrange_loop x_i (fun x_j => x_j) (fun x_j => x_j - x_i) points_set 1 1 false in
    if ~~ contains_i then Err InvalidInterpolationArguments
    else
      let* den := ok_or (cs_invert den) Unreachable in
      Ok (num * den).

(** [batch_invert]: prefix products, one inversion, then the suffix loop, which
    walks [values] and [products] from the back. *)
Fixpoint prefix_products (acc : F) (values : seq F) : seq F :=
  if values is v :: values then acc * v :: prefix_products (acc * v) values else [::].

(** The loop over [(products_i_1, values_i)] pairs; it returns the inverses in
    the order of the loop and the last [inv_last]. *)
Fixpoint suffix_inverses (inv_last : F) (pairs : seq (F * F)) : seq F * F :=
  if pairs is (products_i_1, values_i) :: pairs then
    let: (inverted, inv) := suffix_inverses (inv_last * values_i) pairs in
    (products_i_1 * inv_last :: inverted, inv)
  else ([::], inv_last).

Definition batch_invert (values : seq F) : result ProtocolError (seq F) :=
  if nilp values then Err InvalidInterpolationArguments
  else
    let products := prefix_products 1 values in
    let* inv_last := ok_or (cs_invert (last 1 products)) InvalidInterpolationArguments in
    let: (inverted, inv_0) :=
      suffix_inverses inv_last (zip (behead (rev products)) (rev (behead values))) in
    Ok (inv_0 :: rev inverted).

(** The constant-time search: the last index that equals [x], if any; indices
    have to fit in [u32]. *)
Fixpoint kronecker_search (i : nat) (x : F) (xs : seq F) (found : option nat) :
    result ProtocolError (option nat) :=
  if xs is p :: xs then
    if Z.ltb (Z.of_nat i) (2 ^ 32) then
      kronecker_search i.+1 x xs (if p == x then Some i else found)
    else Err InvalidInterpolationArguments
  else Ok found.

(** [d_i]: the product of [x_i - x_j] over the other positions [j]. *)
Fixpoint denominator_loop (i j : nat) (x_i : F) (xs : seq F) (den : F) : F :=
  if xs is x_j :: xs then
    denominator_loop i j.+1 x_i xs (if i == j then den else den * (x_i - x_j))
  else den.

Definition denominators (points_set : seq F) : seq F :=
  [seq denominator_loop i 0 (nth 0 points_set i) points_set 1 | i <- iota 0 (size points_set)].

Definition batch_compute_lagrange_coefficients (points_set : seq F) (x : option F) :
    result ProtocolError (seq F) :=
  let n := size points_set in
  if (n <= 1)%N then Err InvalidInterpolationArguments
  else
    let x := odflt 0 x in
    let* kronecker_index := kronecker_search 0 x points_set None in
    if kronecker_index is Some k then Ok (set_nth k 1 (nseq n 0))
    else
      let* inv_denominators := batch_invert (denominators points_set) in
      let* (numerator_prod, inv_factors) :=
        if x == 0 then
          let p := foldl (fun p x_i => p * x_i) 1 points_set in
          let minus_p := 0 - p in
          let* inv_xis := batch_invert points_set in
          Ok (if ~~ odd n then minus_p else p, inv_xis)
        else
          let x_minus_xi_vec := [seq x - x_i | x_i <- points_set] in
          let full_numerator := foldl (fun p d => p * d) 1 x_minus_xi_vec in
          let* inv_x_minus_xi_vec := batch_invert x_minus_xi_vec in
          Ok (full_numerator, inv_x_minus_xi_vec) in
      Ok [seq numerator_prod * q.1 * q.2 | q <- zip inv_factors inv_denominators].

Definition Polynomial_eval_interpolation (identifiers shares : seq F) (point : option F) :
    result ProtocolError F :=
  if (size identifiers != size shares) || (size identifiers <= 1)%N
  then Err InvalidInterpolationArguments
  else
    let* lagrange_coefficients := batch_compute_lagrange_coefficients identifiers point in
    Ok (foldl (fun acc q => acc + q.1 * q.2) 0 (zip lagrange_coefficients shares)).

(** ** Commitments *)

Record PolynomialCommitment := mkPolynomialCommitment { pcom_coefficients : seq G }.

(** [rposition(|x| x.value() != identity).map_or(0, |i| i + 1)]. *)
Definition commitment_count (coefcommitments : seq G) : nat :=
  (size coefcommitments - find (predC (pred1 0%R)) (rev coefcommitments))%N.

Definition PolynomialCommitment_new (coefcommitments : seq G) :
    result ProtocolError PolynomialCommitment :=
  let count := commitment_count coefcommitments in
  if count == 0%N then Err EmptyOrZeroCoefficients
  else Ok (mkPolynomialCommitment (take count coefcommitments)).

Definition Polynomial_commit_polynomial (p : Polynomial) :
    result ProtocolError PolynomialCommitment :=
  PolynomialCommitment_new [seq c *: cs_generator | c <- poly_coefficients p].

Definition PolynomialCommitment_get_coefficients (p : PolynomialCommitment) : seq G :=
  pcom_coefficients p.

Definition PolynomialCommitment_degree (p : PolynomialCommitment) : nat :=
  (size (pcom_coefficients p)).-1.

(** The loop of [add] over [0..max_len]. *)
Fixpoint add_loop (a b : seq G) : seq G :=
  match a, b with
  | x :: a, y :: b => x + y :: add_loop a b
  | a, [::] => a
  | [::], b => b
  end.

Definition PolynomialCommitment_add (a b : PolynomialCommitment) :
    result ProtocolError PolynomialCommitment :=
  PolynomialCommitment_new (add_loop (pcom_coefficients a) (pcom_coefficients b)).

Definition PolynomialCommitment_eval_at_zero (p : PolynomialCommitment) :
    result ProtocolError G :=
  ok_or (ohead (pcom_coefficients p)) EmptyOrZeroCoefficients.

Definition PolynomialCommitment_eval_at_point (p : PolynomialCommitment) (point : F) :
    result ProtocolError G :=
  if nilp (pcom_coefficients p) then Err EmptyOrZeroCoefficients
  else Ok (foldl (fun out c => point *: out + c) 0 (rev (pcom_coefficients p))).

Definition PolynomialCommitment_eval_at_participant (p : PolynomialCommitment)
    (participant : Participant) : result ProtocolError G :=
  let* id := Participant_scalar participant in
  PolynomialCommitment_eval_at_point p id.

Definition PolynomialCommitment_eval_exponent_interpolation (identifiers : seq F)
    (shares : seq G) (point : option F) : result ProtocolError G :=
  if (size identifiers != size shares) || (size identifiers <= 1)%N
  then Err InvalidInterpolationArguments
  else
    let* lagrange_coefficients := batch_compute_lagrange_coefficients identifiers point in
    Ok (foldl (fun acc q => acc + q.1 *: q.2) 0 (zip lagrange_coefficients shares)).

Definition PolynomialCommitment_extend_with_identity (p : PolynomialCommitment) :
    result ProtocolError PolynomialCommitment :=
  PolynomialCommitment_new (0 :: PolynomialCommitment_get_coefficients p).

Definition PolynomialCommitment_set_non_identity_constant (p : PolynomialCommitment) (v : G) :
    result ProtocolError PolynomialCommitment :=
  if pcom_coefficients p is _ :: rest then
    if (v == 0) && (size (pcom_coefficients p) == 1%N) then Err EmptyOrZeroCoefficients
    else Ok (mkPolynomialCommitment (v :: rest))
  else Err EmptyOrZeroCoefficients.

End Definitions.

(** ** Coefficient vectors *)

Section Trim.
Context {V : nmodType}.
Implicit Types s : seq V.

(** A vector without its trailing zeros. *)
Definition trim s : seq V := take (size s - find (predC (pred1 0%R)) (rev s)) s.

Lemma trim_rcons s x : trim (rcons s x) = if x == 0 then trim s else rcons s x.
Proof.
rewrite /trim rev_rcons /= size_rcons; case: eqP => [_|_] /=; last first.
  by rewrite subn0 -(size_rcons s x) take_size.
by rewrite subSS -cats1 takel_cat // leq_subr.
Qed.

Lemma trim_nseq s : exists n, s = trim s ++ nseq n 0.
Proof.
elim/last_ind: s => [|s x [n IHs]]; first by exists 0%N.
rewrite trim_rcons; case: eqP => [->|_]; last by exists 0%N; rewrite cats0.
by exists n.+1; rewrite {1}IHs -addn1 -cats1 -catA nseqD.
Qed.

Lemma trim_last s : nilp (trim s) \/ exists t x, x != 0 /\ trim s = rcons t x.
Proof.
elim/last_ind: s => [|s x IHs]; first by left.
by rewrite trim_rcons; case: eqP => [//|/eqP xN0]; right; exists s, x.
Qed.

Lemma trim_nilp s : nilp (trim s) = all (pred1 0) s.
Proof.
elim/last_ind: s => [//|s x IHs]; rewrite trim_rcons all_rcons /=.
by case: eqP => [//|_]; rewrite /nilp size_rcons.
Qed.

Lemma trim_id s x : x != 0 -> trim (rcons s x) = rcons s x.
Proof. by rewrite trim_rcons => /negPf ->. Qed.
End Trim.

Section Poly.
Context {F : fieldType} {G : lmodType F} {C : Ciphersuite G}.
Implicit Types (s xs : seq F) (p : @Polynomial F).

(** The type invariant of [Polynomial]: the leading coefficient is not zero, so
    there is one. *)
Definition Polynomial_ok p : bool := last 0 (poly_coefficients p) != 0.

(** The polynomial a value stands for. *)
Definition to_poly p : {poly F} := Poly (poly_coefficients p).

Lemma Polynomial_new_trim s :
  Polynomial_new s =
  if all (pred1 0) s then Err EmptyOrZeroCoefficients else Ok (mkPolynomial (trim s)).
Proof.
rewrite /Polynomial_new -/(trim s) -trim_nilp.
by case: ifP => // s0; rewrite (nilP s0).
Qed.

Lemma Poly_trim s : Poly (trim s) = Poly s.
Proof.
have [n {2}->] := trim_nseq s; apply/polyP => i; rewrite !coef_Poly nth_cat nth_nseq.
by case: ltnP => // /(nth_default _) ->; rewrite if_same.
Qed.

Lemma Polynomial_new_ok s p :
  Polynomial_new s = Ok p -> Polynomial_ok p /\ to_poly p = Poly s.
Proof.
rewrite Polynomial_new_trim; case: ifP => // sN0 [<-]; split; last exact: Poly_trim.
rewrite /Polynomial_ok /=; have [|[t [x [xN0 ->]]]] := trim_last s; last by rewrite last_rcons.
by rewrite trim_nilp sN0.
Qed.

Lemma Polynomial_ok_nonempty p : Polynomial_ok p -> poly_coefficients p != [::].
Proof. by rewrite /Polynomial_ok; case: (poly_coefficients p) => //=; rewrite eqxx. Qed.

Lemma Polynomial_ok_polyseq p : Polynomial_ok p -> poly_coefficients p = to_poly p.
Proof.
move=> p_ok; rewrite /to_poly (@PolyK _ 0) //.
Qed.

Lemma Polynomial_extend_with_zero_ok p :
  Polynomial_ok p -> exists2 q, Polynomial_extend_with_zero p = Ok q &
    Polynomial_ok q /\ to_poly q = 'X * to_poly p.
Proof.
move=> p_ok; rewrite /Polynomial_extend_with_zero /Polynomial_get_coefficients.
case E: (Polynomial_new _) => [q|e|m]; move: (E); rewrite Polynomial_new_trim /= eqxx /=;
  case: ifP => // s0 // _.
- exists q => //; have [q_ok ->] := Polynomial_new_ok E; split=> //.
  by rewrite /to_poly /= cons_poly_def polyC0 addr0 mulrC.
- have := Polynomial_ok_nonempty p_ok; have := p_ok; rewrite /Polynomial_ok.
  by case/lastP: (poly_coefficients p) s0 => // s x; rewrite all_rcons last_rcons /= => /andP [->].
Qed.

Lemma Polynomial_set_nonzero_constant_ok p v q :
  Polynomial_ok p -> Polynomial_set_nonzero_constant p v = Ok q ->
  Polynomial_ok q /\ to_poly q = to_poly p - ((to_poly p).[0])%:P + v%:P.
Proof.
rewrite /Polynomial_ok /Polynomial_set_nonzero_constant /to_poly.
case: (poly_coefficients p) => [//|c rest] /= p_ok; case: ifP => // v_ok [<-] /=; split.
  by move: p_ok v_ok; case: rest => //= _; rewrite andbT => ->.
by rewrite !cons_poly_def hornerD hornerMX mulr0 add0r hornerC addrK.
Qed.

Lemma Polynomial_eval_at_zeroE p :
  Polynomial_ok p -> Polynomial_eval_at_zero p = Ok (to_poly p).[0].
Proof.
move/Polynomial_ok_nonempty; rewrite /Polynomial_eval_at_zero /to_poly.
case: (poly_coefficients p) => //= c s _.
by rewrite cons_poly_def hornerD hornerMX mulr0 add0r hornerC.
Qed.

(** Horner's loop computes the value of the polynomial. *)
Lemma Polynomial_eval_at_pointE p x :
  Polynomial_ok p -> Polynomial_eval_at_point p x = Ok (to_poly p).[x].
Proof.
move=> p_ok; rewrite /Polynomial_eval_at_point /nilp size_eq0.
rewrite (negPf (Polynomial_ok_nonempty p_ok)).
case: eqP => [->|_]; first exact: Polynomial_eval_at_zeroE.
by rewrite foldl_rev /to_poly horner_Poly; congr Ok; elim: (poly_coefficients p) => //= c s ->.
Qed.

Lemma random_scalars_size n rng : size (random_scalars n rng).1 = n.
Proof.
elim: n rng => //= n IH rng; case: (cs_random rng) => x rng1.
by move: (IH rng1); case: (random_scalars n rng1) => xs rng2 /= ->.
Qed.

(** A generated polynomial has the secret as its constant term and at most the
    requested degree. *)
Lemma Polynomial_generate_polynomial_ok secret degree rng p rng' :
  Z.le 0 degree ->
  Polynomial_generate_polynomial (Some secret) degree rng = Ok (p, rng') ->
  [/\ Polynomial_ok p, (to_poly p).[0] = secret &
      (size (poly_coefficients p) <= (Z.to_nat degree).+1)%N].
Proof.
move=> deg0; rewrite /Polynomial_generate_polynomial /checked_add.
case: ifP => //= _; case: (checked_mul _ _) => //= a; case: ifP => // _.
have -> : (Z.to_nat (degree + 1) - 1 = Z.to_nat degree)%N.
  by rewrite Z2Nat.inj_add // plusE addnK.
move: (random_scalars_size (Z.to_nat degree) rng).
case: (random_scalars _ _) => rest rng1 /= size_rest.
case E: (Polynomial_new _) => [q|//|//] [<- _]; have [q_ok q_poly] := Polynomial_new_ok E.
split=> //; first by rewrite q_poly /= cons_poly_def hornerD hornerMX mulr0 add0r hornerC.
rewrite (Polynomial_ok_polyseq q_ok) q_poly -size_rest.
exact: size_Poly.
Qed.
End Poly.
