(* ===== verification/Interpolation.v ===== *)
(** * Threshold signatures: Lagrange interpolation

    What the routines of [crypto/polynomials.rs] compute: [batch_invert] inverts
    every entry, both ways to obtain Lagrange coefficients give the values of the
    Lagrange basis, and interpolation recovers a polynomial, in the field and in
    the exponent, from enough of its values.  At the end, a concrete ciphersuite. *)

From Stdlib Require Import ZArith Lia.
From mathcomp Require Import boot ssralg poly ssrnum rat.
From S2P Require Import TsTypes TsParticipants Polynomials.
Set Implicit Arguments.
Unset Strict Implicit.
Unset Printing Implicit Defensive.
Import GRing.Theory.
Local Open Scope ring_scope.
Local Open Scope ts_scope.

(** ** The Lagrange basis *)

Section Basis.
Context {F : fieldType}.
Implicit Types (xs : seq F) (x xi : F).

(** The basis polynomial of the node [xi], evaluated at [x]. *)
Definition lagrange_basis xs xi x : F :=
  \prod_(xj <- xs | xj != xi) ((x - xj) / (xi - xj)).

Definition lagrange_poly xs xi : {poly F} :=
  \prod_(xj <- xs | xj != xi) ((xi - xj)^-1 *: ('X - xj%:P)).

Lemma lagrange_polyE xs xi x : (lagrange_poly xs xi).[x] = lagrange_basis xs xi x.
Proof.
rewrite horner_prod; apply: eq_bigr => xj _.
by rewrite hornerZ hornerXsubC mulrC.
Qed.

Lemma size_lagrange_poly xs xi :
  xi \in xs -> (size (lagrange_poly xs xi) <= size xs)%N.
Proof.
move=> xi_in; have : (count (predC1 xi) xs < size xs)%N.
  rewrite -(count_predC (predC1 xi)) -addn1 leq_add2l -has_count.
  by apply/hasP; exists xi => //=; rewrite eqxx.
apply: leq_trans; rewrite /lagrange_poly; elim: xs {xi_in} => [|xj xs IH].
  by rewrite big_nil size_poly1.
rewrite big_cons /=; case: ifP => [xjN|_] /=; last by rewrite add0n.
apply: leq_trans (size_polyMleq _ _) _.
rewrite size_scale ?size_XsubC //; first by rewrite invr_eq0 subr_eq0 eq_sym.
Qed.

Lemma lagrange_basis_same xs xi : lagrange_basis xs xi xi = 1.
Proof.
rewrite /lagrange_basis big1 // => xj xjN; apply: divff.
by rewrite subr_eq0 eq_sym.
Qed.

Lemma lagrange_basis_other xs xi x :
  x \in xs -> x != xi -> lagrange_basis xs xi x = 0.
Proof.
move=> x_in xN; rewrite /lagrange_basis (big_rem x) //= xN subrr mul0r.
by rewrite mul0r.
Qed.

(** A polynomial with as many coefficients as there are nodes is the sum of the
    basis polynomials weighted by its values at the nodes. *)
Lemma lagrange_interpolation xs (p : {poly F}) :
  uniq xs -> (size p <= size xs)%N ->
  p = \sum_(xi <- xs) p.[xi] *: lagrange_poly xs xi.
Proof.
move=> xs_uniq size_p; apply/eqP; rewrite -subr_eq0; apply: contraT => dN0.
set d := p - _ in dN0; have : (size xs < size d)%N.
  apply: max_poly_roots => //; apply/allP => x x_in; rewrite rootE /d !hornerE /=.
  rewrite horner_sum (bigD1_seq x) //= hornerZ lagrange_polyE lagrange_basis_same mulr1.
  rewrite big1 ?addr0 ?subrr // => xi xiN.
  by rewrite hornerZ lagrange_polyE lagrange_basis_other ?mulr0 // eq_sym.
rewrite ltnNge; case/negP; rewrite /d (leq_trans (size_polyD _ _)) // geq_max size_p size_polyN.
apply/(leq_trans (size_sum _ _ _))/bigmax_leqP_seq => xi xi_in _.
by apply: leq_trans (size_scale_leq _ _) (size_lagrange_poly xi_in).
Qed.

Lemma lagrange_interpolation_at xs (p : {poly F}) x :
  uniq xs -> (size p <= size xs)%N ->
  p.[x] = \sum_(xi <- xs) lagrange_basis xs xi x * p.[xi].
Proof.
move=> xs_uniq size_p; rewrite [in LHS](lagrange_interpolation xs_uniq size_p).
by rewrite horner_sum; apply: eq_bigr => xi _; rewrite hornerZ lagrange_polyE mulrC.
Qed.
End Basis.

(** ** The routines *)

Section Routines.
Context {F : fieldType} {G : lmodType F} {C : Ciphersuite G} {L : CiphersuiteLaws C}.
Implicit Types (xs values : seq F) (x xi : F).

Lemma lagrange_loopE xi fnum fden xs num den b :
  lagrange_loop xi fnum fden xs num den b =
  (num * \prod_(xj <- xs | xj != xi) fnum xj, den * \prod_(xj <- xs | xj != xi) fden xj,
   b || (xi \in xs)).
Proof.
elim: xs num den b => [|xj xs IH] num den b /=; first by rewrite !big_nil !mulr1 orbF.
rewrite !big_cons in_cons [xj == xi]eq_sym; case: eqP => [_|_] /=; rewrite IH ?orbT //.
by rewrite !mulrA.
Qed.

Lemma prodN xs xi : \prod_(xj <- xs | xj != xi) (0 - xj) / \prod_(xj <- xs | xj != xi) (xi - xj) =
  \prod_(xj <- xs | xj != xi) xj / \prod_(xj <- xs | xj != xi) (xj - xi).
Proof.
rewrite -!prodf_div; apply: eq_bigr => xj _.
by rewrite sub0r -[xi - xj]opprB invrN mulrNN.
Qed.

(** One coefficient at a time: for a node of the list the result is the value
    of its basis polynomial; [None] stands for zero. *)
Lemma compute_lagrange_coefficientE xs xi (x : option F) :
  compute_lagrange_coefficient xs xi x =
  if (1 < size xs)%N && (xi \in xs) then Ok (lagrange_basis xs xi (odflt 0 x))
  else Err InvalidInterpolationArguments.
Proof.
rewrite /compute_lagrange_coefficient leqNgt; case: ltnP => //= _.
have den_neq0 (f : F -> F) : (forall xj, xj != xi -> f xj != 0) ->
    1 * \prod_(xj <- xs | xj != xi) f xj != 0.
  move=> fN0; rewrite mul1r; elim: xs => [|xj xs IH]; first by rewrite big_nil oner_neq0.
  by rewrite big_cons; case: ifP => // xjN; rewrite mulf_neq0 ?fN0.
case: x => [x|] /=; rewrite lagrange_loopE /=; case: (xi \in xs) => //=;
  rewrite cs_invertE (negPf (den_neq0 _ _)) ?mul1r /=;
  try (by move=> xj; rewrite subr_eq0 // eq_sym); rewrite /lagrange_basis.
- by rewrite prodf_div.
- by rewrite prodf_div prodN.
Qed.

(** *** Batch inversion *)

Lemma prefix_products_rcons acc values v :
  prefix_products acc (rcons values v) =
  rcons (prefix_products acc values) (acc * \prod_(w <- values) w * v).
Proof.
elim: values acc => [|w values IH] acc /=; first by rewrite big_nil mulr1.
by rewrite IH big_cons mulrA.
Qed.

Lemma last_prefix_products d v values :
  last d (prefix_products 1 (v :: values)) = \prod_(w <- v :: values) w.
Proof.
case/lastP: values => [|values w]; first by rewrite /= big_cons big_nil mul1r mulr1.
rewrite -rcons_cons prefix_products_rcons last_rcons mul1r.
by rewrite -cats1 big_cat big_seq1.
Qed.

Lemma prodf_seq_neq0 values : 0 \notin values -> \prod_(v <- values) v != 0.
Proof.
elim: values => [|v values IH]; first by rewrite big_nil oner_neq0.
by rewrite in_cons negb_or eq_sym => /andP [vN0 /IH ?]; rewrite big_cons mulf_neq0.
Qed.

Lemma prodf_seq_eq0 values : 0 \in values -> \prod_(v <- values) v = 0.
Proof. by move=> v0; rewrite (big_rem 0) //= mul0r. Qed.

Lemma suffix_inversesE v values : 0 \notin v :: values ->
  suffix_inverses (\prod_(w <- v :: values) w)^-1
    (zip (behead (rev (prefix_products 1 (v :: values)))) (rev values)) =
  (rev [seq w^-1 | w <- values], v^-1).
Proof.
elim/last_ind: values => [|values w IH]; first by rewrite big_seq1.
rewrite -rcons_cons mem_rcons in_cons negb_or eq_sym => /andP [wN0 vsN0].
have PN0 := prodf_seq_neq0 vsN0.
rewrite prefix_products_rcons !rev_rcons mul1r big_rcons.
rewrite -/(prefix_products 1 (v :: values)).
case E: (rev (prefix_products 1 (v :: values))) => [|P ps].
  by move: (congr1 size E); rewrite size_rev.
have PE : P = \prod_(w <- v :: values) w.
  rewrite -(last_prefix_products 0) -(revK (prefix_products _ _)) E rev_cons.
  by rewrite last_rcons.
rewrite /= invfM -mulrA mulVf // mulr1.
move: (IH vsN0); rewrite E /= => ->.
by rewrite map_rcons rev_rcons PE mulrA divff // mul1r.
Qed.

(** All entries are inverted; the routine fails on an empty list or a zero. *)
Lemma batch_invertE values :
  batch_invert values =
  if nilp values || (0 \in values) then Err InvalidInterpolationArguments
  else Ok [seq v^-1 | v <- values].
Proof.
case: values => [//|v values]; rewrite /batch_invert [nilp _]/=.
rewrite last_prefix_products cs_invertE; case: ifP => [/eqP p0|pN0] /=.
  case: ifP => // /negbT vN0.
  by move: (prodf_seq_neq0 vN0); rewrite p0 eqxx.
case: ifP => [v0|/negbT vN0]; first by rewrite prodf_seq_eq0 ?eqxx in pN0.
move: (suffix_inversesE vN0); rewrite /= => ->.
by rewrite revK.
Qed.

(** *** Batch coefficients *)

Lemma kronecker_searchE i x xs found :
  uniq xs -> Z.le (Z.of_nat (i + size xs)) (2 ^ 32) ->
  kronecker_search i x xs found = Ok (if x \in xs then Some (i + index x xs)%N else found).
Proof.
elim: xs i found => [//|p xs IH] i found /= /andP [p_notin xs_uniq] i_le.
have -> : Z.ltb (Z.of_nat i) (2 ^ 32).
  by apply/Z.ltb_lt; move: i_le; rewrite addnS -plusE; lia.
rewrite IH // ?addSnnS // in_cons [x == p]eq_sym; case: eqP => [<-|_] /=.
  by rewrite (negPf p_notin) addn0.
by rewrite addnS.
Qed.

Lemma set_nth_size (T : Type) i (x : T) (l : seq T) : size (set_nth i x l) = size l.
Proof. exact: set_nth_length. Qed.

Lemma nth_set_nth_same (T : Type) (d x : T) (l : seq T) i k :
  (i < size l)%N -> nth d (set_nth i x l) k = if k == i then x else nth d l k.
Proof.
by elim: l i k => [|y l IH] [|i] [|k] //=; rewrite eqSS ltnS; exact: IH.
Qed.

Lemma denominator_loopE i j xi xs den :
  denominator_loop i j xi xs den =
  den * \prod_(q <- zip (iota j (size xs)) xs | q.1 != i) (xi - q.2).
Proof.
elim: xs j den => [|xj xs IH] j den /=; first by rewrite big_nil mulr1.
rewrite IH big_cons /= [j == i]eq_sym; case: eqP => //= _.
by rewrite mulrA.
Qed.

Lemma zip_iota xs : zip (iota 0 (size xs)) xs = [seq (i, nth 0 xs i) | i <- iota 0 (size xs)].
Proof.
rewrite -[in X in zip _ X](mkseq_nth 0 xs) /mkseq -[in X in zip X _](map_id (iota 0 _)).
by rewrite zip_map.
Qed.

Lemma denominatorsE xs :
  denominators xs =
  [seq \prod_(j <- iota 0 (size xs) | j != i) (nth 0 xs i - nth 0 xs j) | i <- iota 0 (size xs)].
Proof.
by apply: eq_map => i; rewrite denominator_loopE mul1r zip_iota big_map.
Qed.

Lemma denominators_uniq xs : uniq xs ->
  denominators xs = [seq \prod_(xj <- xs | xj != xi) (xi - xj) | xi <- xs].
Proof.
move=> xs_uniq; rewrite denominatorsE -[in RHS](mkseq_nth 0 xs) /mkseq -map_comp.
apply/eq_in_map => i; rewrite mem_iota => /andP [_ i_lt] /=; rewrite big_map.
rewrite big_seq_cond [RHS]big_seq_cond; apply: eq_bigl => j; rewrite mem_iota.
by case: ltnP => //= j_lt; rewrite nth_uniq.
Qed.

Lemma foldl_mul (f : F -> F) s (a : F) :
  foldl (fun p d => p * f d) a s = a * \prod_(d <- s) f d.
Proof.
elim: s a => [|d s IH] a /=; first by rewrite big_nil mulr1.
by rewrite IH big_cons mulrA.
Qed.

Lemma denominators_N0 xs : uniq xs -> 0 \notin denominators xs.
Proof.
move=> /denominators_uniq ->; apply/negP => /mapP [xi _] /eqP; rewrite eq_sym.
apply/negP; elim: xs => [|xj xs IH]; first by rewrite big_nil oner_neq0.
by rewrite big_cons; case: ifP => // xjN; rewrite mulf_neq0 // subr_eq0 eq_sym.
Qed.

Lemma denominators_dup xs : ~~ uniq xs -> 0 \in denominators xs.
Proof.
case/(uniqPn 0) => i [j [i_lt j_lt eq_ij]]; rewrite denominatorsE; apply/mapP; exists j.
  by rewrite mem_iota.
rewrite (big_rem i) /= ?mem_iota ?add0n ?(ltn_trans i_lt) //.
by rewrite neq_ltn i_lt /= eq_ij subrr mul0r.
Qed.

(** The product of [x - xj] over all nodes, without the factor of [xi]. *)
Lemma numerator_div xs xi x :
  uniq xs -> xi \in xs -> x != xi ->
  (\prod_(xj <- xs) (x - xj)) * (x - xi)^-1 = \prod_(xj <- xs | xj != xi) (x - xj).
Proof.
move=> xs_uniq xi_in xN; rewrite (bigD1_seq xi) //= mulrAC divff ?mul1r //.
by rewrite subr_eq0.
Qed.

Lemma prod_opp xs : \prod_(xj <- xs) (0 - xj) =
  if odd (size xs) then - \prod_(xj <- xs) xj else \prod_(xj <- xs) xj.
Proof.
elim: xs => [|xj xs IH]; first by rewrite !big_nil.
rewrite !big_cons IH /= sub0r mulNr.
by case: (odd (size xs)); rewrite /= ?mulrN ?opprK.
Qed.

(** The factors [x - xi] and their product; at [x = 0] the code uses the nodes
    themselves and corrects the sign. *)
Lemma batch_numerator xs x :
  (if x == 0 then
     let p := foldl (fun p x_i => p * x_i) 1 xs in
     let minus_p := 0 - p in
     let* inv_xis := batch_invert xs in
     Ok (if ~~ odd (size xs) then minus_p else p, inv_xis)
   else
     let x_minus_xi_vec := [seq x - x_i | x_i <- xs] in
     let full_numerator := foldl (fun p d => p * d) 1 x_minus_xi_vec in
     let* inv_x_minus_xi_vec := batch_invert x_minus_xi_vec in
     Ok (full_numerator, inv_x_minus_xi_vec)) =
  if nilp xs || (x \in xs) then Err InvalidInterpolationArguments
  else if x == 0 then Ok (- \prod_(xj <- xs) (0 - xj), [seq xi^-1 | xi <- xs])
  else Ok (\prod_(xj <- xs) (x - xj), [seq (x - xi)^-1 | xi <- xs]).
Proof.
case: eqP => [->|_].
  rewrite batch_invertE (foldl_mul id) mul1r; case: ifP => //= _.
  by rewrite prod_opp sub0r; case: (odd _); rewrite /= ?opprK.
rewrite /= batch_invertE (foldl_mul id) mul1r big_map -map_comp.
have -> : (0 \in [seq x - xi | xi <- xs]) = (x \in xs).
  apply/mapP/idP => [[xi xi_in /esym/eqP]|x_in]; last by exists x => //; rewrite subrr.
  by rewrite subr_eq0 => /eqP ->.
by rewrite /nilp size_map; case: ifP.
Qed.

(** The batch agrees with the Lagrange basis on distinct nodes. *)
Lemma batch_lagrangeE xs (x : option F) :
  uniq xs -> (1 < size xs)%N -> Z.le (Z.of_nat (size xs)) (2 ^ 32) ->
  batch_compute_lagrange_coefficients xs x =
  Ok [seq lagrange_basis xs xi (odflt 0 x) | xi <- xs].
Proof.
move=> xs_uniq xs_size xs_le; rewrite /batch_compute_lagrange_coefficients leqNgt xs_size /=.
set y := odflt 0 x; rewrite kronecker_searchE //=.
case: ifP => [y_in|/negbT y_notin] /=.
  congr Ok; apply: (@eq_from_nth _ 0); first by rewrite set_nth_size size_nseq size_map.
  move=> i; rewrite set_nth_size size_nseq => i_lt.
  rewrite nth_set_nth_same ?size_nseq ?index_mem // (nth_map 0) // nth_nseq i_lt.
  case: eqP => [->|/eqP iN]; first by rewrite nth_index // lagrange_basis_same.
  rewrite lagrange_basis_other //; apply: contra iN => /eqP ->.
  by rewrite index_uniq.
rewrite batch_invertE (negPf (denominators_N0 xs_uniq)) orbF /nilp size_map size_iota.
rewrite -leqn0 leqNgt (ltnW xs_size) /= batch_numerator (negPf y_notin) orbF.
rewrite /nilp -leqn0 leqNgt (ltnW xs_size) /= denominators_uniq //.
case: eqP => [y0|_] /=; rewrite -map_comp zip_map -map_comp; congr Ok;
  apply/eq_in_map => xi xi_in /=.
- have xiN0 : y != xi by apply: contra y_notin => /eqP ->.
  rewrite /lagrange_basis prodf_div -y0 -numerator_div // y0 sub0r invrN mulrN.
  by rewrite mulNr.
- have xiN : y != xi by apply: contra y_notin => /eqP ->.
  by rewrite /lagrange_basis prodf_div -numerator_div.
Qed.

(** Repeated nodes are refused, unless the point is one of them. *)
Lemma batch_lagrange_dup xs (x : option F) :
  ~~ uniq xs -> odflt 0 x \notin xs ->
  batch_compute_lagrange_coefficients xs x = Err InvalidInterpolationArguments.
Proof.
move=> xs_dup x_notin; rewrite /batch_compute_lagrange_coefficients; case: ifP => // _.
set y := odflt 0 x.
have : forall i, exists2 r, kronecker_search i y xs None = r &
    r = Ok None \/ r = Err InvalidInterpolationArguments.
  elim: xs x_notin {xs_dup} => [|p xs IH] /=; first by move=> _ i; exists (Ok None); auto.
  rewrite in_cons negb_or eq_sym => /andP [/negPf pN x_notin] i; rewrite pN.
  case: ifP => _; first exact: IH.
  by exists (Err InvalidInterpolationArguments); auto.
case/(_ 0%N) => r -> [] -> //=; rewrite batch_invertE denominators_dup // orbT.
by [].
Qed.

(** *** Interpolation *)

Lemma foldl_sum (V : nmodType) (I : Type) (f : I -> V) (s : seq I) (a : V) :
  foldl (fun acc q => acc + f q) a s = a + \sum_(q <- s) f q.
Proof.
elim: s a => [|d s IH] a /=; first by rewrite big_nil addr0.
by rewrite IH big_cons addrA.
Qed.

Lemma eval_interpolationE xs (ys : F -> F) (x : option F) :
  uniq xs -> (1 < size xs)%N -> Z.le (Z.of_nat (size xs)) (2 ^ 32) ->
  Polynomial_eval_interpolation xs [seq ys xi | xi <- xs] x =
  Ok (\sum_(xi <- xs) lagrange_basis xs xi (odflt 0 x) * ys xi).
Proof.
move=> xs_uniq xs_size xs_le; rewrite /Polynomial_eval_interpolation size_map eqxx leqNgt xs_size.
by rewrite /= batch_lagrangeE //= foldl_sum add0r zip_map big_map.
Qed.

Lemma eval_exponent_interpolationE xs (ys : F -> G) (x : option F) :
  uniq xs -> (1 < size xs)%N -> Z.le (Z.of_nat (size xs)) (2 ^ 32) ->
  PolynomialCommitment_eval_exponent_interpolation xs [seq ys xi | xi <- xs] x =
  Ok (\sum_(xi <- xs) lagrange_basis xs xi (odflt 0 x) *: ys xi).
Proof.
move=> xs_uniq xs_size xs_le; rewrite /PolynomialCommitment_eval_exponent_interpolation.
rewrite size_map eqxx leqNgt xs_size /= batch_lagrangeE //=.
by rewrite (foldl_sum (fun q => q.1 *: q.2)) add0r zip_map big_map.
Qed.

(** *** Commitments *)

(** The value of a vector of group elements at a scalar. *)
Definition geval (cs : seq G) x : G := foldr (fun c out => x *: out + c) 0 cs.

Lemma geval_nseq cs n x : geval (cs ++ nseq n 0) x = geval cs x.
Proof.
elim: cs => [|c cs IH] /=; last by rewrite IH.
by elim: n => //= n ->; rewrite scaler0 addr0.
Qed.

Lemma geval_trim cs x : geval (trim cs) x = geval cs x.
Proof. by have [n {2}->] := trim_nseq cs; rewrite geval_nseq. Qed.

Lemma geval_commit (s : seq F) x :
  geval [seq c *: cs_generator | c <- s] x = (Poly s).[x] *: cs_generator.
Proof.
elim: s => [|c s IH] /=; first by rewrite horner0 scale0r.
by rewrite IH cons_poly_def hornerD hornerMX hornerC scalerDl scalerA mulrC.
Qed.

Lemma geval_add (a b : seq G) x : geval (add_loop a b) x = geval a x + geval b x.
Proof.
elim: a b => [|c a IH] [|d b] //=; rewrite ?add0r ?addr0 //.
by rewrite IH scalerDr addrACA.
Qed.

Definition PolynomialCommitment_ok (c : @PolynomialCommitment F G) : bool :=
  last 0 (pcom_coefficients c) != 0.

Lemma PolynomialCommitment_new_trim (cs : seq G) :
  PolynomialCommitment_new cs =
  if all (pred1 0) cs then Err EmptyOrZeroCoefficients else Ok (mkPolynomialCommitment (trim cs)).
Proof.
rewrite /PolynomialCommitment_new /commitment_count -/(trim cs) -trim_nilp /nilp /trim.
by rewrite size_takel ?leq_subr.
Qed.

Lemma PolynomialCommitment_new_ok (cs : seq G) c :
  PolynomialCommitment_new cs = Ok c ->
  PolynomialCommitment_ok c /\ forall x, geval (pcom_coefficients c) x = geval cs x.
Proof.
rewrite PolynomialCommitment_new_trim; case: ifP => // csN0 [<-].
split; last by move=> x; exact: geval_trim.
rewrite /PolynomialCommitment_ok /=.
have [|[t [y [yN0 ->]]]] := trim_last cs; last by rewrite last_rcons.
by rewrite trim_nilp csN0.
Qed.

Lemma PolynomialCommitment_eval_at_pointE c x :
  PolynomialCommitment_ok c ->
  PolynomialCommitment_eval_at_point c x = Ok (geval (pcom_coefficients c) x).
Proof.
rewrite /PolynomialCommitment_ok /PolynomialCommitment_eval_at_point.
case: (pcom_coefficients c) => [|d s]; first by rewrite eqxx.
by rewrite foldl_rev.
Qed.

Lemma PolynomialCommitment_eval_at_zeroE c :
  PolynomialCommitment_ok c ->
  PolynomialCommitment_eval_at_zero c = Ok (geval (pcom_coefficients c) 0).
Proof.
rewrite /PolynomialCommitment_ok /PolynomialCommitment_eval_at_zero.
case: (pcom_coefficients c) => [|d s] /=; first by rewrite eqxx.
by rewrite scale0r add0r.
Qed.

(** Committing keeps the number of coefficients and cannot fail. *)
Lemma Polynomial_commit_polynomialE p :
  Polynomial_ok p ->
  Polynomial_commit_polynomial p =
  Ok (mkPolynomialCommitment [seq c *: cs_generator | c <- poly_coefficients p]).
Proof.
rewrite /Polynomial_ok /Polynomial_commit_polynomial PolynomialCommitment_new_trim.
case/lastP: (poly_coefficients p) => [|s y]; first by rewrite eqxx.
rewrite last_rcons map_rcons => yN0; rewrite all_rcons /= scaler_eq0.
rewrite (negPf yN0) (negPf cs_generator_neq0) /= trim_id // scaler_eq0 negb_or yN0.
exact: cs_generator_neq0.
Qed.
End Routines.

(** ** Participants as scalars *)

Lemma to_le_bytes_S n z :
  to_le_bytes n.+1 z = Z.modulo z 256 :: to_le_bytes n (Z.div z 256).
Proof. by []. Qed.

Lemma to_le_bytes_cat m n z :
  to_le_bytes (m + n) z = to_le_bytes m z ++ to_le_bytes n (Z.div z (256 ^ Z.of_nat m)).
Proof.
elim: m z => [|m IH] z; first by rewrite /= Z.div_1_r.
rewrite addSn !to_le_bytes_S IH cat_cons; congr (_ :: _ ++ to_le_bytes _ _).
rewrite Zdiv.Zdiv_Zdiv //; first by apply: Z.pow_nonneg.
congr Z.div.
by rewrite Nat2Z.inj_succ Z.pow_succ_r //; lia.
Qed.

Lemma to_le_bytes_0 n : to_le_bytes n 0 = nseq n 0%Z.
Proof. by elim: n => //= n ->. Qed.

Lemma size_to_le_bytes n z : size (to_le_bytes n z) = n.
Proof. by elim: n z => //= n IH z; rewrite IH. Qed.

Definition is_participant (p : Participant) : bool := Z.leb 0 p && Z.ltb p (2 ^ 32).

Section Scalars.
Context {F : fieldType} {G : lmodType F} {C : Ciphersuite G} {L : CiphersuiteLaws C}.

(** [ParticipantList::lagrange]. *)
Definition ParticipantList_lagrange (l : ParticipantList) (p : Participant) :
    result ProtocolError F :=
  let* p := Participant_scalar p in
  let* identifiers := rmap Participant_scalar (pl_participants l) in
  compute_lagrange_coefficient identifiers p None.

Lemma Participant_scalarE p :
  is_participant p -> Participant_scalar p = Ok (Z_to_F (p + 1)).
Proof.
case/andP => /Z.leb_le p_ge /Z.ltb_lt p_lt; rewrite /Participant_scalar.
have bytesE : to_le_bytes 32 (p + 1) = to_le_bytes 8 (p + 1) ++ nseq 24 0%Z.
  by rewrite (to_le_bytes_cat 8 24) Z.div_small ?to_le_bytes_0 //; lia.
have := @cs_deserializeE _ _ _ L (p + 1)%Z; rewrite bytesE.
case: cs_bytes_order; rewrite ?rev_cat => H.
- by rewrite -[take _ _]/(rev (nseq 24 0%Z)) H //; lia.
- by rewrite -[drop _ _]/(nseq 24 0%Z) H //; lia.
Qed.

Lemma Z_to_F_inj p q :
  is_participant p -> is_participant q -> Z_to_F (p + 1) = Z_to_F (q + 1) :> F -> p = q.
Proof.
case/andP => /Z.leb_le p_ge /Z.ltb_lt p_lt /andP [/Z.leb_le q_ge /Z.ltb_lt q_lt] eq_pq.
suff : (p + 1 = q + 1)%Z by lia.
by apply: (@cs_order _ _ _ L); lia || exact: eq_pq.
Qed.

Lemma Z_to_F_neq0 p : is_participant p -> Z_to_F (p + 1) != 0 :> F.
Proof.
case/andP => /Z.leb_le p_ge /Z.ltb_lt p_lt; apply/eqP => p0.
suff : (p + 1 = 0)%Z by lia.
by apply: (@cs_order _ _ _ L); lia || exact: p0.
Qed.

(** The scalars of a list of participants. *)
Definition identifiers (ps : seq Participant) : seq F := [seq Z_to_F (p + 1) | p <- ps].

Lemma rmap_scalars ps :
  all is_participant ps -> rmap Participant_scalar ps = Ok (identifiers ps).
Proof.
by elim: ps => //= p ps IH /andP [p_ok /IH ->]; rewrite Participant_scalarE.
Qed.

Lemma identifiers_uniq ps :
  all is_participant ps -> List.NoDup ps -> uniq (identifiers ps).
Proof.
elim: ps => //= p ps IH /andP [p_ok ps_ok] p_nodup.
have [p_notin /IH -> //] : ~ List.In p ps /\ List.NoDup ps by apply/List.NoDup_cons_iff.
rewrite andbT; apply/negP => p_in; apply: p_notin.
elim: ps {IH p_nodup} ps_ok p_in => //= q ps IH /andP [q_ok ps_ok].
rewrite in_cons => /orP [/eqP eq_pq|p_in]; last by right; exact: IH.
by left; apply/esym/Z_to_F_inj.
Qed.

Lemma ParticipantList_lagrangeE l p :
  all is_participant (pl_participants l) -> is_participant p ->
  (1 < size (pl_participants l))%N -> Z_to_F (p + 1) \in identifiers (pl_participants l) ->
  ParticipantList_lagrange l p =
  Ok (lagrange_basis (identifiers (pl_participants l)) (Z_to_F (p + 1)) 0).
Proof.
move=> l_ok p_ok l_size p_in; rewrite /ParticipantList_lagrange Participant_scalarE //=.
by rewrite rmap_scalars //= compute_lagrange_coefficientE size_map l_size p_in.
Qed.
End Scalars.

(** ** A concrete ciphersuite

    The rationals with themselves as the group: an instance of [Ciphersuite] that
    satisfies [CiphersuiteLaws] and computes.  It shows that the laws can hold
    and is where the theorems about polynomials and key generation are run. *)

Import GRing.Theory Num.Theory.

Fixpoint le_value (bytes : seq Z) : Z :=
  if bytes is b :: bytes then Z.add b (Z.mul 256 (le_value bytes)) else Z0.

#[export] Instance sample_suite : Ciphersuite (rat^o : lmodType rat) := {|
  cs_generator := (1 : rat^o);
  cs_invert x := if x == 0 then None else Some x^-1;
  cs_bytes_order := LittleEndian;
  cs_deserialize bytes := Some (Z_to_F (le_value bytes));
  cs_scalar_size := 32;
  cs_rng := nat;
  cs_random n := (n.+2%:R, n.+1);
|}.

Lemma le_value_bytes n z :
  Z.le 0 z -> Z.lt z (256 ^ Z.of_nat n) -> le_value (to_le_bytes n z) = z.
Proof.
elim: n z => [|n IH] z z_ge; first by rewrite /=; lia.
rewrite Nat2Z.inj_succ Z.pow_succ_r; first by lia.
move=> z_lt; rewrite to_le_bytes_S -[LHS]/(_ + 256 * le_value _)%Z IH.
- exact: Z.div_pos.
- by apply: Z.div_lt_upper_bound; lia.
- by have := Z.div_mod z 256; lia.
Qed.

#[export] Instance sample_suite_laws : CiphersuiteLaws sample_suite.
Proof.
split.
- by [].
- exact: oner_neq0.
- move=> z z_ge z_lt; congr (Some (Z_to_F _)); apply: le_value_bytes => //.
  exact: Z.lt_trans z_lt _.
- move=> a b a_ge _ b_ge _ /eqP; rewrite /Z_to_F eqr_nat => /eqP; exact: Z2Nat.inj.
Qed.
