(* ===== verification/Dkg.v ===== *)
(** * Threshold signatures: key generation, resharing and refresh

    [src/crates/threshold-signatures/src/dkg.rs], the entry points of [lib.rs],
    [crypto/hash.rs] and [protocol/helpers.rs].

    One party's run of [do_keyshare] is a composition of its rounds.  A round is a
    function from what the party holds and what the channels delivered to what it
    holds and sends next; the outputs of [do_broadcast] ([EchoBroadcast.v]) are
    arguments, private messages are queues in order of arrival.  A run that still
    waits for messages is [None].

    The functions of [frost_core], [sha2] and [rmp_serde] are the class
    [DkgSuite]; [DkgSuiteLaws] states what [frost_core] documents of them.  Error
    texts that the source breaks over several lines are written on one. *)

From Stdlib Require Import ZArith Lia String Ascii.
From mathcomp Require Import boot ssralg poly.
From S2P Require Import TsTypes TsParticipants Polynomials Interpolation.
Set Implicit Arguments.
Unset Strict Implicit.
Unset Printing Implicit Defensive.
Import GRing.Theory.
Local Open Scope ring_scope.
Local Open Scope ts_scope.

(** Byte strings, and the bytes of a literal. *)
Abbreviation bytes := (seq Z) (only parsing).
Abbreviation HashOutput := (seq Z) (only parsing).

Fixpoint byte_string (s : string) : bytes :=
  if s is String c s then Z.of_N (N_of_ascii c) :: byte_string s else [::].

Definition NEAR_HASH_LABEL : bytes := byte_string "Near threshold signature generic hash"%string.

(** [recv_from_others]: one message from every other participant, the first one
    each; [None] while some are missing. *)
Fixpoint recv_loop (T : Type) (seen : ParticipantCounter) (queue : seq (Participant * T)) :
    option (seq (Participant * T)) :=
  if ParticipantCounter_full seen then Some [::]
  else if queue is (from, msg) :: queue then
    let: (seen, inserted) := ParticipantCounter_put seen from in
    if inserted then
      if recv_loop seen queue is Some messages then Some ((from, msg) :: messages) else None
    else recv_loop seen queue
  else None.

Definition recv_from_others (T : Type) (participants : ParticipantList) (me : Participant)
    (queue : seq (Participant * T)) : option (seq (Participant * T)) :=
  recv_loop (ParticipantCounter_put (ParticipantCounter_new participants) me).1 queue.

(** The outcome of [frost_core]'s [SecretShare::verify]. *)
Inductive VerifyOutcome := VerifyOk | VerifyInvalidSecretShare | VerifyOtherError.

(** [Signature<C>]: a nonce commitment and a response. *)
Record Signature (F : fieldType) (G : lmodType F) := mkSignature { sig_R : G; sig_z : F }.

(** The data that [domain_separate_hash] is applied to. *)
Inductive HashInput (F : fieldType) (G : lmodType F) :=
  | HashSessionIds (session_ids : ParticipantMap bytes)
  | HashCommitment (participant : Participant) (commitment : seq G) (session_id : HashOutput).
Arguments HashSessionIds {F G} session_ids.
Arguments HashCommitment {F G} participant commitment session_id.

Class DkgSuite (F : fieldType) (G : lmodType F) (C : Ciphersuite G) := {
  dk_sha256 : bytes -> bytes;
  dk_msgpack : Z * HashInput G -> option bytes;
  dk_serialize_scalar : F -> bytes;
  dk_serialize_element : G -> option bytes;
  dk_HDKG : bytes -> option F;
  dk_generate_nonce : cs_rng -> (F * G) * cs_rng;
  dk_fill_bytes : cs_rng -> bytes * cs_rng;
  dk_signing_key : cs_rng -> F * cs_rng;
  dk_identifier : F -> option F;
  dk_share_verify : F -> F -> seq G -> VerifyOutcome;
  dk_sum_commitments : seq (seq G) -> option (seq G);
  dk_from_commitment : seq G -> option G;
}.

(** What [frost_core] documents: an identifier is any scalar but zero; a share is
    accepted when its image in the group is the value of the commitment at the
    identifier; commitments of one length are added coefficient by coefficient;
    the verifying key is the constant term; every group element is a multiple of
    the generator; a nonce comes with its commitment. *)
Class DkgSuiteLaws (F : fieldType) (G : lmodType F) (C : Ciphersuite G) (D : DkgSuite C) :
    Prop := {
  dk_identifierE : forall x : F, x != 0 -> dk_identifier x = Some x;
  dk_share_verifyE : forall (id share : F) (c : seq G), c != [::] ->
    dk_share_verify id share c = VerifyOk <-> share *: cs_generator = geval c id;
  dk_sum_commitmentsE : forall n (cs : seq (seq G)), cs != [::] -> all (fun c => size c == n) cs ->
    dk_sum_commitments cs = Some (mkseq (fun i => \sum_(c <- cs) c`_i) n);
  dk_from_commitmentE : forall (c : G) cs, dk_from_commitment (c :: cs) = Some c;
  dk_cyclic : forall e : G, exists a : F, e = a *: cs_generator;
  dk_nonceE : forall rng, (dk_generate_nonce rng).1.2 = (dk_generate_nonce rng).1.1 *: cs_generator;
}.

Section Dkg.
Context {F : fieldType} {G : lmodType F} {C : Ciphersuite G} {D : DkgSuite C}.
Implicit Types (me : Participant) (participants : ParticipantList).

(** ** Hashing *)

Abbreviation DomainSeparator := Z (only parsing).

Definition hash (val : Z * HashInput G) : result ProtocolError HashOutput :=
  if dk_msgpack val is Some encoded then Ok (dk_sha256 (NEAR_HASH_LABEL ++ encoded))
  else Err ErrorEncoding.

(** [DomainSeparator::increment]. *)
Definition DomainSeparator_increment (d : DomainSeparator) : DomainSeparator := (d + 1)%Z.

(** [domain_separate_hash]; the separator is incremented also when hashing fails. *)
Definition domain_separate_hash (d : DomainSeparator) (data : HashInput G) :
    DomainSeparator * result ProtocolError HashOutput :=
  (DomainSeparator_increment d, hash (d, data)).

(** ** Checks and proofs *)

Definition assert_keyshare_inputs me (secret : F)
    (old_reshare_package : option (G * ParticipantList)) :
    result ProtocolError (option G * option ParticipantList) :=
  let is_zero_secret := secret == 0 in
  if old_reshare_package is Some (old_key, old_participants) then
    if is_zero_secret then
      if ParticipantList_contains old_participants me then
        Err (AssertionFailed (debug_participant me ++
          " is running Resharing with a zero share but does belong to the old participant set")%string)
      else Ok (Some old_key, Some old_participants)
    else if ~~ ParticipantList_contains old_participants me then
      Err (AssertionFailed (debug_participant me ++
          " is running Resharing with a non-zero share but does not belong to the old participant set")%string)
    else Ok (Some old_key, Some old_participants)
  else if is_zero_secret then
    Err (AssertionFailed (debug_participant me ++
          " is running DKG with a zero share")%string)
  else Ok (None, None).

Definition generate_coefficient_commitment (secret_coefficients : @Polynomial F) :
    result ProtocolError (@PolynomialCommitment F G) :=
  let coefficients := Polynomial_get_coefficients secret_coefficients in
  let coefficients :=
    if ohead coefficients == Some 0 then behead coefficients else coefficients in
  let* p := Polynomial_new coefficients in
  Polynomial_commit_polynomial p.

(** [challenge]: the hash as a scalar; the separator moves only past the
    serializations. *)
Definition challenge (d : DomainSeparator) (session_id : HashOutput) (id : F) (vk_share big_r : G) :
    result ProtocolError (F * DomainSeparator) :=
  let serialized_id := dk_serialize_scalar id in
  let* serialized_vk_share := ok_or (dk_serialize_element vk_share)
    (AssertionFailed "The verification share could not be serialized as it is null"%string) in
  let* serialized_big_r := ok_or (dk_serialize_element big_r)
    (AssertionFailed "The group element R could not be serialized as it is the identity"%string) in
  let preimage := to_le_bytes 4 d ++ session_id ++ serialized_id ++ serialized_vk_share ++
    serialized_big_r in
  let* hash := ok_or (dk_HDKG preimage) DKGNotSupported in
  Ok (hash, DomainSeparator_increment d).

Definition proof_of_knowledge (session_id : HashOutput) (d : DomainSeparator) me
    (coefficients : @Polynomial F) (coefficient_commitment : @PolynomialCommitment F G)
    (rng : cs_rng) : result ProtocolError (Signature G * DomainSeparator * cs_rng) :=
  let* id := Participant_scalar me in
  let* vk_share := PolynomialCommitment_eval_at_zero coefficient_commitment in
  let: ((k, big_r), rng) := dk_generate_nonce rng in
  let* (hash, d) := challenge d session_id id vk_share big_r in
  let* a_0 := Polynomial_eval_at_zero coefficients in
  let mu := k + a_0 * hash in
  Ok (mkSignature big_r mu, d, rng).

Definition internal_verify_proof_of_knowledge (session_id : HashOutput) (d : DomainSeparator)
    (participant : Participant) (commitment : seq G) (proof : Signature G) :
    result ProtocolError unit :=
  let* id := Participant_scalar participant in
  let* vk_share := ok_or (ohead commitment) (AssertionFailed "Empty coefficient list"%string) in
  let* (c, _) := challenge d session_id id vk_share (sig_R proof) in
  if sig_R proof != sig_z proof *: cs_generator - c *: vk_share
  then Err (InvalidProofOfKnowledge participant)
  else Ok tt.

Definition verify_proof_of_knowledge (session_id : HashOutput) (d : DomainSeparator)
    (threshold : Z) (participant : Participant) (old_participants : option ParticipantList)
    (commitment : seq G) (proof : option (Signature G)) : result ProtocolError unit :=
  match proof with
  | None =>
    if (if old_participants is Some old then ParticipantList_contains old participant else true)
    then Err (MaliciousParticipant participant)
    else if Z.eqb (Z.of_nat (size commitment)) (threshold - 1) then Ok tt
    else Err IncorrectNumberOfCommitments
  | Some proof =>
    if (if old_participants is Some old then ~~ ParticipantList_contains old participant else false)
    then Err (MaliciousParticipant participant)
    else if Z.eqb (Z.of_nat (size commitment)) threshold then
      internal_verify_proof_of_knowledge session_id d participant commitment proof
    else Err IncorrectNumberOfCommitments
  end.

Definition verify_commitment_hash (session_id : HashOutput) (participant : Participant)
    (d : DomainSeparator) (commitment : seq G) (all_hash_commitments : ParticipantMap HashOutput) :
    result ProtocolError unit :=
  let* actual_commitment_hash := ParticipantMap_index all_hash_commitments participant in
  let* commitment_hash := (domain_separate_hash d (HashCommitment participant commitment session_id)).2 in
  if actual_commitment_hash != commitment_hash then Err InvalidCommitmentHash else Ok tt.

Definition insert_identity_if_missing (threshold : Z) (commitment_i : seq G) : seq G :=
  if Z.eqb (Z.of_nat (size commitment_i)) (threshold - 1) then 0 :: commitment_i else commitment_i.

(** [Participant::to_identifier]. *)
Definition Participant_to_identifier (p : Participant) : result ProtocolError F :=
  let* id := Participant_scalar p in
  ok_or (dk_identifier id) IdentityElement.

Definition validate_received_share me (from : Participant) (signing_share_from : F)
    (commitment : seq G) : result ProtocolError unit :=
  let* id := Participant_to_identifier me in
  match dk_share_verify id signing_share_from commitment with
  | VerifyOk => Ok tt
  | VerifyInvalidSecretShare => Err (InvalidSecretShare from)
  | VerifyOtherError =>
    Err (AssertionFailed ("could not extract the verification key matching the secret share sent by " ++
      debug_participant from)%string)
  end.

Definition public_key_from_commitments (commitments : seq (seq G)) : result ProtocolError G :=
  let* commitment := ok_or (dk_sum_commitments commitments) IncorrectNumberOfCommitments in
  ok_or (dk_from_commitment commitment) ErrorExtractVerificationKey.

(** The checks of [broadcast_success] on the broadcast votes. *)
Definition broadcast_success (vote_map : ParticipantMap (bool * HashOutput))
    (session_id : HashOutput) : result ProtocolError unit :=
  let* vote_list := ok_or (ParticipantMap_into_vec_or_none vote_map)
    (AssertionFailed "vote_list is empty"%string) in
  if ~~ all (fun v => v.2 == session_id) vote_list then
    Err (AssertionFailed "A participant broadcast the wrong session id. Aborting Protocol!"%string)
  else if ~~ all (fun v => v.1) vote_list then
    Err (AssertionFailed "A participant seems to have failed its checks. Aborting Protocol!"%string)
  else Ok tt.

(** ** Rounds of [do_keyshare] *)

(** A run waits for messages ([None]) or has returned. *)
Definition run (A : Type) : Type := option (result ProtocolError A).

Definition run_bind (A B : Type) (m : run A) (k : A -> run B) : run B :=
  match m with
  | None => None
  | Some (Ok a) => k a
  | Some (Err e) => Some (Err e)
  | Some (Panic s) => Some (Panic s)
  end.

(** [recv_from_others(...).await?]. *)
Definition recv_await (T : Type) participants me (queue : seq (Participant * T)) :
    run (seq (Participant * T)) :=
  if recv_from_others participants me queue is Some messages then Some (Ok messages) else None.

Record KeygenOutput := mkKeygenOutput { ko_private_share : F; ko_public_key : G }.

(** What a party holds after round 2; the commitment, its hash and the proof are
    what it sends. *)
Record Round2 := mkRound2 {
  r2_session_id : HashOutput;
  r2_secret_coefficients : @Polynomial F;
  r2_commitment : seq G;
  r2_proof_of_knowledge : option (Signature G);
  r2_proof_domain_separator : DomainSeparator;
  r2_commit_domain_separator : DomainSeparator;
  r2_commitment_hash : HashOutput;
}.

(** Steps 2.2 to 2.8. *)
Definition keyshare_round2 me (threshold : Z) (secret : F)
    (old_participants : option ParticipantList) (session_ids : ParticipantMap bytes)
    (rng : cs_rng) : result ProtocolError Round2 :=
  let: (domain_separator, session_id) := domain_separate_hash 0 (HashSessionIds session_ids) in
  let* session_id := session_id in
  let* degree := ok_or (checked_sub threshold 1) IntegerOverflow in
  let* (secret_coefficients, rng) := Polynomial_generate_polynomial (Some secret) degree rng in
  let* coefficient_commitment := generate_coefficient_commitment secret_coefficients in
  let proof_domain_separator := domain_separator in
  let generate_proof :=
    if old_participants is Some old then ParticipantList_contains old me else true in
  let* (proof, domain_separator) :=
    if generate_proof then
      let* (proof, domain_separator, rng) :=
        proof_of_knowledge session_id domain_separator me secret_coefficients
          coefficient_commitment rng in
      Ok (Some proof, domain_separator)
    else Ok (None, DomainSeparator_increment domain_separator) in
  let commitment := PolynomialCommitment_get_coefficients coefficient_commitment in
  let commit_domain_separator := domain_separator in
  let* commitment_hash :=
    (domain_separate_hash domain_separator (HashCommitment me commitment session_id)).2 in
  Ok (mkRound2 session_id secret_coefficients commitment proof proof_domain_separator
        commit_domain_separator commitment_hash).

(** Step 3.1: my hash and the received ones. *)
Definition keyshare_hashes participants me (commitment_hash : HashOutput)
    (messages : seq (Participant * HashOutput)) : ParticipantMap HashOutput :=
  foldl (fun m q => ParticipantMap_put m q.1 q.2)
    (ParticipantMap_put (ParticipantMap_new participants) me commitment_hash) messages.

(** Steps 4.2 to 4.4 for one other participant. *)
Definition keyshare_check (threshold : Z) (old_participants : option ParticipantList)
    (r2 : Round2) (hashes : ParticipantMap HashOutput)
    (commitments_and_proofs : ParticipantMap (seq G * option (Signature G)))
    (p : Participant) : result ProtocolError (seq G) :=
  let* (commitment_i, proof_i) := ParticipantMap_index commitments_and_proofs p in
  let* _ := verify_proof_of_knowledge (r2_session_id r2) (r2_proof_domain_separator r2) threshold
    p old_participants commitment_i proof_i in
  let* _ := verify_commitment_hash (r2_session_id r2) p (r2_commit_domain_separator r2)
    commitment_i hashes in
  Ok (insert_identity_if_missing threshold commitment_i).

Fixpoint keyshare_collect (check : Participant -> result ProtocolError (seq G))
    (ps : seq Participant) (full : ParticipantMap (seq G)) :
    result ProtocolError (ParticipantMap (seq G)) :=
  if ps is p :: ps then
    let* full_commitment_i := check p in
    keyshare_collect check ps (ParticipantMap_put full p full_commitment_i)
  else Ok full.

(** Steps 4.2 to 4.5: the full commitments and the verifying key. *)
Definition keyshare_round4 participants me (threshold : Z) (old_verification_key : option G)
    (old_participants : option ParticipantList) (r2 : Round2)
    (hashes : ParticipantMap HashOutput)
    (commitments_and_proofs : ParticipantMap (seq G * option (Signature G))) :
    result ProtocolError (ParticipantMap (seq G) * G) :=
  let my_full_commitment := insert_identity_if_missing threshold (r2_commitment r2) in
  let* all_full_commitments :=
    keyshare_collect
      (keyshare_check threshold old_participants r2 hashes commitments_and_proofs)
      (ParticipantList_others participants me)
      (ParticipantMap_put (ParticipantMap_new participants) me my_full_commitment) in
  let* all_commitments_refs := ok_or (ParticipantMap_into_vec_or_none all_full_commitments)
    (AssertionFailed "all_full_commitments is empty"%string) in
  let* verifying_key := public_key_from_commitments all_commitments_refs in
  if old_verification_key is Some old_vk then
    if old_vk != verifying_key then
      Err (AssertionFailed "new public key does not match old public key"%string)
    else Ok (all_full_commitments, verifying_key)
  else Ok (all_full_commitments, verifying_key).

(** Step 4.6: the shares sent to the others. *)
Definition keyshare_shares participants me (secret_coefficients : @Polynomial F) :
    result ProtocolError (seq (Participant * F)) :=
  rmap (fun p => let* share := Polynomial_eval_at_participant secret_coefficients p in Ok (p, share))
    (ParticipantList_others participants me).

(** Steps 5.1 to 5.3: check and add the received shares. *)
Fixpoint keyshare_sum me (all_full_commitments : ParticipantMap (seq G))
    (messages : seq (Participant * F)) (my_signing_share : F) : result ProtocolError F :=
  if messages is (from, signing_share_from) :: messages then
    let* full_commitment_from := ParticipantMap_index all_full_commitments from in
    let* _ := validate_received_share me from signing_share_from full_commitment_from in
    keyshare_sum me all_full_commitments messages (my_signing_share + signing_share_from)
  else Ok my_signing_share.

(** What the channels deliver to a party: the results of its four broadcasts and
    the two queues of messages. *)
Record Received := mkReceived {
  rc_session_ids : result ProtocolError (ParticipantMap bytes);
  rc_hashes : seq (Participant * HashOutput);
  rc_commitments : result ProtocolError (ParticipantMap (seq G * option (Signature G)));
  rc_shares : seq (Participant * F);
  rc_votes : result ProtocolError (ParticipantMap (bool * HashOutput));
}.

Definition do_keyshare participants me (threshold : Z) (secret : F)
    (old_reshare_package : option (G * ParticipantList)) (rng : cs_rng) (rc : Received) :
    run KeygenOutput :=
  run_bind (Some (assert_keyshare_inputs me secret old_reshare_package))
    (fun '(old_verification_key, old_participants) =>
  let: (my_session_id, rng) := dk_fill_bytes rng in
  run_bind (Some (rc_session_ids rc)) (fun session_ids =>
  run_bind (Some (keyshare_round2 me threshold secret old_participants session_ids rng)) (fun r2 =>
  run_bind (recv_await participants me (rc_hashes rc)) (fun hash_messages =>
  let hashes := keyshare_hashes participants me (r2_commitment_hash r2) hash_messages in
  run_bind (Some (rc_commitments rc)) (fun commitments_and_proofs =>
  run_bind (Some (keyshare_round4 participants me threshold old_verification_key old_participants
                    r2 hashes commitments_and_proofs)) (fun '(all_full_commitments, verifying_key) =>
  run_bind (Some (keyshare_shares participants me (r2_secret_coefficients r2))) (fun sent_shares =>
  run_bind (Some (Polynomial_eval_at_participant (r2_secret_coefficients r2) me)) (fun my_share =>
  run_bind (recv_await participants me (rc_shares rc)) (fun share_messages =>
  run_bind (Some (keyshare_sum me all_full_commitments share_messages my_share))
    (fun my_signing_share =>
  run_bind (Some (rc_votes rc)) (fun votes =>
  run_bind (Some (broadcast_success votes (r2_session_id r2))) (fun _ =>
  Some (Ok (mkKeygenOutput my_signing_share verifying_key)))))))))))))).

(** ** Entry points *)

Definition do_keygen participants me (threshold : Z) (rng : cs_rng) (rc : Received) :
    run KeygenOutput :=
  let: (secret, rng) := dk_signing_key rng in
  do_keyshare participants me threshold secret None rng rc.

(** The secret an old participant contributes to a resharing: its share weighted
    by its Lagrange coefficient among the old participants that stay. *)
Definition reshare_secret participants me (old_signing_key : option F)
    (old_participants : ParticipantList) : result ProtocolError F :=
  let* intersection := ParticipantList_intersection old_participants participants in
  if old_signing_key is Some x_i then
    let* lambda := ParticipantList_lagrange intersection me in
    Ok (lambda * x_i)
  else Ok 0.

Definition do_reshare participants me (threshold : Z) (old_signing_key : option F)
    (old_public_key : G) (old_participants : ParticipantList) (rng : cs_rng) (rc : Received) :
    run KeygenOutput :=
  run_bind (Some (reshare_secret participants me old_signing_key old_participants)) (fun secret =>
  do_keyshare participants me threshold secret (Some (old_public_key, old_participants)) rng rc).

Definition assert_key_invariants (participants : seq Participant) me (threshold : Z) :
    result InitializationError ParticipantList :=
  if (size participants < 2)%N then
    Err (NotEnoughParticipants (Z.of_nat (size participants)))
  else if Z.ltb (Z.of_nat (size participants)) threshold then
    Err (ThresholdTooLarge threshold (Z.of_nat (size participants)))
  else if Z.ltb threshold 2 then Err (ThresholdTooSmall threshold 2)
  else
    let* participants := ok_or (ParticipantList_new participants) DuplicateParticipants in
    if ~~ ParticipantList_contains participants me then Err (MissingParticipant "self"%string me)
    else Ok participants.

Definition assert_reshare_keys_invariants (participants : seq Participant) me (threshold : Z)
    (old_signing_key : option F) (old_threshold : Z) (old_participants : seq Participant) :
    result InitializationError (ParticipantList * ParticipantList) :=
  let* participants := assert_key_invariants participants me threshold in
  let* old_participants := ok_or (ParticipantList_new old_participants) DuplicateParticipants in
  let* intersection := ParticipantList_intersection old_participants participants in
  if Z.ltb (Z.of_nat (ParticipantList_len intersection)) old_threshold then
    Err (NotEnoughParticipantsForNewThreshold old_threshold
           (Z.of_nat (ParticipantList_len intersection)))
  else if ParticipantList_contains old_participants me && ~~ old_signing_key then
    Err (BadParameters ("party " ++ debug_participant me ++
      " is present in the old participant list but provided no share")%string)
  else Ok (participants, old_participants).

(** [keygen], [reshare] and [refresh] of [lib.rs], on what the channels deliver. *)
Definition keygen (participants : seq Participant) me (threshold : Z) (rng : cs_rng)
    (rc : Received) : result InitializationError (run KeygenOutput) :=
  let* participants := assert_key_invariants participants me threshold in
  Ok (do_keygen participants me threshold rng rc).

Definition reshare (old_participants : seq Participant) (old_threshold : Z)
    (old_signing_key : option F) (old_public_key : G) (new_participants : seq Participant)
    (new_threshold : Z) me (rng : cs_rng) (rc : Received) :
    result InitializationError (run KeygenOutput) :=
  let* (participants, old_participants) :=
    assert_reshare_keys_invariants new_participants me new_threshold old_signing_key
      old_threshold old_participants in
  Ok (do_reshare participants me new_threshold old_signing_key old_public_key
        old_participants rng rc).

Definition refresh (old_signing_key : option F) (old_public_key : G)
    (old_participants : seq Participant) (old_threshold : Z) me (rng : cs_rng) (rc : Received) :
    result InitializationError (run KeygenOutput) :=
  if ~~ old_signing_key then
    Err (BadParameters ("The participant " ++ debug_participant me ++
      " is running refresh without an old share")%string)
  else
    let* (participants, old_participants) :=
      assert_reshare_keys_invariants old_participants me old_threshold old_signing_key
        old_threshold old_participants in
    Ok (do_reshare participants me old_threshold old_signing_key old_public_key
          old_participants rng rc).
End Dkg.
