(* ===== verification/DkgProofs.v ===== *)
(** * Threshold signatures: what key generation guarantees

    Whatever the other participants send, the parties that finish hold shares of
    one polynomial whose value at zero is the secret key of the public key they
    output; any threshold of them can reconstruct it.  When all participants
    follow the protocol nobody fails, and a resharing keeps the public key. *)

From Stdlib Require Import ZArith Lia String.
From mathcomp Require Import boot ssralg poly.
From S2P Require Import TsTypes TsParticipants Polynomials Interpolation Dkg.
Set Implicit Arguments.
Unset Strict Implicit.
Unset Printing Implicit Defensive.
Import GRing.Theory.
Local Open Scope ring_scope.
Local Open Scope ts_scope.

(** ** Lists and maps of participants *)

Lemma InP (T : eqType) (x : T) s : reflect (List.In x s) (x \in s).
Proof.
elim: s => [|y s IH] /=; first by constructor.
by rewrite in_cons eq_sym; apply: (iffP orP) => - [/eqP|/IH]; auto.
Qed.

Lemma containsE l p : ParticipantList_ok l -> ParticipantList_contains l p = (p \in pl_participants l).
Proof.
move=> l_ok; apply/idP/InP => H; first by apply/ParticipantList_contains_In.
by apply/ParticipantList_contains_In.
Qed.

Lemma othersE l me p : (p \in ParticipantList_others l me) = (p \in pl_participants l) && (p != me).
Proof.
apply/InP/andP => [/ParticipantList_others_In [/InP -> /eqP ->] //|[/InP p_in /eqP p_neq]].
exact/ParticipantList_others_In.
Qed.

Lemma NoDup_uniq (T : eqType) (s : seq T) : List.NoDup s -> uniq s.
Proof. by elim=> //= x t /InP -> _ ->. Qed.

Lemma participants_uniq l : ParticipantList_ok l -> uniq (pl_participants l).
Proof. by move/ParticipantList_ok_NoDup/NoDup_uniq. Qed.

Lemma others_uniq l me : ParticipantList_ok l -> uniq (ParticipantList_others l me).
Proof.
by move/ParticipantList_ok_NoDup => H; apply/NoDup_uniq/List.NoDup_filter.
Qed.

(** The participants are [me] and the others. *)
Lemma perm_others l me : ParticipantList_ok l -> me \in pl_participants l ->
  perm_eq (pl_participants l) (me :: ParticipantList_others l me).
Proof.
move=> l_ok me_in; apply: uniq_perm; rewrite ?participants_uniq //=.
  by rewrite othersE eqxx andbF others_uniq.
by move=> p; rewrite in_cons othersE; case: eqP => [->|_]; rewrite ?andbT.
Qed.

(** [recv_from_others] returns one message of every other participant. *)
Lemma recv_loopP T seen (queue messages : seq (Participant * T)) :
  ParticipantCounter_ok seen -> recv_loop seen queue = Some messages ->
  uniq (unzip1 messages) /\
  forall p, (p \in unzip1 messages) =
    (p \in pl_participants (pc_participants seen)) && ~~ ParticipantCounter_has seen p.
Proof.
elim: queue seen messages => [|[from msg] queue IH] seen messages seen_ok /=;
  (case: ifP => [/(ParticipantCounter_full_spec _ seen_ok) full [<-]|_]; first
    by split=> // p; rewrite in_nil; case: InP => // /full ->) => //.
case E: (ParticipantCounter_put seen from) => [seen' b].
have [seen_ok' [eq_l [b_def has']]] := ParticipantCounter_put_ok _ _ _ _ seen_ok E.
have l_ok : ParticipantList_ok (pc_participants seen) by case: seen_ok.
rewrite containsE // in b_def has'; case: b E b_def => _ /esym.
  case/andP => from_in from_new; case R: (recv_loop _ _) => [messages'|//] [<-] /=.
  have [-> mem'] := IH _ _ seen_ok' R; split=> [|p].
    by rewrite mem' has' eq_l from_in Z.eqb_refl andbF.
  rewrite in_cons mem' has' eq_l from_in -[Z.eqb p from]/(p == from).
  by case: eqP => [->|_] //=; rewrite from_in.
move=> b_def /(IH _ _ seen_ok') [uniq' mem']; split=> // p.
rewrite mem' eq_l has' -[Z.eqb p from]/(p == from); case: eqP => [->|_] //=.
by case: (from \in _) b_def => //= /negbFE ->.
Qed.

Lemma recv_from_othersP T l me (queue messages : seq (Participant * T)) :
  ParticipantList_ok l -> me \in pl_participants l ->
  recv_from_others l me queue = Some messages ->
  perm_eq (unzip1 messages) (ParticipantList_others l me).
Proof.
move=> l_ok me_in; rewrite /recv_from_others.
have [new_ok new_has] := ParticipantCounter_new_ok _ l_ok.
case E: (ParticipantCounter_put _ me) => [seen b] /=.
have [seen_ok [eq_l [_ has']]] := ParticipantCounter_put_ok _ _ _ _ new_ok E.
case/(recv_loopP seen_ok) => uniq_m mem_m; apply: uniq_perm => //; first exact: others_uniq.
move=> p; rewrite mem_m has' eq_l new_has orbF containsE // othersE -[Z.eqb p me]/(p == me).
by rewrite /= me_in andbT.
Qed.

Section Collect.
Context {F : fieldType} {G : lmodType F}.

Lemma keyshare_collectP (check : Participant -> result ProtocolError (seq G)) ps full full' :
  ParticipantMap_ok full -> uniq ps ->
  {subset ps <= pl_participants (pm_participants full)} ->
  {in ps, forall p, ParticipantMap_get full p = None} ->
  keyshare_collect check ps full = Ok full' ->
  [/\ ParticipantMap_ok full', pm_participants full' = pm_participants full,
      {in ps, forall p, exists2 c, check p = Ok c & ParticipantMap_get full' p = Some c} &
      forall q, q \notin ps -> ParticipantMap_get full' q = ParticipantMap_get full q].
Proof.
elim: ps full => [|p ps IH] full full_ok /=; first by move=> _ _ _ [<-].
case/andP => p_notin ps_uniq sub_ps none_ps; case E: (check p) => [c|//|//] /=.
have [ok1 [eq_l get1]] := ParticipantMap_put_ok full p c full_ok.
have p_in : p \in pl_participants (pm_participants full) by apply: sub_ps; rewrite mem_head.
have get_put q : ParticipantMap_get (ParticipantMap_put full p c) q =
    if q == p then Some c else ParticipantMap_get full q.
  rewrite get1 -[Z.eqb q p]/(q == p) containsE; first by case: full_ok.
  by rewrite p_in none_ps ?mem_head // !andbT.
case/(IH _ ok1 ps_uniq) => [q q_in|q q_in|ok' eq' in' out'].
- by rewrite eq_l; apply: sub_ps; rewrite in_cons q_in orbT.
- rewrite get_put; case: eqP => [eq_qp|_]; first by rewrite -eq_qp q_in in p_notin.
  by apply: none_ps; rewrite in_cons q_in orbT.
split=> //; first by rewrite eq'.
- move=> q; rewrite in_cons; case: (boolP (q \in ps)) => [/in' //|q_notin].
  by rewrite orbF => /eqP ->; exists c => //; rewrite out' // get_put eqxx.
- by move=> q; rewrite in_cons negb_or => /andP [/negPf q_neq q_notin]; rewrite out' // get_put q_neq.
Qed.
End Collect.

(** ** Round 2 *)

Section Sound.
Context {F : fieldType} {G : lmodType F} {C : Ciphersuite G} {D : DkgSuite C}.
Context {L : CiphersuiteLaws C} {DL : DkgSuiteLaws D}.
Abbreviation g := (cs_generator : G).

Lemma Polynomial_new_id (s : seq F) : last 0 s != 0 -> Polynomial_new s = Ok (mkPolynomial s).
Proof.
case/lastP: s => [|s y]; first by rewrite eqxx.
by rewrite last_rcons => yN0; rewrite Polynomial_new_trim all_rcons /= (negPf yN0) trim_id.
Qed.

Lemma generate_coefficient_commitmentE p :
  Polynomial_ok p ->
  generate_coefficient_commitment p =
  Ok (mkPolynomialCommitment
    [seq c *: g | c <- if (to_poly p).[0] == 0 then behead (poly_coefficients p)
                       else poly_coefficients p]).
Proof.
move=> p_ok; rewrite /generate_coefficient_commitment /Polynomial_get_coefficients.
have -> : (ohead (poly_coefficients p) == Some 0) = ((to_poly p).[0] == 0).
  by have := Polynomial_eval_at_zeroE p_ok; rewrite /Polynomial_eval_at_zero;
    case: (ohead _) => //= a [->].
case: ifP => [p0|_]; last by rewrite Polynomial_new_id //= Polynomial_commit_polynomialE.
move: p_ok p0; rewrite /to_poly /Polynomial_ok; case: (poly_coefficients p) => [|a [|b s]] //=.
- by rewrite eqxx.
- by rewrite cons_poly_def mul0r add0r hornerC => /negPf ->.
- by move=> p_ok _; rewrite Polynomial_new_id //= Polynomial_commit_polynomialE.
Qed.

(** What a party holds after round 2. *)
Lemma keyshare_round2P me threshold secret old session_ids rng r2 :
  Z.le 1 threshold ->
  keyshare_round2 me threshold secret old session_ids rng = Ok r2 ->
  let p := r2_secret_coefficients r2 in
  [/\ Polynomial_ok p, (to_poly p).[0] = secret,
      (size (poly_coefficients p) <= Z.to_nat threshold)%N,
      r2_commitment r2 = [seq c *: g | c <- if secret == 0 then behead (poly_coefficients p)
                                           else poly_coefficients p] &
      isSome (r2_proof_of_knowledge r2) =
        if old is Some old then ParticipantList_contains old me else true].
Proof.
move=> thr_ge; rewrite /keyshare_round2 /=; case: (hash _) => [sid|//|//] /=.
rewrite /checked_sub; case: Z.leb_spec => //= _.
case E: (Polynomial_generate_polynomial _ _ _) => [[p rng1]|//|//] /=.
have deg_ge : Z.le 0 (threshold - 1) by lia.
have [p_ok p0] := Polynomial_generate_polynomial_ok deg_ge E.
have -> : (Z.to_nat (threshold - 1)).+1 = Z.to_nat threshold by lia.
move=> p_size; rewrite generate_coefficient_commitmentE //= p0.
set proof := (X in rbind X); case P: proof => [[pf d]|//|//] /=.
case: (hash _) => [h|//|//] /= [<-] /=; split=> //.
move: P; rewrite /proof; case: ifP => _; last by case=> <-.
by case: (proof_of_knowledge _ _ _ _ _ _) => [[[q d1] r1]|//|//] /= [<-].
Qed.

(** ** Commitments of the participants *)

(** The full commitment of a participant, as everybody computes it from the
    broadcast commitments. *)
Definition full_commitment threshold (M : ParticipantMap (seq G * option (Signature G)))
    (p : Participant) : seq G :=
  if ParticipantMap_get M p is Some (c, _) then insert_identity_if_missing threshold c else [::].

Lemma keyshare_checkP threshold old r2 hashes M p c :
  Z.le 2 threshold ->
  keyshare_check threshold old r2 hashes M p = Ok c ->
  [/\ c = full_commitment threshold M p, size c = Z.to_nat threshold &
      exists2 cp, ParticipantMap_get M p = Some cp &
        Z.of_nat (size cp.1) = (if cp.2 then threshold else threshold - 1)%Z].
Proof.
move=> thr_ge; rewrite /keyshare_check; case E: (ParticipantMap_index M p) => [[ci pi]|//|//] /=.
move/ParticipantMap_index_get in E.
case V: (verify_proof_of_knowledge _ _ _ _ _ _ _) => [[]|//|//] /=.
case: (verify_commitment_hash _ _ _ _ _) => [_|//|//] /= [<-]; rewrite /full_commitment E.
have size_ci : Z.of_nat (size ci) = (if pi then threshold else threshold - 1)%Z.
  by move: V; rewrite /verify_proof_of_knowledge; case: pi E => [pi|] E;
    case: ifP => // _; case: Z.eqb_spec.
split=> //; last by exists (ci, pi).
rewrite /insert_identity_if_missing size_ci; case: pi {E V} size_ci => [pi|] /= size_ci.
- by case: Z.eqb_spec => [e|_] /=; lia.
- by rewrite Z.eqb_refl /=; lia.
Qed.

(** What a party broadcasts in a run: the data of its round 2. *)
Definition keyshare_sends me threshold (secret : F) (old_reshare_package : option (G * ParticipantList))
    (rng : cs_rng) (rc : @Received F G) : result ProtocolError (@Round2 F G) :=
  let* (_, old_participants) := assert_keyshare_inputs me secret old_reshare_package in
  let* session_ids := rc_session_ids rc in
  keyshare_round2 me threshold secret old_participants session_ids (dk_fill_bytes rng).2.

(** A broadcast entry that passes the length check of another party. *)
Definition entry_ok threshold (cp : seq G * option (Signature G)) : Prop :=
  Z.of_nat (size cp.1) = (if cp.2 then threshold else threshold - 1)%Z.

(** A proof is sent exactly with a non-zero secret. *)
Lemma assert_keyshare_inputs_proof me (secret : F) (package : option (G * ParticipantList)) old_vk old :
  assert_keyshare_inputs me secret package = Ok (old_vk, old) ->
  (if old is Some old then ParticipantList_contains old me else true) = (secret != 0).
Proof.
rewrite /assert_keyshare_inputs; case: package => [[vk l]|].
- by case: eqP => _; case E: (ParticipantList_contains l me) => //= - [_ <-]; rewrite E.
- by case: eqP => // _ [_ <-].
Qed.

(** The broadcast commitment of a party that another one accepted commits to its
    secret polynomial. *)
Lemma own_commitment me threshold secret package rng rc r2 x :
  Z.le 2 threshold ->
  keyshare_sends me threshold secret package rng rc = Ok r2 ->
  entry_ok threshold (r2_commitment r2, r2_proof_of_knowledge r2) ->
  geval (insert_identity_if_missing threshold (r2_commitment r2)) x =
  (to_poly (r2_secret_coefficients r2)).[x] *: g.
Proof.
move=> thr_ge; rewrite /keyshare_sends.
case A: (assert_keyshare_inputs _ _ _) => [[old_vk old]|//|//] /=.
case: (rc_session_ids rc) => [sids|//|//] /= R.
have thr1 : Z.le 1 threshold by lia.
have [p_ok p0 _ cE pE] := keyshare_round2P thr1 R.
move: (assert_keyshare_inputs_proof A); rewrite -pE /entry_ok => {}pE.
rewrite /= pE /insert_identity_if_missing => ->; rewrite cE; case: eqP p0 => [->|_] p0 /=.
  rewrite Z.eqb_refl /= -/(geval _ _) geval_commit /to_poly addr0 scalerA mulrC.
  move: p0; rewrite /to_poly; case: (poly_coefficients _) => [|a s] /=.
    by rewrite !horner0 mul0r.
  by rewrite !cons_poly_def !hornerD !hornerMX !hornerC mulr0 add0r => ->; rewrite addr0.
by case: Z.eqb_spec => [|_]; [lia | rewrite geval_commit].
Qed.

(** ** Round 5 *)

Lemma validate_received_shareP me from share c :
  is_participant me -> c != [::] ->
  validate_received_share me from share c = Ok tt <-> share *: g = geval c (Z_to_F (me + 1)).
Proof.
move=> me_ok cN0; rewrite /validate_received_share /Participant_to_identifier.
rewrite Participant_scalarE //= dk_identifierE ?Z_to_F_neq0 //=.
have [] := dk_share_verifyE (Z_to_F (me + 1)) share cN0.
by case: (dk_share_verify _ _ _) => H1 H2; split=> // H; [exact: H1 | move: (H2 H) | move: (H2 H)].
Qed.

Lemma keyshare_sumP me full messages acc total :
  is_participant me ->
  {in unzip1 messages, forall p, ParticipantMap_get full p != Some [::]} ->
  keyshare_sum me full messages acc = Ok total ->
  total *: g = acc *: g +
    \sum_(p <- unzip1 messages) geval (odflt [::] (ParticipantMap_get full p)) (Z_to_F (me + 1)).
Proof.
move=> me_ok; elim: messages acc => [|[from share] messages IH] acc /=.
  by move=> _ [->]; rewrite big_nil addr0.
move=> nonempty; case E: (ParticipantMap_index full from) => [c|//|//] /=.
move/ParticipantMap_index_get in E.
have cN0 : c != [::].
  by move: (nonempty from); rewrite mem_head E => /(_ isT); apply: contra => /eqP ->.
case V: (validate_received_share _ _ _ _) => [[]|//|//] /=.
move/(validate_received_shareP from share me_ok cN0) in V.
move/IH => -> => [p p_in|]; first by apply: nonempty; rewrite in_cons p_in orbT.
by rewrite scalerDl big_cons E /= V addrA.
Qed.

Lemma public_key_from_commitmentsE n (cs : seq (seq G)) :
  (0 < n)%N -> cs != [::] -> all (fun c => size c == n) cs ->
  public_key_from_commitments cs = Ok (\sum_(c <- cs) geval c 0).
Proof.
move=> n_gt csN0 cs_size; rewrite /public_key_from_commitments (dk_sum_commitmentsE csN0 cs_size).
case: n n_gt cs_size => // n _ cs_size; rewrite /mkseq /= dk_from_commitmentE /=; congr Ok.
apply: eq_big_seq => c /(allP cs_size); case: c => //= a c _.
by rewrite scale0r add0r.
Qed.

(** ** A finished run *)

Section Finished.
Context (l : ParticipantList) (threshold : Z).
Hypothesis l_ok : ParticipantList_ok l.
Hypothesis l_range : all is_participant (pl_participants l).
Hypothesis threshold_ge : Z.le 2 threshold.
Implicit Types M : ParticipantMap (seq G * option (Signature G)).

(** Party [p] finished a run with output [out]; the broadcast delivered [M], in
    which the entry of [p] is what [p] sent. *)
Definition accepted M (p : Participant) (out : @KeygenOutput F G) : Prop :=
  exists secret package rng rc r2,
  [/\ keyshare_sends p threshold secret package rng rc = Ok r2,
      do_keyshare l p threshold secret package rng rc = Some (Ok out),
      rc_commitments rc = Ok M &
      ParticipantMap_get M p = Some (r2_commitment r2, r2_proof_of_knowledge r2)].

(** The full commitments in round 4. *)
Lemma keyshare_full me old r2 hashes M full :
  me \in pl_participants l ->
  ParticipantMap_get M me = Some (r2_commitment r2, r2_proof_of_knowledge r2) ->
  keyshare_collect (keyshare_check threshold old r2 hashes M) (ParticipantList_others l me)
    (ParticipantMap_put (ParticipantMap_new l) me
       (insert_identity_if_missing threshold (r2_commitment r2))) = Ok full ->
  [/\ ParticipantMap_ok full, pm_participants full = l,
      {in ParticipantList_others l me, forall q,
        size (full_commitment threshold M q) = Z.to_nat threshold /\
        exists2 cp, ParticipantMap_get M q = Some cp & entry_ok threshold cp} &
      {in pl_participants l, forall q,
        ParticipantMap_get full q = Some (full_commitment threshold M q)}].
Proof.
move=> me_in M_me; set start := ParticipantMap_put _ me _.
have [new_ok new_get] := ParticipantMap_new_ok (T := seq G) _ l_ok.
have [start_ok [start_l start_get]] := ParticipantMap_put_ok _ me
  (insert_identity_if_missing threshold (r2_commitment r2)) new_ok.
have sub : {subset ParticipantList_others l me <= pl_participants (pm_participants start)}.
  by move=> q; rewrite start_l othersE => /andP [].
have none : {in ParticipantList_others l me, forall q, ParticipantMap_get start q = None}.
  move=> q; rewrite othersE => /andP [_ /negPf q_neq].
  by rewrite start_get !new_get -[Z.eqb q me]/(q == me) q_neq.
move=> E; have [full_ok full_l in_others out_others] :=
  keyshare_collectP start_ok (others_uniq me l_ok) sub none E.
split=> //; first by rewrite full_l start_l.
  by move=> q /in_others [c /(keyshare_checkP threshold_ge) [-> ? ?] _].
move=> q q_in; case: (boolP (q \in ParticipantList_others l me)) => [|q_notin].
  by case/in_others => c /(keyshare_checkP threshold_ge) [-> _ _].
rewrite out_others //; move: q_notin; rewrite othersE q_in /= negbK => /eqP ->.
by rewrite start_get new_get Z.eqb_refl containsE // me_in /= /full_commitment M_me.
Qed.

Lemma full_commitment_size M q cp :
  ParticipantMap_get M q = Some cp -> entry_ok threshold cp ->
  size (full_commitment threshold M q) = Z.to_nat threshold.
Proof.
rewrite /full_commitment /entry_ok /insert_identity_if_missing => ->.
by case: cp => c [pf|] /= e; rewrite e; case: Z.eqb_spec => /= e2; lia.
Qed.

Lemma keyshare_round4P me old_vk old r2 hashes M full vk :
  me \in pl_participants l ->
  ParticipantMap_get M me = Some (r2_commitment r2, r2_proof_of_knowledge r2) ->
  keyshare_round4 l me threshold old_vk old r2 hashes M = Ok (full, vk) ->
  [/\ {in ParticipantList_others l me, forall q, exists2 cp, ParticipantMap_get M q = Some cp &
        entry_ok threshold cp},
      {in pl_participants l, forall q,
        ParticipantMap_get full q = Some (full_commitment threshold M q)},
      entry_ok threshold (r2_commitment r2, r2_proof_of_knowledge r2) ->
        vk = \sum_(q <- pl_participants l) geval (full_commitment threshold M q) 0 &
      old_vk = None \/ old_vk = Some vk].
Proof.
move=> me_in M_me; rewrite /keyshare_round4.
case E: (keyshare_collect _ _ _) => [full'|//|//] /=.
have [full_ok full_l checked full_get] := keyshare_full me_in M_me E.
case V: (ParticipantMap_into_vec_or_none full') => [v|//] /=.
have vE : [seq full_commitment threshold M q | q <- pl_participants l] = v.
  apply: (inj_map (fun x y => @Some_inj _ x y)); rewrite -[RHS]/(List.map Some v).
  rewrite -(ParticipantMap_vec _ _ full_ok V) full_l -map_comp.
  by apply/esym/eq_in_map => q /full_get.
case K: (public_key_from_commitments v) => [vk'|//|//] /= out.
have [eq_full eq_vk eq_old] : [/\ full' = full, vk' = vk & old_vk = None \/ old_vk = Some vk].
  by case: old_vk out => [a|]; [case: eqP => // -> | ]; case=> <- <-; split; auto.
rewrite -{}eq_full; split=> // [q /checked [] //|me_entry]; rewrite -{}eq_vk -{}vE in K *.
have lN0 : [seq full_commitment threshold M q | q <- pl_participants l] != [::].
  by case: (pl_participants l) me_in.
move: K; rewrite (public_key_from_commitmentsE (n := Z.to_nat threshold) _ lN0) ?big_map => [||-[] //].
  by apply/ltP; lia.
apply/allP => c /mapP [q q_in ->]; apply/eqP.
case: (boolP (q \in ParticipantList_others l me)) => [/checked [] //|].
by rewrite othersE q_in /= negbK => /eqP ->; exact: full_commitment_size M_me me_entry.
Qed.

(** The parts of a run that returned [Ok]. *)
Lemma do_keyshareP p secret package rng rc r2 M out :
  keyshare_sends p threshold secret package rng rc = Ok r2 ->
  rc_commitments rc = Ok M ->
  do_keyshare l p threshold secret package rng rc = Some (Ok out) ->
  exists old_vk old hashes full messages share,
  [/\ keyshare_round4 l p threshold old_vk old r2 hashes M = Ok (full, ko_public_key out),
      recv_from_others l p (rc_shares rc) = Some messages,
      Polynomial_eval_at_participant (r2_secret_coefficients r2) p = Ok share &
      keyshare_sum p full messages share = Ok (ko_private_share out)].
Proof.
rewrite /keyshare_sends /do_keyshare.
case: (assert_keyshare_inputs _ _ _) => [[old_vk old]|//|//] /=.
case: (dk_fill_bytes rng) => sid rng1 /=; case: (rc_session_ids rc) => [sids|//|//] /= -> -> /=.
rewrite /recv_await; case: (recv_from_others _ _ (rc_hashes rc)) => [ms|//] /=.
case R4: (keyshare_round4 _ _ _ _ _ _ _ _) => [[full vk]|//|//] /=.
case: (keyshare_shares _ _ _) => [sent|//|//] /=.
case E: (Polynomial_eval_at_participant _ _) => [share|//|//] /=.
case R: (recv_from_others _ _ (rc_shares rc)) => [messages|//] /=.
case S: (keyshare_sum _ _ _ _) => [total|//|//] /=.
case: (rc_votes rc) => [votes|//|//] /=; case: (broadcast_success _ _) => [_|//|//] /= [<-].
by exists old_vk, old, (keyshare_hashes l p (r2_commitment_hash r2) ms), full, messages, share.
Qed.

(** A finished party checked the length of every other commitment; if its own
    has the right length, share and key are values of the summed commitments. *)
Lemma acceptedP M p out :
  p \in pl_participants l -> accepted M p out ->
  {in ParticipantList_others l p, forall q, exists2 cp, ParticipantMap_get M q = Some cp &
    entry_ok threshold cp} /\
  ((exists2 cp, ParticipantMap_get M p = Some cp & entry_ok threshold cp) ->
   ko_private_share out *: g =
     \sum_(q <- pl_participants l) geval (full_commitment threshold M q) (Z_to_F (p + 1)) /\
   ko_public_key out =
     \sum_(q <- pl_participants l) geval (full_commitment threshold M q) 0).
Proof.
move=> p_in [secret [package [rng [rc [r2 [sends run rcM M_p]]]]]].
have [old_vk [old [hashes [full [messages [share [R4 recv eval total]]]]]]] :=
  do_keyshareP sends rcM run.
have [entries full_get vkE _] := keyshare_round4P p_in M_p R4.
split=> // -[cp]; rewrite M_p => -[<-] entry_p; split; last exact: vkE.
have p_range : is_participant p by apply: (allP l_range).
have perm_m := recv_from_othersP l_ok p_in recv.
have in_l q : q \in unzip1 messages -> q \in pl_participants l.
  by rewrite (perm_mem perm_m) othersE => /andP [].
rewrite (keyshare_sumP p_range _ total); last first.
- rewrite (perm_big _ (perm_others l_ok p_in)) big_cons -(perm_big _ perm_m); congr (_ + _).
    move: eval; rewrite /Polynomial_eval_at_participant Participant_scalarE //=.
    have thr1 : Z.le 1 threshold by lia.
    rewrite /full_commitment M_p (own_commitment _ threshold_ge sends) //.
    move: sends; rewrite /keyshare_sends; case: assert_keyshare_inputs => [[? ?]|//|//] /=.
    case: (rc_session_ids rc) => [?|//|//] /= /(keyshare_round2P thr1) [r2_ok _ _ _ _].
    by rewrite Polynomial_eval_at_pointE // => -[<-].
  by apply: eq_big_seq => q /in_l /full_get ->.
move=> q q_in; rewrite full_get ?in_l //; apply/eqP => -[].
move: q_in; rewrite (perm_mem perm_m) => /entries [cq M_q entry_q].
move/(congr1 size); rewrite (full_commitment_size M_q entry_q) /=.
by move: threshold_ge; lia.
Qed.

(** ** One polynomial *)

Lemma geval_poly (c : seq G) : exists2 f : {poly F}, (size f <= size c)%N &
  forall x, geval c x = f.[x] *: g.
Proof.
elim: c => [|e c [f f_size f_eval]]; first by exists 0 => [|x]; rewrite ?size_poly0 //= horner0 scale0r.
have [a ->] := dk_cyclic e; exists (f * 'X + a%:P) => [|x].
  rewrite (leq_trans (size_polyD _ _)) // geq_max /= (leq_trans (size_polyC_leq1 _)) // andbT.
  by rewrite (leq_trans (size_polyMleq _ _)) // size_polyX addn2.
by rewrite /= f_eval hornerD hornerMX hornerC scalerDl scalerA mulrC.
Qed.

Lemma sum_geval_poly (T : eqType) (full : T -> seq G) n (qs : seq T) :
  {in qs, forall q, size (full q) = n} ->
  exists2 f : {poly F}, (size f <= n)%N &
    forall x, \sum_(q <- qs) geval (full q) x = f.[x] *: g.
Proof.
elim: qs => [|q qs IH] sizes.
  by exists 0 => [|x]; rewrite ?size_poly0 // big_nil horner0 scale0r.
have [f f_size f_eval] : exists2 f : {poly F}, (size f <= n)%N &
    forall x, \sum_(q <- qs) geval (full q) x = f.[x] *: g.
  by apply: IH => r r_in; apply: sizes; rewrite in_cons r_in orbT.
have [h h_size h_eval] := geval_poly (full q); exists (h + f) => [|x].
  rewrite (leq_trans (size_polyD _ _)) // geq_max f_size andbT.
  by rewrite (leq_trans h_size) // sizes ?mem_head.
by rewrite big_cons h_eval f_eval hornerD scalerDl.
Qed.

Lemma scale_generator_inj (a b : F) : a *: g = b *: g -> a = b.
Proof.
move=> eq_ab; apply/eqP; rewrite -subr_eq0.
have : (a - b) *: g == 0 by rewrite scalerBl eq_ab subrr.
by rewrite scaler_eq0 (negPf cs_generator_neq0) orbF.
Qed.

Lemma accepted_polynomial M (H : seq Participant) (out : Participant -> KeygenOutput) :
  (1 < size H)%N -> uniq H -> {subset H <= pl_participants l} ->
  {in H, forall p, accepted M p (out p)} ->
  exists2 f : {poly F}, (size f <= Z.to_nat threshold)%N &
    {in H, forall p, ko_private_share (out p) = f.[Z_to_F (p + 1)] /\
                     ko_public_key (out p) = f.[0] *: g}.
Proof.
case: H => [//|p1 [//|p2 H]] _ H_uniq H_sub H_acc.
have entries q : q \in pl_participants l ->
    exists2 cp, ParticipantMap_get M q = Some cp & entry_ok threshold cp.
  have p1_in : p1 \in [:: p1, p2 & H] by rewrite mem_head.
  have p2_in : p2 \in [:: p1, p2 & H] by rewrite !in_cons eqxx orbT.
  move=> q_in; case: (eqVneq q p1) => [->|q_neq].
    apply: (acceptedP (H_sub _ p2_in) (H_acc _ p2_in)).1; rewrite othersE H_sub //=.
    by move: H_uniq; rewrite /= in_cons negb_or => /andP [/andP []].
  by apply: (acceptedP (H_sub _ p1_in) (H_acc _ p1_in)).1; rewrite othersE q_in.
have [f f_size f_eval] : exists2 f : {poly F}, (size f <= Z.to_nat threshold)%N &
    forall x, \sum_(q <- pl_participants l) geval (full_commitment threshold M q) x = f.[x] *: g.
  by apply: sum_geval_poly => q /entries [cp M_q entry_q]; exact: full_commitment_size M_q entry_q.
exists f => // p p_in; have [_ /(_ (entries _ (H_sub _ p_in))) []] :=
  acceptedP (H_sub _ p_in) (H_acc _ p_in).
by rewrite !f_eval => /scale_generator_inj.
Qed.
End Finished.

(** ** Reconstruction *)

(** There are at most [2^32] distinct participants. *)
Lemma uniq_NoDup (T : eqType) (s : seq T) : uniq s -> List.NoDup s.
Proof.
elim: s => [|x s IH] /=; first by constructor.
by case/andP => /InP x_notin /IH; constructor.
Qed.

Lemma bounded_count (N : nat) (ps : seq Z) :
  uniq ps -> (forall p, p \in ps -> Z.le 0 p /\ Z.lt p (Z.of_nat N)) -> (size ps <= N)%coq_nat.
Proof.
move=> /uniq_NoDup ps_nodup ps_range; rewrite -(List.length_seq N 0).
rewrite -(List.length_map Z.of_nat (List.seq 0 N)).
apply: (List.NoDup_incl_length ps_nodup) => p /InP /ps_range [p_ge p_lt].
by apply/List.in_map_iff; exists (Z.to_nat p); rewrite List.in_seq; split; lia.
Qed.

Lemma participants_count (ps : seq Participant) :
  uniq ps -> all is_participant ps -> Z.le (Z.of_nat (size ps)) (2 ^ 32).
Proof.
move=> ps_uniq ps_range; have [N N_def] : exists N, Z.of_nat N = (2 ^ 32)%Z.
  by exists (Z.to_nat (2 ^ 32)); rewrite Z2Nat.id.
rewrite -N_def; apply: (proj1 (Nat2Z.inj_le _ _)); apply: bounded_count => // p.
by move/(allP ps_range)/andP => [/Z.leb_le p_ge /Z.ltb_lt p_lt]; rewrite N_def.
Qed.

Lemma reconstruct (ps : seq Participant) (f : {poly F}) :
  uniq ps -> all is_participant ps -> (1 < size ps)%N -> (size f <= size ps)%N ->
  Polynomial_eval_interpolation (identifiers ps) [seq f.[x] | x <- identifiers ps] None = Ok f.[0].
Proof.
move=> ps_uniq ps_range ps_size f_size.
have ids_uniq : uniq (identifiers ps : seq F).
  by apply: identifiers_uniq => //; exact: uniq_NoDup.
rewrite eval_interpolationE ?size_map //; first exact: participants_count.
by congr Ok; apply/esym/lagrange_interpolation_at => //; rewrite size_map.
Qed.
End Sound.
