(* ===== verification/DkgHonest.v ===== *)
(** * Threshold signatures: honest key generation and resharing

    When every participant follows [do_keyshare] and the messages arrive, every
    run returns [Ok]; in a resharing of a consistently shared key the check
    against the old public key passes. *)

From Stdlib Require Import ZArith Lia String.
From mathcomp Require Import boot ssralg poly.
From S2P Require Import TsTypes TsParticipants Polynomials Interpolation.
From S2P Require Import Dkg DkgProofs.
Set Implicit Arguments.
Unset Strict Implicit.
Unset Printing Implicit Defensive.
Import GRing.Theory.
Local Open Scope ring_scope.
Local Open Scope ts_scope.

(** ** Maps that hold a value for everybody *)

Section Maps.
Context (T : Type) (l : ParticipantList).
Hypothesis l_ok : ParticipantList_ok l.

Definition put_all (f : Participant -> T) (m : ParticipantMap T) (ps : seq Participant) :
    ParticipantMap T :=
  foldl (fun m p => ParticipantMap_put m p (f p)) m ps.

Lemma put_allP f m ps :
  ParticipantMap_ok m -> pm_participants m = l -> uniq ps ->
  {subset ps <= pl_participants l} -> {in ps, forall p, ParticipantMap_get m p = None} ->
  [/\ ParticipantMap_ok (put_all f m ps), pm_participants (put_all f m ps) = l &
      forall q, ParticipantMap_get (put_all f m ps) q =
        if q \in ps then Some (f q) else ParticipantMap_get m q].
Proof.
elim: ps m => [//|p ps IH] m m_ok m_l /= /andP [p_notin ps_uniq] sub none.
have [ok1 [l1 get1]] := ParticipantMap_put_ok m p (f p) m_ok.
have get_put q : ParticipantMap_get (ParticipantMap_put m p (f p)) q =
    if q == p then Some (f p) else ParticipantMap_get m q.
  rewrite get1 -[Z.eqb q p]/(q == p) m_l containsE // sub ?mem_head // none ?mem_head //.
  by rewrite !andbT.
have [|q q_in|q q_in|ok2 l2 get2] := IH _ ok1 _ ps_uniq; rewrite ?l1 //.
- by apply: sub; rewrite in_cons q_in orbT.
- rewrite get_put; case: eqP => [eq_qp|_]; first by rewrite -eq_qp q_in in p_notin.
  by apply: none; rewrite in_cons q_in orbT.
split=> // q; rewrite get2 get_put in_cons; case: (eqVneq q p) => [->|//].
by rewrite (negPf p_notin).
Qed.

(** Everybody's value. *)
Definition map_of (f : Participant -> T) : ParticipantMap T :=
  put_all f (ParticipantMap_new l) (pl_participants l).

Lemma map_ofP f :
  [/\ ParticipantMap_ok (map_of f), pm_participants (map_of f) = l,
      {in pl_participants l, forall p, ParticipantMap_get (map_of f) p = Some (f p)} &
      ParticipantMap_into_vec_or_none (map_of f) = Some [seq f p | p <- pl_participants l]].
Proof.
have [new_ok new_get] := ParticipantMap_new_ok (T := T) _ l_ok.
have [m_ok m_l m_get] := put_allP f new_ok erefl (participants_uniq l_ok) (fun _ => id)
  (fun p _ => new_get p).
have in_get p : p \in pl_participants l -> ParticipantMap_get (map_of f) p = Some (f p).
  by move=> p_in; rewrite m_get p_in.
split=> //; have [p|v v_def] := ParticipantMap_all_full _ m_ok.
  by rewrite m_l => /InP /in_get ->.
rewrite v_def; congr Some; apply: (inj_map (fun x y => @Some_inj _ x y)).
rewrite -[LHS]/(List.map Some v) -(ParticipantMap_vec _ _ m_ok v_def) m_l -map_comp.
by apply/eq_in_map => p /in_get.
Qed.

End Maps.

(** The hashes of round 3. *)
Lemma keyshare_hashesP l me (h : Participant -> bytes) :
  ParticipantList_ok l -> me \in pl_participants l ->
  {in pl_participants l, forall p,
    ParticipantMap_get (keyshare_hashes l me (h me)
      [seq (q, h q) | q <- ParticipantList_others l me]) p = Some (h p)}.
Proof.
move=> l_ok me_in p p_in; rewrite /keyshare_hashes.
have [new_ok new_get] := ParticipantMap_new_ok (T := bytes) _ l_ok.
have [ok1 [l1 get1]] := ParticipantMap_put_ok _ me (h me) new_ok.
set m := ParticipantMap_put _ _ _ in ok1 l1 get1 *.
have -> : foldl (fun m q => ParticipantMap_put m q.1 q.2) m
    [seq (q, h q) | q <- ParticipantList_others l me] =
    put_all h m (ParticipantList_others l me).
  by elim: (ParticipantList_others l me) m {ok1 l1 get1} => //= q qs IH m; exact: IH.
have [|q q_in|_ _ ->] := put_allP l_ok h ok1 l1 (others_uniq me l_ok).
- by move=> q; rewrite othersE => /andP [].
- move: q_in; rewrite othersE get1 !new_get -[Z.eqb q me]/(q == me) => /andP [_ /negPf ->].
  by [].
rewrite othersE p_in get1 !new_get -[Z.eqb p me]/(p == me) containsE // me_in.
by case: eqP => [->|].
Qed.

Lemma rmap_all (E B : Type) (A : eqType) (f : A -> result E B) (h : A -> B) s :
  {in s, forall x, f x = Ok (h x)} -> rmap f s = Ok [seq h x | x <- s].
Proof.
elim: s => [//|x s IH] f_ok /=; rewrite f_ok ?mem_head //= IH // => y y_in.
by apply: f_ok; rewrite in_cons y_in orbT.
Qed.

(** When every other participant sends one message, all are returned. *)
Lemma recv_loop_all T (f : Participant -> T) ps seen :
  ParticipantCounter_ok seen -> uniq ps ->
  (forall q, (q \in ps) =
    (q \in pl_participants (pc_participants seen)) && ~~ ParticipantCounter_has seen q) ->
  recv_loop seen [seq (q, f q) | q <- ps] = Some [seq (q, f q) | q <- ps].
Proof.
elim: ps seen => [|p ps IH] seen seen_ok /=.
  move=> _ all_seen; case: ifP => // /negbT /negP; case; apply/(ParticipantCounter_full_spec _ seen_ok).
  by move=> q /InP q_in; move: (all_seen q); rewrite in_nil q_in => /esym/negbFE.
case/andP => p_notin ps_uniq mem; have := mem p; rewrite mem_head => /esym/andP [p_in p_new].
case: ifP => [/(ParticipantCounter_full_spec _ seen_ok)/(_ p)|_].
  by rewrite (negPf p_new) => /(_ (InP _ _ p_in)).
case E: (ParticipantCounter_put seen p) => [seen' b].
have [ok' [eq_l [b_def has']]] := ParticipantCounter_put_ok _ _ _ _ seen_ok E.
have l_ok : ParticipantList_ok (pc_participants seen) by case: seen_ok.
rewrite containsE // in b_def has'; rewrite b_def p_in p_new /= IH // => q.
rewrite has' eq_l p_in andbT -[Z.eqb q p]/(q == p); have := mem q; rewrite in_cons.
by case: eqP => [->|_] /=; rewrite ?andbF // (negPf p_notin).
Qed.

Lemma recv_from_others_all T (f : Participant -> T) l me :
  ParticipantList_ok l -> me \in pl_participants l ->
  recv_from_others l me [seq (q, f q) | q <- ParticipantList_others l me] =
  Some [seq (q, f q) | q <- ParticipantList_others l me].
Proof.
move=> l_ok me_in; rewrite /recv_from_others.
have [new_ok new_has] := ParticipantCounter_new_ok _ l_ok.
case E: (ParticipantCounter_put _ me) => [seen b] /=.
have [seen_ok [eq_l [_ has']]] := ParticipantCounter_put_ok _ _ _ _ new_ok E.
apply: recv_loop_all => //; first exact: others_uniq.
move=> q; rewrite has' eq_l new_has orbF containsE // othersE -[Z.eqb q me]/(q == me).
by rewrite /= me_in andbT.
Qed.

(** ** Honest rounds *)

Section Honest.
Context {F : fieldType} {G : lmodType F} {C : Ciphersuite G} {D : DkgSuite C}.
Context {L : CiphersuiteLaws C} {DL : DkgSuiteLaws D}.
Abbreviation g := (cs_generator : G).

Lemma proof_of_knowledge_separator sid d me (p : @Polynomial F) c rng proof d' rng' :
  proof_of_knowledge sid d me p c rng = Ok (proof, d', rng') -> d' = (d + 1)%Z.
Proof.
rewrite /proof_of_knowledge; case: Participant_scalar => //= id.
case: PolynomialCommitment_eval_at_zero => //= vk.
case: dk_generate_nonce => -[k big_r] rng1; rewrite /challenge.
case: dk_serialize_element => //= ?; case: dk_serialize_element => //= ?.
case: dk_HDKG => //= ?.
by case: Polynomial_eval_at_zero => //= ? [_ <-].
Qed.

(** The proof of knowledge of an honest party verifies. *)
Lemma proof_of_knowledge_verifies sid d me p rng proof d' rng' :
  is_participant me -> Polynomial_ok p -> (to_poly p).[0] != 0 ->
  proof_of_knowledge sid d me p (mkPolynomialCommitment [seq c *: g | c <- poly_coefficients p]) rng =
    Ok (proof, d', rng') ->
  internal_verify_proof_of_knowledge sid d me [seq c *: g | c <- poly_coefficients p] proof = Ok tt.
Proof.
move=> me_ok p_ok p0; rewrite /proof_of_knowledge /internal_verify_proof_of_knowledge.
rewrite Participant_scalarE //= Polynomial_eval_at_zeroE //.
rewrite /PolynomialCommitment_eval_at_zero /=.
have -> : ohead [seq c *: g | c <- poly_coefficients p] = Some ((to_poly p).[0] *: g).
  have := Polynomial_eval_at_zeroE p_ok; rewrite /Polynomial_eval_at_zero.
  by case: (poly_coefficients p) => //= a s [->].
have := @dk_nonceE _ _ _ _ DL rng.
case: (dk_generate_nonce rng) => -[k big_r] rng1 /= ->.
case E: (challenge _ _ _ _ _) => [[c d1]|//|//] /= [<- _ _] /=; rewrite E /=.
by rewrite scalerDl scalerA [c * _]mulrC addrK eqxx.
Qed.

(** What an honest party sends in rounds 2 and 3. *)
Lemma keyshare_round2_sent me threshold secret old session_ids rng r2 :
  is_participant me -> Z.le 1 threshold -> 
  keyshare_round2 me threshold secret old session_ids rng = Ok r2 ->
  [/\ hash (0%Z, HashSessionIds session_ids) = Ok (r2_session_id r2),
      r2_proof_domain_separator r2 = 1%Z, r2_commit_domain_separator r2 = 2%Z,
      hash (2%Z, HashCommitment me (r2_commitment r2) (r2_session_id r2)) =
        Ok (r2_commitment_hash r2) &
      secret != 0 -> forall proof, r2_proof_of_knowledge r2 = Some proof ->
        internal_verify_proof_of_knowledge (r2_session_id r2) 1 me (r2_commitment r2) proof = Ok tt].
Proof.
move=> me_ok thr_ge R; have [p_ok p0 _ cE _] := keyshare_round2P thr_ge R.
move: R p_ok p0 cE; rewrite /keyshare_round2 /=.
case: (hash (0%Z, _)) => [sid|//|//] /=; case: (checked_sub _ _) => [degree|//] /=.
case: (Polynomial_generate_polynomial _ _ _) => [[p rng1]|//|//] /=.
case K: (generate_coefficient_commitment p) => [c|//|//] /=.
set proof := (X in rbind X); case P: proof => [[pf d]|//|//] /=.
case H: (hash _) => [h|//|//] /= [<-] /= p_ok p0 cE.
have d2 : d = 2%Z.
  move: P; rewrite /proof; case: ifP => _; last by case=> _ <-.
  by case Q: (proof_of_knowledge _ _ _ _ _ _) => [[[q d1] r1]|//|//] /= [_ <-];
    rewrite (proof_of_knowledge_separator Q).
split=> //; first by rewrite -d2.
move=> secretN0 q pfE; move: P; rewrite /proof pfE.
case: ifP => _; last by case.
case Q: (proof_of_knowledge _ _ _ _ _ _) => [[[q' d1] r1]|//|//] /= [<- _].
move: K Q; rewrite generate_coefficient_commitmentE // p0 (negPf secretN0) => -[<-] /= Q.
by apply: proof_of_knowledge_verifies Q; rewrite ?p0.
Qed.

Lemma keyshare_collect_all (check : Participant -> result ProtocolError (seq G)) f ps m :
  {in ps, forall p, check p = Ok (f p)} ->
  keyshare_collect check ps m = Ok (put_all f m ps).
Proof.
elim: ps m => [//|p ps IH] m check_ok /=; rewrite check_ok ?mem_head //= IH // => q q_in.
by apply: check_ok; rewrite in_cons q_in orbT.
Qed.

Lemma keyshare_sum_all me full (f : Participant -> F) ps acc :
  is_participant me ->
  {in ps, forall p, exists2 c, ParticipantMap_get full p = Some c &
    c != [::] /\ f p *: g = geval c (Z_to_F (me + 1))} ->
  keyshare_sum me full [seq (p, f p) | p <- ps] acc = Ok (acc + \sum_(p <- ps) f p).
Proof.
move=> me_ok; elim: ps acc => [|p ps IH] acc valid /=; first by rewrite big_nil addr0.
have [|c get_c [cN0 valid_c]] := valid p; first by rewrite mem_head.
rewrite (proj2 (ParticipantMap_index_get _ _ _) get_c) /=.
rewrite (proj2 (validate_received_shareP p (f p) me_ok cN0) valid_c) /=.
rewrite IH => [q q_in|]; first by apply: valid; rewrite in_cons q_in orbT.
by rewrite big_cons addrA.
Qed.

(** ** Honest runs *)

Section Run.
Context (l : ParticipantList) (threshold : Z).
Context (secret : Participant -> F) (package : option (G * ParticipantList)).
Context (rng : Participant -> cs_rng) (r2 : Participant -> @Round2 F G).

(** The old participants that [assert_keyshare_inputs] passes on. *)
Definition package_participants : option ParticipantList :=
  if package is Some (_, old) then Some old else None.

Definition honest_session_ids : ParticipantMap bytes :=
  map_of l (fun p => (dk_fill_bytes (rng p)).1).

(** The share that [q] sends to [p]. *)
Definition honest_share (p q : Participant) : F :=
  if Polynomial_eval_at_participant (r2_secret_coefficients (r2 q)) p is Ok s then s else 0.

(** What arrives at [p] when everybody follows the protocol. *)
Definition honest_received (p : Participant) : @Received F G := {|
  rc_session_ids := Ok honest_session_ids;
  rc_hashes := [seq (q, r2_commitment_hash (r2 q)) | q <- ParticipantList_others l p];
  rc_commitments := Ok (map_of l (fun q => (r2_commitment (r2 q), r2_proof_of_knowledge (r2 q))));
  rc_shares := [seq (q, honest_share p q) | q <- ParticipantList_others l p];
  rc_votes := Ok (map_of l (fun q => (true, r2_session_id (r2 q))));
|}.

(** Everybody passes the input checks and finishes round 2 with a polynomial of
    full degree (a random leading coefficient is zero with negligible
    probability). *)
Definition honest_start (p : Participant) : Prop :=
  [/\ exists r, assert_keyshare_inputs p (secret p) package = Ok r,
      keyshare_round2 p threshold (secret p) package_participants honest_session_ids
        (dk_fill_bytes (rng p)).2 = Ok (r2 p) &
      Z.of_nat (size (poly_coefficients (r2_secret_coefficients (r2 p)))) = threshold].

Hypothesis l_ok : ParticipantList_ok l.
Hypothesis l_range : all is_participant (pl_participants l).
Hypothesis threshold_ge : Z.le 2 threshold.
Hypothesis start : {in pl_participants l, forall p, honest_start p}.
Abbreviation M := (map_of l (fun q => (r2_commitment (r2 q), r2_proof_of_knowledge (r2 q)))).

Lemma honest_inputs p : p \in pl_participants l ->
  assert_keyshare_inputs p (secret p) package =
    Ok (if package is Some (vk, _) then Some vk else None, package_participants) /\
  isSome (r2_proof_of_knowledge (r2 p)) = (secret p != 0).
Proof.
move=> /start [[[vk old] inputs] R _].
have thr1 : Z.le 1 threshold by lia.
have [_ _ _ _ ->] := keyshare_round2P thr1 R.
have := assert_keyshare_inputs_proof inputs; rewrite inputs => <-.
move: inputs; rewrite /assert_keyshare_inputs /package_participants.
case: package => [[vk0 old0]|]; case: eqP => _ //; last by case=> <- <-.
- by case E: ParticipantList_contains => //= -[<- <-].
- by case E: ParticipantList_contains => //= -[<- <-].
Qed.

Lemma honest_poly p : p \in pl_participants l ->
  Polynomial_ok (r2_secret_coefficients (r2 p)) /\
  (to_poly (r2_secret_coefficients (r2 p))).[0] = secret p.
Proof.
move=> /start [_ R _]; have thr1 : Z.le 1 threshold by lia.
by have [] := keyshare_round2P thr1 R.
Qed.

Lemma honest_entry p : p \in pl_participants l ->
  entry_ok threshold (r2_commitment (r2 p), r2_proof_of_knowledge (r2 p)).
Proof.
move=> p_in; have [_ proofE] := honest_inputs p_in; have [_ R size_p] := start p_in.
have thr1 : Z.le 1 threshold by lia.
have [_ _ _ cE _] := keyshare_round2P thr1 R.
rewrite /entry_ok /= proofE cE size_map; case: eqP => //= _.
by rewrite size_behead; lia.
Qed.

(** The full commitments are the committed secret polynomials. *)
Lemma honest_full q x : q \in pl_participants l ->
  size (full_commitment threshold M q) = Z.to_nat threshold /\
  geval (full_commitment threshold M q) x = (to_poly (r2_secret_coefficients (r2 q))).[x] *: g.
Proof.
move=> q_in; have [_ _ M_get _] := map_ofP l_ok
  (fun q => (r2_commitment (r2 q), r2_proof_of_knowledge (r2 q))).
have M_q := M_get q q_in; have entry_q := honest_entry q_in; split.
  exact: (full_commitment_size threshold_ge M_q entry_q).
rewrite /full_commitment M_q; have [inputs _] := honest_inputs q_in; have [_ R _] := start q_in.
apply: (own_commitment (me := q) (secret := secret q) (package := package) (rng := rng q)
  (rc := honest_received q)) => //.
by rewrite /keyshare_sends inputs.
Qed.

Lemma honest_share_eval p q : p \in pl_participants l -> q \in pl_participants l ->
  honest_share p q = (to_poly (r2_secret_coefficients (r2 q))).[Z_to_F (p + 1)].
Proof.
move=> p_in q_in; have [q_ok _] := honest_poly q_in.
rewrite /honest_share /Polynomial_eval_at_participant Participant_scalarE ?(allP l_range) //=.
by rewrite Polynomial_eval_at_pointE.
Qed.

Lemma honest_same_session p q : p \in pl_participants l -> q \in pl_participants l ->
  r2_session_id (r2 p) = r2_session_id (r2 q).
Proof.
move=> p_in q_in; have thr1 : Z.le 1 threshold by lia.
have [_ Rp _] := start p_in; have [_ Rq _] := start q_in.
have [Hp _ _ _ _] := keyshare_round2_sent (allP l_range _ p_in) thr1 Rp.
have [Hq _ _ _ _] := keyshare_round2_sent (allP l_range _ q_in) thr1 Rq.
by move: Hp; rewrite Hq => -[].
Qed.

(** Every check of another honest participant passes. *)
Lemma honest_check me q hashes :
  me \in pl_participants l -> q \in pl_participants l ->
  ParticipantMap_get hashes q = Some (r2_commitment_hash (r2 q)) ->
  keyshare_check threshold package_participants (r2 me) hashes M q =
  Ok (full_commitment threshold M q).
Proof.
move=> me_in q_in hash_q; have thr1 : Z.le 1 threshold by lia.
have [_ _ M_get _] := map_ofP l_ok
  (fun q => (r2_commitment (r2 q), r2_proof_of_knowledge (r2 q))).
have M_q := M_get q q_in; have [_ Rq _] := start q_in; have [_ Rme _] := start me_in.
have [_ _ _ hashE verify] := keyshare_round2_sent (allP l_range _ q_in) thr1 Rq.
have [_ pds cds _ _] := keyshare_round2_sent (allP l_range _ me_in) thr1 Rme.
have [_ _ _ _ proofE] := keyshare_round2P thr1 Rq.
have [_ secretE] := honest_inputs q_in; have := honest_entry q_in; rewrite /entry_ok /=.
rewrite /keyshare_check (proj2 (ParticipantMap_index_get _ _ _) M_q) /= pds cds => size_q.
rewrite /verify_commitment_hash (proj2 (ParticipantMap_index_get _ _ _) hash_q) /=.
rewrite (honest_same_session me_in q_in) hashE /= eqxx /full_commitment M_q.
suff -> : verify_proof_of_knowledge (D := D) (r2_session_id (r2 q)) 1 threshold q package_participants
  (r2_commitment (r2 q)) (r2_proof_of_knowledge (r2 q)) = Ok tt by [].
rewrite /verify_proof_of_knowledge; move: proofE secretE verify size_q.
case: (r2_proof_of_knowledge (r2 q)) => [pf|].
- move=> contains /esym secretN0 /(_ secretN0 pf erefl) -> ->; rewrite Z.eqb_refl.
  by case: package_participants contains => // old <-.
- move=> contains _ _ ->; rewrite Z.eqb_refl.
  by case: package_participants contains => // old <-.
Qed.

Lemma honest_public_key me : me \in pl_participants l ->
  public_key_from_commitments [seq full_commitment threshold M q | q <- pl_participants l] =
  Ok ((\sum_(q <- pl_participants l) secret q) *: g).
Proof.
move=> me_in; rewrite (public_key_from_commitmentsE (n := Z.to_nat threshold)).
- by apply/ltP; lia.
- by case: (pl_participants l) me_in.
- by apply/allP => c /mapP [q q_in ->]; have [-> _] := honest_full 0 q_in.
rewrite big_map scaler_suml; congr Ok; apply: eq_big_seq => q q_in.
by have [_ ->] := honest_full 0 q_in; have [_ ->] := honest_poly q_in.
Qed.

Lemma honest_round4 me : me \in pl_participants l ->
  (forall vk old, package = Some (vk, old) -> vk = (\sum_(q <- pl_participants l) secret q) *: g) ->
  exists2 full, keyshare_round4 l me threshold
      (if package is Some (vk, _) then Some vk else None) package_participants (r2 me)
      (keyshare_hashes l me (r2_commitment_hash (r2 me))
         [seq (q, r2_commitment_hash (r2 q)) | q <- ParticipantList_others l me]) M =
      Ok (full, (\sum_(q <- pl_participants l) secret q) *: g) &
    {in pl_participants l, forall q,
      ParticipantMap_get full q = Some (full_commitment threshold M q)}.
Proof.
move=> me_in old_vk; set hashes := keyshare_hashes _ _ _ _.
have [_ _ M_get _] := map_ofP l_ok
  (fun q => (r2_commitment (r2 q), r2_proof_of_knowledge (r2 q))).
have hash_get := keyshare_hashesP (fun q => r2_commitment_hash (r2 q)) l_ok me_in.
have collect : keyshare_collect (keyshare_check threshold package_participants (r2 me) hashes M)
    (ParticipantList_others l me) (ParticipantMap_put (ParticipantMap_new l) me
      (insert_identity_if_missing threshold (r2_commitment (r2 me)))) =
    Ok (put_all (full_commitment threshold M) (ParticipantMap_put (ParticipantMap_new l) me
      (insert_identity_if_missing threshold (r2_commitment (r2 me)))) (ParticipantList_others l me)).
  apply: keyshare_collect_all => q; rewrite othersE => /andP [q_in _].
  exact: honest_check (hash_get q q_in).
have [full_ok full_l _ full_get] := keyshare_full l_ok threshold_ge me_in (M_get _ me_in) collect.
rewrite /keyshare_round4 collect /=; set full := put_all _ _ _ in full_ok full_l full_get *.
have [|v v_def] := ParticipantMap_all_full _ full_ok.
  by move=> q; rewrite full_l => /InP /full_get ->.
have vE : [seq full_commitment threshold M q | q <- pl_participants l] = v.
  apply: (inj_map (fun x y => @Some_inj _ x y)); rewrite -[RHS]/(List.map Some v).
  rewrite -(ParticipantMap_vec _ _ full_ok v_def) full_l -map_comp.
  by apply/esym/eq_in_map => q /full_get.
exists full => //; rewrite v_def /= -vE (honest_public_key me_in) /=.
by case: package old_vk => [[vk old]|//] /(_ vk old erefl) ->; rewrite eqxx.
Qed.

Lemma honest_eval p q : p \in pl_participants l -> q \in pl_participants l ->
  Polynomial_eval_at_participant (r2_secret_coefficients (r2 q)) p = Ok (honest_share p q).
Proof.
move=> p_in q_in; have [q_ok _] := honest_poly q_in; rewrite honest_share_eval //.
rewrite /Polynomial_eval_at_participant Participant_scalarE ?(allP l_range) //=.
by rewrite Polynomial_eval_at_pointE.
Qed.

Lemma honest_shares_sent me : me \in pl_participants l ->
  keyshare_shares l me (r2_secret_coefficients (r2 me)) =
  Ok [seq (p, honest_share p me) | p <- ParticipantList_others l me].
Proof.
move=> me_in; apply: rmap_all => p; rewrite othersE => /andP [p_in _].
by rewrite honest_eval.
Qed.

(** Every run of an honest execution returns the sum of the shares and the public
    key of the sum of the secrets. *)
Lemma honest_run me : me \in pl_participants l ->
  (forall vk old, package = Some (vk, old) -> vk = (\sum_(q <- pl_participants l) secret q) *: g) ->
  do_keyshare l me threshold (secret me) package (rng me) (honest_received me) =
  Some (Ok (mkKeygenOutput (\sum_(q <- pl_participants l) honest_share me q)
              ((\sum_(q <- pl_participants l) secret q) *: g))).
Proof.
move=> me_in old_vk; have [inputs _] := honest_inputs me_in; have [_ R _] := start me_in.
have [full R4 full_get] := honest_round4 me_in old_vk.
rewrite /do_keyshare inputs /=; case: (dk_fill_bytes (rng me)) R => sid rng1 /= -> /=.
rewrite /recv_await recv_from_others_all //= R4 /= honest_shares_sent //=.
rewrite honest_eval // recv_from_others_all //= keyshare_sum_all ?(allP l_range) //= => [q|].
  rewrite othersE => /andP [q_in _]; exists (full_commitment threshold M q); first exact: full_get.
  have [size_q ->] := honest_full (Z_to_F (me + 1)) q_in; rewrite honest_share_eval //; split=> //.
  by rewrite -size_eq0 size_q; apply/eqP; lia.
have [_ _ _ votes] := map_ofP l_ok (fun q => (true, r2_session_id (r2 q))).
rewrite /broadcast_success votes /= !all_map /=.
have -> : all (preim (fun q => (true, r2_session_id (r2 q))) (fun v => v.2 == r2_session_id (r2 me)))
    (pl_participants l).
  by apply/allP => q q_in /=; rewrite (honest_same_session q_in me_in).
rewrite all_predT /= (perm_big _ (perm_others l_ok me_in)) big_cons.
by rewrite (perm_big _ (perm_others l_ok me_in)) [in RHS]big_cons.
Qed.

(** The polynomial everybody ends up with a share of. *)
Definition honest_poly_sum : {poly F} :=
  \sum_(q <- pl_participants l) to_poly (r2_secret_coefficients (r2 q)).

Lemma honest_poly_sumP :
  [/\ (size honest_poly_sum <= Z.to_nat threshold)%N,
      honest_poly_sum.[0] = \sum_(q <- pl_participants l) secret q &
      {in pl_participants l, forall p,
        \sum_(q <- pl_participants l) honest_share p q = honest_poly_sum.[Z_to_F (p + 1)]}].
Proof.
split.
- apply/(leq_trans (size_sum _ _ _))/bigmax_leqP_seq => q q_in _.
  have [q_ok _] := honest_poly q_in; have [_ _ size_q] := start q_in.
  by rewrite -(Polynomial_ok_polyseq q_ok) -size_q Nat2Z.id.
- by rewrite horner_sum; apply: eq_big_seq => q /honest_poly [].
- by move=> p p_in; rewrite horner_sum; apply: eq_big_seq => q q_in; rewrite honest_share_eval.
Qed.
End Run.

(** ** Resharing *)

Section Reshare.
Context (l old : ParticipantList) (fo : {poly F}) (intersection : ParticipantList).
Hypothesis l_ok : ParticipantList_ok l.
Hypothesis l_range : all is_participant (pl_participants l).
Hypothesis old_ok : ParticipantList_ok old.
Hypothesis inter : ParticipantList_intersection (E := ProtocolError) old l = Ok intersection.
Hypothesis inter_size : (1 < size (pl_participants intersection))%N.
Hypothesis fo_size : (size fo <= size (pl_participants intersection))%N.

(** The share an old participant holds of the old key. *)
Definition old_share (p : Participant) : option F :=
  if p \in pl_participants old then Some fo.[Z_to_F (p + 1)] else None.

Lemma intersectionP :
  [/\ uniq (pl_participants intersection), all is_participant (pl_participants intersection) &
      forall p, (p \in pl_participants intersection) =
        (p \in pl_participants old) && (p \in pl_participants l)].
Proof.
have [r [r_def [r_ok r_parts]]] := ParticipantList_intersection_ok (E := ProtocolError) old l old_ok l_ok.
have mem p : (p \in pl_participants intersection) =
    (p \in pl_participants old) && (p \in pl_participants l).
  move: inter; rewrite r_def => -[<-]; rewrite r_parts -(containsE p l_ok).
  by apply/InP/andP => [/List.filter_In [/InP -> ->] //|[/InP ? ?]]; apply/List.filter_In.
split=> //; first by move: inter; rewrite r_def => -[<-]; exact: participants_uniq.
by apply/allP => p; rewrite mem => /andP [_ /(allP l_range)].
Qed.

(** What a participant contributes. *)
Lemma reshare_secretE p : p \in pl_participants l ->
  reshare_secret l p (old_share p) old =
  Ok (if p \in pl_participants old
      then lagrange_basis (identifiers (pl_participants intersection)) (Z_to_F (p + 1)) 0 *
           fo.[Z_to_F (p + 1)]
      else 0).
Proof.
move=> p_in; have [_ i_range i_mem] := intersectionP.
rewrite /reshare_secret inter /= /old_share; case: ifP => // p_old.
rewrite ParticipantList_lagrangeE ?(allP l_range) //.
by apply: map_f; rewrite i_mem p_old.
Qed.

Lemma reshare_secret_sum :
  \sum_(p <- pl_participants l) (if p \in pl_participants old
     then lagrange_basis (identifiers (pl_participants intersection)) (Z_to_F (p + 1)) 0 *
          fo.[Z_to_F (p + 1)]
     else 0) = fo.[0].
Proof.
have [i_uniq i_range i_mem] := intersectionP; rewrite -big_mkcond /= -big_filter.
rewrite (@lagrange_interpolation_at _ (identifiers (pl_participants intersection)) fo 0);
  rewrite ?size_map //; first exact: identifiers_uniq (uniq_NoDup i_uniq).
rewrite big_map; apply: perm_big; apply: uniq_perm => //.
  by rewrite filter_uniq // participants_uniq.
by move=> p; rewrite mem_filter i_mem.
Qed.
End Reshare.
End Honest.
