(* ===== verification/DkgTheorems.v ===== *)
(** * Threshold signatures: the guarantees of key generation, with examples

    The theorems about polynomials, key generation and resharing, each run on the
    ciphersuite of [Interpolation] with concrete hash functions. *)

From Stdlib Require Import ZArith Lia String.
From mathcomp Require Import boot ssralg poly ssrnum rat.
From S2P Require Import TsTypes TsParticipants Polynomials Interpolation.
From S2P Require Import Dkg DkgProofs DkgHonest.
Set Implicit Arguments.
Unset Strict Implicit.
Unset Printing Implicit Defensive.
Import GRing.Theory.
Local Open Scope ring_scope.
Local Open Scope ts_scope.

(** ** A concrete suite *)

#[export] Instance sample_dkg : DkgSuite sample_suite := {|
  dk_sha256 b := b;
  dk_msgpack v := Some (if v.2 is HashCommitment p c sid then v.1 :: p :: sid else [:: v.1]);
  dk_serialize_scalar x := [:: 1%Z];
  dk_serialize_element e := if e == 0 then None else Some [:: 2%Z];
  dk_HDKG b := Some (size b)%:R;
  dk_generate_nonce n := ((n.+2%:R, n.+2%:R *: (1 : rat^o)), n.+1);
  dk_fill_bytes n := (nseq 32 (Z.of_nat n), n.+1);
  dk_signing_key n := (n.+2%:R, n.+1);
  dk_identifier x := if x == 0 then None else Some x;
  dk_share_verify id share c :=
    if share *: (1 : rat^o) == geval c id then VerifyOk else VerifyInvalidSecretShare;
  dk_sum_commitments cs :=
    if cs is c :: _ then
      if all (fun d => size d == size c) cs
      then Some (mkseq (fun i => foldr (fun d acc => d`_i + acc) 0 cs) (size c))
      else None
    else None;
  dk_from_commitment c := ohead c;
|}.

#[export] Instance sample_dkg_laws : DkgSuiteLaws sample_dkg.
Proof.
split=> //.
- by move=> x /negPf /= ->.
- by move=> id share c _ /=; case: eqP.
- move=> n [//|c cs] _ cs_size /=; move: (cs_size) => /= /andP [/eqP size_c all_cs].
  rewrite size_c eqxx all_cs; congr Some; apply: eq_mkseq => i.
  by rewrite big_cons; elim: cs {cs_size all_cs} (c`_i) => [|d cs IH] a /=;
    rewrite ?big_nil // big_cons IH.
- by move=> e; exists e; rewrite /= /GRing.scale /= mulr1.
Qed.

Definition ex_list : ParticipantList :=
  if ParticipantList_new [:: 7; 2; 5]%Z is Some l then l else mkParticipantList [::] [::].

Definition ex_secret (p : Participant) : rat := Z_to_F (p + 10).
Definition ex_rng (p : Participant) : @cs_rng rat _ sample_suite := Z.to_nat p.

Definition ex_r2 (p : Participant) : @Round2 rat rat^o :=
  if keyshare_round2 p 2 (ex_secret p) None (honest_session_ids ex_list ex_rng)
       (dk_fill_bytes (ex_rng p)).2 is Ok r then r
  else mkRound2 [::] (mkPolynomial [::]) [::] None 0 0 [::].

(** ** Polynomials *)

Section Theorems.
Context {F : fieldType} {G : lmodType F} {C : Ciphersuite G} {D : DkgSuite C}.
Context {L : CiphersuiteLaws C} {DL : DkgSuiteLaws D}.

(** The batched computation of Lagrange coefficients, which inverts once,
    returns what one call of [compute_lagrange_coefficient] per node returns, for
    distinct nodes and any point, the point zero ([None]) included. *)
Theorem batch_matches_single (xs : seq F) (x : option F) :
  uniq xs -> (1 < size xs)%N -> Z.le (Z.of_nat (size xs)) (2 ^ 32) ->
  batch_compute_lagrange_coefficients xs x =
  rmap (fun x_i => compute_lagrange_coefficient xs x_i x) xs.
Proof.
move=> xs_uniq xs_size xs_le; rewrite batch_lagrangeE //; apply/esym/rmap_all => xi xi_in.
by rewrite compute_lagrange_coefficientE xs_size xi_in.
Qed.

(** Interpolation recovers a polynomial from its values at enough distinct
    points: [eval_interpolation] of the values is [eval_at_point], and
    [eval_exponent_interpolation] of the committed values is the value of the
    commitment. *)
Theorem interpolation_recovers (p : @Polynomial F) (xs shares : seq F) (x : F) :
  Polynomial_ok p -> uniq xs -> (1 < size xs)%N -> Z.le (Z.of_nat (size xs)) (2 ^ 32) ->
  (size (poly_coefficients p) <= size xs)%N ->
  rmap (Polynomial_eval_at_point p) xs = Ok shares ->
  Polynomial_eval_interpolation xs shares (Some x) = Polynomial_eval_at_point p x /\
  Polynomial_eval_interpolation xs shares None = Polynomial_eval_at_zero p /\
  PolynomialCommitment_eval_exponent_interpolation xs
    [seq s *: (cs_generator : G) | s <- shares] (Some x) =
  let* c := Polynomial_commit_polynomial p in PolynomialCommitment_eval_at_point c x.
Proof.
move=> p_ok xs_uniq xs_size xs_le p_size.
have -> : rmap (Polynomial_eval_at_point p) xs = Ok [seq (to_poly p).[y] | y <- xs].
  by apply: rmap_all => y _; exact: Polynomial_eval_at_pointE.
case=> <-; have q_size : (size (to_poly p) <= size xs)%N by rewrite -Polynomial_ok_polyseq.
rewrite !eval_interpolationE // Polynomial_eval_at_pointE // Polynomial_eval_at_zeroE //.
rewrite -!lagrange_interpolation_at //; split=> //; split=> //.
rewrite -map_comp (eval_exponent_interpolationE (fun y => (to_poly p).[y] *: cs_generator)) //.
rewrite Polynomial_commit_polynomialE //= PolynomialCommitment_eval_at_pointE.
- move: (p_ok); rewrite /PolynomialCommitment_ok /Polynomial_ok /=.
  case/lastP: (poly_coefficients p) => [|s a]; first by rewrite eqxx.
  by rewrite map_rcons !last_rcons scaler_eq0 negb_or => ->; exact: cs_generator_neq0.
rewrite geval_commit -/(to_poly p) (lagrange_interpolation_at x xs_uniq q_size) scaler_suml.
by congr Ok; apply: eq_bigr => y _; rewrite /= scalerA.
Qed.

(** The constructors of [Polynomial] only build values with a non-zero
    leading coefficient, whatever vector, secret or random numbers they get. *)
Theorem polynomials_well_formed :
  (forall s p, Polynomial_new s = Ok p -> Polynomial_ok (F := F) p) /\
  (forall secret degree rng p rng', Z.le 0 degree ->
    Polynomial_generate_polynomial secret degree rng = Ok (p, rng') ->
    Polynomial_ok p /\ (size (poly_coefficients p) <= (Z.to_nat degree).+1)%N) /\
  (forall (p q : @Polynomial F) v, Polynomial_ok p -> Polynomial_set_nonzero_constant p v = Ok q -> Polynomial_ok q) /\
  (forall p : @Polynomial F, Polynomial_ok p ->
    exists2 q, Polynomial_extend_with_zero p = Ok q & Polynomial_ok q) /\
  (forall p : @Polynomial F, Polynomial_ok p -> exists c, Polynomial_commit_polynomial p = Ok c).
Proof.
split; first by move=> s p /Polynomial_new_ok [].
split.
  move=> [secret|] degree rng p rng' deg_ge.
    by case/(Polynomial_generate_polynomial_ok deg_ge).
  rewrite /Polynomial_generate_polynomial; case R: (cs_random rng) => [secret rng1].
  move=> E; have : Polynomial_generate_polynomial (Some secret) degree rng1 = Ok (p, rng') by [].
  by case/(Polynomial_generate_polynomial_ok deg_ge).
split; first by move=> p q v p_ok /(Polynomial_set_nonzero_constant_ok p_ok) [].
split; first by move=> p /Polynomial_extend_with_zero_ok [q E [q_ok _]]; exists q.
by move=> p /Polynomial_commit_polynomialE ->; eexists.
Qed.

(** ** Key generation *)

(** C12: let a threshold of participants finish [do_keyshare] with the same
    broadcast commitments, in which their own entries are what they sent; the
    others may send anything.  Then their shares are values of one polynomial
    with at most [threshold] coefficients, they output the same public key, it
    commits to the value of that polynomial at zero, and interpolating the
    shares yields this secret. *)
Theorem keygen_shares_one_key (l : ParticipantList) (threshold : Z)
    (M : ParticipantMap (seq G * option (Signature G))) (H : seq Participant)
    (out : Participant -> @KeygenOutput F G) :
  ParticipantList_ok l -> all is_participant (pl_participants l) -> Z.le 2 threshold ->
  (Z.to_nat threshold <= size H)%N -> uniq H -> {subset H <= pl_participants l} ->
  {in H, forall p, accepted l threshold M p (out p)} ->
  exists f : {poly F},
  [/\ (size f <= Z.to_nat threshold)%N,
      {in H, forall p, ko_private_share (out p) = f.[Z_to_F (p + 1)] /\
                       ko_public_key (out p) = f.[0] *: cs_generator} &
      Polynomial_eval_interpolation (identifiers H) [seq ko_private_share (out p) | p <- H] None =
        Ok f.[0]].
Proof.
move=> l_ok l_range thr_ge H_size H_uniq H_sub acc.
have H_gt : (1 < size H)%N by apply: leq_trans H_size; apply/ltP; lia.
have [f f_size f_eval] := accepted_polynomial l_ok l_range thr_ge H_gt H_uniq H_sub acc.
exists f; split=> //; have -> : [seq ko_private_share (out p) | p <- H] =
    [seq f.[x] | x <- identifiers H].
  by rewrite -map_comp; apply/eq_in_map => p /f_eval [].
apply: reconstruct => //; last exact: leq_trans H_size.
by apply/allP => p /H_sub; exact: (allP l_range).
Qed.

(** C22: when all participants follow the protocol, the second round of each
    succeeds with a polynomial of full degree, and their messages arrive, every run of [do_keyshare] returns [Ok]: a share of one polynomial, and the
    public key of the sum of the secrets. *)
Theorem honest_keygen_finishes (l : ParticipantList) (threshold : Z)
    (secret : Participant -> F) (rng : Participant -> cs_rng)
    (r2 : Participant -> @Round2 F G) :
  ParticipantList_ok l -> all is_participant (pl_participants l) -> Z.le 2 threshold ->
  {in pl_participants l, forall p, honest_start l threshold secret None rng r2 p} ->
  exists f : {poly F},
  [/\ (size f <= Z.to_nat threshold)%N, f.[0] = \sum_(q <- pl_participants l) secret q &
      {in pl_participants l, forall p,
        do_keyshare l p threshold (secret p) None (rng p) (honest_received l rng r2 p) =
        Some (Ok (mkKeygenOutput f.[Z_to_F (p + 1)] (f.[0] *: cs_generator)))}].
Proof.
move=> l_ok l_range thr_ge start.
have [f_size f0 f_eval] := honest_poly_sumP l_range thr_ge start.
exists (honest_poly_sum l r2); split=> // p p_in.
by rewrite (honest_run l_ok l_range thr_ge start p_in) // f0 f_eval.
Qed.

(** C16: resharing keeps the key.  Let the old participants hold values of a
    polynomial that the staying ones determine, and let everybody follow the
    protocol.  Then the check against the old public key passes, every run
    returns [Ok] with that key, and the new shares are values of a polynomial of
    the new threshold with the same value at zero. *)
Theorem reshare_keeps_key (l old intersection : ParticipantList) (threshold : Z) (fo : {poly F})
    (secret : Participant -> F) (rng : Participant -> cs_rng)
    (r2 : Participant -> @Round2 F G) :
  ParticipantList_ok l -> all is_participant (pl_participants l) -> ParticipantList_ok old ->
  Z.le 2 threshold ->
  ParticipantList_intersection (E := ProtocolError) old l = Ok intersection ->
  (1 < size (pl_participants intersection))%N ->
  (size fo <= size (pl_participants intersection))%N ->
  {in pl_participants l, forall p, reshare_secret l p (old_share old fo p) old = Ok (secret p)} ->
  {in pl_participants l, forall p,
    honest_start l threshold secret (Some (fo.[0] *: cs_generator, old)) rng r2 p} ->
  exists f : {poly F},
  [/\ (size f <= Z.to_nat threshold)%N, f.[0] = fo.[0] &
      {in pl_participants l, forall p,
        do_reshare l p threshold (old_share old fo p) (fo.[0] *: cs_generator) old (rng p)
          (honest_received l rng r2 p) =
        Some (Ok (mkKeygenOutput f.[Z_to_F (p + 1)] (fo.[0] *: cs_generator)))}].
Proof.
move=> l_ok l_range old_ok thr_ge inter inter_size fo_size secrets start.
have [f_size f0 f_eval] := honest_poly_sumP l_range thr_ge start.
have sum0 : \sum_(q <- pl_participants l) secret q = fo.[0].
  rewrite -(reshare_secret_sum l_ok l_range old_ok inter fo_size).
  apply: eq_big_seq => q q_in; have := secrets q q_in.
  by rewrite (reshare_secretE fo l_ok l_range old_ok inter inter_size q_in) => -[<-].
exists (honest_poly_sum l r2); split=> //; first by rewrite f0.
move=> p p_in; rewrite /do_reshare secrets //= (honest_run l_ok l_range thr_ge start p_in).
  by move=> vk o [<- _]; rewrite sum0.
by rewrite sum0 f_eval.
Qed.
End Theorems.

(** ** Examples *)

Lemma batch_matches_single_witness :
  batch_compute_lagrange_coefficients [:: 1; 2%:R; 4%:R : rat] None =
  rmap (fun x_i => compute_lagrange_coefficient [:: 1; 2%:R; 4%:R] x_i None)
    [:: 1; 2%:R; 4%:R : rat].
Proof. by apply: batch_matches_single. Defined.

Lemma interpolation_recovers_witness :
  Polynomial_eval_interpolation [:: 1; 2%:R; 4%:R : rat] [:: 4%:R; 7%:R; 13%:R] (Some 10%:R) =
  Polynomial_eval_at_point (mkPolynomial [:: 1; 3%:R]) 10%:R.
Proof.
refine (proj1 (@interpolation_recovers rat _ sample_suite _ (mkPolynomial [:: 1; 3%:R])
  [:: 1; 2%:R; 4%:R] [:: 4%:R; 7%:R; 13%:R] 10%:R _ _ _ _ _ _)); by vm_compute.
Defined.

Lemma polynomials_well_formed_witness :
  exists c, Polynomial_commit_polynomial (mkPolynomial [:: 1; 3%:R : rat]) = Ok c.
Proof.
have [_ [_ [_ [_ commit]]]] := @polynomials_well_formed rat _ sample_suite _.
exact: commit.
Defined.

(** Three participants generate a key with threshold two. *)
Definition ex_out (p : Participant) : @KeygenOutput rat rat^o :=
  if do_keyshare ex_list p 2 (ex_secret p) None (ex_rng p) (honest_received ex_list ex_rng ex_r2 p)
       is Some (Ok out) then out else mkKeygenOutput 0 0.

Definition ex_M : ParticipantMap (seq rat^o * option (Signature rat^o)) :=
  map_of ex_list (fun q => (r2_commitment (ex_r2 q), r2_proof_of_knowledge (ex_r2 q))).

Lemma ex_list_ok : ParticipantList_ok ex_list.
Proof. by case: (ParticipantList_new_ok [:: 7; 2; 5]%Z ex_list erefl). Qed.

Lemma ex_participants : pl_participants ex_list = [:: 2; 5; 7]%Z.
Proof. by vm_compute. Qed.

Lemma ex_r2P p :
  (if keyshare_round2 p 2 (ex_secret p) None (honest_session_ids ex_list ex_rng)
        (dk_fill_bytes (ex_rng p)).2 is Ok _ then true else false) ->
  keyshare_round2 p 2 (ex_secret p) None (honest_session_ids ex_list ex_rng)
    (dk_fill_bytes (ex_rng p)).2 = Ok (ex_r2 p).
Proof. by rewrite /ex_r2; case: (keyshare_round2 _ _ _ _ _ _). Qed.

Lemma ex_start p : p \in pl_participants ex_list ->
  honest_start ex_list 2 ex_secret None ex_rng ex_r2 p.
Proof.
by rewrite ex_participants !inE => /or3P [] /eqP ->;
  (split; [exists (None, None) | apply: ex_r2P |]); vm_compute.
Qed.

Lemma honest_keygen_finishes_witness :
  exists f : {poly rat}, (size f <= 2)%N /\
    do_keyshare ex_list 5 2 (ex_secret 5) None (ex_rng 5) (honest_received ex_list ex_rng ex_r2 5) =
    Some (Ok (mkKeygenOutput f.[Z_to_F (5 + 1)] (f.[0] *: (1 : rat^o)))).
Proof.
have range : all is_participant (pl_participants ex_list) by rewrite ex_participants.
have two : Z.le 2 2 by [].
have [f [f_size _ f_run]] := honest_keygen_finishes ex_list_ok range two ex_start.
by exists f; split=> //; apply: f_run; rewrite ex_participants.
Defined.

Lemma ex_outP p :
  (if do_keyshare ex_list p 2 (ex_secret p) None (ex_rng p)
        (honest_received ex_list ex_rng ex_r2 p) is Some (Ok _) then true else false) ->
  do_keyshare ex_list p 2 (ex_secret p) None (ex_rng p) (honest_received ex_list ex_rng ex_r2 p) =
  Some (Ok (ex_out p)).
Proof. by rewrite /ex_out; case: (do_keyshare _ _ _ _ _ _ _) => [[]|]. Qed.

Lemma ex_accepted p : p \in [:: 2; 5]%Z -> accepted ex_list 2 ex_M p (ex_out p).
Proof.
move=> p_in; have p_in' : p \in pl_participants ex_list.
  by move: p_in; rewrite ex_participants !inE => /orP [] ->; rewrite ?orbT.
exists (ex_secret p), None, (ex_rng p), (honest_received ex_list ex_rng ex_r2 p), (ex_r2 p).
split=> //.
- have [_ R _] := ex_start p_in'; rewrite /keyshare_sends; move: R.
  by move: p_in; rewrite !inE => /orP [] /eqP -> <-.
- by apply: ex_outP; move: p_in; rewrite !inE => /orP [] /eqP ->; vm_compute.
- have [_ _ M_get _] := map_ofP ex_list_ok
    (fun q => (r2_commitment (ex_r2 q), r2_proof_of_knowledge (ex_r2 q))).
  exact: M_get.
Qed.

Lemma keygen_shares_one_key_witness :
  exists f : {poly rat}, ko_private_share (ex_out 5) = f.[Z_to_F (5 + 1)] /\
    Polynomial_eval_interpolation (identifiers [:: 2; 5]%Z)
      [seq ko_private_share (ex_out p) | p <- [:: 2; 5]%Z] None = Ok f.[0].
Proof.
have range : all is_participant (pl_participants ex_list) by rewrite ex_participants.
have two : Z.le 2 2 by [].
have sub : {subset [:: 2; 5]%Z <= pl_participants ex_list}.
  by move=> p; rewrite ex_participants !inE => /orP [] ->; rewrite ?orbT.
have size2 : (Z.to_nat 2 <= size [:: 2; 5]%Z)%N by [].
have uniq2 : uniq [:: 2; 5]%Z by [].
have [f [_ f_eval f_rec]] := keygen_shares_one_key ex_list_ok range two size2 uniq2 sub ex_accepted.
exists f; split; last exact: f_rec.
by have [-> _] := f_eval 5%Z isT.
Defined.

(** The key of [3 + X], shared among 2, 5 and 7, is reshared to 2, 5 and 9. *)
Definition ex_old_poly : {poly rat} := @poly.Polynomial rat [:: 3%:R; 1] isT.

Definition ex_new : ParticipantList :=
  if ParticipantList_new [:: 9; 5; 2]%Z is Some l then l else mkParticipantList [::] [::].

Definition ex_inter : ParticipantList :=
  if ParticipantList_intersection (E := ProtocolError) ex_list ex_new is Ok l then l
  else mkParticipantList [::] [::].

Definition ex_reshare_secret (p : Participant) : rat :=
  if reshare_secret ex_new p (old_share ex_list ex_old_poly p) ex_list is Ok s then s else 0.

Definition ex_package : option (rat^o * ParticipantList) :=
  Some (ex_old_poly.[0] *: (1 : rat^o), ex_list).

Definition ex_reshare_r2 (p : Participant) : @Round2 rat rat^o :=
  if keyshare_round2 p 2 (ex_reshare_secret p) (Some ex_list) (honest_session_ids ex_new ex_rng)
       (dk_fill_bytes (ex_rng p)).2 is Ok r then r
  else mkRound2 [::] (mkPolynomial [::]) [::] None 0 0 [::].

Lemma ex_new_ok : ParticipantList_ok ex_new.
Proof. by case: (ParticipantList_new_ok [:: 9; 5; 2]%Z ex_new erefl). Qed.

Lemma ex_new_participants : pl_participants ex_new = [:: 2; 5; 9]%Z.
Proof. by vm_compute. Qed.

Lemma ex_reshare_r2P p :
  (if keyshare_round2 p 2 (ex_reshare_secret p) (Some ex_list) (honest_session_ids ex_new ex_rng)
        (dk_fill_bytes (ex_rng p)).2 is Ok _ then true else false) ->
  keyshare_round2 p 2 (ex_reshare_secret p) (Some ex_list) (honest_session_ids ex_new ex_rng)
    (dk_fill_bytes (ex_rng p)).2 = Ok (ex_reshare_r2 p).
Proof. by rewrite /ex_reshare_r2; case: (keyshare_round2 _ _ _ _ _ _). Qed.

Lemma ex_inputsP p :
  (if assert_keyshare_inputs p (ex_reshare_secret p) ex_package is Ok _ then true else false) ->
  exists r, assert_keyshare_inputs p (ex_reshare_secret p) ex_package = Ok r.
Proof. by case: (assert_keyshare_inputs _ _ _) => // r _; exists r. Qed.

Lemma ex_reshare_start p : p \in pl_participants ex_new ->
  honest_start ex_new 2 ex_reshare_secret ex_package ex_rng ex_reshare_r2 p.
Proof.
by rewrite ex_new_participants !inE => /or3P [] /eqP ->;
  (split; [apply: ex_inputsP | apply: ex_reshare_r2P |]); vm_compute.
Qed.

Lemma ex_reshare_secretP p :
  (if reshare_secret ex_new p (old_share ex_list ex_old_poly p) ex_list is Ok _ then true
   else false) ->
  reshare_secret ex_new p (old_share ex_list ex_old_poly p) ex_list = Ok (ex_reshare_secret p).
Proof. by rewrite /ex_reshare_secret; case: (reshare_secret _ _ _ _). Qed.

Lemma ex_reshare_secrets p : p \in pl_participants ex_new ->
  reshare_secret ex_new p (old_share ex_list ex_old_poly p) ex_list = Ok (ex_reshare_secret p).
Proof.
by rewrite ex_new_participants !inE => /or3P [] /eqP ->; apply: ex_reshare_secretP; vm_compute.
Qed.

Lemma reshare_keeps_key_witness :
  exists f : {poly rat}, f.[0] = ex_old_poly.[0] /\
    do_reshare ex_new 9 2 None (ex_old_poly.[0] *: (1 : rat^o)) ex_list (ex_rng 9)
      (honest_received ex_new ex_rng ex_reshare_r2 9) =
    Some (Ok (mkKeygenOutput f.[Z_to_F (9 + 1)] (ex_old_poly.[0] *: (1 : rat^o)))).
Proof.
have range : all is_participant (pl_participants ex_new) by rewrite ex_new_participants.
have two : Z.le 2 2 by [].
have inter : ParticipantList_intersection (E := ProtocolError) ex_list ex_new = Ok ex_inter.
  by vm_compute.
have inter_parts : pl_participants ex_inter = [:: 2; 5]%Z by vm_compute.
have inter2 : (1 < size (pl_participants ex_inter))%N by rewrite inter_parts.
have poly2 : (size ex_old_poly <= size (pl_participants ex_inter))%N.
  by rewrite inter_parts.
have [f [_ f0 f_run]] := reshare_keeps_key ex_new_ok range ex_list_ok two inter inter2 poly2
  ex_reshare_secrets ex_reshare_start.
exists f; split; first exact: f0.
have nine : 9%Z \in pl_participants ex_new by rewrite ex_new_participants.
exact: f_run 9%Z nine.
Defined.
