(* ===== verification/EchoBroadcast.v ===== *)
(** * Threshold signatures: the echo broadcast

    [src/crates/threshold-signatures/src/protocol/echo_broadcast.rs]: every party
    broadcasts one value, in a session of its own (named by its index in the
    participant list), and runs all sessions in one loop over received messages.

    [rb_iter] is one iteration of the loop of [reliable_broadcast_receive_all];
    [rb_loop] repeats it while the loop feeds a message to itself.  Messages a
    party sends are the list returned with the new state, also when the iteration
    fails.  [send_many] reaches the others only, so a party handles its own
    messages by simulation, as the code does.  A message that cannot be decoded
    is skipped by the code and does not appear here. *)

From Stdlib Require Import ZArith Lia String DecimalString.
From stdpp Require Import base list gmap sets.
From S2P Require Import TsTypes TsParticipants.

Open Scope Z_scope.

(** ** Definitions *)

Inductive MessageType (T : Type) : Type :=
  | Send (data : T)
  | Echo (data : T)
  | Ready (data : T).
Arguments Send {_} _.
Arguments Echo {_} _.
Arguments Ready {_} _.

#[global] Instance MessageType_eq_dec {T} `{EqDecision T} : EqDecision (MessageType T).
Proof. solve_decision. Defined.

(** [CounterList]: values with the number of votes for them. *)
Definition CounterList (T : Type) : Type := list (T * nat).

Section Definitions.
Context {T : Type} `{EqDecision T}.

Fixpoint CounterList_insert_or_increase_counter (l : CounterList T) (item : T) : CounterList T :=
  match l with
  | [] => [(item, 1%nat)]
  | (e, count) :: l =>
    if decide (e = item) then (e, S count) :: l
    else (e, count) :: CounterList_insert_or_increase_counter l item
  end.

Fixpoint CounterList_get (l : CounterList T) (item : T) : option nat :=
  match l with
  | [] => None
  | (e, count) :: l => if decide (e = item) then Some count else CounterList_get l item
  end.

Definition CounterList_get_sum_counters (l : CounterList T) : nat :=
  fold_left (λ sum e, (sum + e.2)%nat) l 0%nat.

(** The thresholds that have to be exceeded, for [n] participants. *)
Definition echo_ready_thresholds (n : nat) : nat * nat :=
  if (n <=? 3)%nat then (0%nat, 0%nat)
  else
    let broadcast_threshold := ((n - 1) / 3)%nat in
    let echo_threshold := ((n + broadcast_threshold) / 2)%nat in
    (echo_threshold, broadcast_threshold).

Record BroadcastProtocolState : Type := mkBroadcastProtocolState {
  bp_data_echo : CounterList T;
  bp_data_ready : CounterList T;
  bp_seen_echo : ParticipantCounter;
  bp_seen_ready : ParticipantCounter;
  bp_finish_send : bool;
  bp_finish_echo : bool;
  bp_finish_amplification : bool;
  bp_finish_ready : bool;
}.

Definition BroadcastProtocolState_new (participants : ParticipantList) : BroadcastProtocolState :=
  mkBroadcastProtocolState [] []
    (ParticipantCounter_new participants) (ParticipantCounter_new participants)
    false false false false.

(** The local variables of the loop: the collected outputs and the sessions. *)
Record RbState : Type := mkRbState {
  rb_vote_output : ParticipantMap T;
  rb_state : list BroadcastProtocolState;
}.

(** How an iteration ends: wait for the next message, handle a simulated vote of
    my own in the same session, or return the outputs. *)
Inductive Control : Type :=
  | Next (st : RbState)
  | Simulate (st : RbState) (vote : MessageType T)
  | Return (out : ParticipantMap T).

(** A message on the channel of the broadcast: session and vote. *)
Definition SessionVote : Type := nat * MessageType T.

Definition malicious_sender (sid : nat) : ProtocolError :=
  AssertionFailed ("The original sender in session " ++
    NilZero.string_of_uint (Nat.to_uint sid) ++
    " is malicious! Could not collect enough echo votes to meet the threshold").

Definition too_many_malicious : ProtocolError :=
  AssertionFailed "Too many malicious parties, way above the assumed threshold:
                            The message output after the broadcast protocol is not the same as
                            the one originally sent by me".

Definition missing_element : ProtocolError := Other "Missing element in CounterList".

Section Loop.
Context (participants : ParticipantList) (me : Participant) (send_vote : MessageType T).

Definition n : nat := ParticipantList_len participants.
Definition echo_t : nat := (echo_ready_thresholds n).1.
Definition ready_t : nat := (echo_ready_thresholds n).2.

(** The sessions with session [sid] replaced. *)
Definition put_session (st : RbState) (sid : nat) (s : BroadcastProtocolState) : RbState :=
  mkRbState (rb_vote_output st) (<[sid := s]> (rb_state st)).

(** The [Send] arm. *)
Definition rb_send (st : RbState) (s : BroadcastProtocolState) (from : Participant) (sid : nat)
    (data : T) : list SessionVote * result ProtocolError Control :=
  if bp_finish_send s then ([], Ok (Next st))
  else
    match ParticipantList_index participants from with
    | Err e => ([], Err e)
    | Panic m => ([], Panic m)
    | Ok i =>
      if decide (sid = i) then
        let s := mkBroadcastProtocolState (bp_data_echo s) (bp_data_ready s) (bp_seen_echo s)
          (bp_seen_ready s) true (bp_finish_echo s) (bp_finish_amplification s)
          (bp_finish_ready s) in
        ([(sid, Echo data)], Ok (Simulate (put_session st sid s) (Echo data)))
      else ([], Ok (Next st))
    end.

(** Whether some value can still exceed the echo threshold. *)
Definition echo_is_enough (data_echo : CounterList T) : bool :=
  let received_echo_cnt := CounterList_get_sum_counters data_echo in
  let non_received_echo_cnt := (n - received_echo_cnt)%nat in
  existsb (λ e, (echo_t <? e.2 + non_received_echo_cnt)%nat) data_echo.

(** The [Echo] arm; [put] marks the sender as seen also when the vote is skipped. *)
Definition rb_echo (st : RbState) (s : BroadcastProtocolState) (from : Participant) (sid : nat)
    (data : T) : list SessionVote * result ProtocolError Control :=
  let '(seen_echo, inserted) := ParticipantCounter_put (bp_seen_echo s) from in
  let upd data_echo finish_echo := put_session st sid
    (mkBroadcastProtocolState data_echo (bp_data_ready s) seen_echo (bp_seen_ready s)
       (bp_finish_send s) finish_echo (bp_finish_amplification s) (bp_finish_ready s)) in
  if negb inserted || bp_finish_echo s then ([], Ok (Next (upd (bp_data_echo s) (bp_finish_echo s))))
  else
    let data_echo := CounterList_insert_or_increase_counter (bp_data_echo s) data in
    match CounterList_get data_echo data with
    | None => ([], Err missing_element)
    | Some count =>
      if (echo_t <? count)%nat then
        ([(sid, Ready data)], Ok (Simulate (upd data_echo true) (Ready data)))
      else if negb (bp_finish_amplification s) && negb (echo_is_enough data_echo) then
        ([], Err (malicious_sender sid))
      else ([], Ok (Next (upd data_echo (bp_finish_echo s))))
    end.

(** The [Ready] arm: amplification and delivery. *)
Definition rb_ready (st : RbState) (s : BroadcastProtocolState) (from : Participant) (sid : nat)
    (data : T) : list SessionVote * result ProtocolError Control :=
  let '(seen_ready, inserted) := ParticipantCounter_put (bp_seen_ready s) from in
  let upd data_ready finish_send finish_echo finish_amplification finish_ready :=
    mkBroadcastProtocolState (bp_data_echo s) data_ready (bp_seen_echo s) seen_ready
      finish_send finish_echo finish_amplification finish_ready in
  if negb inserted || bp_finish_ready s then
    ([], Ok (Next (put_session st sid (upd (bp_data_ready s) (bp_finish_send s) (bp_finish_echo s)
      (bp_finish_amplification s) (bp_finish_ready s)))))
  else
    let data_ready := CounterList_insert_or_increase_counter (bp_data_ready s) data in
    match CounterList_get data_ready data with
    | None => ([], Err missing_element)
    | Some count =>
      let amplify := (ready_t <? count)%nat && negb (bp_finish_amplification s) in
      let sends := if amplify then [(sid, Ready data)] else [] in
      let finish_amplification := amplify || bp_finish_amplification s in
      let continue st := Ok (if amplify then Simulate st (Ready data) else Next st) in
      if (2 * ready_t <? count)%nat then
        let st := put_session st sid (upd data_ready true true finish_amplification true) in
        match ParticipantList_get_participant participants sid with
        | None => (sends, Err (Other "Missing participant"))
        | Some p =>
          let st := mkRbState (ParticipantMap_put (rb_vote_output st) p data) (rb_state st) in
          match ParticipantList_index participants me with
          | Err e => (sends, Err e)
          | Panic m => (sends, Panic m)
          | Ok my_sid =>
            if bool_decide (sid = my_sid) && bool_decide (Send data ≠ send_vote)
            then (sends, Err too_many_malicious)
            else if forallb bp_finish_ready (rb_state st) then (sends, Ok (Return (rb_vote_output st)))
            else (sends, continue st)
          end
        end
      else
        (sends, continue (put_session st sid (upd data_ready (bp_finish_send s) (bp_finish_echo s)
          finish_amplification (bp_finish_ready s))))
    end.

(** One iteration of the loop. *)
Definition rb_iter (st : RbState) (from : Participant) (sid : nat) (vote : MessageType T) :
    list SessionVote * result ProtocolError Control :=
  match rb_state st !! sid with
  | None => ([], Ok (Next st))
  | Some s =>
    match vote with
    | Send data => rb_send st s from sid data
    | Echo data => rb_echo st s from sid data
    | Ready data => rb_ready st s from sid data
    end
  end.

(** A party after a message: waiting, returned, failed, or panicked. *)
Inductive Party : Type :=
  | Waiting (st : RbState)
  | Delivered (out : ParticipantMap T)
  | Failed (e : ProtocolError)
  | Panicked (msg : string).

(** The iterations from one received message until the loop waits again; [None]
    when the fuel does not suffice ([rb_loop_terminates]). *)
Fixpoint rb_loop (fuel : nat) (st : RbState) (from : Participant) (sid : nat)
    (vote : MessageType T) : list SessionVote * option Party :=
  match fuel with
  | O => ([], None)
  | S fuel =>
    let '(sends, r) := rb_iter st from sid vote in
    match r with
    | Ok (Next st) => (sends, Some (Waiting st))
    | Ok (Simulate st vote) =>
      let '(sends', p) := rb_loop fuel st me sid vote in (sends ++ sends', p)
    | Ok (Return out) => (sends, Some (Delivered out))
    | Err e => (sends, Some (Failed e))
    | Panic m => (sends, Some (Panicked m))
    end
  end.

(** The longest chain: my [Send], [Echo], [Ready] and amplified [Ready]. *)
Definition rb_fuel : nat := 4.

(** [reliable_broadcast_receive_all] up to its first wait: the simulated vote. *)
Definition reliable_broadcast_receive_all : list SessionVote * option Party :=
  match ParticipantList_index participants me with
  | Err e => ([], Some (Failed e))
  | Panic m => ([], Some (Panicked m))
  | Ok sid =>
    match send_vote with
    | Send _ =>
      rb_loop rb_fuel
        (mkRbState (ParticipantMap_new participants)
           (replicate n (BroadcastProtocolState_new participants)))
        me sid send_vote
    | _ => ([], Some (Failed (AssertionFailed "Function
            reliable_broadcast_receive_all MUST take a vote of
            type send_vote as input")))
    end
  end.
End Loop.

(** [reliable_broadcast_send] and [do_broadcast] up to the first wait. *)
Definition reliable_broadcast_send (participants : ParticipantList) (me : Participant) (data : T) :
    result ProtocolError (SessionVote) :=
  match ParticipantList_index participants me with
  | Ok sid => Ok (sid, Send data)
  | Err e => Err e
  | Panic m => Panic m
  end.

Definition do_broadcast (participants : ParticipantList) (me : Participant) (data : T) :
    list SessionVote * option Party :=
  match reliable_broadcast_send participants me data with
  | Ok (sid, vote) =>
    let '(sends, p) := reliable_broadcast_receive_all participants me vote in
    ((sid, vote) :: sends, p)
  | Err e => ([], Some (Failed e))
  | Panic m => ([], Some (Panicked m))
  end.
End Definitions.

Arguments BroadcastProtocolState : clear implicits.
Arguments RbState : clear implicits.
Arguments Control : clear implicits.
Arguments Party : clear implicits.
Arguments SessionVote : clear implicits.
