(* ===== verification/EchoBroadcastProofs.v ===== *)
(** * Threshold signatures: invariants of the echo broadcast

    The iterations that one message causes end within the fuel.  For parties of
    which at most [(n-1)/3] are faulty: echo quorums meet in an honest party, and
    every iteration of an honest party keeps what its own messages and its state
    satisfy.  [EchoNetwork.v] lifts this to histories of the whole network. *)

From Stdlib Require Import ZArith Lia String.
From stdpp Require Import base list gmap sets.
From S2P Require Import TsTypes TsParticipants EchoBroadcast.

Open Scope Z_scope.

(** ** Termination of the simulated votes *)

Section Termination.
Context {T : Type} `{EqDecision T}.
Context (participants : ParticipantList) (me : Participant) (send_vote : MessageType T).

(** How many iterations a vote can cause in a session. *)
Definition vote_measure (st : RbState T) (sid : nat) (vote : MessageType T) : nat :=
  match vote with
  | Send _ => 4
  | Echo _ => 3
  | Ready _ =>
    if from_option bp_finish_amplification true (rb_state st !! sid) then 1 else 2
  end.

Lemma rb_iter_measure st from sid vote sends st' vote' :
  rb_iter participants me send_vote st from sid vote = (sends, Ok (Simulate st' vote')) →
  (vote_measure st' sid vote' < vote_measure st sid vote)%nat.
Proof.
  unfold rb_iter. destruct (rb_state st !! sid) as [s|] eqn:Es; [|intros [=]].
  assert (Hlt : (sid < length (rb_state st))%nat) by eauto using lookup_lt_Some.
  destruct vote as [d|d|d]; unfold vote_measure at 2.
  - unfold rb_send. repeat case_match; intros [=]; subst. simpl. lia.
  - unfold rb_echo. repeat case_match; intros [=]; subst. simpl.
    case_match; lia.
  - rewrite Es. simpl. unfold rb_ready.
    destruct (ParticipantCounter_put _ _) as [seen ins].
    destruct (negb ins || bp_finish_ready s); [intros [=]|].
    destruct (CounterList_get _ _) as [c|]; [|intros [=]].
    destruct (_ && negb (bp_finish_amplification s)) eqn:Ha;
      [|repeat case_match; intros [=]].
    apply andb_prop in Ha as [_ ->%negb_true_iff].
    repeat case_match; intros [=]; subst; simpl;
      rewrite list_lookup_insert_eq in * by done; simplify_eq/=; lia.
Qed.

Lemma vote_measure_bound st sid vote : (1 ≤ vote_measure st sid vote ≤ 4)%nat.
Proof. destruct vote; simpl; repeat case_match; lia. Qed.

Lemma rb_loop_total fuel st from sid vote :
  (vote_measure st sid vote ≤ fuel)%nat →
  (rb_loop participants me send_vote fuel st from sid vote).2 ≠ None.
Proof.
  revert st from vote. induction fuel as [|fuel IH]; intros st from vote Hf.
  { pose proof (vote_measure_bound st sid vote). lia. }
  simpl. destruct (rb_iter _ _ _ _ _ _ _) as [sends r] eqn:E.
  destruct r as [[st'|st' vote'|out]|e|m]; simpl; try done.
  apply rb_iter_measure in E. specialize (IH st' me vote' ltac:(lia)).
  by destruct (rb_loop _ _ _ _ _ _ _ _).
Qed.
End Termination.

(** ** Counters *)

Section Counters.
Context {T : Type} `{EqDecision T}.

Implicit Types (l : CounterList T) (d e : T).

Lemma CounterList_get_insert l d d' :
  CounterList_get (CounterList_insert_or_increase_counter l d) d' =
  if decide (d = d') then Some (S (from_option id 0%nat (CounterList_get l d)))
  else CounterList_get l d'.
Proof.
  induction l as [|[e c] l IH]; simpl; [by case_decide|].
  destruct (decide (e = d)) as [->|Hed]; simpl.
  - by destruct (decide (d = d')).
  - rewrite IH. destruct (decide (e = d')) as [->|]; [|done]. by rewrite decide_False by done.
Qed.

Lemma fold_sum_shift (l : CounterList T) a :
  fold_left (λ sum x, (sum + x.2)%nat) l a = (a + CounterList_get_sum_counters l)%nat.
Proof.
  unfold CounterList_get_sum_counters. revert a.
  induction l as [|[e c] l IH]; intros a; simpl; [lia|].
  rewrite (IH (a + c)%nat), (IH c). lia.
Qed.

Lemma CounterList_sum_insert l d :
  CounterList_get_sum_counters (CounterList_insert_or_increase_counter l d) =
  S (CounterList_get_sum_counters l).
Proof.
  induction l as [|[e c] l IH]; simpl; [done|].
  unfold CounterList_get_sum_counters at 2. simpl. rewrite fold_sum_shift.
  destruct (decide (e = d)); unfold CounterList_get_sum_counters at 1; simpl;
    rewrite fold_sum_shift; lia.
Qed.

(** The keys of a counter list occur once and have votes. *)
Definition keys_ok (l : CounterList T) : Prop :=
  NoDup l.*1 ∧ ∀ d c, (d, c) ∈ l → (0 < c)%nat.

Lemma keys_ok_get l d c : keys_ok l → (d, c) ∈ l → CounterList_get l d = Some c.
Proof.
  intros [Hnd _]. induction l as [|[e k] l IH]; simpl; [set_solver|].
  apply NoDup_cons in Hnd as [Hnot Hnd]. intros [[= -> ->]|Hin]%elem_of_cons.
  - by rewrite decide_True.
  - rewrite decide_False; [by apply IH|]. intros ->. apply Hnot, list_elem_of_fmap.
    by exists (d, c).
Qed.

Lemma insert_keys l d :
  (CounterList_insert_or_increase_counter l d).*1 = if decide (d ∈ l.*1) then l.*1 else l.*1 ++ [d].
Proof.
  induction l as [|[e k] l IH]; csimpl; [done|].
  destruct (decide (e = d)) as [->|Hne]; csimpl.
  - rewrite decide_True; [done|]. by left.
  - rewrite IH. destruct (decide (d ∈ l.*1)); case_decide; set_solver.
Qed.

Lemma keys_ok_insert l d :
  keys_ok l → keys_ok (CounterList_insert_or_increase_counter l d).
Proof.
  intros [Hnd Hpos]. split.
  - rewrite insert_keys. case_decide; [done|]. apply NoDup_app. split; [done|].
    split; [set_solver|]. apply NoDup_singleton.
  - revert Hpos. clear Hnd. induction l as [|[e k] l IH]; simpl; intros Hpos e' c'.
    { intros [= -> ->]%list_elem_of_singleton. lia. }
    destruct (decide (e = d)); intros [[= -> ->]|Hin]%elem_of_cons; try lia.
    + eapply Hpos. by right.
    + eapply Hpos. by left.
    + eapply IH; [|done]. intros. eapply Hpos. by right.
Qed.

(** A counter list counts a list of voters with their votes. *)
Definition counts l (voters : list (Participant * T)) : Prop :=
  (∀ d, from_option id 0%nat (CounterList_get l d) = length (filter (λ v, v.2 = d) voters)) ∧
  CounterList_get_sum_counters l = length voters ∧ keys_ok l.

Lemma counts_nil : counts [] [].
Proof.
  split; [done|]. split; [done|]. split; [constructor|]. intros d c Hin.
  by apply elem_of_nil in Hin.
Qed.

Lemma counts_insert l voters q d :
  counts l voters → counts (CounterList_insert_or_increase_counter l d) ((q, d) :: voters).
Proof.
  intros (Hget & Hsum & Hkeys). split; [|split].
  - intros d'. rewrite CounterList_get_insert, filter_cons. simpl.
    destruct (decide (d = d')) as [->|]; [|apply Hget]. simpl. by rewrite Hget.
  - rewrite CounterList_sum_insert. simpl. by rewrite Hsum.
  - by apply keys_ok_insert.
Qed.

Lemma counts_get_insert l voters q d :
  counts l voters →
  CounterList_get (CounterList_insert_or_increase_counter l d) d =
  Some (length (filter (λ v, v.2 = d) ((q, d) :: voters))).
Proof.
  intros H. pose proof (counts_insert _ _ q d H) as (Hget & _).
  specialize (Hget d). rewrite CounterList_get_insert, decide_True in * by done. simpl in *.
  by rewrite Hget.
Qed.
End Counters.

(** ** Quorums *)

Section Network.
Context {T : Type} `{EqDecision T}.
Context (participants : ParticipantList) (byz : gset Participant) (input : Participant → T).
Hypothesis participants_ok : ParticipantList_ok participants.

(** The parties that need not follow the protocol are few. *)
Definition max_faulty : nat := ((n participants - 1) / 3)%nat.
Hypothesis few_byz :
  (length (filter (λ p, p ∈ byz) (pl_participants participants)) ≤ max_faulty)%nat.

Implicit Types (S : list (Participant * SessionVote T)) (p q o : Participant) (d : T) (sid : nat).

(** A vote that [q] may have sent, when the honest parties sent [S]. *)
Definition sent_by S q sid (m : MessageType T) : Prop := q ∈ byz ∨ (q, (sid, m)) ∈ S.

(** Enough echoes of a value. *)
Definition quorum S sid d : Prop :=
  ∃ Q, NoDup Q ∧ Q ⊆ pl_participants participants ∧ (echo_t participants < length Q)%nat ∧
  ∀ q, q ∈ Q → sent_by S q sid (Echo d).

Lemma sent_by_mono S S' q sid m : sent_by S q sid m → sent_by (S ++ S') q sid m.
Proof. intros [?|?]; [by left|]. right. apply elem_of_app. by left. Qed.

Lemma quorum_mono S S' sid d : quorum S sid d → quorum (S ++ S') sid d.
Proof.
  intros (Q & ? & ? & ? & Hq). exists Q. repeat split; [done..|].
  intros q ?. by apply sent_by_mono, Hq.
Qed.

Lemma participants_NoDup : NoDup (pl_participants participants).
Proof using participants_ok. apply NoDup_ListNoDup, ParticipantList_ok_NoDup, participants_ok. Qed.

(** More participants than may be faulty include an honest one. *)
Lemma some_honest Q :
  NoDup Q → Q ⊆ pl_participants participants → (max_faulty < length Q)%nat →
  ∃ q, q ∈ Q ∧ q ∉ byz.
Proof.
  intros HQ Hsub Hlen. destruct (decide (Forall (λ q, q ∈ byz) Q)) as [Hall|Hn].
  - exfalso. assert (length Q ≤ length (filter (λ p, p ∈ byz) (pl_participants participants)))%nat; [|lia].
    apply submseteq_length, NoDup_submseteq; [done|]. intros q Hq.
    apply list_elem_of_filter. rewrite Forall_forall in Hall. auto.
  - apply not_Forall_Exists in Hn; [|apply _]. apply Exists_exists in Hn as (q & ? & ?). eauto.
Qed.

Lemma echo_t_faulty : (0 < n participants)%nat → (max_faulty ≤ echo_t participants)%nat.
Proof using.
  clear few_byz. unfold max_faulty, echo_t, echo_ready_thresholds. intros Hn.
  destruct (Nat.leb_spec (n participants) 3) as [Hle|Hgt]; cbn [fst].
  - apply Nat.eq_le_incl. apply Nat.div_small. lia.
  - pose proof (Nat.div_mod (n participants - 1) 3 ltac:(lia)).
    pose proof (Nat.mod_upper_bound (n participants - 1) 3 ltac:(lia)).
    apply Nat.div_le_lower_bound; lia.
Qed.

(** Two quorums have an honest member in common, when there can be faulty ones. *)
Lemma quorums_meet Q Q' :
  (3 < n participants)%nat →
  NoDup Q → Q ⊆ pl_participants participants → (echo_t participants < length Q)%nat →
  NoDup Q' → Q' ⊆ pl_participants participants → (echo_t participants < length Q')%nat →
  ∃ q, q ∈ Q ∧ q ∈ Q' ∧ q ∉ byz.
Proof.
  intros Hn HQ Hsub Hlen HQ' Hsub' Hlen'.
  assert (Hmeet : (max_faulty < length (filter (λ q, q ∈ Q') Q))%nat).
  { assert (length (filter (λ q, q ∉ Q') Q ++ Q') ≤ n participants)%nat as Hle.
    { apply submseteq_length, NoDup_submseteq;
        [|intros q [[? ?]%list_elem_of_filter|?]%elem_of_app; auto].
      apply NoDup_app. split; [by apply NoDup_filter|]. split; [|done].
      intros q [? ?]%list_elem_of_filter. done. }
    rewrite length_app in Hle.
    assert (length Q = length (filter (λ q, q ∈ Q') Q) + length (filter (λ q, q ∉ Q') Q))%nat as HQlen.
    { clear. induction Q as [|q Q IH]; [done|]. rewrite !filter_cons.
      repeat case_decide; simpl; try tauto; lia. }
    unfold echo_t, echo_ready_thresholds, max_faulty in *.
    destruct (Nat.leb_spec (n participants) 3); cbn [fst] in *; [lia|].
    set (f := ((n participants - 1) / 3)%nat) in *.
    pose proof (Nat.div_mod (n participants + f) 2 ltac:(lia)).
    pose proof (Nat.mod_upper_bound (n participants + f) 2 ltac:(lia)). lia. }
  destruct (some_honest (filter (λ q, q ∈ Q') Q)) as (q & Hq & ?); [by apply NoDup_filter| |done|].
  - intros q [? ?]%list_elem_of_filter. auto.
  - apply list_elem_of_filter in Hq as [? ?]. eauto.
Qed.

(** ** Histories of sent messages *)

(** What the messages of the honest parties satisfy. *)
Record hist_ok S : Prop := {
  hist_send : ∀ p sid d, p ∉ byz → (p, (sid, Send d)) ∈ S →
    ParticipantList_index participants p = Ok sid ∧ d = input p;
  hist_echo_unique : ∀ p sid d d', p ∉ byz →
    (p, (sid, Echo d)) ∈ S → (p, (sid, Echo d')) ∈ S → d = d';
  hist_echo_valid : ∀ p sid d, p ∉ byz → (p, (sid, Echo d)) ∈ S →
    ∃ o, ParticipantList_index participants o = Ok sid ∧ ((o ∉ byz) → d = input o);
  hist_ready : ∀ p sid d, p ∉ byz → (p, (sid, Ready d)) ∈ S → quorum S sid d;
}.

Lemma index_inj o o' sid :
  ParticipantList_index participants o = Ok sid → ParticipantList_index participants o' = Ok sid →
  o = o'.
Proof.
  intros H%ParticipantList_index_get H'%ParticipantList_index_get; [|done..].
  unfold ParticipantList_get_participant in *. congruence.
Qed.

Lemma index_elem o sid :
  ParticipantList_index participants o = Ok sid →
  o ∈ pl_participants participants ∧ (sid < n participants)%nat.
Proof.
  intros H. split; [|by eapply ParticipantList_index_len].
  apply ParticipantList_index_get, nth_error_In in H; [|done]. by apply list_elem_of_In.
Qed.

(** An honest member of a quorum echoed the value. *)
Lemma quorum_honest S sid d :
  (0 < n participants)%nat → quorum S sid d → ∃ q, (q ∉ byz) ∧ (q, (sid, Echo d)) ∈ S.
Proof.
  intros Hn (Q & HQ & Hsub & Hlen & Hsent). pose proof (echo_t_faulty Hn).
  destruct (some_honest Q) as (q & Hq & Hh); [done|done|lia|].
  exists q. split; [done|]. by destruct (Hsent q Hq).
Qed.

(** A quorum for a session of an honest sender is for its value. *)
Lemma quorum_valid S sid d o :
  hist_ok S → quorum S sid d → ParticipantList_index participants o = Ok sid → o ∉ byz →
  d = input o.
Proof.
  intros HS Hq Ho Hh. destruct (index_elem _ _ Ho).
  destruct (quorum_honest S sid d) as (q & ? & Hecho); [lia|done|].
  destruct (hist_echo_valid S HS q sid d) as (o' & Ho' & Hd); [done..|].
  rewrite (index_inj _ _ _ Ho Ho') in *. auto.
Qed.

(** With at most three participants nobody is faulty. *)
Lemma small_honest p :
  (n participants ≤ 3)%nat → p ∈ pl_participants participants → p ∉ byz.
Proof.
  intros Hn Hp Hb. assert (max_faulty = 0%nat) as Hf by (apply Nat.div_small; lia).
  rewrite Hf in few_byz. assert (p ∈ filter (λ p, p ∈ byz) (pl_participants participants)) as Hin
    by (by apply list_elem_of_filter).
  destruct (filter _ _); [by apply elem_of_nil in Hin|simpl in few_byz; lia].
Qed.

Lemma quorum_agree S sid d d' :
  hist_ok S → quorum S sid d → quorum S sid d' → (sid < n participants)%nat → d = d'.
Proof.
  intros HS Hq Hq' Hsid. destruct (decide (3 < n participants)%nat) as [Hn|Hn].
  - destruct Hq as (Q & HQ & Hsub & Hlen & Hs), Hq' as (Q' & HQ' & Hsub' & Hlen' & Hs').
    destruct (quorums_meet Q Q') as (q & Hin & Hin' & Hh); [done..|].
    destruct (Hs q Hin), (Hs' q Hin'); try done. by eapply hist_echo_unique.
  - destruct (lookup_lt_is_Some_2 (pl_participants participants) sid Hsid) as [o Ho].
    assert (ParticipantList_index participants o = Ok sid) as Hi.
    { apply ParticipantList_index_get; [done|]. unfold ParticipantList_get_participant.
      revert Ho. clear. revert sid. induction (pl_participants participants) as [|x l IH];
        intros [|sid]; simpl; try done. apply IH. }
    assert (o ∉ byz) by (apply small_honest; [lia|by eapply list_elem_of_lookup_2]).
    by rewrite (quorum_valid S sid d o), (quorum_valid S sid d' o).
Qed.

(** ** States of an honest party *)

(** The recorded voters of one kind of message in a session. *)
Definition votes_ok S sid (mk : T → MessageType T) (l : CounterList T) (seen : ParticipantCounter) :
    Prop :=
  ParticipantCounter_ok seen ∧ pc_participants seen = participants ∧
  ∃ voters, counts l voters ∧ NoDup voters.*1 ∧
    ∀ q d, (q, d) ∈ voters →
      q ∈ pl_participants participants ∧ ParticipantCounter_has seen q = true ∧
      sent_by S q sid (mk d).

Definition session_ok S p sid (s : BroadcastProtocolState T) : Prop :=
  votes_ok S sid Echo (bp_data_echo s) (bp_seen_echo s) ∧
  votes_ok S sid Ready (bp_data_ready s) (bp_seen_ready s) ∧
  ∀ d, (p, (sid, Echo d)) ∈ S → bp_finish_send s = true.

(** Delivered values have a quorum. *)
Definition output_ok S (out : ParticipantMap T) : Prop :=
  ParticipantMap_ok out ∧ pm_participants out = participants ∧
  ∀ o sid d, ParticipantList_index participants o = Ok sid →
    ParticipantMap_get out o = Some d → quorum S sid d.

(** A finished session has an output. *)
Definition finished_ok (out : ParticipantMap T) sid (s : BroadcastProtocolState T) : Prop :=
  ∀ o, ParticipantList_index participants o = Ok sid → bp_finish_ready s = true →
  is_Some (ParticipantMap_get out o).

Definition state_ok S p (st : RbState T) : Prop :=
  length (rb_state st) = n participants ∧ output_ok S (rb_vote_output st) ∧
  ∀ sid s, rb_state st !! sid = Some s →
    session_ok S p sid s ∧ finished_ok (rb_vote_output st) sid s.

Lemma votes_ok_mono S S' sid mk l seen :
  votes_ok S sid mk l seen → votes_ok (S ++ S') sid mk l seen.
Proof.
  intros (? & ? & voters & ? & ? & Hv). split; [done|]. split; [done|]. exists voters.
  split; [done|]. split; [done|]. intros q d Hin. destruct (Hv q d Hin) as (? & ? & ?).
  eauto using sent_by_mono.
Qed.

Lemma output_ok_mono S S' out : output_ok S out → output_ok (S ++ S') out.
Proof. intros (? & ? & Ho). split; [done|]. split; [done|]. eauto using quorum_mono. Qed.

(** The [put] of a voter: skipped votes leave the record as it is, a counted
    vote extends it. *)
Lemma votes_ok_put S sid mk l seen q d seen' b :
  votes_ok S sid mk l seen → q ∈ pl_participants participants → sent_by S q sid (mk d) →
  ParticipantCounter_put seen q = (seen', b) →
  votes_ok S sid mk l seen' ∧
  (b = true → votes_ok S sid mk (CounterList_insert_or_increase_counter l d) seen' ∧
    ∃ voters, NoDup voters ∧ voters ⊆ pl_participants participants ∧
      (∀ r, r ∈ voters → sent_by S r sid (mk d)) ∧
      CounterList_get (CounterList_insert_or_increase_counter l d) d = Some (length voters)).
Proof.
  intros (Hseen & Hl & voters & Hc & Hnd & Hv) Hq Hsent Hput.
  destruct (ParticipantCounter_put_ok _ _ _ _ Hseen Hput) as (Hseen' & Hl' & Hb & Hhas).
  split.
  { split; [done|]. split; [congruence|]. exists voters. split; [done|]. split; [done|].
    intros r d' Hin. destruct (Hv r d' Hin) as (? & Hr & ?). split; [done|]. split; [|done].
    rewrite Hhas, Hr. apply orb_true_r. }
  intros ->. symmetry in Hb. apply andb_prop in Hb as [Hcont Hnew%negb_true_iff].
  assert (Hfresh : q ∉ voters.*1).
  { intros ([q' d'] & Heq & Hin)%list_elem_of_fmap. simpl in Heq. subst q'.
    destruct (Hv q d' Hin) as (_ & ? & _). congruence. }
  split.
  - split; [done|]. split; [congruence|]. exists ((q, d) :: voters). split; [by apply counts_insert|].
    split; [csimpl; by constructor|]. intros r d' [[= -> ->]|Hin]%elem_of_cons.
    + split; [done|]. split; [|done]. by rewrite Hhas, Z.eqb_refl, Hcont.
    + destruct (Hv r d' Hin) as (? & Hr & ?). split; [done|]. split; [|done].
      rewrite Hhas, Hr. apply orb_true_r.
  - exists (filter (λ v, v.2 = d) ((q, d) :: voters)).*1. split; [|split; [|split]].
    + eapply sublist_NoDup; [|apply fmap_sublist, sublist_filter]. csimpl. by constructor.
    + intros r ([r' d'] & -> & [Hd Hin]%list_elem_of_filter)%list_elem_of_fmap.
      apply elem_of_cons in Hin as [[= -> ->]|Hin]; [done|]. by destruct (Hv _ _ Hin).
    + intros r ([r' d'] & -> & [Hd Hin]%list_elem_of_filter)%list_elem_of_fmap.
      simpl in *. subst d'. apply elem_of_cons in Hin as [[= ->]|Hin]; [done|].
      by destruct (Hv _ _ Hin) as (_ & _ & ?).
    + rewrite length_fmap. by apply counts_get_insert.
Qed.

(** ** The length check on echoes *)

Lemma echo_t_honest : (0 < n participants)%nat → (echo_t participants < n participants - max_faulty)%nat.
Proof using.
  clear few_byz. unfold max_faulty, echo_t, echo_ready_thresholds. intros Hn.
  pose proof (Nat.div_mod (n participants - 1) 3 ltac:(lia)).
  pose proof (Nat.mod_upper_bound (n participants - 1) 3 ltac:(lia)).
  set (f := ((n participants - 1) / 3)%nat) in *.
  destruct (Nat.leb_spec (n participants) 3) as [Hle|Hgt]; cbn [fst]; [lia|].
  apply Nat.Div0.div_lt_upper_bound; lia.
Qed.

Lemma ready_t_faulty : (0 < n participants)%nat → ready_t participants = max_faulty.
Proof using.
  clear few_byz. unfold max_faulty, ready_t, echo_ready_thresholds. intros Hn.
  destruct (Nat.leb_spec (n participants) 3) as [Hle|Hgt]; cbn [snd]; [|done].
  symmetry. apply Nat.div_small. lia.
Qed.

Lemma length_filter_split (voters : list (Participant * T)) d :
  (length (filter (λ v, v.2 = d) voters) + length (filter (λ v, v.2 ≠ d) voters) = length voters)%nat.
Proof.
  induction voters as [|v voters IH]; [done|]. rewrite !filter_cons.
  repeat case_decide; simpl; try done; lia.
Qed.

(** In a session of an honest sender the echoes can always still suffice. *)
Lemma echo_is_enough_honest S sid o l seen :
  hist_ok S → votes_ok S sid Echo l seen → l ≠ [] →
  ParticipantList_index participants o = Ok sid → o ∉ byz →
  echo_is_enough participants l = true.
Proof.
  intros HS (_ & _ & voters & (Hget & Hsum & Hkeys) & Hnd & Hv) Hl Ho Hh.
  destruct (index_elem _ _ Ho) as [_ Hsid]. pose proof (echo_t_honest ltac:(lia)) as Hecho.
  assert (Hother : (length (filter (λ v, v.2 ≠ input o) voters) ≤ max_faulty)%nat).
  { etrans; [|exact few_byz]. rewrite <- (length_fmap fst).
    apply submseteq_length, NoDup_submseteq.
    - eapply sublist_NoDup; [exact Hnd|]. apply fmap_sublist, sublist_filter.
    - intros q ([q' d] & -> & [Hd Hin]%list_elem_of_filter)%list_elem_of_fmap. simpl in *.
      destruct (Hv _ _ Hin) as (Hq & _ & [Hb|Hsent]); [by apply list_elem_of_filter|].
      destruct (decide (q' ∈ byz)); [by apply list_elem_of_filter|].
      destruct (hist_echo_valid S HS q' sid d) as (o' & Ho' & Hd'); [done..|].
      rewrite (index_inj _ _ _ Ho Ho') in *. by destruct Hd; apply Hd'. }
  assert (Hlen : (length voters ≤ n participants)%nat).
  { rewrite <- (length_fmap fst). apply submseteq_length, NoDup_submseteq; [done|].
    intros q ([q' d] & -> & Hin)%list_elem_of_fmap. by destruct (Hv _ _ Hin). }
  pose proof (length_filter_split voters (input o)) as Hsplit.
  unfold echo_is_enough. rewrite Hsum. apply existsb_exists.
  assert (∃ d c, (d, c) ∈ l ∧ (length voters ≤ c + max_faulty)%nat) as (d & c & Hin & Hc).
  { destruct (decide (input o ∈ l.*1)) as [Hin|Hnot].
    - apply list_elem_of_fmap in Hin as ([d c] & Hd & Hin). simpl in Hd. subst d.
      exists (input o), c. split; [done|]. specialize (Hget (input o)).
      rewrite (keys_ok_get _ _ _ Hkeys Hin) in Hget. simpl in Hget. lia.
    - destruct l as [|[d c] l]; [done|]. exists d, c. split; [by left|].
      specialize (Hget (input o)). destruct (CounterList_get _ (input o)) as [k|] eqn:E.
      + destruct Hnot. revert E. clear. generalize ((d, c) :: l). clear.
        intros l. induction l as [|[e k'] l IH]; csimpl; [done|]. case_decide; set_solver.
      + simpl in Hget. lia. }
  exists (d, c). split; [by apply list_elem_of_In|]. apply Nat.ltb_lt. simpl. lia.
Qed.

(** ** One iteration *)

(** Sending a [Ready] with a quorum keeps the invariants. *)
Lemma hist_ok_ready S p sid d : hist_ok S → quorum S sid d → hist_ok (S ++ [(p, (sid, Ready d))]).
Proof.
  intros HS Hq. split.
  - intros r sid' d' Hr [Hin|Hin]%elem_of_app; [by eapply hist_send|set_solver].
  - intros r sid' d1 d2 Hr H1 H2. eapply (hist_echo_unique S HS r sid'); set_solver.
  - intros r sid' d' Hr [Hin|Hin]%elem_of_app; [by eapply hist_echo_valid|set_solver].
  - intros r sid' d' Hr [Hin|Hin]%elem_of_app.
    + by eapply quorum_mono, hist_ready.
    + apply list_elem_of_singleton in Hin as [= -> -> ->]. by apply quorum_mono.
Qed.

Lemma session_ok_ready S p sid s r sid' d :
  session_ok S p sid s → session_ok (S ++ [(r, (sid', Ready d))]) p sid s.
Proof.
  intros (? & ? & Hf). split; [by apply votes_ok_mono|]. split; [by apply votes_ok_mono|].
  intros d' [Hin|Hin]%elem_of_app; [eauto|set_solver].
Qed.

Lemma state_ok_ready S p st r sid d :
  state_ok S p st → state_ok (S ++ [(r, (sid, Ready d))]) p st.
Proof.
  intros (? & ? & Hs). split; [done|]. split; [by apply output_ok_mono|].
  intros sid' s Hin. destruct (Hs sid' s Hin). eauto using session_ok_ready.
Qed.

Lemma put_session_other S p st sid s :
  length (rb_state st) = n participants → output_ok S (rb_vote_output st) →
  (∀ sid' s', sid' ≠ sid → rb_state st !! sid' = Some s' →
    session_ok S p sid' s' ∧ finished_ok (rb_vote_output st) sid' s') →
  session_ok S p sid s → finished_ok (rb_vote_output st) sid s →
  state_ok S p (put_session st sid s).
Proof.
  intros Hlen ? Hs Hnew Hfin. split; [by simpl; rewrite length_insert|]. split; [done|].
  intros sid' s' Hin. simpl in Hin.
  apply list_lookup_insert_Some in Hin as [(-> & -> & _)|[? Hin]]; eauto.
Qed.

Lemma put_session_ok S p st sid s :
  state_ok S p st → session_ok S p sid s → finished_ok (rb_vote_output st) sid s →
  state_ok S p (put_session st sid s).
Proof. intros (? & ? & ?) ? ?. apply put_session_other; eauto. Qed.

(** What an iteration of an honest party [p] leads to, after the messages [S']. *)
Definition control_ok S' p sid (r : result ProtocolError (Control T)) : Prop :=
  match r with
  | Ok (Next st) => state_ok S' p st
  | Ok (Simulate st vote) => state_ok S' p st ∧ (p, (sid, vote)) ∈ S'
  | Ok (Return out) => output_ok S' out ∧
      ∀ o, o ∈ pl_participants participants → is_Some (ParticipantMap_get out o)
  | Err e => e = malicious_sender sid ∧
      ∃ o, ParticipantList_index participants o = Ok sid ∧ o ∈ byz
  | Panic _ => False
  end.

Section Iteration.
Context (S : list (Participant * SessionVote T)) (p : Participant) (st : RbState T).
Context (s : BroadcastProtocolState T) (q : Participant) (sid : nat) (d : T).
Hypothesis p_in : p ∈ pl_participants participants.
Hypothesis p_honest : p ∉ byz.
Hypothesis S_ok : hist_ok S.
Hypothesis st_ok : state_ok S p st.
Hypothesis s_in : rb_state st !! sid = Some s.
Hypothesis q_in : q ∈ pl_participants participants.

(** The messages after an iteration that sends [sends]. *)
Definition extend (sends : list (SessionVote T)) : list (Participant * SessionVote T) :=
  S ++ (pair p <$> sends).

Lemma s_ok : session_ok S p sid s ∧ finished_ok (rb_vote_output st) sid s.
Proof. by apply st_ok. Qed.

Lemma sid_owner : ∃ o, ParticipantList_index participants o = Ok sid.
Proof.
  destruct st_ok as (Hlen & _). apply lookup_lt_Some in s_in as Hlt. rewrite Hlen in Hlt.
  unfold n, ParticipantList_len in Hlt.
  destruct (nth_error (pl_participants participants) sid) as [o|] eqn:E.
  - exists o. by apply ParticipantList_index_get.
  - apply nth_error_None in E. lia.
Qed.

Lemma rb_send_ok sends r :
  sent_by S q sid (Send d) → rb_send participants st s q sid d = (sends, r) →
  hist_ok (extend sends) ∧ control_ok (extend sends) p sid r.
Proof.
  intros Hsent. unfold rb_send, extend. destruct (bp_finish_send s) eqn:Ef.
  { intros [= <- <-]. by rewrite app_nil_r. }
  destruct (ParticipantList_index_In participants q participants_ok) as [i Hi];
    [by apply list_elem_of_In|]. rewrite Hi.
  destruct (decide (sid = i)) as [<-|]; [|intros [= <- <-]; by rewrite app_nil_r].
  intros [= <- <-]. cbn [fmap list_fmap]. destruct s_ok as ((He & Hr & Hf) & Hfin).
  assert (Hnew : ∀ d', (p, (sid, Echo d')) ∉ S) by (intros d' Hin; apply Hf in Hin; congruence).
  split; [split|].
  - intros r sid' d' Hr' [Hin|Hin]%elem_of_app; [by eapply hist_send|set_solver].
  - intros r sid' d1 d2 Hr' [H1|H1]%elem_of_app [H2|H2]%elem_of_app;
      try apply list_elem_of_singleton in H1; try apply list_elem_of_singleton in H2;
      simplify_eq; [by eapply (hist_echo_unique S S_ok r sid')|by apply Hnew in H1|by apply Hnew in H2|done].
  - intros r sid' d' Hr' [Hin|Hin]%elem_of_app; [by eapply hist_echo_valid|].
    apply list_elem_of_singleton in Hin. simplify_eq. exists q. split; [done|].
    intros Hq. destruct Hsent as [?|Hin]; [done|]. by eapply hist_send.
  - intros r sid' d' Hr' [Hin|Hin]%elem_of_app; [by eapply quorum_mono, hist_ready|set_solver].
  - destruct st_ok as (? & ? & Hs).
    split; [|set_solver]. apply put_session_other; [done|by apply output_ok_mono| | |done].
    + intros sid' s' Hne Hin. destruct (Hs sid' s' Hin) as ((? & ? & Hf') & ?). split; [|done].
      split; [by apply votes_ok_mono|]. split; [by apply votes_ok_mono|].
      intros d' [?|Hin']%elem_of_app; [by eapply Hf'|].
      apply list_elem_of_singleton in Hin'. simplify_eq.
    + split; [by apply votes_ok_mono|]. split; [by apply votes_ok_mono|done].
Qed.

(** Updating the echo record of the session. *)
Lemma echo_update S' data_echo seen_echo finish_echo :
  state_ok S' p st → votes_ok S' sid Echo data_echo seen_echo →
  state_ok S' p (put_session st sid
    (mkBroadcastProtocolState data_echo (bp_data_ready s) seen_echo (bp_seen_ready s)
       (bp_finish_send s) finish_echo (bp_finish_amplification s) (bp_finish_ready s))).
Proof.
  intros Hst Hv. destruct Hst as (? & ? & Hs) eqn:E. destruct (Hs _ _ s_in) as [(_ & ? & ?) ?].
  by apply put_session_ok.
Qed.

Lemma rb_echo_ok sends r :
  sent_by S q sid (Echo d) → rb_echo participants st s q sid d = (sends, r) →
  hist_ok (extend sends) ∧ control_ok (extend sends) p sid r.
Proof.
  intros Hsent. unfold rb_echo, extend. destruct (ParticipantCounter_put _ _) as [seen b] eqn:Hput.
  destruct s_ok as ((He & Hr & Hf) & Hfin).
  destruct (votes_ok_put _ _ _ _ _ _ _ _ _ He q_in Hsent Hput) as [Hskip Hcount].
  destruct (negb b || bp_finish_echo s) eqn:Eb.
  { intros [= <- <-]. rewrite app_nil_r. split; [done|]. by apply echo_update. }
  apply orb_false_iff in Eb as [->%negb_false_iff Efe].
  destruct (Hcount eq_refl) as (Hv & voters & Hnd & Hsub & Hvs & ->).
  destruct (Nat.ltb_spec (echo_t participants) (length voters)) as [Hlt|Hge].
  { intros [= <- <-]. cbn [fmap list_fmap].
    assert (quorum S sid d) as Hq by (exists voters; eauto).
    split; [by apply hist_ok_ready|]. split; [|set_solver].
    apply echo_update; [by apply state_ok_ready|by apply votes_ok_mono]. }
  destruct (negb (bp_finish_amplification s) && negb (echo_is_enough _ _)) eqn:Ee;
    intros [= <- <-]; rewrite app_nil_r; (split; [done|]); [|by apply echo_update].
  split; [done|]. destruct sid_owner as [o Ho]. exists o. split; [done|].
  destruct (decide (o ∈ byz)) as [|Hh]; [done|]. apply andb_prop in Ee as [_ Ee%negb_true_iff].
  rewrite (echo_is_enough_honest S sid o _ seen) in Ee; try done.
  destruct (bp_data_echo s) as [|[e c] l]; simpl; [done|]. by case_decide.
Qed.

(** Enough [Ready] votes come from a quorum of echoes. *)
Lemma ready_quorum voters :
  NoDup voters → voters ⊆ pl_participants participants →
  (∀ r, r ∈ voters → sent_by S r sid (Ready d)) → (ready_t participants < length voters)%nat →
  quorum S sid d.
Proof.
  intros Hnd Hsub Hsent Hlen. destruct sid_owner as [o Ho]. destruct (index_elem _ _ Ho).
  rewrite ready_t_faulty in Hlen by lia.
  destruct (some_honest voters) as (r & Hr & Hh); [done..|].
  destruct (Hsent r Hr); [done|]. by eapply hist_ready.
Qed.

Lemma ready_update S' data_ready seen_ready fs fe fa :
  state_ok S' p st → votes_ok S' sid Ready data_ready seen_ready →
  (bp_finish_send s = true → fs = true) →
  state_ok S' p (put_session st sid
    (mkBroadcastProtocolState (bp_data_echo s) data_ready (bp_seen_echo s) seen_ready
       fs fe fa (bp_finish_ready s))).
Proof.
  intros Hst Hv Hfs. destruct Hst as (? & ? & Hs) eqn:E.
  destruct (Hs _ _ s_in) as [(? & _ & Hf) ?]. apply put_session_ok; [done| |done].
  split; [done|]. split; [done|]. simpl. eauto.
Qed.

(** Delivering the value of the session. *)
Lemma deliver_ok S' data_ready seen_ready fa o :
  state_ok S' p st → votes_ok S' sid Ready data_ready seen_ready → quorum S' sid d →
  ParticipantList_index participants o = Ok sid →
  state_ok S' p (mkRbState (ParticipantMap_put (rb_vote_output st) o d)
    (<[sid := mkBroadcastProtocolState (bp_data_echo s) data_ready (bp_seen_echo s) seen_ready
       true true fa true]> (rb_state st))).
Proof.
  intros (Hlen & (Hout & Hpart & Hq) & Hs) Hv Hquorum Ho.
  destruct (ParticipantMap_put_ok _ o d Hout) as (Hout' & Hpart' & Hget).
  assert (Hcont : ParticipantList_contains (pm_participants (rb_vote_output st)) o = true).
  { rewrite Hpart. apply ParticipantList_contains_In; [done|].
    apply list_elem_of_In. by eapply index_elem. }
  split; [by simpl; rewrite length_insert|]. split.
  - split; [done|]. simpl. rewrite Hpart'. split; [done|]. intros o' sid' d' Ho'. rewrite Hget.
    destruct (Z.eqb_spec o' o) as [->|]; [|by apply Hq]. rewrite Ho' in Ho. injection Ho as ->.
    destruct (_ && _) eqn:E; [by intros [= <-]|by apply Hq].
  - intros sid' s' Hin. simpl in Hin.
    apply list_lookup_insert_Some in Hin as [(-> & <- & _)|[Hne Hin]].
    + destruct (Hs _ _ s_in) as [(? & _ & _) _]. split; [by split|].
      intros o' Ho' _. rewrite (index_inj _ _ _ Ho' Ho). simpl. rewrite Hget, Z.eqb_refl, Hcont.
      by destruct (ParticipantMap_get (rb_vote_output st) o).
    + destruct (Hs _ _ Hin) as [? Hfin]. split; [done|]. intros o' Ho' Hf. simpl. rewrite Hget.
      destruct (_ && _); [done|]. by apply Hfin.
Qed.

Lemma all_finished out sts o :
  length sts = n participants → forallb bp_finish_ready sts = true →
  (∀ sid' s', sts !! sid' = Some s' → finished_ok out sid' s') →
  o ∈ pl_participants participants → is_Some (ParticipantMap_get out o).
Proof.
  intros Hlen Hall Hfin Ho.
  destruct (ParticipantList_index_In participants o participants_ok) as [i Hi];
    [by apply list_elem_of_In|]. destruct (index_elem _ _ Hi) as [_ Hlt]. rewrite <- Hlen in Hlt.
  destruct (lookup_lt_is_Some_2 _ _ Hlt) as [s' Hs']. apply (Hfin _ _ Hs' _ Hi).
  rewrite forallb_forall in Hall. apply Hall, list_elem_of_In. by eapply list_elem_of_lookup_2.
Qed.

Lemma rb_ready_ok sends r :
  sent_by S q sid (Ready d) → rb_ready participants p (Send (input p)) st s q sid d = (sends, r) →
  hist_ok (extend sends) ∧ control_ok (extend sends) p sid r.
Proof.
  intros Hsent. unfold rb_ready, extend. destruct (ParticipantCounter_put _ _) as [seen b] eqn:Hput.
  destruct s_ok as ((He & Hr & Hf) & Hfin).
  destruct (votes_ok_put _ _ _ _ _ _ _ _ _ Hr q_in Hsent Hput) as [Hskip Hcount].
  destruct (negb b || bp_finish_ready s) eqn:Eb.
  { intros [= <- <-]. rewrite app_nil_r. split; [done|]. by apply ready_update. }
  apply orb_false_iff in Eb as [->%negb_false_iff Efr].
  destruct (Hcount eq_refl) as (Hv & voters & Hnd & Hsub & Hvs & ->).
  pose proof (ready_quorum voters Hnd Hsub Hvs) as Hquorum.
  set (amplify := (_ <? _)%nat && _).
  set (S' := S ++ (pair p <$> (if amplify then [(sid, Ready d)] else []))).
  assert (hist_ok S' ∧ state_ok S' p st ∧
    votes_ok S' sid Ready (CounterList_insert_or_increase_counter (bp_data_ready s) d) seen ∧
    (amplify = true → (p, (sid, Ready d)) ∈ S')) as (HS & Hst & Hvo & Hin).
  { unfold S'. destruct amplify eqn:Ea; cbn [fmap list_fmap]; [|by rewrite app_nil_r].
    apply andb_prop in Ea as [Hlt%Nat.ltb_lt _]. split; [by apply hist_ok_ready; auto|].
    split; [by apply state_ok_ready|]. split; [by apply votes_ok_mono|set_solver]. }
  destruct (Nat.ltb_spec (2 * ready_t participants) (length voters)) as [Hlt|Hge].
  - destruct sid_owner as [o Ho].
    rewrite (proj1 (ParticipantList_index_get _ _ _ participants_ok) Ho).
    destruct (ParticipantList_index_In participants p participants_ok) as [i Hi];
      [by apply list_elem_of_In|]. rewrite Hi.
    assert (quorum S' sid d) as Hq' by (apply quorum_mono, Hquorum; lia).
    assert (bool_decide (sid = i) && bool_decide (Send d ≠ Send (input p)) = false) as ->.
    { destruct (decide (sid = i)) as [Heq|]; [|by rewrite bool_decide_false].
      rewrite Heq in Hq'. rewrite (quorum_valid S' i d p) by done.
      rewrite (bool_decide_false (Send _ ≠ _)) by tauto. apply andb_false_r. }
    pose proof (deliver_ok S' _ seen (amplify || bp_finish_amplification s) o Hst Hvo Hq' Ho) as Hok.
    set (st' := mkRbState _ _) in Hok. cbn [rb_state rb_vote_output put_session].
    destruct (forallb bp_finish_ready _) eqn:Eall; intros [= <- <-]; (split; [done|]).
    + destruct Hok as (Hlen & Hout & Hss). split; [exact Hout|]. intros o' Ho'.
      eapply (all_finished (rb_vote_output st')); [exact Hlen|exact Eall| |done].
      intros sid' s' Hs'. by apply Hss.
    + destruct amplify eqn:Ea; [by split; [exact Hok|apply Hin]|exact Hok].
  - intros [= <- <-]. split; [done|].
    pose proof (ready_update S' _ seen (bp_finish_send s) (bp_finish_echo s)
      (amplify || bp_finish_amplification s) Hst Hvo) as Hok.
    destruct amplify eqn:Ea; [split; [by apply Hok|by apply Hin]|by apply Hok].
Qed.
End Iteration.

Lemma rb_iter_ok S p st q sid m sends r :
  p ∈ pl_participants participants → p ∉ byz → hist_ok S → state_ok S p st →
  q ∈ pl_participants participants → sent_by S q sid m →
  rb_iter participants p (Send (input p)) st q sid m = (sends, r) →
  hist_ok (extend S p sends) ∧ control_ok (extend S p sends) p sid r.
Proof.
  intros Hp Hh HS Hst Hq Hm. unfold rb_iter. destruct (rb_state st !! sid) as [s|] eqn:Es.
  - destruct m as [d|d|d]; [by eapply rb_send_ok|by eapply rb_echo_ok|by eapply rb_ready_ok].
  - intros [= <- <-]. unfold extend. simpl. by rewrite app_nil_r.
Qed.

(** ** Handling a message *)

Definition party_ok S p (party : Party T) : Prop :=
  match party with
  | Waiting st => state_ok S p st
  | Delivered out => output_ok S out ∧
      ∀ o, o ∈ pl_participants participants → is_Some (ParticipantMap_get out o)
  | Failed e => ∃ o sid, e = malicious_sender sid ∧
      ParticipantList_index participants o = Ok sid ∧ o ∈ byz
  | Panicked _ => False
  end.

Lemma extend_app S p a b : extend S p (a ++ b) = extend (extend S p a) p b.
Proof. unfold extend. by rewrite fmap_app, app_assoc. Qed.

Lemma rb_loop_ok fuel S p st q sid m sends party :
  p ∈ pl_participants participants → p ∉ byz → hist_ok S → state_ok S p st →
  q ∈ pl_participants participants → sent_by S q sid m →
  rb_loop participants p (Send (input p)) fuel st q sid m = (sends, Some party) →
  hist_ok (extend S p sends) ∧ party_ok (extend S p sends) p party.
Proof.
  revert S st q m sends. induction fuel as [|fuel IH]; intros S st q m sends Hp Hh HS Hst Hq Hm;
    [done|]. simpl. destruct (rb_iter _ _ _ _ _ _ _) as [sends1 r] eqn:E.
  destruct (rb_iter_ok S p st q sid m sends1 r) as [HS1 Hr]; [done..|].
  destruct r as [[st'|st' vote|out]|e|msg]; simpl in Hr.
  - intros [= <- <-]. done.
  - destruct (rb_loop _ _ _ _ _ _ _ _) as [sends2 party'] eqn:E2. intros [= <- ->].
    rewrite extend_app. destruct Hr as [? Hvote].
    apply (IH (extend S p sends1) st' p vote sends2); try done. by right.
  - by intros [= <- <-].
  - intros [= <- <-]. split; [done|]. destruct Hr as (-> & o & ? & ?). by exists o, sid.
  - done.
Qed.
End Network.
