(* ===== verification/EchoNetwork.v ===== *)
(** * Threshold signatures: a network running the echo broadcast

    The honest parties run [do_broadcast] and handle messages in any order and
    any number of times; a message of an honest party is delivered only if it was
    sent, the parties of [byz] may send anything, different things to different
    parties.  [net_run] executes a history; the lemmas say what holds after every
    history. *)

From Stdlib Require Import ZArith Lia String.
From stdpp Require Import base list gmap sets.
From S2P Require Import TsTypes TsParticipants EchoBroadcast EchoBroadcastProofs.

Open Scope Z_scope.

(** ** Histories *)

Section Histories.
Context {T : Type} `{EqDecision T}.
Context (participants : ParticipantList) (byz : gset Participant) (input : Participant → T).

(** The honest parties that started, what they sent, and what they received
    (receiver, sender, session and vote). *)
Record World : Type := mkWorld {
  w_parties : gmap Participant (Party T);
  w_sent : list (Participant * SessionVote T);
  w_received : list (Participant * (Participant * SessionVote T));
}.

Inductive Event : Type :=
  | Start (p : Participant)
  | Receive (p q : Participant) (sid : nat) (m : MessageType T).

Definition net_init : World := mkWorld ∅ [] [].

Definition net_update (w : World) (p : Participant) (sends : list (SessionVote T))
    (party : Party T) (recv : list (Participant * SessionVote T)) : World :=
  mkWorld (<[p := party]> (w_parties w)) (w_sent w ++ (pair p <$> sends))
    ((pair p <$> recv) ++ w_received w).

Definition net_step (w : World) (ev : Event) : option World :=
  match ev with
  | Start p =>
    if decide (p ∈ pl_participants participants ∧ p ∉ byz) then
      match w_parties w !! p, do_broadcast participants p (input p) with
      | None, (sends, Some party) => Some (net_update w p sends party [])
      | _, _ => None
      end
    else None
  | Receive p q sid m =>
    if decide (q ∈ pl_participants participants ∧ q ≠ p ∧
               (q ∈ byz ∨ (q, (sid, m)) ∈ w_sent w)) then
      match w_parties w !! p with
      | Some (Waiting st) =>
        match rb_loop participants p (Send (input p)) rb_fuel st q sid m with
        | (sends, Some party) => Some (net_update w p sends party [(q, (sid, m))])
        | _ => None
        end
      | _ => None
      end
    else None
  end.

Fixpoint net_run (w : World) (evs : list Event) : option World :=
  match evs with
  | [] => Some w
  | ev :: evs => w' ← net_step w ev; net_run w' evs
  end.

Definition reachable (w : World) : Prop := ∃ evs, net_run net_init evs = Some w.

Lemma net_run_invariant (P : World → Prop) w evs w' :
  P w → (∀ w1 ev w2, P w1 → net_step w1 ev = Some w2 → P w2) →
  net_run w evs = Some w' → P w'.
Proof.
  intros Hw Hstep. revert w Hw. induction evs as [|ev evs IH]; intros w Hw; simpl.
  - by intros [= <-].
  - intros (w1 & E & Hrun)%bind_Some. by eapply IH, Hrun; eauto.
Qed.

Lemma reachable_ind (P : World → Prop) w :
  P net_init → (∀ w1 ev w2, P w1 → net_step w1 ev = Some w2 → P w2) → reachable w → P w.
Proof. intros ? ? [evs Hrun]. by eapply net_run_invariant. Qed.
End Histories.
Arguments World : clear implicits.
Arguments Event : clear implicits.

(** ** The start of a party *)

Section Safety.
Context {T : Type} `{EqDecision T}.
Context (participants : ParticipantList) (byz : gset Participant) (input : Participant → T).
Hypothesis participants_ok : ParticipantList_ok participants.
Hypothesis few_byz :
  (length (filter (λ p, p ∈ byz) (pl_participants participants)) ≤ max_faulty participants)%nat.

Implicit Types (S : list (Participant * SessionVote T)) (p q o : Participant) (d : T) (sid : nat).

Definition start_state : RbState T :=
  mkRbState (ParticipantMap_new participants)
    (replicate (n participants) (BroadcastProtocolState_new participants)).

Lemma do_broadcast_start p d :
  p ∈ pl_participants participants →
  ∃ sid, ParticipantList_index participants p = Ok sid ∧
  do_broadcast participants p d =
    let '(sends, party) :=
      rb_loop participants p (Send d) rb_fuel start_state p sid (Send d) in
    ((sid, Send d) :: sends, party).
Proof.
  intros Hp. destruct (ParticipantList_index_In participants p participants_ok) as [sid Hi];
    [by apply list_elem_of_In|]. exists sid. split; [done|].
  unfold do_broadcast, reliable_broadcast_send, reliable_broadcast_receive_all. by rewrite Hi.
Qed.

(** Nobody has voted yet. *)
Lemma votes_ok_new S sid mk :
  votes_ok participants byz S sid mk [] (ParticipantCounter_new participants).
Proof.
  split; [apply ParticipantCounter_new_ok, participants_ok|]. split; [done|]. exists [].
  split; [apply counts_nil|]. split; [constructor|]. intros q d Hin. by apply elem_of_nil in Hin.
Qed.

Lemma start_state_ok S p :
  (∀ sid d, (p, (sid, Echo d)) ∉ S) → state_ok participants byz S p start_state.
Proof.
  intros Hnew. split; [apply length_replicate|]. split.
  - split; [apply ParticipantMap_new_ok, participants_ok|]. split; [done|].
    intros o sid d _. simpl.
    destruct (ParticipantMap_new_ok (T := T) participants participants_ok) as [_ Hget].
    by rewrite Hget.
  - intros sid s [-> _]%lookup_replicate. split.
    + split; [apply votes_ok_new|]. split; [apply votes_ok_new|].
      intros d Hin. by apply Hnew in Hin.
    + by intros o _.
Qed.

Lemma hist_ok_nil : hist_ok participants byz input [].
Proof. split; intros *; rewrite elem_of_nil; tauto. Qed.

Lemma hist_ok_send S p sid :
  hist_ok participants byz input S → ParticipantList_index participants p = Ok sid →
  hist_ok participants byz input (S ++ [(p, (sid, Send (input p)))]).
Proof.
  intros HS Hi. split.
  - intros r sid' d Hr [Hin|Hin]%elem_of_app; [by eapply hist_send|].
    apply list_elem_of_singleton in Hin as [= -> -> ->]. done.
  - intros r sid' d1 d2 Hr H1 H2. eapply (hist_echo_unique _ _ _ S HS r sid'); set_solver.
  - intros r sid' d Hr [Hin|Hin]%elem_of_app; [by eapply hist_echo_valid|set_solver].
  - intros r sid' d Hr [Hin|Hin]%elem_of_app; [by eapply quorum_mono, hist_ready|set_solver].
Qed.

(** Messages of others do not disturb a party. *)
Lemma party_ok_other S p party q sends :
  q ≠ p → party_ok participants byz S p party →
  party_ok participants byz (S ++ (pair q <$> sends)) p party.
Proof.
  intros Hne. destruct party as [st|out|e|m]; simpl; [|intros [? ?]; eauto using output_ok_mono|done..].
  intros (Hlen & Hout & Hs). split; [done|]. split; [by apply output_ok_mono|].
  intros sid s Hin. destruct (Hs sid s Hin) as [(He & Hr & Hf) ?]. split; [|done].
  split; [by apply votes_ok_mono|]. split; [by apply votes_ok_mono|].
  intros d [?|(v & ? & ?)%list_elem_of_fmap]%elem_of_app; [eauto|]. simplify_eq.
Qed.

(** What holds after every history. *)
Definition world_ok (w : World T) : Prop :=
  hist_ok participants byz input (w_sent w) ∧
  (∀ p party, w_parties w !! p = Some party →
    p ∈ pl_participants participants ∧ (p ∉ byz) ∧ party_ok participants byz (w_sent w) p party) ∧
  ∀ p v, (p, v) ∈ w_sent w → is_Some (w_parties w !! p).

Lemma net_update_ok w p sends party recv :
  world_ok w → p ∈ pl_participants participants → p ∉ byz →
  hist_ok participants byz input (w_sent (net_update w p sends party recv)) →
  party_ok participants byz (w_sent (net_update w p sends party recv)) p party →
  world_ok (net_update w p sends party recv).
Proof.
  intros (HS & Hp & Hsent) ? ? HS' Hparty. split; [done|]. split.
  - intros q party' Hq. simpl in Hq. apply lookup_insert_Some in Hq as [[<- <-]|[Hne Hq]]; [done|].
    destruct (Hp q party' Hq) as (? & ? & ?). split; [done|]. split; [done|].
    by apply party_ok_other.
  - intros q v Hin. destruct (decide (q = p)) as [->|Hne]; simpl;
      [by rewrite lookup_insert_eq|rewrite lookup_insert_ne by done].
    apply elem_of_app in Hin as [?|(? & ? & ?)%list_elem_of_fmap]; [by eapply Hsent|]. simplify_eq.
Qed.

Lemma net_step_ok w ev w' :
  world_ok w → net_step participants byz input w ev = Some w' → world_ok w'.
Proof.
  intros Hw. pose proof Hw as (HS & Hp & Hsent). destruct ev as [p|p q sid m]; unfold net_step.
  - destruct (decide _) as [[Hin Hh]|]; [|done].
    destruct (w_parties w !! p) eqn:Ep; [done|].
    destruct (do_broadcast_start p (input p) Hin) as (sid & Hi & ->).
    destruct (rb_loop _ _ _ _ _ _ _ _) as [sends [party|]] eqn:E; [|done]. intros [= <-].
    assert (Hno : ∀ v, (p, v) ∉ w_sent w).
    { intros v Hv. apply Hsent in Hv as [? ?]. congruence. }
    pose proof (hist_ok_send _ _ _ HS Hi) as HS1.
    apply (rb_loop_ok participants byz input participants_ok few_byz _
      (w_sent w ++ [(p, (sid, Send (input p)))])) in E as [HS2 Hparty]; [|done..| |done|].
    + apply net_update_ok; simpl; [done..| |]; rewrite cons_middle, app_assoc; done.
    + apply start_state_ok. intros sid' d [Hv|Hv]%elem_of_app; [by apply Hno in Hv|set_solver].
    + right. set_solver.
  - destruct (decide _) as [(Hq & Hne & Hm)|]; [|done].
    destruct (w_parties w !! p) as [[st|?|?|?]|] eqn:Ep; try done.
    destruct (rb_loop participants p _ _ st q sid m) as [sends [party|]] eqn:E; [|done]. intros [= <-].
    destruct (Hp _ _ Ep) as (Hin & Hh & Hst).
    apply (rb_loop_ok participants byz input participants_ok few_byz _ (w_sent w)) in E
      as [HS' Hparty]; [|done..]. by apply net_update_ok.
Qed.

Lemma reachable_ok w : reachable participants byz input w → world_ok w.
Proof.
  apply reachable_ind; [|apply net_step_ok]. split; [apply hist_ok_nil|].
  split; [intros p party; simpl; by rewrite lookup_empty|]. intros p v Hin. by apply elem_of_nil in Hin.
Qed.
End Safety.
