(* ===== verification/EchoLiveness.v ===== *)
(** * Threshold signatures: progress of the echo broadcast

    What a party has done about the messages it has handled: it echoed the value
    of a sender, it sent [Ready] once a value had enough echoes or [Ready] votes,
    and a session it has not finished has not had enough votes.  When no message
    is left to handle, this forces the sessions to be finished. *)

From Stdlib Require Import ZArith Lia String.
From stdpp Require Import base list gmap sets.
From S2P Require Import TsTypes TsParticipants EchoBroadcast EchoBroadcastProofs EchoNetwork.

Open Scope Z_scope.

Section Progress.
Context {T : Type} `{EqDecision T}.
Context (participants : ParticipantList) (byz : gset Participant) (input : Participant → T).
Hypothesis participants_ok : ParticipantList_ok participants.
Hypothesis few_byz :
  (length (filter (λ p, p ∈ byz) (pl_participants participants)) ≤ max_faulty participants)%nat.

Implicit Types (S H : list (Participant * SessionVote T)) (p q o : Participant) (d : T) (sid : nat).

(** ** What a party owes to the messages it handled *)

(** Every seen voter is counted, and no value has more than [t] votes. *)
Definition tally S sid (mk : T → MessageType T) (l : CounterList T) (seen : ParticipantCounter)
    (t : nat) : Prop :=
  ∃ voters, counts l voters ∧ (∀ q, ParticipantCounter_has seen q = true → q ∈ voters.*1) ∧
    (∀ q d, (q, d) ∈ voters → sent_by byz S q sid (mk d)) ∧
    ∀ d, (length (filter (λ v, v.2 = d) voters) ≤ t)%nat.

(** Enough [Ready] votes to deliver a value. *)
Definition ready_full S sid d : Prop :=
  ∃ Q, NoDup Q ∧ Q ⊆ pl_participants participants ∧ (2 * ready_t participants < length Q)%nat ∧
  ∀ q, q ∈ Q → sent_by byz S q sid (Ready d).

(** The session [sid] of a party that sent [S] and handled the messages [H]. *)
Record session_live S p H sid (s : BroadcastProtocolState T) : Prop := {
  sl_send : ∀ q d, (q, (sid, Send d)) ∈ H → ParticipantList_index participants q = Ok sid →
    bp_finish_send s = true;
  sl_sent : bp_finish_send s = true → bp_finish_ready s = true ∨ ∃ d, (p, (sid, Echo d)) ∈ S;
  sl_echo_seen : ∀ q d, (q, (sid, Echo d)) ∈ H → q ∈ pl_participants participants →
    ParticipantCounter_has (bp_seen_echo s) q = true;
  sl_ready_seen : ∀ q d, (q, (sid, Ready d)) ∈ H → q ∈ pl_participants participants →
    ParticipantCounter_has (bp_seen_ready s) q = true;
  sl_echo : bp_finish_echo s = false →
    tally S sid Echo (bp_data_echo s) (bp_seen_echo s) (echo_t participants);
  sl_ready : bp_finish_ready s = false →
    tally S sid Ready (bp_data_ready s) (bp_seen_ready s)
      (if bp_finish_amplification s then 2 * ready_t participants else ready_t participants)%nat;
  sl_readied : bp_finish_echo s = true ∨ bp_finish_amplification s = true →
    ∃ d, (p, (sid, Ready d)) ∈ S;
  sl_done : bp_finish_ready s = true →
    bp_finish_send s = true ∧ bp_finish_amplification s = true ∧ ∃ d, ready_full S sid d;
}.

Definition state_live S p H (st : RbState T) : Prop :=
  ∀ sid s, rb_state st !! sid = Some s → session_live S p H sid s.

Definition pending (st : RbState T) : Prop := forallb bp_finish_ready (rb_state st) = false.

Lemma tally_mono S S' sid mk l seen t : tally S sid mk l seen t → tally (S ++ S') sid mk l seen t.
Proof. intros (voters & ? & ? & Hv & ?). exists voters. eauto 6 using sent_by_mono. Qed.

Lemma ready_full_mono S S' sid d : ready_full S sid d → ready_full (S ++ S') sid d.
Proof. intros (Q & ? & ? & ? & ?). exists Q. eauto 6 using sent_by_mono. Qed.

Lemma session_live_mono S S' p H sid s :
  session_live S p H sid s → session_live (S ++ S') p H sid s.
Proof.
  intros []. split; eauto using tally_mono.
  - intros Hf. destruct (sl_sent0 Hf) as [?|[d ?]]; [by left|right]. exists d. set_solver.
  - intros Hf. destruct (sl_readied0 Hf) as [d ?]. exists d. set_solver.
  - intros Hf. destruct (sl_done0 Hf) as (? & ? & d & ?). eauto using ready_full_mono.
Qed.

(** Handling a message of another session changes nothing. *)
Lemma session_live_other S p H sid s q sid' m :
  sid' ≠ sid → session_live S p H sid s → session_live S p ((q, (sid', m)) :: H) sid s.
Proof.
  intros Hne []. split; try done; intros r d [?|?]%elem_of_cons; simplify_eq; eauto.
Qed.

(** A voter that is not counted anew. *)
Lemma tally_skip S sid mk l seen t q seen' :
  ParticipantCounter_ok seen → tally S sid mk l seen t →
  ParticipantCounter_put seen q = (seen', false) → tally S sid mk l seen' t.
Proof.
  intros Hok (voters & ? & Hseen & ? & ?) Hput. exists voters. split; [done|]. split; [|done].
  destruct (ParticipantCounter_put_ok _ _ _ _ Hok Hput) as (_ & _ & Hb & Hhas).
  intros r. rewrite Hhas. destruct (Z.eqb_spec r q) as [->|]; [|apply Hseen].
  symmetry in Hb. apply andb_false_iff in Hb as [->|Hb%negb_false_iff]; [apply Hseen|].
  intros _. by apply Hseen.
Qed.

(** A voter that is counted. *)
Lemma tally_count S sid mk l seen t t' q d seen' c :
  ParticipantCounter_ok seen → tally S sid mk l seen t →
  ParticipantCounter_put seen q = (seen', true) → sent_by byz S q sid (mk d) →
  CounterList_get (CounterList_insert_or_increase_counter l d) d = Some c →
  (c ≤ t')%nat → (t ≤ t')%nat →
  tally S sid mk (CounterList_insert_or_increase_counter l d) seen' t'.
Proof.
  intros Hok (voters & Hc & Hseen & Hv & Ht) Hput Hsent Hget Hct Htt.
  rewrite (counts_get_insert l voters q d Hc) in Hget. injection Hget as Hget.
  destruct (ParticipantCounter_put_ok _ _ _ _ Hok Hput) as (_ & _ & Hb & Hhas).
  exists ((q, d) :: voters). split; [by apply counts_insert|]. split; [|split].
  - intros r. rewrite Hhas. csimpl. destruct (Z.eqb_spec r q) as [->|]; [by left|].
    intros Hr. right. by apply Hseen.
  - intros r d' [[= -> ->]|Hin]%elem_of_cons; auto.
  - intros d'. destruct (decide (d = d')) as [<-|Hne]; [lia|].
    rewrite filter_cons. simpl. rewrite decide_False by done. etrans; [apply Ht|done].
Qed.

Lemma put_seen (seen seen' : ParticipantCounter) q b r :
  ParticipantCounter_ok seen → pc_participants seen = participants →
  ParticipantCounter_put seen q = (seen', b) →
  (ParticipantCounter_has seen r = true → ParticipantCounter_has seen' r = true) ∧
  (q ∈ pl_participants participants → ParticipantCounter_has seen' q = true).
Proof.
  intros Hok Hl Hput. destruct (ParticipantCounter_put_ok _ _ _ _ Hok Hput) as (_ & _ & _ & Hhas).
  split; intros Hr; rewrite Hhas; [by rewrite Hr, orb_true_r|].
  rewrite Z.eqb_refl, Hl, (proj2 (ParticipantList_contains_In _ _ participants_ok)); [done|].
  by apply list_elem_of_In.
Qed.

Lemma forallb_insert {A} (f : A → bool) (l : list A) i x y :
  l !! i = Some x → f y = f x → forallb f (<[i := y]> l) = forallb f l.
Proof.
  revert i. induction l as [|a l IH]; intros [|i]; simpl; [done..| |].
  - by intros [= ->] ->.
  - intros Hi Hf. by rewrite (IH i).
Qed.

(** ** One iteration *)

(** What an iteration leads to, after the messages [S'] and handling [H']. *)
Definition control_live S' p H' sid (sends : list (SessionVote T))
    (r : result ProtocolError (Control T)) : Prop :=
  match r with
  | Ok (Next st) => sends = [] ∧ state_live S' p H' st ∧ pending st
  | Ok (Simulate st vote) => sends = [(sid, vote)] ∧ state_live S' p H' st ∧ pending st
  | Ok (Return _) => ∀ sid', (sid' < n participants)%nat →
      (∃ d, ready_full S' sid' d) ∧ ∃ d, (p, (sid', Ready d)) ∈ S'
  | _ => True
  end.

Section Iteration.
Context (S H : list (Participant * SessionVote T)) (p : Participant) (st : RbState T).
Context (s : BroadcastProtocolState T) (q : Participant) (sid : nat) (d : T).
Hypothesis st_ok : state_ok participants byz S p st.
Hypothesis st_live : state_live S p H st.
Hypothesis st_pending : pending st.
Hypothesis s_in : rb_state st !! sid = Some s.
Hypothesis q_in : q ∈ pl_participants participants.

(** Replacing the session. *)
Lemma put_live m sends out s' :
  session_live (extend S p sends) p ((q, (sid, m)) :: H) sid s' →
  state_live (extend S p sends) p ((q, (sid, m)) :: H)
    (mkRbState out (<[sid := s']> (rb_state st))).
Proof.
  intros Hs' sid' s'' Hin. simpl in Hin.
  apply list_lookup_insert_Some in Hin as [(-> & -> & _)|[? Hin]]; [done|].
  apply session_live_other; [done|]. by apply session_live_mono, st_live.
Qed.

Lemma put_pending s' :
  bp_finish_ready s' = bp_finish_ready s → pending (put_session st sid s').
Proof. intros Hf. unfold pending. simpl. by rewrite (forallb_insert _ _ _ s). Qed.

(** A message that is skipped. *)
Lemma skip_live m :
  session_live S p ((q, (sid, m)) :: H) sid s → state_live S p ((q, (sid, m)) :: H) st.
Proof.
  intros Hs sid' s' Hin. destruct (decide (sid' = sid)) as [->|Hne].
  - rewrite s_in in Hin. by injection Hin as <-.
  - apply session_live_other; [done|]. by apply st_live.
Qed.

Lemma rb_send_live sends r :
  rb_send participants st s q sid d = (sends, r) →
  control_live (extend S p sends) p ((q, (sid, Send d)) :: H) sid sends r.
Proof.
  pose proof (st_live _ _ s_in) as Hs. unfold rb_send.
  assert (Hskip : bp_finish_send s = true ∨ ParticipantList_index participants q ≠ Ok sid →
    state_live S p ((q, (sid, Send d)) :: H) st).
  { intros Hor. apply skip_live. destruct Hs. split; try done; [|set_solver..].
    intros r' d' [[= -> ->]|?]%elem_of_cons Hi; [by destruct Hor|eauto]. }
  destruct (bp_finish_send s) eqn:Ef.
  { intros [= <- <-]. unfold extend. rewrite app_nil_r. split; [done|]. split; [|done]. auto. }
  destruct (ParticipantList_index participants q) as [i| |] eqn:Hi; [|intros [= <- <-]; done..].
  destruct (decide (sid = i)) as [<-|Hne]; intros [= <- <-].
  - split; [done|]. split; [|by apply put_pending]. apply put_live.
    apply (session_live_mono _ (pair p <$> [(sid, Echo d)])) in Hs.
    destruct Hs. split; simpl; try done; [|set_solver..|].
    + right. exists d. set_solver.
    + intros Hf. by destruct (sl_done0 Hf).
  - unfold extend. rewrite app_nil_r. split; [done|]. split; [|done]. apply Hskip. right. congruence.
Qed.

(** The session after an [Echo] or a [Ready] vote of [q]. *)
Lemma echo_session S' data_echo seen_echo (finish_echo : bool) :
  session_live S' p H sid s →
  (∀ r : Participant, ParticipantCounter_has (bp_seen_echo s) r = true →
    ParticipantCounter_has seen_echo r = true) →
  ParticipantCounter_has seen_echo q = true →
  (finish_echo = false → tally S' sid Echo data_echo seen_echo (echo_t participants)) →
  (finish_echo = true → ∃ d, (p, (sid, Ready d)) ∈ S') →
  session_live S' p ((q, (sid, Echo d)) :: H) sid
    (mkBroadcastProtocolState data_echo (bp_data_ready s) seen_echo (bp_seen_ready s)
       (bp_finish_send s) finish_echo (bp_finish_amplification s) (bp_finish_ready s)).
Proof.
  intros [] Hmono Hq Ht Hr. split; simpl; try done; [set_solver| |set_solver|].
  - intros r d' [[= -> ->]|?]%elem_of_cons ?; [done|]. eauto.
  - intros [?|?]; auto.
Qed.

Lemma ready_session S' data_ready seen_ready (fs fe fa fr : bool) :
  session_live S' p H sid s →
  (∀ r : Participant, ParticipantCounter_has (bp_seen_ready s) r = true →
    ParticipantCounter_has seen_ready r = true) →
  ParticipantCounter_has seen_ready q = true →
  (fr = false → fs = bp_finish_send s ∧ fe = bp_finish_echo s ∧ bp_finish_ready s = false ∧
    tally S' sid Ready data_ready seen_ready
      (if fa then 2 * ready_t participants else ready_t participants)%nat) →
  (fa = true → ∃ d, (p, (sid, Ready d)) ∈ S') →
  (fr = true → fa = true ∧ (∃ d, ready_full S' sid d) ∧ fs = true ∧
    (fe = false → bp_finish_echo s = false)) →
  session_live S' p ((q, (sid, Ready d)) :: H) sid
    (mkBroadcastProtocolState (bp_data_echo s) data_ready (bp_seen_echo s) seen_ready fs fe fa fr).
Proof.
  intros [] Hmono Hq Ht Hr Hd. split; simpl.
  - intros r d' [[=]|Hin]%elem_of_cons Hi. destruct fr; [by apply Hd|].
    destruct (Ht eq_refl) as (-> & _). eauto.
  - destruct fr; [by left|]. destruct (Ht eq_refl) as (-> & _ & Hfr & _). intros Hs.
    destruct (sl_sent0 Hs); [congruence|by right].
  - set_solver.
  - intros r d' [[= -> ->]|?]%elem_of_cons ?; [done|]. eauto.
  - intros Hfe. apply sl_echo0. destruct fr; [by apply Hd|]. by destruct (Ht eq_refl) as (_ & <- & _).
  - intros Hfr. by apply Ht.
  - intros [Hfe|Hfa]; [|auto]. destruct fr; [by apply Hr, Hd|].
    destruct (Ht eq_refl) as (_ & -> & _). auto.
  - intros ->. by destruct (Hd eq_refl) as (? & ? & ? & _).
Qed.

Lemma rb_echo_live sends r :
  sent_by byz S q sid (Echo d) → rb_echo participants st s q sid d = (sends, r) →
  control_live (extend S p sends) p ((q, (sid, Echo d)) :: H) sid sends r.
Proof.
  intros Hsent. pose proof (st_live _ _ s_in) as Hs. destruct st_ok as (_ & _ & Hok).
  destruct (Hok _ _ s_in) as [((Hcnt & Hl & _) & _) _].
  unfold rb_echo. destruct (ParticipantCounter_put _ _) as [seen b] eqn:Hput.
  assert (Hmono := λ r : Participant, proj1 (put_seen _ _ _ _ r Hcnt Hl Hput)).
  assert (Hhas := proj2 (put_seen _ _ _ _ q Hcnt Hl Hput) q_in).
  destruct (negb b || bp_finish_echo s) eqn:Eb.
  { intros [= <- <-]. split; [done|]. split; [|by apply put_pending]. apply put_live.
    unfold extend. rewrite app_nil_r. apply echo_session; [done..| |].
    - intros Hf. rewrite Hf, orb_false_r in Eb. apply negb_true_iff in Eb as ->.
      by eapply tally_skip; [| apply (sl_echo _ _ _ _ _ Hs)|].
    - intros Hf. apply (sl_readied _ _ _ _ _ Hs). by left. }
  apply orb_false_iff in Eb as [->%negb_false_iff Efe].
  destruct (CounterList_get _ _) as [c|] eqn:Ec; [|by intros [= <- <-]].
  destruct (Nat.ltb_spec (echo_t participants) c) as [Hlt|Hge].
  { intros [= <- <-]. split; [done|]. split; [|by apply put_pending]. apply put_live.
    apply echo_session; [by apply session_live_mono|done..|]. intros _. exists d. set_solver. }
  destruct (negb (bp_finish_amplification s) && negb (echo_is_enough _ _)) eqn:Ee;
    intros [= <- <-]; [done|]. split; [done|]. split; [|by apply put_pending]. apply put_live.
  unfold extend. rewrite app_nil_r. apply echo_session; [done..| |congruence]. intros _.
  by eapply tally_count; [|apply (sl_echo _ _ _ _ _ Hs)|..].
Qed.

(** All sessions are finished. *)
Lemma finished_live S' H' st' :
  length (rb_state st') = n participants → state_live S' p H' st' →
  forallb bp_finish_ready (rb_state st') = true →
  ∀ sid', (sid' < n participants)%nat →
    (∃ d, ready_full S' sid' d) ∧ ∃ d, (p, (sid', Ready d)) ∈ S'.
Proof.
  intros Hlen Hl Hall sid' Hlt. rewrite <- Hlen in Hlt.
  destruct (lookup_lt_is_Some_2 _ _ Hlt) as [s' Hs']. specialize (Hl _ _ Hs').
  rewrite forallb_forall in Hall.
  destruct (sl_done _ _ _ _ _ Hl) as (_ & Hfa & Hfull).
  { apply Hall, list_elem_of_In. by eapply list_elem_of_lookup_2. }
  split; [done|]. apply (sl_readied _ _ _ _ _ Hl). by right.
Qed.

Lemma rb_ready_live sends r :
  sent_by byz S q sid (Ready d) →
  rb_ready participants p (Send (input p)) st s q sid d = (sends, r) →
  control_live (extend S p sends) p ((q, (sid, Ready d)) :: H) sid sends r.
Proof.
  intros Hsent. pose proof (st_live _ _ s_in) as Hs. destruct st_ok as (Hlen & _ & Hok).
  destruct (Hok _ _ s_in) as [(_ & Hv & _) _]. pose proof Hv as (Hcnt & Hl & _).
  unfold rb_ready. destruct (ParticipantCounter_put _ _) as [seen b] eqn:Hput.
  assert (Hmono := λ r : Participant, proj1 (put_seen _ _ _ _ r Hcnt Hl Hput)).
  assert (Hhas := proj2 (put_seen _ _ _ _ q Hcnt Hl Hput) q_in).
  destruct (negb b || bp_finish_ready s) eqn:Eb.
  { intros [= <- <-]. split; [done|]. split; [|by apply put_pending]. apply put_live.
    unfold extend. rewrite app_nil_r. apply ready_session; [done..| | |].
    - intros Hf. rewrite Hf, orb_false_r in Eb. apply negb_true_iff in Eb as ->.
      repeat (split; [done|]). by eapply tally_skip; [|apply (sl_ready _ _ _ _ _ Hs)|].
    - intros Hf. apply (sl_readied _ _ _ _ _ Hs). by right.
    - intros Hf. destruct (sl_done _ _ _ _ _ Hs Hf) as (-> & -> & ?). done. }
  apply orb_false_iff in Eb as [->%negb_false_iff Efr].
  destruct (votes_ok_put participants byz _ _ _ _ _ _ _ _ _ Hv q_in Hsent Hput) as [_ Hcount].
  destruct (Hcount eq_refl) as (_ & voters & Hnd & Hsub & Hvs & Ec). rewrite Ec.
  set (amplify := (_ <? _)%nat && _).
  set (sends' := if amplify then [(sid, Ready d)] else []).
  assert (Hr : amplify || bp_finish_amplification s = true →
    ∃ d, (p, (sid, Ready d)) ∈ extend S p sends').
  { unfold sends'. destruct amplify; simpl; [intros _; exists d; set_solver|].
    intros Hf. unfold extend. rewrite app_nil_r. apply (sl_readied _ _ _ _ _ Hs). by right. }
  assert (Hsend : ∀ st', state_live (extend S p sends') p ((q, (sid, Ready d)) :: H) st' → pending st' →
    control_live (extend S p sends') p ((q, (sid, Ready d)) :: H) sid sends'
      (Ok (if amplify then Simulate st' (Ready d) else Next st'))).
  { intros st' Hl' Hp'. unfold sends' in *. by destruct amplify. }
  destruct (Nat.ltb_spec (2 * ready_t participants) (length voters)) as [Hlt|Hge].
  - destruct (ParticipantList_get_participant _ _) as [o|]; [|by intros [= <- <-]].
    destruct (ParticipantList_index _ _) as [i| |]; [|by intros [= <- <-]..].
    destruct (_ && bool_decide _); [by intros [= <- <-]|]. cbn [rb_state rb_vote_output put_session].
    set (st' := mkRbState _ _).
    assert (Hlive : state_live (extend S p sends') p ((q, (sid, Ready d)) :: H) st').
    { apply put_live, ready_session; [by apply session_live_mono|done..| |].
      { exact Hr. }
      intros _. split; [|split; [|done]].
      - unfold amplify. destruct (Nat.ltb_spec (ready_t participants) (length voters)); [|lia].
        by destruct (bp_finish_amplification s).
      - exists d, voters. eauto 6 using sent_by_mono. }
    destruct (forallb bp_finish_ready _) eqn:Eall; intros [= <- <-].
    + intros sid' Hsid'. apply (finished_live _ ((q, (sid, Ready d)) :: H) st'); [|exact Hlive|exact Eall|done].
      simpl. by rewrite length_insert.
    + by apply Hsend.
  - intros [= <- <-]. apply Hsend; [|by apply put_pending]. apply put_live.
    apply ready_session; [by apply session_live_mono|done..| |exact Hr|congruence].
    intros _. repeat (split; [done|]). eapply tally_count; [done| |done| |exact Ec|..].
    + by apply tally_mono, (sl_ready _ _ _ _ _ Hs).
    + by apply sent_by_mono.
    + unfold amplify. destruct (Nat.ltb_spec (ready_t participants) (length voters));
        destruct (bp_finish_amplification s); simpl; lia.
    + destruct amplify, (bp_finish_amplification s); simpl; lia.
Qed.
End Iteration.

Lemma rb_iter_live S H p st q sid m sends r :
  state_ok participants byz S p st → state_live S p H st → pending st →
  q ∈ pl_participants participants → sent_by byz S q sid m →
  rb_iter participants p (Send (input p)) st q sid m = (sends, r) →
  control_live (extend S p sends) p ((q, (sid, m)) :: H) sid sends r.
Proof.
  intros Hok Hlive Hp Hq Hm. unfold rb_iter. destruct (rb_state st !! sid) as [s|] eqn:Es.
  - destruct m as [d|d|d]; [by apply rb_send_live|by apply rb_echo_live|by apply rb_ready_live].
  - intros [= <- <-]. unfold extend. rewrite app_nil_r. split; [done|]. split; [|done].
    intros sid' s' Hin. apply session_live_other; [congruence|]. by apply Hlive.
Qed.

(** ** A party and the network *)

(** A waiting party has handled [R] and all its own messages. *)
Definition party_live S p R (party : Party T) : Prop :=
  match party with
  | Waiting st => ∃ H, R ⊆ H ∧ (∀ v, (p, v) ∈ S → (p, v) ∈ H) ∧ state_live S p H st ∧ pending st
  | Delivered _ => ∀ sid, (sid < n participants)%nat →
      (∃ d, ready_full S sid d) ∧ ∃ d, (p, (sid, Ready d)) ∈ S
  | _ => True
  end.

Lemma rb_loop_live fuel S H R p st q sid m sends party :
  p ∈ pl_participants participants → p ∉ byz → hist_ok participants byz input S →
  state_ok participants byz S p st → state_live S p H st → pending st →
  R ⊆ (q, (sid, m)) :: H → (∀ v, (p, v) ∈ S → (p, v) ∈ (q, (sid, m)) :: H) →
  q ∈ pl_participants participants → sent_by byz S q sid m →
  rb_loop participants p (Send (input p)) fuel st q sid m = (sends, Some party) →
  party_live (extend S p sends) p R party.
Proof.
  revert S H st q m sends. induction fuel as [|fuel IH];
    intros S H st q m sends Hp Hh HS Hok Hlive Hpend HR Hown Hq Hm; [done|].
  simpl. destruct (rb_iter _ _ _ _ _ _ _) as [sends1 r] eqn:E.
  destruct (rb_iter_ok participants byz input participants_ok few_byz S p st q sid m sends1 r)
    as [HS1 Hr]; [done..|].
  apply (rb_iter_live S H) in E; [|done..].
  destruct r as [[st'|st' vote|out]|e|msg]; simpl in Hr, E.
  - destruct E as (-> & ? & ?). intros [= <- <-]. unfold extend in *. rewrite app_nil_r in *.
    by exists ((q, (sid, m)) :: H).
  - destruct E as (Hs1 & ? & ?). destruct Hr as [? Hvote].
    destruct (rb_loop _ _ _ _ _ _ _ _) as [sends2 party'] eqn:E2. intros [= <- ->].
    rewrite extend_app. apply (IH _ ((q, (sid, m)) :: H) st' p vote sends2); try done.
    + set_solver.
    + intros v [Hv|Hv]%elem_of_app; [right; by apply Hown|].
      rewrite Hs1 in Hv. cbn in Hv.
      apply list_elem_of_singleton in Hv as [= ->]. by left.
    + by right.
  - by intros [= <- <-].
  - by intros [= <- <-].
  - done.
Qed.

Lemma party_live_other S S' p R party :
  (∀ v, (p, v) ∉ S') → party_live S p R party → party_live (S ++ S') p R party.
Proof.
  intros Hno. destruct party as [st|out|e|m]; simpl; [| |done..].
  - intros (H & ? & Hown & Hlive & ?). exists H. split; [done|]. split; [|split; [|done]].
    + intros v [?|?]%elem_of_app; [auto|]. by destruct (Hno v).
    + intros sid s Hs. by apply session_live_mono, Hlive.
  - intros Hd sid Hlt. destruct (Hd sid Hlt) as [[d ?] [d' ?]]. split; [|exists d'; set_solver].
    exists d. by apply ready_full_mono.
Qed.

(** The messages a party received. *)
Definition received_by (w : World T) p : list (Participant * SessionVote T) :=
  (filter (λ x, x.1 = p) (w_received w)).*2.

Lemma received_by_elem w p x : x ∈ received_by w p ↔ (p, x) ∈ w_received w.
Proof.
  unfold received_by. rewrite list_elem_of_fmap. split.
  - intros ([p' x'] & -> & [? ?]%list_elem_of_filter). simpl in *. by subst.
  - intros Hin. exists (p, x). split; [done|]. by apply list_elem_of_filter.
Qed.

Lemma received_by_update w p sends party recv q :
  received_by (net_update w p sends party recv) q =
  if decide (q = p) then recv ++ received_by w p else received_by w q.
Proof.
  unfold received_by. simpl. rewrite filter_app, fmap_app. case_decide as Hd.
  - subst q. f_equal. induction recv as [|x recv IH]; [done|]. csimpl.
    rewrite filter_cons. simpl. rewrite decide_True by done. csimpl. by rewrite IH.
  - replace (filter _ (pair p <$> recv)) with ([] : list (Participant * (Participant * SessionVote T)));
      [done|]. induction recv as [|x recv IH]; [done|]. csimpl.
    rewrite filter_cons. simpl. by rewrite decide_False by done.
Qed.

Definition world_live (w : World T) : Prop :=
  (∀ p party, w_parties w !! p = Some party →
    party_live (w_sent w) p (received_by w p) party ∧
    ∃ sid, ParticipantList_index participants p = Ok sid ∧
      (p, (sid, Send (input p))) ∈ w_sent w) ∧
  ∀ p x, (p, x) ∈ w_received w → is_Some (w_parties w !! p).

Lemma tally_new S sid mk t : tally S sid mk [] (ParticipantCounter_new participants) t.
Proof.
  exists []. split; [apply counts_nil|]. split; [|split; [by intros ? ? ?%elem_of_nil|simpl; lia]].
  intros q. destruct (ParticipantCounter_new_ok participants participants_ok) as [_ Hnew].
  by rewrite Hnew.
Qed.

Lemma start_state_live S p : state_live S p [] (start_state participants).
Proof.
  intros sid s [-> _]%lookup_replicate.
  split; simpl; [by intros ? ? ?%elem_of_nil|done|by intros ? ? ?%elem_of_nil..| | | |done].
  - intros _. apply tally_new.
  - intros _. apply tally_new.
  - by intros [?|?].
Qed.

Lemma start_state_pending p :
  p ∈ pl_participants participants → pending (start_state (T := T) participants).
Proof.
  intros Hp. unfold pending, start_state, n, ParticipantList_len. simpl.
  by destruct (pl_participants participants); [apply elem_of_nil in Hp|].
Qed.

Lemma net_update_live w p sends party recv sid :
  world_live w → ParticipantList_index participants p = Ok sid →
  (p, (sid, Send (input p))) ∈ w_sent w ++ (pair p <$> sends) →
  party_live (w_sent w ++ (pair p <$> sends)) p (recv ++ received_by w p) party →
  world_live (net_update w p sends party recv).
Proof.
  intros [Hl Hrecv] Hi Hsend Hparty. split.
  - intros q party' Hq. rewrite received_by_update. simpl in *.
    apply lookup_insert_Some in Hq as [[<- <-]|[Hne Hq]].
    + rewrite decide_True by done. eauto.
    + rewrite decide_False by done. destruct (Hl q party' Hq) as [? (sid' & ? & ?)]. split.
      * apply party_live_other; [|done]. intros v (? & ? & ?)%list_elem_of_fmap. simplify_eq.
      * exists sid'. split; [done|]. apply elem_of_app. by left.
  - intros q x Hin. destruct (decide (q = p)) as [->|Hne]; simpl;
      [by rewrite lookup_insert_eq|rewrite lookup_insert_ne by done].
    apply elem_of_app in Hin as [(? & ? & ?)%list_elem_of_fmap|?]; [by simplify_eq|].
    by eapply Hrecv.
Qed.

Lemma net_step_live w ev w' :
  world_ok participants byz input w → world_live w →
  net_step participants byz input w ev = Some w' → world_live w'.
Proof.
  intros (HS & Hp & Hsent) Hlive. pose proof Hlive as [Hl Hrecv].
  destruct ev as [p|p q sid m]; unfold net_step.
  - destruct (decide _) as [[Hin Hh]|]; [|done].
    destruct (w_parties w !! p) eqn:Ep; [done|].
    destruct (do_broadcast_start participants participants_ok p (input p) Hin) as (sid & Hi & ->).
    destruct (rb_loop _ _ _ _ _ _ _ _) as [sends [party|]] eqn:E; [|done]. intros [= <-].
    assert (Hno : ∀ v, (p, v) ∉ w_sent w).
    { intros v Hv. apply Hsent in Hv as [? ?]. congruence. }
    assert (received_by w p = []) as Hempty.
    { destruct (received_by w p) as [|x l] eqn:Ex; [done|].
      assert (x ∈ received_by w p) as [? ?]%received_by_elem%Hrecv by (rewrite Ex; by left).
      congruence. }
    apply (rb_loop_live _ (w_sent w ++ [(p, (sid, Send (input p)))]) [] []) in E; try done.
    + apply (net_update_live _ _ _ _ _ sid); [done|done|set_solver|]. rewrite Hempty. simpl.
      by rewrite cons_middle, app_assoc.
    + by apply hist_ok_send.
    + apply start_state_ok; [done|]. intros sid' d [Hv|Hv]%elem_of_app; [by apply Hno in Hv|set_solver].
    + apply start_state_live.
    + by eapply start_state_pending.
    + intros v Hv%elem_of_nil. done.
    + intros v [Hv|Hv]%elem_of_app; [by apply Hno in Hv|]. apply list_elem_of_singleton in Hv as [= ->].
      by left.
    + right. set_solver.
  - destruct (decide _) as [(Hq & Hne & Hm)|]; [|done].
    destruct (w_parties w !! p) as [[st|?|?|?]|] eqn:Ep; try done.
    destruct (rb_loop _ _ _ _ _ _ _ _) as [sends [party|]] eqn:E; [|done]. intros [= <-].
    destruct (Hp _ _ Ep) as (Hin & Hh & Hst), (Hl _ _ Ep) as [(H & HR & Hown & Hsl & Hpe) (i & Hi & Hs)].
    apply (rb_loop_live _ (w_sent w) H ((q, (sid, m)) :: received_by w p)) in E; try done.
    + apply (net_update_live _ _ _ _ _ i); [done|done|set_solver|done].
    + set_solver.
    + intros v Hv. right. by apply Hown.
Qed.

Lemma reachable_live w : reachable participants byz input w → world_live w.
Proof.
  intros Hr. assert (world_ok participants byz input w ∧ world_live w) as [_ ?]; [|done].
  revert Hr. apply (reachable_ind _ _ _ (λ w, world_ok participants byz input w ∧ world_live w)).
  - split; [by apply reachable_ok; [..|exists []]|]. split; [intros ? ?; simpl; by rewrite lookup_empty|].
    by intros ? ? ?%elem_of_nil.
  - intros w1 ev w2 [Hok Hl] Hstep. split; [by eapply net_step_ok|by eapply net_step_live].
Qed.
End Progress.

(** ** Nothing left to handle *)

Section Quiescence.
Context {T : Type} `{EqDecision T}.
Context (participants : ParticipantList) (byz : gset Participant) (input : Participant → T).
Hypothesis participants_ok : ParticipantList_ok participants.
Hypothesis few_byz :
  (length (filter (λ p, p ∈ byz) (pl_participants participants)) ≤ max_faulty participants)%nat.

Implicit Types (S H : list (Participant * SessionVote T)) (p q o : Participant) (d : T) (sid : nat).

(** Every waiting party received every message of the others. *)
Definition quiescent (w : World T) : Prop :=
  ∀ p st, w_parties w !! p = Some (Waiting st) →
  ∀ q v, (q, v) ∈ w_sent w → q ≠ p → (p, (q, v)) ∈ w_received w.

(** Every honest party started, and none gave up. *)
Definition all_running (w : World T) : Prop :=
  ∀ p, p ∈ pl_participants participants → p ∉ byz →
  ∃ party, w_parties w !! p = Some party ∧ ∀ e, party ≠ Failed e.

(** The value a party has for the broadcast of [o]. *)
Definition party_value (party : Party T) o : option T :=
  match party with
  | Waiting st => ParticipantMap_get (rb_vote_output st) o
  | Delivered out => ParticipantMap_get out o
  | _ => None
  end.

Definition honest : list Participant := filter (λ p, p ∉ byz) (pl_participants participants).

Lemma honest_elem p : p ∈ honest ↔ p ∈ pl_participants participants ∧ p ∉ byz.
Proof using. unfold honest. rewrite list_elem_of_filter. split; by intros [? ?]. Qed.

Lemma honest_NoDup : NoDup honest.
Proof. apply NoDup_filter, participants_NoDup, participants_ok. Qed.

Lemma filter_split {A} (P : A → Prop) `{!∀ x, Decision (P x)} (l : list A) :
  (length (filter P l) + length (filter (λ x, ¬ P x) l) = length l)%nat.
Proof.
  induction l as [|x l IH]; [done|]. rewrite !filter_cons. repeat case_decide; simpl; try done; lia.
Qed.

(** Few members of a list of participants are faulty. *)
Lemma honest_members Q :
  NoDup Q → Q ⊆ pl_participants participants →
  (length Q ≤ length (filter (λ p, p ∉ byz) Q) + max_faulty participants)%nat.
Proof.
  intros HQ Hsub. rewrite <- (filter_split (λ p, p ∈ byz) Q).
  enough (length (filter (λ p, p ∈ byz) Q) ≤ max_faulty participants)%nat by lia.
  etrans; [|exact few_byz]. apply submseteq_length, NoDup_submseteq; [by apply NoDup_filter|].
  intros q [? ?]%list_elem_of_filter. apply list_elem_of_filter. auto.
Qed.

Lemma honest_enough :
  (0 < n participants)%nat →
  (echo_t participants < length honest)%nat ∧ (2 * ready_t participants < length honest)%nat.
Proof.
  intros Hn. pose proof (honest_members (pl_participants participants)
    (participants_NoDup participants participants_ok) ltac:(done)) as Hlen.
  change (length (pl_participants participants)) with (n participants) in Hlen.
  pose proof (echo_t_honest participants Hn). rewrite ready_t_faulty by done.
  fold honest in Hlen. split; [lia|]. unfold max_faulty in *.
  pose proof (Nat.div_mod (n participants - 1) 3 ltac:(lia)). lia.
Qed.

(** Voters that are seen and could only vote for [d] are bounded by the tally. *)
Lemma tally_bound S sid mk l seen t d Q :
  tally byz S sid mk l seen t → NoDup Q →
  (∀ q, q ∈ Q → ParticipantCounter_has seen q = true ∧
    ∀ d', sent_by byz S q sid (mk d') → d' = d) →
  (length Q ≤ t)%nat.
Proof.
  intros (voters & _ & Hseen & Hv & Ht) HQ Hq. etrans; [|apply (Ht d)].
  rewrite <- (length_fmap fst). apply submseteq_length, NoDup_submseteq; [done|].
  intros q Hin. destruct (Hq q Hin) as [Hhas Honly].
  apply Hseen, list_elem_of_fmap in Hhas as ([q' d'] & -> & Hv').
  apply list_elem_of_fmap. exists (q', d'). split; [done|]. apply list_elem_of_filter.
  split; [|done]. simpl. by apply Honly, Hv.
Qed.

Section AtRest.
Context (w : World T).
Hypothesis w_reachable : reachable participants byz input w.
Hypothesis w_quiescent : quiescent w.
Hypothesis w_running : all_running w.

Lemma w_hist : hist_ok participants byz input (w_sent w).
Proof. by apply reachable_ok in w_reachable as [? _]. Qed.

Lemma ready_agree q q' sid d d' :
  (sid < n participants)%nat → q ∉ byz → q' ∉ byz →
  (q, (sid, Ready d)) ∈ w_sent w → (q', (sid, Ready d')) ∈ w_sent w → d = d'.
Proof.
  intros Hlt Hq Hq' Hin Hin'. pose proof w_hist as HS.
  eapply (quorum_agree participants byz input); eauto using hist_ready.
Qed.

(** The sessions of a waiting party, which handled everything. *)
Lemma waiting_sessions p st sid :
  w_parties w !! p = Some (Waiting st) → (sid < n participants)%nat →
  ∃ s H, rb_state st !! sid = Some s ∧ session_live participants byz (w_sent w) p H sid s ∧
  (∀ x, x ∈ w_sent w → x ∈ H) ∧ finished_ok participants (rb_vote_output st) sid s.
Proof.
  intros Hp Hlt. destruct (reachable_ok participants byz input participants_ok few_byz w w_reachable)
    as (_ & Hok & _). destruct (Hok _ _ Hp) as (_ & _ & Hlen & _ & Hs).
  destruct (reachable_live participants byz input participants_ok few_byz w w_reachable) as [Hlive _].
  destruct (Hlive _ _ Hp) as [(H & HR & Hown & Hl & _) _]. rewrite <- Hlen in Hlt.
  destruct (lookup_lt_is_Some_2 _ _ Hlt) as [s Hin]. exists s, H. split; [done|].
  split; [by apply Hl|]. split; [|by apply Hs]. intros [q v] Hx.
  destruct (decide (q = p)) as [->|Hne]; [by apply Hown|].
  apply HR, received_by_elem. by eapply w_quiescent.
Qed.

(** A running honest party waits or has returned. *)
Lemma running_party p :
  p ∈ honest → ∃ party, w_parties w !! p = Some party ∧
  ((∃ st, party = Waiting st) ∨ ∃ out, party = Delivered out).
Proof.
  intros [Hp Hh]%honest_elem. destruct (w_running p Hp Hh) as (party & Hparty & Hne).
  destruct (reachable_ok participants byz input participants_ok few_byz w w_reachable) as (_ & Hok & _).
  destruct (Hok _ _ Hparty) as (_ & _ & Hpok). exists party. split; [done|].
  destruct party as [st|out|e|m]; [by left; eauto|by right; eauto|by destruct (Hne e)|done].
Qed.

Lemma delivered_live p out sid :
  w_parties w !! p = Some (Delivered out) → (sid < n participants)%nat →
  (∃ d, ready_full participants byz (w_sent w) sid d) ∧ ∃ d, (p, (sid, Ready d)) ∈ w_sent w.
Proof.
  intros Hp Hlt.
  destruct (reachable_live participants byz input participants_ok few_byz w w_reachable) as [Hlive _].
  destruct (Hlive _ _ Hp) as [Hd _]. by apply Hd.
Qed.

(** Votes for a session reach every waiting party. *)
Lemma ready_handled p H sid s Q d :
  session_live participants byz (w_sent w) p H sid s → (∀ x, x ∈ w_sent w → x ∈ H) →
  bp_finish_ready s = false → (sid < n participants)%nat →
  NoDup Q → (∀ q, q ∈ Q → q ∈ honest ∧ (q, (sid, Ready d)) ∈ w_sent w) →
  (length Q ≤ if bp_finish_amplification s then 2 * ready_t participants else ready_t participants)%nat.
Proof.
  intros Hs Hall Hf Hlt HQ Hq. eapply (tally_bound _ _ _ _ _ _ d); [by apply Hs|done|].
  intros q [[Hin Hh]%honest_elem Hsent]%Hq. split.
  - eapply (sl_ready_seen _ _ _ _ _ _ _ Hs); [|done]. by apply Hall.
  - intros d' [?|Hin']; [done|]. by eapply ready_agree.
Qed.

(** One full set of [Ready] votes makes every honest party send [Ready]. *)
Lemma full_readied sid d p :
  (sid < n participants)%nat → ready_full participants byz (w_sent w) sid d → p ∈ honest →
  ∃ d', (p, (sid, Ready d')) ∈ w_sent w.
Proof.
  intros Hlt (Q & HQ & Hsub & Hlen & Hsent) Hp.
  destruct (running_party p Hp) as (party & Hparty & [[st ->]|[out ->]]);
    [|by eapply delivered_live].
  destruct (waiting_sessions p st sid Hparty Hlt) as (s & H & _ & Hs & Hall & _).
  apply (sl_readied _ _ _ _ _ _ _ Hs). right.
  destruct (bp_finish_ready s) eqn:Ef; [by apply (sl_done _ _ _ _ _ _ _ Hs)|].
  destruct (bp_finish_amplification s) eqn:Ea; [done|]. exfalso.
  pose proof (ready_handled p H sid s (filter (λ q, q ∉ byz) Q) d Hs Hall Ef Hlt) as Hb.
  rewrite Ea in Hb. pose proof (honest_members Q HQ Hsub) as Hm.
  rewrite ready_t_faulty in * by lia.
  enough (length (filter (λ q, q ∉ byz) Q) ≤ max_faulty participants)%nat by lia.
  apply Hb; [by apply NoDup_filter|]. intros q [Hh Hin]%list_elem_of_filter.
  split; [apply honest_elem; auto|]. by destruct (Hsent q Hin).
Qed.

(** When every honest party sent [Ready], every honest party finishes. *)
Lemma readied_done sid p st :
  (sid < n participants)%nat → (∀ q, q ∈ honest → ∃ d, (q, (sid, Ready d)) ∈ w_sent w) →
  w_parties w !! p = Some (Waiting st) →
  ∃ s, rb_state st !! sid = Some s ∧ bp_finish_ready s = true ∧
    finished_ok participants (rb_vote_output st) sid s.
Proof.
  intros Hlt Hready Hp.
  destruct (waiting_sessions p st sid Hp Hlt) as (s & H & Hin & Hs & Hall & Hfin).
  exists s. split; [done|]. split; [|done]. destruct (bp_finish_ready s) eqn:Ef; [done|]. exfalso.
  destruct (honest_enough ltac:(lia)) as [_ Hlen].
  destruct honest as [|q0 Q] eqn:EQ; [simpl in Hlen; lia|]. rewrite <- EQ in *.
  destruct (Hready q0) as [d Hd]; [rewrite EQ; by left|].
  assert (q0 ∉ byz) as Hq0 by (eapply honest_elem; rewrite EQ; by left).
  pose proof (ready_handled p H sid s honest d Hs Hall Ef Hlt honest_NoDup) as Hb.
  enough (length honest ≤ 2 * ready_t participants)%nat by lia.
  etrans; [apply Hb|destruct (bp_finish_amplification s); lia].
  intros q Hq. split; [done|]. destruct (Hready q Hq) as [d' Hd'].
  apply honest_elem in Hq as [_ Hq]. by rewrite (ready_agree q0 q sid d d').
Qed.

(** Whether a party is done with a session. *)
Definition party_done sid (party : Party T) : bool :=
  match party with
  | Waiting st => from_option bp_finish_ready false (rb_state st !! sid)
  | Delivered _ => true
  | _ => false
  end.

Lemma done_readied sid p party q :
  (sid < n participants)%nat → w_parties w !! p = Some party → party_done sid party = true →
  q ∈ honest → ∃ d, (q, (sid, Ready d)) ∈ w_sent w.
Proof.
  intros Hlt Hp Hd Hq.
  assert (∃ d, ready_full participants byz (w_sent w) sid d) as [d Hfull]; [|by eapply full_readied].
  destruct party as [st|out|e|m]; [|by eapply delivered_live|done..].
  destruct (waiting_sessions p st sid Hp Hlt) as (s & H & Hin & Hs & _).
  simpl in Hd. rewrite Hin in Hd. by apply (sl_done _ _ _ _ _ _ _ Hs).
Qed.

(** While nobody is done, the value of an honest sender is echoed by everyone. *)
Lemma everyone_echoes sid o q :
  ParticipantList_index participants o = Ok sid → o ∈ honest →
  (∀ p party, p ∈ honest → w_parties w !! p = Some party → party_done sid party = false) →
  q ∈ honest → (q, (sid, Echo (input o))) ∈ w_sent w.
Proof.
  intros Ho Hoh Hno Hq. destruct (index_elem _ participants_ok _ _ Ho) as [_ Hlt].
  destruct (running_party q Hq) as (party & Hparty & [[st ->]|[out ->]]);
    [|by specialize (Hno _ _ Hq Hparty)].
  destruct (waiting_sessions q st sid Hparty Hlt) as (s & H & Hin & Hs & Hall & _).
  specialize (Hno _ _ Hq Hparty). simpl in Hno. rewrite Hin in Hno. simpl in Hno.
  destruct (running_party o Hoh) as (oparty & Hoparty & _).
  destruct (reachable_live participants byz input participants_ok few_byz w w_reachable) as [Hlive _].
  destruct (Hlive _ _ Hoparty) as [_ (sid' & Ho' & Hsend)].
  rewrite Ho in Ho'. injection Ho' as <-.
  destruct (sl_sent _ _ _ _ _ _ _ Hs) as [?|[d Hd]]; [|congruence|].
  { by eapply (sl_send _ _ _ _ _ _ _ Hs), Ho; apply Hall. }
  apply honest_elem in Hq as [_ Hqh], Hoh as [_ Hoh].
  destruct (hist_echo_valid _ _ _ _ w_hist q sid d Hqh Hd) as (o' & Ho' & Hv).
  by rewrite (index_inj _ participants_ok _ _ _ Ho Ho'), <- (Hv ltac:(by rewrite <- (index_inj _ participants_ok _ _ _ Ho Ho'))).
Qed.

(** A session of an honest sender gets [Ready] votes from every honest party. *)
Lemma honest_readied sid o q :
  ParticipantList_index participants o = Ok sid → o ∈ honest → q ∈ honest →
  ∃ d, (q, (sid, Ready d)) ∈ w_sent w.
Proof.
  intros Ho Hoh Hq. destruct (index_elem _ participants_ok _ _ Ho) as [_ Hlt].
  destruct (decide (Exists (λ p, from_option (party_done sid) false (w_parties w !! p) = true) honest))
    as [Hex|Hno].
  { apply Exists_exists in Hex as (p & Hp & Hd). destruct (w_parties w !! p) as [party|] eqn:E; [|done].
    by eapply done_readied. }
  assert (Hnone : ∀ p party, p ∈ honest → w_parties w !! p = Some party → party_done sid party = false).
  { intros p party Hp E. apply not_true_is_false. intros Hd. apply Hno, Exists_exists.
    exists p. split; [done|]. by rewrite E. }
  destruct (running_party q Hq) as (party & Hparty & [[st ->]|[out ->]]); [|by eapply delivered_live].
  destruct (waiting_sessions q st sid Hparty Hlt) as (s & H & Hin & Hs & Hall & _).
  apply (sl_readied _ _ _ _ _ _ _ Hs). left. apply not_false_is_true. intros Hfe.
  destruct (honest_enough ltac:(lia)) as [Hlen _].
  enough (length honest ≤ echo_t participants)%nat by lia.
  eapply (tally_bound _ _ _ _ _ _ (input o)); [by apply Hs|apply honest_NoDup|].
  intros r Hr. pose proof (everyone_echoes sid o r Ho Hoh Hnone Hr) as Hecho.
  apply honest_elem in Hr as [Hr Hrh]. split.
  - eapply (sl_echo_seen _ _ _ _ _ _ _ Hs); [|done]. by apply Hall.
  - intros d' [?|Hd']; [done|]. by eapply (hist_echo_unique _ _ _ _ w_hist r).
Qed.

(** A party has the value of every honest sender. *)
Lemma honest_value p party o :
  p ∈ honest → w_parties w !! p = Some party → o ∈ honest → party_value party o = Some (input o).
Proof.
  intros Hp Hparty Ho. pose proof Ho as [Hoin Hoh]%honest_elem.
  destruct (ParticipantList_index_In participants o participants_ok) as [sid Hi];
    [by apply list_elem_of_In|]. destruct (index_elem _ participants_ok _ _ Hi) as [_ Hlt].
  destruct (reachable_ok participants byz input participants_ok few_byz w w_reachable) as (HS & Hok & _).
  destruct (Hok _ _ Hparty) as (_ & _ & Hpok).
  assert (∃ d, party_value party o = Some d ∧ quorum participants byz (w_sent w) sid d)
    as (d & -> & Hquorum).
  { destruct (running_party p Hp) as (party' & Hparty' & Hcase).
    rewrite Hparty in Hparty'. injection Hparty' as <-.
    destruct Hcase as [[st ->]|[out ->]]; simpl in *.
    - destruct (readied_done sid p st Hlt) as (s & _ & Hf & Hfin); [|done|].
      { intros q Hq. by eapply honest_readied. }
      destruct (Hfin o Hi Hf) as [d Hd]. exists d. split; [done|].
      destruct Hpok as (_ & (_ & _ & Hout) & _). by eapply Hout.
    - destruct Hpok as [(_ & _ & Hout) Hfull]. destruct (Hfull o Hoin) as [d Hd]. eauto. }
  by rewrite (quorum_valid participants byz input participants_ok few_byz (w_sent w) sid d o).
Qed.

(** When all sessions have their [Ready] votes every honest party returned. *)
Lemma all_delivered p :
  (∀ sid q, (sid < n participants)%nat → q ∈ honest → ∃ d, (q, (sid, Ready d)) ∈ w_sent w) →
  p ∈ honest → ∃ out, w_parties w !! p = Some (Delivered out).
Proof.
  intros Hready Hp. destruct (running_party p Hp) as (party & Hparty & [[st ->]|[out ->]]); [|eauto].
  exfalso. destruct (reachable_live participants byz input participants_ok few_byz w w_reachable)
    as [Hlive _]. destruct (Hlive _ _ Hparty) as [(_ & _ & _ & _ & Hpend) _].
  destruct (reachable_ok participants byz input participants_ok few_byz w w_reachable) as (_ & Hok & _).
  destruct (Hok _ _ Hparty) as (_ & _ & Hlen & _).
  unfold pending in Hpend. rewrite (proj2 (forallb_forall _ _)) in Hpend; [done|].
  intros s [sid Hs]%list_elem_of_In%list_elem_of_lookup.
  assert (sid < n participants)%nat as Hlt by (rewrite <- Hlen; by eapply lookup_lt_Some).
  destruct (readied_done sid p st Hlt) as (s' & Hs' & ? & _); [by intros; apply Hready|done|].
  congruence.
Qed.
End AtRest.
End Quiescence.
