(* ===== verification/EchoTheorems.v ===== *)
(** * Threshold signatures: what the echo broadcast promises

    The properties of the broadcast, over all histories of a network in which at
    most [(n-1)/3] of the [n] participants are faulty, with a network of four as
    the example. *)

From Stdlib Require Import ZArith Lia String.
From stdpp Require Import base list gmap sets.
From S2P Require Import TsTypes TsParticipants EchoBroadcast EchoBroadcastProofs EchoNetwork EchoLiveness.

Open Scope Z_scope.

(** ** The number of messages *)

Section Budget.
Context {T : Type} `{EqDecision T}.
Context (participants : ParticipantList) (me : Participant) (send_vote : MessageType T).

(** Messages a session may still send: an echo, a ready and an amplified ready. *)
Definition session_budget (s : BroadcastProtocolState T) : nat :=
  Nat.b2n (negb (bp_finish_send s)) + Nat.b2n (negb (bp_finish_echo s)) +
  Nat.b2n (negb (bp_finish_amplification s)).

Definition budget (st : RbState T) : nat := sum_list_with session_budget (rb_state st).

Definition party_budget (party : Party T) : nat :=
  match party with Waiting st => budget st | _ => 0 end.

(** All messages a party sends when it receives [msgs] one after the other. *)
Fixpoint party_run (party : Party T) (msgs : list (Participant * SessionVote T)) :
    list (SessionVote T) :=
  match msgs, party with
  | (from, (sid, vote)) :: msgs, Waiting st =>
    match rb_loop participants me send_vote rb_fuel st from sid vote with
    | (sends, Some party) => sends ++ party_run party msgs
    | (sends, None) => sends
    end
  | _, _ => []
  end.

Lemma sum_insert (f : BroadcastProtocolState T → nat) l i x y :
  l !! i = Some x → (sum_list_with f (<[i := y]> l) + f x = sum_list_with f l + f y)%nat.
Proof.
  revert i. induction l as [|a l IH]; intros [|i]; simpl; [done..| |].
  - intros [= ->]. lia.
  - intros Hi. specialize (IH i Hi). lia.
Qed.

Lemma put_budget st sid s s' out :
  rb_state st !! sid = Some s →
  (budget (mkRbState out (<[sid := s']> (rb_state st))) + session_budget s =
   budget st + session_budget s')%nat.
Proof. apply sum_insert. Qed.

Definition control_budget (r : result ProtocolError (Control T)) : nat :=
  match r with Ok (Next st) | Ok (Simulate st _) => budget st | _ => 0 end.

(** Compare the budget of the state with that of its update. *)
Ltac solve_budget Es :=
  intros [= <- <-]; unfold control_budget, put_session;
  try match goal with
  | |- context [budget (mkRbState ?o (@insert _ _ _ _ _ ?s' _))] =>
    pose proof (put_budget _ _ _ s' o Es)
  end;
  unfold session_budget in *; simpl in *.

Lemma session_budget_le st sid s :
  rb_state st !! sid = Some s → (session_budget s ≤ budget st)%nat.
Proof.
  unfold budget. revert sid. induction (rb_state st) as [|a l IH]; intros [|sid]; simpl; [done..| |].
  - intros [= ->]. lia.
  - intros Hs. specialize (IH sid Hs). lia.
Qed.

Lemma rb_iter_budget st from sid vote sends r :
  rb_iter participants me send_vote st from sid vote = (sends, r) →
  (length sends + control_budget r ≤ budget st)%nat.
Proof.
  unfold rb_iter. destruct (rb_state st !! sid) as [s|] eqn:Es; [|by intros [= <- <-]].
  pose proof (session_budget_le _ _ _ Es). destruct vote as [d|d|d].
  - unfold rb_send. destruct (bp_finish_send s) eqn:Ef; [by intros [= <- <-]|].
    repeat case_match; solve_budget Es; rewrite ?Ef in *; simpl in *; lia.
  - unfold rb_echo. destruct (ParticipantCounter_put _ _) as [seen b].
    destruct (bp_finish_echo s) eqn:Ef;
      repeat case_match; solve_budget Es; rewrite ?Ef in *; simpl in *; lia.
  - unfold rb_ready. destruct (ParticipantCounter_put _ _) as [seen b].
    destruct (bp_finish_amplification s) eqn:Ef;
      repeat case_match; solve_budget Es; rewrite ?Ef in *; simpl in *; lia.
Qed.

Lemma rb_loop_budget fuel st from sid vote sends party :
  rb_loop participants me send_vote fuel st from sid vote = (sends, party) →
  (length sends + from_option party_budget 0 party ≤ budget st)%nat.
Proof.
  revert st from vote sends. induction fuel as [|fuel IH]; intros st from vote sends; simpl.
  { intros [= <- <-]. simpl. lia. }
  destruct (rb_iter _ _ _ _ _ _ _) as [sends1 r] eqn:E. apply rb_iter_budget in E.
  destruct r as [[st'|st' vote'|out]|e|m]; simpl in E; try (intros [= <- <-]; simpl; lia).
  destruct (rb_loop _ _ _ _ _ _ _ _) as [sends2 party'] eqn:E2. intros [= <- <-].
  apply IH in E2. rewrite length_app. lia.
Qed.

Lemma party_run_budget party msgs : (length (party_run party msgs) ≤ party_budget party)%nat.
Proof.
  revert party. induction msgs as [|[from [sid vote]] msgs IH]; intros party; [simpl; lia|].
  destruct party as [st|out|e|m]; cbn [party_run]; [|simpl; lia..].
  destruct (rb_loop _ _ _ _ _ _ _ _) as [sends [party|]] eqn:E; apply rb_loop_budget in E; simpl in *.
  - specialize (IH party). rewrite length_app. lia.
  - lia.
Qed.

Lemma start_budget : budget (start_state (T := T) participants) = (3 * n participants)%nat.
Proof. unfold budget, start_state. simpl. induction (n participants); simpl in *; lia. Qed.
End Budget.

(** However many messages arrive and whatever they say, one run of the
    broadcast sends each of the others at most [1 + 3n] messages: its own value
    and, per session, an echo, a ready and an amplified ready. *)
Theorem broadcast_sends_bounded {T} `{EqDecision T} (participants : ParticipantList)
    (me : Participant) (data : T) (msgs : list (Participant * SessionVote T)) :
  let '(sends, party) := do_broadcast participants me data in
  (length sends + length (from_option (λ party,
     party_run participants me (Send data) party msgs) [] party)
   ≤ 1 + 3 * n participants)%nat.
Proof.
  unfold do_broadcast, reliable_broadcast_send, reliable_broadcast_receive_all.
  destruct (ParticipantList_index participants me) as [sid|e|m];
    [|destruct msgs as [|[? [? ?]] ?]; simpl; lia..].
  destruct (rb_loop _ _ _ _ _ _ _ _) as [sends party] eqn:E. apply rb_loop_budget in E.
  change (mkRbState _ _) with (start_state (T := T) participants) in E. rewrite start_budget in E.
  destruct party as [party|]; simpl in *; [|lia].
  pose proof (party_run_budget participants me (Send data) party msgs). lia.
Qed.

Lemma rb_loop_more {T} `{EqDecision T} (participants : ParticipantList) me (send_vote : MessageType T)
    fuel more st from sid vote sends party :
  rb_loop participants me send_vote fuel st from sid vote = (sends, Some party) →
  rb_loop participants me send_vote (fuel + more) st from sid vote = (sends, Some party).
Proof.
  revert st from vote sends. induction fuel as [|fuel IH]; intros st from vote sends; simpl; [done|].
  destruct (rb_iter _ _ _ _ _ _ _) as [sends1 [[st'|st' vote'|out]|e|m]]; try done.
  destruct (rb_loop _ _ _ fuel _ _ _ _) as [sends2 party'] eqn:E. intros [= <- ->].
  by rewrite (IH _ _ _ _ E).
Qed.

(** C37: A received message is handled, with the votes the party then simulates
    for itself, in at most four iterations of the loop: with fuel for four the
    party is waiting again or has ended, and more fuel changes nothing. *)
Theorem broadcast_step_terminates {T} `{EqDecision T} (participants : ParticipantList)
    (me : Participant) (send_vote : MessageType T) (st : RbState T) (from : Participant)
    (sid : nat) (vote : MessageType T) :
  ∃ sends party, ∀ more,
    rb_loop participants me send_vote (4 + more) st from sid vote = (sends, Some party).
Proof.
  pose proof (rb_loop_total participants me send_vote 4 st from sid vote) as H.
  destruct (rb_loop _ _ _ _ _ _ _ _) as [sends [party|]] eqn:E.
  - exists sends, party. intros more. by apply rb_loop_more.
  - destruct H; [|done]. pose proof (vote_measure_bound st sid vote). lia.
Qed.

(** ** Guarantees of the network *)

Section Guarantees.
Context {T : Type} `{EqDecision T}.
Context (participants : ParticipantList) (byz : gset Participant) (input : Participant → T).

(** At most a third of the participants is faulty. *)
Definition faults_ok : Prop :=
  ParticipantList_ok participants ∧
  (length (filter (λ p, p ∈ byz) (pl_participants participants)) ≤ max_faulty participants)%nat.

Lemma party_value_quorum w p party o sid d :
  faults_ok → reachable participants byz input w → w_parties w !! p = Some party →
  ParticipantList_index participants o = Ok sid → party_value party o = Some d →
  quorum participants byz (w_sent w) sid d.
Proof.
  intros [Hl Hb] Hw Hp Ho Hd. apply reachable_ok in Hw as (_ & Hok & _); [|done..].
  destruct (Hok _ _ Hp) as (_ & _ & Hparty). destruct party as [st|out|e|m]; simpl in *; [| |done..].
  - destruct Hparty as (_ & (_ & _ & Hq) & _). by eapply Hq.
  - destruct Hparty as ((_ & _ & Hq) & _). by eapply Hq.
Qed.
End Guarantees.

(** C13: Agreement and validity.  In every history with at most [(n-1)/3] faulty
    participants, the values that two honest parties have for the broadcast of a
    participant are equal, are the value it sent when it is honest, and a party
    that returned has a value for every participant. *)
Theorem broadcast_agreement {T} `{EqDecision T} (participants : ParticipantList)
    (byz : gset Participant) (input : Participant → T) (w : World T)
    (p p' o : Participant) (party party' : Party T) :
  faults_ok participants byz → reachable participants byz input w →
  w_parties w !! p = Some party → w_parties w !! p' = Some party' →
  o ∈ pl_participants participants →
  (∀ d d', party_value party o = Some d → party_value party' o = Some d' → d = d') ∧
  (∀ d, party_value party o = Some d → o ∉ byz → d = input o) ∧
  (∀ out, party = Delivered out → is_Some (ParticipantMap_get out o)).
Proof.
  intros Hf Hw Hp Hp' Ho. pose proof Hf as [Hl Hb].
  destruct (ParticipantList_index_In participants o Hl) as [sid Hi]; [by apply list_elem_of_In|].
  destruct (index_elem _ Hl _ _ Hi) as [_ Hlt].
  pose proof (reachable_ok participants byz input Hl Hb w Hw) as (HS & Hok & _).
  split; [|split].
  - intros d d' Hd Hd'.
    eapply (quorum_agree participants byz input); eauto using party_value_quorum.
  - intros d Hd Hh. eapply (quorum_valid participants byz input); eauto using party_value_quorum.
  - intros out ->. destruct (Hok _ _ Hp) as (_ & _ & _ & Hfull). by apply Hfull.
Qed.

(** An honest party never panics, and gives up only with the error that names
    a session whose sender is faulty. *)
Theorem broadcast_blames_sender {T} `{EqDecision T} (participants : ParticipantList)
    (byz : gset Participant) (input : Participant → T) (w : World T)
    (p : Participant) (party : Party T) :
  faults_ok participants byz → reachable participants byz input w →
  w_parties w !! p = Some party →
  (∀ msg, party ≠ Panicked msg) ∧
  (∀ e, party = Failed e → ∃ o sid, ParticipantList_index participants o = Ok sid ∧
    o ∈ byz ∧ e = malicious_sender sid).
Proof.
  intros [Hl Hb] Hw Hp. destruct (reachable_ok participants byz input Hl Hb w Hw) as (_ & Hok & _).
  destruct (Hok _ _ Hp) as (_ & _ & Hparty). split.
  - by intros msg ->.
  - intros e ->. destruct Hparty as (o & sid & ? & ? & ?). eauto.
Qed.

(** C23: Progress.  When all honest parties run and have handled each other's
    messages, every honest party has the value of every honest sender; if one of
    them returned then all did; and without faulty participants all returned. *)
Theorem broadcast_progress {T} `{EqDecision T} (participants : ParticipantList)
    (byz : gset Participant) (input : Participant → T) (w : World T) :
  faults_ok participants byz → reachable participants byz input w →
  quiescent w → all_running participants byz w →
  (∀ p party o, w_parties w !! p = Some party → o ∈ pl_participants participants → o ∉ byz →
    party_value party o = Some (input o)) ∧
  ((∃ p out, w_parties w !! p = Some (Delivered out)) ∨
   (∀ o, o ∈ pl_participants participants → o ∉ byz) →
   ∀ p, p ∈ pl_participants participants → p ∉ byz →
     ∃ out, w_parties w !! p = Some (Delivered out)).
Proof.
  intros [Hl Hb] Hw Hq Hr. split.
  - intros p party o Hp Ho Hh.
    destruct (reachable_ok participants byz input Hl Hb w Hw) as (_ & Hok & _).
    destruct (Hok _ _ Hp) as (? & ? & _).
    eapply (honest_value participants byz input Hl Hb w Hw Hq Hr); [|done|]; by apply honest_elem.
  - intros Hor p Hp Hh. apply (all_delivered participants byz input Hl Hb w Hw Hq Hr);
      [|by apply honest_elem]. intros sid q Hlt Hqh. destruct Hor as [(p' & out & Hd)|Hall].
    + eapply (done_readied participants byz input Hl Hb w Hw Hq Hr); [done|exact Hd|done|done].
    + destruct (nth_error (pl_participants participants) sid) as [o|] eqn:Eo;
        [|apply nth_error_None in Eo; unfold n, ParticipantList_len in Hlt; lia].
      eapply (honest_readied participants byz input Hl Hb w Hw Hq Hr); [|apply honest_elem|done].
      * by apply ParticipantList_index_get.
      * assert (o ∈ pl_participants participants); [|by auto].
        by eapply list_elem_of_In, nth_error_In.
Qed.

(** ** A network of four *)

Section Schedule.
Context {T : Type} `{EqDecision T}.
Context (participants : ParticipantList) (byz : gset Participant) (input : Participant → T).

(** The messages of honest parties that others still have to receive. *)
Definition open_events (w : World T) : list (Event T) :=
  p ← pl_participants participants;
  match w_parties w !! p with
  | Some (Waiting _) =>
    x ← w_sent w;
    if decide (x.1 ≠ p ∧ (p, x) ∉ w_received w) then [Receive p x.1 x.2.1 x.2.2] else []
  | _ => []
  end.

(** Events in order, without those that are not possible. *)
Fixpoint run_events (w : World T) (evs : list (Event T)) : World T :=
  match evs with
  | [] => w
  | ev :: evs => run_events (default w (net_step participants byz input w ev)) evs
  end.

(** Rounds in which everything open is received. *)
Fixpoint flood (rounds : nat) (w : World T) : World T :=
  match rounds with
  | O => w
  | S rounds => flood rounds (run_events w (open_events w))
  end.

Lemma net_run_app w evs evs' :
  net_run participants byz input w (evs ++ evs') =
  w' ← net_run participants byz input w evs; net_run participants byz input w' evs'.
Proof.
  revert w. induction evs as [|ev evs IH]; intros w; [done|]. simpl.
  destruct (net_step _ _ _ w ev) as [w'|]; simpl; [apply IH|done].
Qed.

Lemma run_events_reachable w evs :
  reachable participants byz input w → reachable participants byz input (run_events w evs).
Proof.
  revert w. induction evs as [|ev evs IH]; intros w Hw; [done|]. simpl. apply IH.
  destruct (net_step _ _ _ w ev) as [w'|] eqn:E; [|done]. simpl. destruct Hw as [evs' Hw].
  exists (evs' ++ [ev]). rewrite net_run_app, Hw. simpl. by rewrite E.
Qed.

Lemma flood_reachable rounds w :
  reachable participants byz input w → reachable participants byz input (flood rounds w).
Proof.
  revert w. induction rounds as [|rounds IH]; intros w Hw; [done|].
  simpl. by apply IH, run_events_reachable.
Qed.

Lemma open_events_quiescent w :
  (∀ p party, w_parties w !! p = Some party → p ∈ pl_participants participants) →
  open_events w = [] → quiescent w.
Proof.
  intros Hin Hopen p st Hp q v Hsent Hne.
  destruct (decide ((p, (q, v)) ∈ w_received w)) as [|Hnot]; [done|].
  assert (Receive p q v.1 v.2 ∈ open_events w) as Hev; [|rewrite Hopen in Hev; by apply elem_of_nil in Hev].
  unfold open_events. apply list_elem_of_bind. exists p. split; [|by eapply Hin].
  rewrite Hp. apply list_elem_of_bind. exists (q, v). split; [|done]. simpl.
  rewrite decide_True by done. by left.
Qed.
End Schedule.

Definition four : ParticipantList :=
  match ParticipantList_new [1; 2; 3; 4] with Some l => l | None => mkParticipantList [] [] end.

Lemma four_ok : ParticipantList_ok four.
Proof. apply (ParticipantList_new_ok [1; 2; 3; 4]). reflexivity. Qed.

(** Participant 4 is faulty; the inputs are the tens. *)
Definition four_byz : gset Participant := {[4]}.
Definition four_input (p : Participant) : Z := 10 * p.

Lemma four_faults : faults_ok four four_byz.
Proof. split; [apply four_ok|]. by vm_compute. Qed.

(** Everything but the broadcast of 4 is done; then 4 sends 40 to all. *)
Definition four_start : World Z :=
  flood four four_byz four_input 4 (run_events four four_byz four_input net_init
    [Start 1; Start 2; Start 3]).
Definition four_end : World Z :=
  flood four four_byz four_input 4 (run_events four four_byz four_input four_start
    [Receive 1 4 3 (Send 40); Receive 2 4 3 (Send 40); Receive 3 4 3 (Send 40)]).

Definition four_outputs (w : World Z) : list (option (list (option Z))) :=
  (λ p, party ← w_parties w !! p;
    match party with Delivered out => Some (party_value party <$> [1; 2; 3; 4]) | _ => None end)
  <$> [1; 2; 3].

Lemma four_end_outputs :
  four_outputs four_end = replicate 3 (Some [Some 10; Some 20; Some 30; Some 40]).
Proof. vm_compute. reflexivity. Qed.

Lemma init_reachable {T} `{EqDecision T} participants byz (input : Participant → T) :
  reachable participants byz input net_init.
Proof. by exists []. Qed.

#[export] Hint Resolve four_faults init_reachable run_events_reachable flood_reachable : core.

(** The party [p] of a world, for a party that is known to be there. *)
Definition party_of (w : World Z) (p : Participant) : Party Z :=
  default (Panicked "not started") (w_parties w !! p).

Lemma party_of_Some w p :
  bool_decide (is_Some (w_parties w !! p)) = true → w_parties w !! p = Some (party_of w p).
Proof. unfold party_of. by destruct (w_parties w !! p). Qed.

Lemma broadcast_agreement_witness :
  ∃ d d', party_value (party_of four_end 1) 2 = Some d ∧ party_value (party_of four_end 3) 2 = Some d' ∧
    d = d' ∧ d = four_input 2.
Proof.
  assert (party_value (party_of four_end 1) 2 = Some 20) as H1 by (vm_compute; reflexivity).
  assert (party_value (party_of four_end 3) 2 = Some 20) as H3 by (vm_compute; reflexivity).
  exists 20, 20. split; [exact H1|]. split; [exact H3|].
  destruct (broadcast_agreement four four_byz four_input four_end 1 3 2
    (party_of four_end 1) (party_of four_end 3) four_faults) as (Hagree & Hvalid & _).
  - unfold four_end, four_start. auto.
  - apply party_of_Some. vm_compute. reflexivity.
  - apply party_of_Some. vm_compute. reflexivity.
  - apply (bool_decide_unpack _). vm_compute. exact I.
  - split; [exact (Hagree 20 20 H1 H3)|]. apply (Hvalid 20 H1).
    apply (bool_decide_unpack _). vm_compute. exact I.
Defined.

(** 4 sends 40 to 1 and 2, who go on to return, and 41 to 3. *)
Definition four_split : World Z :=
  run_events four four_byz four_input four_start
    [Receive 1 4 3 (Send 40); Receive 2 4 3 (Send 40); Receive 3 4 3 (Send 41);
     Receive 3 1 3 (Echo 40); Receive 3 2 3 (Echo 40); Receive 3 4 3 (Echo 41);
     Receive 1 2 3 (Echo 40); Receive 1 4 3 (Echo 40);
     Receive 2 1 3 (Echo 40); Receive 2 4 3 (Echo 40);
     Receive 1 2 3 (Ready 40); Receive 1 4 3 (Ready 40);
     Receive 2 1 3 (Ready 40); Receive 2 4 3 (Ready 40)].

Lemma broadcast_blames_sender_witness :
  ∃ o sid, ParticipantList_index four o = Ok sid ∧ o ∈ four_byz ∧
    malicious_sender 3 = malicious_sender sid.
Proof.
  refine (proj2 (broadcast_blames_sender four four_byz four_input four_split 3
    (party_of four_split 3) four_faults _ _) (malicious_sender 3) _).
  - unfold four_split, four_start. auto.
  - apply party_of_Some. vm_compute. reflexivity.
  - vm_compute. reflexivity.
Defined.

(** The broadcast is not all-or-nothing.  With one faulty participant of four,
    two honest parties return with its value while the third, which counted two
    echoes of each of two values, has stopped with the error that the sender is
    malicious, before the ready votes that would have let it return. *)
Theorem broadcast_not_total :
  ∃ w out out' e,
    faults_ok four four_byz ∧ reachable four four_byz four_input w ∧
    w_parties w !! 1 = Some (Delivered out) ∧ w_parties w !! 2 = Some (Delivered out') ∧
    ParticipantMap_get out 4 = Some 40 ∧ ParticipantMap_get out' 4 = Some 40 ∧
    w_parties w !! 3 = Some (Failed e) ∧ e = malicious_sender 3 ∧
    (∃ q1 q2, q1 ≠ q2 ∧ (q1, (3%nat, Ready 40)) ∈ w_sent w ∧ (q2, (3%nat, Ready 40)) ∈ w_sent w).
Proof.
  exists four_split. do 3 eexists. split; [auto|]. split; [unfold four_split, four_start; auto|].
  split; [vm_compute; reflexivity|]. split; [vm_compute; reflexivity|].
  split; [vm_compute; reflexivity|]. split; [vm_compute; reflexivity|].
  split; [vm_compute; reflexivity|]. split; [vm_compute; reflexivity|].
  exists 1, 2. split; [done|]. split; apply (bool_decide_unpack _); vm_compute; exact I.
Qed.

Lemma four_end_parties p party :
  w_parties four_end !! p = Some party → p ∈ pl_participants four.
Proof.
  intros Hp. destruct four_faults as [Hl Hb].
  destruct (reachable_ok four four_byz four_input Hl Hb four_end) as (_ & Hok & _);
    [unfold four_end, four_start; auto|]. by destruct (Hok _ _ Hp).
Qed.

Lemma broadcast_progress_witness :
  ∃ out, w_parties four_end !! 3 = Some (Delivered out).
Proof.
  refine (proj2 (broadcast_progress four four_byz four_input four_end four_faults _ _ _) _ 3 _ _).
  - unfold four_end, four_start. auto.
  - apply (open_events_quiescent four); [apply four_end_parties|vm_compute; reflexivity].
  - intros p Hp Hh. assert (p = 1 ∨ p = 2 ∨ p = 3) as Hc.
    { change (pl_participants four) with [1; 2; 3; 4] in Hp. unfold four_byz in Hh. set_solver. }
    exists (party_of four_end p). split.
    + apply party_of_Some. destruct Hc as [->|[->| ->]]; vm_compute; reflexivity.
    + intros e. destruct Hc as [->|[->| ->]]; vm_compute; discriminate.
  - left. exists 1. eexists. vm_compute. reflexivity.
  - apply (bool_decide_unpack _). vm_compute. exact I.
  - apply (bool_decide_unpack _). vm_compute. exact I.
Defined.
