(* ===== verification/RobustEcdsa.v ===== *)
(** * Threshold signatures: robust ECDSA

    [src/crates/threshold-signatures/src/ecdsa/mod.rs] and
    [ecdsa/robust_ecdsa/] ([mod.rs], [presign.rs], [sign.rs]): signatures and
    their verification, the randomness that rerandomizes a presignature, the
    presigning protocol and the signing protocol.

    As in [Dkg.v] a protocol is a composition of its rounds, on the queues of
    messages that arrive; a run that still waits is [None].  A point is an element
    of the group, in affine or projective form.  The functions of [k256] and
    [hkdf] are the class [EcdsaSuite]; [EcdsaSuiteLaws] states what is documented
    of them. *)

From Stdlib Require Import ZArith Lia String.
From mathcomp Require Import boot ssralg poly.
From S2P Require Import TsTypes TsParticipants Polynomials Interpolation Dkg.
Set Implicit Arguments.
Unset Strict Implicit.
Unset Printing Implicit Defensive.
Import GRing.Theory.
Local Open Scope ring_scope.
Local Open Scope ts_scope.

Class EcdsaSuite (F : fieldType) (G : lmodType F) (C : Ciphersuite G) := {
  (** [AffinePoint::x] reduced to a scalar *)
  ec_x : G -> F;
  (** [IsHigh::is_high] *)
  ec_is_high : F -> bool;
  (** [to_encoded_point(true)] and [Field::serialize] *)
  ec_encode_point : G -> bytes;
  ec_serialize : F -> bytes;
  (** [Hkdf::<Sha3_256>::new(Some(salt), ikm)] and [expand] of 32 bytes *)
  ec_hkdf_expand : bytes -> bytes -> bytes -> option bytes;
  (** [PrimeField::from_repr] *)
  ec_from_repr : bytes -> option F;
}.

(** A point and its negation have the same x coordinate; of a scalar and its
    negation at most one is in the upper half. *)
Class EcdsaSuiteLaws (F : fieldType) (G : lmodType F) (C : Ciphersuite G) (E : EcdsaSuite C) :
    Prop := {
  ec_xN : forall P : G, ec_x (- P) = ec_x P;
  ec_is_highN : forall s : F, ec_is_high s -> ~~ ec_is_high (- s);
}.

Section RobustEcdsa.
Context {F : fieldType} {G : lmodType F} {C : Ciphersuite G} {EC : EcdsaSuite C}.
Implicit Types (participants : ParticipantList) (me : Participant).

(** ** Signatures *)

Definition x_coordinate (point : G) : F := ec_x point.

Record EcdsaSignature := mkEcdsaSignature { es_big_r : G; es_s : F }.

Definition Signature_verify (sig : EcdsaSignature) (public_key : G) (msg_hash : F) :
    result ProtocolError bool :=
  let r := x_coordinate (es_big_r sig) in
  if (r == 0) || (es_s sig == 0) then Ok false
  else if ec_is_high (es_s sig) then Ok false
  else if cs_invert (es_s sig) is Some s_inv then
    let reproduced := (msg_hash * s_inv) *: (cs_generator : G) + (r * s_inv) *: public_key in
    Ok (x_coordinate reproduced == r)
  else Panic "called `Option::unwrap()` on a `None` value"%string.

(** ** Rerandomization *)

Definition SALT : bytes :=
  [:: 0x32; 0x8a; 0x47; 0xc2; 0xb8; 0x79; 0x44; 0x45; 0x25; 0x5c; 0x16; 0x47; 0x60; 0x8d; 0xf5;
      0xdb; 0x85; 0xc6; 0x8b; 0xb0; 0xe7; 0x17; 0x0a; 0xbe; 0xc5; 0x34; 0xdf; 0x27; 0x64; 0xa4;
      0x58; 0x31]%Z.

Record RerandomizationArguments := mkRerandomizationArguments {
  ra_pk : G;
  ra_tweak : F;
  ra_msg_hash : bytes;
  ra_big_r : G;
  ra_participants : ParticipantList;
  ra_entropy : bytes;
}.

(** The loop of [derive_randomness] with [remaining] values of the counter to go; the
    addition to the counter, a byte, panics when it overflows. *)
Fixpoint derive_loop (remaining : nat) (entropy rest : bytes) (counter : Z) : result ProtocolError F :=
  let* okm := ok_or (ec_hkdf_expand SALT entropy (counter :: rest)) HashingError in
  let delta := odflt 0 (ec_from_repr okm) in
  if remaining is remaining.+1 then
    if delta == 0 then derive_loop remaining entropy rest (counter + 1) else Ok delta
  else Panic "attempt to add with overflow"%string.

Definition derive_randomness (args : RerandomizationArguments) : result ProtocolError F :=
  let rest :=
    1%Z :: ec_encode_point (ra_pk args) ++ ec_serialize (ra_tweak args) ++ ra_msg_hash args ++
    ec_encode_point (ra_big_r args) ++
    flatten [seq to_le_bytes 4 p | p <- pl_participants (ra_participants args)] in
  derive_loop 255 (ra_entropy args) rest 0.

(** [Tweak::derive_signing_share] and [Tweak::derive_verifying_key] of [lib.rs]. *)
Definition Tweak_derive_signing_share (tweak private_share : F) : F := private_share + tweak.
Definition Tweak_derive_verifying_key (tweak : F) (public_key : G) : G :=
  public_key + tweak *: cs_generator.

(** ** Presigning *)

Record PresignArguments := mkPresignArguments {
  pa_keygen_out : @KeygenOutput F G;
  pa_max_malicious : MaxMalicious;
}.

Record PresignOutput := mkPresignOutput {
  po_big_r : G; po_c : F; po_e : F; po_alpha : F; po_beta : F;
}.

Definition zero_secret_polynomial (degree : Z) (rng : cs_rng) :
    result ProtocolError (@Polynomial F * cs_rng) :=
  Polynomial_generate_polynomial (Some 0) degree rng.

(** [Shares]: the five shares k, a, b, d, e. *)
Record Shares := mkShares { sh_k : F; sh_a : F; sh_b : F; sh_d : F; sh_e : F }.

Definition Shares_new (polynomials : seq (@Polynomial F)) (p : Participant) :
    result ProtocolError Shares :=
  let* shares := rmap (fun poly => Polynomial_eval_at_participant poly p) polynomials in
  if shares is [:: k; a; b; d; e] then Ok (mkShares k a b d e)
  else Err (Other "Unable to build Shares"%string).

Definition Shares_add_shares (s t : Shares) : Shares :=
  mkShares (sh_k s + sh_k t) (sh_a s + sh_a t) (sh_b s + sh_b t) (sh_d s + sh_d t) (sh_e s + sh_e t).

(** Round 1: the five polynomials fk, fa, fb, fd, fe. *)
Definition presign_polynomials (threshold : Z) (rng : cs_rng) :
    result ProtocolError (seq (@Polynomial F)) :=
  let* degree := ok_or (checked_mul threshold 2) IntegerOverflow in
  let* (fk, rng) := Polynomial_generate_polynomial None threshold rng in
  let* (fa, rng) := Polynomial_generate_polynomial None threshold rng in
  let* (fb, rng) := zero_secret_polynomial degree rng in
  let* (fd, rng) := zero_secret_polynomial degree rng in
  let* (fe, rng) := zero_secret_polynomial degree rng in
  Ok [:: fk; fa; fb; fd; fe].

(** The packages for the others; a package is received as [Shares]. *)
Definition presign_packages participants me (polynomials : seq (@Polynomial F)) :
    result ProtocolError (seq (Participant * Shares)) :=
  rmap (fun p => let* package := Shares_new polynomials p in Ok (p, package))
    (ParticipantList_others participants me).

(** Steps 2.3 and 2.4: what a party sends in round 2. *)
Definition presign_big_r_me (shares : Shares) : G := sh_k shares *: cs_generator.
Definition presign_w_me (shares : Shares) : F := sh_a shares * sh_k shares + sh_b shares.

(** The loops that fill the maps of round 3. *)
Fixpoint presign_recv_shares (signingshares_map : ParticipantMap F)
    (verifyingshares_map : ParticipantMap G) (queue : seq (Participant * (G * F))) :
    run (ParticipantMap F * ParticipantMap G) :=
  if ParticipantMap_full signingshares_map then Some (Ok (signingshares_map, verifyingshares_map))
  else if queue is (from, (big_r_p, w_p)) :: queue then
    presign_recv_shares (ParticipantMap_put signingshares_map from w_p)
      (ParticipantMap_put verifyingshares_map from big_r_p) queue
  else None.

Fixpoint presign_recv_wshares (wshares_map : ParticipantMap G) (queue : seq (Participant * G)) :
    run (ParticipantMap G) :=
  if ParticipantMap_full wshares_map then Some (Ok wshares_map)
  else if queue is (from, big_w_p) :: queue then
    presign_recv_wshares (ParticipantMap_put wshares_map from big_w_p) queue
  else None.

(** [split_at_checked(n)], the first part. *)
Definition split_at_checked (T : Type) (n : Z) (l : seq T) (what : string) :
    result ProtocolError (seq T) :=
  if Z.leb n (Z.of_nat (size l)) then Ok (take (Z.to_nat n) l)
  else Err (AssertionFailed ("Not enough " ++ what)%string).

Definition interpolation_failed : ProtocolError :=
  AssertionFailed "Exponent interpolation check failed."%string.

(** The shares beyond the first [threshold + 1] match the interpolation. *)
Fixpoint exponent_checks (first_identifiers : seq F) (first_shares : seq G)
    (rest : seq (F * G)) : result ProtocolError unit :=
  if rest is (identifier, share) :: rest then
    let* expected := PolynomialCommitment_eval_exponent_interpolation first_identifiers
      first_shares (Some identifier) in
    if expected != share then Err interpolation_failed
    else exponent_checks first_identifiers first_shares rest
  else Ok tt.

(** Steps 3.2 to 3.6: the checked nonce commitment, and w. *)
Definition presign_round3 participants (threshold : Z) (signingshares_map : ParticipantMap F)
    (verifyingshares_map : ParticipantMap G) : result ProtocolError (seq F * seq F * G * F) :=
  let* identifiers := rmap Participant_scalar (pl_participants participants) in
  let* signingshares := ok_or (ParticipantMap_into_vec_or_none signingshares_map)
    InvalidInterpolationArguments in
  let* verifying_shares := ok_or (ParticipantMap_into_vec_or_none verifyingshares_map)
    InvalidInterpolationArguments in
  let* first_identifiers := split_at_checked (threshold + 1) identifiers "identifiers" in
  let* first_shares := split_at_checked (threshold + 1) verifying_shares "verifying shares" in
  let* _ := exponent_checks first_identifiers first_shares
    (drop (Z.to_nat (threshold + 1)) (zip identifiers verifying_shares)) in
  let* big_r := PolynomialCommitment_eval_exponent_interpolation first_identifiers first_shares
    None in
  if big_r == 0 then Err IdentityElement
  else
    let* w_identifiers := split_at_checked (2 * threshold + 1) identifiers "identifiers" in
    let* w_shares := split_at_checked (2 * threshold + 1) signingshares "verifying shares" in
    let* w := Polynomial_eval_interpolation w_identifiers w_shares None in
    if w == 0 then Err ZeroScalar else Ok (identifiers, first_identifiers, big_r, w).

(** Steps 3.9 to 3.15. *)
Definition presign_finish (threshold : Z) (identifiers first_identifiers : seq F) (big_r : G)
    (w : F) (shares : Shares) (x_me : F) (wshares_map : ParticipantMap G) :
    result ProtocolError PresignOutput :=
  let* wshares := ok_or (ParticipantMap_into_vec_or_none wshares_map)
    InvalidInterpolationArguments in
  let* first_wshares := split_at_checked (threshold + 1) wshares "wshares" in
  let* _ := exponent_checks first_identifiers first_wshares
    (drop (Z.to_nat (threshold + 1)) (zip identifiers wshares)) in
  let* big_w := PolynomialCommitment_eval_exponent_interpolation first_identifiers first_wshares
    None in
  if big_w != w *: cs_generator then Err interpolation_failed
  else if cs_invert w is Some w_inv then
    let c_me := w_inv * sh_a shares in
    Ok (mkPresignOutput big_r c_me (sh_e shares) (c_me + sh_d shares) (c_me * x_me))
  else Panic "called `CtOption::unwrap()` on a `None` value"%string.

(** The queues of messages that arrive at a party. *)
Record PresignReceived := mkPresignReceived {
  pr_packages : seq (Participant * Shares);
  pr_round2 : seq (Participant * (G * F));
  pr_round3 : seq (Participant * G);
}.

Definition do_presign participants me (args : PresignArguments) (rng : cs_rng)
    (rc : PresignReceived) : run PresignOutput :=
  let threshold := pa_max_malicious args in
  run_bind (Some (presign_polynomials threshold rng)) (fun polynomials =>
  run_bind (Some (presign_packages participants me polynomials)) (fun sent_packages =>
  run_bind (Some (Shares_new polynomials me)) (fun my_shares =>
  run_bind (recv_await participants me (pr_packages rc)) (fun packages =>
  let shares := foldl Shares_add_shares my_shares [seq q.2 | q <- packages] in
  let big_r_me := presign_big_r_me shares in
  let w_me := presign_w_me shares in
  run_bind (presign_recv_shares
      (ParticipantMap_put (ParticipantMap_new participants) me w_me)
      (ParticipantMap_put (ParticipantMap_new participants) me big_r_me) (pr_round2 rc))
    (fun '(signingshares_map, verifyingshares_map) =>
  run_bind (Some (presign_round3 participants threshold signingshares_map verifyingshares_map))
    (fun '(identifiers, first_identifiers, big_r, w) =>
  let big_w_me := sh_a shares *: big_r in
  run_bind (presign_recv_wshares
      (ParticipantMap_put (ParticipantMap_new participants) me big_w_me) (pr_round3 rc))
    (fun wshares_map =>
  Some (presign_finish threshold identifiers first_identifiers big_r w shares
    (ko_private_share (pa_keygen_out args)) wshares_map)))))))).

Definition presign (participants : seq Participant) me (args : PresignArguments) (rng : cs_rng)
    (rc : PresignReceived) : result InitializationError (run PresignOutput) :=
  if (size participants < 2)%N then Err (NotEnoughParticipants (Z.of_nat (size participants)))
  else
    let* participants := ok_or (ParticipantList_new participants) DuplicateParticipants in
    let len := Z.of_nat (ParticipantList_len participants) in
    if ~~ ParticipantList_contains participants me then Err (MissingParticipant "self"%string me)
    else if Z.ltb len (pa_max_malicious args) then
      Err (BadParameters "max_malicious must be less than or equals to participant count"%string)
    else
      let* robust_ecdsa_threshold :=
        ok_or (obind (fun v => checked_add v 1) (checked_mul (pa_max_malicious args) 2))
          (BadParameters "2*max_malicious+1 must be less than usize::MAX"%string) in
      if Z.ltb len robust_ecdsa_threshold then
        Err (BadParameters "2*max_malicious+1 must be less than or equals to participant count"%string)
      else if len != robust_ecdsa_threshold then
        Err (BadParameters "the number of participants during presigning must be exactly 2*max_malicious+1 to avoid split view attacks"%string)
      else Ok (do_presign participants me args rng rc).

(** ** Signing *)

Record RerandomizedPresignOutput := mkRerandomizedPresignOutput {
  rp_big_r : G; rp_e : F; rp_alpha : F; rp_beta : F;
}.

Definition rerandomize_presign (presignature : PresignOutput) (args : RerandomizationArguments) :
    result ProtocolError RerandomizedPresignOutput :=
  if po_big_r presignature != ra_big_r args then Err IncompatibleRerandomizationInputs
  else
    let* delta := derive_randomness args in
    if delta == 0 then Err ZeroScalar
    else if cs_invert delta is Some inv_delta then
      Ok (mkRerandomizedPresignOutput (delta *: po_big_r presignature) (po_e presignature)
            (po_alpha presignature * inv_delta)
            ((po_beta presignature + po_c presignature * ra_tweak args) * inv_delta))
    else Panic "called `CtOption::unwrap()` on a `None` value"%string.

Definition compute_signature_share (presignature : RerandomizedPresignOutput) (msg_hash : F)
    participants me : result ProtocolError F :=
  let beta := rp_beta presignature * x_coordinate (rp_big_r presignature) + rp_e presignature in
  let s_me := msg_hash * rp_alpha presignature + beta in
  let* lambda := ParticipantList_lagrange participants me in
  Ok (s_me * lambda).

(** What another participant sends to the coordinator. *)
Definition do_sign_participant participants me (presignature : RerandomizedPresignOutput)
    (msg_hash : F) : result ProtocolError F :=
  compute_signature_share presignature msg_hash participants me.

(** The coordinator's signature from the sum of the shares. *)
Definition sign_finish (public_key : G) (presignature : RerandomizedPresignOutput) (msg_hash s : F) :
    result ProtocolError EcdsaSignature :=
  if s == 0 then Err (AssertionFailed "signature part s cannot be zero"%string)
  else
    let s := if ec_is_high s then - s else s in
    let sig := mkEcdsaSignature (rp_big_r presignature) s in
    let* valid := Signature_verify sig public_key msg_hash in
    if ~~ valid then Err (AssertionFailed "signature failed to verify"%string) else Ok sig.

Definition do_sign_coordinator participants me (public_key : G)
    (presignature : RerandomizedPresignOutput) (msg_hash : F) (queue : seq (Participant * F)) :
    run EcdsaSignature :=
  run_bind (Some (compute_signature_share presignature msg_hash participants me)) (fun s_me =>
  run_bind (recv_await participants me queue) (fun messages =>
  Some (sign_finish public_key presignature msg_hash
    (foldl (fun s s_i => s + s_i.2) s_me messages)))).

(** [fut_wrapper]: the coordinator returns a signature, the others [None] after
    sending their share. *)
Inductive SignOutcome :=
  | SignCoordinator (r : run EcdsaSignature)
  | SignParticipant (r : result ProtocolError F).

Definition fut_wrapper participants (coordinator me : Participant) (public_key : G)
    (presignature : RerandomizedPresignOutput) (msg_hash : F) (queue : seq (Participant * F)) :
    SignOutcome :=
  if me == coordinator then
    SignCoordinator (do_sign_coordinator participants me public_key presignature msg_hash queue)
  else SignParticipant (do_sign_participant participants me presignature msg_hash).

Definition sign (participants : seq Participant) (coordinator : Participant)
    (max_malicious : MaxMalicious) me (public_key : G)
    (presignature : RerandomizedPresignOutput) (msg_hash : F) (queue : seq (Participant * F)) :
    result InitializationError SignOutcome :=
  if (size participants < 2)%N then Err (NotEnoughParticipants (Z.of_nat (size participants)))
  else
    let* participants := ok_or (ParticipantList_new participants) DuplicateParticipants in
    let len := Z.of_nat (ParticipantList_len participants) in
    if ~~ ParticipantList_contains participants me then Err (MissingParticipant "self"%string me)
    else if ~~ ParticipantList_contains participants coordinator then
      Err (MissingParticipant "coordinator"%string coordinator)
    else
      let* robust_ecdsa_threshold :=
        ok_or (obind (fun v => checked_add v 1) (checked_mul max_malicious 2))
          (BadParameters "2*threshold+1 must be less than usize::MAX"%string) in
      if Z.ltb len robust_ecdsa_threshold then
        Err (BadParameters "2*max_malicious+1 must be less than or equals to participant count"%string)
      else if len != robust_ecdsa_threshold then
        Err (BadParameters "the number of participants during signing must be exactly 2*max_malicious+1 to avoid split view attacks"%string)
      else if msg_hash == 0 then
        Err (BadParameters "msg_hash cannot be 0 to avoid potential split view attacks"%string)
      else Ok (fut_wrapper participants coordinator me public_key presignature msg_hash queue).
End RobustEcdsa.
