(* ===== verification/RobustEcdsaProofs.v ===== *)
(** * Threshold signatures: correctness of robust ECDSA

    When the participants follow the protocols, the presignatures are shares of
    an inverted nonce and the signing coordinator obtains a signature that
    verifies under the derived key.  Whatever the others send, the nonce shares
    that a presigning party accepts lie on one polynomial. *)

From Stdlib Require Import ZArith Lia String.
From mathcomp Require Import boot ssralg poly.
From S2P Require Import TsTypes TsParticipants Polynomials Interpolation.
From S2P Require Import Dkg DkgProofs DkgHonest RobustEcdsa.
Set Implicit Arguments.
Unset Strict Implicit.
Unset Printing Implicit Defensive.
Import GRing.Theory.
Local Open Scope ring_scope.
Local Open Scope ts_scope.

(** ** Maps that are filled from a queue *)

Section Fill.
Context (l : ParticipantList).
Hypothesis l_ok : ParticipantList_ok l.

Lemma vec_of_get T (m : ParticipantMap T) (f : Participant -> T) :
  ParticipantMap_ok m -> pm_participants m = l ->
  {in pl_participants l, forall p, ParticipantMap_get m p = Some (f p)} ->
  ParticipantMap_into_vec_or_none m = Some [seq f p | p <- pl_participants l].
Proof.
move=> m_ok m_l m_get; have [p|v v_def] := ParticipantMap_all_full _ m_ok.
  by rewrite m_l => /InP /m_get ->.
rewrite v_def; congr Some; apply: (inj_map (fun x y => @Some_inj _ x y)).
rewrite -[LHS]/(List.map Some v) -(ParticipantMap_vec _ _ m_ok v_def) m_l -map_comp.
by apply/eq_in_map => p /m_get.
Qed.

Lemma missing_not_full T (m : ParticipantMap T) p :
  ParticipantMap_ok m -> pm_participants m = l -> p \in pl_participants l ->
  ParticipantMap_get m p = None -> ParticipantMap_full m = false.
Proof.
move=> m_ok m_l p_in p_none; apply/negP => /(ParticipantMap_full_vec _ m_ok) [v v_def].
have := List.in_map (ParticipantMap_get m) _ _ (InP _ _ p_in).
by rewrite -m_l (ParticipantMap_vec _ _ m_ok v_def) p_none => /List.in_map_iff [x []].
Qed.

(** My value first, then those of the others as they arrive. *)
Definition filled T (f : Participant -> T) (me : Participant) : ParticipantMap T :=
  put_all f (ParticipantMap_put (ParticipantMap_new l) me (f me)) (ParticipantList_others l me).

Lemma filled_start T (f : Participant -> T) me :
  me \in pl_participants l ->
  let m := ParticipantMap_put (ParticipantMap_new l) me (f me) in
  [/\ ParticipantMap_ok m, pm_participants m = l &
      forall q, ParticipantMap_get m q = if q == me then Some (f me) else None].
Proof.
move=> me_in; have [new_ok new_get] := ParticipantMap_new_ok (T := T) _ l_ok.
have [ok1 [l1 get1]] := ParticipantMap_put_ok _ me (f me) new_ok.
split=> // q; rewrite get1 !new_get -[Z.eqb q me]/(q == me) containsE // me_in.
by case: eqP.
Qed.

Lemma filled_vec T (f : Participant -> T) me :
  me \in pl_participants l ->
  ParticipantMap_into_vec_or_none (filled f me) = Some [seq f p | p <- pl_participants l].
Proof.
move=> me_in; have [m_ok m_l m_get] := filled_start f me_in.
have [q q_in|q q_in|f_ok f_l f_get] := put_allP l_ok f m_ok m_l (others_uniq me l_ok).
- by move: q_in; rewrite othersE => /andP [].
- by move: q_in; rewrite othersE m_get => /andP [_ /negPf ->].
apply: vec_of_get => // p p_in; rewrite /filled f_get othersE p_in m_get.
by case: eqP => [->|].
Qed.

Lemma put_step T (f : Participant -> T) (m : ParticipantMap T) p ps :
  ParticipantMap_ok m -> pm_participants m = l -> p \in pl_participants l ->
  (forall q, ParticipantMap_get m q = None <-> (q \in p :: ps) || (q \notin pl_participants l)) ->
  p \notin ps ->
  let m' := ParticipantMap_put m p (f p) in
  [/\ ParticipantMap_ok m', pm_participants m' = l &
    forall q, ParticipantMap_get m' q = None <-> (q \in ps) || (q \notin pl_participants l)].
Proof.
move=> m_ok m_l p_in none p_notin; have [ok1 [l1 get1]] := ParticipantMap_put_ok m p (f p) m_ok.
have p_none : ParticipantMap_get m p = None by apply/none; rewrite mem_head.
split; rewrite ?l1 // => q; rewrite get1 p_none m_l containsE // p_in -[Z.eqb q p]/(q == p) !andbT.
case: (eqVneq q p) => [->|qN]; first by rewrite (negPf p_notin) p_in.
by rewrite none in_cons (negPf qN).
Qed.

Lemma full_of_none T (m : ParticipantMap T) :
  ParticipantMap_ok m -> pm_participants m = l ->
  (forall q, ParticipantMap_get m q = None <-> (q \in [::]) || (q \notin pl_participants l)) ->
  ParticipantMap_full m.
Proof.
move=> m_ok m_l none; apply/(ParticipantMap_full_vec _ m_ok)/(ParticipantMap_all_full _ m_ok).
by move=> q; rewrite m_l => /InP q_in /none; rewrite q_in.
Qed.

Context {F : fieldType} {G : lmodType F}.

Lemma recv_shares_loop (w : Participant -> F) (r : Participant -> G) ps m1 m2 :
  uniq ps -> {subset ps <= pl_participants l} ->
  ParticipantMap_ok m1 -> pm_participants m1 = l ->
  (forall q, ParticipantMap_get m1 q = None <-> (q \in ps) || (q \notin pl_participants l)) ->
  presign_recv_shares m1 m2 [seq (q, (r q, w q)) | q <- ps] =
  Some (Ok (put_all w m1 ps, put_all r m2 ps)).
Proof.
elim: ps m1 m2 => [|p ps IH] m1 m2 /=; first by move=> _ _ ok1 l1 none; rewrite full_of_none.
case/andP => p_notin ps_uniq sub ok1 l1 none.
have p_in : p \in pl_participants l by apply: sub; rewrite mem_head.
rewrite (missing_not_full ok1 l1 p_in); first by apply/none; rewrite mem_head.
have [ok' l' none'] := put_step w ok1 l1 p_in none p_notin.
by rewrite IH // => q q_in; apply: sub; rewrite in_cons q_in orbT.
Qed.

Lemma recv_wshares_loop (r : Participant -> G) ps m :
  uniq ps -> {subset ps <= pl_participants l} ->
  ParticipantMap_ok m -> pm_participants m = l ->
  (forall q, ParticipantMap_get m q = None <-> (q \in ps) || (q \notin pl_participants l)) ->
  presign_recv_wshares m [seq (q, r q) | q <- ps] = Some (Ok (put_all r m ps)).
Proof.
elim: ps m => [|p ps IH] m /=; first by move=> _ _ ok1 l1 none; rewrite full_of_none.
case/andP => p_notin ps_uniq sub ok1 l1 none.
have p_in : p \in pl_participants l by apply: sub; rewrite mem_head.
rewrite (missing_not_full ok1 l1 p_in); first by apply/none; rewrite mem_head.
have [ok' l' none'] := put_step r ok1 l1 p_in none p_notin.
by rewrite IH // => q q_in; apply: sub; rewrite in_cons q_in orbT.
Qed.

Lemma filled_none T (f : Participant -> T) me q :
  me \in pl_participants l ->
  ParticipantMap_get (ParticipantMap_put (ParticipantMap_new l) me (f me)) q = None <->
  (q \in ParticipantList_others l me) || (q \notin pl_participants l).
Proof.
move=> me_in; have [_ _ ->] := filled_start f me_in; rewrite othersE.
by case: (eqVneq q me) => [->|_]; rewrite ?me_in //= andbT orbN.
Qed.

Lemma others_sub me : {subset ParticipantList_others l me <= pl_participants l}.
Proof. by move=> q; rewrite othersE => /andP []. Qed.

(** What arrives in round 2 and 3 fills the maps. *)
Lemma presign_recv_sharesE (w : Participant -> F) (r : Participant -> G) me :
  me \in pl_participants l ->
  presign_recv_shares (ParticipantMap_put (ParticipantMap_new l) me (w me))
    (ParticipantMap_put (ParticipantMap_new l) me (r me))
    [seq (q, (r q, w q)) | q <- ParticipantList_others l me] =
  Some (Ok (filled w me, filled r me)).
Proof.
move=> me_in; have [m_ok m_l _] := filled_start w me_in.
apply: recv_shares_loop; rewrite ?others_uniq //; first exact: others_sub.
by move=> q; exact: filled_none.
Qed.

Lemma presign_recv_wsharesE (r : Participant -> G) me :
  me \in pl_participants l ->
  presign_recv_wshares (ParticipantMap_put (ParticipantMap_new l) me (r me))
    [seq (q, r q) | q <- ParticipantList_others l me] =
  Some (Ok (filled r me)).
Proof.
move=> me_in; have [m_ok m_l _] := filled_start r me_in.
apply: recv_wshares_loop; rewrite ?others_uniq //; first exact: others_sub.
by move=> q; exact: filled_none.
Qed.
End Fill.

(** ** Honest presigning *)

Section Honest.
Context {F : fieldType} {G : lmodType F} {C : Ciphersuite G} {EC : EcdsaSuite C}.
Context {L : CiphersuiteLaws C}.
Abbreviation g := (@cs_generator F G C).
Abbreviation xof p := (Z_to_F (p + 1) : F).

Lemma generate_polynomial_None degree rng p rng' :
  Z.le 0 degree -> Polynomial_generate_polynomial None degree rng = Ok (p, rng') ->
  Polynomial_ok p /\ (size (poly_coefficients p) <= (Z.to_nat degree).+1)%N.
Proof.
move=> deg_ge; rewrite /Polynomial_generate_polynomial; case R: (cs_random rng) => [secret rng1] E.
have {}E : Polynomial_generate_polynomial (Some secret) degree rng1 = Ok (p, rng') by [].
by have [] := Polynomial_generate_polynomial_ok deg_ge E.
Qed.

(** The five polynomials of a party. *)
Record polys_ok (threshold : Z) (ps : seq (@Polynomial F)) : Prop := {
  ps_size : size ps = 5;
  ps_ok : all (@Polynomial_ok F) ps;
  ps_low : forall i, (i < 2)%N ->
    (size (to_poly (nth (mkPolynomial [::]) ps i)) <= Z.to_nat (threshold + 1))%N;
  ps_high : forall i, (size (to_poly (nth (mkPolynomial [::]) ps i)) <= Z.to_nat (2 * threshold + 1))%N;
  ps_zero : forall i, (1 < i < 5)%N -> (to_poly (nth (mkPolynomial [::]) ps i)).[0] = 0;
}.

Lemma presign_polynomialsP threshold rng ps :
  Z.le 0 threshold -> presign_polynomials threshold rng = Ok ps -> polys_ok threshold ps.
Proof.
move=> thr_ge; rewrite /presign_polynomials /checked_mul.
case: ifP => //= _; set degree := (threshold * 2)%Z.
have deg_ge : Z.le 0 degree by rewrite /degree; lia.
case Ek: (Polynomial_generate_polynomial _ _ _) => [[fk r1]|//|//] /=.
case Ea: (Polynomial_generate_polynomial _ _ _) => [[fa r2]|//|//] /=.
rewrite /zero_secret_polynomial.
case Eb: (Polynomial_generate_polynomial _ _ _) => [[fb r3]|//|//] /=.
case Ed: (Polynomial_generate_polynomial _ _ _) => [[fd r4]|//|//] /=.
case Ee: (Polynomial_generate_polynomial _ _ _) => [[fe r5]|//|//] /= [<-].
have [k_ok k_size] := generate_polynomial_None thr_ge Ek.
have [a_ok a_size] := generate_polynomial_None thr_ge Ea.
have [b_ok b0 b_size] := Polynomial_generate_polynomial_ok deg_ge Eb.
have [d_ok d0 d_size] := Polynomial_generate_polynomial_ok deg_ge Ed.
have [e_ok e0 e_size] := Polynomial_generate_polynomial_ok deg_ge Ee.
have degS : (Z.to_nat degree).+1 = Z.to_nat (2 * threshold + 1) by rewrite /degree; lia.
have thrS : (Z.to_nat threshold).+1 = Z.to_nat (threshold + 1) by lia.
have le_high : (Z.to_nat (threshold + 1) <= Z.to_nat (2 * threshold + 1))%N by apply/leP; lia.
rewrite degS thrS !Polynomial_ok_polyseq // in k_size a_size b_size d_size e_size.
split=> //=; first by rewrite k_ok a_ok b_ok d_ok e_ok.
- by case=> [|[|i]].
- by case=> [|[|[|[|[|i]]]]] //=; rewrite ?(leq_trans _ le_high) // nth_nil /to_poly size_poly0.
- by case=> [|[|[|[|[|i]]]]].
Qed.

Section Run.
Context (l : ParticipantList) (threshold : Z) (key : Participant -> @KeygenOutput F G).
Context (rng : Participant -> cs_rng) (polys : Participant -> seq (@Polynomial F)).

(** The package that [q] makes for [p]; [p] keeps its own. *)
Definition honest_package (p q : Participant) : Shares :=
  if Shares_new (polys q) p is Ok s then s else mkShares 0 0 0 0 0.

Definition honest_shares (p : Participant) : Shares :=
  foldl Shares_add_shares (honest_package p p)
    [seq honest_package p q | q <- ParticipantList_others l p].

(** What a party sends in round 2, the result of round 3, and what it sends then. *)
Definition honest_round2 (p : Participant) : G * F :=
  (presign_big_r_me (honest_shares p), presign_w_me (honest_shares p)).

Definition honest_round3 : result ProtocolError (seq F * seq F * G * F) :=
  presign_round3 l threshold (map_of l (fun q => (honest_round2 q).2))
    (map_of l (fun q => (honest_round2 q).1)).

Definition honest_big_w (p : Participant) : G :=
  if honest_round3 is Ok (_, _, big_r, _) then sh_a (honest_shares p) *: big_r else 0.

Definition honest_presign_received (p : Participant) : @PresignReceived F G := {|
  pr_packages := [seq (q, honest_package p q) | q <- ParticipantList_others l p];
  pr_round2 := [seq (q, honest_round2 q) | q <- ParticipantList_others l p];
  pr_round3 := [seq (q, honest_big_w q) | q <- ParticipantList_others l p];
|}.

Hypothesis l_ok : ParticipantList_ok l.
Hypothesis l_range : all is_participant (pl_participants l).
Hypothesis threshold_ge : Z.le 1 threshold.
Hypothesis l_size : Z.of_nat (size (pl_participants l)) = (2 * threshold + 1)%Z.
Hypothesis polysP : {in pl_participants l, forall p, presign_polynomials threshold (rng p) = Ok (polys p)}.

(** The sum of everybody's [i]-th polynomial. *)
Definition total (i : nat) : {poly F} :=
  \sum_(q <- pl_participants l) to_poly (nth (mkPolynomial [::]) (polys q) i).

Lemma party_polys q : q \in pl_participants l -> polys_ok threshold (polys q).
Proof. by move=> /polysP; apply: presign_polynomialsP; lia. Qed.

Lemma size_total i n :
  {in pl_participants l, forall q, (size (to_poly (nth (mkPolynomial [::]) (polys q) i)) <= n)%N} ->
  (size (total i) <= n)%N.
Proof.
move=> sizes; rewrite /total big_seq; elim/big_ind: _ => [|p q p_size q_size|q /sizes //].
- by rewrite size_poly0.
- by apply: (leq_trans (size_polyD _ _)); rewrite geq_max p_size.
Qed.

Lemma size_total_low i : (i < 2)%N -> (size (total i) <= Z.to_nat (threshold + 1))%N.
Proof. by move=> i_lt; apply: size_total => q /party_polys /ps_low; apply. Qed.

Lemma size_total_high i : (size (total i) <= Z.to_nat (2 * threshold + 1))%N.
Proof. by apply: size_total => q /party_polys /ps_high; apply. Qed.

Lemma total_zero i : (1 < i < 5)%N -> (total i).[0] = 0.
Proof.
move=> i_lt; rewrite /total horner_sum big_seq big1 // => q /party_polys /ps_zero; exact.
Qed.

(** The shares are the values of the polynomials. *)
Definition shares_at (ps : nat -> {poly F}) (x : F) : Shares :=
  mkShares (ps 0).[x] (ps 1).[x] (ps 2).[x] (ps 3).[x] (ps 4).[x].

Lemma Shares_newE p q : p \in pl_participants l -> q \in pl_participants l ->
  Shares_new (polys q) p = Ok (honest_package p q) /\
  honest_package p q = shares_at (fun i => to_poly (nth (mkPolynomial [::]) (polys q) i)) (xof p).
Proof.
move=> p_in q_in; have [] := party_polys q_in; rewrite /honest_package /Shares_new.
case: (polys q) => [|k [|a [|b [|d [|e []]]]]] //= _ /and5P [k_ok a_ok b_ok d_ok /andP [e_ok _]] _ _ _.
rewrite /Polynomial_eval_at_participant Participant_scalarE ?(allP l_range) //=.
by rewrite !Polynomial_eval_at_pointE.
Qed.

Lemma shares_sum ps (h : Participant -> nat -> {poly F}) s x :
  foldl Shares_add_shares s [seq shares_at (h q) x | q <- ps] =
  mkShares (sh_k s + \sum_(q <- ps) (h q 0).[x]) (sh_a s + \sum_(q <- ps) (h q 1).[x])
    (sh_b s + \sum_(q <- ps) (h q 2).[x]) (sh_d s + \sum_(q <- ps) (h q 3).[x])
    (sh_e s + \sum_(q <- ps) (h q 4).[x]).
Proof.
elim: ps s => [|q ps IH] s /=; first by rewrite !big_nil !addr0; case: s.
by rewrite IH !big_cons /= !addrA.
Qed.

Lemma total_split i p : p \in pl_participants l ->
  (total i).[xof p] = (to_poly (nth (mkPolynomial [::]) (polys p) i)).[xof p] +
    \sum_(q <- ParticipantList_others l p) (to_poly (nth (mkPolynomial [::]) (polys q) i)).[xof p].
Proof. by move=> p_in; rewrite /total horner_sum (perm_big _ (perm_others l_ok p_in)) big_cons. Qed.

Lemma honest_sharesE p : p \in pl_participants l -> honest_shares p = shares_at total (xof p).
Proof.
move=> p_in; rewrite /honest_shares (proj2 (Shares_newE p_in p_in)).
have -> : [seq honest_package p q | q <- ParticipantList_others l p] =
    [seq shares_at (fun i => to_poly (nth (mkPolynomial [::]) (polys q) i)) (xof p)
       | q <- ParticipantList_others l p].
  by apply/eq_in_map => q /others_sub q_in; rewrite (proj2 (Shares_newE p_in q_in)).
by rewrite shares_sum /shares_at /= !total_split.
Qed.

(** ** Interpolation over the participants *)

Abbreviation ids := (identifiers (pl_participants l) : seq F).
Abbreviation t1 := (Z.to_nat (threshold + 1)).

Lemma ids_uniq : uniq ids.
Proof. by apply: identifiers_uniq => //; exact: ParticipantList_ok_NoDup. Qed.

Lemma ids_size : size ids = Z.to_nat (2 * threshold + 1).
Proof. by rewrite size_map -l_size Nat2Z.id. Qed.

Lemma ids_count n : Z.le (Z.of_nat (size (take n ids))) (2 ^ 32).
Proof.
have := participants_count (participants_uniq l_ok) l_range.
have /leP : (size (take n ids) <= size (pl_participants l))%N.
  by rewrite size_take_min size_map geq_minr.
by lia.
Qed.

Lemma size_first : size (take t1 ids) = t1.
Proof. by rewrite size_takel // ids_size; apply/leP; lia. Qed.

(** The first [threshold + 1] shares interpolate a low polynomial. *)
Lemma first_interpolation (f : {poly F}) (h : G) x :
  (size f <= t1)%N ->
  PolynomialCommitment_eval_exponent_interpolation (take t1 ids)
    (take t1 [seq f.[y] *: h | y <- ids]) x = Ok (f.[odflt 0 x] *: h).
Proof.
move=> f_size; rewrite -map_take (eval_exponent_interpolationE (fun y => f.[y] *: h)).
- exact: take_uniq ids_uniq.
- by rewrite size_first; apply/ltP; lia.
- exact: ids_count.
have := lagrange_interpolation_at (odflt 0 x) (take_uniq t1 ids_uniq).
move=> /(_ f); rewrite size_first => /(_ f_size) ->; rewrite scaler_suml.
by congr Ok; apply: eq_bigr => y _; rewrite scalerA.
Qed.

Lemma exponent_checks_all (f : {poly F}) (h : G) (rest : seq F) :
  (size f <= t1)%N ->
  exponent_checks (take t1 ids) (take t1 [seq f.[y] *: h | y <- ids])
    [seq (y, f.[y] *: h) | y <- rest] = Ok tt.
Proof.
move=> f_size; elim: rest => [//|y rest IH] /=.
by rewrite first_interpolation //= eqxx.
Qed.

Lemma exponent_checks_ids (f : {poly F}) (h : G) :
  (size f <= t1)%N ->
  exponent_checks (take t1 ids) (take t1 [seq f.[y] *: h | y <- ids])
    (drop t1 (zip ids [seq f.[y] *: h | y <- ids])) = Ok tt.
Proof.
move=> f_size; have -> : zip ids [seq f.[y] *: h | y <- ids] = [seq (y, f.[y] *: h) | y <- ids].
  by elim: ids => //= y ys ->.
by rewrite -map_drop exponent_checks_all.
Qed.

Lemma split_first (T : Type) (s : seq T) what :
  size s = size ids -> split_at_checked (threshold + 1) s what = Ok (take t1 s).
Proof.
by move=> s_size; rewrite /split_at_checked s_size ids_size; case: Z.leb_spec => //; lia.
Qed.

Lemma split_all (T : Type) (s : seq T) what :
  size s = size ids -> split_at_checked (2 * threshold + 1) s what = Ok s.
Proof.
move=> s_size; rewrite /split_at_checked s_size ids_size; case: Z.leb_spec => [_|]; last by lia.
by rewrite take_oversize // s_size ids_size.
Qed.

(** ** The rounds *)

Abbreviation k := (total 0).[0].
Abbreviation a := (total 1).[0].

Lemma round2_r :
  [seq (honest_round2 q).1 | q <- pl_participants l] = [seq (total 0).[y] *: g | y <- ids].
Proof.
by rewrite -map_comp; apply/eq_in_map => q q_in; rewrite /= /presign_big_r_me honest_sharesE.
Qed.

Lemma round2_w :
  [seq (honest_round2 q).2 | q <- pl_participants l] =
  [seq (total 1 * total 0 + total 2).[y] | y <- ids].
Proof.
rewrite -map_comp; apply/eq_in_map => q q_in; rewrite /= /presign_w_me honest_sharesE //=.
by rewrite hornerD hornerM.
Qed.

Lemma size_w : (size (total 1 * total 0 + total 2)%R <= size ids)%N.
Proof.
rewrite ids_size; apply: (leq_trans (size_polyD _ _)); rewrite geq_max size_total_high andbT.
apply: (leq_trans (size_polyMleq _ _)).
have /leP := size_total_low (isT : (0 < 2)%N); have /leP := size_total_low (isT : (1 < 2)%N).
by move=> ? ?; apply/leP; rewrite -subn1 -plusE -minusE; lia.
Qed.

Lemma presign_round3E m1 m2 :
  ParticipantMap_into_vec_or_none m1 = Some [seq (honest_round2 q).2 | q <- pl_participants l] ->
  ParticipantMap_into_vec_or_none m2 = Some [seq (honest_round2 q).1 | q <- pl_participants l] ->
  presign_round3 l threshold m1 m2 =
  if k == 0 then Err IdentityElement
  else if a == 0 then Err ZeroScalar else Ok (ids, take t1 ids, k *: g, a * k).
Proof.
move=> vec1 vec2; rewrite /presign_round3 rmap_scalars //= vec1 vec2 round2_r round2_w /=.
rewrite !split_first ?size_map //= -/ids exponent_checks_ids ?size_total_low //=.
rewrite first_interpolation ?size_total_low //= scaler_eq0 (negPf (@cs_generator_neq0 _ _ _ L)) orbF.
case: (eqVneq k 0) => // kN0; rewrite !split_all ?size_map //=.
rewrite reconstruct ?participants_uniq //=.
- by rewrite -(size_map (fun p => xof p)) ids_size; apply/ltP; lia.
- by rewrite -(size_map (fun p => xof p)) size_w.
by rewrite hornerD hornerM (total_zero (i := 2)) // addr0 mulf_eq0 (negPf kN0) orbF.
Qed.

Lemma honest_round3E :
  honest_round3 = if k == 0 then Err IdentityElement
    else if a == 0 then Err ZeroScalar else Ok (ids, take t1 ids, k *: g, a * k).
Proof.
rewrite /honest_round3; apply: presign_round3E.
- by have [_ _ _ ->] := map_ofP l_ok (fun q => (honest_round2 q).2).
- by have [_ _ _ ->] := map_ofP l_ok (fun q => (honest_round2 q).1).
Qed.

(** The presignature of [p]. *)
Definition expected_presign (p : Participant) : @PresignOutput F G :=
  let c := (a * k)^-1 * (total 1).[xof p] in
  mkPresignOutput (k *: g) c (total 4).[xof p] (c + (total 3).[xof p]) (c * ko_private_share (key p)).

Lemma presign_finishE p m :
  p \in pl_participants l -> k != 0 -> a != 0 ->
  ParticipantMap_into_vec_or_none m = Some [seq honest_big_w q | q <- pl_participants l] ->
  presign_finish threshold ids (take t1 ids) (k *: g) (a * k) (honest_shares p)
    (ko_private_share (key p)) m = Ok (expected_presign p).
Proof.
move=> p_in kN0 aN0 vec; rewrite /presign_finish vec /=.
have -> : [seq honest_big_w q | q <- pl_participants l] = [seq (total 1).[y] *: (k *: g) | y <- ids].
  rewrite -map_comp; apply/eq_in_map => q q_in; rewrite /honest_big_w honest_round3E.
  by rewrite (negPf kN0) (negPf aN0) honest_sharesE.
rewrite split_first ?size_map //= exponent_checks_ids ?size_total_low //=.
rewrite first_interpolation ?size_total_low //= scalerA eqxx /= cs_invertE.
by rewrite mulf_eq0 (negPf kN0) (negPf aN0) /= honest_sharesE.
Qed.

(** Presigning ends; it fails exactly when the nonce or the mask is zero. *)
Lemma do_presign_honest p :
  p \in pl_participants l ->
  do_presign l p (mkPresignArguments (key p) threshold) (rng p) (honest_presign_received p) =
  Some (if k == 0 then Err IdentityElement
        else if a == 0 then Err ZeroScalar else Ok (expected_presign p)).
Proof.
move=> p_in; rewrite /do_presign /= polysP //=.
have -> : presign_packages l p (polys p) =
    Ok [seq (q, honest_package q p) | q <- ParticipantList_others l p].
  by apply: rmap_all => q /others_sub q_in; rewrite (proj1 (Shares_newE q_in p_in)).
rewrite /= (proj1 (Shares_newE p_in p_in)) /=.
rewrite /recv_await recv_from_others_all //= -map_comp -/(honest_shares p).
have /= -> := presign_recv_sharesE l_ok (fun q => (honest_round2 q).2)
  (fun q => (honest_round2 q).1) p_in.
rewrite /= presign_round3E ?filled_vec //.
case: (eqVneq k 0) => // kN0; case: (eqVneq a 0) => //= aN0.
have big_wE : sh_a (honest_shares p) *: (k *: g) = honest_big_w p.
  by rewrite /honest_big_w honest_round3E (negPf kN0) (negPf aN0).
by rewrite big_wE presign_recv_wsharesE //= presign_finishE ?filled_vec.
Qed.
End Run.
End Honest.

(** ** Signing *)

Section Signing.
Context {F : fieldType} {G : lmodType F} {C : Ciphersuite G} {EC : EcdsaSuite C}.
Context {L : CiphersuiteLaws C} {EL : EcdsaSuiteLaws EC}.
Abbreviation g := (@cs_generator F G C).
Abbreviation xof p := (Z_to_F (p + 1) : F).

Lemma derive_loop_neq0 n entropy rest counter delta :
  derive_loop n entropy rest counter = Ok delta -> delta != 0.
Proof.
elim: n counter => [|n IH] counter /=; case: ec_hkdf_expand => //= okm.
by case: eqVneq => [_ /IH //|N0 [<-]].
Qed.

(** The signature of a nonce [n], a key [x] and the scalar [(m + r x) / n]. *)
Definition nonce_signature (n x m : F) : @EcdsaSignature F G :=
  let s := (m + x_coordinate (n *: g) * x) / n in
  mkEcdsaSignature (n *: g) (if ec_is_high s then - s else s).

Lemma nonce_signature_verify (n x m : F) :
  n != 0 ->
  let r := x_coordinate (n *: g) in
  Signature_verify (nonce_signature n x m) (x *: g) m = Ok ((m + r * x != 0) && (r != 0)).
Proof.
move=> nN0 r; rewrite /Signature_verify [es_big_r _]/= -/r.
set s := (m + r * x) / n; have -> : es_s (nonce_signature n x m) = if ec_is_high s then - s else s by [].
have s0 : (s == 0) = (m + r * x == 0) by rewrite mulf_eq0 invr_eq0 (negPf nN0) orbF.
have sig0 : ((if ec_is_high s then - s else s) == 0) = (m + r * x == 0).
  by case: ifP => _; rewrite ?oppr_eq0 s0.
have low : ec_is_high s -> ec_is_high (- s) = false by move/ec_is_highN/negPf.
rewrite sig0; case: (eqVneq (m + r * x) 0) => [_|mN0]; first by rewrite orbT.
rewrite orbF; case: (eqVneq r 0) => [//|rN0] /=.
have -> : ec_is_high (if ec_is_high s then - s else s) = false.
  by case: ifP => // /low.
rewrite cs_invertE sig0 (negPf mN0) scalerA mulrAC -scalerDl -mulrDl.
have sE : (m + r * x) / s = n by rewrite /s invf_div mulrCA divff // mulr1.
set s' := if _ then _ else _; suff -> : @x_coordinate F G C EC (((m + r * x) / s') *: g) = r.
  by rewrite eqxx.
by rewrite /s'; case: ifP => _; rewrite ?invrN ?mulrN sE // scaleNr /x_coordinate ec_xN.
Qed.

Lemma sign_finishE (pre : @RerandomizedPresignOutput F G) (n x m : F) :
  n != 0 -> rp_big_r pre = n *: g ->
  let r := x_coordinate (n *: g) in
  sign_finish (x *: g) pre m ((m + r * x) / n) =
    (if m + r * x == 0 then Err (AssertionFailed "signature part s cannot be zero"%string)
     else if r == 0 then Err (AssertionFailed "signature failed to verify"%string)
     else Ok (nonce_signature n x m)).
Proof.
move=> nN0 bigE r; rewrite /sign_finish bigE -/(nonce_signature n x m) nonce_signature_verify //.
rewrite mulf_eq0 invr_eq0 (negPf nN0) orbF -/r.
by case: (eqVneq (m + r * x) 0) => //= _; case: (eqVneq r 0).
Qed.

Section Run.
Context (l : ParticipantList) (threshold : Z) (key : Participant -> @KeygenOutput F G).
Context (rng : Participant -> cs_rng) (polys : Participant -> seq (@Polynomial F)).
Context (fx : {poly F}) (args : @RerandomizationArguments F G) (msg_hash : F).
Context (out : Participant -> @PresignOutput F G).
Context (pre : Participant -> @RerandomizedPresignOutput F G).
Hypothesis l_ok : ParticipantList_ok l.
Hypothesis l_range : all is_participant (pl_participants l).
Hypothesis threshold_ge : Z.le 1 threshold.
Hypothesis l_size : Z.of_nat (size (pl_participants l)) = (2 * threshold + 1)%Z.
Hypothesis polysP : {in pl_participants l, forall p, presign_polynomials threshold (rng p) = Ok (polys p)}.
Hypothesis fx_size : (size fx <= Z.to_nat (threshold + 1))%N.
Hypothesis fx_key : {in pl_participants l, forall p, ko_private_share (key p) = fx.[xof p]}.
Hypothesis presigned : {in pl_participants l, forall p,
  do_presign l p (mkPresignArguments (key p) threshold) (rng p)
    (honest_presign_received l threshold polys p) = Some (Ok (out p))}.
Hypothesis rerandomized : {in pl_participants l, forall p, rerandomize_presign (out p) args = Ok (pre p)}.

Abbreviation ids := (identifiers (pl_participants l) : seq F).
Abbreviation T := (total l polys).

(** What another participant sends to the coordinator. *)
Definition honest_sign_share (q : Participant) : F :=
  if do_sign_participant l q (pre q) msg_hash is Ok s then s else 0.

Lemma presigned_out p : p \in pl_participants l ->
  [/\ (T 0).[0] != 0, (T 1).[0] != 0 & out p = expected_presign l key polys p].
Proof.
move=> p_in; have := presigned p_in.
rewrite (do_presign_honest key l_ok l_range threshold_ge l_size polysP p_in).
by case: eqP => // /eqP kN0; case: eqP => // /eqP aN0 [<-].
Qed.

(** The polynomial whose values the signature shares are. *)
Definition sign_poly (delta r : F) : {poly F} :=
  let c := ((T 1).[0] * (T 0).[0])^-1 in
  (msg_hash / delta) *: (c *: T 1 + T 3) +
  (r / delta) *: (c *: (T 1 * fx) + (c * ra_tweak args) *: T 1) + T 4.

Lemma size_sign_poly delta r : (size (sign_poly delta r) <= size ids)%N.
Proof.
have le_high : (Z.to_nat (threshold + 1) <= Z.to_nat (2 * threshold + 1))%N by apply/leP; lia.
have low := leq_trans (size_total_low threshold_ge polysP (isT : (1 < 2)%N)) le_high.
have addP (f h : {poly F}) N : (size f <= N)%N -> (size h <= N)%N -> (size (f + h)%R <= N)%N.
  by move=> fN hN; apply: (leq_trans (size_polyD _ _)); rewrite geq_max fN.
have sclP (b : F) (f : {poly F}) N : (size f <= N)%N -> (size (b *: f) <= N)%N.
  exact: leq_trans (size_scale_leq _ _).
rewrite (ids_size l_size); apply: (addP); last exact: size_total_high threshold_ge polysP _.
apply: (addP); apply: (sclP); apply: (addP); try exact: (sclP).
- exact: size_total_high threshold_ge polysP _.
- apply: (sclP); apply: (leq_trans (size_polyMleq _ _)); move/leP: fx_size.
  have /leP := size_total_low threshold_ge polysP (isT : (1 < 2)%N).
  by move=> ? ?; apply/leP; rewrite -subn1 -plusE -minusE; lia.
Qed.

Lemma sign_poly0 delta r : delta != 0 -> (T 0).[0] != 0 -> (T 1).[0] != 0 ->
  (sign_poly delta r).[0] =
  (msg_hash + r * (fx.[0] + ra_tweak args)) / (delta * (T 0).[0]).
Proof.
move=> dN0 kN0 aN0; rewrite /sign_poly !(hornerD, hornerZ, hornerM).
rewrite (total_zero threshold_ge polysP (i := 3)) // (total_zero threshold_ge polysP (i := 4)) //.
rewrite !addr0; set k := (T 0).[0] in kN0 *; set a := (T 1).[0] in aN0 *.
have ca : (a * k)^-1 * a = k^-1 by rewrite invfM mulrAC mulVf // mul1r.
rewrite mulrA [_ * ra_tweak args * _]mulrAC [(a * k)^-1 * (a * _)]mulrA ca -mulrDr -mulrA ca.
rewrite invfM [RHS]mulrDl !mulrA; congr (_ + _).
by rewrite mulrAC [r / delta * _]mulrAC.
Qed.

(** The shares of a signature are values of [sign_poly], weighted for the sum. *)
Lemma signature_shareE delta p :
  p \in pl_participants l -> derive_randomness args = Ok delta -> delta != 0 ->
  rp_big_r (pre p) = (delta * (T 0).[0]) *: g /\
  compute_signature_share (pre p) msg_hash l p =
  Ok ((sign_poly delta (x_coordinate ((delta * (T 0).[0]) *: g))).[xof p] *
      lagrange_basis ids (xof p) 0).
Proof.
move=> p_in deltaE dN0; have [kN0 aN0 outE] := presigned_out p_in.
have := rerandomized p_in; rewrite /rerandomize_presign outE /=; case: eqP => //= _.
rewrite deltaE /= (negPf dN0) cs_invertE (negPf dN0) => -[<-] /=; split; first by rewrite scalerA.
rewrite /compute_signature_share /= (@ParticipantList_lagrangeE _ _ _ L) ?(allP l_range) //.
- by have := size_map (fun p => xof p) (pl_participants l); rewrite (ids_size l_size) => <-; apply/ltP; lia.
- exact: (map_f (fun p => xof p) p_in).
rewrite /= scalerA; congr (Ok (_ * _)); rewrite /sign_poly !(hornerD, hornerZ, hornerM) fx_key //.
rewrite addrA; congr (_ + _ + _); first by rewrite mulrA mulrAC.
rewrite mulrC mulrA mulrAC; congr (_ * _).
by rewrite [in RHS]mulrA [X in _ + X = _]mulrAC.
Qed.

(** The coordinator's sum is the value at zero. *)
Lemma signature_sum delta coordinator :
  coordinator \in pl_participants l -> derive_randomness args = Ok delta -> delta != 0 ->
  let r := x_coordinate ((delta * (T 0).[0]) *: g) in
  exists2 s_me, compute_signature_share (pre coordinator) msg_hash l coordinator = Ok s_me &
  foldl (fun s s_i => s + s_i.2) s_me
    [seq (q, honest_sign_share q) | q <- ParticipantList_others l coordinator] =
  (msg_hash + r * (fx.[0] + ra_tweak args)) / (delta * (T 0).[0]).
Proof.
move=> c_in deltaE dN0 r; have [kN0 aN0 _] := presigned_out c_in.
have [_ ->] := signature_shareE c_in deltaE dN0; eexists; first by [].
rewrite (foldl_sum (fun q => q.2)) big_map -(sign_poly0 r dN0 kN0 aN0).
rewrite (lagrange_interpolation_at 0 (ids_uniq l_ok l_range) (size_sign_poly delta r)) big_map.
rewrite (perm_big _ (perm_others l_ok c_in)) big_cons /= mulrC; congr (_ + _).
rewrite big_seq [RHS]big_seq; apply: eq_bigr => q /others_sub q_in.
by rewrite /honest_sign_share /do_sign_participant (proj2 (signature_shareE q_in deltaE dN0)) mulrC.
Qed.

Lemma do_sign_honest coordinator :
  coordinator \in pl_participants l ->
  exists n, n != 0 /\
  let r := x_coordinate (n *: g) in
  let x := fx.[0] + ra_tweak args in
  exists sig, [/\ do_sign_coordinator l coordinator (x *: g) (pre coordinator) msg_hash
      [seq (q, honest_sign_share q) | q <- ParticipantList_others l coordinator] =
      Some (if msg_hash + r * x == 0 then
              Err (AssertionFailed "signature part s cannot be zero"%string)
            else if r == 0 then Err (AssertionFailed "signature failed to verify"%string)
            else Ok sig),
    es_big_r sig = n *: g &
    msg_hash + r * x != 0 -> r != 0 -> Signature_verify sig (x *: g) msg_hash = Ok true].
Proof.
move=> c_in; have [kN0 aN0 outE] := presigned_out c_in.
have [delta deltaE] : exists delta, derive_randomness args = Ok delta.
  have := rerandomized c_in; rewrite /rerandomize_presign; case: ifP => // _.
  by case: derive_randomness => //= delta _; exists delta.
have dN0 : delta != 0 := derive_loop_neq0 deltaE.
have [rE _] := signature_shareE c_in deltaE dN0.
have [s_me s_meE sumE] := signature_sum c_in deltaE dN0.
exists (delta * (T 0).[0]); split; first by rewrite mulf_neq0.
have nN0 : delta * (T 0).[0] != 0 by rewrite mulf_neq0.
exists (nonce_signature (delta * (T 0).[0]) (fx.[0] + ra_tweak args) msg_hash); split=> //.
  by rewrite /do_sign_coordinator s_meE /= /recv_await recv_from_others_all //= sumE sign_finishE.
by move=> eN0 rN0; rewrite nonce_signature_verify // eN0 rN0.
Qed.
End Run.
End Signing.

(** ** What a presigning party accepts *)

Section Accepted.
Context {F : fieldType} {G : lmodType F} {C : Ciphersuite G} {EC : EcdsaSuite C}.
Context {L : CiphersuiteLaws C}.
Abbreviation xof p := (Z_to_F (p + 1) : F).

Lemma presign_recv_sharesP l (m1 m1' : ParticipantMap F) (m2 m2' : ParticipantMap G) queue :
  ParticipantMap_ok m2 -> pm_participants m2 = l ->
  presign_recv_shares m1 m2 queue = Some (Ok (m1', m2')) ->
  [/\ ParticipantMap_ok m2', pm_participants m2' = l &
    forall q x, ParticipantMap_get m2' q = Some x ->
      ParticipantMap_get m2 q = Some x \/ exists w, List.In (q, (x, w)) queue].
Proof.
elim: queue m1 m2 => [|[from [r w]] queue IH] m1 m2 m2_ok m2_l /=; case: ifP => // _.
- by case=> _ <-; split=> // q x; left.
- by case=> _ <-; split=> // q x; left.
have [ok' [l' get']] := ParticipantMap_put_ok m2 from r m2_ok.
rewrite m2_l in l'; move=> /(IH _ _ ok' l') [ok2 l2 get2]; split=> // q x /get2 [|[w' in_q]].
- rewrite get' -[Z.eqb q from]/(q == from); case: eqP => [->|_] /=; last by left.
  by case: ifP => [_ [<-]|_]; [right; exists w; left | left].
- by right; exists w'; right.
Qed.

(** The values that [m] holds, when it is full. *)
Lemma full_values T l (m : ParticipantMap T) v (d : T) :
  ParticipantMap_ok m -> pm_participants m = l -> ParticipantMap_into_vec_or_none m = Some v ->
  v = [seq odflt d (ParticipantMap_get m q) | q <- pl_participants l] /\
  {in pl_participants l, forall q, ParticipantMap_get m q = Some (odflt d (ParticipantMap_get m q))}.
Proof.
move=> m_ok m_l v_def; have vE := ParticipantMap_vec _ _ m_ok v_def; rewrite m_l in vE.
split.
- have := congr1 (map (odflt d)) vE; rewrite -!map_comp => ->.
  by elim: v {v_def vE} => //= x v <-.
- move=> q q_in; have := List.in_map (ParticipantMap_get m) _ _ (InP _ _ q_in).
  by rewrite vE => /List.in_map_iff [x [<- _]].
Qed.

Lemma exponent_checksP (fids : seq F) (fsh : seq G) rest :
  exponent_checks fids fsh rest = Ok tt ->
  {in rest, forall q, PolynomialCommitment_eval_exponent_interpolation fids fsh (Some q.1) = Ok q.2}.
Proof.
elim: rest => [//|[id share] rest IH] /=.
case E: (PolynomialCommitment_eval_exponent_interpolation _ _ _) => [x|//|//] /=.
case: eqP => //= <- /IH all_rest q; rewrite in_cons => /orP [/eqP -> //|]; exact: all_rest.
Qed.

(** Values of a group-valued polynomial given by its values at [xs]. *)
Definition gpoly (xs : seq F) (R : F -> G) (y : F) : G :=
  \sum_(xi <- xs) lagrange_basis xs xi y *: R xi.

Lemma gpoly_node xs R x : uniq xs -> x \in xs -> gpoly xs R x = R x.
Proof.
move=> xs_uniq x_in; rewrite /gpoly (bigD1_seq x) //= lagrange_basis_same scale1r big_seq_cond.
rewrite big1 ?addr0 // => y /andP [y_in yN].
by rewrite lagrange_basis_other ?scale0r // eq_sym.
Qed.

(** It is determined by its values at any other points, as many as [xs]. *)
Lemma gpoly_change xs R ys y :
  uniq ys -> size ys = size xs ->
  \sum_(yi <- ys) lagrange_basis ys yi y *: gpoly xs R yi = gpoly xs R y.
Proof.
move=> ys_uniq ys_size; rewrite /gpoly.
under eq_bigr do rewrite scaler_sumr; rewrite exchange_big /= big_seq [RHS]big_seq.
apply: eq_bigr => xi xi_in; under eq_bigr do rewrite scalerA.
rewrite -scaler_suml; congr (_ *: _).
rewrite -(lagrange_polyE xs xi y) (lagrange_interpolation_at y ys_uniq); last first.
  by apply: eq_bigr => yi _; rewrite lagrange_polyE.
by rewrite ys_size; exact: size_lagrange_poly.
Qed.

Section Round3.
Context (l : ParticipantList) (threshold : Z).
Hypothesis l_ok : ParticipantList_ok l.
Hypothesis l_range : all is_participant (pl_participants l).
Hypothesis threshold_ge : Z.le 1 threshold.
Abbreviation ids := (identifiers (pl_participants l) : seq F).
Abbreviation t1 := (Z.to_nat (threshold + 1)).

Lemma identifiers_ok (S : seq Participant) :
  uniq S -> {subset S <= pl_participants l} ->
  uniq (identifiers S : seq F) /\ Z.le (Z.of_nat (size (identifiers S : seq F))) (2 ^ 32).
Proof.
move=> S_uniq S_sub; have S_range : all is_participant S.
  by apply/allP => q /S_sub; exact: (allP l_range).
by split; [apply: identifiers_uniq => //; exact: uniq_NoDup | rewrite size_map; exact: participants_count].
Qed.

Lemma ids_uniq' : uniq ids.
Proof. by have [] := identifiers_ok (participants_uniq l_ok) (fun _ => id). Qed.

(** The first shares, and the others that pass the checks, are values of one
    polynomial of degree at most [threshold]. *)
Lemma checked_shares (R : F -> G) big_r :
  (t1 <= size ids)%N ->
  exponent_checks (take t1 ids) (take t1 [seq R x | x <- ids])
    (drop t1 (zip ids [seq R x | x <- ids])) = Ok tt ->
  PolynomialCommitment_eval_exponent_interpolation (take t1 ids)
    (take t1 [seq R x | x <- ids]) None = Ok big_r ->
  {in ids, forall x, R x = gpoly (take t1 ids) R x} /\ big_r = gpoly (take t1 ids) R 0.
Proof.
move=> t1_le; have t1_gt : (1 < size (take t1 ids))%N.
  by rewrite size_takel //; apply/ltP; lia.
have count : Z.le (Z.of_nat (size (take t1 ids))) (2 ^ 32).
  rewrite size_takel //; have [_ /=] := identifiers_ok (participants_uniq l_ok) (fun _ => id).
  by move/leP: t1_le; lia.
have interp x : PolynomialCommitment_eval_exponent_interpolation (take t1 ids)
    (take t1 [seq R y | y <- ids]) x = Ok (gpoly (take t1 ids) R (odflt 0 x)).
  by rewrite -map_take eval_exponent_interpolationE // take_uniq // ids_uniq'.
rewrite interp => /exponent_checksP checked [<-]; split=> // x.
rewrite -{1}(cat_take_drop t1 ids) mem_cat => /orP [x_in|x_in].
  by rewrite gpoly_node // take_uniq // ids_uniq'.
have : (x, R x) \in drop t1 (zip ids [seq R y | y <- ids]).
  have -> : zip ids [seq R y | y <- ids] = [seq (y, R y) | y <- ids] by elim: ids => //= y ys ->.
  by rewrite -map_drop; apply: map_f.
by move/checked; rewrite interp => -[<-].
Qed.

(** Any [threshold + 1] shares interpolate to the same nonce commitment. *)
Lemma shares_consistent (R : F -> G) big_r (S : seq Participant) :
  (t1 <= size ids)%N ->
  {in ids, forall x, R x = gpoly (take t1 ids) R x} -> big_r = gpoly (take t1 ids) R 0 ->
  uniq S -> {subset S <= pl_participants l} -> size S = t1 ->
  PolynomialCommitment_eval_exponent_interpolation (identifiers S)
    [seq R (xof q) | q <- S] None = Ok big_r.
Proof.
move=> t1_le RE -> S_uniq S_sub S_size; have [ids_S count_S] := identifiers_ok S_uniq S_sub.
have -> : [seq R (xof q) | q <- S] = [seq gpoly (take t1 ids) R x | x <- identifiers S].
  by rewrite -map_comp; apply/eq_in_map => q /S_sub q_in /=; apply: RE; exact: (map_f (fun p => xof p)).
rewrite eval_exponent_interpolationE //; first by rewrite size_map S_size; apply/ltP; lia.
by rewrite gpoly_change // size_map S_size size_takel.
Qed.

Lemma presign_round3P m1 m2 fids big_r w ids' :
  ParticipantMap_ok m2 -> pm_participants m2 = l ->
  presign_round3 l threshold m1 m2 = Ok (ids', fids, big_r, w) ->
  exists R : Participant -> G,
  {in pl_participants l, forall q, ParticipantMap_get m2 q = Some (R q)} /\
  forall S, uniq S -> {subset S <= pl_participants l} -> size S = t1 ->
    PolynomialCommitment_eval_exponent_interpolation (identifiers S) [seq R q | q <- S] None =
    Ok big_r.
Proof.
move=> m2_ok m2_l; rewrite /presign_round3 rmap_scalars //=.
case: (ParticipantMap_into_vec_or_none m1) => //= v1.
case E: (ParticipantMap_into_vec_or_none m2) => [v2|//] /=.
have [v2E getE] := full_values 0 m2_ok m2_l E.
pose R q := odflt 0 (ParticipantMap_get m2 q).
pose R' x := R (nth 0%Z (pl_participants l) (index x ids)).
have R'E q : q \in pl_participants l -> R' (xof q) = R q.
  move=> q_in; rewrite /R'; congr R.
  have x_in : xof q \in ids by exact: (map_f (fun p => xof p)).
  have lt : (index (xof q) ids < size (pl_participants l))%N.
    by rewrite -(size_map (fun p => xof p)) index_mem.
  apply: (@Z_to_F_inj F G C L); rewrite ?(allP l_range) ?mem_nth //.
  by rewrite -(nth_map _ 0 (fun p => xof p)) // nth_index.
have -> : v2 = [seq R' x | x <- ids].
  by rewrite v2E -map_comp; apply/eq_in_map => q q_in /=; rewrite R'E.
rewrite /split_at_checked; case: Z.leb_spec => //= t1_le; case: Z.leb_spec => //= _.
case X: (exponent_checks _ _ _) => [[]|//|//] /=.
case B: (PolynomialCommitment_eval_exponent_interpolation _ _ _) => [r|//|//] /=.
have {}t1_le : (t1 <= size ids)%N by apply/leP; lia.
have [RE rE] := checked_shares t1_le X B.
case: ifP => // _; do 2 (case: ifP => //= _).
case: (Polynomial_eval_interpolation _ _ _) => //= w'; case: ifP => // _ [_ _ <- _].
exists R; split=> [q /getE //|S S_uniq S_sub S_size].
have -> : [seq R q | q <- S] = [seq R' (xof q) | q <- S].
  by apply/eq_in_map => q /S_sub /R'E ->.
exact: shares_consistent.
Qed.
End Round3.

Lemma do_presign_accepted l me args rng rc out :
  ParticipantList_ok l -> all is_participant (pl_participants l) -> me \in pl_participants l ->
  Z.le 1 (pa_max_malicious args) ->
  do_presign l me args rng rc = Some (Ok out) ->
  exists R : Participant -> G,
  (forall q, q \in pl_participants l -> q != me -> exists w, List.In (q, (R q, w)) (pr_round2 rc)) /\
  forall S, uniq S -> {subset S <= pl_participants l} ->
    size S = Z.to_nat (pa_max_malicious args + 1) ->
    PolynomialCommitment_eval_exponent_interpolation (identifiers S) [seq R q | q <- S] None =
    Ok (po_big_r out).
Proof.
move=> l_ok l_range me_in thr_ge; rewrite /do_presign.
case: (presign_polynomials _ _) => //= ps; case: (presign_packages _ _ _) => //= _.
case: (Shares_new _ _) => //= s0; case: (recv_await _ _ _) => [[packages| |]|] //=.
set shares := foldl _ _ _; set m2 := ParticipantMap_put _ me (presign_big_r_me _).
have [m2_ok m2_l m2_get] := filled_start l_ok (fun _ => presign_big_r_me shares) me_in.
case Q: (presign_recv_shares _ _ _) => [[[m1' m2']| |]|] //=.
have [ok' l' get'] := presign_recv_sharesP m2_ok m2_l Q.
case R3: (presign_round3 _ _ _ _) => [[[[ids' fids] big_r] w]| |] //=.
case: (presign_recv_wshares _ _) => [[m3| |]|] //=.
have [R [R_get R_all]] := presign_round3P l_ok l_range thr_ge ok' l' R3.
move=> [fin]; exists R; split.
  move=> q q_in qN; have [|//] := get' q (R q) (R_get q q_in).
  by rewrite m2_get (negPf qN).
have -> : po_big_r out = big_r; last exact: R_all.
move: fin; rewrite /presign_finish; case: ParticipantMap_into_vec_or_none => //= ws.
case: split_at_checked => //= fw; case: exponent_checks => //= _.
case: PolynomialCommitment_eval_exponent_interpolation => //= bw; case: ifP => // _.
by case: cs_invert => //= winv [<-].
Qed.
End Accepted.
