(* ===== verification/RobustEcdsaTheorems.v ===== *)
(** * Threshold signatures: the guarantees of robust ECDSA, with an example

    The theorems about presigning and signing, run with three participants on the
    ciphersuite of [Interpolation]. *)

From Stdlib Require Import ZArith Lia String.
From mathcomp Require Import boot order ssralg poly ssrnum rat.
From S2P Require Import TsTypes TsParticipants Polynomials Interpolation.
From S2P Require Import Dkg DkgProofs DkgHonest DkgTheorems RobustEcdsa RobustEcdsaProofs.
Set Implicit Arguments.
Unset Strict Implicit.
Unset Printing Implicit Defensive.
Import Order.Theory GRing.Theory Num.Theory.
Local Open Scope ring_scope.
Local Open Scope ts_scope.

Section Theorems.
Context {F : fieldType} {G : lmodType F} {C : Ciphersuite G} {EC : EcdsaSuite C}.
Context {L : CiphersuiteLaws C} {EL : EcdsaSuiteLaws EC}.

(** When [2t + 1] participants follow the presigning protocol and their
    messages arrive, every run ends.  There are a nonce [k] and a mask [a], the
    same for all, such that every run returns the error for the identity when [k]
    is zero, the error for a zero scalar when [a] is, and otherwise a presignature
    with nonce commitment [k g] whose first shares interpolate to [1 / k]. *)
Theorem honest_presign_finishes (l : ParticipantList) (t : Z)
    (key : Participant -> @KeygenOutput F G) (rng : Participant -> cs_rng)
    (polys : Participant -> seq (@Polynomial F)) :
  ParticipantList_ok l -> all is_participant (pl_participants l) -> Z.le 1 t ->
  Z.of_nat (size (pl_participants l)) = (2 * t + 1)%Z ->
  {in pl_participants l, forall p, presign_polynomials t (rng p) = Ok (polys p)} ->
  exists k a : F, exists out : Participant -> @PresignOutput F G,
  [/\ {in pl_participants l, forall p,
        do_presign l p (mkPresignArguments (key p) t) (rng p) (honest_presign_received l t polys p) =
        Some (if k == 0 then Err IdentityElement
              else if a == 0 then Err ZeroScalar else Ok (out p))},
      {in pl_participants l, forall p, po_big_r (out p) = k *: cs_generator} &
      k != 0 -> a != 0 ->
      Polynomial_eval_interpolation (identifiers (pl_participants l))
        [seq po_c (out p) | p <- pl_participants l] None = Ok k^-1].
Proof.
move=> l_ok l_range t_ge l_size polysP.
exists (total l polys 0).[0], (total l polys 1).[0], (expected_presign l key polys); split=> //.
  by move=> p; exact: (do_presign_honest key l_ok l_range t_ge l_size polysP).
move=> kN0 aN0; pose c := ((total l polys 1).[0] * (total l polys 0).[0])^-1.
have -> : [seq po_c (expected_presign l key polys p) | p <- pl_participants l] =
    [seq (c *: total l polys 1).[x] | x <- identifiers (pl_participants l)].
  by rewrite -map_comp; apply/eq_in_map => p _; rewrite /= hornerZ.
rewrite reconstruct ?participants_uniq //.
- by apply/ssrnat.ltP; lia.
- apply: (leq_trans (size_scale_leq _ _)); apply: (leq_trans (size_total_high t_ge polysP _)).
  by apply/ssrnat.leP; lia.
by rewrite hornerZ /c invfM mulrAC mulVf // mul1r.
Qed.

(** C10: signing is correct.  Let [2t + 1] participants hold shares of a key whose
    polynomial has at most [t + 1] coefficients, presign and rerandomize with the
    same arguments, and send their signature shares to the coordinator.  The
    coordinator then returns a signature that verifies for the message under the
    key derived with the tweak, except in two cases of negligible probability:
    the signature scalar or the x coordinate of the nonce commitment is zero. *)
Theorem robust_signature_verifies (l : ParticipantList) (t : Z) (fx : {poly F})
    (key : Participant -> @KeygenOutput F G) (rng : Participant -> cs_rng)
    (polys : Participant -> seq (@Polynomial F)) (args : @RerandomizationArguments F G)
    (msg_hash : F) (out : Participant -> @PresignOutput F G)
    (pre : Participant -> @RerandomizedPresignOutput F G) (coordinator : Participant) :
  ParticipantList_ok l -> all is_participant (pl_participants l) -> Z.le 1 t ->
  Z.of_nat (size (pl_participants l)) = (2 * t + 1)%Z ->
  {in pl_participants l, forall p, presign_polynomials t (rng p) = Ok (polys p)} ->
  (size fx <= Z.to_nat (t + 1))%N ->
  {in pl_participants l, forall p, ko_private_share (key p) = fx.[Z_to_F (p + 1)]} ->
  {in pl_participants l, forall p,
    do_presign l p (mkPresignArguments (key p) t) (rng p) (honest_presign_received l t polys p) =
    Some (Ok (out p))} ->
  {in pl_participants l, forall p, rerandomize_presign (out p) args = Ok (pre p)} ->
  coordinator \in pl_participants l ->
  let pk := Tweak_derive_verifying_key (ra_tweak args) (fx.[0] *: cs_generator) in
  exists n : F, n != 0 /\
  let r := x_coordinate (n *: cs_generator) in
  let e := msg_hash + r * (fx.[0] + ra_tweak args) in
  exists sig,
  [/\ do_sign_coordinator l coordinator pk (pre coordinator) msg_hash
        [seq (q, honest_sign_share l msg_hash pre q) | q <- ParticipantList_others l coordinator] =
      Some (if e == 0 then Err (AssertionFailed "signature part s cannot be zero"%string)
            else if r == 0 then Err (AssertionFailed "signature failed to verify"%string)
            else Ok sig),
      es_big_r sig = n *: cs_generator &
      e != 0 -> r != 0 -> Signature_verify sig pk msg_hash = Ok true].
Proof.
move=> l_ok l_range t_ge l_size polysP fx_size fx_key presigned rerand c_in pk.
have -> : pk = (fx.[0] + ra_tweak args) *: cs_generator by rewrite scalerDl.
exact: (do_sign_honest msg_hash l_ok l_range t_ge l_size polysP fx_size fx_key presigned rerand c_in).
Qed.

(** C30: whatever the other participants send, the nonce shares that a party
    accepts in presigning are consistent: one for every participant, the others'
    taken from their messages, and any [t + 1] of them interpolate to the nonce
    commitment that the party outputs. *)
Theorem presign_nonce_consistent (l : ParticipantList) (me : Participant)
    (args : @PresignArguments F G) (rng : cs_rng) (rc : @PresignReceived F G)
    (out : @PresignOutput F G) :
  ParticipantList_ok l -> all is_participant (pl_participants l) -> me \in pl_participants l ->
  Z.le 1 (pa_max_malicious args) ->
  do_presign l me args rng rc = Some (Ok out) ->
  exists R : Participant -> G,
  (forall q, q \in pl_participants l -> q != me -> exists w, List.In (q, (R q, w)) (pr_round2 rc)) /\
  forall S, uniq S -> {subset S <= pl_participants l} ->
    size S = Z.to_nat (pa_max_malicious args + 1) ->
    PolynomialCommitment_eval_exponent_interpolation (identifiers S) [seq R q | q <- S] None =
    Ok (po_big_r out).
Proof. exact: do_presign_accepted. Qed.
End Theorems.

(** ** An example *)

(** The rationals as in [sample_suite], with one as the only random number. *)
#[local] Instance one_suite : Ciphersuite (rat^o : lmodType rat) := {|
  cs_generator := (1 : rat^o);
  cs_invert x := if x == 0 then None else Some x^-1;
  cs_bytes_order := LittleEndian;
  cs_deserialize bytes := Some (Z_to_F (le_value bytes));
  cs_scalar_size := 32;
  cs_rng := unit;
  cs_random _ := (1, tt);
|}.

#[local] Instance one_suite_laws : CiphersuiteLaws one_suite.
Proof. by have [] := sample_suite_laws; split. Qed.

#[local] Instance sample_ecdsa : EcdsaSuite one_suite := {|
  ec_x P := (P : rat) ^+ 2;
  ec_is_high s := s < 0;
  ec_encode_point _ := [:: 2%Z];
  ec_serialize _ := [:: 1%Z];
  ec_hkdf_expand _ entropy info := Some (entropy ++ info);
  ec_from_repr b := Some 2%:R;
|}.

#[local] Instance sample_ecdsa_laws : EcdsaSuiteLaws sample_ecdsa.
Proof.
split=> [P|s] /=; first exact: sqrrN.
by rewrite oppr_lt0 -leNgt => /ltW.
Qed.

Definition three : ParticipantList :=
  if ParticipantList_new [:: 2; 0; 1]%Z is Some l then l else mkParticipantList [::] [::].

(** The key [3 + X] shared among 0, 1 and 2. *)
Definition ex_key (p : Participant) : @KeygenOutput rat rat^o :=
  mkKeygenOutput ex_old_poly.[Z_to_F (p + 1)] (3%:R *: (1 : rat^o)).

Definition ex_polys (p : Participant) : seq (@Polynomial rat) :=
  if presign_polynomials 1 (tt : @cs_rng _ _ one_suite) is Ok ps then ps else [::].

Definition ex_presign (p : Participant) : run (@PresignOutput rat rat^o) :=
  do_presign three p (mkPresignArguments (ex_key p) 1) (tt : @cs_rng _ _ one_suite)
    (honest_presign_received three 1 ex_polys p).

Definition ex_presignature (p : Participant) : @PresignOutput rat rat^o :=
  if ex_presign p is Some (Ok out) then out else mkPresignOutput 0 0 0 0 0.

Definition ex_args : @RerandomizationArguments rat rat^o :=
  mkRerandomizationArguments (3%:R : rat^o) 4%:R [:: 9%Z] (po_big_r (ex_presignature 2)) three [::].

Definition ex_pre (p : Participant) : @RerandomizedPresignOutput rat rat^o :=
  if rerandomize_presign (ex_presignature p) ex_args is Ok pre then pre
  else mkRerandomizedPresignOutput 0 0 0 0.

Lemma three_ok : ParticipantList_ok three.
Proof. by case: (ParticipantList_new_ok [:: 2; 0; 1]%Z three erefl). Qed.

Lemma three_participants : pl_participants three = [:: 0; 1; 2]%Z.
Proof. by vm_compute. Qed.

Lemma ex_range : all is_participant (pl_participants three).
Proof. by rewrite three_participants. Qed.

Lemma ex_polysP :
  {in pl_participants three, forall p, presign_polynomials 1 (tt : @cs_rng _ _ one_suite) = Ok (ex_polys p)}.
Proof.
have okP p : (if presign_polynomials 1 (tt : @cs_rng _ _ one_suite) is Ok _ then true else false) ->
    presign_polynomials 1 (tt : @cs_rng _ _ one_suite) = Ok (ex_polys p).
  by rewrite /ex_polys; case: (presign_polynomials _ _).
by move=> p; rewrite three_participants !inE => /or3P [] /eqP ->; apply: okP; vm_compute.
Qed.

Lemma ex_presigned : {in pl_participants three, forall p, ex_presign p = Some (Ok (ex_presignature p))}.
Proof.
have okP p : (if ex_presign p is Some (Ok _) then true else false) ->
    ex_presign p = Some (Ok (ex_presignature p)).
  by rewrite /ex_presignature; case: (ex_presign p) => [[]|].
by move=> p; rewrite three_participants !inE => /or3P [] /eqP ->; apply: okP; vm_compute.
Qed.

Lemma ex_rerandomized :
  {in pl_participants three, forall p, rerandomize_presign (ex_presignature p) ex_args = Ok (ex_pre p)}.
Proof.
have okP p : (if rerandomize_presign (ex_presignature p) ex_args is Ok _ then true else false) ->
    rerandomize_presign (ex_presignature p) ex_args = Ok (ex_pre p).
  by rewrite /ex_pre; case: (rerandomize_presign _ _).
by move=> p; rewrite three_participants !inE => /or3P [] /eqP ->; apply: okP; vm_compute.
Qed.

Lemma ex_size : Z.of_nat (size (pl_participants three)) = (2 * 1 + 1)%Z.
Proof. by rewrite three_participants. Qed.

Lemma honest_presign_finishes_witness :
  exists k a : rat, exists out : Participant -> @PresignOutput rat rat^o,
    ex_presign 1 = Some (if k == 0 then Err IdentityElement
                         else if a == 0 then Err ZeroScalar else Ok (out 1%Z)).
Proof.
have one : Z.le 1 1 by [].
have [k [a [out [runs _ _]]]] :=
  honest_presign_finishes ex_key three_ok ex_range one ex_size ex_polysP.
by exists k, a, out; apply: runs; rewrite three_participants.
Defined.

(** The signature of the message 6 by 0, 1 and 2, with 1 as the coordinator. *)
Definition ex_pk : rat^o := Tweak_derive_verifying_key (C := one_suite) 4%:R (ex_old_poly.[0] *: (1 : rat^o)).

Definition ex_signing : run (@EcdsaSignature rat rat^o) :=
  do_sign_coordinator three 1 ex_pk (ex_pre 1) 6%:R
    [seq (q, honest_sign_share three 6%:R ex_pre q) | q <- ParticipantList_others three 1].

Lemma ex_signing_ok : if ex_signing is Some (Ok _) then true else false.
Proof. by vm_compute. Qed.

Lemma robust_signature_verifies_witness :
  exists sig, ex_signing = Some (Ok sig) /\ Signature_verify sig ex_pk 6%:R = Ok true.
Proof.
have one : Z.le 1 1 by [].
have fx_size : (size ex_old_poly <= Z.to_nat (1 + 1))%N by [].
have c_in : 1%Z \in pl_participants three by rewrite three_participants.
have fx_key : {in pl_participants three, forall p,
    ko_private_share (ex_key p) = ex_old_poly.[Z_to_F (p + 1)]} by [].
have [n [_ [sig [runE _ verE]]]] :=
  robust_signature_verifies 6%:R three_ok ex_range one ex_size ex_polysP fx_size
    fx_key ex_presigned ex_rerandomized c_in.
exists sig; have {}runE : ex_signing = _ := runE; move: runE verE (ex_signing_ok).
move=> ->; case: eqP => // _; case: eqP => // _ ver _; split=> //; exact: ver.
Defined.

Lemma presign_nonce_consistent_witness :
  exists R : Participant -> rat^o,
    PolynomialCommitment_eval_exponent_interpolation (identifiers [:: 0; 2]%Z) [seq R q | q <- [:: 0; 2]%Z] None =
    Ok (po_big_r (ex_presignature 1)).
Proof.
have me_in : 1%Z \in pl_participants three by rewrite three_participants.
have one : Z.le 1 (pa_max_malicious (mkPresignArguments (ex_key 1) 1)) by [].
have [R [_ R_all]] := presign_nonce_consistent three_ok ex_range me_in one (ex_presigned me_in).
exists R; apply: R_all => // p; rewrite three_participants !inE => /orP [] ->; rewrite ?orbT //.
Defined.
