(* ===== verification/Ckd.v ===== *)
(** * Threshold signatures: confidential key derivation

    [src/crates/threshold-signatures/src/confidential_key_derivation/]
    ([protocol.rs], [mod.rs] and [verify_signature] of [ciphersuite.rs]): the
    participants hold shares of a key over the group [G2]; the coordinator obtains
    the key times the hash of the application id, in the group [G1], masked for
    the key of the application.

    The functions of [blstrs] are the class [CkdSuite]; elements of the groups are
    elements of the subgroups of prime order. *)

From Stdlib Require Import ZArith Lia String.
From mathcomp Require Import boot ssralg poly ssrnum rat.
From S2P Require Import TsTypes TsParticipants Polynomials Interpolation.
From S2P Require Import Dkg DkgProofs DkgHonest DkgTheorems.
Set Implicit Arguments.
Unset Strict Implicit.
Unset Printing Implicit Defensive.
Import GRing.Theory.
Local Open Scope ring_scope.
Local Open Scope ts_scope.

Class CkdSuite (F : fieldType) (G2 : lmodType F) (C : Ciphersuite G2) (G1 : lmodType F) := {
  ck_generator1 : G1;
  (** [to_compressed] of a point of [G2] *)
  ck_to_compressed : G2 -> bytes;
  (** [G1Projective::hash_to_curve(bytes, domain, &[])] *)
  ck_hash_to_curve : bytes -> bytes -> G1;
  (** [is_on_curve] and [is_torsion_free] *)
  ck_g1_valid : G1 -> bool;
  ck_g2_valid : G2 -> bool;
  ck_GT : eqType;
  ck_pairing : G1 -> G2 -> ck_GT;
}.

(** Elements of the groups are valid, and the pairing is bilinear. *)
Class CkdSuiteLaws (F : fieldType) (G2 : lmodType F) (C : Ciphersuite G2) (G1 : lmodType F)
    (K : CkdSuite C G1) : Prop := {
  ck_g1_validP : forall P, ck_g1_valid P;
  ck_g2_validP : forall Q, ck_g2_valid Q;
  ck_pairingZ : forall (a : F) P Q, ck_pairing (a *: P) Q = ck_pairing P (a *: Q);
}.

Section Ckd.
Context {F : fieldType} {G2 : lmodType F} {C : Ciphersuite G2} {G1 : lmodType F}.
Context {K : CkdSuite C G1}.
Implicit Types (participants : ParticipantList) (me : Participant).

Definition NEAR_CKD_DOMAIN : bytes := byte_string "NEAR BLS12381G1_XMD:SHA-256_SSWU_RO_"%string.

Definition hash_to_curve (data : bytes) : G1 := ck_hash_to_curve data NEAR_CKD_DOMAIN.

Definition hash_app_id_with_pk (pk : G2) (app_id : bytes) : G1 :=
  hash_to_curve (ck_to_compressed pk ++ app_id).

Record CKDOutput := mkCKDOutput { ckd_big_y : G1; ckd_big_c : G1 }.

Definition CKDOutput_unmask (out : CKDOutput) (secret_scalar : F) : G1 :=
  ckd_big_c out - secret_scalar *: ckd_big_y out.

(** The errors of [frost_core] that [verify_signature] returns. *)
Inductive FrostError := InvalidSignature | MalformedVerifyingKey.

Definition verify_signature (verifying_key : G2) (msg : bytes) (signature : G1) :
    result FrostError unit :=
  if ~~ ck_g1_valid signature || (signature == 0) then Err InvalidSignature
  else if ~~ ck_g2_valid verifying_key || (verifying_key == 0) then Err MalformedVerifyingKey
  else if ck_pairing (hash_app_id_with_pk verifying_key msg) verifying_key ==
          ck_pairing signature cs_generator then Ok tt
  else Err InvalidSignature.

Definition compute_signature_share participants me (key_pair : @KeygenOutput F G2)
    (app_id : bytes) (app_pk : G1) (rng : cs_rng) : result ProtocolError (G1 * G1) :=
  let: (y, rng) := cs_random rng in
  let big_y := y *: ck_generator1 in
  let hash_point := hash_app_id_with_pk (ko_public_key key_pair) app_id in
  let big_s := ko_private_share key_pair *: hash_point in
  let big_c := big_s + y *: app_pk in
  let* lambda_i := ParticipantList_lagrange participants me in
  Ok (lambda_i *: big_y, lambda_i *: big_c).

(** What another participant sends to the coordinator. *)
Definition do_ckd_participant participants me (key_pair : @KeygenOutput F G2)
    (app_id : bytes) (app_pk : G1) (rng : cs_rng) : result ProtocolError (G1 * G1) :=
  compute_signature_share participants me key_pair app_id app_pk rng.

Definition do_ckd_coordinator participants me (key_pair : @KeygenOutput F G2)
    (app_id : bytes) (app_pk : G1) (rng : cs_rng) (queue : seq (Participant * CKDOutput)) :
    run CKDOutput :=
  run_bind (Some (compute_signature_share participants me key_pair app_id app_pk rng))
    (fun '(norm_big_y, norm_big_c) =>
  run_bind (recv_await participants me queue) (fun messages =>
  let: (norm_big_y, norm_big_c) :=
    foldl (fun acc m => (acc.1 + ckd_big_y m.2, acc.2 + ckd_big_c m.2))
      (norm_big_y, norm_big_c) messages in
  Some (Ok (mkCKDOutput norm_big_y norm_big_c)))).

(** [run_ckd_protocol]: the coordinator returns an output, the others [None]
    after sending their share. *)
Inductive CkdOutcome :=
  | CkdCoordinator (r : run CKDOutput)
  | CkdParticipant (r : result ProtocolError (G1 * G1)).

Definition run_ckd_protocol (coordinator : Participant) me participants
    (key_pair : @KeygenOutput F G2) (app_id : bytes) (app_pk : G1) (rng : cs_rng)
    (queue : seq (Participant * CKDOutput)) : CkdOutcome :=
  if me == coordinator then
    CkdCoordinator (do_ckd_coordinator participants me key_pair app_id app_pk rng queue)
  else CkdParticipant (do_ckd_participant participants me key_pair app_id app_pk rng).

Definition ckd (participants : seq Participant) (coordinator : Participant) me
    (key_pair : @KeygenOutput F G2) (app_id : bytes) (app_pk : G1) (rng : cs_rng)
    (queue : seq (Participant * CKDOutput)) : result InitializationError CkdOutcome :=
  if (size participants < 2)%N then Err (NotEnoughParticipants (Z.of_nat (size participants)))
  else
    let* participants := ok_or (ParticipantList_new participants) DuplicateParticipants in
    if ~~ ParticipantList_contains participants me then Err (MissingParticipant "self"%string me)
    else if ~~ ParticipantList_contains participants coordinator then
      Err (MissingParticipant "coordinator"%string coordinator)
    else Ok (run_ckd_protocol coordinator me participants key_pair app_id app_pk rng queue).
End Ckd.

(** ** Correctness *)

Section Theorems.
Context {F : fieldType} {G2 : lmodType F} {C : Ciphersuite G2} {G1 : lmodType F}.
Context {K : CkdSuite C G1} {L : CiphersuiteLaws C} {KL : CkdSuiteLaws K}.
Abbreviation xof p := (Z_to_F (p + 1) : F).

(** The message of a participant that follows the protocol. *)
Definition honest_ckd_share (l : ParticipantList) (key : Participant -> @KeygenOutput F G2)
    (app_id : bytes) (app_pk : G1) (rng : Participant -> cs_rng) (q : Participant) : @CKDOutput F G1 :=
  if do_ckd_participant l q (key q) app_id app_pk (rng q) is Ok (y, c) then mkCKDOutput y c
  else mkCKDOutput 0 0.

Section Run.
Context (l : ParticipantList) (f : {poly F}) (key : Participant -> @KeygenOutput F G2).
Context (app_id : bytes) (app_pk : G1) (rng : Participant -> cs_rng) (pk : G2).
Hypothesis l_ok : ParticipantList_ok l.
Hypothesis l_range : all is_participant (pl_participants l).
Hypothesis l_size : (1 < size (pl_participants l))%N.
Hypothesis f_size : (size f <= size (pl_participants l))%N.
Hypothesis keys : {in pl_participants l, forall p, key p = mkKeygenOutput f.[xof p] pk}.
Abbreviation ids := (identifiers (pl_participants l) : seq F).
Abbreviation lam p := (lagrange_basis ids (xof p) 0).
Abbreviation yof p := ((cs_random (rng p)).1).

Lemma ckd_shareE p : p \in pl_participants l ->
  compute_signature_share l p (key p) app_id app_pk (rng p) =
  Ok (lam p *: (yof p *: ck_generator1),
      lam p *: (f.[xof p] *: hash_app_id_with_pk pk app_id + yof p *: app_pk)).
Proof.
move=> p_in; rewrite /compute_signature_share keys //; case: (cs_random (rng p)) => y rng' /=.
rewrite (@ParticipantList_lagrangeE _ _ _ L) ?(allP l_range) //.
exact: (map_f (fun p => xof p) p_in).
Qed.

Lemma ckd_sum (acc : G1 * G1) qs : {subset qs <= pl_participants l} ->
  foldl (fun acc m => (acc.1 + ckd_big_y m.2, acc.2 + ckd_big_c m.2)) acc
    [seq (q, honest_ckd_share l key app_id app_pk rng q) | q <- qs] =
  (acc.1 + \sum_(q <- qs) lam q *: (yof q *: ck_generator1),
   acc.2 + \sum_(q <- qs)
     lam q *: (f.[xof q] *: hash_app_id_with_pk pk app_id + yof q *: app_pk)).
Proof.
elim: qs acc => [|q qs IH] acc sub; first by rewrite !big_nil !addr0; case: acc.
have q_in : q \in pl_participants l by apply: sub; rewrite mem_head.
rewrite /= IH; first by move=> r r_in; apply: sub; rewrite in_cons r_in orbT.
by rewrite /honest_ckd_share /do_ckd_participant ckd_shareE //= !big_cons !addrA.
Qed.

Lemma sum_others (V : nmodType) (h : Participant -> V) c : c \in pl_participants l ->
  h c + \sum_(q <- ParticipantList_others l c) h q = \sum_(q <- pl_participants l) h q.
Proof. by move=> c_in; rewrite (perm_big _ (perm_others l_ok c_in)) big_cons. Qed.

Lemma do_ckd_honest coordinator app_sk : coordinator \in pl_participants l ->
  app_pk = app_sk *: ck_generator1 ->
  exists2 out, do_ckd_coordinator l coordinator (key coordinator) app_id app_pk (rng coordinator)
      [seq (q, honest_ckd_share l key app_id app_pk rng q) | q <- ParticipantList_others l coordinator] =
      Some (Ok out) &
    CKDOutput_unmask out app_sk = f.[0] *: hash_app_id_with_pk pk app_id.
Proof.
move=> c_in pkE; rewrite /do_ckd_coordinator ckd_shareE //= /recv_await recv_from_others_all //=.
rewrite ckd_sum /=; first by move=> q; rewrite othersE => /andP [].
eexists; first by []; rewrite /CKDOutput_unmask /=.
rewrite (sum_others (fun q => lam q *: (yof q *: ck_generator1))) //.
rewrite (sum_others (fun q => lam q *: (f.[xof q] *: hash_app_id_with_pk pk app_id + yof q *: app_pk))) //.
rewrite scaler_sumr -sumrB.
rewrite (lagrange_interpolation_at 0 (xs := ids)) ?size_map //.
  exact: identifiers_uniq l_range (ParticipantList_ok_NoDup _ l_ok).
rewrite big_map scaler_suml; apply: eq_bigr => q _.
by rewrite pkE scalerDr !scalerA -[app_sk * _ * _]mulrA [app_sk * _]mulrC addrK.
Qed.
End Run.

(** C29: the derived key is right.  When the participants hold shares of a key and
    follow the protocol, the coordinator's output, unmasked with the secret of the
    application, is the key times the hash of the application id, whatever random
    numbers are drawn; and it passes [verify_signature] under the public key when
    the unmasked output is not the identity. *)
Theorem ckd_derives_key (l : ParticipantList) (f : {poly F}) (key : Participant -> @KeygenOutput F G2)
    (app_id : bytes) (app_sk : F) (rng : Participant -> cs_rng) (coordinator : Participant) :
  ParticipantList_ok l -> all is_participant (pl_participants l) ->
  (1 < size (pl_participants l))%N -> (size f <= size (pl_participants l))%N ->
  let pk := f.[0] *: (cs_generator : G2) in
  let app_pk := app_sk *: (ck_generator1 : G1) in
  {in pl_participants l, forall p, key p = mkKeygenOutput f.[Z_to_F (p + 1)] pk} ->
  coordinator \in pl_participants l ->
  exists out,
  [/\ do_ckd_coordinator l coordinator (key coordinator) app_id app_pk (rng coordinator)
        [seq (q, honest_ckd_share l key app_id app_pk rng q)
           | q <- ParticipantList_others l coordinator] = Some (Ok out),
      CKDOutput_unmask out app_sk = f.[0] *: hash_app_id_with_pk pk app_id &
      CKDOutput_unmask out app_sk != 0 ->
      verify_signature pk app_id (CKDOutput_unmask out app_sk) = Ok tt].
Proof.
move=> l_ok l_range l_size f_size pk app_pk keys c_in.
have pkE : app_pk = app_sk *: ck_generator1 by [].
have [out runE outE] := do_ckd_honest app_id rng l_ok l_range l_size f_size keys c_in pkE.
exists out; split=> // outN0; rewrite /verify_signature (@ck_g1_validP _ _ _ _ _ KL) (negPf outN0) /=.
have pkN0 : pk != 0.
  rewrite scaler_eq0 negb_or (@cs_generator_neq0 _ _ _ L) andbT.
  by apply: contraNneq outN0; rewrite outE => ->; rewrite scale0r.
rewrite (@ck_g2_validP _ _ _ _ _ KL) (negPf pkN0) /= outE.
by rewrite (@ck_pairingZ _ _ _ _ _ KL) eqxx.
Qed.
End Theorems.

(** ** An example *)

#[export] Instance sample_ckd : CkdSuite sample_suite (rat^o : lmodType rat) := {|
  ck_generator1 := (2%:R : rat^o);
  ck_to_compressed _ := [:: 3%Z];
  ck_hash_to_curve data domain := ((size data)%:R : rat^o);
  ck_g1_valid _ := true;
  ck_g2_valid _ := true;
  ck_GT := rat;
  ck_pairing P Q := (P : rat) * (Q : rat);
|}.

#[export] Instance sample_ckd_laws : CkdSuiteLaws sample_ckd.
Proof. by split=> // a P Q; rewrite /= /GRing.scale /= -mulrA [RHS]mulrCA. Qed.

Lemma ckd_derives_key_witness :
  exists out, CKDOutput_unmask out 5%:R =
    ex_old_poly.[0] *: hash_app_id_with_pk (G1 := rat^o) (ex_old_poly.[0] *: (1 : rat^o)) [:: 1; 2]%Z.
Proof.
have range : all is_participant (pl_participants ex_list) by rewrite ex_participants.
have l_size : (1 < size (pl_participants ex_list))%N by rewrite ex_participants.
have f_size : (size ex_old_poly <= size (pl_participants ex_list))%N by rewrite ex_participants.
have c_in : 5%Z \in pl_participants ex_list by rewrite ex_participants.
pose key p := mkKeygenOutput ex_old_poly.[Z_to_F (p + 1)] (ex_old_poly.[0] *: (1 : rat^o)).
have keys : {in pl_participants ex_list, forall p, key p = key p} by [].
have [out [_ outE _]] := ckd_derives_key (G1 := rat^o) [:: 1; 2]%Z 5%:R ex_rng ex_list_ok range
  l_size f_size keys c_in.
by exists out.
Defined.
