(* ===== verification/OtEcdsa.v ===== *)
(** * Threshold signatures: ECDSA from Beaver triples

    [src/crates/threshold-signatures/src/ecdsa/ot_based_ecdsa/] ([mod.rs],
    [presign.rs], [sign.rs] and the types of [triples/mod.rs]): presigning with
    two shared triples, rerandomization and signing.  A triple is an argument here; the
    generation of triples is in [TripleGeneration].  The second half shows that
    signatures verify. *)

From Stdlib Require Import ZArith Lia String.
From mathcomp Require Import boot ssralg poly ssrnum rat.
From S2P Require Import TsTypes TsParticipants Polynomials Interpolation Dkg DkgProofs.
From S2P Require Import DkgHonest DkgTheorems RobustEcdsa RobustEcdsaProofs RobustEcdsaTheorems.
Set Implicit Arguments.
Unset Strict Implicit.
Unset Printing Implicit Defensive.
Import GRing.Theory.
Local Open Scope ring_scope.
Local Open Scope ts_scope.

Section OtEcdsa.
Context {F : fieldType} {G : lmodType F} {C : Ciphersuite G} {EC : EcdsaSuite C}.
Implicit Types (participants : ParticipantList) (me : Participant).

Record TriplePub := mkTriplePub {
  tp_big_a : G; tp_big_b : G; tp_big_c : G;
  tp_participants : seq Participant;
  tp_threshold : ReconstructionLowerBound;
}.

Record TripleShare := mkTripleShare { ts_a : F; ts_b : F; ts_c : F }.

(** ** Presigning *)

Record PresignArguments := mkPresignArguments {
  pa_triple0 : TripleShare * TriplePub;
  pa_triple1 : TripleShare * TriplePub;
  pa_keygen_out : @KeygenOutput F G;
  pa_threshold : ReconstructionLowerBound;
}.

Record PresignOutput := mkPresignOutput { po_big_r : G; po_k : F; po_sigma : F }.

(** The sum of the received shares of [e], which must not be zero. *)
Fixpoint presign_sum_e (e : F) (messages : seq (Participant * F)) : result ProtocolError F :=
  if messages is (_, e_j) :: messages then
    if e_j == 0 then
      Err (AssertionFailed "Received zero share of kd, indicating a triple wasn't available."%string)
    else presign_sum_e (e + e_j) messages
  else Ok e.

(** What a party sends: its share of [e], and of alpha and beta. *)
Definition presign_e_me participants me (args : PresignArguments) : result ProtocolError F :=
  let* lambda_me := ParticipantList_lagrange participants me in
  Ok (lambda_me * ts_c (pa_triple0 args).1).

Definition presign_alpha_beta_me participants me (args : PresignArguments) :
    result ProtocolError (F * F) :=
  let* lambda_me := ParticipantList_lagrange participants me in
  let k_prime_i := lambda_me * ts_a (pa_triple0 args).1 in
  let a_prime_i := lambda_me * ts_a (pa_triple1 args).1 in
  let b_prime_i := lambda_me * ts_b (pa_triple1 args).1 in
  let x_prime_i := lambda_me * ko_private_share (pa_keygen_out args) in
  Ok (k_prime_i + a_prime_i, x_prime_i + b_prime_i).

(** Spec 2.5 to 2.7. *)
Definition presign_finish (args : PresignArguments) (e alpha beta : F) :
    result ProtocolError PresignOutput :=
  let big_k := tp_big_a (pa_triple0 args).2 in
  let big_a := tp_big_a (pa_triple1 args).2 in
  let big_b := tp_big_b (pa_triple1 args).2 in
  let big_x := ko_public_key (pa_keygen_out args) in
  if (alpha *: cs_generator != big_k + big_a) || (beta *: cs_generator != big_x + big_b) then
    Err (AssertionFailed "received incorrect shares of additive triple phase."%string)
  else
    let* e_inv := ok_or (cs_invert e) (AssertionFailed "failed to invert kd"%string) in
    let big_r := e_inv *: tp_big_b (pa_triple0 args).2 in
    let sigma_i := alpha * ko_private_share (pa_keygen_out args) -
      (beta * ts_a (pa_triple1 args).1 - ts_c (pa_triple1 args).1) in
    Ok (mkPresignOutput big_r (ts_a (pa_triple0 args).1) sigma_i).

Definition do_presign participants me (args : PresignArguments)
    (e_queue : seq (Participant * F)) (alpha_beta_queue : seq (Participant * (F * F))) :
    run PresignOutput :=
  run_bind (Some (presign_e_me participants me args)) (fun e_i =>
  run_bind (recv_await participants me e_queue) (fun e_messages =>
  run_bind (Some (presign_sum_e e_i e_messages)) (fun e =>
  if tp_big_c (pa_triple0 args).2 != e *: cs_generator then
    Some (Err (AssertionFailed "received incorrect shares of kd"%string))
  else
    run_bind (Some (presign_alpha_beta_me participants me args)) (fun '(alpha_i, beta_i) =>
    run_bind (recv_await participants me alpha_beta_queue) (fun messages =>
    let: (alpha, beta) :=
      foldl (fun acc m => (acc.1 + m.2.1, acc.2 + m.2.2)) (alpha_i, beta_i) messages in
    Some (presign_finish args e alpha beta)))))).

Definition presign (participants : seq Participant) me (args : PresignArguments)
    (e_queue : seq (Participant * F)) (alpha_beta_queue : seq (Participant * (F * F))) :
    result InitializationError (run PresignOutput) :=
  let len := Z.of_nat (size participants) in
  if (size participants < 2)%N then Err (NotEnoughParticipants len)
  else if Z.ltb len (pa_threshold args) then Err (ThresholdTooLarge (pa_threshold args) len)
  else if (pa_threshold args != tp_threshold (pa_triple0 args).2) ||
          (pa_threshold args != tp_threshold (pa_triple1 args).2) then
    Err (BadParameters "New threshold must match the threshold of both triples"%string)
  else
    let* participants := ok_or (ParticipantList_new participants) DuplicateParticipants in
    if ~~ ParticipantList_contains participants me then Err (MissingParticipant "self"%string me)
    else Ok (do_presign participants me args e_queue alpha_beta_queue).

(** ** Signing *)

Record RerandomizedPresignOutput := mkRerandomizedPresignOutput {
  rp_big_r : G; rp_k : F; rp_sigma : F;
}.

Definition rerandomize_presign (presignature : PresignOutput)
    (args : @RerandomizationArguments F G) : result ProtocolError RerandomizedPresignOutput :=
  if po_big_r presignature != ra_big_r args then Err IncompatibleRerandomizationInputs
  else
    let* delta := derive_randomness args in
    if delta == 0 then Err ZeroScalar
    else if cs_invert delta is Some inv_delta then
      Ok (mkRerandomizedPresignOutput (delta *: po_big_r presignature)
            (po_k presignature * inv_delta)
            ((po_sigma presignature + ra_tweak args * po_k presignature) * inv_delta))
    else Panic "called `CtOption::unwrap()` on a `None` value"%string.

Definition compute_signature_share participants me (presignature : RerandomizedPresignOutput)
    (msg_hash : F) : result ProtocolError F :=
  let* lambda := ParticipantList_lagrange participants me in
  let k_i := lambda * rp_k presignature in
  let sigma_i := lambda * rp_sigma presignature in
  let r := x_coordinate (rp_big_r presignature) in
  Ok (msg_hash * k_i + r * sigma_i).

(** What another participant sends to the coordinator. *)
Definition do_sign_participant participants me (presignature : RerandomizedPresignOutput)
    (msg_hash : F) : result ProtocolError F :=
  compute_signature_share participants me presignature msg_hash.

Definition do_sign_coordinator participants me (public_key : G)
    (presignature : RerandomizedPresignOutput) (msg_hash : F) (queue : seq (Participant * F)) :
    run (@EcdsaSignature F G) :=
  run_bind (Some (compute_signature_share participants me presignature msg_hash)) (fun s_i =>
  run_bind (recv_await participants me queue) (fun messages =>
  let s := foldl (fun s m => s + m.2) s_i messages in
  let s := if ec_is_high s then - s else s in
  let sig := mkEcdsaSignature (rp_big_r presignature) s in
  run_bind (Some (Signature_verify sig public_key msg_hash)) (fun valid =>
  if ~~ valid then Some (Err (AssertionFailed "signature failed to verify"%string))
  else Some (Ok sig)))).

Definition fut_wrapper participants (coordinator me : Participant) (public_key : G)
    (presignature : RerandomizedPresignOutput) (msg_hash : F) (queue : seq (Participant * F)) :
    @SignOutcome F G :=
  if me == coordinator then
    SignCoordinator (do_sign_coordinator participants me public_key presignature msg_hash queue)
  else SignParticipant (do_sign_participant participants me presignature msg_hash).

Definition sign (participants : seq Participant) (coordinator : Participant)
    (threshold : ReconstructionLowerBound) me (public_key : G)
    (presignature : RerandomizedPresignOutput) (msg_hash : F) (queue : seq (Participant * F)) :
    result InitializationError (@SignOutcome F G) :=
  if (size participants < 2)%N then Err (NotEnoughParticipants (Z.of_nat (size participants)))
  else
    let* participants := ok_or (ParticipantList_new participants) DuplicateParticipants in
    let len := Z.of_nat (ParticipantList_len participants) in
    if ~~ ParticipantList_contains participants me then Err (MissingParticipant "self"%string me)
    else if ~~ ParticipantList_contains participants coordinator then
      Err (MissingParticipant "coordinator"%string coordinator)
    else if Z.ltb len threshold then Err (NotEnoughParticipantsForThreshold len threshold)
    else Ok (fut_wrapper participants coordinator me public_key presignature msg_hash queue).
End OtEcdsa.

(** ** Threshold signatures: correctness of ECDSA from Beaver triples

    With two correctly shared triples and a shared key, presigning ends and the
    signing coordinator obtains a signature that verifies under the derived key. *)

Section Theorems.
Context {F : fieldType} {G : lmodType F} {C : Ciphersuite G} {EC : EcdsaSuite C}.
Context {L : CiphersuiteLaws C} {EL : EcdsaSuiteLaws EC}.
Abbreviation g := (@cs_generator F G C).
Abbreviation xof p := (Z_to_F (p + 1) : F).

(** A triple shared among the participants: values of three polynomials that
    they determine, with commitments, and the product at zero. *)
Record triple_shared (l : ParticipantList) (fa fb fc : {poly F})
    (share : Participant -> @TripleShare F) (pub : @TriplePub F G) : Prop := {
  tr_sizes : (size fa <= size (pl_participants l))%N /\ (size fb <= size (pl_participants l))%N /\
             (size fc <= size (pl_participants l))%N;
  tr_shares : {in pl_participants l, forall p,
    share p = mkTripleShare fa.[xof p] fb.[xof p] fc.[xof p]};
  tr_big_a : tp_big_a pub = fa.[0] *: g;
  tr_big_b : tp_big_b pub = fb.[0] *: g;
  tr_big_c : tp_big_c pub = fc.[0] *: g;
  tr_product : fc.[0] = fa.[0] * fb.[0];
}.

Section Run.
Context (l : ParticipantList) (fk fd fe fa fb fc fx : {poly F}).
Context (share0 share1 : Participant -> @TripleShare F) (pub0 pub1 : @TriplePub F G).
Context (threshold : Z).
Hypothesis l_ok : ParticipantList_ok l.
Hypothesis l_range : all is_participant (pl_participants l).
Hypothesis l_size : (1 < size (pl_participants l))%N.
Hypothesis triple0 : triple_shared l fk fd fe share0 pub0.
Hypothesis triple1 : triple_shared l fa fb fc share1 pub1.
Hypothesis fx_size : (size fx <= size (pl_participants l))%N.
Abbreviation ids := (identifiers (pl_participants l) : seq F).
Abbreviation lam p := (lagrange_basis ids (xof p) 0).

Definition ot_args (p : Participant) : @PresignArguments F G :=
  mkPresignArguments (share0 p, pub0) (share1 p, pub1)
    (mkKeygenOutput fx.[xof p] (fx.[0] *: g)) threshold.

(** What a party sends in the two rounds. *)
Definition honest_e (p : Participant) : F :=
  if presign_e_me l p (ot_args p) is Ok e then e else 0.

Definition honest_alpha_beta (p : Participant) : F * F :=
  if presign_alpha_beta_me l p (ot_args p) is Ok ab then ab else (0, 0).

Definition ot_presign_run (p : Participant) : run (@PresignOutput F G) :=
  do_presign l p (ot_args p)
    [seq (q, honest_e q) | q <- ParticipantList_others l p]
    [seq (q, honest_alpha_beta q) | q <- ParticipantList_others l p].

Lemma lagrangeE p : p \in pl_participants l -> ParticipantList_lagrange l p = Ok (lam p).
Proof.
move=> p_in; rewrite (@ParticipantList_lagrangeE _ _ _ L) ?(allP l_range) //.
exact: (map_f (fun p => xof p) p_in).
Qed.

(** Weighted shares sum up to the value at zero. *)
Lemma weighted_sum (f : {poly F}) p :
  p \in pl_participants l -> (size f <= size (pl_participants l))%N ->
  lam p * f.[xof p] + \sum_(q <- ParticipantList_others l p) lam q * f.[xof q] = f.[0].
Proof.
move=> p_in f_size; rewrite (lagrange_interpolation_at 0 (xs := ids)) ?size_map //.
  exact: identifiers_uniq l_range (ParticipantList_ok_NoDup _ l_ok).
by rewrite big_map (perm_big _ (perm_others l_ok p_in)) big_cons.
Qed.

Lemma honest_eE p : p \in pl_participants l ->
  presign_e_me l p (ot_args p) = Ok (honest_e p) /\ honest_e p = lam p * fe.[xof p].
Proof.
by move=> p_in; rewrite /honest_e /presign_e_me lagrangeE //= (tr_shares triple0 p_in).
Qed.

Lemma honest_alpha_betaE p : p \in pl_participants l ->
  presign_alpha_beta_me l p (ot_args p) = Ok (honest_alpha_beta p) /\
  honest_alpha_beta p = (lam p * (fk + fa).[xof p], lam p * (fx + fb).[xof p]).
Proof.
move=> p_in; rewrite /honest_alpha_beta /presign_alpha_beta_me lagrangeE //=.
by rewrite (tr_shares triple0 p_in) (tr_shares triple1 p_in) !hornerD !mulrDr.
Qed.

Lemma presign_sum_eE (h : Participant -> F) e qs :
  {in qs, forall q, h q != 0} ->
  presign_sum_e e [seq (q, h q) | q <- qs] = Ok (e + \sum_(q <- qs) h q).
Proof.
elim: qs e => [|q qs IH] e hN0 /=; first by rewrite big_nil addr0.
rewrite (negPf (hN0 q (mem_head _ _))) IH ?big_cons ?addrA // => r r_in.
by apply: hN0; rewrite in_cons r_in orbT.
Qed.

Lemma alpha_beta_sum (h : Participant -> F * F) (acc : F * F) qs :
  foldl (fun acc m => (acc.1 + m.2.1, acc.2 + m.2.2)) acc [seq (q, h q) | q <- qs] =
  (acc.1 + \sum_(q <- qs) (h q).1, acc.2 + \sum_(q <- qs) (h q).2).
Proof.
elim: qs acc => [|q qs IH] acc /=; first by rewrite !big_nil !addr0; case: acc.
by rewrite IH !big_cons !addrA.
Qed.

(** The presignature of [p]. *)
Definition ot_presignature (p : Participant) : @PresignOutput F G :=
  mkPresignOutput (fk.[0]^-1 *: g) fk.[xof p]
    ((fk + fa).[0] * fx.[xof p] - ((fx + fb).[0] * fa.[xof p] - fc.[xof p])).

Lemma ot_presign_finishE p : p \in pl_participants l -> fk.[0] != 0 -> fd.[0] != 0 ->
  presign_finish (ot_args p) fe.[0] (fk + fa).[0] (fx + fb).[0] = Ok (ot_presignature p).
Proof.
move=> p_in kN0 dN0; rewrite /presign_finish /= (tr_big_a triple0) (tr_big_a triple1).
rewrite (tr_big_b triple1) (tr_big_b triple0) !hornerD !scalerDl !eqxx /=.
rewrite cs_invertE (tr_product triple0) mulf_eq0 (negPf kN0) (negPf dN0) /=.
rewrite (tr_shares triple0 p_in) (tr_shares triple1 p_in) /= /ot_presignature !hornerD.
by rewrite scalerA invfM -mulrA mulVf // mulr1.
Qed.

Lemma others_sum p (h h' : Participant -> F) :
  {in pl_participants l, h =1 h'} ->
  \sum_(q <- ParticipantList_others l p) h q = \sum_(q <- ParticipantList_others l p) h' q.
Proof. by move=> hE; apply: eq_big_seq => q; rewrite othersE => /andP [/hE]. Qed.

Lemma ot_presign_runE p :
  p \in pl_participants l -> fk.[0] != 0 -> fd.[0] != 0 ->
  {in pl_participants l, forall q, honest_e q != 0} ->
  ot_presign_run p = Some (Ok (ot_presignature p)).
Proof.
move=> p_in kN0 dN0 eN0; rewrite /ot_presign_run /do_presign.
have [-> eE] := honest_eE p_in; rewrite /= /recv_await recv_from_others_all //=.
rewrite presign_sum_eE; first by move=> q; rewrite othersE => /andP [/eN0].
rewrite (@others_sum p _ (fun q => lam q * fe.[xof q])) => [q /honest_eE [] //|].
have [sk [sd se]] := tr_sizes triple0; have [sa [sb _]] := tr_sizes triple1.
rewrite eE weighted_sum //= (tr_big_c triple0) eqxx /=.
have [-> ->] := honest_alpha_betaE p_in; rewrite /= recv_from_others_all //= alpha_beta_sum /=.
rewrite (@others_sum p _ (fun q => lam q * (fk + fa).[xof q])) => [q /honest_alpha_betaE [_ ->] //|].
rewrite (@others_sum p (fun q => (honest_alpha_beta q).2) (fun q => lam q * (fx + fb).[xof q])) =>
  [q /honest_alpha_betaE [_ ->] //|].
rewrite !weighted_sum ?(leq_trans (size_polyD _ _)) ?geq_max ?sk ?sa ?fx_size ?sb //.
congr Some; exact: ot_presign_finishE.
Qed.

(** ** Signing with the presignatures *)

Context (args : @RerandomizationArguments F G) (msg_hash : F).
Context (pre : Participant -> @RerandomizedPresignOutput F G).

(** What a participant sends to the coordinator. *)
Definition ot_sign_share (p : Participant) : F :=
  if do_sign_participant l p (pre p) msg_hash is Ok s then s else 0.

Definition ot_sign_run (coordinator : Participant) : run (@EcdsaSignature F G) :=
  do_sign_coordinator l coordinator (Tweak_derive_verifying_key (ra_tweak args) (fx.[0] *: g))
    (pre coordinator) msg_hash
    [seq (q, ot_sign_share q) | q <- ParticipantList_others l coordinator].

(** The polynomial whose values the signature shares are. *)
Definition ot_sign_poly (delta r : F) : {poly F} :=
  (msg_hash / delta) *: fk +
  (r / delta) *: ((fk + fa).[0] *: fx - ((fx + fb).[0] *: fa - fc) + ra_tweak args *: fk).

Lemma size_ot_sign_poly delta r : (size (ot_sign_poly delta r) <= size (pl_participants l))%N.
Proof.
have [sk _] := tr_sizes triple0; have [sa [_ sc]] := tr_sizes triple1.
have scale c (f : {poly F}) : (size f <= size (pl_participants l))%N ->
    (size (c *: f) <= size (pl_participants l))%N by apply: leq_trans (size_scale_leq _ _).
have add (f h : {poly F}) : (size f <= size (pl_participants l))%N ->
    (size h <= size (pl_participants l))%N -> (size (f + h)%R <= size (pl_participants l))%N.
  by move=> sf sh; rewrite (leq_trans (size_polyD _ _)) // geq_max sf.
by do !(apply: (add) || apply: (scale) || rewrite size_polyN || done).
Qed.

Lemma ot_sign_poly0 delta r : delta != 0 -> fk.[0] != 0 ->
  (ot_sign_poly delta r).[0] = (msg_hash + r * (fx.[0] + ra_tweak args)) / (delta / fk.[0]).
Proof.
move=> dN0 kN0; rewrite /ot_sign_poly !(hornerE, hornerD, hornerN, hornerZ) (tr_product triple1).
have -> : (fk.[0] + fa.[0]) * fx.[0] - ((fx.[0] + fb.[0]) * fa.[0] - fa.[0] * fb.[0]) =
    fk.[0] * fx.[0].
  by rewrite !mulrDl (mulrC fb.[0]) addrK (mulrC fx.[0]) addrK.
rewrite invf_div mulrDl -!mulrA [_^-1 * fk.[0]]mulrC; congr (_ + _ * _).
by rewrite (mulrC fk.[0] fx.[0]) -mulrDl mulrC -mulrA.
Qed.

Lemma rerandomizedE p :
  p \in pl_participants l -> rerandomize_presign (ot_presignature p) args = Ok (pre p) ->
  exists2 delta, delta != 0 /\ derive_randomness args = Ok delta &
    pre p = mkRerandomizedPresignOutput (delta *: po_big_r (ot_presignature p))
      (fk.[xof p] / delta)
      ((po_sigma (ot_presignature p) + ra_tweak args * fk.[xof p]) / delta).
Proof.
move=> p_in; rewrite /rerandomize_presign; case: ifP => // _.
case: (derive_randomness args) => [delta|e|s] //=; case: (eqVneq delta 0) => // dN0.
by rewrite cs_invertE (negPf dN0) => -[<-]; exists delta.
Qed.

Lemma ot_sign_shareE p delta :
  p \in pl_participants l -> rerandomize_presign (ot_presignature p) args = Ok (pre p) ->
  derive_randomness args = Ok delta ->
  let r := x_coordinate ((delta / fk.[0]) *: g) in
  compute_signature_share l p (pre p) msg_hash = Ok (lam p * (ot_sign_poly delta r).[xof p]).
Proof.
move=> p_in /(rerandomizedE p_in) [d [_ ->] preE] [dE] r; rewrite {d}dE in preE.
rewrite /compute_signature_share lagrangeE // preE /= scalerA -/r.
rewrite /ot_sign_poly !(hornerD, hornerN, hornerZ); congr Ok.
by rewrite mulrDr; congr (_ + _); rewrite mulrCA ?(mulrAC _ delta^-1) -!mulrA; do !congr (_ * _);
   rewrite mulrC.
Qed.

Lemma ot_sign_runE coordinator :
  coordinator \in pl_participants l -> fk.[0] != 0 ->
  {in pl_participants l, forall p, rerandomize_presign (ot_presignature p) args = Ok (pre p)} ->
  exists2 delta, delta != 0 &
  let n := delta / fk.[0] in
  let r := x_coordinate (n *: g) in
  let x := fx.[0] + ra_tweak args in
  ot_sign_run coordinator =
    Some (if (msg_hash + r * x == 0) || (r == 0) then
            Err (AssertionFailed "signature failed to verify"%string)
          else Ok (nonce_signature n x msg_hash)).
Proof.
move=> c_in kN0 rerand; have [delta [dN0 deltaE] preE] := rerandomizedE c_in (rerand _ c_in).
exists delta => // n r x; have nN0 : n != 0 by rewrite mulf_neq0 ?invr_eq0.
rewrite /ot_sign_run /do_sign_coordinator (ot_sign_shareE c_in (rerand _ c_in) deltaE) -/n -/r.
rewrite /= /recv_await recv_from_others_all //= (foldl_sum (fun q => q.2)) big_map /=.
rewrite (@others_sum _ _ (fun q => lam q * (ot_sign_poly delta r).[xof q])) => [q q_in|].
  by rewrite /ot_sign_share /do_sign_participant (ot_sign_shareE q_in (rerand _ q_in) deltaE).
rewrite weighted_sum ?size_ot_sign_poly // ot_sign_poly0 // -/n -/x preE /= scalerA -/n.
rewrite -/(nonce_signature n x msg_hash) /Tweak_derive_verifying_key -scalerDl.
by rewrite nonce_signature_verify // -/r -negb_or /= negbK; case: ifP.
Qed.
End Run.

(** C17: signing with Beaver triples is correct.  Let the participants hold shares
    of two triples and of a key, the values of polynomials that they determine,
    let the first two secrets of the first triple be non-zero and no share [e] of a
    participant, as the others receive it, be zero.  Then every presigning
    run ends with a presignature, and when these are rerandomized with the same
    arguments, the coordinator returns a signature that verifies for the message
    under the key derived with the tweak, except in the two cases of negligible
    probability in which the signature scalar or the x coordinate of the nonce
    commitment is zero. *)
Theorem ot_signature_verifies (l : ParticipantList) (fk fd fe fa fb fc fx : {poly F})
    (share0 share1 : Participant -> @TripleShare F) (pub0 pub1 : @TriplePub F G) (t : Z) :
  ParticipantList_ok l -> all is_participant (pl_participants l) ->
  (1 < size (pl_participants l))%N ->
  triple_shared l fk fd fe share0 pub0 -> triple_shared l fa fb fc share1 pub1 ->
  (size fx <= size (pl_participants l))%N ->
  fk.[0] != 0 -> fd.[0] != 0 ->
  {in pl_participants l, forall p, honest_e l fx share0 share1 pub0 pub1 t p != 0} ->
  exists out : Participant -> @PresignOutput F G,
  {in pl_participants l, forall p,
    ot_presign_run l fx share0 share1 pub0 pub1 t p = Some (Ok (out p))} /\
  forall args msg_hash pre coordinator,
  {in pl_participants l, forall p, rerandomize_presign (out p) args = Ok (pre p)} ->
  coordinator \in pl_participants l ->
  exists n : F, n != 0 /\
  let r := x_coordinate (n *: g) in
  let e := msg_hash + r * (fx.[0] + ra_tweak args) in
  exists sig,
  [/\ ot_sign_run l fx args msg_hash pre coordinator =
      Some (if (e == 0) || (r == 0) then
              Err (AssertionFailed "signature failed to verify"%string) else Ok sig),
      es_big_r sig = n *: g &
      e != 0 -> r != 0 ->
      Signature_verify sig (Tweak_derive_verifying_key (ra_tweak args) (fx.[0] *: g)) msg_hash =
        Ok true].
Proof.
move=> l_ok l_range l_size triple0 triple1 fx_size kN0 dN0 eN0.
exists (ot_presignature fk fa fb fc fx); split=> [p p_in|args msg_hash pre coordinator rerand c_in].
  exact: (ot_presign_runE l_ok l_range l_size triple0 triple1 fx_size p_in kN0 dN0 eN0).
have [delta deltaN0 runE] :=
  ot_sign_runE l_ok l_range l_size triple0 triple1 fx_size msg_hash c_in kN0 rerand.
have nN0 : delta / fk.[0] != 0 by rewrite mulf_neq0 ?invr_eq0.
exists (delta / fk.[0]); split=> // r e; eexists; split; [exact: runE | by [] |].
by move=> sN0 rN0; rewrite /Tweak_derive_verifying_key -scalerDl nonce_signature_verify // sN0 rN0.
Qed.
End Theorems.

(** ** An example

    The participants 0, 1 and 2 with the key [3 + X] and two triples whose
    factors are shared by [1 + X] and [1]. *)

#[local] Existing Instance one_suite.
#[local] Existing Instance one_suite_laws.
#[local] Existing Instance sample_ecdsa.
#[local] Existing Instance sample_ecdsa_laws.

Definition ot_ex_poly : {poly rat} := @poly.Polynomial rat [:: 1; 1] isT.
Definition ot_ex_one : {poly rat} := @poly.Polynomial rat [:: 1] isT.

Definition ot_ex_share (p : Participant) : @TripleShare rat :=
  mkTripleShare ot_ex_poly.[Z_to_F (p + 1)] ot_ex_one.[Z_to_F (p + 1)] ot_ex_poly.[Z_to_F (p + 1)].

Definition ot_ex_pub : @TriplePub rat rat^o :=
  mkTriplePub (ot_ex_poly.[0] *: (1 : rat^o)) (ot_ex_one.[0] *: (1 : rat^o))
    (ot_ex_poly.[0] *: (1 : rat^o)) [:: 0; 1; 2]%Z 2.

Definition ot_ex_presign (p : Participant) : run (@PresignOutput rat rat^o) :=
  ot_presign_run three ex_old_poly ot_ex_share ot_ex_share ot_ex_pub ot_ex_pub 2 p.

Definition ot_ex_presignature (p : Participant) : @PresignOutput rat rat^o :=
  if ot_ex_presign p is Some (Ok out) then out else mkPresignOutput 0 0 0.

Definition ot_ex_args : @RerandomizationArguments rat rat^o :=
  mkRerandomizationArguments (3%:R : rat^o) 4%:R [:: 9%Z] (1 : rat^o) three [::].

Definition ot_ex_pre (p : Participant) : @RerandomizedPresignOutput rat rat^o :=
  if rerandomize_presign (ot_ex_presignature p) ot_ex_args is Ok pre then pre
  else mkRerandomizedPresignOutput 0 0 0.

Definition ot_ex_signing : run (@EcdsaSignature rat rat^o) :=
  ot_sign_run three ex_old_poly ot_ex_args 6%:R ot_ex_pre 1.

Lemma ot_ex_triple : triple_shared three ot_ex_poly ot_ex_one ot_ex_poly ot_ex_share ot_ex_pub.
Proof. by split; rewrite ?three_participants //; vm_compute. Qed.

Lemma ot_ex_signing_ok : if ot_ex_signing is Some (Ok _) then true else false.
Proof. by vm_compute. Qed.

Lemma ot_ex_e_nonzero : {in pl_participants three, forall p,
  honest_e three ex_old_poly ot_ex_share ot_ex_share ot_ex_pub ot_ex_pub 2 p != 0}.
Proof. by move=> p; rewrite three_participants !inE => /or3P [] /eqP ->; vm_compute. Qed.

Lemma ot_ex_rerandomized : {in pl_participants three, forall p,
  rerandomize_presign (ot_ex_presignature p) ot_ex_args = Ok (ot_ex_pre p)}.
Proof.
have okP p : (if rerandomize_presign (ot_ex_presignature p) ot_ex_args is Ok _ then true else false) ->
    rerandomize_presign (ot_ex_presignature p) ot_ex_args = Ok (ot_ex_pre p).
  by rewrite /ot_ex_pre; case: (rerandomize_presign _ _).
by move=> p; rewrite three_participants !inE => /or3P [] /eqP ->; apply: okP; vm_compute.
Qed.

Lemma ot_signature_verifies_witness :
  exists sig, ot_ex_signing = Some (Ok sig) /\ Signature_verify sig ex_pk 6%:R = Ok true.
Proof.
have l_size : (1 < size (pl_participants three))%N by rewrite three_participants.
have fx_size : (size ex_old_poly <= size (pl_participants three))%N by rewrite three_participants.
have k0 : ot_ex_poly.[0] != 0 by vm_compute.
have d0 : ot_ex_one.[0] != 0 by vm_compute.
have [out [outE signs]] := ot_signature_verifies three_ok ex_range l_size ot_ex_triple ot_ex_triple
  fx_size k0 d0 ot_ex_e_nonzero.
have c_in : 1%Z \in pl_participants three by rewrite three_participants.
have rerand : {in pl_participants three, forall p, rerandomize_presign (out p) ot_ex_args = Ok (ot_ex_pre p)}.
  by move=> p p_in; rewrite -ot_ex_rerandomized // /ot_ex_presignature /ot_ex_presign outE.
have [n [_ [sig [runE _ verE]]]] := signs ot_ex_args 6%:R ot_ex_pre 1%Z rerand c_in.
exists sig; have {}runE : ot_ex_signing = _ := runE; move: runE verE (ot_ex_signing_ok).
by move=> ->; case: eqP => // _; case: eqP => // _ ver _; split=> //; exact: ver.
Defined.
