(* ===== verification/TripleBits.v ===== *)
(** * Threshold signatures: bit vectors and bit matrices

    [src/crates/threshold-signatures/src/ecdsa/ot_based_ecdsa/triples/bits.rs].  A word is
    a [Z] between 0 and [2^64], a vector a list of two words, a matrix the list of its rows.
    SHAKE256 is an argument.  The file loads the Standard Library only.

    The second half describes vectors by their bits, and the columns of a matrix; [TripleGf] is about
    multiplication. *)

From Stdlib Require Import ZArith Lia Bool List.
Import ListNotations.
Open Scope Z_scope.

(** ** Words *)

Definition SECURITY_PARAMETER : nat := 128.
Definition SEC_PARAM_64 : nat := 2.
Definition SEC_PARAM_8 : nat := 16.

Definition u64_mask : Z := 2 ^ 64 - 1.

(** [u64::from_le_bytes] and [u64::to_le_bytes]. *)
Fixpoint u64_from_le_bytes (bytes : list Z) : Z :=
  match bytes with
  | [] => 0
  | b :: bytes => b + 256 * u64_from_le_bytes bytes
  end.

Fixpoint le_bytes_of (n : nat) (x : Z) : list Z :=
  match n with
  | O => []
  | S n => x mod 256 :: le_bytes_of n (x / 256)
  end.

Definition u64_to_le_bytes : Z -> list Z := le_bytes_of 8.

(** [usize::div_ceil]. *)
Definition div_ceil (n m : nat) : nat := (n + (m - 1)) / m.

(** ** Lists *)

Definition enumerate {A} (l : list A) : list (nat * A) := combine (seq 0 (length l)) l.

Definition map2 {A B C} (f : A -> B -> C) (l : list A) (k : list B) : list C :=
  map (fun '(a, b) => f a b) (combine l k).

Fixpoint update_nth {A} (i : nat) (f : A -> A) (l : list A) : list A :=
  match l, i with
  | [], _ => []
  | x :: l, O => f x :: l
  | x :: l, S i => x :: update_nth i f l
  end.

Definition chunks_exact {A} (n : nat) (l : list A) : list (list A) :=
  map (fun i => firstn n (skipn (n * i) l)) (seq 0 (length l / n)).

(** ** [BitVector] *)

Abbreviation BitVector := (list Z) (only parsing).

Definition BitVector_zero : BitVector := repeat 0 SEC_PARAM_64.

Definition BitVector_bit (v : BitVector) (j : nat) : Z :=
  Z.land (Z.shiftr (nth (j / 64) v 0) (Z.of_nat (j mod 64))) 1.

Definition BitVector_from_bytes (bytes : list Z) : BitVector :=
  map u64_from_le_bytes (chunks_exact 8 bytes).

Definition BitVector_bytes (v : BitVector) : list Z := flat_map u64_to_le_bytes v.

Definition BitVector_bits (v : BitVector) : list bool :=
  flat_map (fun u => map (fun j => Z.land (Z.shiftr u (Z.of_nat j)) 1 =? 1) (seq 0 64)) v.

Definition BitVector_xor (u v : BitVector) : BitVector := map2 Z.lxor u v.

Definition BitVector_not (v : BitVector) : BitVector := map (fun x => Z.lxor x u64_mask) v.

Definition BitVector_and (u v : BitVector) : BitVector := map2 Z.land u v.

Definition BitVector_conditional_select (a b : BitVector) (choice : bool) : BitVector :=
  map2 (fun a_i b_i => if choice then b_i else a_i) a b.

(** Sets the bit [i] of a vector if [b] is 1: [out.0[i / 64] |= b << (i % 64)]. *)
Definition or_bit (out : BitVector) (i : nat) (b : Z) : BitVector :=
  update_nth (i / 64) (fun w => Z.lor w (Z.shiftl b (Z.of_nat (i mod 64)))) out.

(** ** Multiplication *)

Abbreviation DoubleBitVector := (list Z) (only parsing).

Definition DoubleBitVector_zero : DoubleBitVector := repeat 0 (2 * SEC_PARAM_64).

Definition DoubleBitVector_xor (u v : DoubleBitVector) : DoubleBitVector := map2 Z.lxor u v.

Definition DoubleBitVector_conditional_select (a b : DoubleBitVector) (choice : bool) :
    DoubleBitVector :=
  map2 (fun a_i b_i => if choice then b_i else a_i) a b.

(** [ct_eq]. *)
Definition DoubleBitVector_eqb (u v : DoubleBitVector) : bool :=
  forallb (fun '(a, b) => a =? b) (combine u v).

(** [out[j + i] ^= to_add.0[i]] for all [i]. *)
Definition xor_words (out : DoubleBitVector) (j : nat) (to_add : BitVector) : DoubleBitVector :=
  fold_left (fun out '(i, w) => update_nth (j + i) (fun o => Z.lxor o w) out) (enumerate to_add) out.

(** The whole vector shifted by one bit; [prev] is the bit that comes in. *)
Fixpoint shift_words (prev : Z) (out : DoubleBitVector) : DoubleBitVector :=
  match out with
  | [] => []
  | out_i :: out =>
    let next_prev := Z.shiftr out_i 63 in
    Z.lor (Z.land (Z.shiftl out_i 1) u64_mask) prev :: shift_words next_prev out
  end.

(** One round of [gf_mul], for the bit [k] of every word. *)
Definition gf_mul_round (a other : BitVector) (out : DoubleBitVector) (k : nat) : DoubleBitVector :=
  let out :=
    fold_left (fun out j =>
      let to_add := BitVector_conditional_select BitVector_zero other
        (Z.land (Z.shiftr (nth j a 0) (Z.of_nat k)) 1 =? 1) in
      xor_words out j to_add) (seq 0 SEC_PARAM_64) out in
  match k with O => out | S _ => shift_words 0 out end.

Definition BitVector_gf_mul (a other : BitVector) : DoubleBitVector :=
  fold_left (gf_mul_round a other) (rev (seq 0 64)) DoubleBitVector_zero.

(** ** [BitMatrix] *)

Abbreviation BitMatrix := (list (list Z)) (only parsing).

Definition column_of_chunk (chunk : BitMatrix) (j : nat) : BitVector :=
  fold_left (fun out '(i, c_i) => or_bit out i (BitVector_bit c_i j)) (enumerate chunk) BitVector_zero.

Definition BitMatrix_column_chunks (m : BitMatrix) (j : nat) : list BitVector :=
  map (fun chunk => column_of_chunk chunk j) (chunks_exact SECURITY_PARAMETER m).

(** Of matrices of the same height: the code checks the heights before. *)
Definition BitMatrix_xor (m n : BitMatrix) : BitMatrix := map2 BitVector_xor m n.

Definition BitMatrix_and_vec (m : BitMatrix) (v : BitVector) : BitMatrix :=
  map (fun row => BitVector_and row v) m.

(** [SquareBitMatrix::try_from]. *)
Definition SquareBitMatrix_try_from (m : BitMatrix) : option BitMatrix :=
  if Nat.eqb (length m) SECURITY_PARAMETER then Some m else None.

(** The loop of [expand_transpose]; [prefix] is what the hasher has been fed before the row. *)
Definition SquareBitMatrix_expand_transpose (shake256 : list Z -> nat -> list Z) (prefix : list Z)
    (k : BitMatrix) (rows : nat) : BitMatrix :=
  fold_left (fun out '(j, row) =>
    let expanded := shake256 (prefix ++ flat_map u64_to_le_bytes row) (div_ceil rows 8) in
    map (fun '(i, out_i) =>
      or_bit out_i j (Z.land (Z.shiftr (nth (i / 8) expanded 0) (Z.of_nat (i mod 8))) 1))
      (enumerate out))
    (enumerate k) (repeat BitVector_zero rows).

(** ** [ChoiceVector] *)

Abbreviation ChoiceVector := (list (list Z)) (only parsing).

Definition ChoiceVector_bits (b : ChoiceVector) : list bool := flat_map BitVector_bits b.

Definition ChoiceVector_chunks (b : ChoiceVector) : list BitVector := b.

(** ** Threshold signatures: bit vectors and matrices by their bits

    What the operations of [bits.rs] do to the bits, and the columns of a matrix. *)

(** ** Lists *)

Section Lists.
Context {A B C : Type}.

Lemma length_map2 (f : A -> B -> C) l k : length l = length k -> length (map2 f l k) = length l.
Proof. intros E. unfold map2. rewrite length_map, length_combine. lia. Qed.

Lemma nth_map2 (f : A -> B -> C) l k i da db dc :
  length l = length k -> (i < length l)%nat -> nth i (map2 f l k) dc = f (nth i l da) (nth i k db).
Proof.
  intros E Hi. unfold map2. rewrite (nth_indep _ dc (f da db)) by (rewrite length_map, length_combine; lia).
  rewrite (map_nth (fun '(a, b) => f a b) (combine l k) (da, db)). now rewrite combine_nth.
Qed.

Lemma nth_update_nth i j (f : A -> A) l d : (i < length l)%nat ->
  nth j (update_nth i f l) d = if Nat.eqb i j then f (nth i l d) else nth j l d.
Proof.
  revert i j. induction l as [|x l IH]; intros i j Hi; [simpl in Hi; lia|].
  destruct i as [|i], j as [|j]; simpl; try reflexivity. apply IH. simpl in Hi. lia.
Qed.

Lemma length_update_nth i (f : A -> A) l : length (update_nth i f l) = length l.
Proof. revert i. induction l as [|x l IH]; intros [|i]; simpl; auto. Qed.

Lemma Forall_update_nth (P : A -> Prop) i f l :
  Forall P l -> (forall x, P x -> P (f x)) -> Forall P (update_nth i f l).
Proof.
  intros H Hf. revert i. induction H as [|x l Hx H IH]; intros [|i]; simpl; constructor; auto.
Qed.

Lemma Forall_map2 (P : C -> Prop) (Q : A -> Prop) (R : B -> Prop) (f : A -> B -> C) l k :
  Forall Q l -> Forall R k -> (forall a b, Q a -> R b -> P (f a b)) -> Forall P (map2 f l k).
Proof.
  intros Hl Hk Hf. apply Forall_map, Forall_forall. intros [a b] Hin.
  rewrite Forall_forall in Hl, Hk. apply Hf; [eapply Hl, in_combine_l|eapply Hk, in_combine_r]; eassumption.
Qed.

Lemma length_enumerate (l : list A) : length (enumerate l) = length l.
Proof. unfold enumerate. rewrite length_combine, length_seq. lia. Qed.

Lemma nth_map_enumerate (f : nat * A -> B) l i d d' : (i < length l)%nat ->
  nth i (map f (enumerate l)) d' = f (i, nth i l d).
Proof.
  intros Hi. rewrite (nth_indep _ d' (f (O, d))) by (rewrite length_map, length_enumerate; lia).
  rewrite (map_nth f (enumerate l) (O, d)). unfold enumerate.
  rewrite combine_nth by now rewrite length_seq. now rewrite seq_nth.
Qed.

Lemma length_chunks_exact n (l : list A) : length (chunks_exact n l) = (length l / n)%nat.
Proof. unfold chunks_exact. now rewrite length_map, length_seq. Qed.

Lemma nth_chunks_exact n (l : list A) i d : (i < length l / n)%nat ->
  nth i (chunks_exact n l) d = firstn n (skipn (n * i) l).
Proof.
  intros Hi. unfold chunks_exact. rewrite (nth_indep _ d (firstn n (skipn (n * O) l)))
    by (rewrite length_map, length_seq; lia).
  rewrite (map_nth (fun i => firstn n (skipn (n * i) l)) _ O). now rewrite seq_nth.
Qed.
End Lists.

(** ** Words and vectors *)

Definition is_word (w : Z) : Prop := 0 <= w < 2 ^ 64.

Definition is_vector (n : nat) (v : list Z) : Prop := length v = n /\ Forall is_word v.

(** The bit [j]. *)
Definition vbit (v : list Z) (j : nat) : bool := Z.testbit (nth (j / 64) v 0) (Z.of_nat (j mod 64)).

Lemma word_testbit w m : is_word w -> 64 <= m -> Z.testbit w m = false.
Proof.
  intros [Hw1 Hw2] Hm. destruct (Z.eq_dec w 0) as [->|Hn]; [apply Z.bits_0|]. apply Z.bits_above_log2; [lia|].
  apply (Z.lt_le_trans _ 64); [|lia]. apply Z.log2_lt_pow2; lia.
Qed.

Lemma word_of_testbit w : 0 <= w -> (forall m, 64 <= m -> Z.testbit w m = false) -> is_word w.
Proof.
  intros Hw Hm. split; [lia|]. destruct (Z.eq_dec w 0) as [->|Hn]; [lia|].
  apply Z.log2_lt_pow2; [lia|]. destruct (Z.lt_ge_cases (Z.log2 w) 64) as [|Hge]; [lia|].
  specialize (Hm (Z.log2 w) Hge). rewrite Z.bit_log2 in Hm by lia. discriminate.
Qed.

Lemma nth_word v i : Forall is_word v -> is_word (nth i v 0).
Proof.
  intros H. destruct (Nat.lt_ge_cases i (length v)) as [Hi|Hi].
  - rewrite Forall_forall in H. apply H, nth_In, Hi.
  - rewrite nth_overflow by lia. split; lia.
Qed.

Lemma land_one x n : Z.land (Z.shiftr x (Z.of_nat n)) 1 = Z.b2z (Z.testbit x (Z.of_nat n)).
Proof.
  change 1 with (Z.ones 1). rewrite Z.land_ones by lia. rewrite <- Z.bit0_mod, Z.shiftr_spec by lia. now rewrite Z.add_0_l.
Qed.

Lemma bit_vbit v j : BitVector_bit v j = Z.b2z (vbit v j).
Proof. apply land_one. Qed.

Lemma testbit_b2z b m : Z.testbit (Z.b2z b) m = (m =? 0) && b.
Proof.
  destruct b; [|now rewrite andb_false_r, Z.bits_0]. rewrite andb_true_r. change (Z.b2z true) with (2 ^ 0).
  destruct (Z.eqb_spec m 0) as [->|N]; [reflexivity|]. apply Z.pow2_bits_false. lia.
Qed.

Lemma b2z_eqb b : (Z.b2z b =? 1) = b.
Proof. now destruct b. Qed.

(** A vector is determined by its bits. *)
Lemma vector_ext n u v : is_vector n u -> is_vector n v ->
  (forall j, (j < 64 * n)%nat -> vbit u j = vbit v j) -> u = v.
Proof.
  intros [Lu Hu] [Lv Hv] H. apply (nth_ext u v 0 0); [congruence|]. intros i Hi.
  apply Z.bits_inj'. intros m Hm. destruct (Z.lt_ge_cases m 64) as [Hlt|Hge].
  - specialize (H (64 * i + Z.to_nat m)%nat ltac:(lia)). unfold vbit in H.
    replace ((64 * i + Z.to_nat m) / 64)%nat with i in H
      by (apply (Nat.div_unique _ 64 i (Z.to_nat m)); lia).
    replace ((64 * i + Z.to_nat m) mod 64)%nat with (Z.to_nat m) in H
      by (apply (Nat.mod_unique _ 64 i (Z.to_nat m)); lia).
    now rewrite !Z2Nat.id in H by lia.
  - now rewrite !word_testbit by (try apply nth_word; assumption).
Qed.

Lemma vbit_lt v j n : is_vector n v -> (64 * n <= j)%nat -> vbit v j = false.
Proof.
  intros [L _] Hj. unfold vbit. rewrite nth_overflow, Z.bits_0; [reflexivity|].
  rewrite L. apply Nat.div_le_lower_bound; lia.
Qed.

Lemma vbit_map2 (f : Z -> Z -> Z) (g : bool -> bool -> bool) u v j :
  length u = length v -> g false false = false ->
  (forall a b m, 0 <= m -> Z.testbit (f a b) m = g (Z.testbit a m) (Z.testbit b m)) ->
  vbit (map2 f u v) j = g (vbit u j) (vbit v j).
Proof.
  intros E Hg Hf. unfold vbit. destruct (Nat.lt_ge_cases (j / 64) (length u)) as [Hj|Hj].
  - rewrite (nth_map2 f u v _ 0 0 0) by assumption. apply Hf. lia.
  - rewrite !nth_overflow by (rewrite ?length_map2 by assumption; lia). now rewrite Z.bits_0, Hg.
Qed.

Lemma lxor_word a b : is_word a -> is_word b -> is_word (Z.lxor a b).
Proof.
  intros Ha Hb. apply word_of_testbit; [apply Z.lxor_nonneg; unfold is_word in *; lia|].
  intros m Hm. now rewrite Z.lxor_spec, !word_testbit.
Qed.

Lemma land_word a b : is_word a -> is_word b -> is_word (Z.land a b).
Proof.
  intros Ha Hb. apply word_of_testbit; [apply Z.land_nonneg; unfold is_word in *; lia|].
  intros m Hm. now rewrite Z.land_spec, !word_testbit.
Qed.

Lemma map2_vector n f u v : (forall a b, is_word a -> is_word b -> is_word (f a b)) ->
  is_vector n u -> is_vector n v -> is_vector n (map2 f u v).
Proof.
  intros Hf [Lu Hu] [Lv Hv]. split; [rewrite length_map2; congruence|].
  now apply (Forall_map2 _ is_word is_word).
Qed.

Lemma xor_vector n u v : is_vector n u -> is_vector n v -> is_vector n (BitVector_xor u v).
Proof. apply map2_vector, lxor_word. Qed.

Lemma and_vector n u v : is_vector n u -> is_vector n v -> is_vector n (BitVector_and u v).
Proof. apply map2_vector, land_word. Qed.

Lemma vbit_xor u v j : length u = length v -> vbit (BitVector_xor u v) j = xorb (vbit u j) (vbit v j).
Proof. intros E. apply vbit_map2; [assumption|reflexivity|]. intros. apply Z.lxor_spec. Qed.

Lemma vbit_and u v j : length u = length v -> vbit (BitVector_and u v) j = vbit u j && vbit v j.
Proof. intros E. apply vbit_map2; [assumption|reflexivity|]. intros. apply Z.land_spec. Qed.

Lemma vbit_xor_n n u v j : is_vector n u -> is_vector n v -> vbit (BitVector_xor u v) j = xorb (vbit u j) (vbit v j).
Proof. intros [Lu _] [Lv _]. apply vbit_xor. congruence. Qed.

Lemma vbit_and_n n u v j : is_vector n u -> is_vector n v -> vbit (BitVector_and u v) j = vbit u j && vbit v j.
Proof. intros [Lu _] [Lv _]. apply vbit_and. congruence. Qed.

Lemma zero_vector n : is_vector n (repeat 0 n).
Proof. split; [apply repeat_length|]. apply Forall_forall. intros x Hx. apply repeat_spec in Hx as ->. split; lia. Qed.

Lemma vbit_zero n j : vbit (repeat 0 n) j = false.
Proof. unfold vbit. rewrite nth_repeat. apply Z.bits_0. Qed.

(** The choice between two vectors. *)
Lemma select_spec a b c : length a = length b -> BitVector_conditional_select a b c = if c then b else a.
Proof.
  intros E. apply (nth_ext _ _ 0 0).
  - unfold BitVector_conditional_select. rewrite length_map2 by assumption. destruct c; congruence.
  - intros i Hi. unfold BitVector_conditional_select in *. rewrite length_map2 in Hi by assumption.
    rewrite (nth_map2 _ a b i 0 0 0) by assumption. now destruct c.
Qed.

(** The vector of ones. *)
Lemma not_zero_vector : is_vector SEC_PARAM_64 (BitVector_not BitVector_zero).
Proof. split; [reflexivity|]. repeat constructor; vm_compute; congruence. Qed.

Lemma vbit_not_zero j : (j < SECURITY_PARAMETER)%nat -> vbit (BitVector_not BitVector_zero) j = true.
Proof.
  unfold SECURITY_PARAMETER. intros Hj. unfold vbit. assert (Hq : (j / 64 < 2)%nat) by (apply Nat.Div0.div_lt_upper_bound; lia).
  assert (Hr : (j mod 64 < 64)%nat) by (apply Nat.mod_upper_bound; lia).
  assert (E : nth (j / 64) (BitVector_not BitVector_zero) 0 = Z.ones 64)
    by (destruct (j / 64)%nat as [|[|q]]; [reflexivity|reflexivity|lia]).
  rewrite E. apply Z.ones_spec_low. lia.
Qed.

(** ** Setting bits *)

Lemma or_bit_vector n v i b : is_vector n v -> is_vector n (or_bit v i (Z.b2z b)).
Proof.
  intros [L H]. split; [unfold or_bit; now rewrite length_update_nth|].
  apply Forall_update_nth; [assumption|]. intros w Hw.
  assert (Hm : (i mod 64 < 64)%nat) by (apply Nat.mod_upper_bound; lia). apply word_of_testbit.
  - apply Z.lor_nonneg. split; [apply Hw|]. apply Z.shiftl_nonneg. destruct b; simpl; lia.
  - intros m Hm'. rewrite Z.lor_spec, word_testbit by assumption. rewrite Z.shiftl_spec by lia.
    rewrite testbit_b2z, (proj2 (Z.eqb_neq _ 0)) by lia. reflexivity.
Qed.

Lemma vbit_or_bit v i b j : (i < 64 * length v)%nat ->
  vbit (or_bit v i (Z.b2z b)) j = vbit v j || (Nat.eqb i j && b).
Proof.
  intros Hi. unfold vbit, or_bit.
  rewrite nth_update_nth by (apply Nat.Div0.div_lt_upper_bound; lia).
  pose proof (Nat.div_mod i 64 ltac:(lia)) as Di. pose proof (Nat.div_mod j 64 ltac:(lia)) as Dj.
  destruct (Nat.eqb_spec (i / 64) (j / 64)) as [Eq|Nq].
  - rewrite Eq, Z.lor_spec, Z.shiftl_spec by lia. f_equal. destruct (Nat.eqb_spec i j) as [->|Nij].
    + now rewrite Z.sub_diag, testbit_b2z.
    + rewrite testbit_b2z, (proj2 (Z.eqb_neq _ 0)) by lia. reflexivity.
  - destruct (Nat.eqb_spec i j) as [->|]; [congruence|]. now rewrite orb_false_r.
Qed.

(** Setting one bit after the other. *)
Lemma fold_or_bit {A} (f : A -> bool) (l : list A) s out d j :
  (s + length l <= 64 * length out)%nat ->
  vbit (fold_left (fun out '(i, c) => or_bit out i (Z.b2z (f c))) (combine (seq s (length l)) l) out) j =
  vbit out j || ((Nat.leb s j && Nat.ltb j (s + length l)) && f (nth (j - s) l d)).
Proof.
  revert s out. induction l as [|x l IH]; intros s out Hs; simpl in *.
  { destruct (Nat.leb_spec s j), (Nat.ltb_spec j (s + 0)); simpl; rewrite ?orb_false_r; try reflexivity. lia. }
  rewrite IH by (unfold or_bit; rewrite length_update_nth; lia). rewrite vbit_or_bit by lia.
  rewrite <- orb_assoc. f_equal. destruct (Nat.eqb_spec s j) as [->|N].
  - rewrite Nat.sub_diag. rewrite Nat.leb_refl. rewrite (proj2 (Nat.leb_gt (S j) j)) by lia. simpl.
    rewrite (proj2 (Nat.ltb_lt j (j + S (length l)))) by lia. now rewrite orb_false_r.
  - destruct (Nat.leb_spec (S s) j), (Nat.leb_spec s j); simpl; try lia; try reflexivity.
    replace (j - s)%nat with (S (j - S s)) by lia. rewrite <- Nat.add_succ_comm. reflexivity.
Qed.

Lemma fold_or_bit_vector {A} (f : A -> bool) (l : list (nat * A)) n out :
  is_vector n out -> is_vector n (fold_left (fun out '(i, c) => or_bit out i (Z.b2z (f c))) l out).
Proof. revert out. induction l as [|[i c] l IH]; intros out H; simpl; [assumption|]. now apply IH, or_bit_vector. Qed.

(** ** Matrices *)

Definition is_matrix (m : list (list Z)) : Prop := Forall (is_vector SEC_PARAM_64) m.

(** The bit of a matrix in row [i] and column [j]. *)
Definition mbit (m : list (list Z)) (i j : nat) : bool := vbit (nth i m []) j.

Lemma nth_vector m i : is_matrix m -> (i < length m)%nat -> is_vector SEC_PARAM_64 (nth i m []).
Proof. intros H Hi. unfold is_matrix in H. rewrite Forall_forall in H. now apply H, nth_In. Qed.

Lemma matrix_ext m n : is_matrix m -> is_matrix n -> length m = length n ->
  (forall i j, (i < length m)%nat -> (j < SECURITY_PARAMETER)%nat -> mbit m i j = mbit n i j) -> m = n.
Proof.
  intros Hm Hn E H. apply (nth_ext m n [] []); [assumption|]. intros i Hi.
  apply (vector_ext SEC_PARAM_64); [now apply nth_vector|apply nth_vector; [assumption|lia]|]. intros j Hj.
  now apply H.
Qed.

Lemma fold_left_ext {A B} (f g : A -> B -> A) l a : (forall a b, f a b = g a b) -> fold_left f l a = fold_left g l a.
Proof. intros H. revert a. induction l as [|b l IH]; intros a; simpl; [reflexivity|]. now rewrite H, IH. Qed.

Lemma column_fold chunk j : column_of_chunk chunk j =
  fold_left (fun out '(i, c_i) => or_bit out i (Z.b2z (vbit c_i j))) (enumerate chunk) BitVector_zero.
Proof. apply fold_left_ext. intros out [i c]. now rewrite bit_vbit. Qed.

Lemma column_vector chunk j : is_vector SEC_PARAM_64 (column_of_chunk chunk j).
Proof. rewrite column_fold. apply fold_or_bit_vector, zero_vector. Qed.

Lemma vbit_column chunk i j : (length chunk <= SECURITY_PARAMETER)%nat ->
  vbit (column_of_chunk chunk j) i = Nat.ltb i (length chunk) && mbit chunk i j.
Proof.
  intros Hl. rewrite column_fold. unfold enumerate, BitVector_zero. rewrite (fold_or_bit _ _ _ _ []) by (simpl; exact Hl).
  now rewrite vbit_zero, Nat.sub_0_r.
Qed.

Lemma xor_matrix m n : is_matrix m -> is_matrix n -> is_matrix (BitMatrix_xor m n).
Proof. intros Hm Hn. eapply Forall_map2; [exact Hm|exact Hn|]. intros. now apply xor_vector. Qed.

Lemma and_vec_matrix m v : is_matrix m -> is_vector SEC_PARAM_64 v -> is_matrix (BitMatrix_and_vec m v).
Proof. intros Hm Hv. apply Forall_map. eapply Forall_impl; [|exact Hm]. intros row Hrow. now apply and_vector. Qed.

Lemma length_and_vec m v : length (BitMatrix_and_vec m v) = length m.
Proof. apply length_map. Qed.

Lemma length_xor m n : length m = length n -> length (BitMatrix_xor m n) = length m.
Proof. apply length_map2. Qed.

Lemma mbit_xor m n i j : is_matrix m -> is_matrix n -> length m = length n -> (i < length m)%nat ->
  mbit (BitMatrix_xor m n) i j = xorb (mbit m i j) (mbit n i j).
Proof.
  intros Hm Hn E Hi. unfold mbit, BitMatrix_xor. rewrite (nth_map2 _ m n i [] []) by assumption.
  apply (vbit_xor_n SEC_PARAM_64); apply nth_vector; congruence || (try assumption; lia).
Qed.

Lemma mbit_and_vec m v i j : is_matrix m -> is_vector SEC_PARAM_64 v -> (i < length m)%nat ->
  mbit (BitMatrix_and_vec m v) i j = mbit m i j && vbit v j.
Proof.
  intros Hm Hv Hi. unfold mbit, BitMatrix_and_vec. rewrite (nth_indep _ [] (BitVector_and [] v)) by now rewrite length_map.
  rewrite (map_nth (fun row => BitVector_and row v) m []). apply (vbit_and_n SEC_PARAM_64); [now apply nth_vector|assumption].
Qed.

(** ** Expansion *)

Section Expand.
Context (shake256 : list Z -> nat -> list Z) (prefix : list Z).

(** The bit [i] of the expansion of a row. *)
Definition expanded_bit (rows : nat) (row : list Z) (i : nat) : bool :=
  Z.testbit (nth (i / 8) (shake256 (prefix ++ flat_map u64_to_le_bytes row) (div_ceil rows 8)) 0) (Z.of_nat (i mod 8)).

Let expand_step (rows : nat) (out : list (list Z)) (jr : nat * list Z) : list (list Z) :=
  let '(j, row) := jr in
  let expanded := shake256 (prefix ++ flat_map u64_to_le_bytes row) (div_ceil rows 8) in
  map (fun '(i, out_i) =>
    or_bit out_i j (Z.land (Z.shiftr (nth (i / 8) expanded 0) (Z.of_nat (i mod 8))) 1)) (enumerate out).

Lemma expand_step_length rows out jr : length (expand_step rows out jr) = length out.
Proof. destruct jr as [j row]. unfold expand_step. now rewrite length_map, length_enumerate. Qed.

Lemma expand_fold rows l out i : (i < length out)%nat ->
  length (fold_left (expand_step rows) l out) = length out /\
  nth i (fold_left (expand_step rows) l out) [] =
    fold_left (fun o '(j, row) => or_bit o j (Z.b2z (expanded_bit rows row i))) l (nth i out []).
Proof.
  revert out. induction l as [|[j row] l IH]; intros out Hi; [now split|]. cbn [fold_left].
  pose proof (expand_step_length rows out (j, row)) as Hl.
  destruct (IH (expand_step rows out (j, row))) as [L E]; [now rewrite Hl|]. split; [congruence|].
  rewrite E. f_equal. unfold expand_step. rewrite (nth_map_enumerate _ _ _ []) by assumption.
  now rewrite land_one.
Qed.

Lemma expand_unfold k rows : SquareBitMatrix_expand_transpose shake256 prefix k rows =
  fold_left (expand_step rows) (enumerate k) (repeat BitVector_zero rows).
Proof. reflexivity. Qed.

Lemma length_expand k rows : length (SquareBitMatrix_expand_transpose shake256 prefix k rows) = rows.
Proof.
  rewrite expand_unfold.
  destruct rows as [|rows].
  - generalize (enumerate k). intros l. simpl. induction l as [|[j row] l IH]; [reflexivity|exact IH].
  - destruct (expand_fold (S rows) (enumerate k) (repeat BitVector_zero (S rows)) 0) as [L _]; [simpl; lia|].
    rewrite L. apply repeat_length.
Qed.

Lemma nth_expand k rows i : (i < rows)%nat ->
  nth i (SquareBitMatrix_expand_transpose shake256 prefix k rows) [] =
    fold_left (fun o '(j, row) => or_bit o j (Z.b2z (expanded_bit rows row i))) (enumerate k) BitVector_zero.
Proof.
  intros Hi. rewrite expand_unfold.
  destruct (expand_fold rows (enumerate k) (repeat BitVector_zero rows) i) as [_ E]; [now rewrite repeat_length|].
  rewrite E. f_equal. rewrite (nth_indep _ [] BitVector_zero) by now rewrite repeat_length. apply nth_repeat.
Qed.

Lemma expand_matrix k rows : is_matrix (SquareBitMatrix_expand_transpose shake256 prefix k rows).
Proof.
  apply Forall_forall. intros row Hin. apply (In_nth _ _ []) in Hin as (i & Hi & <-).
  rewrite length_expand in Hi. rewrite nth_expand by assumption. apply fold_or_bit_vector, zero_vector.
Qed.

Lemma mbit_expand k rows i j : (length k <= SECURITY_PARAMETER)%nat -> (i < rows)%nat ->
  mbit (SquareBitMatrix_expand_transpose shake256 prefix k rows) i j =
    Nat.ltb j (length k) && expanded_bit rows (nth j k []) i.
Proof.
  intros Hk Hi. unfold mbit. rewrite nth_expand by assumption. unfold enumerate, BitVector_zero.
  rewrite (fold_or_bit (fun row => expanded_bit rows row i) _ _ _ []) by (simpl; exact Hk).
  now rewrite vbit_zero, Nat.sub_0_r.
Qed.
End Expand.

(** ** Bits of a choice vector *)

Lemma nth_flat_map_const {A B} (f : A -> list B) l n q r d dx :
  (forall x, In x l -> length (f x) = n) -> (r < n)%nat -> (q < length l)%nat ->
  nth (n * q + r) (flat_map f l) d = nth r (f (nth q l dx)) d.
Proof.
  revert q. induction l as [|x l IH]; intros q Hf Hr Hq; simpl in *; [lia|].
  assert (Hx : length (f x) = n) by (apply Hf; now left). destruct q as [|q].
  - rewrite Nat.mul_0_r. rewrite app_nth1 by (simpl; lia). reflexivity.
  - rewrite app_nth2 by lia. rewrite <- (IH q); [f_equal; lia|now intros; apply Hf; right|assumption|lia].
Qed.

Lemma length_flat_map_const {A B} (f : A -> list B) l n :
  (forall x, In x l -> length (f x) = n) -> length (flat_map f l) = (n * length l)%nat.
Proof.
  induction l as [|x l IH]; intros Hf; simpl; [lia|]. rewrite length_app, IH by (intros; apply Hf; now right).
  rewrite Hf by now left. lia.
Qed.

Lemma length_bits v : is_vector SEC_PARAM_64 v -> length (BitVector_bits v) = SECURITY_PARAMETER.
Proof. intros [L _]. unfold BitVector_bits. rewrite (length_flat_map_const _ _ 64); [now rewrite L|]. reflexivity. Qed.

Lemma nth_bits v j : is_vector SEC_PARAM_64 v -> (j < SECURITY_PARAMETER)%nat -> nth j (BitVector_bits v) false = vbit v j.
Proof.
  unfold SECURITY_PARAMETER. intros [L _] Hj. pose proof (Nat.div_mod j 64 ltac:(lia)) as D.
  assert (Hr : (j mod 64 < 64)%nat) by (apply Nat.mod_upper_bound; lia).
  unfold BitVector_bits. rewrite D at 1. rewrite (nth_flat_map_const _ _ _ _ _ _ 0);
    [|reflexivity|assumption|rewrite L; unfold SEC_PARAM_64; apply Nat.Div0.div_lt_upper_bound; lia].
  rewrite (nth_indep _ false (Z.land (Z.shiftr (nth (j / 64) v 0) (Z.of_nat 0)) 1 =? 1)) by (rewrite length_map, length_seq; lia).
  rewrite (map_nth (fun k => Z.land (Z.shiftr (nth (j / 64) v 0) (Z.of_nat k)) 1 =? 1)), seq_nth by assumption.
  rewrite land_one, b2z_eqb. reflexivity.
Qed.

Lemma length_choice_bits b : is_matrix b -> length (ChoiceVector_bits b) = (SECURITY_PARAMETER * length b)%nat.
Proof.
  intros H. apply length_flat_map_const. intros x Hx. unfold is_matrix in H. rewrite Forall_forall in H.
  now apply length_bits, H.
Qed.

Lemma nth_choice_bits b c i : is_matrix b -> (c < length b)%nat -> (i < SECURITY_PARAMETER)%nat ->
  nth (SECURITY_PARAMETER * c + i) (ChoiceVector_bits b) false = mbit b c i.
Proof.
  intros H Hc Hi. unfold ChoiceVector_bits. rewrite (nth_flat_map_const _ _ _ _ _ _ []); [|intros x Hx|assumption..].
  - apply nth_bits; [now apply nth_vector|assumption].
  - unfold is_matrix in H. rewrite Forall_forall in H. now apply length_bits, H.
Qed.

(** The matrix of a choice vector: a row of ones for every choice. *)
Definition choice_matrix (b : list bool) : list (list Z) :=
  map (fun b_i => BitVector_conditional_select BitVector_zero (BitVector_not BitVector_zero) b_i) b.

Lemma select_zero_vector v c : is_vector SEC_PARAM_64 v -> is_vector SEC_PARAM_64 (BitVector_conditional_select BitVector_zero v c).
Proof. intros Hv. rewrite select_spec by (symmetry; apply Hv). destruct c; [assumption|apply zero_vector]. Qed.

Lemma vbit_select_zero v c j : is_vector SEC_PARAM_64 v ->
  vbit (BitVector_conditional_select BitVector_zero v c) j = vbit v j && c.
Proof.
  intros Hv. rewrite select_spec by (symmetry; apply Hv). destruct c; [now rewrite andb_true_r|].
  rewrite andb_false_r. apply vbit_zero.
Qed.

Lemma choice_matrix_ok b : is_matrix (choice_matrix b).
Proof. apply Forall_map, Forall_forall. intros c _. apply select_zero_vector, not_zero_vector. Qed.

Lemma mbit_choice_matrix b i j : (i < length b)%nat -> (j < SECURITY_PARAMETER)%nat ->
  mbit (choice_matrix b) i j = nth i b false.
Proof.
  intros Hi Hj. unfold mbit, choice_matrix.
  rewrite (nth_indep _ [] (BitVector_conditional_select BitVector_zero (BitVector_not BitVector_zero) false))
    by now rewrite length_map.
  rewrite (map_nth (BitVector_conditional_select BitVector_zero (BitVector_not BitVector_zero))), vbit_select_zero
    by apply not_zero_vector.
  now rewrite vbit_not_zero by assumption.
Qed.

(** ** Correlation *)

(** The sender's keys are the rows of the receiver's that its choices select. *)
Definition chosen_rows (delta : list Z) (k0 k1 k : list (list Z)) : Prop :=
  length k0 = SECURITY_PARAMETER /\ length k1 = SECURITY_PARAMETER /\ length k = SECURITY_PARAMETER /\
  forall j, (j < SECURITY_PARAMETER)%nat -> nth j k [] = if vbit delta j then nth j k1 [] else nth j k0 [].

Lemma correlation shake256 prefix rows delta k0 k1 k x :
  is_vector SEC_PARAM_64 delta -> is_matrix x -> length x = rows -> chosen_rows delta k0 k1 k ->
  let t0 := SquareBitMatrix_expand_transpose shake256 prefix k0 rows in
  let t1 := SquareBitMatrix_expand_transpose shake256 prefix k1 rows in
  let t := SquareBitMatrix_expand_transpose shake256 prefix k rows in
  BitMatrix_xor (BitMatrix_and_vec (BitMatrix_xor (BitMatrix_xor t0 t1) x) delta) t =
  BitMatrix_xor t0 (BitMatrix_and_vec x delta).
Proof.
  intros Hd Hx Lx (L0 & L1 & Lk & Hk) t0 t1 t.
  assert (H0 : is_matrix t0) by apply expand_matrix. assert (H1 : is_matrix t1) by apply expand_matrix.
  assert (Ht : is_matrix t) by apply expand_matrix.
  assert (E0 : length t0 = rows) by apply length_expand. assert (E1 : length t1 = rows) by apply length_expand.
  assert (Et : length t = rows) by apply length_expand.
  assert (H01 : is_matrix (BitMatrix_xor t0 t1)) by now apply xor_matrix.
  assert (E01 : length (BitMatrix_xor t0 t1) = rows) by (rewrite length_xor; congruence).
  assert (Hu : is_matrix (BitMatrix_xor (BitMatrix_xor t0 t1) x)) by now apply xor_matrix.
  assert (Eu : length (BitMatrix_xor (BitMatrix_xor t0 t1) x) = rows) by (rewrite length_xor; congruence).
  assert (Hud := and_vec_matrix _ _ Hu Hd). assert (Hxd := and_vec_matrix _ _ Hx Hd).
  apply matrix_ext; [now apply xor_matrix..| |].
  { rewrite length_xor by (rewrite length_and_vec; congruence). rewrite (length_xor t0) by (rewrite length_and_vec; congruence).
    rewrite length_and_vec. congruence. }
  rewrite length_xor by (rewrite length_and_vec; congruence). rewrite length_and_vec, Eu.
  intros i j Hi Hj. rewrite !mbit_xor, !mbit_and_vec, !mbit_xor by (rewrite ?length_and_vec; congruence || assumption || lia).
  unfold t0, t1, t. rewrite !mbit_expand by (assumption || lia). rewrite L0, L1, Lk, (proj2 (Nat.ltb_lt j _)) by assumption.
  rewrite Hk by assumption. simpl. set (e0 := expanded_bit _ _ _ (nth j k0 []) i). set (e1 := expanded_bit _ _ _ (nth j k1 []) i).
  destruct (vbit delta j); fold e0 e1; destruct e0, e1, (mbit x i j); reflexivity.
Qed.
