(* ===== verification/TripleGf.v ===== *)
(** * Threshold signatures: multiplication of bit vectors

    [BitVector::gf_mul] is the carry-less product of two vectors, and so it is linear, which
    is what the check of the OT extension relies on. *)

From Stdlib Require Import ZArith Lia Bool List.
From S2P Require Import TripleBits.
Import ListNotations.
Open Scope Z_scope.

(** ** The number of a vector *)

Fixpoint value (v : list Z) : Z :=
  match v with
  | [] => 0
  | w :: v => Z.lor w (Z.shiftl (value v) 64)
  end.

Lemma vbit_cons w v j : vbit (w :: v) j = if Nat.ltb j 64 then Z.testbit w (Z.of_nat j) else vbit v (j - 64).
Proof.
  unfold vbit. destruct (Nat.ltb_spec j 64) as [Hj|Hj].
  - now rewrite Nat.div_small, Nat.mod_small by assumption.
  - assert (E : j = ((j - 64) + 1 * 64)%nat) by lia. rewrite E at 1 2.
    rewrite Nat.div_add, Nat.Div0.mod_add by lia. now rewrite Nat.add_1_r.
Qed.

Lemma value_nonneg v : Forall is_word v -> 0 <= value v.
Proof.
  induction 1 as [|w v Hw Hv IH]; cbn [value]; [lia|]. apply Z.lor_nonneg. split; [apply Hw|now apply Z.shiftl_nonneg].
Qed.

Lemma testbit_value v j : Forall is_word v -> Z.testbit (value v) (Z.of_nat j) = vbit v j.
Proof.
  intros H. revert j. induction H as [|w v Hw Hv IH]; intros j.
  - simpl. rewrite Z.bits_0. unfold vbit. rewrite nth_overflow by (simpl; lia). now rewrite Z.bits_0.
  - rewrite vbit_cons. cbn [value]. rewrite Z.lor_spec, Z.shiftl_spec by lia. destruct (Nat.ltb_spec j 64) as [Hj|Hj].
    + rewrite (Z.testbit_neg_r (value v)) by lia. apply orb_false_r.
    + rewrite word_testbit by (assumption || lia). rewrite <- IH. simpl. f_equal. lia.
Qed.

(** The value is determined by the bits, and determines the vector. *)
Lemma value_bits v x : Forall is_word v -> 0 <= x -> (forall j, vbit v j = Z.testbit x (Z.of_nat j)) -> value v = x.
Proof.
  intros Hv Hx H. apply Z.bits_inj'. intros m Hm. rewrite <- (Z2Nat.id m) by assumption. now rewrite testbit_value.
Qed.

Lemma value_inj n u v : is_vector n u -> is_vector n v -> value u = value v -> u = v.
Proof.
  intros Hu Hv E. apply (vector_ext n); [assumption..|]. intros j _.
  rewrite <- !testbit_value; [now rewrite E|apply Hv|apply Hu].
Qed.

Lemma value_bound n v : is_vector n v -> value v < 2 ^ (64 * Z.of_nat n).
Proof.
  intros Hv. pose proof (value_nonneg v (proj2 Hv)) as Hn. destruct (Z.eq_dec (value v) 0) as [E|E]; [rewrite E; apply Z.pow_pos_nonneg; lia|].
  apply Z.log2_lt_pow2; [lia|]. destruct (Z.lt_ge_cases (Z.log2 (value v)) (64 * Z.of_nat n)) as [|Hge]; [lia|].
  pose proof (Z.bit_log2 (value v) ltac:(lia)) as Hb. pose proof (Z.log2_nonneg (value v)) as Hl.
  rewrite <- (Z2Nat.id (Z.log2 (value v))), testbit_value in Hb by (assumption || apply Hv).
  rewrite (vbit_lt v _ n Hv) in Hb by lia. discriminate.
Qed.

Lemma value_xor n u v : is_vector n u -> is_vector n v -> value (BitVector_xor u v) = Z.lxor (value u) (value v).
Proof.
  intros Hu Hv. apply value_bits.
  - now apply (xor_vector n).
  - apply Z.lxor_nonneg. pose proof (value_nonneg u (proj2 Hu)). pose proof (value_nonneg v (proj2 Hv)). lia.
  - intros j. rewrite (vbit_xor_n n), Z.lxor_spec by assumption. rewrite !testbit_value; [reflexivity|apply Hv|apply Hu].
Qed.

Lemma value_zero n : value (repeat 0 n) = 0.
Proof. induction n as [|n IH]; [reflexivity|]. cbn [repeat value]. now rewrite IH. Qed.

(** ** The steps of a round *)

Lemma xor_words_nth l s j out m : (j + s + length l <= length out)%nat ->
  nth m (fold_left (fun out '(i, w) => update_nth (j + i) (fun o => Z.lxor o w) out)
    (combine (seq s (length l)) l) out) 0 =
  Z.lxor (nth m out 0) (if Nat.leb (j + s) m then nth (m - (j + s)) l 0 else 0).
Proof.
  revert s out. induction l as [|w l IH]; intros s out Hs.
  { rewrite (nth_overflow []) by (simpl; lia). simpl. now destruct (Nat.leb _ _); rewrite Z.lxor_0_r. }
  simpl in Hs. cbn [combine seq fold_left length].
  rewrite IH by (rewrite length_update_nth; lia). rewrite nth_update_nth by lia.
  destruct (Nat.eqb_spec (j + s) m) as [<-|N].
  - rewrite (proj2 (Nat.leb_gt (j + S s) (j + s))) by lia. rewrite Nat.leb_refl, Nat.sub_diag. now rewrite Z.lxor_0_r.
  - destruct (Nat.leb_spec (j + S s) m), (Nat.leb_spec (j + s) m); try lia.
    replace (m - (j + s))%nat with (S (m - (j + S s))) by lia. reflexivity.
Qed.

Lemma xor_words_vector n m out j v : is_vector n out -> is_vector m v -> is_vector n (xor_words out j v).
Proof.
  unfold xor_words, enumerate. intros Ho [_ Hv]. generalize 0%nat. revert out Ho.
  induction Hv as [|w v Hw Hv IH]; intros out Ho s; simpl; [assumption|]. apply IH. destruct Ho as [L H].
  split; [now rewrite length_update_nth|]. apply Forall_update_nth; [assumption|]. intros o Hword. now apply lxor_word.
Qed.

Lemma value_xor_words n m out j v : is_vector n out -> is_vector m v -> (j + m <= n)%nat ->
  value (xor_words out j v) = Z.lxor (value out) (Z.shiftl (value v) (64 * Z.of_nat j)).
Proof.
  intros Ho Hv Hj. assert (Hr := xor_words_vector n m out j v Ho Hv). destruct Ho as [Lo Wo]. destruct Hv as [Lv Wv].
  apply value_bits; [apply Hr| |].
  - apply Z.lxor_nonneg. pose proof (value_nonneg out Wo). pose proof (value_nonneg v Wv). rewrite Z.shiftl_nonneg. tauto.
  - intros x. rewrite Z.lxor_spec, Z.shiftl_spec by lia. rewrite testbit_value by assumption.
    unfold vbit at 1. unfold xor_words, enumerate. rewrite xor_words_nth by lia. rewrite Z.lxor_spec. f_equal. rewrite Nat.add_0_r.
    pose proof (Nat.div_mod x 64 ltac:(lia)) as D. assert (Hm : (x mod 64 < 64)%nat) by (apply Nat.mod_upper_bound; lia).
    destruct (Nat.leb_spec j (x / 64)) as [Hle|Hgt].
    + assert (Hx : (64 * j <= x)%nat) by lia.
      assert (Es : Z.of_nat x - 64 * Z.of_nat j = Z.of_nat (x - 64 * j))
        by (rewrite Nat2Z.inj_sub, Nat2Z.inj_mul by assumption; reflexivity).
      rewrite Es, testbit_value by assumption.
      unfold vbit. assert (E : (x - 64 * j = x mod 64 + (x / 64 - j) * 64)%nat) by lia. rewrite E.
      rewrite Nat.div_add, Nat.Div0.mod_add by lia. rewrite (Nat.div_small (x mod 64)), Nat.Div0.mod_mod by assumption. reflexivity.
    + rewrite Z.bits_0. symmetry. apply Z.testbit_neg_r. lia.
Qed.

(** The shift by one bit. *)
Lemma shifted_word w p m : is_word w -> 0 <= m < 64 ->
  Z.testbit (Z.lor (Z.land (Z.shiftl w 1) u64_mask) (Z.b2z p)) m = if m =? 0 then p else Z.testbit w (m - 1).
Proof.
  intros Hw Hm. change u64_mask with (Z.ones 64). rewrite Z.lor_spec, Z.land_spec, Z.shiftl_spec, testbit_b2z by lia.
  rewrite Z.ones_spec_low by lia. rewrite andb_true_r. destruct (Z.eqb_spec m 0) as [->|N].
  - rewrite (Z.testbit_neg_r w) by lia. reflexivity.
  - rewrite andb_false_l. apply orb_false_r.
Qed.

Lemma shifted_is_word w p : is_word w -> is_word (Z.lor (Z.land (Z.shiftl w 1) u64_mask) (Z.b2z p)).
Proof.
  intros Hw. change u64_mask with (Z.ones 64). apply word_of_testbit.
  - apply Z.lor_nonneg. split; [|destruct p; simpl; lia]. apply Z.land_nonneg. right. vm_compute. congruence.
  - intros m Hm. rewrite Z.lor_spec, Z.land_spec, testbit_b2z, Z.ones_spec_high, andb_false_r by lia.
    now rewrite (proj2 (Z.eqb_neq m 0)) by lia.
Qed.

Lemma top_bit w : is_word w -> Z.shiftr w 63 = Z.b2z (Z.testbit w 63).
Proof.
  intros Hw. apply Z.bits_inj'. intros m Hm. rewrite Z.shiftr_spec, testbit_b2z by assumption.
  destruct (Z.eqb_spec m 0) as [->|N]; [reflexivity|]. apply word_testbit; [assumption|lia].
Qed.

Lemma shift_words_vector out p n : is_vector n out -> is_vector n (shift_words (Z.b2z p) out).
Proof.
  intros [L H]. revert p n L. induction H as [|w out Hw Hout IH]; intros p n L; [now split|].
  cbn [shift_words]. rewrite top_bit by assumption. destruct n as [|n]; [discriminate|]. injection L as L.
  destruct (IH (Z.testbit w 63) n L) as [L' H']. split; [cbn [length]; now rewrite L'|]. constructor; [now apply shifted_is_word|assumption].
Qed.

Lemma vbit_shift_words out p x : Forall is_word out -> (x < 64 * length out)%nat ->
  vbit (shift_words (Z.b2z p) out) x = if Nat.eqb x 0 then p else vbit out (x - 1).
Proof.
  intros H. revert p x. induction H as [|w out Hw Hout IH]; intros p x Hx; [simpl in Hx; lia|].
  cbn [shift_words]. rewrite top_bit by assumption. rewrite !vbit_cons. simpl length in Hx.
  destruct (Nat.ltb_spec x 64) as [Hlt|Hge].
  - rewrite shifted_word by (assumption || lia). destruct (Nat.eqb_spec x 0) as [->|N]; [reflexivity|].
    rewrite (proj2 (Z.eqb_neq _ 0)) by lia. rewrite (proj2 (Nat.ltb_lt (x - 1) 64)) by lia. f_equal. lia.
  - rewrite IH by lia. rewrite (proj2 (Nat.eqb_neq x 0)) by lia. destruct (Nat.eqb_spec (x - 64) 0) as [E|N].
    + replace (x - 1)%nat with 63%nat by lia. reflexivity.
    + rewrite (proj2 (Nat.ltb_ge (x - 1) 64)) by lia. f_equal. lia.
Qed.

Lemma value_shift_words n out : is_vector n out -> (0 < n)%nat -> value out < 2 ^ (64 * Z.of_nat n - 1) ->
  value (shift_words 0 out) = Z.shiftl (value out) 1.
Proof.
  intros Ho Hn Hb. pose proof (value_nonneg out (proj2 Ho)) as Hnn. apply value_bits.
  - apply (shift_words_vector out false n Ho).
  - now apply Z.shiftl_nonneg.
  - intros j. rewrite Z.shiftl_spec by lia. destruct (Nat.lt_ge_cases j (64 * n)) as [Hj|Hj].
    + pose proof (vbit_shift_words out false j (proj2 Ho) ltac:(rewrite (proj1 Ho); exact Hj)) as Hs.
      change (Z.b2z false) with 0 in Hs. rewrite Hs.
      destruct (Nat.eqb_spec j 0) as [->|N]; [symmetry; now apply Z.testbit_neg_r|].
      rewrite <- testbit_value by apply Ho. f_equal. lia.
    + rewrite (vbit_lt (shift_words 0 out) j n (shift_words_vector out false n Ho)) by assumption. symmetry.
      destruct (Z.eq_dec (value out) 0) as [->|N]; [apply Z.bits_0|]. apply Z.bits_above_log2; [assumption|].
      apply Z.lt_le_trans with (64 * Z.of_nat n - 1); [|lia]. apply Z.log2_lt_pow2; [lia|assumption].
Qed.

(** ** The carry-less product *)

Fixpoint xsum (f : nat -> Z) (n : nat) : Z :=
  match n with
  | O => 0
  | S n => Z.lxor (xsum f n) (f n)
  end.

Definition clmul (a b : Z) : Z :=
  xsum (fun i => if Z.testbit a (Z.of_nat i) then Z.shiftl b (Z.of_nat i) else 0) SECURITY_PARAMETER.

Lemma xsum_ext f g n : (forall i, (i < n)%nat -> f i = g i) -> xsum f n = xsum g n.
Proof. induction n as [|n IH]; intros H; simpl; [reflexivity|]. rewrite IH, H by auto with arith. reflexivity. Qed.

Lemma xsum_lxor f g n : xsum (fun i => Z.lxor (f i) (g i)) n = Z.lxor (xsum f n) (xsum g n).
Proof.
  induction n as [|n IH]; simpl; [reflexivity|]. rewrite IH, !Z.lxor_assoc. f_equal.
  rewrite <- !Z.lxor_assoc. f_equal. apply Z.lxor_comm.
Qed.

Lemma xsum_first f n : xsum f (S n) = Z.lxor (f O) (xsum (fun i => f (S i)) n).
Proof.
  induction n as [|n IH]; [cbn [xsum]; apply Z.lxor_comm|]. cbn [xsum] in *. rewrite IH. apply Z.lxor_assoc.
Qed.

Lemma xsum_add f n m : xsum f (n + m) = Z.lxor (xsum f n) (xsum (fun i => f (n + i)%nat) m).
Proof.
  induction m as [|m IH]; [rewrite Nat.add_0_r; simpl; now rewrite Z.lxor_0_r|].
  rewrite Nat.add_succ_r. cbn [xsum]. rewrite IH. apply Z.lxor_assoc.
Qed.

Lemma xsum_shiftl f n m : Z.shiftl (xsum f n) m = xsum (fun i => Z.shiftl (f i) m) n.
Proof. induction n as [|n IH]; cbn [xsum]; [apply Z.shiftl_0_l|]. now rewrite Z.shiftl_lxor, IH. Qed.

(** The carry-less product is linear. *)
Lemma clmul_lxor a b c : clmul (Z.lxor a b) c = Z.lxor (clmul a c) (clmul b c).
Proof.
  unfold clmul. rewrite <- xsum_lxor. apply xsum_ext. intros i _. rewrite Z.lxor_spec.
  destruct (Z.testbit a _), (Z.testbit b _); simpl; rewrite ?Z.lxor_0_r, ?Z.lxor_0_l, ?Z.lxor_nilpotent; reflexivity.
Qed.

Lemma clmul_0 c : clmul 0 c = 0.
Proof.
  unfold clmul. generalize SECURITY_PARAMETER. intros n. induction n as [|n IH]; cbn [xsum]; [reflexivity|].
  now rewrite IH, Z.bits_0.
Qed.

(** ** [gf_mul] *)

(** What a round adds: [b], and [b] one word further, if the bit [k] of the first and of the
    second word of [a] is set. *)
Definition addend (a : list Z) (b : Z) (k : nat) : Z :=
  Z.lxor (if vbit a k then b else 0) (if vbit a (64 + k) then Z.shiftl b 64 else 0).

Lemma vbit_word a j k : (k < 64)%nat -> Z.testbit (nth j a 0) (Z.of_nat k) = vbit a (64 * j + k).
Proof.
  intros Hk. unfold vbit. replace (64 * j + k)%nat with (k + j * 64)%nat by lia.
  rewrite Nat.div_add, Nat.Div0.mod_add by lia. now rewrite Nat.div_small, Nat.mod_small by assumption.
Qed.

Lemma select_value b c : is_vector SEC_PARAM_64 b ->
  value (BitVector_conditional_select BitVector_zero b c) = if c then value b else 0.
Proof. intros Hb. rewrite select_spec by (symmetry; apply Hb). destruct c; [reflexivity|apply value_zero]. Qed.

(** The round before the shift. *)
Lemma round_value a b out k : is_vector SEC_PARAM_64 b -> is_vector (2 * SEC_PARAM_64) out -> (k < 64)%nat ->
  let out' := fold_left (fun out j =>
    xor_words out j (BitVector_conditional_select BitVector_zero b
      (Z.land (Z.shiftr (nth j a 0) (Z.of_nat k)) 1 =? 1))) (seq 0 SEC_PARAM_64) out in
  is_vector (2 * SEC_PARAM_64) out' /\ value out' = Z.lxor (value out) (addend a (value b) k).
Proof.
  intros Hb Ho Hk out'. unfold out'. change (seq 0 SEC_PARAM_64) with [0; 1]%nat. cbn [fold_left].
  rewrite !land_one, !b2z_eqb, !vbit_word by assumption.
  set (s0 := BitVector_conditional_select _ _ (vbit a (64 * 0 + k))). set (s1 := BitVector_conditional_select _ _ (vbit a (64 * 1 + k))).
  assert (H0 : is_vector SEC_PARAM_64 s0) by now apply select_zero_vector.
  assert (H1 : is_vector SEC_PARAM_64 s1) by now apply select_zero_vector.
  assert (Hx := xor_words_vector _ _ out 0 s0 Ho H0). split; [now apply (xor_words_vector _ SEC_PARAM_64)|].
  rewrite (value_xor_words (2 * SEC_PARAM_64) SEC_PARAM_64) by (assumption || (unfold SEC_PARAM_64; lia)).
  rewrite (value_xor_words (2 * SEC_PARAM_64) SEC_PARAM_64) by (assumption || (unfold SEC_PARAM_64; lia)).
  unfold s0, s1, addend. rewrite !select_value by assumption. rewrite Z.lxor_assoc. f_equal. f_equal.
  change (64 * 1 + k)%nat with (64 + k)%nat. destruct (vbit a (64 + k)); [reflexivity|]. apply Z.shiftl_0_l.
Qed.

Lemma pow2_bound x y n : 0 <= n -> 0 <= x < 2 ^ n -> 0 <= y < 2 ^ n -> 0 <= Z.lxor x y < 2 ^ n.
Proof.
  intros Hn Hx Hy. split; [apply Z.lxor_nonneg; lia|]. destruct (Z.eq_dec (Z.lxor x y) 0) as [->|N]; [apply Z.pow_pos_nonneg; lia|].
  assert (0 <= Z.lxor x y) by (apply Z.lxor_nonneg; lia). apply Z.log2_lt_pow2; [lia|].
  apply Z.le_lt_trans with (Z.max (Z.log2 x) (Z.log2 y)); [apply Z.log2_lxor; lia|].
  assert (Hlog : forall z, 0 <= z < 2 ^ n -> Z.log2 z < n \/ z = 0).
  { intros z Hz. destruct (Z.eq_dec z 0); [now right|]. left. apply Z.log2_lt_pow2; lia. }
  assert (Hzero : Z.log2 0 = 0) by reflexivity.
  pose proof (Z.log2_nonneg x). pose proof (Z.log2_nonneg y).
  destruct (Hlog x Hx) as [|Ex], (Hlog y Hy) as [|Ey]; subst; rewrite ?Hzero in *; try lia. now destruct N.
Qed.

Lemma addend_bound a b k : 0 <= b < 2 ^ 128 -> 0 <= addend a b k < 2 ^ 192.
Proof.
  intros Hb. unfold addend. apply pow2_bound; [lia| |].
  - destruct (vbit a k); [|lia]. split; [lia|]. apply Z.lt_trans with (2 ^ 128); [lia|]. now apply Z.pow_lt_mono_r.
  - destruct (vbit a (64 + k)); [|lia]. rewrite Z.shiftl_mul_pow2 by lia. change (2 ^ 192) with (2 ^ 128 * 2 ^ 64). lia.
Qed.

Lemma xsum_bound f n m : 0 <= m -> (forall i, (i < n)%nat -> 0 <= f i < 2 ^ m) -> 0 <= xsum f n < 2 ^ m.
Proof.
  intros Hm. induction n as [|n IH]; intros H; cbn [xsum]; [split; [lia|apply Z.pow_pos_nonneg; lia]|].
  apply pow2_bound; [assumption|apply IH; intros; apply H; lia|apply H; lia].
Qed.

(** The rounds from bit 63 down to bit [k], with the shift of each. *)
Lemma rounds_value a b n : is_vector SEC_PARAM_64 b -> (n <= 63)%nat ->
  let out := fold_right (fun k out => gf_mul_round a b out k) DoubleBitVector_zero (seq (64 - n) n) in
  is_vector (2 * SEC_PARAM_64) out /\
  value out = xsum (fun i => Z.shiftl (addend a (value b) (64 - n + i)) (Z.of_nat i + 1)) n.
Proof.
  intros Hb. induction n as [|n IH]; intros Hn.
  { split; [apply zero_vector|apply value_zero]. }
  destruct (IH ltac:(lia)) as [Hv Ev]. clear IH. replace (64 - n)%nat with (S (64 - S n)) in * by lia.
  cbn zeta. cbn [seq fold_right]. set (out := fold_right _ _ _) in *. set (k := (64 - S n)%nat) in *.
  assert (Hbb : 0 <= value b < 2 ^ 128) by (split; [apply value_nonneg, Hb|apply (value_bound 2), Hb]).
  assert (Hout : 0 <= value out < 2 ^ 255).
  { rewrite Ev. apply xsum_bound; [lia|]. intros i Hi. pose proof (addend_bound a (value b) (S k + i) Hbb) as Hab.
    rewrite Z.shiftl_mul_pow2 by lia. split; [apply Z.mul_nonneg_nonneg; [lia|apply Z.pow_nonneg; lia]|].
    apply Z.lt_le_trans with (2 ^ 192 * 2 ^ (Z.of_nat i + 1)); [apply Z.mul_lt_mono_pos_r; [apply Z.pow_pos_nonneg; lia|lia]|].
    rewrite <- Z.pow_add_r by lia. apply Z.pow_le_mono_r; lia. }
  destruct (round_value a b out k Hb Hv ltac:(lia)) as [Hv' Ev']. set (out' := fold_left _ _ out) in *.
  assert (Er : gf_mul_round a b out k = shift_words 0 out') by (unfold gf_mul_round; fold out'; destruct k eqn:Ek; [lia|reflexivity]).
  rewrite Er. split; [apply (shift_words_vector out' false); assumption|].
  assert (Hlt : value out' < 2 ^ 255).
  { rewrite Ev'. apply pow2_bound; [lia|assumption|]. pose proof (addend_bound a (value b) k Hbb) as Hab. split; [lia|].
    apply Z.lt_trans with (2 ^ 192); [lia|]. now apply Z.pow_lt_mono_r. }
  rewrite (value_shift_words (2 * SEC_PARAM_64)) by (assumption || (unfold SEC_PARAM_64; lia)).
  rewrite Ev', Z.shiftl_lxor, Ev, xsum_shiftl, xsum_first, Z.lxor_comm, Nat.add_0_r. f_equal.
  apply xsum_ext. intros i _. rewrite Z.shiftl_shiftl by lia. replace (k + S i)%nat with (S k + i)%nat by lia. f_equal. lia.
Qed.

Lemma fold_left_rev {A B} (f : A -> B -> A) l a : fold_left f (rev l) a = fold_right (fun y x => f x y) a l.
Proof. induction l as [|x l IH]; [reflexivity|]. cbn [rev fold_right]. now rewrite fold_left_app, IH. Qed.

(** The last round completes the sum. *)
Lemma horner_last A n :
  Z.lxor (A O) (xsum (fun i => Z.shiftl (A (S i)) (Z.of_nat i + 1)) n) =
  xsum (fun i => Z.shiftl (A i) (Z.of_nat i)) (S n).
Proof.
  rewrite xsum_first, Z.shiftl_0_r. f_equal. apply xsum_ext. intros i _. now rewrite Nat2Z.inj_succ.
Qed.

Lemma addends_clmul a b : Forall is_word a ->
  xsum (fun i => Z.shiftl (addend a b i) (Z.of_nat i)) 64 = clmul (value a) b.
Proof.
  intros Ha. unfold clmul. change SECURITY_PARAMETER with (64 + 64)%nat. rewrite (xsum_add _ 64 64), <- (xsum_lxor _ _ 64).
  apply xsum_ext. intros i _. unfold addend. rewrite Z.shiftl_lxor, !testbit_value by assumption.
  f_equal; [destruct (vbit a i); [reflexivity|apply Z.shiftl_0_l]|].
  destruct (vbit a (64 + i)); [|apply Z.shiftl_0_l]. rewrite Z.shiftl_shiftl by lia. f_equal. lia.
Qed.

(** [gf_mul] is the carry-less product. *)
Lemma gf_mul_value a b : is_vector SEC_PARAM_64 a -> is_vector SEC_PARAM_64 b ->
  is_vector (2 * SEC_PARAM_64) (BitVector_gf_mul a b) /\ value (BitVector_gf_mul a b) = clmul (value a) (value b).
Proof.
  intros Ha Hb. unfold BitVector_gf_mul. rewrite fold_left_rev.
  destruct (rounds_value a b 63 Hb ltac:(lia)) as [Hv Ev].
  change (seq 0 64) with (0%nat :: seq (64 - 63) 63). cbn [fold_right]. set (out := fold_right _ _ _) in *.
  destruct (round_value a b out 0 Hb Hv ltac:(lia)) as [Hv' Ev']. split; [exact Hv'|].
  etransitivity; [exact Ev'|]. rewrite Ev, Z.lxor_comm, <- addends_clmul by apply Ha.
  exact (horner_last (addend a (value b)) 63).
Qed.

Lemma gf_mul_vector a b : is_vector SEC_PARAM_64 a -> is_vector SEC_PARAM_64 b ->
  is_vector (2 * SEC_PARAM_64) (BitVector_gf_mul a b).
Proof. intros Ha Hb. apply (gf_mul_value a b Ha Hb). Qed.

Lemma gf_mul_xor u v c : is_vector SEC_PARAM_64 u -> is_vector SEC_PARAM_64 v -> is_vector SEC_PARAM_64 c ->
  BitVector_gf_mul (BitVector_xor u v) c = DoubleBitVector_xor (BitVector_gf_mul u c) (BitVector_gf_mul v c).
Proof.
  intros Hu Hv Hc. pose proof (gf_mul_value u c Hu Hc) as [Vu Eu]. pose proof (gf_mul_value v c Hv Hc) as [Vv Ev].
  assert (Hx := xor_vector _ _ _ Hu Hv). pose proof (gf_mul_value _ c Hx Hc) as [Vx Ex].
  apply (value_inj (2 * SEC_PARAM_64)); [assumption|now apply xor_vector|]. unfold DoubleBitVector_xor.
  change (map2 Z.lxor) with BitVector_xor. rewrite (value_xor (2 * SEC_PARAM_64)), Ex, Eu, Ev by assumption.
  rewrite (value_xor SEC_PARAM_64) by assumption. apply clmul_lxor.
Qed.

Lemma gf_mul_zero c : is_vector SEC_PARAM_64 c -> BitVector_gf_mul BitVector_zero c = DoubleBitVector_zero.
Proof.
  intros Hc. pose proof (gf_mul_value _ c (zero_vector _) Hc) as [Vz Ez].
  apply (value_inj (2 * SEC_PARAM_64)); [assumption|apply zero_vector|]. unfold DoubleBitVector_zero.
  unfold BitVector_zero. rewrite Ez, !value_zero. apply clmul_0.
Qed.

(** ** The sums of the consistency check *)

(** [out ^= v_i.gf_mul(chi_i)] for all [i]. *)
Definition gf_sum (vs chi : list (list Z)) : list Z :=
  fold_left (fun out '(v_i, chi_i) => DoubleBitVector_xor out (BitVector_gf_mul v_i chi_i))
    (combine vs chi) DoubleBitVector_zero.

Section Sums.

Lemma xor4_swap a b c d : let n := (2 * SEC_PARAM_64)%nat in
  is_vector n a -> is_vector n b -> is_vector n c -> is_vector n d ->
  DoubleBitVector_xor (DoubleBitVector_xor a b) (DoubleBitVector_xor c d) =
  DoubleBitVector_xor (DoubleBitVector_xor a c) (DoubleBitVector_xor b d).
Proof.
  intros n Ha Hb Hc Hd. change DoubleBitVector_xor with BitVector_xor. apply (vector_ext n); [now repeat apply xor_vector..|]. intros j _.
  rewrite !(vbit_xor_n n) by (repeat apply xor_vector; assumption).
  destruct (vbit a j), (vbit b j), (vbit c j), (vbit d j); reflexivity.
Qed.

Lemma xor_zero_l n a : is_vector n a -> BitVector_xor (repeat 0 n) a = a.
Proof.
  intros Ha. apply (vector_ext n); [apply xor_vector; [apply zero_vector|assumption]|assumption|]. intros j _.
  rewrite (vbit_xor_n n), vbit_zero by (apply zero_vector || assumption). now destruct (vbit a j).
Qed.

Let sum_from (acc : list Z) (l : list (list Z * list Z)) : list Z :=
  fold_left (fun out '(v_i, chi_i) => DoubleBitVector_xor out (BitVector_gf_mul v_i chi_i)) l acc.

Lemma sum_from_vector vs chi acc : is_matrix vs -> is_matrix chi -> is_vector (2 * SEC_PARAM_64) acc ->
  is_vector (2 * SEC_PARAM_64) (sum_from acc (combine vs chi)).
Proof.
  intros Hvs. revert chi acc. induction Hvs as [|v vs Hv Hvs IH]; intros chi acc Hchi Hacc; [assumption|].
  destruct Hchi as [|c chi Hc Hchi]; [assumption|]. apply IH; [assumption|]. apply xor_vector; [assumption|now apply gf_mul_vector].
Qed.

Lemma sum_from_xor us vs chi acc acc' : is_matrix us -> is_matrix vs -> is_matrix chi -> length us = length vs ->
  is_vector (2 * SEC_PARAM_64) acc -> is_vector (2 * SEC_PARAM_64) acc' ->
  sum_from (DoubleBitVector_xor acc acc') (combine (map2 BitVector_xor us vs) chi) =
  DoubleBitVector_xor (sum_from acc (combine us chi)) (sum_from acc' (combine vs chi)).
Proof.
  intros Hus. revert vs chi acc acc'. induction Hus as [|u us Hu Hus IH]; intros vs chi acc acc' Hvs Hchi E Ha Ha'.
  { now destruct vs. }
  destruct Hvs as [|v vs Hv Hvs]; [discriminate|]. destruct Hchi as [|c chi Hc Hchi]; [reflexivity|]. injection E as E.
  change (map2 BitVector_xor (u :: us) (v :: vs)) with (BitVector_xor u v :: map2 BitVector_xor us vs).
  cbn [combine]. unfold sum_from in *. cbn [fold_left]. rewrite gf_mul_xor by assumption.
  assert (Gu := gf_mul_vector _ _ Hu Hc). assert (Gv := gf_mul_vector _ _ Hv Hc).
  rewrite (xor4_swap acc acc' _ _ Ha Ha' Gu Gv). apply IH; try assumption; now apply xor_vector.
Qed.

Lemma gf_sum_vector vs chi : is_matrix vs -> is_matrix chi -> is_vector (2 * SEC_PARAM_64) (gf_sum vs chi).
Proof. intros Hv Hc. apply sum_from_vector; [assumption..|apply zero_vector]. Qed.

Lemma gf_sum_xor us vs chi : is_matrix us -> is_matrix vs -> is_matrix chi -> length us = length vs ->
  gf_sum (map2 BitVector_xor us vs) chi = DoubleBitVector_xor (gf_sum us chi) (gf_sum vs chi).
Proof.
  intros Hu Hv Hc E. unfold gf_sum at 1.
  assert (Z0 : DoubleBitVector_zero = DoubleBitVector_xor DoubleBitVector_zero DoubleBitVector_zero) by reflexivity.
  rewrite Z0. apply sum_from_xor; try assumption; apply zero_vector.
Qed.

Lemma gf_sum_zeros n chi : is_matrix chi -> gf_sum (repeat BitVector_zero n) chi = DoubleBitVector_zero.
Proof.
  intros Hc. revert n. unfold gf_sum. induction Hc as [|c chi Hc' Hc IH]; intros n; [now destruct n|]. destruct n as [|n]; [reflexivity|].
  cbn [repeat combine fold_left]. rewrite gf_mul_zero by assumption. apply IH.
Qed.
End Sums.

(** Columns of a matrix to which the choices of the other party were added. *)
Lemma column_chunks_matrix m j : is_matrix (BitMatrix_column_chunks m j).
Proof. apply Forall_map, Forall_forall. intros chunk _. apply column_vector. Qed.

Lemma nth_column_chunks m j c : (c < length m / SECURITY_PARAMETER)%nat ->
  nth c (BitMatrix_column_chunks m j) [] =
    column_of_chunk (firstn SECURITY_PARAMETER (skipn (SECURITY_PARAMETER * c) m)) j.
Proof.
  intros Hc. unfold BitMatrix_column_chunks. rewrite (nth_indep _ [] (column_of_chunk [] j))
    by (rewrite length_map, length_chunks_exact; assumption).
  rewrite (map_nth (fun chunk => column_of_chunk chunk j) _ []). now rewrite nth_chunks_exact.
Qed.

Lemma mbit_column_chunks m j c i : (c < length m / SECURITY_PARAMETER)%nat -> (i < SECURITY_PARAMETER)%nat ->
  mbit (BitMatrix_column_chunks m j) c i = mbit m (SECURITY_PARAMETER * c + i) j.
Proof.
  intros Hc Hi. unfold mbit at 1. rewrite nth_column_chunks by assumption.
  assert (Hle : (SECURITY_PARAMETER * (c + 1) <= length m)%nat).
  { pose proof (Nat.Div0.mul_div_le (length m) SECURITY_PARAMETER) as Hd. etransitivity; [|exact Hd].
    apply Nat.mul_le_mono_l. lia. }
  assert (L : length (firstn SECURITY_PARAMETER (skipn (SECURITY_PARAMETER * c) m)) = SECURITY_PARAMETER)
    by (rewrite length_firstn, length_skipn; lia).
  rewrite vbit_column, L, (proj2 (Nat.ltb_lt i _)) by (rewrite ?L; auto). cbn [andb]. unfold mbit.
  f_equal. rewrite nth_firstn, (proj2 (Nat.ltb_lt i _)) by assumption. now rewrite nth_skipn.
Qed.

Lemma map_select c b : is_matrix b ->
  map (fun v => BitVector_conditional_select BitVector_zero v c) b = if c then b else repeat BitVector_zero (length b).
Proof.
  induction 1 as [|v b Hv Hb IH]; [now destruct c|]. cbn [map]. rewrite IH, select_spec by (symmetry; apply Hv).
  now destruct c.
Qed.

Section Check.
Context (t b : list (list Z)) (delta : list Z).
Context (Ht : is_matrix t) (Hb : is_matrix b) (Hd : is_vector SEC_PARAM_64 delta).
Context (Hlen : length t = (SECURITY_PARAMETER * length b)%nat).

Let x := choice_matrix (ChoiceVector_bits b).
Let q := BitMatrix_xor t (BitMatrix_and_vec x delta).

Lemma length_choices : length x = length t.
Proof. unfold x, choice_matrix. now rewrite length_map, length_choice_bits. Qed.

Lemma length_correlated : length q = length t.
Proof. apply length_xor. rewrite length_and_vec. symmetry. apply length_choices. Qed.

Lemma chunk_count : (length t / SECURITY_PARAMETER)%nat = length b.
Proof. rewrite Hlen, Nat.mul_comm. apply Nat.div_mul. unfold SECURITY_PARAMETER. lia. Qed.

Lemma correlated_matrix : is_matrix q.
Proof. apply xor_matrix; [assumption|]. apply and_vec_matrix; [apply choice_matrix_ok|assumption]. Qed.

Lemma mbit_correlated i j : (i < length t)%nat -> (j < SECURITY_PARAMETER)%nat ->
  mbit q i j = xorb (mbit t i j) (nth i (ChoiceVector_bits b) false && vbit delta j).
Proof.
  intros Hi Hj. assert (Hx : is_matrix x) by apply choice_matrix_ok. pose proof length_choices as Lx.
  unfold q. rewrite mbit_xor, mbit_and_vec by (try apply and_vec_matrix; rewrite ?length_and_vec; congruence).
  unfold x. rewrite mbit_choice_matrix by (rewrite ?length_choice_bits by assumption; congruence || lia). reflexivity.
Qed.

Lemma column_correlation j : (j < SECURITY_PARAMETER)%nat ->
  BitMatrix_column_chunks q j =
  map2 BitVector_xor (BitMatrix_column_chunks t j)
    (map (fun c => BitVector_conditional_select BitVector_zero c (vbit delta j)) b).
Proof.
  intros Hj. set (sb := map _ b).
  assert (Hsb : is_matrix sb) by (apply Forall_map; eapply Forall_impl; [|exact Hb]; intros c Hc; now apply select_zero_vector).
  assert (Lsb : length sb = length b) by apply length_map.
  assert (Lt : length (BitMatrix_column_chunks t j) = length b)
    by (unfold BitMatrix_column_chunks; rewrite length_map, length_chunks_exact; apply chunk_count).
  assert (Lq : length (BitMatrix_column_chunks q j) = length b)
    by (unfold BitMatrix_column_chunks; rewrite length_map, length_chunks_exact, length_correlated; apply chunk_count).
  assert (Htc := column_chunks_matrix t j). change (map2 BitVector_xor) with BitMatrix_xor.
  apply matrix_ext; [apply column_chunks_matrix|now apply xor_matrix|rewrite length_xor; congruence|].
  rewrite Lq. intros c i Hc Hi. rewrite mbit_xor by (assumption || congruence).
  rewrite !mbit_column_chunks by (rewrite ?length_correlated, ?chunk_count; assumption).
  rewrite mbit_correlated by (assumption || nia). rewrite nth_choice_bits by assumption. f_equal.
  unfold mbit at 2, sb. rewrite (nth_indep _ [] (BitVector_conditional_select BitVector_zero [] (vbit delta j)))
    by now rewrite length_map.
  rewrite (map_nth (fun c => BitVector_conditional_select BitVector_zero c (vbit delta j)) b []).
  now rewrite vbit_select_zero by now apply nth_vector.
Qed.

Lemma gf_sum_select c chi : is_matrix chi ->
  gf_sum (map (fun v => BitVector_conditional_select BitVector_zero v c) b) chi =
  DoubleBitVector_conditional_select DoubleBitVector_zero (gf_sum b chi) c.
Proof.
  intros Hchi. destruct (gf_sum_vector b chi Hb Hchi) as [L _].
  change (DoubleBitVector_conditional_select DoubleBitVector_zero) with (BitVector_conditional_select DoubleBitVector_zero).
  rewrite (select_spec DoubleBitVector_zero) by (symmetry; exact L).
  assert (E : map (fun v => BitVector_conditional_select BitVector_zero v c) b = if c then b else repeat BitVector_zero (length b)).
  { now apply map_select. }
  rewrite E. destruct c; [reflexivity|]. now apply gf_sum_zeros.
Qed.

(** The check of the sender: the sums over its own matrix are those of the receiver, corrected by
    its choice bits. *)
Lemma consistency_check j chi : (j < SECURITY_PARAMETER)%nat -> is_matrix chi ->
  gf_sum (BitMatrix_column_chunks q j) chi =
  DoubleBitVector_xor (gf_sum (BitMatrix_column_chunks t j) chi)
    (DoubleBitVector_conditional_select DoubleBitVector_zero (gf_sum b chi) (vbit delta j)).
Proof.
  intros Hj Hchi. rewrite column_correlation by assumption. rewrite gf_sum_xor; [now rewrite gf_sum_select|..]; try assumption.
  - apply column_chunks_matrix.
  - apply Forall_map. eapply Forall_impl; [|exact Hb]. intros c Hc. now apply select_zero_vector.
  - unfold BitMatrix_column_chunks. rewrite !length_map, length_chunks_exact. apply chunk_count.
Qed.
End Check.

Lemma DoubleBitVector_eqb_refl v : DoubleBitVector_eqb v v = true.
Proof.
  unfold DoubleBitVector_eqb. apply forallb_forall. intros [a b] Hin.
  assert (a = b) as -> by (clear -Hin; induction v; simpl in Hin; [easy|destruct Hin as [[= <- <-]|?]; auto]).
  apply Z.eqb_refl.
Qed.

(** C35: [gf_mul], which keeps a double-width accumulator and shifts it by one bit per round, is the
    carry-less product: the sum, without carries, of the second factor shifted to each bit of the
    first.  For vectors of two words the result has four words and nothing is lost. *)
Theorem gf_mul_is_carryless_product a b : is_vector SEC_PARAM_64 a -> is_vector SEC_PARAM_64 b ->
  is_vector (2 * SEC_PARAM_64) (BitVector_gf_mul a b) /\
  forall j, vbit (BitVector_gf_mul a b) j = Z.testbit (clmul (value a) (value b)) (Z.of_nat j).
Proof.
  intros Ha Hb. destruct (gf_mul_value a b Ha Hb) as [Hv Ev]. split; [exact Hv|].
  intros j. rewrite <- Ev. symmetry. apply testbit_value. apply Hv.
Qed.

Lemma gf_mul_is_carryless_product_witness :
  is_vector (2 * SEC_PARAM_64) (BitVector_gf_mul [2 ^ 63 + 5; 1] [3; 2 ^ 63]) /\
  vbit (BitVector_gf_mul [2 ^ 63 + 5; 1] [3; 2 ^ 63]) 191 =
    Z.testbit (clmul (value [2 ^ 63 + 5; 1]) (value [3; 2 ^ 63])) 191.
Proof.
  destruct (gf_mul_is_carryless_product [2 ^ 63 + 5; 1] [3; 2 ^ 63]) as [Hv Hj];
    [split; [reflexivity|]; repeat constructor; unfold is_word; lia .. |].
  split; [exact Hv|exact (Hj 191%nat)].
Defined.
