(* ===== verification/Transcript.v ===== *)
(** * Threshold signatures: transcripts

    [crypto/proofs/strobe.rs] and [crypto/proofs/strobe_transcript.rs]: the Strobe sponge over
    Keccak-f[1600], transcripts for Fiat-Shamir challenges, and the random number generator made
    of them.  The permutation comes from the [keccak] crate and is the class [Keccak].
    Indexing, the additions on [u8] and the assertions may panic; the second
    half of the file shows that they never do. *)

From Stdlib Require Import ZArith Lia Bool String Ascii List.
From S2P Require Import TsTypes TripleBits.
Import ListNotations.
Open Scope Z_scope.
Open Scope ts_scope.

(** [keccak::f1600]. *)
Class Keccak : Type := { keccak_f1600 : list Z -> list Z }.

(** It maps 25 words to 25 words. *)
Class KeccakLaws `{Keccak} : Prop := {
  keccak_words w : is_vector 25 w -> is_vector 25 (keccak_f1600 w);
}.

Fixpoint ascii_bytes (s : string) : list Z :=
  match s with
  | EmptyString => []
  | String c s => Z.of_N (N_of_ascii c) :: ascii_bytes s
  end.

Definition STROBE_R : Z := 166.
Definition FLAG_I : Z := 1.
Definition FLAG_A : Z := 2.
Definition FLAG_C : Z := 4.
Definition FLAG_T : Z := 8.
Definition FLAG_M : Z := 16.
Definition FLAG_K : Z := 32.

(** Additions on [u8]. *)
Definition u8_add (a b : Z) : result ProtocolError Z :=
  if 255 <? a + b then Panic "attempt to add with overflow"%string else Ok (a + b).

Section Strobe.
Context `{Keccak}.

(** ** [Strobe128] *)

Record Strobe128 : Type := mkStrobe128 {
  sb_state : list Z;
  sb_pos : Z;
  sb_pos_begin : Z;
  sb_cur_flags : Z;
}.

Definition transmute_state (st : list Z) : list Z := map u64_from_le_bytes (chunks_exact 8 st).
Definition untransmute_state (words : list Z) : list Z := flat_map u64_to_le_bytes words.
Definition keccak_f1600_wrapper (st : list Z) : list Z :=
  untransmute_state (keccak_f1600 (transmute_state st)).

(** [state[i] = f(state[i])]. *)
Definition state_update (st : list Z) (i : Z) (f : Z -> Z) : result ProtocolError (list Z) :=
  if (0 <=? i) && (i <? Z.of_nat (length st)) then Ok (update_nth (Z.to_nat i) f st)
  else Panic "index out of bounds"%string.

Definition Strobe128_run_f (s : Strobe128) : result ProtocolError Strobe128 :=
  let* st := state_update (sb_state s) (sb_pos s) (fun x => Z.lxor x (sb_pos_begin s)) in
  let* next := u8_add (sb_pos s) 1 in
  let* st := state_update st next (fun x => Z.lxor x 0x04) in
  let* last := u8_add STROBE_R 1 in
  let* st := state_update st last (fun x => Z.lxor x 0x80) in
  Ok (mkStrobe128 (keccak_f1600_wrapper st) 0 0 (sb_cur_flags s)).

(** One byte of [absorb], [overwrite] and [squeeze]: the byte at the position is changed and the
    position advances. *)
Definition Strobe128_byte (f : Z -> Z) (s : Strobe128) : result ProtocolError Strobe128 :=
  let* st := state_update (sb_state s) (sb_pos s) f in
  let* pos := u8_add (sb_pos s) 1 in
  let s := mkStrobe128 st pos (sb_pos_begin s) (sb_cur_flags s) in
  if pos =? STROBE_R then Strobe128_run_f s else Ok s.

Fixpoint Strobe128_absorb (data : list Z) (s : Strobe128) : result ProtocolError Strobe128 :=
  match data with
  | [] => Ok s
  | byte :: data => let* s := Strobe128_byte (fun x => Z.lxor x byte) s in Strobe128_absorb data s
  end.

Fixpoint Strobe128_overwrite (data : list Z) (s : Strobe128) : result ProtocolError Strobe128 :=
  match data with
  | [] => Ok s
  | byte :: data => let* s := Strobe128_byte (fun _ => byte) s in Strobe128_overwrite data s
  end.

Fixpoint Strobe128_squeeze (n : nat) (s : Strobe128) : result ProtocolError (list Z * Strobe128) :=
  match n with
  | O => Ok ([], s)
  | S n =>
    if (0 <=? sb_pos s) && (sb_pos s <? Z.of_nat (length (sb_state s))) then
      let byte := nth (Z.to_nat (sb_pos s)) (sb_state s) 0 in
      let* s := Strobe128_byte (fun _ => 0) s in
      let* r := Strobe128_squeeze n s in
      Ok (byte :: fst r, snd r)
    else Panic "index out of bounds"%string
  end.

Definition Strobe128_begin_op (flags : Z) (more : bool) (s : Strobe128) : result ProtocolError Strobe128 :=
  if more then
    if sb_cur_flags s =? flags then Ok s else Panic "You tried to continue op but changed flags"%string
  else if negb (Z.land flags FLAG_T =? 0) then
    Panic "You used the T flag, which this implementation doesn't support"%string
  else
    let old_begin := sb_pos_begin s in
    let* pos_begin := u8_add (sb_pos s) 1 in
    let s := mkStrobe128 (sb_state s) (sb_pos s) pos_begin flags in
    let* s := Strobe128_absorb [old_begin; flags] s in
    let force_f := negb (Z.land flags (Z.lor FLAG_C FLAG_K) =? 0) in
    if force_f && negb (sb_pos s =? 0) then Strobe128_run_f s else Ok s.

Definition Strobe128_meta_ad (data : list Z) (more : bool) (s : Strobe128) : result ProtocolError Strobe128 :=
  let* s := Strobe128_begin_op (Z.lor FLAG_M FLAG_A) more s in Strobe128_absorb data s.

Definition Strobe128_ad (data : list Z) (more : bool) (s : Strobe128) : result ProtocolError Strobe128 :=
  let* s := Strobe128_begin_op FLAG_A more s in Strobe128_absorb data s.

Definition Strobe128_prf (n : nat) (more : bool) (s : Strobe128) : result ProtocolError (list Z * Strobe128) :=
  let* s := Strobe128_begin_op (Z.lor (Z.lor FLAG_I FLAG_A) FLAG_C) more s in Strobe128_squeeze n s.

Definition Strobe128_key (data : list Z) (more : bool) (s : Strobe128) : result ProtocolError Strobe128 :=
  let* s := Strobe128_begin_op (Z.lor FLAG_A FLAG_C) more s in Strobe128_overwrite data s.

Definition Strobe128_new (protocol_label : list Z) : result ProtocolError Strobe128 :=
  let st := [1; STROBE_R + 2; 1; 0; 1; 96] ++ ascii_bytes "STROBEv1.0.2"%string ++ repeat 0 182 in
  Strobe128_meta_ad protocol_label false (mkStrobe128 (keccak_f1600_wrapper st) 0 0 0).

(** ** [Transcript] and [TranscriptRng], which consist of a Strobe context *)

Definition encode_array_len_as_u32 (len : nat) : result ProtocolError (list Z) :=
  if Z.of_nat len <? 2 ^ 32 then Ok (le_bytes_of 4 (Z.of_nat len))
  else Panic "array.len() should always fit in u32 here"%string.

Definition Transcript_message (label message : list Z) (t : Strobe128) : result ProtocolError Strobe128 :=
  let* data_len := encode_array_len_as_u32 (length message) in
  let* t := Strobe128_meta_ad label false t in
  let* t := Strobe128_meta_ad data_len true t in
  Strobe128_ad message false t.

Definition Transcript_new (label : list Z) : result ProtocolError Strobe128 :=
  let* t := Strobe128_new (ascii_bytes "Mini-Merlin"%string) in
  Transcript_message (ascii_bytes "dom-sep"%string) label t.

Definition Transcript_challenge (label : list Z) (n : nat) (t : Strobe128) :
    result ProtocolError (list Z * Strobe128) :=
  let* data_len := encode_array_len_as_u32 n in
  let* t := Strobe128_meta_ad label false t in
  let* t := Strobe128_meta_ad data_len true t in
  Strobe128_prf n false t.

Definition Transcript_fork (label data : list Z) (t : Strobe128) : result ProtocolError Strobe128 :=
  Transcript_message label data t.

Definition Transcript_build_rng (seed : list Z) (t : Strobe128) : result ProtocolError Strobe128 :=
  let* t := Strobe128_meta_ad (ascii_bytes "rng from seed"%string) false t in
  Strobe128_key seed false t.

Definition Transcript_challenge_then_build_rng (challenge_label : list Z) (t : Strobe128) :
    result ProtocolError Strobe128 :=
  let* r := Transcript_challenge challenge_label 32 t in
  Transcript_build_rng (fst r) (snd r).

Definition TranscriptRng_new (seed : list Z) : result ProtocolError Strobe128 :=
  let* t := Transcript_new (ascii_bytes "direct RNG from seed"%string) in
  Transcript_build_rng seed t.

Definition TranscriptRng_fill_bytes (n : nat) (rng : Strobe128) : result ProtocolError (list Z * Strobe128) :=
  let* dest_len := encode_array_len_as_u32 n in
  let* rng := Strobe128_meta_ad dest_len false rng in
  Strobe128_prf n false rng.

(** [next_u64_via_fill]. *)
Definition TranscriptRng_next_u64 (rng : Strobe128) : result ProtocolError (Z * Strobe128) :=
  let* r := TranscriptRng_fill_bytes 8 rng in
  Ok (u64_from_le_bytes (fst r), snd r).
End Strobe.

(** ** Threshold signatures: transcripts never panic

    The invariant of the sponge, and that every sequence of operations on transcripts succeeds and
    returns as many bytes as were asked for. *)

Definition is_byte (b : Z) : Prop := 0 <= b < 256.
Definition is_bytes (l : list Z) : Prop := Forall is_byte l.

Lemma byte_bits b : is_byte b <-> 0 <= b /\ Z.shiftr b 8 = 0.
Proof.
  unfold is_byte. rewrite Z.shiftr_div_pow2 by lia. change (2 ^ 8) with 256. split.
  - intros Hb. split; [lia|]. apply Z.div_small. lia.
  - intros [Hb Hd]. apply Z.div_small_iff in Hd; lia.
Qed.

Lemma lxor_byte a b : is_byte a -> is_byte b -> is_byte (Z.lxor a b).
Proof.
  rewrite !byte_bits. intros [Ha Ea] [Hb Eb]. split; [apply Z.lxor_nonneg; lia|]. now rewrite Z.shiftr_lxor, Ea, Eb.
Qed.

Lemma ascii_is_bytes s : is_bytes (ascii_bytes s).
Proof.
  induction s as [|c s IH]; constructor; [|exact IH]. pose proof (N_ascii_bounded c). unfold is_byte. lia.
Qed.

Lemma le_bytes_is_bytes n x : is_bytes (le_bytes_of n x).
Proof. revert x. induction n as [|n IH]; intros x; constructor; [apply Z.mod_pos_bound; lia|apply IH]. Qed.

Lemma length_le_bytes n x : length (le_bytes_of n x) = n.
Proof. revert x. induction n as [|n IH]; intros x; simpl; congruence. Qed.

Lemma from_le_bytes_bound l : is_bytes l -> 0 <= u64_from_le_bytes l < 256 ^ Z.of_nat (length l).
Proof.
  induction 1 as [|b l Hb Hl IH]; [simpl; lia|]. cbn [u64_from_le_bytes length]. unfold is_byte in Hb.
  rewrite Nat2Z.inj_succ, Z.pow_succ_r by lia. lia.
Qed.

Lemma from_le_bytes_word l : is_bytes l -> length l = 8%nat -> is_word (u64_from_le_bytes l).
Proof. intros Hl E. pose proof (from_le_bytes_bound l Hl) as Hb. rewrite E in Hb. exact Hb. Qed.

Lemma is_bytes_app l k : is_bytes l -> is_bytes k -> is_bytes (l ++ k).
Proof. intros. now apply Forall_app. Qed.

Lemma update_nth_bytes i f l : is_bytes l -> (forall b, is_byte b -> is_byte (f b)) -> is_bytes (update_nth i f l).
Proof. intros Hl Hf. now apply Forall_update_nth. Qed.

Section Proofs.
Context `{KeccakLaws}.

(** ** The invariant *)

Definition state_ok (st : list Z) : Prop := length st = 200%nat /\ is_bytes st.

Definition Strobe_ok (s : Strobe128) : Prop :=
  state_ok (sb_state s) /\ 0 <= sb_pos s < STROBE_R /\ is_byte (sb_pos_begin s).

Lemma wrapper_ok st : state_ok st -> state_ok (keccak_f1600_wrapper st).
Proof.
  intros [L Hb]. assert (Hv : is_vector 25 (transmute_state st)).
  { split; [unfold transmute_state; rewrite length_map, length_chunks_exact, L; reflexivity|].
    apply Forall_map, Forall_map, Forall_forall. intros i Hi. apply in_seq in Hi. rewrite L in Hi. simpl in Hi.
    apply from_le_bytes_word; [|rewrite length_firstn, length_skipn; lia].
    apply Forall_forall. intros b Hin. unfold is_bytes in Hb. rewrite Forall_forall in Hb. apply Hb.
    rewrite <- (firstn_skipn (8 * i) st). apply in_or_app. right.
    rewrite <- (firstn_skipn 8 (skipn (8 * i) st)). apply in_or_app. now left. }
  apply keccak_words in Hv as [Lw _]. unfold keccak_f1600_wrapper, untransmute_state. split.
  - rewrite (length_flat_map_const _ _ 8); [now rewrite Lw|]. intros x _. apply length_le_bytes.
  - apply Forall_flat_map, Forall_forall. intros w _. apply le_bytes_is_bytes.
Qed.

Lemma state_update_ok st i f : state_ok st -> 0 <= i < 200 -> (forall b, is_byte b -> is_byte (f b)) ->
  exists st', state_update st i f = Ok st' /\ state_ok st'.
Proof.
  intros [L Hb] Hi Hf. unfold state_update. rewrite L, (proj2 (Z.leb_le 0 i)), (proj2 (Z.ltb_lt i _)) by lia.
  eexists. split; [reflexivity|]. split; [now rewrite length_update_nth|now apply update_nth_bytes].
Qed.

Lemma u8_add_ok a b : a + b <= 255 -> u8_add a b = Ok (a + b).
Proof. intros Hab. unfold u8_add. now rewrite (proj2 (Z.ltb_ge _ _)). Qed.

Lemma run_f_ok s : state_ok (sb_state s) -> 0 <= sb_pos s <= STROBE_R -> is_byte (sb_pos_begin s) ->
  exists s', Strobe128_run_f s = Ok s' /\ Strobe_ok s' /\ sb_cur_flags s' = sb_cur_flags s.
Proof.
  unfold STROBE_R. intros Hst Hpos Hbeg. unfold Strobe128_run_f.
  destruct (state_update_ok (sb_state s) (sb_pos s) (fun x => Z.lxor x (sb_pos_begin s))) as (st1 & -> & H1);
    [assumption|lia|intros; now apply lxor_byte|]. cbn [rbind].
  rewrite u8_add_ok by lia. cbn [rbind].
  destruct (state_update_ok st1 (sb_pos s + 1) (fun x => Z.lxor x 4)) as (st2 & -> & H2);
    [assumption|lia|intros; apply lxor_byte; [assumption|unfold is_byte; lia]|]. cbn [rbind].
  rewrite (u8_add_ok STROBE_R 1) by (unfold STROBE_R; lia). cbn [rbind].
  destruct (state_update_ok st2 (STROBE_R + 1) (fun x => Z.lxor x 128)) as (st3 & -> & H3);
    [assumption|unfold STROBE_R; lia|intros; apply lxor_byte; [assumption|unfold is_byte; lia]|]. cbn [rbind].
  eexists. split; [reflexivity|]. split; [|reflexivity]. split; [now apply wrapper_ok|].
  unfold STROBE_R, is_byte. simpl. lia.
Qed.

(** What every step of an operation gives. *)
Definition fine (s : Strobe128) (r : result ProtocolError Strobe128) : Prop :=
  exists s', r = Ok s' /\ Strobe_ok s' /\ sb_cur_flags s' = sb_cur_flags s.

Lemma byte_fine f s : Strobe_ok s -> (forall b, is_byte b -> is_byte (f b)) -> fine s (Strobe128_byte f s).
Proof.
  intros (Hst & Hpos & Hbeg) Hf. unfold STROBE_R in Hpos. unfold Strobe128_byte.
  destruct (state_update_ok (sb_state s) (sb_pos s) f) as (st & -> & H1); [assumption|lia|assumption|]. cbn [rbind].
  rewrite u8_add_ok by lia. cbn [rbind]. destruct (Z.eqb_spec (sb_pos s + 1) STROBE_R) as [E|N].
  - apply (run_f_ok (mkStrobe128 st (sb_pos s + 1) (sb_pos_begin s) (sb_cur_flags s))); simpl; [assumption|lia|assumption].
  - eexists. split; [reflexivity|]. split; [|reflexivity]. split; [assumption|]. unfold STROBE_R in *. simpl. split; [lia|assumption].
Qed.

Lemma absorb_fine data s : is_bytes data -> Strobe_ok s -> fine s (Strobe128_absorb data s).
Proof.
  intros Hd. revert s. induction Hd as [|b data Hb Hd IH]; intros s Hs; [now exists s|]. cbn [Strobe128_absorb].
  destruct (byte_fine (fun x => Z.lxor x b) s Hs) as (s1 & -> & H1 & E1); [intros; now apply lxor_byte|]. cbn [rbind].
  destruct (IH s1 H1) as (s2 & -> & H2 & E2). exists s2. split; [reflexivity|]. split; [assumption|congruence].
Qed.

Lemma overwrite_fine data s : is_bytes data -> Strobe_ok s -> fine s (Strobe128_overwrite data s).
Proof.
  intros Hd. revert s. induction Hd as [|b data Hb Hd IH]; intros s Hs; [now exists s|]. cbn [Strobe128_overwrite].
  destruct (byte_fine (fun _ => b) s Hs) as (s1 & -> & H1 & E1); [now intros|]. cbn [rbind].
  destruct (IH s1 H1) as (s2 & -> & H2 & E2). exists s2. split; [reflexivity|]. split; [assumption|congruence].
Qed.

(** Operations that return bytes. *)
Definition fine_bytes (n : nat) (r : result ProtocolError (list Z * Strobe128)) : Prop :=
  exists out s', r = Ok (out, s') /\ Strobe_ok s' /\ length out = n /\ is_bytes out.

Lemma squeeze_fine n s : Strobe_ok s -> fine_bytes n (Strobe128_squeeze n s).
Proof.
  revert s. induction n as [|n IH]; intros s Hs; [exists [], s; repeat split; try apply Hs; constructor|].
  pose proof Hs as ([L Hb] & Hpos & Hbeg). cbn [Strobe128_squeeze]. unfold STROBE_R in Hpos.
  rewrite L, (proj2 (Z.leb_le 0 (sb_pos s))), (proj2 (Z.ltb_lt (sb_pos s) _)) by lia. cbn [andb].
  destruct (byte_fine (fun _ => 0) s Hs) as (s1 & -> & H1 & _); [intros; unfold is_byte; lia|]. cbn [rbind].
  destruct (IH s1 H1) as (out & s2 & -> & H2 & L2 & B2). cbn [rbind fst snd].
  exists (nth (Z.to_nat (sb_pos s)) (sb_state s) 0 :: out), s2. split; [reflexivity|]. split; [assumption|].
  split; [simpl; congruence|]. constructor; [|assumption]. unfold is_bytes in Hb. rewrite Forall_forall in Hb. apply Hb, nth_In. lia.
Qed.

Lemma begin_op_fine flags s : is_byte flags -> Z.land flags FLAG_T = 0 -> Strobe_ok s ->
  exists s', Strobe128_begin_op flags false s = Ok s' /\ Strobe_ok s' /\ sb_cur_flags s' = flags.
Proof.
  intros Hf HT (Hst & Hpos & Hbeg). unfold Strobe128_begin_op. rewrite HT. cbn [Z.eqb negb].
  unfold STROBE_R in Hpos. rewrite u8_add_ok by lia. cbn [rbind].
  set (s0 := mkStrobe128 (sb_state s) (sb_pos s) (sb_pos s + 1) flags).
  assert (Hs0 : Strobe_ok s0) by (split; [assumption|]; unfold STROBE_R, is_byte; simpl; lia).
  destruct (absorb_fine [sb_pos_begin s; flags] s0) as (s1 & -> & H1 & E1); [apply Forall_cons; [assumption|]; apply Forall_cons; [assumption|constructor]|exact Hs0|]. cbn [rbind].
  destruct (_ && _).
  - destruct H1 as (Hst1 & Hpos1 & Hbeg1). destruct (run_f_ok s1) as (s2 & -> & H2 & E2); [assumption|lia|assumption|].
    exists s2. split; [reflexivity|]. split; [assumption|unfold s0 in E1; simpl in E1; congruence].
  - exists s1. split; [reflexivity|]. split; [assumption|unfold s0 in E1; simpl in E1; congruence].
Qed.

(** ** The operations *)

Lemma meta_ad_fine data s : is_bytes data -> Strobe_ok s ->
  exists s', Strobe128_meta_ad data false s = Ok s' /\ Strobe_ok s' /\ sb_cur_flags s' = Z.lor FLAG_M FLAG_A.
Proof.
  intros Hd Hs. unfold Strobe128_meta_ad.
  destruct (begin_op_fine (Z.lor FLAG_M FLAG_A) s) as (s1 & -> & H1 & E1); [unfold is_byte; simpl; lia|reflexivity|assumption|].
  cbn [rbind]. destruct (absorb_fine data s1 Hd H1) as (s2 & -> & H2 & E2). exists s2. split; [reflexivity|]. split; [assumption|congruence].
Qed.

Lemma meta_ad_more_fine data s : is_bytes data -> Strobe_ok s -> sb_cur_flags s = Z.lor FLAG_M FLAG_A ->
  exists s', Strobe128_meta_ad data true s = Ok s' /\ Strobe_ok s'.
Proof.
  intros Hd Hs E. unfold Strobe128_meta_ad, Strobe128_begin_op. rewrite E, Z.eqb_refl. cbn [rbind].
  destruct (absorb_fine data s Hd Hs) as (s2 & -> & H2 & _). now exists s2.
Qed.

Lemma ad_fine data s : is_bytes data -> Strobe_ok s -> exists s', Strobe128_ad data false s = Ok s' /\ Strobe_ok s'.
Proof.
  intros Hd Hs. unfold Strobe128_ad.
  destruct (begin_op_fine FLAG_A s) as (s1 & -> & H1 & _); [unfold is_byte, FLAG_A; lia|reflexivity|assumption|].
  cbn [rbind]. destruct (absorb_fine data s1 Hd H1) as (s2 & -> & H2 & _). now exists s2.
Qed.

Lemma prf_fine n s : Strobe_ok s -> fine_bytes n (Strobe128_prf n false s).
Proof.
  intros Hs. unfold Strobe128_prf.
  destruct (begin_op_fine (Z.lor (Z.lor FLAG_I FLAG_A) FLAG_C) s) as (s1 & -> & H1 & _);
    [unfold is_byte; simpl; lia|reflexivity|assumption|]. now apply squeeze_fine.
Qed.

Lemma key_fine data s : is_bytes data -> Strobe_ok s -> exists s', Strobe128_key data false s = Ok s' /\ Strobe_ok s'.
Proof.
  intros Hd Hs. unfold Strobe128_key.
  destruct (begin_op_fine (Z.lor FLAG_A FLAG_C) s) as (s1 & -> & H1 & _); [unfold is_byte; simpl; lia|reflexivity|assumption|].
  cbn [rbind]. destruct (overwrite_fine data s1 Hd H1) as (s2 & -> & H2 & _). now exists s2.
Qed.

Lemma encode_len_ok n : Z.of_nat n < 2 ^ 32 ->
  exists b, encode_array_len_as_u32 n = Ok b /\ is_bytes b.
Proof.
  intros Hn. unfold encode_array_len_as_u32. rewrite (proj2 (Z.ltb_lt _ _)) by assumption.
  eexists. split; [reflexivity|apply le_bytes_is_bytes].
Qed.

(** Data that fits a message. *)
Definition short (data : list Z) : Prop := is_bytes data /\ Z.of_nat (length data) < 2 ^ 32.

Lemma label_and_length label n s : is_bytes label -> Z.of_nat n < 2 ^ 32 -> Strobe_ok s ->
  exists b s1 s2, encode_array_len_as_u32 n = Ok b /\ Strobe128_meta_ad label false s = Ok s1 /\
    Strobe128_meta_ad b true s1 = Ok s2 /\ Strobe_ok s2.
Proof.
  intros Hl Hn Hs. destruct (encode_len_ok n Hn) as (b & Eb & Hb). destruct (meta_ad_fine label s Hl Hs) as (s1 & E1 & H1 & F1).
  destruct (meta_ad_more_fine b s1 Hb H1 F1) as (s2 & E2 & H2). now exists b, s1, s2.
Qed.

Lemma message_fine label message t : is_bytes label -> short message -> Strobe_ok t ->
  exists t', Transcript_message label message t = Ok t' /\ Strobe_ok t'.
Proof.
  intros Hl [Hm Hlen] Ht. destruct (label_and_length label (length message) t Hl Hlen Ht) as (b & s1 & s2 & Eb & E1 & E2 & H2).
  unfold Transcript_message. rewrite Eb. cbn [rbind]. rewrite E1. cbn [rbind]. rewrite E2. cbn [rbind]. now apply ad_fine.
Qed.

Lemma challenge_fine label n t : is_bytes label -> Z.of_nat n < 2 ^ 32 -> Strobe_ok t -> fine_bytes n (Transcript_challenge label n t).
Proof.
  intros Hl Hn Ht. destruct (label_and_length label n t Hl Hn Ht) as (b & s1 & s2 & Eb & E1 & E2 & H2).
  unfold Transcript_challenge. rewrite Eb. cbn [rbind]. rewrite E1. cbn [rbind]. rewrite E2. cbn [rbind]. now apply prf_fine.
Qed.

Lemma build_rng_fine seed t : is_bytes seed -> Strobe_ok t -> exists t', Transcript_build_rng seed t = Ok t' /\ Strobe_ok t'.
Proof.
  intros Hseed Ht. unfold Transcript_build_rng.
  destruct (meta_ad_fine (ascii_bytes "rng from seed"%string) t (ascii_is_bytes _) Ht) as (s1 & -> & H1 & _). now apply key_fine.
Qed.

Lemma challenge_rng_fine label t : is_bytes label -> Strobe_ok t ->
  exists t', Transcript_challenge_then_build_rng label t = Ok t' /\ Strobe_ok t'.
Proof.
  intros Hl Ht. unfold Transcript_challenge_then_build_rng.
  destruct (challenge_fine label 32 t Hl ltac:(simpl; lia) Ht) as (out & s1 & -> & H1 & _ & Hout). now apply build_rng_fine.
Qed.

Lemma new_fine label : short label -> exists t, Transcript_new label = Ok t /\ Strobe_ok t.
Proof.
  intros Hl. unfold Transcript_new, Strobe128_new.
  destruct (meta_ad_fine (ascii_bytes "Mini-Merlin"%string)
    (mkStrobe128 (keccak_f1600_wrapper ([1; STROBE_R + 2; 1; 0; 1; 96] ++ ascii_bytes "STROBEv1.0.2"%string ++ repeat 0 182)) 0 0 0))
    as (s1 & -> & H1 & _); [apply ascii_is_bytes| |].
  - split; [|unfold STROBE_R, is_byte; simpl; lia]. apply wrapper_ok. split; [reflexivity|].
    apply is_bytes_app; [repeat constructor; unfold is_byte, STROBE_R; lia|]. apply is_bytes_app; [apply ascii_is_bytes|].
    apply Forall_forall. intros x Hx. apply repeat_spec in Hx as ->. unfold is_byte. lia.
  - cbn [rbind]. apply message_fine; [apply ascii_is_bytes|assumption..].
Qed.

Lemma rng_new_fine seed : is_bytes seed -> exists rng, TranscriptRng_new seed = Ok rng /\ Strobe_ok rng.
Proof.
  intros Hs. unfold TranscriptRng_new.
  destruct (new_fine (ascii_bytes "direct RNG from seed"%string)) as (t & -> & Ht); [split; [apply ascii_is_bytes|reflexivity]|].
  cbn [rbind]. now apply build_rng_fine.
Qed.

Lemma fill_bytes_fine n rng : Z.of_nat n < 2 ^ 32 -> Strobe_ok rng -> fine_bytes n (TranscriptRng_fill_bytes n rng).
Proof.
  intros Hn Hr. unfold TranscriptRng_fill_bytes. destruct (encode_len_ok n Hn) as (b & -> & Hb). cbn [rbind].
  destruct (meta_ad_fine b rng Hb Hr) as (s1 & -> & H1 & _). now apply prf_fine.
Qed.

Lemma next_u64_fine rng : Strobe_ok rng ->
  exists w rng', TranscriptRng_next_u64 rng = Ok (w, rng') /\ is_word w /\ Strobe_ok rng'.
Proof.
  intros Hr. unfold TranscriptRng_next_u64.
  destruct (fill_bytes_fine 8 rng ltac:(simpl; lia) Hr) as (out & s1 & -> & H1 & L & B). cbn [rbind fst snd].
  exists (u64_from_le_bytes out), s1. split; [reflexivity|]. split; [now apply from_le_bytes_word|assumption].
Qed.

(** ** Histories *)

Inductive TranscriptOp : Type :=
  | OpMessage (label message : list Z)
  | OpChallenge (label : list Z) (n : nat)
  | OpBuildRng (seed : list Z)
  | OpChallengeRng (label : list Z)
  | OpFillBytes (n : nat).

(** The bytes that an operation returns, and the new state. *)
Definition transcript_op (op : TranscriptOp) (t : Strobe128) : result ProtocolError (list Z * Strobe128) :=
  match op with
  | OpMessage label message => let* t := Transcript_message label message t in Ok ([], t)
  | OpChallenge label n => Transcript_challenge label n t
  | OpBuildRng seed => let* t := Transcript_build_rng seed t in Ok ([], t)
  | OpChallengeRng label => let* t := Transcript_challenge_then_build_rng label t in Ok ([], t)
  | OpFillBytes n => TranscriptRng_fill_bytes n t
  end.

Fixpoint transcript_run (ops : list TranscriptOp) (t : Strobe128) : result ProtocolError (list (list Z) * Strobe128) :=
  match ops with
  | [] => Ok ([], t)
  | op :: ops =>
    let* r := transcript_op op t in
    let* rs := transcript_run ops (snd r) in
    Ok (fst r :: fst rs, snd rs)
  end.

Definition op_fits (op : TranscriptOp) : Prop :=
  match op with
  | OpMessage label message => is_bytes label /\ short message
  | OpChallenge label n => is_bytes label /\ Z.of_nat n < 2 ^ 32
  | OpBuildRng seed => is_bytes seed
  | OpChallengeRng label => is_bytes label
  | OpFillBytes n => Z.of_nat n < 2 ^ 32
  end.

Definition op_length (op : TranscriptOp) : nat :=
  match op with OpChallenge _ n | OpFillBytes n => n | _ => 0%nat end.

Lemma op_fine op t : op_fits op -> Strobe_ok t -> fine_bytes (op_length op) (transcript_op op t).
Proof.
  assert (Hret : forall r, (exists t', r = Ok t' /\ Strobe_ok t') ->
    fine_bytes 0 (let* t := r in Ok ([], t))).
  { intros r (t' & -> & Ht'). exists [], t'. split; [reflexivity|]. repeat split; try apply Ht'. constructor. }
  destruct op; cbn [op_fits op_length transcript_op]; intros Hf Ht.
  - apply Hret. destruct Hf. now apply message_fine.
  - destruct Hf. now apply challenge_fine.
  - apply Hret. now apply build_rng_fine.
  - apply Hret. now apply challenge_rng_fine.
  - now apply fill_bytes_fine.
Qed.

Lemma run_fine ops t : Forall op_fits ops -> Strobe_ok t ->
  exists outs t', transcript_run ops t = Ok (outs, t') /\ Strobe_ok t' /\
    Forall2 (fun op out => length out = op_length op /\ is_bytes out) ops outs.
Proof.
  intros Hops. revert t. induction Hops as [|op ops Hop Hops IH]; intros t Ht; [now exists [], t|].
  cbn [transcript_run]. destruct (op_fine op t Hop Ht) as (out & t1 & -> & H1 & L & B). cbn [rbind fst snd].
  destruct (IH t1 H1) as (outs & t2 & -> & H2 & F). cbn [rbind fst snd]. exists (out :: outs), t2.
  split; [reflexivity|]. split; [assumption|]. now constructor.
Qed.

(** C34: Transcripts never panic.  A new transcript, whatever messages are appended to it, challenges
    drawn and generators built from it, in any order, fails none of its assertions, indexings and
    additions on bytes, keeps its position below the rate of the sponge, and returns exactly as many
    bytes as were asked for. *)
Theorem transcript_never_panics label ops : short label -> Forall op_fits ops ->
  exists t outs t', Transcript_new label = Ok t /\ transcript_run ops t = Ok (outs, t') /\ Strobe_ok t' /\
    Forall2 (fun op out => length out = op_length op /\ is_bytes out) ops outs.
Proof.
  intros Hl Hops. destruct (new_fine label Hl) as (t & Et & Ht). destruct (run_fine ops t Hops Ht) as (outs & t' & Er & Ht' & F).
  now exists t, outs, t'.
Qed.
End Proofs.

(** ** Example *)

#[export] Instance identity_keccak : Keccak := {| keccak_f1600 w := w |}.

#[export] Instance identity_keccak_laws : KeccakLaws.
Proof. now split. Qed.

Definition sample_ops : list TranscriptOp :=
  [OpMessage [1] [2; 3]; OpChallenge [4] 5; OpChallengeRng [6]; OpFillBytes 7].

Lemma transcript_never_panics_witness :
  exists t outs t', Transcript_new [7; 8] = Ok t /\ transcript_run sample_ops t = Ok (outs, t') /\ Strobe_ok t' /\
    Forall2 (fun op out => length out = op_length op /\ is_bytes out) sample_ops outs.
Proof.
  apply transcript_never_panics; [split; [|reflexivity]|]; repeat constructor; unfold is_byte; simpl; lia.
Defined.
