(* ===== verification/TripleExtension.v ===== *)
(** * Threshold signatures: oblivious transfer extension

    [correlated_ot_extension.rs] and [random_ot_extension.rs] of
    [src/crates/threshold-signatures/src/ecdsa/ot_based_ecdsa/triples/].  A party of a protocol is a
    function from its inputs and the messages it receives to the messages it sends and its result.
    The hash functions of [sha2] and [sha3] and the reduction of 64 bytes to a scalar are the class
    [OtHashes].  Numbers in the texts of errors are left out.

    The theorem: from the keys of 128 base transfers, of which one party holds both and the other
    one each, the two parties of the extension get as many transfers of random scalars as they
    want, and the consistency check of the sender passes. *)

From Stdlib Require Import ZArith Lia Bool String List.
From S2P Require Import TsTypes TripleBits TripleGf Transcript.
Import ListNotations.
Open Scope Z_scope.
Open Scope ts_scope.

(** SHA-256, SHAKE256 with the number of bytes that are read, and [Reduce<U512>::reduce_bytes]. *)
Class OtHashes (Scalar : Type) : Type := {
  ot_sha256 : list Z -> list Z;
  ot_shake256 : list Z -> nat -> list Z;
  ot_reduce_bytes : list Z -> Scalar;
}.

(** SHA-256 gives 32 bytes. *)
Class OtHashesLaws {Scalar} (O : OtHashes Scalar) : Prop := {
  ot_sha256_length data : length (ot_sha256 data) = 32%nat;
  ot_sha256_bytes data : is_bytes (ot_sha256 data);
}.

Definition NEAR_PRG_CTX : list Z := ascii_bytes "Near threshold signatures correlated OT PRG"%string.
Definition NEAR_RANDOM_OT_EXTENSION_HASH_CTX : list Z := ascii_bytes "Random OT Extension Hash"%string.

Section Extension.
Context `{Keccak} {Scalar : Type} `{OtHashes Scalar}.

(** [BitVector::random] and several calls of it, with the generator of a transcript. *)
Fixpoint random_words (n : nat) (rng : Strobe128) : result ProtocolError (list Z * Strobe128) :=
  match n with
  | O => Ok ([], rng)
  | S n =>
    let* (w, rng) := TranscriptRng_next_u64 rng in
    let* (ws, rng) := random_words n rng in
    Ok (w :: ws, rng)
  end.

Definition BitVector_random (rng : Strobe128) : result ProtocolError (BitVector * Strobe128) :=
  random_words SEC_PARAM_64 rng.

Fixpoint random_vectors (n : nat) (rng : Strobe128) : result ProtocolError (list BitVector) :=
  match n with
  | O => Ok []
  | S n =>
    let* (v, rng) := BitVector_random rng in
    let* vs := random_vectors n rng in
    Ok (v :: vs)
  end.

(** ** Correlated transfers *)

Definition expand_transpose (k : BitMatrix) (sid : list Z) (rows : nat) : result ProtocolError BitMatrix :=
  if Nat.eqb (rows mod SECURITY_PARAMETER) 0 then
    Ok (SquareBitMatrix_expand_transpose ot_shake256
          (NEAR_PRG_CTX ++ ascii_bytes "sid"%string ++ sid ++ ascii_bytes "row"%string) k rows)
  else Panic "assertion failed: rows % SECURITY_PARAMETER == 0"%string.

(** The sender receives [u]. *)
Definition correlated_ot_sender (sid : list Z) (batch_size : nat) (delta : BitVector) (k u : BitMatrix) :
    result ProtocolError BitMatrix :=
  let* t := expand_transpose k sid batch_size in
  if negb (Nat.eqb (length u) batch_size) then Err (AssertionFailed "expected matrix of height"%string)
  else Ok (BitMatrix_xor (BitMatrix_and_vec u delta) t).

(** The receiver sends the second matrix. *)
Definition correlated_ot_receiver (sid : list Z) (batch_size : nat) (k0 k1 x : BitMatrix) :
    result ProtocolError (BitMatrix * BitMatrix) :=
  if negb (Nat.eqb (length x) batch_size) then
    Err (AssertionFailed "x.height() not equal to params.batch_size"%string)
  else
    let* t0 := expand_transpose k0 sid batch_size in
    let* t1 := expand_transpose k1 sid batch_size in
    let u := BitMatrix_xor (BitMatrix_xor t0 t1) x in
    Ok (t0, u).

(** ** Random transfers *)

Definition hash_to_scalar (i : nat) (v : BitVector) : result ProtocolError Scalar :=
  let seed := ot_sha256 (NEAR_RANDOM_OT_EXTENSION_HASH_CTX ++ u64_to_le_bytes (Z.of_nat i) ++ BitVector_bytes v) in
  let* rng := TranscriptRng_new seed in
  let* (data, _) := TranscriptRng_fill_bytes 64 rng in
  Ok (ot_reduce_bytes data).

Definition adjust_size (size : nat) : nat :=
  let r := (size mod SECURITY_PARAMETER)%nat in
  let padded := if Nat.eqb r 0 then size else (size + (SECURITY_PARAMETER - r))%nat in
  (padded + 2 * SECURITY_PARAMETER)%nat.

(** [small_x] and [small_t]. *)
Abbreviation CheckMessage := (list Z * list (list Z))%type (only parsing).

(** The loop of the consistency check. *)
Definition check_columns (delta : BitVector) (q : BitMatrix) (chi : list BitVector) (small_x : DoubleBitVector)
    (small_t : list DoubleBitVector) : bool :=
  forallb (fun '(j, small_t_j) =>
    let small_q_j := gf_sum (BitMatrix_column_chunks q j) chi in
    let delta_j_x :=
      DoubleBitVector_conditional_select DoubleBitVector_zero small_x (BitVector_bit delta j =? 1) in
    DoubleBitVector_eqb small_q_j (DoubleBitVector_xor small_t_j delta_j_x)) (enumerate small_t).

(** The sender receives [u] and the check message and sends [transcript_seed]. *)
Definition random_ot_extension_sender (sid : list Z) (batch_size : nat) (delta : BitVector) (k : BitMatrix)
    (transcript_seed : list Z) (u : BitMatrix) (message : CheckMessage) :
    result ProtocolError (list (Scalar * Scalar)) :=
  let adjusted_size := adjust_size batch_size in
  let* q := correlated_ot_sender sid adjusted_size delta k u in
  let mu := (adjusted_size / SECURITY_PARAMETER)%nat in
  let* prng := TranscriptRng_new transcript_seed in
  let* chi := random_vectors mu prng in
  let (small_x, small_t) := message in
  if negb (Nat.eqb (length small_t) SECURITY_PARAMETER) then
    Err (AssertionFailed "small t of incorrect length"%string)
  else if negb (check_columns delta q chi small_x small_t) then
    Err (AssertionFailed "q check failed"%string)
  else
    rmap (fun '(i, q_i) =>
      let* v0_i := hash_to_scalar i q_i in
      let* v1_i := hash_to_scalar i (BitVector_xor q_i delta) in
      Ok (v0_i, v1_i)) (enumerate (firstn batch_size q)).

(** Steps 1 and 2 of the receiver: its matrix, and the [u] that it sends. *)
Definition receiver_correlate (sid : list Z) (batch_size : nat) (k0 k1 : BitMatrix) (b : ChoiceVector) :
    result ProtocolError (BitMatrix * BitMatrix) :=
  let adjusted_size := adjust_size batch_size in
  let x := choice_matrix (ChoiceVector_bits b) in
  correlated_ot_receiver sid adjusted_size k0 k1 x.

(** Steps 5 to 15, with the seed of the sender: the check message and the result. *)
Definition receiver_finish (batch_size : nat) (b : ChoiceVector) (t : BitMatrix) (seed : list Z) :
    result ProtocolError (CheckMessage * list (bool * Scalar)) :=
  let adjusted_size := adjust_size batch_size in
  let mu := (adjusted_size / SECURITY_PARAMETER)%nat in
  let* prng := TranscriptRng_new seed in
  let* chi := random_vectors mu prng in
  let small_x := gf_sum (ChoiceVector_chunks b) chi in
  let small_t := map (fun j => gf_sum (BitMatrix_column_chunks t j) chi) (seq 0 SECURITY_PARAMETER) in
  let* out :=
    rmap (fun '(i, (b_i, t_i)) => let* v_i := hash_to_scalar i t_i in Ok (b_i, v_i))
      (enumerate (firstn batch_size (combine (ChoiceVector_bits b) t))) in
  Ok ((small_x, small_t), out).

(** The receiver receives the seed of the sender, and sends [u] before and the check message after. *)
Definition random_ot_extension_receiver (sid : list Z) (batch_size : nat) (k0 k1 : BitMatrix) (b : ChoiceVector)
    (seed : list Z) : result ProtocolError (BitMatrix * CheckMessage * list (bool * Scalar)) :=
  let* (t, u) := receiver_correlate sid batch_size k0 k1 b in
  let* (message, out) := receiver_finish batch_size b t seed in
  Ok (u, message, out).
End Extension.

(** ** Lists and results *)

Lemma rmap_total {E A B} (f : A -> result E B) l : (forall x, In x l -> exists y, f x = Ok y) ->
  exists ys, rmap f l = Ok ys /\ Forall2 (fun x y => f x = Ok y) l ys.
Proof.
  induction l as [|x l IH]; intros Hf; cbn [rmap]; [now exists []|].
  destruct (Hf x (or_introl eq_refl)) as [y Ey]. destruct IH as (ys & -> & F); [intros; apply Hf; now right|].
  rewrite Ey. cbn [rbind]. exists (y :: ys). split; [reflexivity|]. now constructor.
Qed.

Lemma Forall2_nth_iff {A B} (R : A -> B -> Prop) l k da db : Forall2 R l k <->
  length l = length k /\ forall i, (i < length l)%nat -> R (nth i l da) (nth i k db).
Proof.
  split.
  - induction 1 as [|x y l k Hxy F [L IH]]; [split; [reflexivity|intros i Hi; simpl in Hi; lia]|].
    split; [simpl; congruence|]. intros [|i] Hi; simpl; [assumption|]. apply IH. simpl in Hi. lia.
  - revert k. induction l as [|x l IH]; intros [|y k] [L HR]; try discriminate; constructor.
    + apply (HR 0%nat). simpl. lia.
    + apply IH. split; [now injection L|]. intros i Hi. apply (HR (S i)). simpl. lia.
Qed.

Lemma nth_enumerate {A} (l : list A) i d : (i < length l)%nat -> nth i (enumerate l) (O, d) = (i, nth i l d).
Proof. intros Hi. unfold enumerate. rewrite combine_nth by now rewrite length_seq. now rewrite seq_nth. Qed.

Lemma adjust_size_mod n : (adjust_size n mod SECURITY_PARAMETER = 0)%nat.
Proof.
  unfold adjust_size. pose proof (Nat.div_mod n SECURITY_PARAMETER ltac:(easy)) as D.
  pose proof (Nat.mod_upper_bound n SECURITY_PARAMETER ltac:(easy)) as U. cbn zeta.
  apply Nat.Div0.mod_divides. destruct (Nat.eqb_spec (n mod SECURITY_PARAMETER) 0) as [E|N].
  - exists (n / SECURITY_PARAMETER + 2)%nat. lia.
  - exists (n / SECURITY_PARAMETER + 3)%nat. lia.
Qed.

Lemma adjust_size_le n : (n <= adjust_size n)%nat.
Proof. unfold adjust_size. cbn zeta. destruct (Nat.eqb _ _); lia. Qed.

Lemma adjust_size_chunks n : adjust_size n = (SECURITY_PARAMETER * (adjust_size n / SECURITY_PARAMETER))%nat.
Proof.
  pose proof (Nat.div_mod (adjust_size n) SECURITY_PARAMETER ltac:(easy)) as D. rewrite adjust_size_mod in D. lia.
Qed.

Section Correct.
Context `{KeccakLaws} {Scalar : Type} `{OtHashesLaws Scalar}.

(** ** Randomness *)

Lemma random_words_fine n rng : Strobe_ok rng ->
  exists ws rng', random_words n rng = Ok (ws, rng') /\ is_vector n ws /\ Strobe_ok rng'.
Proof.
  revert rng. induction n as [|n IH]; intros rng Hr; [exists [], rng; now repeat split; try apply Hr|]. cbn [random_words].
  destruct (next_u64_fine rng Hr) as (w & r1 & -> & Hw & H1'). cbn [rbind].
  destruct (IH r1 H1') as (ws & r2 & -> & [L Hws] & H2'). cbn [rbind]. exists (w :: ws), r2.
  split; [reflexivity|]. split; [|assumption]. split; [simpl; congruence|now constructor].
Qed.

Lemma random_vectors_fine n rng : Strobe_ok rng ->
  exists vs, random_vectors n rng = Ok vs /\ is_matrix vs /\ length vs = n.
Proof.
  revert rng. induction n as [|n IH]; intros rng Hr; [now exists []; repeat split; constructor|]. cbn [random_vectors].
  unfold BitVector_random. destruct (random_words_fine SEC_PARAM_64 rng Hr) as (v & r1 & -> & Hv & Hr1). cbn [rbind].
  destruct (IH r1 Hr1) as (vs & -> & Hvs & L). cbn [rbind]. exists (v :: vs). split; [reflexivity|].
  split; [now constructor|simpl; congruence].
Qed.

Lemma challenges_fine n seed : is_bytes seed ->
  exists rng chi, TranscriptRng_new seed = Ok rng /\ random_vectors n rng = Ok chi /\ is_matrix chi /\ length chi = n.
Proof.
  intros Hs. destruct (rng_new_fine seed Hs) as (rng & E & Hr). destruct (random_vectors_fine n rng Hr) as (chi & Ec & Hc & L).
  now exists rng, chi.
Qed.

Lemma hash_to_scalar_total i v : exists s : Scalar, hash_to_scalar i v = Ok s.
Proof.
  unfold hash_to_scalar. set (seed := ot_sha256 _). assert (Hseed : is_bytes seed) by apply ot_sha256_bytes.
  destruct (rng_new_fine seed Hseed) as (rng & -> & Hr). cbn [rbind].
  destruct (fill_bytes_fine 64 rng ltac:(simpl; lia) Hr) as (out & r1 & -> & _). cbn [rbind]. now eexists.
Qed.

(** ** The extension *)

Context (delta : list Z) (k0 k1 k b : list (list Z)) (sid : list Z) (batch_size : nat).
Context (Hdelta : is_vector SEC_PARAM_64 delta) (Hb : is_matrix b) (Hk : chosen_rows delta k0 k1 k).
Context (Hlen : length b = (adjust_size batch_size / SECURITY_PARAMETER)%nat).

Let prefix := NEAR_PRG_CTX ++ ascii_bytes "sid"%string ++ sid ++ ascii_bytes "row"%string.
Let rows := adjust_size batch_size.
Let t0 := SquareBitMatrix_expand_transpose ot_shake256 prefix k0 rows.
Let t1 := SquareBitMatrix_expand_transpose ot_shake256 prefix k1 rows.
Let x := choice_matrix (ChoiceVector_bits b).
Let u := BitMatrix_xor (BitMatrix_xor t0 t1) x.
Let q := BitMatrix_xor t0 (BitMatrix_and_vec x delta).

Lemma expand_ok m : expand_transpose m sid rows = Ok (SquareBitMatrix_expand_transpose ot_shake256 prefix m rows).
Proof. unfold expand_transpose, rows. now rewrite adjust_size_mod. Qed.

Lemma length_x : length x = rows.
Proof.
  unfold x, choice_matrix. rewrite length_map, length_choice_bits, Hlen by assumption. symmetry. apply adjust_size_chunks.
Qed.

Lemma length_t0 : length t0 = rows.
Proof. apply length_expand. Qed.

Lemma receiver_correlates : receiver_correlate sid batch_size k0 k1 b = Ok (t0, u).
Proof.
  unfold receiver_correlate, correlated_ot_receiver. fold rows x. rewrite length_x, Nat.eqb_refl. cbn [negb].
  now rewrite !expand_ok.
Qed.

Lemma sender_correlates : correlated_ot_sender sid rows delta k u = Ok q.
Proof.
  unfold correlated_ot_sender. rewrite expand_ok. cbn [rbind].
  assert (Lu : length u = rows).
  { unfold u. rewrite !length_xor; try apply length_t0; unfold t0, t1; rewrite ?length_expand; try reflexivity.
    rewrite length_xor; rewrite !length_expand; [symmetry; apply length_x|reflexivity]. }
  rewrite Lu, Nat.eqb_refl. cbn [negb]. f_equal. apply correlation; [assumption|apply choice_matrix_ok|apply length_x|assumption].
Qed.

Lemma check_passes chi : is_matrix chi ->
  check_columns delta q chi (gf_sum b chi)
    (map (fun j => gf_sum (BitMatrix_column_chunks t0 j) chi) (seq 0 SECURITY_PARAMETER)) = true.
Proof.
  intros Hchi. unfold check_columns. apply forallb_forall. intros jt Hin. apply (In_nth _ _ (O, [])) in Hin as (j & Hj & <-).
  rewrite length_enumerate, length_map, length_seq in Hj.
  rewrite nth_enumerate by (rewrite length_map, length_seq; assumption).
  rewrite (nth_indep _ [] (gf_sum (BitMatrix_column_chunks t0 0) chi)) by (rewrite length_map, length_seq; assumption).
  rewrite (map_nth (fun j => gf_sum (BitMatrix_column_chunks t0 j) chi)), seq_nth by assumption. rewrite Nat.add_0_l.
  rewrite bit_vbit, b2z_eqb. unfold q, x.
  rewrite consistency_check; [apply DoubleBitVector_eqb_refl|apply expand_matrix|assumption|assumption| |assumption..].
  rewrite length_t0, Hlen. apply adjust_size_chunks.
Qed.

(** The row of the sender is that of the receiver, to which the choice has been added. *)
Lemma sender_row i : (i < rows)%nat ->
  nth i q [] = if nth i (ChoiceVector_bits b) false then BitVector_xor (nth i t0 []) delta else nth i t0 [].
Proof.
  intros Hi. assert (Lt := length_t0). assert (Ht : is_matrix t0) by apply expand_matrix.
  assert (Hl : length t0 = (SECURITY_PARAMETER * length b)%nat) by (rewrite Lt, Hlen; apply adjust_size_chunks).
  assert (Hrow : is_vector SEC_PARAM_64 (nth i t0 [])) by (apply nth_vector; [assumption|lia]).
  apply (vector_ext SEC_PARAM_64).
  - apply nth_vector; [now apply correlated_matrix|]. unfold q, x. rewrite length_correlated by assumption. lia.
  - destruct (nth i (ChoiceVector_bits b) false); [now apply xor_vector|assumption].
  - intros j Hj. change (mbit q i j = vbit (if nth i (ChoiceVector_bits b) false then BitVector_xor (nth i t0 []) delta else nth i t0 []) j).
    unfold q, x. rewrite mbit_correlated by (assumption || lia). destruct (nth i (ChoiceVector_bits b) false); cbn [andb].
    + now rewrite (vbit_xor_n SEC_PARAM_64).
    + now destruct (mbit t0 i j) eqn:E; unfold mbit in E; rewrite E.
Qed.

Lemma xor_cancel n a d : is_vector n a -> is_vector n d -> BitVector_xor (BitVector_xor a d) d = a.
Proof.
  intros Ha Hd. assert (Hx := xor_vector n a d Ha Hd). apply (vector_ext n); [now apply xor_vector|assumption|].
  intros j _. rewrite !(vbit_xor_n n) by assumption. destruct (vbit a j), (vbit d j); reflexivity.
Qed.

(** What both parties compute from a row. *)
Lemma row_agrees i v0 v1 v : (i < rows)%nat -> let b_i := nth i (ChoiceVector_bits b) false in
  (let* v0 := hash_to_scalar i (nth i q []) in
   let* v1 := hash_to_scalar i (BitVector_xor (nth i q []) delta) in Ok (v0, v1)) = Ok (v0, v1) ->
  (let* v := hash_to_scalar i (nth i t0 []) in Ok (b_i, v)) = Ok (b_i, v) ->
  v = (if b_i then v1 else v0 : Scalar).
Proof.
  intros Hi b_i Es Er. rewrite sender_row in Es by assumption. fold b_i in Es.
  destruct (hash_to_scalar_total i (nth i t0 [])) as [s Hs]. rewrite Hs in Er. cbn [rbind] in Er. injection Er as <-.
  destruct b_i.
  - rewrite (xor_cancel SEC_PARAM_64), Hs in Es; [|apply nth_vector; [apply expand_matrix|rewrite length_t0; lia]|assumption].
    destruct (hash_to_scalar i (BitVector_xor _ _)); [|discriminate..]. cbn [rbind] in Es. now injection Es as _ <-.
  - rewrite Hs in Es. cbn [rbind] in Es. destruct (hash_to_scalar i (BitVector_xor _ _)); [|discriminate..].
    cbn [rbind] in Es. now injection Es as <- _.
Qed.

(** The two loops over the rows. *)
Let receive (ib : nat * (bool * list Z)) : result ProtocolError (bool * Scalar) :=
  let '(i, (b_i, t_i)) := ib in let* v_i := hash_to_scalar i t_i in Ok (b_i, v_i).
Let send (iq : nat * list Z) : result ProtocolError (Scalar * Scalar) :=
  let '(i, q_i) := iq in
  let* v0_i := hash_to_scalar i q_i in
  let* v1_i := hash_to_scalar i (BitVector_xor q_i delta) in
  Ok (v0_i, v1_i).

Lemma length_bits_b : length (ChoiceVector_bits b) = rows.
Proof. rewrite length_choice_bits, Hlen by assumption. symmetry. apply adjust_size_chunks. Qed.

Lemma length_q : length q = rows.
Proof.
  unfold q, x. rewrite length_correlated; [apply length_t0|assumption|]. rewrite length_t0, Hlen. apply adjust_size_chunks.
Qed.

Lemma length_received : length (firstn batch_size (combine (ChoiceVector_bits b) t0)) = batch_size.
Proof.
  pose proof (adjust_size_le batch_size). rewrite length_firstn, length_combine, length_bits_b, length_t0. unfold rows. lia.
Qed.

Lemma length_sent : length (firstn batch_size q) = batch_size.
Proof. pose proof (adjust_size_le batch_size). rewrite length_firstn, length_q. unfold rows. lia. Qed.

Lemma outputs_agree out_sender out_receiver :
  Forall2 (fun x y => receive x = Ok y) (enumerate (firstn batch_size (combine (ChoiceVector_bits b) t0))) out_receiver ->
  Forall2 (fun x y => send x = Ok y) (enumerate (firstn batch_size q)) out_sender ->
  map fst out_receiver = firstn batch_size (ChoiceVector_bits b) /\ length out_receiver = batch_size /\
  Forall2 (fun (s : Scalar * Scalar) (r : bool * Scalar) => snd r = if fst r then snd s else fst s) out_sender out_receiver.
Proof.
  destruct (hash_to_scalar_total 0 []) as [s0 _]. intros Fr Fs. pose proof (adjust_size_le batch_size) as Hle. fold rows in Hle.
  apply (Forall2_nth_iff _ _ _ (O, (false, @nil Z)) (false, s0)) in Fr as [Lr Fr].
  apply (Forall2_nth_iff _ _ _ (O, []) (s0, s0)) in Fs as [Ls Fs].
  rewrite length_enumerate, length_received in Lr, Fr. rewrite length_enumerate, length_sent in Ls, Fs.
  assert (Er : forall i, (i < batch_size)%nat ->
    receive (i, (nth i (ChoiceVector_bits b) false, nth i t0 [])) = Ok (nth i out_receiver (false, s0))).
  { intros i Hi. rewrite <- (Fr i Hi). rewrite nth_enumerate by now rewrite length_received. do 2 f_equal.
    rewrite nth_firstn, (proj2 (Nat.ltb_lt i _)) by assumption. symmetry. apply combine_nth. now rewrite length_bits_b, length_t0. }
  assert (Eb : forall i, (i < batch_size)%nat -> fst (nth i out_receiver (false, s0)) = nth i (ChoiceVector_bits b) false).
  { intros i Hi. specialize (Er i Hi). unfold receive in Er. destruct (hash_to_scalar i _); [|discriminate..].
    cbn [rbind] in Er. now injection Er as <-. }
  split; [|split; [congruence|]].
  - apply (nth_ext _ _ false false); [rewrite length_map, length_firstn, length_bits_b; lia|]. rewrite length_map. intros i Hi.
    rewrite (nth_indep _ false (fst (false, s0))), map_nth, Eb by (rewrite ?length_map; lia).
    now rewrite nth_firstn, (proj2 (Nat.ltb_lt i _)) by lia.
  - apply (Forall2_nth_iff _ _ _ (s0, s0) (false, s0)). split; [congruence|]. rewrite <- Ls. intros i Hi.
    specialize (Fs i Hi). rewrite nth_enumerate in Fs by now rewrite length_sent.
    rewrite nth_firstn, (proj2 (Nat.ltb_lt i _)) in Fs by assumption. specialize (Er i Hi). specialize (Eb i Hi).
    destruct (nth i out_sender _) as [v0 v1], (nth i out_receiver _) as [b_i v]. simpl in Eb. subst b_i. simpl.
    apply (row_agrees i v0 v1 v); [lia|exact Fs|exact Er].
Qed.

Lemma extension_correct seed : is_bytes seed ->
  exists u message out_sender out_receiver,
    random_ot_extension_receiver sid batch_size k0 k1 b seed = Ok (u, message, out_receiver) /\
    random_ot_extension_sender sid batch_size delta k seed u message = Ok out_sender /\
    map fst out_receiver = firstn batch_size (ChoiceVector_bits b) /\
    length out_receiver = batch_size /\
    Forall2 (fun (s : Scalar * Scalar) (r : bool * Scalar) => snd r = if fst r then snd s else fst s) out_sender out_receiver.
Proof.
  intros Hseed. destruct (challenges_fine (rows / SECURITY_PARAMETER) seed Hseed) as (prng & chi & Ep & Ec & Hchi & Lchi).
  destruct (rmap_total receive (enumerate (firstn batch_size (combine (ChoiceVector_bits b) t0)))) as (out_r & Er & Fr).
  { intros [i [b_i t_i]] _. unfold receive. destruct (hash_to_scalar_total i t_i) as [s ->]. now eexists. }
  destruct (rmap_total send (enumerate (firstn batch_size q))) as (out_s & Es & Fs).
  { intros [i q_i] _. unfold send. destruct (hash_to_scalar_total i q_i) as [s ->].
    destruct (hash_to_scalar_total i (BitVector_xor q_i delta)) as [s' ->]. now eexists. }
  exists u, (gf_sum b chi, map (fun j => gf_sum (BitMatrix_column_chunks t0 j) chi) (seq 0 SECURITY_PARAMETER)), out_s, out_r.
  split; [|split; [|now apply outputs_agree]].
  - unfold random_ot_extension_receiver. rewrite receiver_correlates. cbn [rbind]. unfold receiver_finish. fold rows.
    rewrite Ep. cbn [rbind]. rewrite Ec. cbn [rbind]. fold receive. now rewrite Er.
  - unfold random_ot_extension_sender. fold rows. rewrite sender_correlates. cbn [rbind]. rewrite Ep. cbn [rbind]. rewrite Ec. cbn [rbind].
    rewrite length_map, length_seq, Nat.eqb_refl. cbn [negb]. rewrite check_passes by assumption. exact Es.
Qed.
End Correct.
