(* ===== verification/TripleMul.v ===== *)
(** * Threshold signatures: multiplication from oblivious transfer

    [batch_random_ot.rs], [mta.rs] and [multiplication.rs] of
    [src/crates/threshold-signatures/src/ecdsa/ot_based_ecdsa/triples/].  Two parties that hold
    [a_i, b_i] and [a_j, b_j] get shares of [a_i * b_j + a_j * b_i]: they run 128 base transfers,
    extend them to 768 transfers of random scalars ([TripleExtension.v]), and turn those into
    additive shares of the two products.  [multiplication_many] does this with every other
    participant, for a batch of products.

    A party of a protocol is a function from its inputs, its random values and the messages it
    receives to the messages it sends and its result.  [OtSuite] is what the code uses of [k256] and
    [sha3]: SHAKE256, the reduction of 64 bytes to a scalar, [Field::random] on the generator of a
    transcript, the 64-bit words of the caller's generator, and the encoding of a pair.

    The second half shows that honest parties share the products. *)

From Stdlib Require Import ZArith Lia String List.
From mathcomp Require Import boot ssralg poly.
From S2P Require Import TsTypes TsParticipants Polynomials Interpolation Dkg DkgProofs DkgHonest TripleBits.
From S2P Require Import TripleGf Transcript TripleExtension.
Set Implicit Arguments.
Unset Strict Implicit.
Unset Printing Implicit Defensive.
Import GRing.Theory.
Local Open Scope ring_scope.
Local Open Scope ts_scope.

Class OtSuite (F : fieldType) (G : lmodType F) (C : Ciphersuite G) (D : DkgSuite C) := {
  os_shake256 : seq Z -> nat -> seq Z;
  os_reduce_bytes : seq Z -> F;
  os_transcript_random : Strobe128 -> F * Strobe128;
  os_next_u64 : cs_rng -> Z * cs_rng;
  os_msgpack_pair : Z * Participant -> option (seq Z);
}.

(** What is documented of them: [serialize] fails on the identity only, and gives 33 bytes; SHA-256
    gives 32 bytes; [next_u64] gives a word and [fill_bytes] bytes; the encoding of a pair of numbers
    succeeds. *)
Class OtSuiteLaws (F : fieldType) (G : lmodType F) (C : Ciphersuite G) (D : DkgSuite C)
    (O : OtSuite D) : Prop := {
  os_serializeE : forall e : G, e != 0 ->
    exists b, [/\ dk_serialize_element e = Some b, is_bytes b & size b = 33%N];
  os_sha256_size : forall data, size (dk_sha256 data) = 32%N;
  os_sha256_bytes : forall data, is_bytes (dk_sha256 data);
  os_next_u64_word : forall rng, is_word (os_next_u64 rng).1;
  os_fill_bytes : forall rng, is_bytes (dk_fill_bytes rng).1;
  os_msgpack_pairE : forall v, exists b, os_msgpack_pair v = Some b;
}.

#[export] Instance suite_hashes (F : fieldType) (G : lmodType F) (C : Ciphersuite G)
    (D : DkgSuite C) (O : OtSuite D) : OtHashes F := {|
  ot_sha256 := dk_sha256;
  ot_shake256 := os_shake256;
  ot_reduce_bytes := os_reduce_bytes;
|}.

Definition NEAR_BATCH_RANDOM_OT_HASH : seq Z := ascii_bytes "Near threshold signatures batch ROT"%string.
Definition BITS : nat := 256.

Section Definitions.
Context {K : Keccak} {F : fieldType} {G : lmodType F} {C : Ciphersuite G} {D : DkgSuite C} {O : OtSuite D}.
Implicit Types (sid seed : seq Z) (a b : F).

(** ** Base transfers *)

Definition batch_random_ot_hash (i : nat) (big_x_i big_y p : G) : result ProtocolError (seq Z) :=
  let* ser_x := ok_or (dk_serialize_element big_x_i) PointSerialization in
  let* ser_y := ok_or (dk_serialize_element big_y) PointSerialization in
  let* ser_p := ok_or (dk_serialize_element p) PointSerialization in
  let bytes := dk_sha256
    (NEAR_BATCH_RANDOM_OT_HASH ++ u64_to_le_bytes (Z.of_nat i) ++ ser_x ++ ser_y ++ ser_p) in
  Ok (BitVector_from_bytes (take SEC_PARAM_8 bytes)).

(** A point is sent in its serialized form. *)
Definition send_point (p : G) : result ProtocolError unit :=
  if dk_serialize_element p is Some _ then Ok tt else Err ErrorEncoding.

(** Deserialization rejects the identity. *)
Definition recv_point (p : G) : result ProtocolError G :=
  if p == 0 then Err (DeserializationError "Failed to deserialize message data"%string) else Ok p.

(** [try_into::<SquareBitMatrix>()]. *)
Definition into_square (m : BitMatrix) : result ProtocolError BitMatrix :=
  ok_or (SquareBitMatrix_try_from m) (AssertionFailed "matrix is not square"%string).

(** The sender of the base transfers sends [big_y] and receives a point on each of 128 channels. *)
Definition batch_random_ot_sender (y : F) (big_x : nat -> G) :
    result ProtocolError (G * (BitMatrix * BitMatrix)) :=
  let big_y := y *: cs_generator in
  let big_z := y *: big_y in
  let* _ := send_point big_y in
  let* out := rmap (fun i =>
    let* big_x_i := recv_point (big_x i) in
    let y_big_x_i := y *: big_x_i in
    let* big_k0 := batch_random_ot_hash i big_x_i big_y y_big_x_i in
    let* big_k1 := batch_random_ot_hash i big_x_i big_y (y_big_x_i - big_z) in
    Ok (big_k0, big_k1)) (iota 0 SECURITY_PARAMETER) in
  let* big_k0 := into_square [seq r.1 | r <- out] in
  let* big_k1 := into_square [seq r.2 | r <- out] in
  Ok (big_y, (big_k0, big_k1)).

(** The receiver receives [big_y] and sends a point on each channel. *)
Definition batch_random_ot_receiver (delta : BitVector) (x : seq F) (big_y : G) :
    result ProtocolError (seq G * (BitVector * BitMatrix)) :=
  let* big_y := recv_point big_y in
  let* out := rmap (fun '(i, d_i) =>
    let x_i := x`_i in
    let big_x_i := x_i *: cs_generator in
    let big_x_i := if d_i then big_x_i + big_y else big_x_i in
    let* _ := send_point big_x_i in
    let* k_i := batch_random_ot_hash i big_x_i big_y (x_i *: big_y) in
    Ok (big_x_i, k_i)) (enumerate (BitVector_bits delta)) in
  let* big_k := into_square [seq r.2 | r <- out] in
  Ok ([seq r.1 | r <- out], (delta, big_k)).

(** ** From multiplicative to additive shares *)

(** Scalars drawn from the generator of a transcript. *)
Fixpoint transcript_scalars (n : nat) (rng : Strobe128) : seq F :=
  if n is n.+1 then let: (x, rng) := os_transcript_random rng in x :: transcript_scalars n rng
  else [::].

(** The message of the sender. *)
Definition mta_sender_message (v : seq (F * F)) a (delta : seq F) : seq (F * F) :=
  [seq (q.2.1 + q.1 + a, q.2.2 + q.1 - a) | q <- zip delta v].

(** Its result, from the message of the receiver. *)
Definition mta_sender (delta : seq F) (message : F * seq Z) : result ProtocolError F :=
  let: (chi1, seed) := message in
  if delta is delta_0 :: delta then
    let* prng := TranscriptRng_new seed in
    let alpha := foldl (fun alpha q => alpha + q.1 * q.2) (delta_0 * chi1)
      (zip delta (transcript_scalars (size delta) prng)) in
    Ok (- alpha)
  else Panic "index out of bounds"%string.

(** The receiver receives [c]; it sends the pair. *)
Definition mta_receiver (tv : seq (bool * F)) b seed (c : seq (F * F)) :
    result ProtocolError ((F * seq Z) * F) :=
  if size c != size tv then Err (AssertionFailed "length of c was incorrect"%string)
  else
    let m := [seq (if q.1.1 then q.2.2 else q.2.1) - q.1.2 | q <- zip tv c] in
    let* prng := TranscriptRng_new seed in
    let chi := transcript_scalars (size tv - 1) prng in
    let chi1 := foldl (fun chi1 q => chi1 + (if q.1.1 then - q.2 else q.2)) 0 (zip (drop 1 tv) chi) in
    let chi1 := b - chi1 in
    if tv is (t_0, _) :: _ then
      let chi1 := if t_0 then - chi1 else chi1 in
      let* m_0 := ok_or (ohead m) (AssertionFailed "Not enough elements received"%string) in
      let beta := foldl (fun beta q => beta + q.1 * q.2) (chi1 * m_0) (zip chi (behead m)) in
      Ok ((chi1, seed), beta)
    else Panic "index out of bounds"%string.

(** ** Multiplication of two parties *)

Record MultiplicationSenderRandomPackage := mkSenderPackage {
  sp_delta : BitVector;
  sp_x : seq F;
  sp_seed : seq Z;
  sp_delta0 : seq F;
  sp_delta1 : seq F;
}.

Record MultiplicationReceiverRandomPackage := mkReceiverPackage {
  rp_y : F;
  rp_b : ChoiceVector;
  rp_seed0 : seq Z;
  rp_seed1 : seq Z;
}.

(** What the two parties send, by channel: the base transfers, their extension, and the two
    conversions. *)
Record SenderMessages := mkSenderMessages {
  sm_big_x : seq G;
  sm_seed : seq Z;
  sm_c0 : seq (F * F);
  sm_c1 : seq (F * F);
}.

Record ReceiverMessages := mkReceiverMessages {
  rm_big_y : G;
  rm_u : BitMatrix;
  rm_check : seq Z * seq (seq Z);
  rm_chi0 : F * seq Z;
  rm_chi1 : F * seq Z;
}.

Definition multiplication_batch_size : nat := BITS + SECURITY_PARAMETER.

Definition multiplication_sender sid (a_i b_i : F) (pkg : MultiplicationSenderRandomPackage)
    (rm : ReceiverMessages) : result ProtocolError (SenderMessages * F) :=
  let* (big_x, (delta, k)) := batch_random_ot_receiver (sp_delta pkg) (sp_x pkg) (rm_big_y rm) in
  let batch_size := multiplication_batch_size in
  let* res := random_ot_extension_sender sid (2 * batch_size) delta k (sp_seed pkg) (rm_u rm) (rm_check rm) in
  let res0 := take batch_size res in
  let res1 := drop batch_size res in
  let c0 := mta_sender_message res0 a_i (sp_delta0 pkg) in
  let c1 := mta_sender_message res1 b_i (sp_delta1 pkg) in
  let* gamma0 := mta_sender (sp_delta0 pkg) (rm_chi0 rm) in
  let* gamma1 := mta_sender (sp_delta1 pkg) (rm_chi1 rm) in
  Ok (mkSenderMessages big_x (sp_seed pkg) c0 c1, gamma0 + gamma1).

Definition multiplication_receiver sid (a_i b_i : F) (pkg : MultiplicationReceiverRandomPackage)
    (sm : SenderMessages) : result ProtocolError (ReceiverMessages * F) :=
  let* (big_y, (k0, k1)) := batch_random_ot_sender (rp_y pkg) (fun i => (sm_big_x sm)`_i) in
  let batch_size := multiplication_batch_size in
  let* (u, check, res) :=
    random_ot_extension_receiver sid (2 * batch_size) k0 k1 (rp_b pkg) (sm_seed sm) in
  let res0 := take batch_size res in
  let res1 := drop batch_size res in
  let* (chi0, gamma0) := mta_receiver res0 b_i (rp_seed0 pkg) (sm_c0 sm) in
  let* (chi1, gamma1) := mta_receiver res1 a_i (rp_seed1 pkg) (sm_c1 sm) in
  Ok (mkReceiverMessages big_y u check chi0 chi1, gamma0 + gamma1).

(** ** Random packages *)

Fixpoint rng_words (n : nat) (rng : cs_rng) : seq Z * cs_rng :=
  if n is n.+1 then
    let: (w, rng) := os_next_u64 rng in
    let: (ws, rng) := rng_words n rng in (w :: ws, rng)
  else ([::], rng).

Fixpoint rng_vectors (n : nat) (rng : cs_rng) : seq (seq Z) * cs_rng :=
  if n is n.+1 then
    let: (v, rng) := rng_words SEC_PARAM_64 rng in
    let: (vs, rng) := rng_vectors n rng in (v :: vs, rng)
  else ([::], rng).

Definition generate_sender_package (rng : cs_rng) : MultiplicationSenderRandomPackage * cs_rng :=
  let: (delta, rng) := rng_words SEC_PARAM_64 rng in
  let: (x, rng) := random_scalars (SEC_PARAM_64 * 64) rng in
  let: (seed, rng) := dk_fill_bytes rng in
  let: (delta0, rng) := random_scalars multiplication_batch_size rng in
  let: (delta1, rng) := random_scalars multiplication_batch_size rng in
  (mkSenderPackage delta x seed delta0 delta1, rng).

Definition generate_receiver_package (rng : cs_rng) : MultiplicationReceiverRandomPackage * cs_rng :=
  let: (y, rng) := cs_random rng in
  let: (b, rng) := rng_vectors (adjust_size (2 * multiplication_batch_size) %/ SECURITY_PARAMETER) rng in
  let: (seed0, rng) := dk_fill_bytes rng in
  let: (seed1, rng) := dk_fill_bytes rng in
  (mkReceiverPackage y b seed0 seed1, rng).

(** ** Multiplication with all participants *)

(** The order of byte slices. *)
Fixpoint bytes_lt (a b : seq Z) : bool :=
  match a, b with
  | _, [::] => false
  | [::], _ :: _ => true
  | x :: a, y :: b => if Z.ltb x y then true else if Z.ltb y x then false else bytes_lt a b
  end.

(** [hash(&(i, p))]. *)
Definition order_key (i : nat) (p : Participant) : result ProtocolError (seq Z) :=
  let* encoded := ok_or (os_msgpack_pair (Z.of_nat i, p)) ErrorEncoding in
  Ok (dk_sha256 (NEAR_HASH_LABEL ++ encoded)).

(** One multiplication with another participant, in one of the two roles. *)
Inductive MultiplicationTask :=
  | SenderTask (i : nat) (p : Participant) (pkg : MultiplicationSenderRandomPackage)
  | ReceiverTask (i : nat) (p : Participant) (pkg : MultiplicationReceiverRandomPackage).

Fixpoint tasks_with (i : nat) (order_key_me : seq Z) (others : seq Participant) (rng : cs_rng) :
    result ProtocolError (seq MultiplicationTask * cs_rng) :=
  if others is p :: others then
    let* order_key_other := order_key i p in
    let: (task, rng) :=
      if bytes_lt order_key_other order_key_me then
        let: (pkg, rng) := generate_sender_package rng in (SenderTask i p pkg, rng)
      else
        let: (pkg, rng) := generate_receiver_package rng in (ReceiverTask i p pkg, rng) in
    let* (tasks, rng) := tasks_with i order_key_me others rng in
    Ok (task :: tasks, rng)
  else Ok ([::], rng).

Fixpoint multiplication_tasks (indices : seq nat) (me : Participant) (others : seq Participant) (rng : cs_rng) :
    result ProtocolError (seq MultiplicationTask * cs_rng) :=
  if indices is i :: indices then
    let* order_key_me := order_key i me in
    let* (tasks, rng) := tasks_with i order_key_me others rng in
    let* (rest, rng) := multiplication_tasks indices me others rng in
    Ok (tasks ++ rest, rng)
  else Ok ([::], rng).

(** [v[i]]. *)
Definition vec_index (T : Type) (v : seq T) (i : nat) : result ProtocolError T :=
  if drop i v is x :: _ then Ok x else Panic "index out of bounds"%string.

(** What a participant receives from, or sends to, the others in the multiplications. *)
Record MultiplicationMessages := mkMultiplicationMessages {
  mm_sender : nat -> Participant -> SenderMessages;
  mm_receiver : nat -> Participant -> ReceiverMessages;
}.

Inductive SentMessages :=
  | SentAsSender (i : nat) (p : Participant) (m : SenderMessages)
  | SentAsReceiver (i : nat) (p : Participant) (m : ReceiverMessages).

Definition run_task (sids : seq (seq Z)) (av bv : seq F) (inbox : MultiplicationMessages)
    (task : MultiplicationTask) : result ProtocolError (SentMessages * F) :=
  match task with
  | SenderTask i p pkg =>
    let* sid := vec_index sids i in
    let* a_i := vec_index av i in
    let* b_i := vec_index bv i in
    let* (m, gamma) := multiplication_sender sid a_i b_i pkg (mm_receiver inbox i p) in
    Ok (SentAsSender i p m, gamma)
  | ReceiverTask i p pkg =>
    let* sid := vec_index sids i in
    let* a_i := vec_index av i in
    let* b_i := vec_index bv i in
    let* (m, gamma) := multiplication_receiver sid a_i b_i pkg (mm_sender inbox i p) in
    Ok (SentAsReceiver i p m, gamma)
  end.

(** The final loop: every product gets the next [n] results. *)
Fixpoint pop_results (n : nat) (out : F) (results : seq F) : result ProtocolError (F * seq F) :=
  if n is n.+1 then
    if results is r :: results then pop_results n (out + r) results
    else Err (AssertionFailed "Received less values than expected"%string)
  else Ok (out, results).

Fixpoint add_results (n : nat) (outs results : seq F) : result ProtocolError (seq F) :=
  if outs is out :: outs then
    let* (out, results) := pop_results n out results in
    let* outs := add_results n outs results in
    Ok (out :: outs)
  else Ok [::].

Definition multiplication_many (N : nat) (sids : seq (seq Z)) (participants : ParticipantList)
    (me : Participant) (av bv : seq F) (rng : cs_rng) (inbox : MultiplicationMessages) :
    result ProtocolError (seq SentMessages * seq F) :=
  if N == 0%N then Err (AssertionFailed "N must be greater than 0"%string)
  else
    let others := ParticipantList_others participants me in
    let* (tasks, rng) := multiplication_tasks (iota 0 N) me others rng in
    let* outs := rmap (fun i =>
      let* a_i := vec_index av i in let* b_i := vec_index bv i in Ok (a_i * b_i)) (iota 0 N) in
    let* results := rmap (run_task sids av bv inbox) tasks in
    let* outs := add_results (size others) outs [seq r.2 | r <- results] in
    Ok ([seq r.1 | r <- results], outs).
End Definitions.

(** ** Threshold signatures: multiplication from oblivious transfer is correct

    The two parties of a multiplication end with shares of [a_i * b_j + a_j * b_i]; all participants
    that run [multiplication_many] end with shares of the product of the sums. *)

(** ** The two libraries of lists *)

Lemma ListnthE (T : Type) (d : T) s i : List.nth i s d = nth d s i.
Proof. by elim: s i => [|x s IH] [|i] //=. Qed.

Lemma enumerateE (T : Type) (d : T) s : enumerate s = [seq (i, nth d s i) | i <- iota 0 (size s)].
Proof.
rewrite /enumerate -[List.length s]/(size s) -[List.seq]/iota.
have -> k : combine (iota k (size s)) s = [seq (i, nth d s (i - k)) | i <- iota k (size s)].
  elim: s k => [//|x s IH] k /=; rewrite IH subnn; congr cons.
  by apply/eq_in_map => i; rewrite mem_iota => /andP [k_lt _]; rewrite -(subnSK k_lt).
by apply: eq_map => i; rewrite subn0.
Qed.

Lemma rbindE (E A B : Type) (a : A) (k : A -> result E B) : rbind (Ok a) k = k a.
Proof. by []. Qed.

Lemma rmap_map (E A B T : Type) (f : A -> result E B) (h : T -> A) s :
  rmap f [seq h x | x <- s] = rmap (fun x => f (h x)) s.
Proof. by elim: s => //= x s ->. Qed.

(** A function that picks a value for every element of a list. *)
Lemma choice_in (T : eqType) (Y : Type) (y0 : Y) (P : T -> Y -> Prop) (s : seq T) :
  {in s, forall x, exists y, P x y} -> exists f : T -> Y, {in s, forall x, P x (f x)}.
Proof.
elim: s => [|x s IH] ex; first by exists (fun=> y0).
have [y Py] := ex x (mem_head x s).
have [f Pf] : exists f : T -> Y, {in s, forall x, P x (f x)}.
  by apply: IH => z z_in; apply: ex; rewrite in_cons z_in orbT.
exists (fun z => if z == x then y else f z) => z; rewrite in_cons.
by case: eqP => [-> //|_] /= z_in; exact: Pf.
Qed.

Lemma rmap_allpairs (E B : Type) (S T : eqType) (A : Type) (f : A -> result E B) (t : S -> T -> A) (h : S -> T -> B) s r :
  {in s & r, forall x y, f (t x y) = Ok (h x y)} ->
  rmap f [seq t x y | x <- s, y <- r] = Ok [seq h x y | x <- s, y <- r].
Proof.
move=> fE; have -> : [seq t x y | x <- s, y <- r] = [seq t q.1 q.2 | q <- [seq (x, y) | x <- s, y <- r]].
  by rewrite map_allpairs.
rewrite rmap_map (rmap_all (h := fun q => h q.1 q.2)) ?map_allpairs // => q.
by case/allpairsP => -[x y] [/= x_in y_in ->]; exact: fE.
Qed.

Lemma vec_indexE (T : Type) (d : T) v i : (i < size v)%N -> vec_index v i = Ok (nth d v i).
Proof. by move=> i_lt; rewrite /vec_index (drop_nth d i_lt). Qed.

(** Sums over all pairs of distinct elements, when one of the two is marked in every pair. *)
Lemma tournament_sum (V : nmodType) (T : eqType) (s : seq T) (mark : T -> T -> bool) (f : T -> T -> V) :
  {in s &, forall p q, p != q -> mark q p = ~~ mark p q} ->
  \sum_(p <- s) \sum_(q <- s | q != p) f p q =
  \sum_(p <- s) \sum_(q <- s | (q != p) && mark p q) (f p q + f q p).
Proof.
move=> markN; transitivity (\sum_(p <- s) \sum_(q <- s | (q != p) && mark p q) f p q +
    \sum_(p <- s) \sum_(q <- s | (q != p) && ~~ mark p q) f p q).
  by rewrite -big_split; apply: eq_bigr => p _; rewrite (bigID (mark p)).
have -> : \sum_(p <- s) \sum_(q <- s | (q != p) && ~~ mark p q) f p q =
    \sum_(p <- s) \sum_(q <- s | (q != p) && mark p q) f q p.
  under eq_bigr do rewrite big_mkcond; under [RHS]eq_bigr do rewrite big_mkcond.
  rewrite exchange_big; apply: eq_big_seq => q q_in; apply: eq_big_seq => p p_in.
  by rewrite eq_sym; case: (boolP (p != q)) => //= pq; rewrite -(markN p q) // negbK.
by rewrite -big_split; apply: eq_bigr => p _; rewrite big_split.
Qed.

Section Correct.
Context {K : Keccak} {KL : KeccakLaws} {F : fieldType} {G : lmodType F} {C : Ciphersuite G} {D : DkgSuite C} {O : OtSuite D}.
Context {L : CiphersuiteLaws C} {OL : OtSuiteLaws O}.
Abbreviation g := (@cs_generator F G C).

#[local] Instance suite_hashes_laws : OtHashesLaws (suite_hashes O).
Proof. split; [exact: os_sha256_size | exact: os_sha256_bytes]. Qed.

(** ** Base transfers *)

Definition ot_key (i : nat) (big_x_i big_y p : G) : seq Z :=
  if batch_random_ot_hash i big_x_i big_y p is Ok v then v else [::].

Lemma hash_ok i (X Y P : G) : X != 0 -> Y != 0 -> P != 0 ->
  batch_random_ot_hash i X Y P = Ok (ot_key i X Y P).
Proof.
rewrite /ot_key /batch_random_ot_hash.
by move=> /os_serializeE [bx [-> _ _]] /os_serializeE [by_ [-> _ _]] /os_serializeE [bp [-> _ _]].
Qed.

Lemma send_ok (X : G) : X != 0 -> send_point X = Ok tt.
Proof. by rewrite /send_point => /os_serializeE [b [-> _ _]]. Qed.

Lemma recv_ok (X : G) : X != 0 -> recv_point X = Ok X.
Proof. by rewrite /recv_point => /negPf ->. Qed.

Lemma into_square_ok (m : seq (seq Z)) : size m = 128%N -> into_square m = Ok m.
Proof. by move=> m_size; rewrite /into_square /SquareBitMatrix_try_from -[List.length m]/(size m) m_size. Qed.

Section BaseTransfer.
Context (y : F) (x : seq F) (delta : seq Z).
Hypothesis delta_ok : is_vector SEC_PARAM_64 delta.
Hypothesis y_neq0 : y != 0.
Hypothesis x_generic : forall i, (i < 128)%N -> [/\ x`_i != 0, x`_i != y & x`_i != - y].

Let bit i := nth false (BitVector_bits delta) i.
Let big_y : G := y *: g.
Let big_x i : G := (if bit i then x`_i + y else x`_i) *: g.

Lemma scale_g_neq0 (a : F) : a != 0 -> a *: g != 0.
Proof. by move=> a_neq0; rewrite scaler_eq0 negb_or a_neq0 cs_generator_neq0. Qed.

Lemma big_x_neq0 i : (i < 128)%N -> big_x i != 0.
Proof.
move=> /x_generic [x0 _ xN]; apply: scale_g_neq0; case: (bit i) => //.
by rewrite addr_eq0.
Qed.

Lemma size_bits : size (BitVector_bits delta) = 128%N.
Proof. exact: (length_bits delta delta_ok). Qed.

Let k0 := [seq ot_key i (big_x i) big_y (y *: big_x i) | i <- iota 0 128].
Let k1 := [seq ot_key i (big_x i) big_y (y *: big_x i - y *: big_y) | i <- iota 0 128].
Let k := [seq ot_key i (big_x i) big_y (x`_i *: big_y) | i <- iota 0 128].

Lemma receiver_runs :
  batch_random_ot_receiver delta x big_y = Ok ([seq big_x i | i <- iota 0 128], (delta, k)).
Proof.
rewrite /batch_random_ot_receiver recv_ok ?scale_g_neq0 // rbindE (enumerateE false) size_bits rmap_map.
rewrite (rmap_all (h := fun i => (big_x i, ot_key i (big_x i) big_y (x`_i *: big_y)))).
  move=> i; rewrite mem_iota => /andP [_ i_lt]; have X0 := big_x_neq0 i_lt.
  have -> : (if bit i then x`_i *: g + big_y else x`_i *: g) = big_x i.
    by rewrite /big_x; case: (bit i); rewrite ?scalerDl.
  have [x0 _ _] := x_generic i_lt.
  by rewrite send_ok //= hash_ok // ?scale_g_neq0 // scalerA scale_g_neq0 ?mulf_neq0.
by rewrite rbindE -!map_comp into_square_ok // size_map size_iota.
Qed.

(** The two keys of the sender; the one that the receiver does not choose is of no importance. *)
Lemma sender_runs (big_xs : nat -> G) : (forall i, (i < 128)%N -> big_xs i = big_x i) ->
  batch_random_ot_sender y big_xs = Ok (big_y, (k0, k1)).
Proof.
move=> xsE; rewrite /batch_random_ot_sender send_ok ?scale_g_neq0 // rbindE.
rewrite (rmap_all (h := fun i => (ot_key i (big_x i) big_y (y *: big_x i),
    ot_key i (big_x i) big_y (y *: big_x i - y *: big_y)))).
  move=> i; rewrite mem_iota => /andP [_ i_lt]; have X0 := big_x_neq0 i_lt.
  have [x0 xy xNy] := x_generic i_lt.
  have Y0 : y *: g != 0 by exact: scale_g_neq0.
  have yX0 : y *: big_x i != 0 by rewrite scaler_eq0 negb_or y_neq0.
  have Z0 : y *: big_x i - y *: (y *: g) != 0.
    rewrite /big_x !scalerA -scalerBl scale_g_neq0 //.
    by case: (bit i); rewrite ?mulrDr ?addrK -?mulrBr mulf_neq0 // subr_eq0.
  by rewrite xsE // recv_ok // rbindE !hash_ok.
by rewrite rbindE -!map_comp !into_square_ok // size_map size_iota.
Qed.

Lemma base_transfer : chosen_rows delta k0 k1 k.
Proof.
split; first by rewrite -[List.length k0]/(size k0) size_map size_iota.
split; first by rewrite -[List.length k1]/(size k1) size_map size_iota.
split; first by rewrite -[List.length k]/(size k) size_map size_iota.
move=> j /ltP j_lt; rewrite -(nth_bits delta j delta_ok (ltP j_lt)) !ListnthE.
rewrite !(nth_map 0%N) ?size_iota // nth_iota // add0n -/(bit j).
case E: (bit j); congr (ot_key _ _ _ _); rewrite /big_x E /big_y !scalerA.
  by rewrite -scalerBl mulrDr addrK mulrC.
by rewrite mulrC.
Qed.
End BaseTransfer.

(** ** From multiplicative to additive shares *)

(** The outcome of random transfers: the receiver has the scalar it chose. *)
Definition transferred (v : seq (F * F)) (tv : seq (bool * F)) : bool :=
  (size v == size tv) && all (fun q => q.2.2 == if q.2.1 then q.1.2 else q.1.1) (zip v tv).

Let signed (t : bool) (x : F) : F := if t then - x else x.

Lemma size_transcript_scalars n rng : size (transcript_scalars n rng) = n.
Proof. by elim: n rng => //= n IH rng; case: (os_transcript_random rng) => x r /=; rewrite IH. Qed.

Lemma unmask (v0 v1 w d a : F) (t : bool) : w = (if t then v1 else v0) ->
  (if t then v1 + d - a else v0 + d + a) - w = d + signed t a.
Proof. by move=> ->; case: t; rewrite addrAC (addrC _ d) addrK. Qed.

Lemma mta_sums (v : seq (F * F)) (tv : seq (bool * F)) (delta chi : seq F) a :
  transferred v tv -> size delta = size tv -> size chi = size tv ->
  let m := [seq (if q.1.1 then q.2.2 else q.2.1) - q.1.2 | q <- zip tv (mta_sender_message v a delta)] in
  \sum_(q <- zip chi m) q.1 * q.2 =
  \sum_(q <- zip delta chi) q.1 * q.2 + a * \sum_(q <- zip tv chi) signed q.1.1 q.2.
Proof.
elim: tv v delta chi => [|[t w] tv IH] [|[v0 v1] v] [|d delta] [|c chi] //=.
  by rewrite !big_nil mulr0 addr0.
rewrite /transferred /= eqSS => /andP [size_v /andP [/eqP wE tvE]] [size_d] [size_c].
rewrite !big_cons /= (unmask d a wE) IH ?/transferred ?size_v // !mulrDr addrACA (mulrC c d).
by congr (_ + (_ + _)); rewrite /signed; case: t {wE}; rewrite ?mulrN mulrC.
Qed.

Lemma mta_correct (v : seq (F * F)) (tv : seq (bool * F)) (delta : seq F) a b seed :
  transferred v tv -> size delta = size tv -> (0 < size tv)%N -> is_bytes seed ->
  exists message alpha beta,
  [/\ mta_receiver tv b seed (mta_sender_message v a delta) = Ok (message, beta),
      mta_sender delta message = Ok alpha & alpha + beta = a * b].
Proof.
case: tv v delta => [|[t w] tv] [|[v0 v1] v] [|d delta] //=.
rewrite /transferred /= eqSS => /andP [size_v /andP [/eqP wE tvE]] [size_d] _ seed_ok.
have [prng [prngE _]] := rng_new_fine seed seed_ok.
rewrite /mta_receiver /= !size_map size_zip size_d (eqP size_v) minnn eqxx /= prngE rbindE subn1 /= drop0.
do 3 eexists; split; first by [].
  by rewrite /= prngE rbindE.
set chi := transcript_scalars (size tv) prng; rewrite size_d -/chi.
rewrite !(foldl_sum (fun q : F * F => q.1 * q.2)) (foldl_sum (fun q : (bool * F) * F => signed q.1.1 q.2)) add0r.
rewrite (unmask d a wE) (mta_sums a _ size_d) ?/transferred ?size_v ?size_transcript_scalars //.
set S := \sum_(q <- zip tv chi) _; set A := \sum_(q <- zip delta chi) _.
have -> : (if t then - (b - S) else b - S) * (d + signed t a) =
    d * (if t then - (b - S) else b - S) + a * (b - S).
  by rewrite mulrDr mulrC /signed; case: t {wE}; rewrite ?mulrNN (mulrC a).
by rewrite (addrACA (d * _)) addKr -mulrDr subrK.
Qed.

(** ** Multiplication of two parties *)

Lemma transferredP (v : seq (F * F)) (tv : seq (bool * F)) :
  Forall2 (fun s r => r.2 = if r.1 then s.2 else s.1) v tv -> transferred v tv.
Proof.
elim=> [//|q r {}v {}tv qr _]; rewrite /transferred /= eqSS => /andP [-> ->].
by rewrite qr eqxx.
Qed.

Lemma transferred_split n (v : seq (F * F)) (tv : seq (bool * F)) :
  transferred v tv -> transferred (take n v) (take n tv) /\ transferred (drop n v) (drop n tv).
Proof.
elim: n v tv => [|n IH] [|q v] [|r tv]; rewrite /transferred ?take0 ?drop0 //=.
by rewrite !eqSS => /andP [size_v /andP [-> tvE]]; apply: IH; rewrite /transferred size_v.
Qed.

(** The random values that a sender and a receiver draw. *)
Record sender_package_ok (sp : @MultiplicationSenderRandomPackage F) : Prop := {
  spo_delta : is_vector SEC_PARAM_64 (sp_delta sp);
  spo_seed : is_bytes (sp_seed sp);
  spo_delta0 : size (sp_delta0 sp) = multiplication_batch_size;
  spo_delta1 : size (sp_delta1 sp) = multiplication_batch_size;
}.

Record receiver_package_ok (rp : @MultiplicationReceiverRandomPackage F) : Prop := {
  rpo_b : is_matrix (rp_b rp);
  rpo_b_size : size (rp_b rp) = adjust_size (2 * multiplication_batch_size) %/ SECURITY_PARAMETER;
  rpo_seed0 : is_bytes (rp_seed0 rp);
  rpo_seed1 : is_bytes (rp_seed1 rp);
}.

(** The random scalars of the base transfers are not in one of the few relations in which a point
    to be hashed or sent is the identity. *)
Definition generic (sp : @MultiplicationSenderRandomPackage F) (rp : @MultiplicationReceiverRandomPackage F) : bool :=
  (rp_y rp != 0) &&
  all (fun i => [&& (sp_x sp)`_i != 0, (sp_x sp)`_i != rp_y rp & (sp_x sp)`_i != - rp_y rp]) (iota 0 128).

Lemma genericP sp rp : generic sp rp -> rp_y rp != 0 /\
  forall i, (i < 128)%N -> [/\ (sp_x sp)`_i != 0, (sp_x sp)`_i != rp_y rp & (sp_x sp)`_i != - rp_y rp].
Proof.
case/andP=> y0 /allP xs; split=> // i i_lt; apply/and3P; apply: xs; by rewrite mem_iota.
Qed.

Lemma div_divn m : Nat.div m SECURITY_PARAMETER = m %/ SECURITY_PARAMETER.
Proof.
apply/esym/(@Nat.div_unique m SECURITY_PARAMETER _ (m %% SECURITY_PARAMETER)); first exact/ltP/ltn_pmod.
by rewrite [LHS](divn_eq m SECURITY_PARAMETER) mulnC.
Qed.

Lemma multiplication_pair sid (a_s b_s a_r b_r : F) sp rp :
  sender_package_ok sp -> receiver_package_ok rp -> generic sp rp ->
  exists sm rm gamma_s gamma_r,
  [/\ multiplication_sender sid a_s b_s sp rm = Ok (sm, gamma_s),
      multiplication_receiver sid a_r b_r rp sm = Ok (rm, gamma_r) &
      gamma_s + gamma_r = a_s * b_r + b_s * a_r].
Proof.
move=> [delta_ok seed_ok size0 size1] [b_ok b_size seed0_ok seed1_ok] /genericP [y0 xs].
have receiverE := receiver_runs delta_ok y0 xs.
have rows := base_transfer (rp_y rp) (sp_x sp) delta_ok.
set xs_sent := [seq _ | i <- iota 0 128] in receiverE.
have xsE i : (i < 128)%N -> xs_sent`_i =
    (if nth false (BitVector_bits (sp_delta sp)) i then (sp_x sp)`_i + rp_y rp else (sp_x sp)`_i) *: g.
  by move=> i_lt; rewrite (nth_map 0%N) ?size_iota // nth_iota.
have senderE := sender_runs y0 xs xsE.
have b_len : List.length (rp_b rp) = Nat.div (adjust_size (2 * multiplication_batch_size)) SECURITY_PARAMETER.
  by rewrite div_divn.
have [u [check [out_s [out_r [recvE [sendE [_ [size_r /transferredP trans]]]]]]]] :=
  extension_correct _ _ _ _ _ sid _ delta_ok b_ok rows b_len _ seed_ok.
have [trans0 trans1] := transferred_split multiplication_batch_size trans.
have size_r' : size out_r = (2 * multiplication_batch_size)%N by [].
have size_take : size (take multiplication_batch_size out_r) = multiplication_batch_size.
  by rewrite size_takel // size_r' mulSn leq_addr.
have size_drop' : size (drop multiplication_batch_size out_r) = multiplication_batch_size.
  by rewrite size_drop size_r' mulSn mul1n addnK.
have [chi0 [al0 [be0 [r0 s0 e0]]]] := mta_correct a_s b_r trans0 (etrans size0 (esym size_take)) ltac:(by rewrite size_take) seed0_ok.
have [chi1 [al1 [be1 [r1 s1 e1]]]] := mta_correct b_s a_r trans1 (etrans size1 (esym size_drop')) ltac:(by rewrite size_drop') seed1_ok.
exists (mkSenderMessages xs_sent (sp_seed sp)
  (mta_sender_message (take multiplication_batch_size out_s) a_s (sp_delta0 sp))
  (mta_sender_message (drop multiplication_batch_size out_s) b_s (sp_delta1 sp))).
exists (mkReceiverMessages (rp_y rp *: g) u check chi0 chi1), (al0 + al1), (be0 + be1); split.
- rewrite /multiplication_sender /= receiverE rbindE sendE rbindE s0 rbindE s1.
  by [].
- by rewrite /multiplication_receiver /= senderE rbindE recvE rbindE r0 rbindE r1.
- by rewrite addrACA e0 e1.
Qed.

(** ** Random packages *)

Let next_word := @os_next_u64_word F G C D O OL.
Let filled := @os_fill_bytes F G C D O OL.

Lemma rng_words_ok n rng : is_vector n (rng_words n rng).1.
Proof.
elim: n rng => [|n IH] rng //=; have := next_word rng; case: (os_next_u64 rng) => w r /= w_ok.
by have := IH r; case: (rng_words n r) => ws r' [/= <- ws_ok]; split=> //; constructor.
Qed.

Lemma rng_vectors_ok n rng : is_matrix (rng_vectors n rng).1 /\ size (rng_vectors n rng).1 = n.
Proof.
elim: n rng => [|n IH] rng; first by split=> //; constructor.
rewrite -[rng_vectors n.+1 rng]/(let: (v, rng) := rng_words SEC_PARAM_64 rng in
  let: (vs, rng) := rng_vectors n rng in (v :: vs, rng)).
have := rng_words_ok SEC_PARAM_64 rng; case: (rng_words _ rng) => v r /= v_ok.
by have := IH r; case: (rng_vectors n r) => vs r' [/= vs_ok size_vs]; split; [constructor | rewrite /= size_vs].
Qed.

Lemma sender_package_fine rng : sender_package_ok (generate_sender_package rng).1.
Proof.
rewrite /generate_sender_package.
have := rng_words_ok SEC_PARAM_64 rng; case: (rng_words _ rng) => delta r1 delta_ok.
case: (random_scalars _ r1) => x r2; have := filled r2; case: (dk_fill_bytes r2) => seed r3 seed_ok.
have := random_scalars_size multiplication_batch_size r3; case: (random_scalars _ r3) => d0 r4 d0_size.
have := random_scalars_size multiplication_batch_size r4; case: (random_scalars _ r4) => d1 r5 d1_size.
by split.
Qed.

Lemma receiver_package_fine rng : receiver_package_ok (generate_receiver_package rng).1.
Proof.
rewrite /generate_receiver_package; case: (cs_random rng) => y r1.
set n := (_ %/ _)%N; have := rng_vectors_ok n r1; case: (rng_vectors n r1) => b r2 [/= b_ok b_size].
have := filled r2; case: (dk_fill_bytes r2) => seed0 r3 /= seed0_ok.
by have := filled r3; case: (dk_fill_bytes r3) => seed1 r4 /= seed1_ok.
Qed.

(** ** Roles *)

Lemma bytes_lt_total (a b : seq Z) : a != b -> bytes_lt b a = ~~ bytes_lt a b.
Proof.
elim: a b => [|x a IH] [|y b] //=; rewrite eqseq_cons.
case: (Z.ltb_spec x y) => [xy|xy]; first by have -> : Z.ltb y x = false by apply/Z.ltb_ge; lia.
case: (Z.ltb_spec y x) => // yx; have -> : x = y by lia.
by rewrite eqxx; exact: IH.
Qed.

(** The key of a participant for a multiplication, and that [p] is the sender towards [q]. *)
Definition key_of (i : nat) (p : Participant) : seq Z := if order_key i p is Ok k then k else [::].

Definition is_sender (i : nat) (p q : Participant) : bool := bytes_lt (key_of i q) (key_of i p).

Lemma order_keyE i p : order_key i p = Ok (key_of i p).
Proof. by rewrite /key_of /order_key; have [b ->] := os_msgpack_pairE (Z.of_nat i, p). Qed.

(** A task of [me] with [q], in the role that the keys give. *)
Definition good_task (me : Participant) (i : nat) (q : Participant) (t : @MultiplicationTask F) : Prop :=
  match t with
  | SenderTask j p sp => [/\ j = i, p = q, is_sender i me q & sender_package_ok sp]
  | ReceiverTask j p rp => [/\ j = i, p = q, ~~ is_sender i me q & receiver_package_ok rp]
  end.

Lemma tasks_withP me i others rng : uniq others ->
  exists (tf : Participant -> MultiplicationTask) rng',
    tasks_with i (key_of i me) others rng = Ok ([seq tf q | q <- others], rng') /\
    {in others, forall q, good_task me i q (tf q)}.
Proof.
elim: others rng => [|p others IH] rng /=.
  by exists (fun=> SenderTask 0 Z0 (mkSenderPackage [::] [::] [::] [::] [::])), rng.
case/andP=> p_notin others_uniq; rewrite order_keyE rbindE -/(is_sender i me p).
have [t [r1 [-> t_ok]]] : exists t r1,
    (if is_sender i me p then let: (pkg, rng) := generate_sender_package rng in (SenderTask i p pkg, rng)
     else let: (pkg, rng) := generate_receiver_package rng in (ReceiverTask i p pkg, rng)) = (t, r1) /\
    good_task me i p t.
  case: (boolP (is_sender i me p)) => role.
  - by have := sender_package_fine rng; case: (generate_sender_package rng) => pkg r1 /= ?; exists (SenderTask i p pkg), r1.
  - by have := receiver_package_fine rng; case: (generate_receiver_package rng) => pkg r1 /= ?; exists (ReceiverTask i p pkg), r1.
have [tf [r2 [-> tf_ok]]] := IH r1 others_uniq.
exists (fun q => if q == p then t else tf q), r2; rewrite rbindE eqxx; split.
  congr (Ok (_ :: _, _)); apply/eq_in_map => q q_in.
  by case: eqP q_in p_notin => // -> ->.
move=> q; rewrite in_cons; case: eqP => [-> //|_] /=; exact: tf_ok.
Qed.

Lemma multiplication_tasksP me indices others rng : uniq indices -> uniq others ->
  exists (tf : nat -> Participant -> MultiplicationTask) rng',
    multiplication_tasks indices me others rng = Ok ([seq tf i q | i <- indices, q <- others], rng') /\
    {in indices & others, forall i q, good_task me i q (tf i q)}.
Proof.
move=> + others_uniq; elim: indices rng => [|i indices IH] rng /=.
  by exists (fun _ _ => SenderTask 0 Z0 (mkSenderPackage [::] [::] [::] [::] [::])), rng.
case/andP=> i_notin indices_uniq; rewrite order_keyE rbindE.
have [tf [r1 [-> tf_ok]]] := tasks_withP me i rng others_uniq; rewrite rbindE.
have [tfs [r2 [-> tfs_ok]]] := IH r1 indices_uniq; rewrite rbindE.
exists (fun j => if j == i then tf else tfs j), r2; rewrite eqxx; split.
  congr (Ok (_ ++ flatten _, _)); apply/eq_in_map => j j_in; apply: eq_map => q.
  by case: eqP j_in i_notin => // -> ->.
by move=> j q; rewrite in_cons; case: eqP => [-> _|_ /= j_in] q_in; [exact: tf_ok | exact: tfs_ok].
Qed.

(** ** Multiplication with all participants *)

Lemma pop_resultsE (rs rest : seq F) (out : F) :
  pop_results (size rs) out (rs ++ rest) = Ok (out + \sum_(r <- rs) r, rest).
Proof.
elim: rs out => [|r rs IH] out /=; first by rewrite big_nil addr0.
by rewrite IH big_cons addrA.
Qed.

Lemma add_resultsE (T : Type) (o : nat -> F) (r : nat -> T -> F) indices (others : seq T) :
  add_results (size others) [seq o i | i <- indices] [seq r i q | i <- indices, q <- others] =
  Ok [seq o i + \sum_(q <- others) r i q | i <- indices].
Proof.
elim: indices => [//|i indices IH] /=.
by rewrite -(size_map (r i)) pop_resultsE rbindE size_map IH big_map.
Qed.

Section Many.
Context (l : ParticipantList) (N : nat) (sids : seq (seq Z)) (av bv : Participant -> seq F).
Context (rngs : Participant -> @cs_rng F G C).
Hypothesis l_ok : ParticipantList_ok l.
Hypothesis N_gt0 : (0 < N)%N.
Hypothesis sids_size : size sids = N.
Hypothesis av_size : {in pl_participants l, forall p, size (av p) = N}.
Hypothesis bv_size : {in pl_participants l, forall p, size (bv p) = N}.
Hypothesis keys_distinct : {in pl_participants l &, forall p q, p != q ->
  forall i, (i < N)%N -> key_of i p != key_of i q}.

(** The tasks of a participant, with their random packages. *)
Definition tasks_of (p : Participant) : seq (@MultiplicationTask F) :=
  if multiplication_tasks (iota 0 N) p (ParticipantList_others l p) (rngs p) is Ok (tasks, _) then tasks else [::].

Hypothesis all_generic : {in pl_participants l &, forall p q i sp rp,
  List.In (SenderTask i q sp) (tasks_of p) -> List.In (ReceiverTask i p rp) (tasks_of q) -> generic sp rp}.

Abbreviation ps := (pl_participants l).

Lemma tasks_ofP : exists tf : Participant -> nat -> Participant -> @MultiplicationTask F,
  {in ps, forall p, exists rng',
    multiplication_tasks (iota 0 N) p (ParticipantList_others l p) (rngs p) = Ok (tasks_of p, rng') /\
    tasks_of p = [seq tf p i q | i <- iota 0 N, q <- ParticipantList_others l p] /\
    {in iota 0 N & ParticipantList_others l p, forall i q, good_task p i q (tf p i q)}}.
Proof.
pose dflt (_ : nat) (_ : Participant) : @MultiplicationTask F :=
  SenderTask 0 Z0 (mkSenderPackage [::] [::] [::] [::] [::]).
apply: (@choice_in _ _ dflt (fun p tfp => exists rng',
    multiplication_tasks (iota 0 N) p (ParticipantList_others l p) (rngs p) = Ok (tasks_of p, rng') /\
    tasks_of p = [seq tfp i q | i <- iota 0 N, q <- ParticipantList_others l p] /\
    {in iota 0 N & ParticipantList_others l p, forall i q, good_task p i q (tfp i q)})) => p p_in.
have [tf [rng' [tasksE tf_ok]]] :=
  multiplication_tasksP p (rngs p) (iota_uniq 0 N) (others_uniq p l_ok).
by exists tf, rng'; rewrite /tasks_of tasksE.
Qed.

(** What the two parties of one multiplication send and get. *)
Definition exchanged (i : nat) (p q : Participant) (sp : @MultiplicationSenderRandomPackage F)
    (rp : @MultiplicationReceiverRandomPackage F)
    (y : @SenderMessages F G * @ReceiverMessages F G * (F * F)) : Prop :=
  [/\ multiplication_sender (nth [::] sids i) (av p)`_i (bv p)`_i sp y.1.2 = Ok (y.1.1, y.2.1),
      multiplication_receiver (nth [::] sids i) (av q)`_i (bv q)`_i rp y.1.1 = Ok (y.1.2, y.2.2) &
      y.2.1 + y.2.2 = (av p)`_i * (bv q)`_i + (bv p)`_i * (av q)`_i].

(** The packages in a task. *)
Definition task_sender (t : @MultiplicationTask F) : @MultiplicationSenderRandomPackage F :=
  if t is SenderTask _ _ sp then sp else mkSenderPackage [::] [::] [::] [::] [::].

Definition task_receiver (t : @MultiplicationTask F) : @MultiplicationReceiverRandomPackage F :=
  if t is ReceiverTask _ _ rp then rp else mkReceiverPackage 0 [::] [::] [::].

Lemma other_in p q : p \in ps -> q \in ps -> p != q -> q \in ParticipantList_others l p.
Proof. by move=> p_in q_in pq; rewrite othersE q_in eq_sym. Qed.

Lemma sender_opposite i p q : (i < N)%N -> p \in ps -> q \in ps -> p != q ->
  is_sender i q p = ~~ is_sender i p q.
Proof. by move=> i_lt p_in q_in pq; apply: bytes_lt_total; rewrite eq_sym keys_distinct. Qed.

Section Exchange.
Context (tf : Participant -> nat -> Participant -> @MultiplicationTask F).
Hypothesis tf_ok : {in ps, forall p, exists rng',
    multiplication_tasks (iota 0 N) p (ParticipantList_others l p) (rngs p) = Ok (tasks_of p, rng') /\
    tasks_of p = [seq tf p i q | i <- iota 0 N, q <- ParticipantList_others l p] /\
    {in iota 0 N & ParticipantList_others l p, forall i q, good_task p i q (tf p i q)}}.

Lemma task_in i p q : (i < N)%N -> p \in ps -> q \in ps -> p != q ->
  List.In (tf p i q) (tasks_of p) /\ good_task p i q (tf p i q).
Proof.
move=> i_lt p_in q_in pq; have [r [_ [-> good]]] := tf_ok p_in.
have i_in : i \in iota 0 N by rewrite mem_iota.
have q_in' := other_in p_in q_in pq; split; last exact: good.
elim: (iota 0 N) i_in => // j s IH; rewrite in_cons allpairs_cons => /orP [/eqP <-|i_in].
  apply/List.in_or_app; left; elim: (ParticipantList_others l p) q_in' => // z t IHt.
  by rewrite in_cons => /orP [/eqP <-|/IHt]; [left | right].
by apply/List.in_or_app; right; exact: IH.
Qed.

Lemma exchange_exists i p q : (i < N)%N -> p \in ps -> q \in ps -> p != q -> is_sender i p q ->
  exists y, exchanged i p q (task_sender (tf p i q)) (task_receiver (tf q i p)) y.
Proof.
move=> i_lt p_in q_in pq sends; have qp : q != p by rewrite eq_sym.
have [in_p] := task_in i_lt p_in q_in pq; have [in_q] := task_in i_lt q_in p_in qp.
have := sender_opposite i_lt p_in q_in pq; rewrite sends /= => receives.
case: (tf p i q) in_p => j z sp in_p; case: (tf q i p) in_q => j' z' rp in_q //=;
  rewrite ?receives ?sends; try by move=> [? ? ? ?] [? ? ? ?].
move=> [jE' zE' _ rp_ok] [jE zE _ sp_ok]; subst j z j' z'.
have [sm [rm [gs [gr [E1 E2 E3]]]]] := multiplication_pair (nth [::] sids i) (av p)`_i (bv p)`_i (av q)`_i (bv q)`_i
  sp_ok rp_ok (all_generic p_in q_in in_p in_q).
by exists (sm, rm, (gs, gr)).
Qed.

Context (y : nat * (Participant * Participant) -> @SenderMessages F G * @ReceiverMessages F G * (F * F)).
Hypothesis y_ok : forall i p q, (i < N)%N -> p \in ps -> q \in ps -> p != q -> is_sender i p q ->
  exchanged i p q (task_sender (tf p i q)) (task_receiver (tf q i p)) (y (i, (p, q))).

Definition honest_inbox (p : Participant) : @MultiplicationMessages F G :=
  mkMultiplicationMessages (fun i q => (y (i, (q, p))).1.1) (fun i q => (y (i, (p, q))).1.2).

(** What [p] sends to [q] and gets in the multiplication [i]. *)
Definition pair_outcome (p : Participant) (i : nat) (q : Participant) : @SentMessages F G * F :=
  if is_sender i p q then (SentAsSender i q (y (i, (p, q))).1.1, (y (i, (p, q))).2.1)
  else (SentAsReceiver i q (y (i, (q, p))).1.2, (y (i, (q, p))).2.2).

Lemma run_taskE p i q : (i < N)%N -> p \in ps -> q \in ps -> p != q ->
  run_task sids (av p) (bv p) (honest_inbox p) (tf p i q) = Ok (pair_outcome p i q).
Proof.
move=> i_lt p_in q_in pq; have qp : q != p by rewrite eq_sym.
have [_] := task_in i_lt p_in q_in pq; rewrite /pair_outcome.
have sizes := (vec_indexE [::] (v := sids) (i := i), vec_indexE 0 (v := av p) (i := i), vec_indexE 0 (v := bv p) (i := i)).
case: (boolP (is_sender i p q)) => role.
- have := y_ok i_lt p_in q_in pq role; case: (tf p i q) => j z pkg; last by move=> _ []; rewrite role.
  by case=> E _ _ [jE zE _ _]; subst j z; rewrite /= !sizes ?av_size ?bv_size ?sids_size //= E.
- have role' : is_sender i q p by rewrite (sender_opposite i_lt p_in q_in pq).
  have := y_ok i_lt q_in p_in qp role'; case: (tf p i q) => j z pkg; first by move=> _ []; rewrite (negPf role).
  by case=> _ E _ [jE zE _ _]; subst j z; rewrite /= !sizes ?av_size ?bv_size ?sids_size //= E.
Qed.

Definition honest_sent (p : Participant) : seq (@SentMessages F G) :=
  [seq (pair_outcome p i q).1 | i <- iota 0 N, q <- ParticipantList_others l p].

Definition honest_out (p : Participant) : seq F :=
  [seq (av p)`_i * (bv p)`_i + \sum_(q <- ParticipantList_others l p) (pair_outcome p i q).2 | i <- iota 0 N].

Lemma honest_many p : p \in ps ->
  multiplication_many N sids l p (av p) (bv p) (rngs p) (honest_inbox p) = Ok (honest_sent p, honest_out p).
Proof.
move=> p_in; rewrite /multiplication_many; case: eqP N_gt0 => [-> //|_ _].
have [r [-> [-> _]]] := tf_ok p_in; rewrite rbindE.
rewrite (rmap_all (h := fun i => (av p)`_i * (bv p)`_i)) => [i|].
  by rewrite mem_iota => /andP [_ i_lt]; rewrite !(vec_indexE 0) ?av_size ?bv_size.
rewrite rbindE (rmap_allpairs (h := pair_outcome p)) => [i q|].
  rewrite mem_iota othersE => /andP [_ i_lt] /andP [q_in qp].
  by apply: run_taskE => //; rewrite eq_sym.
by rewrite rbindE map_allpairs add_resultsE rbindE map_allpairs.
Qed.

Lemma others_big p (f : Participant -> F) : p \in ps ->
  \sum_(q <- ParticipantList_others l p) f q = \sum_(q <- ps | q != p) f q.
Proof.
move=> p_in; rewrite (perm_big _ (perm_others l_ok p_in)) big_cons eqxx /= [RHS]big_seq_cond [LHS]big_seq.
by apply: eq_bigl => q; rewrite othersE; case: (q \in ps); case: (q != p).
Qed.

Lemma outcomes_sum p q i : (i < N)%N -> p \in ps -> q \in ps -> p != q -> is_sender i p q ->
  (pair_outcome p i q).2 + (pair_outcome q i p).2 = (av p)`_i * (bv q)`_i + (av q)`_i * (bv p)`_i.
Proof.
move=> i_lt p_in q_in pq role; rewrite /pair_outcome role (sender_opposite i_lt p_in q_in pq) role /=.
by have [_ _ ->] := y_ok i_lt p_in q_in pq role; rewrite (mulrC (bv p)`_i).
Qed.

Lemma honest_sum i : (i < N)%N ->
  \sum_(p <- ps) (honest_out p)`_i = (\sum_(p <- ps) (av p)`_i) * (\sum_(p <- ps) (bv p)`_i).
Proof.
move=> i_lt; have opposite : {in ps &, forall p q, p != q -> is_sender i q p = ~~ is_sender i p q}.
  by move=> p q p_in q_in; exact: sender_opposite.
have sumE p : p \in ps -> (honest_out p)`_i =
    (av p)`_i * (bv p)`_i + \sum_(q <- ps | q != p) (pair_outcome p i q).2.
  by move=> p_in; rewrite (nth_map 0%N) ?size_iota // nth_iota // add0n others_big.
rewrite (eq_big_seq _ sumE) big_split /= (tournament_sum (fun p q => (pair_outcome p i q).2) opposite).
have prodE p : p \in ps -> (av p)`_i * (\sum_(q <- ps) (bv q)`_i) =
    (av p)`_i * (bv p)`_i + \sum_(q <- ps | q != p) (av p)`_i * (bv q)`_i.
  move=> p_in; rewrite (perm_big _ (perm_others l_ok p_in)) big_cons mulrDr mulr_sumr.
  by rewrite (others_big (fun q => (av p)`_i * (bv q)`_i) p_in).
rewrite mulr_suml (eq_big_seq _ prodE) big_split /= (tournament_sum (fun p q => (av p)`_i * (bv q)`_i) opposite).
congr (_ + _); apply: eq_big_seq => p p_in; rewrite [LHS]big_seq_cond [RHS]big_seq_cond; apply: eq_bigr => q /and3P [q_in qp role].
by apply: outcomes_sum => //; rewrite eq_sym.
Qed.

(** Messages arrive as they were sent. *)
Lemma honest_delivery p q i : p \in ps -> q \in ps ->
  (forall m, List.In (SentAsSender i q m) (honest_sent p) -> mm_sender (honest_inbox q) i p = m) /\
  (forall m, List.In (SentAsReceiver i q m) (honest_sent p) -> mm_receiver (honest_inbox q) i p = m).
Proof.
move=> p_in q_in; have sentP x : List.In x (honest_sent p) -> exists j z, x = (pair_outcome p j z).1.
  rewrite /honest_sent; elim: (iota 0 N) => // j s IH; rewrite allpairs_cons => x_in; case: (List.in_app_or _ _ _ x_in) => [|/IH //] {x_in}.
  by elim: (ParticipantList_others l p) => // z t IHt /= [<-|/IHt //]; exists j, z.
by split=> m /sentP [j [z]]; rewrite /pair_outcome; case: (is_sender j p z) => //= -[-> -> ->].
Qed.
End Exchange.

(** All participants run [multiplication_many] with the same session identifiers. *)
Lemma multiplication_many_correct :
  exists (inbox : Participant -> @MultiplicationMessages F G) (sent : Participant -> seq (@SentMessages F G))
    (out : Participant -> seq F),
  [/\ {in ps, forall p, multiplication_many N sids l p (av p) (bv p) (rngs p) (inbox p) = Ok (sent p, out p)},
      {in ps &, forall p q i,
        (forall m, List.In (SentAsSender i q m) (sent p) -> mm_sender (inbox q) i p = m) /\
        (forall m, List.In (SentAsReceiver i q m) (sent p) -> mm_receiver (inbox q) i p = m)},
      {in ps, forall p, size (out p) = N} &
      forall i, (i < N)%N ->
        \sum_(p <- ps) (out p)`_i = (\sum_(p <- ps) (av p)`_i) * (\sum_(p <- ps) (bv p)`_i)].
Proof.
have [tf tf_ok] := tasks_ofP.
pose dflt := (mkSenderMessages [::] [::] [::] [::] : @SenderMessages F G,
  mkReceiverMessages 0 [::] ([::], [::]) (0, [::]) (0, [::]) : @ReceiverMessages F G, (0 : F, 0 : F)).
pose triples := [seq (i, pq) | i <- iota 0 N, pq <- [seq (p, q) | p <- ps, q <- ps]].
have [y y_ok] : exists y, {in triples, forall x, x.2.1 != x.2.2 -> is_sender x.1 x.2.1 x.2.2 ->
    exchanged x.1 x.2.1 x.2.2 (task_sender (tf x.2.1 x.1 x.2.2)) (task_receiver (tf x.2.2 x.1 x.2.1)) (y x)}.
  apply: (@choice_in _ _ dflt (fun x y => x.2.1 != x.2.2 -> is_sender x.1 x.2.1 x.2.2 ->
    exchanged x.1 x.2.1 x.2.2 (task_sender (tf x.2.1 x.1 x.2.2)) (task_receiver (tf x.2.2 x.1 x.2.1)) y)).
  move=> x /allpairsP [[i pq] [/= i_in /allpairsP [[p q] [/= p_in q_in ->]] ->]] /=.
  have i_lt : (i < N)%N by move: i_in; rewrite mem_iota.
  case: (boolP (p != q)) => pq'; last by exists dflt.
  case: (boolP (is_sender i p q)) => role; last by exists dflt.
  by have [y Hy] := exchange_exists tf_ok i_lt p_in q_in pq' role; exists y.
have {}y_ok i p q : (i < N)%N -> p \in ps -> q \in ps -> p != q -> is_sender i p q ->
    exchanged i p q (task_sender (tf p i q)) (task_receiver (tf q i p)) (y (i, (p, q))).
  move=> i_lt p_in q_in; apply: (y_ok (i, (p, q))); apply/allpairsP; exists (i, (p, q)).
  by split; rewrite ?mem_iota //=; apply/allpairsP; exists (p, q).
exists (honest_inbox y), (honest_sent y), (honest_out y); split.
- by move=> p p_in; exact: (honest_many tf_ok y_ok).
- by move=> p q p_in q_in i; exact: honest_delivery.
- by move=> p _; rewrite size_map size_iota.
- by move=> i i_lt; exact: (honest_sum y_ok).
Qed.
End Many.
End Correct.
