(* ===== verification/ProofSystems.v ===== *)
(** * Threshold signatures: commitments and proofs of discrete logarithms

    [crypto/commitment.rs], [crypto/proofs/dlog.rs] and [crypto/proofs/dlogeq.rs] of
    [src/crates/threshold-signatures/src/].  A prover and a verifier use forks of one transcript,
    which they drop afterwards.  [frost_core::random_nonzero] on the generator of a transcript is the
    class [ChallengeSuite]; the messages to be committed to are given by their encoding.

    Honest commitments open and honest proofs verify. *)

From Stdlib Require Import ZArith Lia String List.
From mathcomp Require Import boot ssralg poly.
From S2P Require Import TsTypes TsParticipants Polynomials Interpolation Dkg DkgProofs DkgHonest.
From S2P Require Import TripleBits TripleGf Transcript TripleExtension.
From S2P Require Import TripleMul.
Set Implicit Arguments.
Unset Strict Implicit.
Unset Printing Implicit Defensive.
Import GRing.Theory.
Local Open Scope ring_scope.
Local Open Scope ts_scope.

Class ChallengeSuite (F : fieldType) := { ch_random_nonzero : Strobe128 -> F }.

Definition NEAR_COMMIT_LABEL : seq Z := ascii_bytes "Near threshold signature commitment"%string.
Definition START_LABEL : seq Z := ascii_bytes "start data"%string.
Definition NEAR_DLOG_STATEMENT_LABEL : seq Z := ascii_bytes "dlog proof statement"%string.
Definition NEAR_DLOG_COMMITMENT_LABEL : seq Z := ascii_bytes "dlog proof commitment"%string.
Definition NEAR_DLOG_CHALLENGE_LABEL : seq Z := ascii_bytes "dlog proof challenge"%string.
Definition NEAR_DLOG_ENCODE_LABEL_STATEMENT : seq Z := ascii_bytes "statement:"%string.
Definition NEAR_DLOG_ENCODE_LABEL_PUBLIC : seq Z := ascii_bytes "public:"%string.
Definition NEAR_DLOGEQ_STATEMENT_LABEL : seq Z := ascii_bytes "dlogeq proof statement"%string.
Definition NEAR_DLOGEQ_COMMITMENT_LABEL : seq Z := ascii_bytes "dlogeq proof commitment"%string.
Definition NEAR_DLOGEQ_CHALLENGE_LABEL : seq Z := ascii_bytes "dlogeq proof challenge"%string.
Definition NEAR_DLOGEQ_ENCODE_LABEL_STATEMENT : seq Z := ascii_bytes "statement:"%string.
Definition NEAR_DLOGEQ_ENCODE_LABEL_PUBLIC0 : seq Z := ascii_bytes "public 0:"%string.
Definition NEAR_DLOGEQ_ENCODE_LABEL_PUBLIC1 : seq Z := ascii_bytes "public 1:"%string.
Definition NEAR_DLOGEQ_ENCODE_LABEL_GENERATOR1 : seq Z := ascii_bytes "generator 1:"%string.

Section Definitions.
Context {K : Keccak} {F : fieldType} {G : lmodType F} {C : Ciphersuite G} {D : DkgSuite C} {H : ChallengeSuite F}.
Implicit Types (transcript : Strobe128) (public : G).

(** ** Commitments *)

(** [encoded] is the encoding of the value, if there is one. *)
Definition Commitment_compute (encoded : option (seq Z)) (r : seq Z) : result ProtocolError (seq Z) :=
  let* encoded := ok_or encoded ErrorEncoding in
  Ok (dk_sha256 (NEAR_COMMIT_LABEL ++ r ++ START_LABEL ++ encoded)).

Definition Commitment_check (c : seq Z) (encoded : option (seq Z)) (r : seq Z) : result ProtocolError bool :=
  let* actual := Commitment_compute encoded r in
  Ok (c == actual).

Definition commit (encoded : option (seq Z)) (rng : cs_rng) : result ProtocolError (seq Z * seq Z * cs_rng) :=
  let: (r, rng) := dk_fill_bytes rng in
  let* c := Commitment_compute encoded r in
  Ok (c, r, rng).

(** ** Knowledge of a discrete logarithm *)

Record DlogProof := mkDlogProof { dp_e : F; dp_s : F }.

Definition dlog_encode public : result ProtocolError (seq Z) :=
  if dk_serialize_element public is Some ser then
    Ok (NEAR_DLOG_ENCODE_LABEL_STATEMENT ++ NEAR_DLOG_ENCODE_LABEL_PUBLIC ++ ser)
  else Err PointSerialization.

Definition dlog_prove_with_nonce transcript public (x : F) (nonce : F * G) : result ProtocolError DlogProof :=
  let* enc := dlog_encode public in
  let* transcript := Transcript_message NEAR_DLOG_STATEMENT_LABEL enc transcript in
  let: (k, big_k) := nonce in
  let* ser := ok_or (dk_serialize_element big_k) IdentityElement in
  let* transcript := Transcript_message NEAR_DLOG_COMMITMENT_LABEL ser transcript in
  let* rng := Transcript_challenge_then_build_rng NEAR_DLOG_CHALLENGE_LABEL transcript in
  let e := ch_random_nonzero rng in
  Ok (mkDlogProof e (k + e * x)).

Definition dlog_verify transcript public (proof : DlogProof) : result ProtocolError bool :=
  let* enc := dlog_encode public in
  let* transcript := Transcript_message NEAR_DLOG_STATEMENT_LABEL enc transcript in
  let big_k := dp_s proof *: cs_generator - dp_e proof *: public in
  let* ser := ok_or (dk_serialize_element big_k) IdentityElement in
  let* transcript := Transcript_message NEAR_DLOG_COMMITMENT_LABEL ser transcript in
  let* rng := Transcript_challenge_then_build_rng NEAR_DLOG_CHALLENGE_LABEL transcript in
  let e := ch_random_nonzero rng in
  Ok (e == dp_e proof).

(** ** Equality of two discrete logarithms *)

Record DlogEqStatement := mkDlogEqStatement { de_public0 : G; de_generator1 : G; de_public1 : G }.

Record DlogEqProof := mkDlogEqProof { dq_e : F; dq_s : F }.

Definition element_into (point : G) (label : seq Z) : result ProtocolError (seq Z) :=
  if dk_serialize_element point is Some ser then Ok (label ++ ser) else Err PointSerialization.

Definition dlogeq_phi (statement : DlogEqStatement) (x : F) : G * G :=
  (x *: cs_generator, x *: de_generator1 statement).

Definition dlogeq_encode (statement : DlogEqStatement) : result ProtocolError (seq Z) :=
  let* ser0 := element_into (de_public0 statement) NEAR_DLOGEQ_ENCODE_LABEL_PUBLIC0 in
  let* ser1 := element_into (de_generator1 statement) NEAR_DLOGEQ_ENCODE_LABEL_GENERATOR1 in
  let* ser2 := element_into (de_public1 statement) NEAR_DLOGEQ_ENCODE_LABEL_PUBLIC1 in
  Ok (NEAR_DLOGEQ_ENCODE_LABEL_STATEMENT ++ ser0 ++ ser1 ++ ser2).

Definition encode_two_points (point_1 point_2 : G) : result ProtocolError (seq Z) :=
  let* ser1 := ok_or (dk_serialize_element point_1) IdentityElement in
  let* ser2 := ok_or (dk_serialize_element point_2) IdentityElement in
  Ok (ser1 ++ ascii_bytes " and "%string ++ ser2).

Definition dlogeq_prove_with_nonce transcript (statement : DlogEqStatement) (x k : F) :
    result ProtocolError DlogEqProof :=
  if de_generator1 statement == 0 then Err IdentityElement
  else
    let* enc := dlogeq_encode statement in
    let* transcript := Transcript_message NEAR_DLOGEQ_STATEMENT_LABEL enc transcript in
    let: (big_k_0, big_k_1) := dlogeq_phi statement k in
    let* enc := encode_two_points big_k_0 big_k_1 in
    let* transcript := Transcript_message NEAR_DLOGEQ_COMMITMENT_LABEL enc transcript in
    let* rng := Transcript_challenge_then_build_rng NEAR_DLOGEQ_CHALLENGE_LABEL transcript in
    let e := ch_random_nonzero rng in
    Ok (mkDlogEqProof e (k + e * x)).

Definition dlogeq_verify transcript (statement : DlogEqStatement) (proof : DlogEqProof) :
    result ProtocolError bool :=
  if de_generator1 statement == 0 then Err IdentityElement
  else
    let* enc := dlogeq_encode statement in
    let* transcript := Transcript_message NEAR_DLOGEQ_STATEMENT_LABEL enc transcript in
    let: (phi0, phi1) := dlogeq_phi statement (dq_s proof) in
    let big_k0 := phi0 - dq_e proof *: de_public0 statement in
    let big_k1 := phi1 - dq_e proof *: de_public1 statement in
    let* enc := encode_two_points big_k0 big_k1 in
    let* transcript := Transcript_message NEAR_DLOGEQ_COMMITMENT_LABEL enc transcript in
    let* rng := Transcript_challenge_then_build_rng NEAR_DLOGEQ_CHALLENGE_LABEL transcript in
    let e := ch_random_nonzero rng in
    Ok (e == dq_e proof).
End Definitions.

(** ** Completeness *)

Section Complete.
Context {K : Keccak} {KL : KeccakLaws} {F : fieldType} {G : lmodType F} {C : Ciphersuite G} {D : DkgSuite C} {O : OtSuite D}.
Context {H : ChallengeSuite F} {L : CiphersuiteLaws C} {OL : OtSuiteLaws O}.
Abbreviation g := (@cs_generator F G C).
Implicit Types (transcript : Strobe128).

Lemma commit_checks (encoded : option (seq Z)) rng c r rng' :
  commit encoded rng = Ok (c, r, rng') -> Commitment_check c encoded r = Ok true.
Proof.
rewrite /commit /Commitment_check; case: (dk_fill_bytes rng) => r1 rng1.
by case E: (Commitment_compute encoded r1) => [c'||] //= [<- <- _]; rewrite E /= eqxx.
Qed.

Lemma is_bytes_cat (a b : seq Z) : is_bytes a -> is_bytes b -> is_bytes (a ++ b).
Proof. by move=> a_ok b_ok; apply/Forall_app. Qed.

(** Labels and serialized points are short messages. *)
Lemma short_cat (a b : seq Z) n m : is_bytes a -> is_bytes b -> size a = n -> size b = m ->
  (Z.of_nat (n + m) < 2 ^ 32)%Z -> short (a ++ b).
Proof.
move=> a_ok b_ok <- <- bound; split; first exact: is_bytes_cat.
by rewrite -[List.length _]/(size (a ++ b)) size_cat.
Qed.

Let serialized (X : G) : X != 0 -> exists b, [/\ dk_serialize_element X = Some b, is_bytes b & size b = 33%N].
Proof. exact: (@os_serializeE F G C D O OL). Qed.

Lemma dlog_encode_fine public : public != 0 -> exists2 enc, dlog_encode public = Ok enc & short enc.
Proof.
move=> /serialized [b [E b_ok b_size]]; rewrite /dlog_encode E; eexists; first by [].
by apply: (short_cat (n := 10)); rewrite ?size_cat ?b_size //; try apply: is_bytes_cat => //; exact: ascii_is_bytes.
Qed.

Lemma serialized_short (X : G) : X != 0 -> exists2 b, dk_serialize_element X = Some b & short b.
Proof. by move=> /serialized [b [E b_ok b_size]]; exists b => //; split=> //; rewrite -[List.length b]/(size b) b_size. Qed.

Lemma dlog_complete transcript (x k : F) : Strobe_ok transcript -> x != 0 -> k != 0 ->
  exists2 proof, dlog_prove_with_nonce transcript (x *: g) x (k, k *: g) = Ok proof &
    dlog_verify transcript (x *: g) proof = Ok true.
Proof.
move=> t_ok x0 k0; rewrite /dlog_prove_with_nonce /dlog_verify.
have [enc -> enc_ok] := dlog_encode_fine (scale_g_neq0 x0); rewrite rbindE.
have [t1 [t1E t1_ok]] := message_fine NEAR_DLOG_STATEMENT_LABEL enc transcript (ascii_is_bytes _) enc_ok t_ok.
have [ser serE ser_ok] := serialized_short (scale_g_neq0 k0).
have [t2 [t2E t2_ok]] := message_fine NEAR_DLOG_COMMITMENT_LABEL ser t1 (ascii_is_bytes _) ser_ok t1_ok.
have [t3 [t3E _]] := challenge_rng_fine NEAR_DLOG_CHALLENGE_LABEL t2 (ascii_is_bytes _) t2_ok.
rewrite ?rbindE t1E rbindE serE rbindE t2E rbindE t3E; eexists; first by [].
by rewrite [dp_s _]/= [dp_e _]/= scalerA -scalerBl addrK ?rbindE t1E rbindE serE /= t2E /= t3E /= eqxx.
Qed.

Lemma element_into_fine (X : G) label n : X != 0 -> is_bytes label -> size label = n ->
  exists b, [/\ element_into X label = Ok b, is_bytes b & size b = (n + 33)%N].
Proof.
move=> /serialized [b [E b_ok b_size]] label_ok <-; rewrite /element_into E; eexists; split; first by [].
  exact: is_bytes_cat.
by rewrite size_cat b_size.
Qed.

Lemma dlogeq_encode_fine (X Y W : G) : X != 0 -> Y != 0 -> W != 0 ->
  exists2 enc, dlogeq_encode (mkDlogEqStatement X Y W) = Ok enc & short enc.
Proof.
move=> X0 Y0 W0; rewrite /dlogeq_encode.
have [b0 [b0E b0_ok b0_size]] := element_into_fine X0 (ascii_is_bytes "public 0:") erefl.
have [b1 [b1E b1_ok b1_size]] := element_into_fine Y0 (ascii_is_bytes "generator 1:") erefl.
have [b2 [b2E b2_ok b2_size]] := element_into_fine W0 (ascii_is_bytes "public 1:") erefl.
rewrite b0E rbindE b1E rbindE b2E rbindE; eexists; first by [].
by apply: (short_cat (n := 10)); rewrite ?size_cat ?b0_size ?b1_size ?b2_size //; do ?apply: is_bytes_cat => //; exact: ascii_is_bytes.
Qed.

Lemma encode_two_points_fine (X Y : G) : X != 0 -> Y != 0 ->
  exists2 enc, encode_two_points X Y = Ok enc & short enc.
Proof.
move=> /serialized [b [E b_ok b_size]] /serialized [c [E' c_ok c_size]]; rewrite /encode_two_points E E' !rbindE.
eexists; first by [].
by apply: (short_cat (n := 33)); rewrite ?size_cat ?c_size //; try apply: is_bytes_cat => //; exact: ascii_is_bytes.
Qed.

Lemma dlogeq_complete transcript (x k : F) (Y : G) :
  Strobe_ok transcript -> x != 0 -> k != 0 -> Y != 0 ->
  exists2 proof, dlogeq_prove_with_nonce transcript (mkDlogEqStatement (x *: g) Y (x *: Y)) x k = Ok proof &
    dlogeq_verify transcript (mkDlogEqStatement (x *: g) Y (x *: Y)) proof = Ok true.
Proof.
move=> t_ok x0 k0 Y0; have scaleY a : a != 0 -> a *: Y != 0 by move=> a0; rewrite scaler_eq0 negb_or a0.
rewrite /dlogeq_prove_with_nonce /dlogeq_verify /= (negPf Y0).
have [enc -> enc_ok] := dlogeq_encode_fine (scale_g_neq0 x0) Y0 (scaleY x x0); rewrite rbindE.
have [t1 [t1E t1_ok]] := message_fine NEAR_DLOGEQ_STATEMENT_LABEL enc transcript (ascii_is_bytes _) enc_ok t_ok.
have [ser serE ser_ok] := encode_two_points_fine (scale_g_neq0 k0) (scaleY k k0).
have [t2 [t2E t2_ok]] := message_fine NEAR_DLOGEQ_COMMITMENT_LABEL ser t1 (ascii_is_bytes _) ser_ok t1_ok.
have [t3 [t3E _]] := challenge_rng_fine NEAR_DLOGEQ_CHALLENGE_LABEL t2 (ascii_is_bytes _) t2_ok.
rewrite ?rbindE t1E rbindE serE rbindE t2E rbindE t3E; eexists; first by [].
by rewrite [dq_s _]/= [dq_e _]/= !scalerA -!scalerBl !addrK ?rbindE t1E rbindE serE /= t2E /= t3E /= eqxx.
Qed.
End Complete.
