(* ===== verification/TripleGeneration.v ===== *)
(** * Threshold signatures: generation of Beaver triples

    [src/crates/threshold-signatures/src/ecdsa/ot_based_ecdsa/triples/generation.rs].  A party's
    run of [do_generation_many] is a composition of its steps: functions from what the party holds
    and what the channels delivered to what it holds and sends next.  Messages are the values that
    were deserialized; a queue holds them in order of arrival, and a run that still waits for
    messages is [None].  The code keeps a vector per quantity; here the quantities of one triple
    form a record.  Vectors in messages are indexed without a check of their length, so that a short
    vector panics.

    The two tasks that run in parallel, the multiplication and the exchange of commitments and
    shares, are composed in this order. *)

From Stdlib Require Import ZArith Lia String List.
From mathcomp Require Import boot ssralg poly.
From S2P Require Import TsTypes TsParticipants Polynomials Interpolation Dkg RobustEcdsa OtEcdsa.
From S2P Require Import TripleBits TripleGf Transcript TripleExtension.
From S2P Require Import TripleMul ProofSystems.
Set Implicit Arguments.
Unset Strict Implicit.
Unset Printing Implicit Defensive.
Import GRing.Theory.
Local Open Scope ring_scope.
Local Open Scope ts_scope.

(** [random_nonzero] on the caller's generator, and the encodings. *)
Class GenerationSuite (F : fieldType) (G : lmodType F) (C : Ciphersuite G) (D : DkgSuite C) := {
  gs_random_nonzero : cs_rng -> F * cs_rng;
  gs_msgpack_participants : seq Participant -> option (seq Z);
  gs_msgpack_polynomials :
    @PolynomialCommitment F G * @PolynomialCommitment F G * @PolynomialCommitment F G -> option (seq Z);
  gs_msgpack_commitments : ParticipantMap (seq Z) -> option (seq Z);
  gs_msgpack_hashes : seq (seq Z) -> option (seq Z);
}.

(** What is documented of them: [random_nonzero] and the secret part of a nonce are not zero; an
    encoding consists of bytes; that of points fails when one is the identity; that of at most
    [2^20] hashes is shorter than [2^32] bytes. *)
Class GenerationSuiteLaws (F : fieldType) (G : lmodType F) (C : Ciphersuite G) (D : DkgSuite C)
    (GS : GenerationSuite D) : Prop := {
  gs_random_nonzeroE : forall rng, (gs_random_nonzero rng).1 != 0;
  gs_nonce_neq0 : forall rng, (dk_generate_nonce rng).1.1 != 0;
  gs_msgpack_participantsE : forall ps b, gs_msgpack_participants ps = Some b -> is_bytes b;
  gs_msgpack_polynomialsE : forall e f l b, gs_msgpack_polynomials (e, f, l) = Some b ->
    all (fun c => c != 0) (pcom_coefficients e ++ pcom_coefficients f ++ pcom_coefficients l);
  gs_msgpack_commitmentsE : forall m, exists b, gs_msgpack_commitments m = Some b;
  gs_msgpack_hashesE : forall hs, Z.le (Z.of_nat (size hs)) (2 ^ 20) ->
    exists2 b, gs_msgpack_hashes hs = Some b & short b;
}.

Definition NEAR_TRIPLE_GENERATION_LABEL : seq Z :=
  ascii_bytes "Near threshold signatures triple generation"%string.
Definition NAME : seq Z := ascii_bytes "Secp256K1Sha256"%string.

Section Definitions.
Context {K : Keccak} {F : fieldType} {G : lmodType F} {C : Ciphersuite G} {D : DkgSuite C} {O : OtSuite D}.
Context {H : ChallengeSuite F} {GS : GenerationSuite D}.
Implicit Types (participants : ParticipantList) (me from : Participant) (transcript : Strobe128) (N : nat).

(** [Participant::bytes]. *)
Definition Participant_bytes (p : Participant) : seq Z := le_bytes_of 4 p.

Definition create_transcript participants (threshold : Z) : result ProtocolError Strobe128 :=
  let* transcript := Transcript_new NEAR_TRIPLE_GENERATION_LABEL in
  let* transcript := Transcript_message (ascii_bytes "group"%string) NAME transcript in
  let* enc := ok_or (gs_msgpack_participants (pl_participants participants)) ErrorEncoding in
  let* transcript := Transcript_message (ascii_bytes "participants"%string) enc transcript in
  Transcript_message (ascii_bytes "threshold"%string) (rev (le_bytes_of 8 threshold)) transcript.

(** ** Polynomials and commitments *)

Record TripleSecrets := mkTripleSecrets {
  tg_e : @Polynomial F; tg_f : @Polynomial F; tg_l : @Polynomial F;
  tg_big_e : @PolynomialCommitment F G; tg_big_f : @PolynomialCommitment F G; tg_big_l : @PolynomialCommitment F G;
  tg_commitment : seq Z; tg_randomizer : seq Z;
}.

(** [.map_err(|_| ProtocolError::PointSerialization)]. *)
Definition as_point_error (A : Type) (r : result ProtocolError A) : result ProtocolError A :=
  if r is Err _ then Err PointSerialization else r.

(** Spec 1.2 to 1.5. *)
Definition generate_secrets (degree1 degree2 : Z) (rng : cs_rng) : result ProtocolError (TripleSecrets * cs_rng) :=
  let* (e, rng) := Polynomial_generate_polynomial None degree1 rng in
  let* (f, rng) := Polynomial_generate_polynomial None degree1 rng in
  let* (l, rng) := Polynomial_generate_polynomial None degree2 rng in
  let* big_e := Polynomial_commit_polynomial e in
  let* big_f := Polynomial_commit_polynomial f in
  let* big_l := Polynomial_commit_polynomial l in
  let* (commitment, randomizer, rng) :=
    as_point_error (commit (gs_msgpack_polynomials (big_e, big_f, big_l)) rng) in
  Ok (mkTripleSecrets e f l big_e big_f big_l commitment randomizer, rng).

Fixpoint generate_secrets_many (n : nat) (degree1 degree2 : Z) (rng : cs_rng) :
    result ProtocolError (seq TripleSecrets * cs_rng) :=
  if n is n.+1 then
    let* (secrets, rng) := generate_secrets degree1 degree2 rng in
    let* (rest, rng) := generate_secrets_many n degree1 degree2 rng in
    Ok (secrets :: rest, rng)
  else Ok ([::], rng).

(** What a party holds when it sends its commitments. *)
Record Start := mkStart { st_transcript : Strobe128; st_secrets : seq TripleSecrets; st_rng : cs_rng }.

Definition generation_start N participants (threshold : Z) (rng : cs_rng) : result ProtocolError Start :=
  if N == 0%N then Panic "assertion failed: N > 0"%string
  else
    let* transcript := create_transcript participants threshold in
    let* degree1 := ok_or (checked_sub threshold 1) IntegerOverflow in
    let* degree2 := ok_or (checked_sub threshold 2) IntegerOverflow in
    let* (secrets, rng) := generate_secrets_many N degree1 degree2 rng in
    Ok (mkStart transcript secrets rng).

(** Spec 2.1: the commitments of everybody, a map per triple. *)
Definition put_commitments N (maps : seq (ParticipantMap (seq Z))) from (commitments : seq (seq Z)) :
    result ProtocolError (seq (ParticipantMap (seq Z))) :=
  rmap (fun i =>
    let* m := vec_index maps i in
    let* c := vec_index commitments i in
    Ok (ParticipantMap_put m from c)) (iota 0 N).

Fixpoint receive_commitments N (maps : seq (ParticipantMap (seq Z))) (queue : seq (Participant * seq (seq Z))) :
    run (seq (ParticipantMap (seq Z))) :=
  if all (@ParticipantMap_full _) maps then Some (Ok maps)
  else if queue is (from, commitments) :: queue then
    run_bind (Some (put_commitments N maps from commitments)) (fun maps => receive_commitments N maps queue)
  else None.

Definition own_commitments participants me (secrets : seq TripleSecrets) : seq (ParticipantMap (seq Z)) :=
  [seq ParticipantMap_put (ParticipantMap_new participants) me (tg_commitment s) | s <- secrets].

(** [hash(c)] of such a map. *)
Definition confirmation_hash (m : ParticipantMap (seq Z)) : result ProtocolError (seq Z) :=
  let* encoded := ok_or (gs_msgpack_commitments m) ErrorEncoding in
  Ok (dk_sha256 (NEAR_HASH_LABEL ++ encoded)).

Fixpoint generate_nonces (n : nat) (rng : cs_rng) : seq (F * G) * cs_rng :=
  if n is n.+1 then
    let: (nonce, rng) := dk_generate_nonce rng in
    let: (nonces, rng) := generate_nonces n rng in (nonce :: nonces, rng)
  else ([::], rng).

Fixpoint random_nonzeros (n : nat) (rng : cs_rng) : seq F * cs_rng :=
  if n is n.+1 then
    let: (x, rng) := gs_random_nonzero rng in
    let: (xs, rng) := random_nonzeros n rng in (x :: xs, rng)
  else ([::], rng).

(** What a party holds after the commitments: confirmations, nonces, the transcript and the random
    numbers that are left for the multiplication. *)
Record Confirmed := mkConfirmed {
  cf_transcript : Strobe128;
  cf_confirmations : seq (seq Z);
  cf_nonces0 : seq (F * G);
  cf_nonces1 : seq (F * G);
  cf_noncesq : seq F;
  cf_nonces2 : seq (F * G);
  cf_rng : cs_rng;
}.

(** Spec 2.2 and 2.3. *)
Definition generation_confirm N transcript (maps : seq (ParticipantMap (seq Z))) (rng : cs_rng) :
    result ProtocolError Confirmed :=
  let* confirmations := rmap confirmation_hash maps in
  let* enc := ok_or (gs_msgpack_hashes confirmations) ErrorEncoding in
  let* transcript := Transcript_message (ascii_bytes "confirmation"%string) enc transcript in
  let: (nonces0, rng) := generate_nonces N rng in
  let: (nonces1, rng) := generate_nonces N rng in
  let: (noncesq, rng) := random_nonzeros N rng in
  let: (nonces2, rng) := generate_nonces N rng in
  Ok (mkConfirmed transcript confirmations nonces0 nonces1 noncesq nonces2 rng).

(** ** Openings *)

Record PolynomialCommitmentsMessageMany := mkOpening {
  om_big_e_v : seq (@PolynomialCommitment F G);
  om_big_f_v : seq (@PolynomialCommitment F G);
  om_big_l_v : seq (@PolynomialCommitment F G);
  om_randomizer_v : seq (seq Z);
  om_phi_proof0_v : seq (@DlogProof F);
  om_phi_proof1_v : seq (@DlogProof F);
}.

(** Values that hold points are sent when all points can be serialized. *)
Definition send_points (ps : seq G) : result ProtocolError unit :=
  if all (fun p => isSome (dk_serialize_element p)) ps then Ok tt else Err ErrorEncoding.

(** A proof about one of the party's polynomials, on a fork of the transcript. *)
Definition prove_constant transcript (label : seq Z) me (big_p : @PolynomialCommitment F G)
    (p : @Polynomial F) (nonce : F * G) : result ProtocolError (@DlogProof F) :=
  let* public := PolynomialCommitment_eval_at_zero big_p in
  let* x := Polynomial_eval_at_zero p in
  let* fork := Transcript_fork label (Participant_bytes me) transcript in
  dlog_prove_with_nonce fork public x nonce.

(** Spec 2.6 and 2.7: the message. *)
Definition generation_opening N me (secrets : seq TripleSecrets) (cf : Confirmed) :
    result ProtocolError PolynomialCommitmentsMessageMany :=
  let* proofs := rmap (fun i =>
    let* s := vec_index secrets i in
    let* nonce0 := vec_index (cf_nonces0 cf) i in
    let* proof0 := prove_constant (cf_transcript cf) (ascii_bytes "dlog0"%string) me (tg_big_e s) (tg_e s) nonce0 in
    let* nonce1 := vec_index (cf_nonces1 cf) i in
    let* proof1 := prove_constant (cf_transcript cf) (ascii_bytes "dlog1"%string) me (tg_big_f s) (tg_f s) nonce1 in
    Ok (proof0, proof1)) (iota 0 N) in
  let* _ := send_points (flatten [seq pcom_coefficients (tg_big_e s) ++ pcom_coefficients (tg_big_f s) ++
                                   pcom_coefficients (tg_big_l s) | s <- secrets]) in
  Ok (mkOpening [seq tg_big_e s | s <- secrets] [seq tg_big_f s | s <- secrets] [seq tg_big_l s | s <- secrets]
        [seq tg_randomizer s | s <- secrets] [seq q.1 | q <- proofs] [seq q.2 | q <- proofs]).

(** Spec 2.8: the shares for [p]. *)
Definition generation_shares (secrets : seq TripleSecrets) (p : Participant) :
    result ProtocolError (seq F * seq F) :=
  let* shares := rmap (fun s =>
    let* a := Polynomial_eval_at_participant (tg_e s) p in
    let* b := Polynomial_eval_at_participant (tg_f s) p in
    Ok (a, b)) secrets in
  Ok ([seq q.1 | q <- shares], [seq q.2 | q <- shares]).

(** Spec 3.1 and 3.2. *)
Fixpoint check_confirmations (confirmations : seq (seq Z)) (messages : seq (Participant * seq (seq Z))) :
    result ProtocolError unit :=
  if messages is (from, confirmation) :: messages then
    if confirmation != confirmations then
      Err (AssertionFailed "confirmation did not match expectation"%string)
    else check_confirmations confirmations messages
  else Ok tt.

(** A loop over messages, which for every triple updates a state. *)
Fixpoint fold_messages (M S : Type) N (step : Participant * M -> nat -> S -> result ProtocolError S)
    (messages : seq (Participant * M)) (states : seq S) : result ProtocolError (seq S) :=
  if messages is m :: messages then
    let* states := rmap (fun i => let* s := vec_index states i in step m i s) (iota 0 N) in
    fold_messages N step messages states
  else Ok states.

(** The sums of the commitments, and the constant terms of the [E]s. *)
Record TripleSums := mkTripleSums {
  su_big_e : @PolynomialCommitment F G;
  su_big_f : @PolynomialCommitment F G;
  su_big_l : @PolynomialCommitment F G;
  su_big_e_zero : ParticipantMap G;
}.

Definition initial_sums participants (s : TripleSecrets) : TripleSums :=
  mkTripleSums (tg_big_e s) (tg_big_f s) (tg_big_l s) (ParticipantMap_new participants).

(** The verification of such a proof. *)
Definition verify_constant transcript (label : seq Z) from (big_p : @PolynomialCommitment F G)
    (proof : @DlogProof F) : result ProtocolError unit :=
  let* public := PolynomialCommitment_eval_at_zero big_p in
  let* fork := Transcript_fork label (Participant_bytes from) transcript in
  let* valid := dlog_verify fork public proof in
  if valid then Ok tt else Err (AssertionFailed "dlog proof failed to verify"%string).

(** Spec 3.3, 3.4 and 3.6 for one triple. *)
Definition check_opening (threshold : Z) transcript (maps : seq (ParticipantMap (seq Z)))
    (message : Participant * PolynomialCommitmentsMessageMany) (i : nat) (sums : TripleSums) :
    result ProtocolError TripleSums :=
  let: (from, their) := message in
  let* all_commitments := vec_index maps i in
  let* their_big_e := vec_index (om_big_e_v their) i in
  let* their_big_f := vec_index (om_big_f_v their) i in
  let* their_big_l := vec_index (om_big_l_v their) i in
  let* their_randomizer := vec_index (om_randomizer_v their) i in
  let* their_phi_proof0 := vec_index (om_phi_proof0_v their) i in
  let* their_phi_proof1 := vec_index (om_phi_proof1_v their) i in
  if [|| Z.of_nat (PolynomialCommitment_degree their_big_e) != (threshold - 1)%Z,
         Z.of_nat (PolynomialCommitment_degree their_big_f) != (threshold - 1)%Z |
         Z.of_nat (PolynomialCommitment_degree their_big_l) != (threshold - 2)%Z] then
    Err (AssertionFailed "polynomial has the wrong length"%string)
  else
    let* commitment := ParticipantMap_index all_commitments from in
    let* matches := as_point_error (Commitment_check commitment
      (gs_msgpack_polynomials (their_big_e, their_big_f, their_big_l)) their_randomizer) in
    if ~~ matches then Err (AssertionFailed "commitment did not match revealed F"%string)
    else
      let* _ := verify_constant transcript (ascii_bytes "dlog0"%string) from their_big_e their_phi_proof0 in
      let* _ := verify_constant transcript (ascii_bytes "dlog1"%string) from their_big_f their_phi_proof1 in
      let* big_e_zero := PolynomialCommitment_eval_at_zero their_big_e in
      let* big_e := PolynomialCommitment_add (su_big_e sums) their_big_e in
      let* big_f := PolynomialCommitment_add (su_big_f sums) their_big_f in
      let* big_l := PolynomialCommitment_add (su_big_l sums) their_big_l in
      Ok (mkTripleSums big_e big_f big_l (ParticipantMap_put (su_big_e_zero sums) from big_e_zero)).

(** Spec 3.5 and 3.6. *)
Definition add_share_pair (message : Participant * (seq F * seq F)) (i : nat) (ab : F * F) :
    result ProtocolError (F * F) :=
  let* a_j_i := vec_index message.2.1 i in
  let* b_j_i := vec_index message.2.2 i in
  Ok (ab.1 + a_j_i, ab.2 + b_j_i).

(** ** Products *)

(** Spec 3.7 to 3.9 for one triple. *)
Definition prove_product me transcript (s : TripleSecrets) (sums : TripleSums) (ab : F * F) (nonce : F) :
    result ProtocolError (G * @DlogEqProof F) :=
  let* big_e_me := PolynomialCommitment_eval_at_participant (su_big_e sums) me in
  let* big_f_me := PolynomialCommitment_eval_at_participant (su_big_f sums) me in
  if (big_e_me != ab.1 *: cs_generator) || (big_f_me != ab.2 *: cs_generator) then
    Err (AssertionFailed "received bad private share"%string)
  else
    let* big_f_zero := PolynomialCommitment_eval_at_zero (su_big_f sums) in
    let* e_zero := Polynomial_eval_at_zero (tg_e s) in
    let big_c_i := e_zero *: big_f_zero in
    let* big_e_zero := PolynomialCommitment_eval_at_zero (tg_big_e s) in
    let* fork := Transcript_fork (ascii_bytes "dlogeq0"%string) (Participant_bytes me) transcript in
    let* proof := dlogeq_prove_with_nonce fork (mkDlogEqStatement big_e_zero big_f_zero big_c_i) e_zero nonce in
    Ok (big_c_i, proof).

(** The products and proofs that a party sends (Spec 3.10). *)
Definition generation_products N me transcript (secrets : seq TripleSecrets) (sums : seq TripleSums)
    (shares : seq (F * F)) (nonces : seq F) : result ProtocolError (seq G * seq (@DlogEqProof F)) :=
  let* products := rmap (fun i =>
    let* s := vec_index secrets i in
    let* su := vec_index sums i in
    let* ab := vec_index shares i in
    let* nonce := vec_index nonces i in
    prove_product me transcript s su ab nonce) (iota 0 N) in
  let* _ := send_points [seq q.1 | q <- products] in
  Ok ([seq q.1 | q <- products], [seq q.2 | q <- products]).

(** Spec 4.1 to 4.3 for one triple. *)
Definition check_product transcript (sums : seq TripleSums)
    (message : Participant * (seq G * seq (@DlogEqProof F))) (i : nat) (big_c : G) : result ProtocolError G :=
  let: (from, (big_c_j_v, their_phi_proofs)) := message in
  let* su := vec_index sums i in
  let* big_c_j := vec_index big_c_j_v i in
  let* their_phi_proof := vec_index their_phi_proofs i in
  let* big_e_j_zero := ParticipantMap_index (su_big_e_zero su) from in
  let* big_f_zero := PolynomialCommitment_eval_at_zero (su_big_f su) in
  let* fork := Transcript_fork (ascii_bytes "dlogeq0"%string) (Participant_bytes from) transcript in
  let* valid := dlogeq_verify fork (mkDlogEqStatement big_e_j_zero big_f_zero big_c_j) their_phi_proof in
  if ~~ valid then Err (AssertionFailed "dlogeq proof failed to verify"%string)
  else Ok (big_c + big_c_j).

(** ** The exchange of commitments and shares *)

(** What the channels deliver: the queues of the seven waitpoints and the multiplications. *)
Record GenerationReceived := mkGenerationReceived {
  gr_commitments : seq (Participant * seq (seq Z));
  gr_confirmations : seq (Participant * seq (seq Z));
  gr_openings : seq (Participant * PolynomialCommitmentsMessageMany);
  gr_shares : seq (Participant * (seq F * seq F));
  gr_products : seq (Participant * (seq G * seq (@DlogEqProof F)));
  gr_hats : seq (Participant * (seq G * seq (@DlogProof F)));
  gr_c_shares : seq (Participant * seq F);
  gr_multiplication : @MultiplicationMessages F G;
}.

(** The output of the task: the sums, with the [L]s extended by the identity, the products and the
    shares. *)
Record ParallelOutput := mkParallelOutput {
  pl_sums : seq TripleSums;
  pl_big_l : seq (@PolynomialCommitment F G);
  pl_big_c : seq G;
  pl_shares : seq (F * F);
}.

Definition parallel_to_multiplication_task N participants me (threshold : Z) (secrets : seq TripleSecrets)
    (maps : seq (ParticipantMap (seq Z))) (cf : Confirmed) (rc : GenerationReceived) : run ParallelOutput :=
  let transcript := cf_transcript cf in
  run_bind (Some (generation_opening N me secrets cf)) (fun _ =>
  run_bind (Some (rmap (generation_shares secrets) (ParticipantList_others participants me))) (fun _ =>
  run_bind (Some (generation_shares secrets me)) (fun '(a_i_v, b_i_v) =>
  run_bind (recv_await participants me (gr_confirmations rc)) (fun confirmations =>
  run_bind (Some (check_confirmations (cf_confirmations cf) confirmations)) (fun _ =>
  run_bind (recv_await participants me (gr_openings rc)) (fun openings =>
  run_bind (Some (fold_messages N (check_opening threshold transcript maps) openings
                    [seq initial_sums participants s | s <- secrets])) (fun sums =>
  run_bind (recv_await participants me (gr_shares rc)) (fun shares =>
  run_bind (Some (fold_messages N add_share_pair shares (zip a_i_v b_i_v))) (fun shares =>
  run_bind (Some (generation_products N me transcript secrets sums shares (cf_noncesq cf)))
    (fun '(big_c_i_v, _) =>
  run_bind (recv_await participants me (gr_products rc)) (fun products =>
  run_bind (Some (fold_messages N (check_product transcript sums) products (take N big_c_i_v)))
    (fun big_c_v =>
  run_bind (Some (rmap (fun su => PolynomialCommitment_extend_with_identity (su_big_l su)) sums))
    (fun big_l_v =>
  Some (Ok (mkParallelOutput sums big_l_v big_c_v shares))))))))))))))).

(** ** The last steps *)

(** Spec 4.5 to 4.8. *)
Definition generation_hats me transcript (l0_v : seq F) (nonces : seq (F * G)) :
    result ProtocolError (seq G * seq (@DlogProof F)) :=
  let* hats := rmap (fun '(i, l0) =>
    let hat_big_c_i := l0 *: cs_generator in
    let* fork := Transcript_fork (ascii_bytes "dlog2"%string) (Participant_bytes me) transcript in
    let* nonce := vec_index nonces i in
    let* proof := dlog_prove_with_nonce fork hat_big_c_i l0 nonce in
    Ok (hat_big_c_i, proof)) (enumerate l0_v) in
  let* _ := send_points [seq q.1 | q <- hats] in
  Ok ([seq q.1 | q <- hats], [seq q.2 | q <- hats]).

(** Spec 4.9: the polynomial of a triple gets its constant. *)
Definition complete_l N (secrets : seq TripleSecrets) (l0_v : seq F) : result ProtocolError (seq (@Polynomial F)) :=
  rmap (fun i =>
    let* s := vec_index secrets i in
    let* l0 := vec_index l0_v i in
    let* l := Polynomial_extend_with_zero (tg_l s) in
    Polynomial_set_nonzero_constant l l0) (iota 0 N).

(** The shares of the products for [p]. *)
Definition generation_c_shares (l_v : seq (@Polynomial F)) (p : Participant) : result ProtocolError (seq F) :=
  rmap (fun l => Polynomial_eval_at_participant l p) l_v.

(** Spec 5.1 to 5.3 for one triple. *)
Definition check_hat transcript (message : Participant * (seq G * seq (@DlogProof F))) (i : nat) (hat_big_c : G) :
    result ProtocolError G :=
  let: (from, (their_hat_big_c_i_points, their_phi_proofs)) := message in
  let* their_hat_big_c := vec_index their_hat_big_c_i_points i in
  let* their_phi_proof := vec_index their_phi_proofs i in
  let* fork := Transcript_fork (ascii_bytes "dlog2"%string) (Participant_bytes from) transcript in
  let* valid := dlog_verify fork their_hat_big_c their_phi_proof in
  if ~~ valid then Err (AssertionFailed "dlog proof failed to verify"%string)
  else Ok (hat_big_c + their_hat_big_c).

(** Spec 5.3 and 5.4. *)
Definition check_constant (big_l : @PolynomialCommitment F G) (hat_big_c big_c : G) :
    result ProtocolError (@PolynomialCommitment F G) :=
  let* big_l := PolynomialCommitment_set_non_identity_constant big_l hat_big_c in
  let* constant := PolynomialCommitment_eval_at_zero big_l in
  if constant != big_c then Err (AssertionFailed "final polynomial doesn't match C value"%string)
  else Ok big_l.

(** Spec 5.5 and 5.6. *)
Definition add_c_share (message : Participant * seq F) (i : nat) (c_i : F) : result ProtocolError F :=
  let* c_j_i := vec_index message.2 i in Ok (c_i + c_j_i).

(** Spec 5.7. *)
Definition finish_triple participants me (threshold : Z) (big_l : @PolynomialCommitment F G) (sums : TripleSums)
    (big_c : G) (ab : F * F) (c_i : F) : result ProtocolError (@TripleShare F * @TriplePub F G) :=
  let* big_l_me := PolynomialCommitment_eval_at_participant big_l me in
  if big_l_me != c_i *: cs_generator then
    Err (AssertionFailed "received bad private share of c"%string)
  else
    let* big_a := PolynomialCommitment_eval_at_zero (su_big_e sums) in
    let* big_b := PolynomialCommitment_eval_at_zero (su_big_f sums) in
    Ok (mkTripleShare ab.1 ab.2 c_i, mkTriplePub big_a big_b big_c (pl_participants participants) threshold).

Definition generation_finish N participants me (threshold : Z) (secrets : seq TripleSecrets) (cf : Confirmed)
    (l0_v : seq F) (po : ParallelOutput) (rc : GenerationReceived) : run (seq (@TripleShare F * @TriplePub F G)) :=
  let transcript := cf_transcript cf in
  run_bind (Some (generation_hats me transcript l0_v (cf_nonces2 cf))) (fun '(hat_big_c_i_v, _) =>
  run_bind (Some (complete_l N secrets l0_v)) (fun l_v =>
  run_bind (Some (rmap (generation_c_shares l_v) (ParticipantList_others participants me))) (fun _ =>
  run_bind (Some (generation_c_shares l_v me)) (fun c_i_v =>
  run_bind (recv_await participants me (gr_hats rc)) (fun hats =>
  run_bind (Some (fold_messages N (check_hat transcript) hats (take N hat_big_c_i_v))) (fun hat_big_c_v =>
  run_bind (Some (rmap (fun i =>
      let* big_l := vec_index (pl_big_l po) i in
      let* hat_big_c := vec_index hat_big_c_v i in
      let* big_c := vec_index (pl_big_c po) i in
      check_constant big_l hat_big_c big_c) (iota 0 N))) (fun big_l_v =>
  run_bind (recv_await participants me (gr_c_shares rc)) (fun c_shares =>
  run_bind (Some (fold_messages N add_c_share c_shares c_i_v)) (fun c_i_v =>
  Some (rmap (fun i =>
    let* big_l := vec_index big_l_v i in
    let* sums := vec_index (pl_sums po) i in
    let* big_c := vec_index (pl_big_c po) i in
    let* ab := vec_index (pl_shares po) i in
    let* c_i := vec_index c_i_v i in
    finish_triple participants me threshold big_l sums big_c ab c_i) (iota 0 N))))))))))).

(** ** The protocol *)

(** The constant terms that are multiplied. *)
Definition constant_terms (secrets : seq TripleSecrets) : result ProtocolError (seq F * seq F) :=
  let* e0_v := rmap (fun s => Polynomial_eval_at_zero (tg_e s)) secrets in
  let* f0_v := rmap (fun s => Polynomial_eval_at_zero (tg_f s)) secrets in
  Ok (e0_v, f0_v).

Definition do_generation_many N participants me (threshold : Z) (rng : cs_rng) (rc : GenerationReceived) :
    run (seq (@TripleShare F * @TriplePub F G)) :=
  run_bind (Some (generation_start N participants threshold rng)) (fun st =>
  let secrets := st_secrets st in
  run_bind (receive_commitments N (own_commitments participants me secrets) (gr_commitments rc)) (fun maps =>
  run_bind (Some (generation_confirm N (st_transcript st) maps (st_rng st))) (fun cf =>
  run_bind (Some (constant_terms secrets)) (fun '(e0_v, f0_v) =>
  run_bind (Some (multiplication_many N (cf_confirmations cf) participants me e0_v f0_v (cf_rng cf)
                    (gr_multiplication rc))) (fun '(_, l0_v) =>
  run_bind (parallel_to_multiplication_task N participants me threshold secrets maps cf rc) (fun po =>
  generation_finish N participants me threshold secrets cf l0_v po rc)))))).

Definition do_generation participants me (threshold : Z) (rng : cs_rng) (rc : GenerationReceived) :
    run (@TripleShare F * @TriplePub F G) :=
  run_bind (do_generation_many 1 participants me threshold rng rc) (fun triples =>
  if triples is [:: triple] then Some (Ok triple)
  else Some (Err (Other "Triple generation did not output one element"%string))).

(** ** Entry points *)

Definition validate_triple_inputs (participants : seq Participant) (threshold : Z) :
    result InitializationError (ParticipantList * Z) :=
  let len := Z.of_nat (size participants) in
  if (size participants < 2)%N then Err (NotEnoughParticipants len)
  else if Z.ltb len threshold then Err (ThresholdTooLarge threshold len)
  else if Z.ltb threshold 2 then Err (ThresholdTooSmall threshold 2)
  else
    let* participants := ok_or (ParticipantList_new participants) DuplicateParticipants in
    Ok (participants, threshold).

Definition triple_generation_max_incoming_buffer_entries (num_participants num_triples : Z) :
    result InitializationError Z :=
  let* peers := ok_or (checked_sub num_participants 1) (BadParameters "num_participants must be > 0"%string) in
  ok_or (if checked_mul 131 num_triples is Some v then
           if checked_mul v peers is Some v then checked_add v 7 else None
         else None) (BadParameters "buffer size overflow"%string).

(** The run, and the capacity of the buffer for incoming messages. *)
Definition generate_triple_many N (participants : seq Participant) me (threshold : Z) (rng : cs_rng)
    (rc : GenerationReceived) :
    result InitializationError (Z * run (seq (@TripleShare F * @TriplePub F G))) :=
  let* (participants, threshold) := validate_triple_inputs participants threshold in
  let* capacity := triple_generation_max_incoming_buffer_entries
    (Z.of_nat (ParticipantList_len participants)) (Z.of_nat N) in
  Ok (capacity, do_generation_many N participants me threshold rng rc).

Definition generate_triple (participants : seq Participant) me (threshold : Z) (rng : cs_rng)
    (rc : GenerationReceived) : result InitializationError (Z * run (@TripleShare F * @TriplePub F G)) :=
  let* (participants, threshold) := validate_triple_inputs participants threshold in
  let* capacity := triple_generation_max_incoming_buffer_entries
    (Z.of_nat (ParticipantList_len participants)) 1 in
  Ok (capacity, do_generation participants me threshold rng rc).
End Definitions.
