(* ===== verification/TripleHonest.v ===== *)
(** * Threshold signatures: honest generation of Beaver triples

    When all participants follow [do_generation_many] and the messages arrive, every run returns
    shares of the same triples. *)

From Stdlib Require Import ZArith Lia String List.
From mathcomp Require Import boot ssralg poly.
From S2P Require Import TsTypes TsParticipants Polynomials Interpolation Dkg DkgProofs DkgHonest RobustEcdsa.
From S2P Require Import OtEcdsa TripleBits TripleGf Transcript TripleExtension TripleMul ProofSystems.
From S2P Require Import TripleGeneration.
Set Implicit Arguments.
Unset Strict Implicit.
Unset Printing Implicit Defensive.
Import GRing.Theory.
Local Open Scope ring_scope.
Local Open Scope ts_scope.

(** ** Maps *)

Lemma ParticipantMap_ext (T : Type) (m n : ParticipantMap T) :
  ParticipantMap_ok m -> ParticipantMap_ok n -> pm_participants m = pm_participants n ->
  {in pl_participants (pm_participants m), forall p, ParticipantMap_get m p = ParticipantMap_get n p} -> m = n.
Proof.
case: m n => [l d c] [l' d' c'] [/= l_ok [d_len ->]] [/= _ [d_len' ->]] ll; subst l' => eq_get.
have -> // : d = d'; apply/(@nth_ext _ d d' None None); first by rewrite d_len d_len'.
move=> i; rewrite d_len => i_lt.
have [p p_nth] : exists p, nth_error (pl_participants l) i = Some p.
  by case E: (nth_error _ _) => [p|]; [exists p | move/nth_error_None: E; lia].
have p_in : p \in pl_participants l by apply/InP; exact: nth_error_In p_nth.
have := eq_get p p_in; rewrite /ParticipantMap_get /= (proj2 (proj2 l_ok p i) p_nth).
have [x xE] : exists x, nth_error d i = Some x.
  by case E: (nth_error d i) => [x|]; [exists x | move/nth_error_None: E; lia].
have [y yE] : exists y, nth_error d' i = Some y.
  by case E: (nth_error d' i) => [y|]; [exists y | move/nth_error_None: E; lia].
by rewrite xE yE (nth_error_nth _ _ None xE) (nth_error_nth _ _ None yE).
Qed.

(** ** Committed polynomials *)

Section Commitments.
Context {F : fieldType} {G : lmodType F} {C : Ciphersuite G} {L : CiphersuiteLaws C}.
Abbreviation g := (@cs_generator F G C).
Abbreviation xof p := (Z_to_F (p + 1) : F).
Implicit Types (f h : {poly F}) (p : Participant).

Definition commit_poly f : @PolynomialCommitment F G := mkPolynomialCommitment [seq c *: g | c <- (f : seq F)].

Lemma commit_polyE (s : @Polynomial F) : Polynomial_ok s ->
  Polynomial_commit_polynomial s = Ok (commit_poly (to_poly s)).
Proof. by move=> s_ok; rewrite Polynomial_commit_polynomialE // /commit_poly -Polynomial_ok_polyseq. Qed.

Lemma commit_poly_ok f : f != 0 -> PolynomialCommitment_ok (commit_poly f).
Proof.
case: f => s s_last f0; rewrite /PolynomialCommitment_ok /=.
case/lastP: s s_last f0 => [s_last /eqP []|s a]; first by apply: val_inj; rewrite /= polyseq0.
move=> s_last _; move: s_last; rewrite last_rcons map_rcons last_rcons scaler_eq0 negb_or => ->.
exact: cs_generator_neq0.
Qed.

Lemma geval_commit_poly f x : geval (pcom_coefficients (commit_poly f)) x = f.[x] *: g.
Proof. by rewrite geval_commit polyseqK. Qed.

Lemma commit_eval_zero f : f != 0 -> PolynomialCommitment_eval_at_zero (commit_poly f) = Ok (f.[0] *: g).
Proof. by move=> /commit_poly_ok f_ok; rewrite PolynomialCommitment_eval_at_zeroE // geval_commit_poly. Qed.

Lemma commit_eval_participant f p : f != 0 -> is_participant p ->
  PolynomialCommitment_eval_at_participant (commit_poly f) p = Ok (f.[xof p] *: g).
Proof.
move=> /commit_poly_ok f_ok p_ok; rewrite /PolynomialCommitment_eval_at_participant Participant_scalarE //=.
by rewrite PolynomialCommitment_eval_at_pointE // geval_commit_poly.
Qed.

Lemma commit_degree f : PolynomialCommitment_degree (commit_poly f) = (size f).-1.
Proof. by rewrite /PolynomialCommitment_degree /= size_map. Qed.

(** A commitment is determined by the polynomial. *)
Lemma new_commit_poly (s : seq F) : Poly s != 0 ->
  PolynomialCommitment_new [seq c *: g | c <- s] = Ok (commit_poly (Poly s)).
Proof.
move=> s0; rewrite PolynomialCommitment_new_trim.
have all0 : all (pred1 0) [seq c *: g | c <- s] = all (pred1 0) s.
  by rewrite all_map; apply: eq_all => c; rewrite /= scaler_eq0 (negPf cs_generator_neq0) orbF.
have trimE : trim [seq c *: g | c <- s] = [seq c *: g | c <- trim s].
  elim/last_ind: s {s0 all0} => // s c IH; rewrite map_rcons !trim_rcons IH scaler_eq0.
  by rewrite (negPf cs_generator_neq0) orbF; case: eqP => // _; rewrite map_rcons.
have sN0 : all (pred1 0) s = false.
  apply: contraNF s0 => /allP s_zero; apply/eqP/polyP => i; rewrite coef_Poly coef0.
  by case: (ltnP i (size s)) => [i_lt|/(nth_default 0) //]; apply/eqP/s_zero/mem_nth.
rewrite all0 sN0 trimE; congr (Ok (mkPolynomialCommitment [seq _ | c <- _])).
have := Polynomial_new_trim s; rewrite sN0 => /Polynomial_new_ok [t_ok <-].
exact: (Polynomial_ok_polyseq t_ok).
Qed.

Lemma add_loop_map (a b : seq F) :
  exists2 s, add_loop [seq c *: g | c <- a] [seq c *: g | c <- b] = [seq c *: g | c <- s] & Poly s = Poly a + Poly b.
Proof.
elim: a b => [|x a IH] b; first by exists b; rewrite /= ?add0r //; case: b.
case: b => [|y b]; first by exists (x :: a); rewrite /= ?addr0.
have [s sE sP] := IH b; exists (x + y :: s); first by rewrite /= sE scalerDl.
by rewrite /= !cons_poly_def sP mulrDl polyCD addrACA.
Qed.

Lemma commit_add f h : f + h != 0 ->
  PolynomialCommitment_add (commit_poly f) (commit_poly h) = Ok (commit_poly (f + h)).
Proof.
move=> fh0; rewrite /PolynomialCommitment_add /=; have [s -> sP] := add_loop_map f h.
by move: sP; rewrite !polyseqK => sP; rewrite new_commit_poly sP.
Qed.

Lemma commit_extend f : f != 0 -> PolynomialCommitment_extend_with_identity (commit_poly f) = Ok (commit_poly ('X * f)).
Proof.
move=> f0; rewrite /PolynomialCommitment_extend_with_identity /PolynomialCommitment_get_coefficients /=.
have -> : 0 :: [seq c *: g | c <- (f : seq F)] = [seq c *: g | c <- 0 :: (f : seq F)] by rewrite /= scale0r.
have fE : Poly (0 :: (f : seq F)) = 'X * f by rewrite /= cons_poly_def polyC0 addr0 polyseqK mulrC.
by rewrite new_commit_poly fE // mulf_neq0 ?polyX_eq0.
Qed.

Lemma commit_set_constant f v : f != 0 ->
  PolynomialCommitment_set_non_identity_constant (commit_poly ('X * f)) (v *: g) =
  Ok (commit_poly ('X * f + v%:P)).
Proof.
move=> f0; rewrite /PolynomialCommitment_set_non_identity_constant /=.
have polyE w : polyseq ('X * f + w%:P) = w :: (f : seq F).
  by rewrite mulrC -cons_poly_def polyseq_cons nil_poly (negPf f0).
have -> : polyseq ('X * f) = 0 :: (f : seq F) by rewrite -[in LHS](addr0 ('X * f)) -polyC0 polyE.
rewrite /= size_map; have -> : ((size f).+1 == 1%N) = false by rewrite eqSS size_poly_eq0 (negPf f0).
by rewrite andbF /commit_poly polyE.
Qed.
End Commitments.

(** ** Secrets *)

Section Honest.
Context {K : Keccak} {KL : KeccakLaws} {F : fieldType} {G : lmodType F} {C : Ciphersuite G} {D : DkgSuite C} {O : OtSuite D}.
Context {H : ChallengeSuite F} {GS : GenerationSuite D}.
Context {L : CiphersuiteLaws C} {DL : DkgSuiteLaws D} {OL : OtSuiteLaws O} {GL : GenerationSuiteLaws GS}.
Abbreviation g := (@cs_generator F G C).
Abbreviation xof p := (Z_to_F (p + 1) : F).

(** The polynomials of a triple, and what was committed to. *)
Definition poly_e (s : @TripleSecrets F G) : {poly F} := to_poly (tg_e s).
Definition poly_f (s : @TripleSecrets F G) : {poly F} := to_poly (tg_f s).
Definition poly_l (s : @TripleSecrets F G) : {poly F} := to_poly (tg_l s).

Record good_secrets (s : @TripleSecrets F G) : Prop := {
  go_e : Polynomial_ok (tg_e s);
  go_f : Polynomial_ok (tg_f s);
  go_l : Polynomial_ok (tg_l s);
  go_big_e : tg_big_e s = commit_poly (poly_e s);
  go_big_f : tg_big_f s = commit_poly (poly_f s);
  go_big_l : tg_big_l s = commit_poly (poly_l s);
  go_points : all (fun c => c != 0) (pcom_coefficients (tg_big_e s) ++ pcom_coefficients (tg_big_f s) ++
                                     pcom_coefficients (tg_big_l s));
  go_commitment : Commitment_check (tg_commitment s)
    (gs_msgpack_polynomials (tg_big_e s, tg_big_f s, tg_big_l s)) (tg_randomizer s) = Ok true;
}.

Lemma generated_ok secret degree rng p rng' :
  Polynomial_generate_polynomial (F := F) secret degree rng = Ok (p, rng') -> Polynomial_ok p.
Proof.
rewrite /Polynomial_generate_polynomial; case: (checked_add _ _) => //= n; case: (checked_mul _ _) => //= m.
case: ifP => // _; case: (if secret is Some s then (s, rng) else cs_random rng) => s r.
case: (random_scalars _ _) => rest r'; case E: (Polynomial_new _) => [q||] //= [<- _].
by case/Polynomial_new_ok: E.
Qed.

Lemma generate_secrets_good degree1 degree2 rng s rng' :
  generate_secrets degree1 degree2 rng = Ok (s, rng') -> good_secrets s.
Proof.
rewrite /generate_secrets.
case E1: (Polynomial_generate_polynomial _ _ _) => [[e r1]||] //=; have e_ok := generated_ok E1.
case E2: (Polynomial_generate_polynomial _ _ _) => [[f r2]||] //=; have f_ok := generated_ok E2.
case E3: (Polynomial_generate_polynomial _ _ _) => [[l r3]||] //=; have l_ok := generated_ok E3.
rewrite !commit_polyE //=; set encoded := gs_msgpack_polynomials _.
case E4: (commit encoded r3) => [[[c r] r4]||] //= [<- _]; split=> //=.
  move: E4; rewrite /commit; case: (dk_fill_bytes r3) => r5 r6; rewrite /Commitment_compute.
  by case E5: encoded => [b|] //= _; exact: gs_msgpack_polynomialsE E5.
exact: commit_checks E4.
Qed.

Lemma generate_secrets_many_good n degree1 degree2 rng ss rng' :
  generate_secrets_many n degree1 degree2 rng = Ok (ss, rng') ->
  size ss = n /\ forall s, List.In s ss -> good_secrets s.
Proof.
elim: n rng ss rng' => [|n IH] rng ss rng' /=; first by case=> <- _.
case E: (generate_secrets _ _ _) => [[s r1]||] //=.
case E': (generate_secrets_many _ _ _ _) => [[rest r2]||] //= [<- _].
have [<- good] := IH _ _ _ E'; split=> // t /= [<-|]; [exact: generate_secrets_good E | exact: good].
Qed.

Lemma message_kept label m t t' : is_bytes label -> is_bytes m -> Strobe_ok t ->
  Transcript_message label m t = Ok t' -> Strobe_ok t'.
Proof.
move=> label_ok m_ok t_ok; case: (Z.ltb_spec (Z.of_nat (List.length m)) (2 ^ 32)) => m_len.
  by have [t1 [-> t1_ok]] := message_fine label m t label_ok (conj m_ok m_len) t_ok; case=> <-.
by rewrite /Transcript_message /encode_array_len_as_u32 (proj2 (Z.ltb_ge _ _) m_len).
Qed.

Lemma is_bytes_rev (s : seq Z) : is_bytes s -> is_bytes (rev s).
Proof. by elim=> // x t x_ok _ IH; rewrite rev_cons -cats1; apply: is_bytes_cat => //; constructor. Qed.

Lemma create_transcript_ok l threshold t : create_transcript l threshold = Ok t -> Strobe_ok t.
Proof.
rewrite /create_transcript; have [|t1 [-> t1_ok]] := new_fine NEAR_TRIPLE_GENERATION_LABEL.
  by split; [exact: ascii_is_bytes|].
rewrite rbindE; case E2: (Transcript_message _ NAME _) => [t2||] //=.
have t2_ok := message_kept (ascii_is_bytes _) (ascii_is_bytes _) t1_ok E2.
case E: (gs_msgpack_participants _) => [enc|] //=; have enc_ok : is_bytes enc by exact: gs_msgpack_participantsE E.
case E3: (Transcript_message _ enc _) => [t3||] //=.
have t3_ok := message_kept (ascii_is_bytes "participants") enc_ok t2_ok E3.
apply: (message_kept (ascii_is_bytes "threshold") _ t3_ok); apply: is_bytes_rev; exact: (le_bytes_is_bytes 8 threshold).
Qed.
End Honest.

(** ** Threshold signatures: an honest run of the triple generation

    The rounds of [do_generation_many] when all participants follow it: what each of them sends and
    holds, and that no check fails. *)

(** ** Loops *)

Lemma rmap_iota (E B : Type) (f : nat -> result E B) (h : nat -> B) n :
  (forall i, (i < n)%N -> f i = Ok (h i)) -> rmap f (iota 0 n) = Ok [seq h i | i <- iota 0 n].
Proof. by move=> fE; apply: rmap_all => i; rewrite mem_iota => /andP [_]; exact: fE. Qed.

Lemma vec_index_iota (T : Type) (h : nat -> T) n i : (i < n)%N ->
  vec_index [seq h i | i <- iota 0 n] i = Ok (h i).
Proof.
move=> i_lt; rewrite (vec_indexE (h 0%N)) ?size_map ?size_iota //.
by rewrite (nth_map 0%N) ?size_iota // nth_iota.
Qed.

(** A loop over messages whose states are known after every message. *)
Lemma fold_messagesE (M S : Type) n step (msg : Participant -> M) (h : seq Participant -> nat -> S) done qs :
  (forall qs1 q qs2 i, qs = qs1 ++ q :: qs2 -> (i < n)%N ->
    step (q, msg q) i (h (done ++ qs1) i) = Ok (h (done ++ rcons qs1 q) i)) ->
  fold_messages n step [seq (q, msg q) | q <- qs] [seq h done i | i <- iota 0 n] =
  Ok [seq h (done ++ qs) i | i <- iota 0 n].
Proof.
elim: qs done => [|q qs IH] done stepE /=; first by rewrite cats0.
rewrite (rmap_iota (h := h (rcons done q))) => [i i_lt|].
  by rewrite vec_index_iota //= -cats1; have := stepE [::] q qs i erefl i_lt; rewrite cats0.
rewrite rbindE IH => [qs1 q' qs2 i qsE i_lt|]; last by rewrite cat_rcons.
have := stepE (q :: qs1) q' qs2 i; rewrite qsE => /(_ erefl i_lt).
by rewrite -!cat_rcons.
Qed.

(** ** The maps of commitments *)

Section Maps.
Context (T : Type) (l : ParticipantList).
Hypothesis l_ok : ParticipantList_ok l.

Lemma full_get (m : ParticipantMap T) : ParticipantMap_ok m -> pm_participants m = l ->
  ParticipantMap_full m = all (fun q => isSome (ParticipantMap_get m q)) (pl_participants l).
Proof.
move=> m_ok m_l; apply/idP/allP => [/(proj1 (ParticipantMap_full_vec _ m_ok)) [v vE] q q_in|all_some].
  have := ParticipantMap_vec _ _ m_ok vE; rewrite m_l => mapE.
  have := List.in_map (ParticipantMap_get m) _ q (InP _ _ q_in).
  by rewrite mapE => /List.in_map_iff [x [<- _]].
apply/(ParticipantMap_full_vec _ m_ok)/ParticipantMap_all_full => // q; rewrite m_l => /InP /all_some.
by case: (ParticipantMap_get m q).
Qed.

(** The map of a party after its own value and those of [qs]. *)
Definition partial_map (f : Participant -> T) (me : Participant) (qs : seq Participant) : ParticipantMap T :=
  put_all f (ParticipantMap_put (ParticipantMap_new l) me (f me)) qs.

Lemma partial_mapP f me qs : me \in pl_participants l -> uniq (me :: qs) -> {subset qs <= pl_participants l} ->
  [/\ ParticipantMap_ok (partial_map f me qs), pm_participants (partial_map f me qs) = l &
      forall q, ParticipantMap_get (partial_map f me qs) q = if q \in me :: qs then Some (f q) else None].
Proof.
move=> me_in /= /andP [me_notin qs_uniq] qs_sub.
have [new_ok new_get] := ParticipantMap_new_ok (T := T) _ l_ok.
have [ok1 [l1 get1]] := ParticipantMap_put_ok _ me (f me) new_ok.
have get1' q : ParticipantMap_get (ParticipantMap_put (ParticipantMap_new l) me (f me)) q =
    if q == me then Some (f me) else None.
  by rewrite get1 !new_get -[Z.eqb q me]/(q == me) containsE // me_in !andbT.
have [|ok2 l2 get2] := put_allP l_ok f ok1 l1 qs_uniq qs_sub.
  by move=> q q_in; rewrite get1'; case: eqP q_in me_notin => // -> ->.
split=> // q; rewrite get2 get1' in_cons; case: eqP => [->|_] /=; last by [].
by case: ifP.
Qed.
End Maps.

Section Run.
Context {K : Keccak} {KL : KeccakLaws} {F : fieldType} {G : lmodType F} {C : Ciphersuite G} {D : DkgSuite C} {O : OtSuite D}.
Context {H : ChallengeSuite F} {GS : GenerationSuite D}.
Context {L : CiphersuiteLaws C} {DL : DkgSuiteLaws D} {OL : OtSuiteLaws O} {GL : GenerationSuiteLaws GS}.
Context (l : ParticipantList) (N : nat) (threshold : Z) (rngs : Participant -> @cs_rng F G C).
Context (st : Participant -> @Start F G C).
Abbreviation g := (@cs_generator F G C).
Abbreviation xof p := (Z_to_F (p + 1) : F).
Abbreviation ps := (pl_participants l).
Abbreviation others p := (ParticipantList_others l p).
Implicit Types (p q : Participant) (i : nat).

Hypothesis l_ok : ParticipantList_ok l.
Hypothesis l_range : all is_participant ps.
Hypothesis N_gt0 : (0 < N)%N.
Hypothesis N_le : Z.le (Z.of_nat N) (2 ^ 20).
Hypothesis thr_ge : Z.le 2 threshold.
Hypothesis started : {in ps, forall p, generation_start N l threshold (rngs p) = Ok (st p)}.

(** ** Secrets *)

Definition no_secrets : @TripleSecrets F G :=
  mkTripleSecrets (mkPolynomial [::]) (mkPolynomial [::]) (mkPolynomial [::])
    (mkPolynomialCommitment [::]) (mkPolynomialCommitment [::]) (mkPolynomialCommitment [::]) [::] [::].

(** The secrets of [p] for the triple [i], and the polynomials. *)
Definition sec p i : @TripleSecrets F G := nth no_secrets (st_secrets (st p)) i.
Abbreviation pe p i := (poly_e (sec p i)).
Abbreviation pf p i := (poly_f (sec p i)).
Abbreviation pl p i := (poly_l (sec p i)).

Lemma startedP p : p \in ps ->
  [/\ create_transcript l threshold = Ok (st_transcript (st p)), size (st_secrets (st p)) = N &
      forall i, (i < N)%N -> good_secrets (sec p i)].
Proof.
move=> /started; rewrite /generation_start; case: eqP => // _.
case: (create_transcript l threshold) => [t||] //=.
case: (checked_sub threshold 1) => [d1|] //=; case: (checked_sub threshold 2) => [d2|] //=.
case E: (generate_secrets_many _ _ _ _) => [[ss r]||] //= [stE].
have [ss_size good] := generate_secrets_many_good E; rewrite -stE; split=> //= i i_lt.
by apply: good; rewrite /sec -stE /= -ListnthE; apply: List.nth_In; apply/ltP; rewrite -[List.length ss]/(size ss) ss_size.
Qed.

Lemma secretsE p : p \in ps -> st_secrets (st p) = [seq sec p i | i <- iota 0 N].
Proof. by case/startedP=> _ size_ss _; rewrite -[LHS](mkseq_nth no_secrets) size_ss. Qed.

(** The transcript at the start is the same for everybody. *)
Definition start_transcript : Strobe128 :=
  if create_transcript l threshold is Ok t then t else mkStrobe128 [::] 0 0 0.

Lemma start_transcriptE p : p \in ps -> st_transcript (st p) = start_transcript.
Proof. by rewrite /start_transcript => /startedP [->]. Qed.

Lemma start_transcript_ok p : p \in ps -> Strobe_ok start_transcript.
Proof. by rewrite /start_transcript => /startedP [E _ _]; rewrite E; exact: create_transcript_ok E. Qed.

(** ** Commitments *)

Definition sent_commitments p : seq (seq Z) := [seq tg_commitment s | s <- st_secrets (st p)].

Definition honest_map i : ParticipantMap (seq Z) := map_of l (fun q => tg_commitment (sec q i)).
Definition honest_maps : seq (ParticipantMap (seq Z)) := [seq honest_map i | i <- iota 0 N].

Lemma sent_commitmentsE p : p \in ps -> sent_commitments p = [seq tg_commitment (sec p i) | i <- iota 0 N].
Proof. by move=> p_in; rewrite /sent_commitments secretsE // -map_comp. Qed.

Lemma partial_map_all p (f : Participant -> seq Z) : p \in ps -> partial_map l f p (others p) = map_of l f.
Proof.
move=> p_in; have [m_ok m_l m_get _] := map_ofP l_ok f.
have uniq_all : uniq (p :: others p) by rewrite /= othersE eqxx andbF others_uniq.
have [|n_ok n_l n_get] := partial_mapP l_ok f p_in uniq_all; first by move=> q; rewrite othersE => /andP [].
apply: ParticipantMap_ext => //; rewrite n_l // => q q_in; rewrite n_get m_get // in_cons othersE q_in /=.
by case: eqP.
Qed.

Lemma receive_commitmentsE p qs1 qs2 : p \in ps -> qs1 ++ qs2 = others p ->
  receive_commitments N [seq partial_map l (fun q => tg_commitment (sec q i)) p qs1 | i <- iota 0 N]
    [seq (q, sent_commitments q) | q <- qs2] = Some (Ok honest_maps).
Proof.
move=> p_in; have uniq_all : uniq (p :: others p) by rewrite /= othersE eqxx andbF others_uniq.
have sub_all : {subset others p <= ps} by move=> q; rewrite othersE => /andP [].
elim: qs2 qs1 => [|q qs2 IH] qs1 qsE.
  move: qsE; rewrite cats0 => ->.
  have -> : [seq partial_map l (fun q => tg_commitment (sec q i)) p (others p) | i <- iota 0 N] = honest_maps.
    by apply: eq_map => i; exact: partial_map_all.
  have full : all (@ParticipantMap_full _) honest_maps.
    rewrite all_map; apply/allP => i _ /=; have [m_ok m_l m_get _] := map_ofP l_ok (fun q => tg_commitment (sec q i)).
    by rewrite (full_get m_ok m_l); apply/allP => q q_in; rewrite m_get.
  by rewrite /= full.
have sub1 : {subset qs1 <= others p} by move=> r r_in; rewrite -qsE mem_cat r_in.
have q_in : q \in others p by rewrite -qsE mem_cat mem_head orbT.
have /and3P [p_notin q_notin uniq1] : [&& p \notin rcons qs1 q, q \notin qs1 & uniq qs1].
  move: uniq_all; rewrite -qsE -cat_rcons /= mem_cat negb_or cat_uniq rcons_uniq.
  by case/andP=> /andP [-> _] /and3P [-> _ _].
have notfull : all (@ParticipantMap_full _) [seq partial_map l (fun q => tg_commitment (sec q i)) p qs1 | i <- iota 0 N] = false.
  rewrite all_map; apply/negbTE/allPn; exists 0%N; first by rewrite mem_iota.
  have uniq1' : uniq (p :: qs1) by move: p_notin; rewrite mem_rcons in_cons negb_or /= uniq1 => /andP [_ ->].
  have [r|m_ok m_l m_get] := partial_mapP l_ok (fun q => tg_commitment (sec q 0)) p_in uniq1'.
    by move/sub1; exact: sub_all.
  rewrite /= (full_get m_ok m_l); apply/allPn; exists q; first exact: sub_all.
  rewrite m_get in_cons (negPf q_notin) orbF; case: eqP q_in => [->|//].
  by rewrite othersE eqxx andbF.
rewrite /= notfull (sent_commitmentsE (sub_all _ q_in)) /put_commitments.
rewrite (rmap_iota (h := fun i => partial_map l (fun q => tg_commitment (sec q i)) p (rcons qs1 q))) => [i i_lt|].
  by rewrite !vec_index_iota //= /partial_map /put_all -cats1 foldl_cat.
by rewrite /= IH // cat_rcons.
Qed.

(** ** Confirmations and nonces *)

Definition honest_confirmation i : seq Z :=
  if confirmation_hash (honest_map i) is Ok h then h else [::].
Definition honest_confirmations : seq (seq Z) := [seq honest_confirmation i | i <- iota 0 N].

(** The transcript with the confirmations, and forks of it. *)
Definition run_transcript : Strobe128 :=
  if ok_or (gs_msgpack_hashes honest_confirmations) ErrorEncoding is Ok enc then
    if Transcript_message (ascii_bytes "confirmation"%string) enc start_transcript is Ok t then t
    else start_transcript
  else start_transcript.

Definition no_confirmed p : @Confirmed F G C := mkConfirmed run_transcript [::] [::] [::] [::] [::] (rngs p).

Definition confirmed p : @Confirmed F G C :=
  if generation_confirm N start_transcript honest_maps (st_rng (st p)) is Ok cf then cf else no_confirmed p.

Let nonceE := @dk_nonceE F G C D DL.
Let nonce_neq0 := @gs_nonce_neq0 F G C D GS GL.
Let nonzeroE := @gs_random_nonzeroE F G C D GS GL.
Let commitmentsE := @gs_msgpack_commitmentsE F G C D GS GL.
Let hashesE := @gs_msgpack_hashesE F G C D GS GL.

(** A nonce and its commitment. *)
Definition good_nonce (nonce : F * G) : bool := (nonce.2 == nonce.1 *: g) && (nonce.1 != 0).

Lemma generate_noncesP n rng : size (generate_nonces n rng).1 = n /\
  all good_nonce (generate_nonces (G := G) n rng).1.
Proof.
elim: n rng => [//|n IH] rng /=; have := nonceE rng; have := nonce_neq0 rng.
case: (dk_generate_nonce rng) => nonce r /= n0 nE; have [] := IH r.
by case: (generate_nonces n r) => nonces r' /= -> ->; rewrite /good_nonce nE eqxx n0.
Qed.

Lemma random_nonzerosP n rng : size (random_nonzeros n rng).1 = n /\ all (fun x => x != 0) (random_nonzeros n rng).1.
Proof.
elim: n rng => [//|n IH] rng /=; have := nonzeroE rng; case: (gs_random_nonzero rng) => x r /= x0.
by have [] := IH r; case: (random_nonzeros n r) => xs r' /= -> ->; rewrite x0.
Qed.

Record good_confirmed (cf : @Confirmed F G C) : Prop := {
  gc_transcript : cf_transcript cf = run_transcript;
  gc_confirmations : cf_confirmations cf = honest_confirmations;
  gc_size0 : size (cf_nonces0 cf) = N /\ all good_nonce (cf_nonces0 cf);
  gc_size1 : size (cf_nonces1 cf) = N /\ all good_nonce (cf_nonces1 cf);
  gc_sizeq : size (cf_noncesq cf) = N /\ all (fun x => x != 0) (cf_noncesq cf);
  gc_size2 : size (cf_nonces2 cf) = N /\ all good_nonce (cf_nonces2 cf);
}.

Lemma confirmation_hashE i : confirmation_hash (honest_map i) = Ok (honest_confirmation i).
Proof.
by rewrite /honest_confirmation /confirmation_hash; have [b ->] := commitmentsE (honest_map i).
Qed.

Lemma confirmedP p : p \in ps ->
  [/\ generation_confirm N start_transcript honest_maps (st_rng (st p)) = Ok (confirmed p),
      good_confirmed (confirmed p) & Strobe_ok run_transcript].
Proof.
move=> p_in; rewrite /confirmed /generation_confirm rmap_map (rmap_iota (h := honest_confirmation)) => [i _|].
  exact: confirmation_hashE.
have [|enc encE enc_ok] := hashesE (hs := honest_confirmations); first by rewrite size_map size_iota.
rewrite rbindE -/honest_confirmations encE rbindE.
have [t [tE t_ok]] := message_fine (ascii_bytes "confirmation"%string) enc _ (ascii_is_bytes _) enc_ok
  (start_transcript_ok p_in).
have tE' : run_transcript = t by rewrite /run_transcript encE /= tE.
rewrite tE rbindE -tE'; have := generate_noncesP N (st_rng (st p)).
case: (generate_nonces N (st_rng (st p))) => n0 r0 n0P; have := generate_noncesP N r0.
case: (generate_nonces N r0) => n1 r1 n1P; have := random_nonzerosP N r1.
case: (random_nonzeros N r1) => nq rq nqP; have := generate_noncesP N rq.
by case: (generate_nonces N rq) => n2 r2 n2P; split; rewrite ?tE'.
Qed.

(** ** Proofs *)

Definition fork_of label p : Strobe128 :=
  if Transcript_fork label (Participant_bytes p) run_transcript is Ok t then t else run_transcript.

Lemma fork_ofP label p q : q \in ps -> is_bytes label ->
  Transcript_fork label (Participant_bytes p) run_transcript = Ok (fork_of label p) /\ Strobe_ok (fork_of label p).
Proof.
move=> /confirmedP [_ _ t_ok] label_ok; rewrite /fork_of /Transcript_fork.
have [|t [-> t_ok']] := message_fine label (Participant_bytes p) run_transcript label_ok _ t_ok; last by [].
by split; [exact: le_bytes_is_bytes |].
Qed.

(** Proofs of the constant term of a polynomial. *)
Lemma constant_proof label p (s : @Polynomial F) nonce : p \in ps -> is_bytes label ->
  Polynomial_ok s -> (to_poly s).[0] != 0 -> good_nonce nonce ->
  exists2 proof, prove_constant run_transcript label p (commit_poly (to_poly s)) s nonce = Ok proof &
    verify_constant run_transcript label p (commit_poly (to_poly s)) proof = Ok tt.
Proof.
move=> p_in label_ok s_ok s0; case: nonce => k big_k /andP [/= /eqP -> k0].
have sN0 : to_poly s != 0 by apply: contraNneq s0 => ->; rewrite horner0.
have [forkE fork_ok] := fork_ofP p p_in label_ok.
have [proof proveE verifyE] := dlog_complete fork_ok s0 k0.
exists proof; rewrite /prove_constant /verify_constant commit_eval_zero // rbindE.
  by rewrite Polynomial_eval_at_zeroE // rbindE forkE.
by rewrite forkE rbindE verifyE.
Qed.

(** ** Openings *)

Lemma good_sec p i : p \in ps -> (i < N)%N -> good_secrets (sec p i).
Proof. by case/startedP=> _ _; apply. Qed.

Lemma poly_neq0 (s : @Polynomial F) : Polynomial_ok s -> to_poly s != 0.
Proof. by move=> s_ok; rewrite -size_poly_eq0 -Polynomial_ok_polyseq // size_eq0 Polynomial_ok_nonempty. Qed.

Lemma constant_neq0 (f : {poly F}) : f != 0 -> all (fun c => c != 0) (pcom_coefficients (commit_poly (C := C) f)) ->
  f.[0] != 0.
Proof.
rewrite horner_coef0 -size_poly_eq0 /=; case: (polyseq f) => //= c s _ /andP [+ _].
by rewrite scaler_eq0 negb_or => /andP [].
Qed.

Lemma sec_neq0 p i : p \in ps -> (i < N)%N -> [/\ (pe p i).[0] != 0, (pf p i).[0] != 0, pe p i != 0, pf p i != 0 & pl p i != 0].
Proof.
move=> p_in i_lt; have good := good_sec p_in i_lt; have := go_points good.
rewrite (go_big_e good) (go_big_f good) (go_big_l good) !all_cat => /and3P [e_pts f_pts _].
have e0 : pe p i != 0 := poly_neq0 (go_e good); have f0 : pf p i != 0 := poly_neq0 (go_f good).
split=> //; [exact: constant_neq0 | exact: constant_neq0 | exact: poly_neq0 (go_l good)].
Qed.

Lemma send_points_ok (cs : seq G) : all (fun c => c != 0) cs -> send_points cs = Ok tt.
Proof.
rewrite /send_points => /allP cs0; have -> // : all (fun c => isSome (dk_serialize_element c)) cs.
by apply/allP => c /cs0 c0; have [b [-> _ _]] := @os_serializeE F G C D O OL c c0.
Qed.

Definition proof0 p i : @DlogProof F :=
  if prove_constant run_transcript (ascii_bytes "dlog0"%string) p (commit_poly (pe p i)) (tg_e (sec p i))
       (nth (0, 0) (cf_nonces0 (confirmed p)) i) is Ok proof then proof else mkDlogProof 0 0.

Definition proof1 p i : @DlogProof F :=
  if prove_constant run_transcript (ascii_bytes "dlog1"%string) p (commit_poly (pf p i)) (tg_f (sec p i))
       (nth (0, 0) (cf_nonces1 (confirmed p)) i) is Ok proof then proof else mkDlogProof 0 0.

Lemma proofsP p i : p \in ps -> (i < N)%N ->
  [/\ prove_constant run_transcript (ascii_bytes "dlog0"%string) p (commit_poly (pe p i)) (tg_e (sec p i))
        (nth (0, 0) (cf_nonces0 (confirmed p)) i) = Ok (proof0 p i),
      prove_constant run_transcript (ascii_bytes "dlog1"%string) p (commit_poly (pf p i)) (tg_f (sec p i))
        (nth (0, 0) (cf_nonces1 (confirmed p)) i) = Ok (proof1 p i),
      verify_constant run_transcript (ascii_bytes "dlog0"%string) p (commit_poly (pe p i)) (proof0 p i) = Ok tt &
      verify_constant run_transcript (ascii_bytes "dlog1"%string) p (commit_poly (pf p i)) (proof1 p i) = Ok tt].
Proof.
move=> p_in i_lt; have good := good_sec p_in i_lt; have [e0 f0 _ _ _] := sec_neq0 p_in i_lt.
have [_ [_ _ [s0 n0] [s1 n1] _ _] _] := confirmedP p_in.
have nonce0 : good_nonce (nth (0, 0) (cf_nonces0 (confirmed p)) i) by apply: (all_nthP (0, 0) n0); rewrite s0.
have nonce1 : good_nonce (nth (0, 0) (cf_nonces1 (confirmed p)) i) by apply: (all_nthP (0, 0) n1); rewrite s1.
have [pr0 E0 V0] := constant_proof p_in (ascii_is_bytes "dlog0"%string) (go_e good) e0 nonce0.
have [pr1 E1 V1] := constant_proof p_in (ascii_is_bytes "dlog1"%string) (go_f good) f0 nonce1.
by rewrite /proof0 /proof1 /poly_e /poly_f E0 E1.
Qed.

Definition opening p : @PolynomialCommitmentsMessageMany F G :=
  mkOpening [seq commit_poly (pe p i) | i <- iota 0 N] [seq commit_poly (pf p i) | i <- iota 0 N]
    [seq commit_poly (pl p i) | i <- iota 0 N] [seq tg_randomizer (sec p i) | i <- iota 0 N]
    [seq proof0 p i | i <- iota 0 N] [seq proof1 p i | i <- iota 0 N].

Lemma openingE p : p \in ps -> generation_opening N p (st_secrets (st p)) (confirmed p) = Ok (opening p).
Proof.
move=> p_in; rewrite /generation_opening secretsE //.
have [_ [tE _ [s0 _] [s1 _] _ _] _] := confirmedP p_in.
rewrite (rmap_iota (h := fun i => (proof0 p i, proof1 p i))) => [i i_lt|].
  have good := good_sec p_in i_lt; have [E0 E1 _ _] := proofsP p_in i_lt.
  rewrite vec_index_iota // rbindE (vec_indexE (0, 0)) ?s0 // rbindE tE (go_big_e good) E0 rbindE.
  by rewrite (vec_indexE (0, 0)) ?s1 // rbindE (go_big_f good) E1.
rewrite rbindE send_points_ok ?rbindE /opening -?map_comp.
  apply/allP => c /flattenP [cs /mapP [i + ->]]; rewrite mem_iota => /andP [_ i_lt].
  exact: (allP (go_points (good_sec p_in i_lt))).
by congr (Ok (mkOpening _ _ _ _ _ _)); apply/eq_in_map => i; rewrite mem_iota => /andP [_ /(good_sec p_in) []].
Qed.

(** ** Sums of the commitments *)

(** The random polynomials have the degrees asked for, and no sum of them vanishes. *)
Hypothesis sizes : {in ps, forall p i, (i < N)%N ->
  [/\ size (pe p i) = Z.to_nat threshold, size (pf p i) = Z.to_nat threshold &
      size (pl p i) = (Z.to_nat threshold).-1]}.
Hypothesis sums_neq0 : {in ps, forall p i j, (i < N)%N ->
  [/\ \sum_(q <- p :: take j (others p)) pe q i != 0, \sum_(q <- p :: take j (others p)) pf q i != 0 &
      \sum_(q <- p :: take j (others p)) pl q i != 0]}.

(** What [p] holds after the messages of [qs]. *)
Definition sums_after p (qs : seq Participant) i : @TripleSums F G :=
  mkTripleSums (commit_poly (\sum_(q <- p :: qs) pe q i)) (commit_poly (\sum_(q <- p :: qs) pf q i))
    (commit_poly (\sum_(q <- p :: qs) pl q i))
    (put_all (fun q => (pe q i).[0] *: g) (ParticipantMap_new l) qs).

Lemma initial_sumsE p : p \in ps ->
  [seq initial_sums l s | s <- st_secrets (st p)] = [seq sums_after p [::] i | i <- iota 0 N].
Proof.
move=> p_in; rewrite secretsE // -map_comp; apply/eq_in_map => i; rewrite mem_iota => /andP [_ i_lt].
have good := good_sec p_in i_lt.
by rewrite /= /initial_sums /sums_after !big_seq1 (go_big_e good) (go_big_f good) (go_big_l good).
Qed.

Lemma big_rcons_last (V : nmodType) (f : Participant -> V) qs q :
  \sum_(r <- rcons qs q) f r = \sum_(r <- qs) f r + f q.
Proof. by rewrite -cats1 big_cat big_seq1. Qed.

Lemma check_openingE p qs1 q qs2 i : p \in ps -> others p = qs1 ++ q :: qs2 -> (i < N)%N ->
  check_opening threshold run_transcript honest_maps (q, opening q) i (sums_after p qs1 i) =
  Ok (sums_after p (rcons qs1 q) i).
Proof.
move=> p_in qsE i_lt.
have q_in : q \in ps by have : q \in others p; [rewrite qsE mem_cat mem_head orbT | rewrite othersE => /andP []].
have good := good_sec q_in i_lt; have [_ _ V0 V1] := proofsP q_in i_lt.
have [_ _ e0 f0 l0] := sec_neq0 q_in i_lt; have [se sf sl] := sizes q_in i_lt.
rewrite /check_opening !vec_index_iota // !rbindE !commit_degree se sf sl.
have -> : Z.of_nat (Z.to_nat threshold).-1 = (threshold - 1)%Z by lia.
have -> : Z.of_nat (Z.to_nat threshold).-1.-1 = (threshold - 2)%Z by lia.
rewrite !eqxx /=; have [_ _ m_get _] := map_ofP l_ok (fun q => tg_commitment (sec q i)).
rewrite (proj2 (ParticipantMap_index_get _ _ _) (m_get q q_in)) rbindE.
have := go_commitment good; rewrite (go_big_e good) (go_big_f good) (go_big_l good) => -> /=.
rewrite V0 rbindE V1 rbindE commit_eval_zero // rbindE.
have := sums_neq0 p_in (size qs1).+1 i_lt.
have -> : take (size qs1).+1 (others p) = rcons qs1 q.
  by rewrite qsE -cat_rcons -(size_rcons qs1 q) take_size_cat.
rewrite -rcons_cons !big_rcons_last => -[eN0 fN0 lN0].
rewrite !commit_add // !rbindE /sums_after -rcons_cons !big_rcons_last.
by rewrite /put_all -cats1 foldl_cat.
Qed.

Lemma openings_fold p : p \in ps ->
  fold_messages N (check_opening threshold run_transcript honest_maps) [seq (q, opening q) | q <- others p]
    [seq sums_after p [::] i | i <- iota 0 N] = Ok [seq sums_after p (others p) i | i <- iota 0 N].
Proof.
move=> p_in; rewrite (fold_messagesE (h := sums_after p) (done := [::])) // => qs1 q qs2 i qsE i_lt.
exact: (check_openingE p_in qsE i_lt).
Qed.

(** The sums over all participants. *)
Abbreviation sum_e i := (\sum_(q <- ps) pe q i).
Abbreviation sum_f i := (\sum_(q <- ps) pf q i).
Abbreviation sum_l i := (\sum_(q <- ps) pl q i).

Lemma sum_all (V : nmodType) (f : Participant -> V) p : p \in ps ->
  \sum_(q <- p :: others p) f q = \sum_(q <- ps) f q.
Proof. by move=> p_in; apply: perm_big; rewrite perm_sym; exact: perm_others. Qed.

Lemma sums_allE p i : p \in ps ->
  [/\ su_big_e (sums_after p (others p) i) = commit_poly (sum_e i),
      su_big_f (sums_after p (others p) i) = commit_poly (sum_f i) &
      su_big_l (sums_after p (others p) i) = commit_poly (sum_l i)].
Proof. by move=> p_in; rewrite /sums_after /= !sum_all. Qed.

Lemma sums_all_neq0 p i : p \in ps -> (i < N)%N -> [/\ sum_e i != 0, sum_f i != 0 & sum_l i != 0].
Proof.
by move=> p_in i_lt; have := sums_neq0 p_in (size (others p)) i_lt; rewrite take_size !sum_all.
Qed.

(** ** Shares *)

Definition share_message p q : seq F * seq F :=
  ([seq (pe p i).[xof q] | i <- iota 0 N], [seq (pf p i).[xof q] | i <- iota 0 N]).

Lemma eval_participant (s : @Polynomial F) q : Polynomial_ok s -> q \in ps ->
  Polynomial_eval_at_participant s q = Ok (to_poly s).[xof q].
Proof.
move=> s_ok q_in; rewrite /Polynomial_eval_at_participant Participant_scalarE ?(allP l_range) //=.
exact: Polynomial_eval_at_pointE.
Qed.

Lemma sharesE p q : p \in ps -> q \in ps -> generation_shares (st_secrets (st p)) q = Ok (share_message p q).
Proof.
move=> p_in q_in; rewrite /generation_shares secretsE // rmap_map.
rewrite (rmap_iota (h := fun i => ((pe p i).[xof q], (pf p i).[xof q]))) => [i i_lt|]; last first.
  by rewrite rbindE -!map_comp.
have good := good_sec p_in i_lt.
by rewrite !eval_participant ?(go_e good) ?(go_f good).
Qed.

(** The sums of the shares for [p]. *)
Definition shares_after p (qs : seq Participant) i : F * F :=
  (\sum_(q <- p :: qs) (pe q i).[xof p], \sum_(q <- p :: qs) (pf q i).[xof p]).

Lemma shares_fold p : p \in ps ->
  fold_messages N (@add_share_pair F) [seq (q, share_message q p) | q <- others p]
    (zip (share_message p p).1 (share_message p p).2) = Ok [seq shares_after p (others p) i | i <- iota 0 N].
Proof.
move=> p_in; have -> : zip (share_message p p).1 (share_message p p).2 = [seq shares_after p [::] i | i <- iota 0 N].
  by rewrite zip_map; apply: eq_map => i; rewrite /shares_after !big_seq1.
rewrite (fold_messagesE (h := shares_after p) (done := [::])) // => qs1 q qs2 i qsE i_lt.
by rewrite /add_share_pair !vec_index_iota //= /shares_after -rcons_cons !big_rcons_last.
Qed.

Lemma shares_allE p i : p \in ps -> shares_after p (others p) i = ((sum_e i).[xof p], (sum_f i).[xof p]).
Proof. by move=> p_in; rewrite /shares_after !horner_sum !sum_all. Qed.

(** ** Products *)

Hypothesis sum_f_constant : forall i, (i < N)%N -> (sum_f i).[0] != 0.

Definition product p i : G := (pe p i).[0] *: ((sum_f i).[0] *: g).

Definition product_statement p i : @DlogEqStatement F G :=
  mkDlogEqStatement ((pe p i).[0] *: g) ((sum_f i).[0] *: g) (product p i).

Definition product_proof p i : @DlogEqProof F :=
  if dlogeq_prove_with_nonce (fork_of (ascii_bytes "dlogeq0"%string) p) (product_statement p i) (pe p i).[0]
       (nth 0 (cf_noncesq (confirmed p)) i) is Ok proof then proof else mkDlogEqProof 0 0.

Lemma product_proofP p i : p \in ps -> (i < N)%N ->
  dlogeq_prove_with_nonce (fork_of (ascii_bytes "dlogeq0"%string) p) (product_statement p i) (pe p i).[0]
    (nth 0 (cf_noncesq (confirmed p)) i) = Ok (product_proof p i) /\
  dlogeq_verify (fork_of (ascii_bytes "dlogeq0"%string) p) (product_statement p i) (product_proof p i) = Ok true.
Proof.
move=> p_in i_lt; have [e0 _ _ _ _] := sec_neq0 p_in i_lt.
have [_ [_ _ _ _ [sq nq] _] _] := confirmedP p_in.
have k0 : nth 0 (cf_noncesq (confirmed p)) i != 0 by apply: (all_nthP 0 nq); rewrite sq.
have [_ fork_ok] := fork_ofP p p_in (ascii_is_bytes "dlogeq0"%string).
have F0 : (sum_f i).[0] *: g != 0 by exact: scale_g_neq0 (sum_f_constant i_lt).
have [proof E V] := dlogeq_complete fork_ok e0 k0 F0.
by rewrite /product_proof /product_statement /product E.
Qed.

Definition products p : seq G * seq (@DlogEqProof F) :=
  ([seq product p i | i <- iota 0 N], [seq product_proof p i | i <- iota 0 N]).

Lemma product_neq0 p i : p \in ps -> (i < N)%N -> product p i != 0.
Proof.
move=> p_in i_lt; have [e0 _ _ _ _] := sec_neq0 p_in i_lt.
by rewrite /product scalerA scale_g_neq0 // mulf_neq0 // sum_f_constant.
Qed.

Lemma productsE p : p \in ps ->
  generation_products N p run_transcript (st_secrets (st p)) [seq sums_after p (others p) i | i <- iota 0 N]
    [seq shares_after p (others p) i | i <- iota 0 N] (cf_noncesq (confirmed p)) = Ok (products p).
Proof.
move=> p_in; have [_ [_ _ _ _ [sq _] _] _] := confirmedP p_in.
rewrite /generation_products secretsE // (rmap_iota (h := fun i => (product p i, product_proof p i))) => [i i_lt|].
  have good := good_sec p_in i_lt; have [e0 f0 _] := sums_all_neq0 p_in i_lt.
  rewrite !vec_index_iota // !rbindE (vec_indexE 0) ?sq // rbindE /prove_product.
  have [-> -> _] := sums_allE i p_in; rewrite !commit_eval_participant ?(allP l_range) // !rbindE.
  rewrite shares_allE //= !eqxx /= commit_eval_zero // rbindE (Polynomial_eval_at_zeroE (go_e good)) rbindE.
  have [_ _ pe0 _ _] := sec_neq0 p_in i_lt; rewrite (go_big_e good) commit_eval_zero // rbindE.
  have [-> _] := fork_ofP p p_in (ascii_is_bytes "dlogeq0"%string); rewrite rbindE.
  by have [-> _] := product_proofP p_in i_lt.
rewrite rbindE send_points_ok -?map_comp ?rbindE //.
by rewrite all_map; apply/allP => i; rewrite mem_iota => /andP [_ i_lt] /=; exact: product_neq0.
Qed.

Definition product_after p (qs : seq Participant) i : G := \sum_(q <- p :: qs) product q i.

Lemma products_fold p : p \in ps ->
  fold_messages N (check_product run_transcript [seq sums_after p (others p) i | i <- iota 0 N])
    [seq (q, products q) | q <- others p] (take N (products p).1) =
  Ok [seq product_after p (others p) i | i <- iota 0 N].
Proof.
move=> p_in; have -> : take N (products p).1 = [seq product_after p [::] i | i <- iota 0 N].
  by rewrite take_oversize ?size_map ?size_iota //; apply: eq_map => i; rewrite /product_after big_seq1.
rewrite (fold_messagesE (h := product_after p) (done := [::])) // => qs1 q qs2 i qsE i_lt.
have q_in' : q \in others p by rewrite qsE mem_cat mem_head orbT.
have q_in : q \in ps by move: q_in'; rewrite othersE => /andP [].
have [_ f0 _] := sums_all_neq0 p_in i_lt.
rewrite /check_product /products !vec_index_iota // !rbindE.
have [new_ok new_get] := ParticipantMap_new_ok (T := G) _ l_ok.
have [|r r_in|_ _ get_q] := put_allP l_ok (fun q => (pe q i).[0] *: g) new_ok erefl (others_uniq p l_ok).
- by move=> r; rewrite othersE => /andP [].
- exact: new_get.
have -> : ParticipantMap_index (su_big_e_zero (sums_after p (others p) i)) q = Ok ((pe q i).[0] *: g).
  by apply/ParticipantMap_index_get; rewrite /sums_after /= get_q q_in'.
rewrite rbindE; have [_ -> _] := sums_allE i p_in; rewrite commit_eval_zero // rbindE.
have [-> _] := fork_ofP q p_in (ascii_is_bytes "dlogeq0"%string); rewrite rbindE.
have [_ V] := product_proofP q_in i_lt; rewrite -/(product_statement q i) V rbindE /=.
by rewrite /product_after -rcons_cons !big_rcons_last.
Qed.

Lemma product_allE p i : p \in ps -> product_after p (others p) i = ((sum_e i).[0] * (sum_f i).[0]) *: g.
Proof.
by move=> p_in; rewrite /product_after sum_all // /product -scalerA -scaler_suml !horner_sum.
Qed.

(** ** The last steps *)

Context (l0 : Participant -> seq F).
Hypothesis l0_size : {in ps, forall p, size (l0 p) = N}.
Hypothesis l0_neq0 : {in ps, forall p i, (i < N)%N -> (l0 p)`_i != 0}.
Hypothesis l0_sum : forall i, (i < N)%N ->
  \sum_(q <- ps) (l0 q)`_i = (\sum_(q <- ps) (pe q i).[0]) * (\sum_(q <- ps) (pf q i).[0]).

Definition hat p i : G := (l0 p)`_i *: g.

Definition hat_proof p i : @DlogProof F :=
  if dlog_prove_with_nonce (fork_of (ascii_bytes "dlog2"%string) p) (hat p i) (l0 p)`_i
       (nth (0, 0) (cf_nonces2 (confirmed p)) i) is Ok proof then proof else mkDlogProof 0 0.

Lemma hat_proofP p i : p \in ps -> (i < N)%N ->
  dlog_prove_with_nonce (fork_of (ascii_bytes "dlog2"%string) p) (hat p i) (l0 p)`_i
    (nth (0, 0) (cf_nonces2 (confirmed p)) i) = Ok (hat_proof p i) /\
  dlog_verify (fork_of (ascii_bytes "dlog2"%string) p) (hat p i) (hat_proof p i) = Ok true.
Proof.
move=> p_in i_lt; have [_ [_ _ _ _ _ [s2 n2]] _] := confirmedP p_in.
have nonce2 : good_nonce (nth (0, 0) (cf_nonces2 (confirmed p)) i) by apply: (all_nthP (0, 0) n2); rewrite s2.
have [_ fork_ok] := fork_ofP p p_in (ascii_is_bytes "dlog2"%string).
rewrite /hat_proof /hat; case: (nth _ _ i) nonce2 => k big_k /andP [/= /eqP -> k0].
by have [proof E V] := dlog_complete fork_ok (l0_neq0 p_in i_lt) k0; rewrite E.
Qed.

Definition hats p : seq G * seq (@DlogProof F) :=
  ([seq hat p i | i <- iota 0 N], [seq hat_proof p i | i <- iota 0 N]).

Lemma hatsE p : p \in ps -> generation_hats p run_transcript (l0 p) (cf_nonces2 (confirmed p)) = Ok (hats p).
Proof.
move=> p_in; have [_ [_ _ _ _ _ [s2 _]] _] := confirmedP p_in.
rewrite /generation_hats (enumerateE 0) rmap_map l0_size //.
rewrite (rmap_iota (h := fun i => (hat p i, hat_proof p i))) => [i i_lt|].
  have [-> _] := fork_ofP p p_in (ascii_is_bytes "dlog2"%string); rewrite rbindE (vec_indexE (0, 0)) ?s2 // rbindE.
  by have [E _] := hat_proofP p_in i_lt; rewrite -/(hat p i) E.
rewrite rbindE send_points_ok -?map_comp ?rbindE // all_map; apply/allP => i.
by rewrite mem_iota => /andP [_ i_lt] /=; apply: scale_g_neq0; exact: l0_neq0.
Qed.

(** The polynomials that share the product. *)
Definition pc p i : {poly F} := 'X * pl p i + ((l0 p)`_i)%:P.

Definition full_l p i : @Polynomial F :=
  if (let* l := Polynomial_extend_with_zero (tg_l (sec p i)) in Polynomial_set_nonzero_constant l (l0 p)`_i)
    is Ok q then q else mkPolynomial [::].

Lemma full_lP p i : p \in ps -> (i < N)%N ->
  [/\ (let* l := Polynomial_extend_with_zero (tg_l (sec p i)) in Polynomial_set_nonzero_constant l (l0 p)`_i) =
        Ok (full_l p i), Polynomial_ok (full_l p i) & to_poly (full_l p i) = pc p i].
Proof.
move=> p_in i_lt; have good := good_sec p_in i_lt; rewrite /full_l.
have [q -> [q_ok qE]] := Polynomial_extend_with_zero_ok (go_l good); rewrite rbindE.
case E: (Polynomial_set_nonzero_constant q _) => [r||].
- have [r_ok rE] := Polynomial_set_nonzero_constant_ok q_ok E; split=> //.
  by rewrite rE qE hornerM hornerX mul0r subr0.
- move: E (Polynomial_ok_nonempty q_ok); rewrite /Polynomial_set_nonzero_constant.
  by case: (poly_coefficients q) => // c rest; rewrite (negPf (l0_neq0 p_in i_lt)).
- by move: E; rewrite /Polynomial_set_nonzero_constant; case: (poly_coefficients q) => // c rest; case: ifP.
Qed.

Lemma complete_lE p : p \in ps -> complete_l N (st_secrets (st p)) (l0 p) = Ok [seq full_l p i | i <- iota 0 N].
Proof.
move=> p_in; rewrite /complete_l secretsE //; apply: rmap_iota => i i_lt.
by rewrite vec_index_iota // rbindE (vec_indexE 0) ?l0_size // rbindE; have [] := full_lP p_in i_lt.
Qed.

Definition c_share_message p q : seq F := [seq (pc p i).[xof q] | i <- iota 0 N].

Lemma c_sharesE p q : p \in ps -> q \in ps ->
  generation_c_shares [seq full_l p i | i <- iota 0 N] q = Ok (c_share_message p q).
Proof.
move=> p_in q_in; rewrite /generation_c_shares rmap_map; apply: rmap_iota => i i_lt.
by have [_ ok E] := full_lP p_in i_lt; rewrite eval_participant // E.
Qed.

Definition hat_after p (qs : seq Participant) i : G := \sum_(q <- p :: qs) hat q i.

Lemma hats_fold p : p \in ps ->
  fold_messages N (check_hat run_transcript) [seq (q, hats q) | q <- others p] (take N (hats p).1) =
  Ok [seq hat_after p (others p) i | i <- iota 0 N].
Proof.
move=> p_in; have -> : take N (hats p).1 = [seq hat_after p [::] i | i <- iota 0 N].
  by rewrite take_oversize ?size_map ?size_iota //; apply: eq_map => i; rewrite /hat_after big_seq1.
rewrite (fold_messagesE (h := hat_after p) (done := [::])) // => qs1 q qs2 i qsE i_lt.
have q_in : q \in ps by have : q \in others p; [rewrite qsE mem_cat mem_head orbT | rewrite othersE => /andP []].
rewrite /check_hat /hats !vec_index_iota // !rbindE.
have [-> _] := fork_ofP q p_in (ascii_is_bytes "dlog2"%string); rewrite rbindE.
by have [_ ->] := hat_proofP q_in i_lt; rewrite /= /hat_after -rcons_cons big_rcons_last.
Qed.

(** The polynomial of the product. *)
Definition sum_c i : {poly F} := 'X * sum_l i + ((sum_e i).[0] * (sum_f i).[0])%:P.

Lemma sum_pc i : (i < N)%N -> \sum_(q <- ps) pc q i = sum_c i.
Proof.
move=> i_lt; rewrite /pc big_split /= -mulr_sumr; congr (_ + _).
by rewrite -(raddf_sum (polyC : F -> {poly F})) l0_sum // !horner_sum.
Qed.

Lemma hat_allE p i : p \in ps -> (i < N)%N -> hat_after p (others p) i = ((sum_e i).[0] * (sum_f i).[0]) *: g.
Proof. by move=> p_in i_lt; rewrite /hat_after sum_all // -scaler_suml l0_sum // !horner_sum. Qed.

Lemma sum_c_neq0 p i : p \in ps -> (i < N)%N -> sum_c i != 0.
Proof.
move=> p_in i_lt; have [_ _ sl0] := sums_all_neq0 p_in i_lt.
apply: contraNneq sl0 => c0; have := congr1 (fun f : {poly F} => size f) c0; rewrite /sum_c mulrC -cons_poly_def.
by rewrite size_poly0 size_cons_poly; case: ifP => // /andP [+ _]; rewrite /nilp size_poly_eq0.
Qed.

Lemma check_constantE p i : p \in ps -> (i < N)%N ->
  check_constant (commit_poly ('X * sum_l i)) (hat_after p (others p) i) (product_after p (others p) i) =
  Ok (commit_poly (sum_c i)).
Proof.
move=> p_in i_lt; have [_ _ sl0] := sums_all_neq0 p_in i_lt.
rewrite /check_constant hat_allE // product_allE // commit_set_constant // rbindE -/(sum_c i).
rewrite commit_eval_zero ?(sum_c_neq0 p_in) // rbindE /sum_c hornerD hornerM hornerX mul0r add0r hornerC eqxx.
by [].
Qed.

Definition c_after p (qs : seq Participant) i : F := \sum_(q <- p :: qs) (pc q i).[xof p].

Lemma c_shares_fold p : p \in ps ->
  fold_messages N (@add_c_share F) [seq (q, c_share_message q p) | q <- others p] (c_share_message p p) =
  Ok [seq c_after p (others p) i | i <- iota 0 N].
Proof.
move=> p_in; have -> : c_share_message p p = [seq c_after p [::] i | i <- iota 0 N].
  by apply: eq_map => i; rewrite /c_after big_seq1.
rewrite (fold_messagesE (h := c_after p) (done := [::])) // => qs1 q qs2 i qsE i_lt.
by rewrite /add_c_share vec_index_iota //= /c_after -rcons_cons big_rcons_last.
Qed.

Lemma c_allE p i : p \in ps -> (i < N)%N -> c_after p (others p) i = (sum_c i).[xof p].
Proof. by move=> p_in i_lt; rewrite /c_after sum_all // -sum_pc // horner_sum. Qed.

(** ** The run *)

(** What arrives at [p] when everybody is honest. *)
Definition honest_generation (mul : Participant -> @MultiplicationMessages F G) p : @GenerationReceived F G :=
  mkGenerationReceived
    [seq (q, sent_commitments q) | q <- others p]
    [seq (q, honest_confirmations) | q <- others p]
    [seq (q, opening q) | q <- others p]
    [seq (q, share_message q p) | q <- others p]
    [seq (q, products q) | q <- others p]
    [seq (q, hats q) | q <- others p]
    [seq (q, c_share_message q p) | q <- others p]
    (mul p).

Context (mul : Participant -> @MultiplicationMessages F G) (sent : Participant -> seq (@SentMessages F G)).
Hypothesis multiplied : {in ps, forall p,
  multiplication_many N honest_confirmations l p [seq (pe p i).[0] | i <- iota 0 N] [seq (pf p i).[0] | i <- iota 0 N]
    (cf_rng (confirmed p)) (mul p) = Ok (sent p, l0 p)}.

Definition honest_parallel p : @ParallelOutput F G :=
  mkParallelOutput [seq sums_after p (others p) i | i <- iota 0 N]
    [seq commit_poly ('X * sum_l i) | i <- iota 0 N] [seq product_after p (others p) i | i <- iota 0 N]
    [seq shares_after p (others p) i | i <- iota 0 N].

Lemma recv_honest (T : Type) (f : Participant -> T) p : p \in ps ->
  recv_await l p [seq (q, f q) | q <- others p] = Some (Ok [seq (q, f q) | q <- others p]).
Proof. by move=> p_in; rewrite /recv_await recv_from_others_all. Qed.

Lemma check_confirmationsE (qs : seq Participant) :
  check_confirmations honest_confirmations [seq (q, honest_confirmations) | q <- qs] = Ok tt.
Proof. by elim: qs => //= q qs ->; rewrite eqxx. Qed.

Lemma rmap_others (T : Type) (f : Participant -> result ProtocolError T) (h : Participant -> T) p :
  {in ps, forall q, f q = Ok (h q)} -> rmap f (others p) = Ok [seq h q | q <- others p].
Proof. by move=> fE; apply: rmap_all => q; rewrite othersE => /andP [/fE]. Qed.

Lemma parallelE p : p \in ps ->
  parallel_to_multiplication_task N l p threshold (st_secrets (st p)) honest_maps (confirmed p)
    (honest_generation mul p) = Some (Ok (honest_parallel p)).
Proof.
move=> p_in; have [_ [tE cE _ _ _ _] _] := confirmedP p_in.
rewrite /parallel_to_multiplication_task openingE // (rmap_others p (fun q => sharesE p_in (q := q))) sharesE //=.
rewrite recv_honest //= cE check_confirmationsE /= recv_honest //= tE initial_sumsE // openings_fold //=.
rewrite recv_honest //= shares_fold //= productsE //= recv_honest //= products_fold //=.
rewrite rmap_map (rmap_iota (h := fun i => commit_poly ('X * sum_l i))) // => i i_lt.
by have [_ _ ->] := sums_allE i p_in; have [_ _ l_neq0] := sums_all_neq0 p_in i_lt; rewrite commit_extend.
Qed.

(** The triples. *)
Definition triple_share i p : @TripleShare F :=
  mkTripleShare (sum_e i).[xof p] (sum_f i).[xof p] (sum_c i).[xof p].

Definition triple_pub i : @TriplePub F G :=
  mkTriplePub ((sum_e i).[0] *: g) ((sum_f i).[0] *: g) (((sum_e i).[0] * (sum_f i).[0]) *: g) ps threshold.

Lemma finish_tripleE p i : p \in ps -> (i < N)%N ->
  finish_triple l p threshold (commit_poly (sum_c i)) (sums_after p (others p) i) (product_after p (others p) i)
    (shares_after p (others p) i) (c_after p (others p) i) = Ok (triple_share i p, triple_pub i).
Proof.
move=> p_in i_lt; have [e0 f0 _] := sums_all_neq0 p_in i_lt; have [eE fE _] := sums_allE i p_in.
rewrite /finish_triple eE fE c_allE // shares_allE // product_allE //.
rewrite commit_eval_participant ?(allP l_range) ?(sum_c_neq0 p_in) // rbindE eqxx /=.
by rewrite !commit_eval_zero.
Qed.

Lemma finishE p : p \in ps ->
  generation_finish N l p threshold (st_secrets (st p)) (confirmed p) (l0 p) (honest_parallel p)
    (honest_generation mul p) = Some (Ok [seq (triple_share i p, triple_pub i) | i <- iota 0 N]).
Proof.
move=> p_in; have [_ [tE _ _ _ _ _] _] := confirmedP p_in.
rewrite /generation_finish tE hatsE //= complete_lE //= (rmap_others p (fun q => c_sharesE p_in (q := q))) /= c_sharesE //=.
rewrite recv_honest //= hats_fold //= (rmap_iota (h := fun i => commit_poly (sum_c i))) => [i i_lt|].
  by rewrite !vec_index_iota //= check_constantE.
rewrite /= recv_honest //= c_shares_fold //= (rmap_iota (h := fun i => (triple_share i p, triple_pub i))) // => i i_lt.
by rewrite !vec_index_iota //= finish_tripleE.
Qed.

Lemma honest_generation_run p : p \in ps ->
  do_generation_many N l p threshold (rngs p) (honest_generation mul p) =
  Some (Ok [seq (triple_share i p, triple_pub i) | i <- iota 0 N]).
Proof.
move=> p_in; have [confirmE [_ cE _ _ _ _] _] := confirmedP p_in.
rewrite /do_generation_many started //=.
have -> : own_commitments l p (st_secrets (st p)) =
    [seq partial_map l (fun q => tg_commitment (sec q i)) p [::] | i <- iota 0 N].
  by rewrite /own_commitments secretsE // -map_comp.
rewrite receive_commitmentsE //= start_transcriptE // confirmE /=.
have -> : constant_terms (st_secrets (st p)) = Ok ([seq (pe p i).[0] | i <- iota 0 N], [seq (pf p i).[0] | i <- iota 0 N]).
  rewrite /constant_terms secretsE // !rmap_map (rmap_iota (h := fun i => (pe p i).[0])) => [i i_lt|].
    exact: Polynomial_eval_at_zeroE (go_e (good_sec p_in i_lt)).
  rewrite rbindE (rmap_iota (h := fun i => (pf p i).[0])) // => i i_lt.
  exact: Polynomial_eval_at_zeroE (go_f (good_sec p_in i_lt)).
by rewrite /= cE multiplied //= parallelE //= finishE.
Qed.
End Run.
