(* ===== verification/TripleTheorems.v ===== *)
(** * Threshold signatures: the theorems on triple generation, and a concrete suite for it

    First the suite: the rationals as in [Interpolation], with hashes, encodings and random numbers of the sizes
    that the triple generation relies on, and a run of two participants on it: the laws of the
    suites can hold together, and so can what the theorems assume of the random choices. *)

From Stdlib Require Import ZArith Lia String List.
From mathcomp Require Import boot ssralg poly ssrnum rat.
From S2P Require Import TsTypes TsParticipants Polynomials Interpolation Dkg DkgProofs.
From S2P Require Import DkgHonest DkgTheorems RobustEcdsa RobustEcdsaProofs RobustEcdsaTheorems OtEcdsa.
From S2P Require Import TripleBits TripleGf Transcript TripleExtension TripleMul ProofSystems.
From S2P Require Import TripleGeneration TripleHonest.
Set Implicit Arguments.
Unset Strict Implicit.
Unset Printing Implicit Defensive.
Import GRing.Theory Num.Theory.
Local Open Scope ring_scope.
Local Open Scope ts_scope.

Definition low_byte (z : Z) : Z := Z.modulo z 256.

(** The last 32 bytes. *)
Definition tail_hash (b : seq Z) : seq Z := take 32 ([seq low_byte z | z <- rev b] ++ nseq 32 Z0).

#[export] Instance wide_dkg : DkgSuite sample_suite := {|
  dk_sha256 := tail_hash;
  dk_msgpack := @dk_msgpack _ _ _ sample_dkg;
  dk_serialize_scalar := @dk_serialize_scalar _ _ _ sample_dkg;
  dk_serialize_element e := if e == 0 then None else Some (nseq 33 2%Z);
  dk_HDKG := @dk_HDKG _ _ _ sample_dkg;
  dk_generate_nonce := @dk_generate_nonce _ _ _ sample_dkg;
  dk_fill_bytes n := (nseq 32 (low_byte (Z.of_nat n)), n.+1);
  dk_signing_key := @dk_signing_key _ _ _ sample_dkg;
  dk_identifier := @dk_identifier _ _ _ sample_dkg;
  dk_share_verify := @dk_share_verify _ _ _ sample_dkg;
  dk_sum_commitments := @dk_sum_commitments _ _ _ sample_dkg;
  dk_from_commitment := @dk_from_commitment _ _ _ sample_dkg;
|}.

#[export] Instance wide_dkg_laws : DkgSuiteLaws wide_dkg.
Proof. by have [? ? ? ? ? ?] := sample_dkg_laws; split. Qed.

#[export] Instance wide_ot : OtSuite wide_dkg := {|
  os_shake256 _ n := nseq n Z0;
  os_reduce_bytes b := (size b)%:R;
  os_transcript_random s := (1, s);
  os_next_u64 n := (Z.modulo (Z.of_nat n) (2 ^ 64), n.+1 : @cs_rng _ _ sample_suite);
  os_msgpack_pair v := Some [:: v.1; v.2];
|}.

Lemma low_byte_is z : is_byte (low_byte z).
Proof. by have := Z.mod_pos_bound z 256; rewrite /is_byte /low_byte; lia. Qed.

Lemma nseq_is_bytes n z : is_byte z -> is_bytes (nseq n z).
Proof. by move=> z_ok; elim: n => [|n IH] /=; [exact: Forall_nil | exact: Forall_cons]. Qed.

Lemma take_is_bytes n b : is_bytes b -> is_bytes (take n b).
Proof.
elim: b n => [|z b IH] [|n] //= b_ok; try exact: Forall_nil.
by inversion b_ok; subst; apply: Forall_cons => //; exact: IH.
Qed.

Lemma low_bytes_are b : is_bytes [seq low_byte z | z <- b].
Proof. by elim: b => [|z b IH] /=; [exact: Forall_nil | apply: Forall_cons => //; exact: low_byte_is]. Qed.

#[export] Instance wide_ot_laws : OtSuiteLaws wide_ot.
Proof.
split.
- move=> e /negPf e0; exists (nseq 33 2%Z); split=> //; first by rewrite /= e0.
  by apply: nseq_is_bytes; rewrite /is_byte; lia.
- move=> data; rewrite /= /tail_hash size_take size_cat size_nseq size_map addnC.
  by rewrite ltn_neqAle leq_addr andbT; case: eqP => //= <-.
- move=> data; apply: take_is_bytes; apply/Forall_app; split; first exact: low_bytes_are.
  by apply: nseq_is_bytes; rewrite /is_byte; lia.
- by move=> rng; rewrite /is_word; apply: Z.mod_pos_bound.
- by move=> rng; apply: nseq_is_bytes; exact: low_byte_is.
- by move=> v; exists [:: v.1; v.2].
Qed.

#[export] Instance wide_challenges : ChallengeSuite rat := {| ch_random_nonzero _ := 1 |}.

#[export] Instance wide_generation : GenerationSuite wide_dkg := {|
  gs_random_nonzero n := (n.+2%:R, n.+1 : @cs_rng _ _ sample_suite);
  gs_msgpack_participants ps := Some [seq low_byte p | p <- ps];
  gs_msgpack_polynomials efl :=
    if all (fun c => c != 0) (pcom_coefficients efl.1.1 ++ pcom_coefficients efl.1.2 ++ pcom_coefficients efl.2)
    then Some [:: 1%Z] else None;
  gs_msgpack_commitments m := Some (flatten [seq if x is Some b then b else [::] | x <- pm_data m]);
  gs_msgpack_hashes hs := Some (take 64 [seq low_byte z | z <- flatten hs]);
|}.

#[export] Instance wide_generation_laws : GenerationSuiteLaws wide_generation.
Proof.
split.
- by move=> n; rewrite /= pnatr_eq0.
- by move=> n; rewrite /= pnatr_eq0.
- by move=> ps b [<-]; exact: low_bytes_are.
- by move=> e f l b /=; case: ifP.
- by move=> m; eexists.
- move=> hs _; eexists; first by []; split; first by apply: take_is_bytes; exact: low_bytes_are.
  by rewrite -[List.length _]/(size _); have := geq_minl 64 (size [seq low_byte z | z <- flatten hs]);
    rewrite -size_take_min => /leP; lia.
Qed.

(** ** Two participants *)

Definition pair : ParticipantList :=
  if ParticipantList_new [:: 0; 1]%Z is Some l then l else mkParticipantList [::] [::].

Definition pair_rng (p : Participant) : @cs_rng rat _ sample_suite := if p == Z0 then 0%N else 200%N.

Definition pair_start (p : Participant) : @Start rat rat^o sample_suite :=
  if generation_start 1 pair 2 (pair_rng p) is Ok s then s else mkStart (mkStrobe128 [::] 0 0 0) [::] 0%N.

Lemma pair_participants : pl_participants pair = [:: 0; 1]%Z.
Proof. by []. Qed.

Lemma pair_in p : p \in pl_participants pair -> p = Z0 \/ p = 1%Z.
Proof. by rewrite pair_participants !inE => /orP [] /eqP; [left | right]. Qed.

Lemma pair_started : {in pl_participants pair, forall p, generation_start 1 pair 2 (pair_rng p) = Ok (pair_start p)}.
Proof.
have okP p : (if generation_start 1 pair 2 (pair_rng p) is Ok _ then true else false) ->
    generation_start 1 pair 2 (pair_rng p) = Ok (pair_start p).
  by rewrite /pair_start; case: (generation_start _ _ _ _).
by move=> p /pair_in [] ->; apply: okP; vm_compute.
Qed.

Abbreviation pair_sec p := (sec pair_start p 0).

(** Coefficients of the polynomials. *)
Definition coefficients (p : Participant) : seq (seq rat) :=
  [:: poly_coefficients (tg_e (pair_sec p)); poly_coefficients (tg_f (pair_sec p)); poly_coefficients (tg_l (pair_sec p))].

Lemma pair_coefficients : {in pl_participants pair, forall p,
  coefficients p = let n := pair_rng p in
    [:: [:: n.+2%:R; n.+3%:R]; [:: n.+4%:R; (n.+4).+1%:R]; [:: (n.+4).+2%:R]]}.
Proof. by move=> p /pair_in [] ->; apply/eqP; vm_compute. Qed.

#[local] Opaque pair_start.

Lemma seq3_inj (T : Type) (a b c a' b' c' : T) : [:: a; b; c] = [:: a'; b'; c'] -> [/\ a = a', b = b' & c = c'].
Proof. by case. Qed.

Lemma pair_polys p : p \in pl_participants pair -> let n := pair_rng p in
  [/\ poly_e (pair_sec p) = Poly [:: n.+2%:R; n.+3%:R], poly_f (pair_sec p) = Poly [:: n.+4%:R; (n.+4).+1%:R] &
      poly_l (pair_sec p) = Poly [:: (n.+4).+2%:R]].
Proof.
move=> p_in n.
have [eE fE lE] := seq3_inj (pair_coefficients p_in).
by split; [exact: (f_equal (@Poly _) eE) | exact: (f_equal (@Poly _) fE) | exact: (f_equal (@Poly _) lE)].
Qed.

Lemma pair_constants p : p \in pl_participants pair -> let n := pair_rng p in
  [/\ (poly_e (pair_sec p)).[0] = n.+2%:R, (poly_f (pair_sec p)).[0] = n.+4%:R & (poly_l (pair_sec p)).[0] = (n.+4).+2%:R].
Proof. by move/pair_polys=> [-> -> ->]; rewrite !horner_coef0 !coef_Poly. Qed.

Lemma size_positive (s : seq rat) n : size (Poly (rcons s n.+1%:R)) = (size s).+1.
Proof.
have last_neq0 : last 0 (rcons s n.+1%:R) != 0 by rewrite last_rcons pnatr_eq0.
exact: etrans (f_equal size (PolyK last_neq0)) (size_rcons _ _).
Qed.

Lemma pair_sizes : {in pl_participants pair, forall p i, (i < 1)%N ->
  [/\ size (poly_e (sec pair_start p i)) = 2, size (poly_f (sec pair_start p i)) = 2 &
      size (poly_l (sec pair_start p i)) = 1]}.
Proof.
move=> p /pair_polys [eE fE lE] [_|i]; last by rewrite ltnS.
split; [rewrite eE | rewrite fE | rewrite lE].
- exact: (size_positive [:: _]).
- exact: (size_positive [:: _]).
- exact: (size_positive [::]).
Qed.

Lemma positive_sum (f : Participant -> {poly rat}) (n : Participant -> nat) p qs :
  {in p :: qs, forall q, (f q).[0] = (n q).+1%:R} -> (\sum_(q <- p :: qs) f q).[0] != 0.
Proof.
move=> fE; rewrite horner_sum big_cons fE ?mem_head // (eq_big_seq (fun q => ((n q).+1%:R : rat))) => [q q_in|].
  by rewrite fE // in_cons q_in orbT.
by rewrite -natr_sum -natrD pnatr_eq0 addSn.
Qed.

Lemma positive_poly (f : Participant -> {poly rat}) (n : Participant -> nat) p qs :
  {in p :: qs, forall q, (f q).[0] = (n q).+1%:R} -> \sum_(q <- p :: qs) f q != 0.
Proof. by move/positive_sum; apply: contraNneq => ->; rewrite horner0. Qed.

Lemma pair_sums : {in pl_participants pair, forall p i j, (i < 1)%N ->
  let qs := p :: take j (ParticipantList_others pair p) in
  [/\ \sum_(q <- qs) poly_e (sec pair_start q i) != 0, \sum_(q <- qs) poly_f (sec pair_start q i) != 0 &
      \sum_(q <- qs) poly_l (sec pair_start q i) != 0]}.
Proof.
move=> p p_in [|//] j _ qs; have qs_in q : q \in qs -> q \in pl_participants pair.
  by rewrite in_cons => /orP [/eqP -> //|/mem_take]; rewrite othersE => /andP [].
split.
- by apply: (@positive_poly _ (fun q => (pair_rng q).+1)) => q /qs_in /pair_constants [].
- by apply: (@positive_poly _ (fun q => (pair_rng q).+3)) => q /qs_in /pair_constants [].
- by apply: (@positive_poly _ (fun q => ((pair_rng q).+4).+1)) => q /qs_in /pair_constants [].
Qed.

Lemma pair_sum_f i : (i < 1)%N -> (\sum_(q <- pl_participants pair) poly_f (sec pair_start q i)).[0] != 0.
Proof.
case: i => // _; rewrite pair_participants.
by apply: (@positive_sum _ (fun q => (pair_rng q).+3)) => q q_in; have [] := @pair_constants q q_in.
Qed.

Lemma pair_keys : {in pl_participants pair &, forall p q, p != q ->
  forall i, (i < 1)%N -> key_of i p != key_of i q}.
Proof. by move=> p q /pair_in [] -> /pair_in [] -> // _ [|//] _; vm_compute. Qed.

(** ** Multiplications *)

Lemma sample_scalars n r :
  random_scalars n r = ([seq (r + i).+2%:R : rat | i <- iota 0 n], (r + n)%N : @cs_rng _ _ sample_suite).
Proof.
elim: n r => [|n IH] r /=; first by rewrite addn0.
rewrite IH /= addn0 addSnnS; congr (_ :: _, _); rewrite (iotaDl 1 0) -map_comp; apply: eq_map => i /=.
by rewrite addSnnS.
Qed.

Lemma sample_words r : exists v, rng_words SEC_PARAM_64 r = (v, (r + 2)%N : @cs_rng _ _ sample_suite).
Proof. by rewrite addn2; eexists. Qed.

Lemma sender_package_x r i : (i < 128)%N -> (sp_x (generate_sender_package r).1)`_i = (r + 2 + i).+2%:R :> rat.
Proof.
move=> i_lt; rewrite /generate_sender_package; have [v ->] := sample_words r.
rewrite sample_scalars; case: (dk_fill_bytes _) => seed r1; rewrite sample_scalars sample_scalars.
rewrite -[sp_x _]/[seq (r + 2 + i).+2%:R : rat | i <- iota 0 128] (nth_map 0%N) ?size_iota //.
by rewrite nth_iota.
Qed.

Lemma receiver_package_y (r : @cs_rng _ _ sample_suite) : rp_y (generate_receiver_package r).1 = (cs_random r).1 :> rat.
Proof.
rewrite /generate_receiver_package; case: (cs_random r) => y r0.
case E1: (rng_vectors (adjust_size (2 * multiplication_batch_size) %/ SECURITY_PARAMETER) r0) => [b r1].
by case: (dk_fill_bytes r1) => s0 r2; case: (dk_fill_bytes r2).
Qed.

(** Packages from distant states do not meet. *)
Lemma packages_generic (rs rr : nat) : (rs + 130 < rr)%N \/ (rr < rs + 2)%N ->
  generic (generate_sender_package (rs : @cs_rng _ _ sample_suite)).1 (generate_receiver_package (rr : @cs_rng _ _ sample_suite)).1.
Proof.
move=> far; rewrite /generic receiver_package_y -[(cs_random _).1]/(rr.+2%:R) pnatr_eq0 andTb; apply/allP => i; rewrite mem_iota => /andP [_ i_lt].
rewrite sender_package_x // pnatr_eq0 eqr_nat andTb; apply/andP; split.
  rewrite !eqSS; apply/eqP => E; case: far; rewrite -E; last by rewrite ltnNge leq_addr.
  by rewrite -addnA ltn_add2l -[130%N]/(2 + 128)%N ltn_add2l ltnNge (ltnW i_lt).
by rewrite -addr_eq0 -natrD pnatr_eq0.
Qed.

Lemma one_task (F : fieldType) (G : lmodType F) (C : Ciphersuite G) (D : DkgSuite C) (O : OtSuite D) (OL : OtSuiteLaws O)
    (i : nat) (p q : Participant) (r : cs_rng) :
  exists r', multiplication_tasks [:: i] p [:: q] r =
    Ok ([:: if is_sender i p q then SenderTask i q (generate_sender_package r).1
            else ReceiverTask i q (generate_receiver_package r).1], r').
Proof.
cbn [multiplication_tasks tasks_with]; rewrite order_keyE rbindE order_keyE rbindE -/(is_sender i p q).
case: (is_sender i p q).
  by case: (generate_sender_package r) => pkg r'; exists r'.
by case: (generate_receiver_package r) => pkg r'; exists r'.
Qed.

Lemma pair_tasks (r : Participant -> @cs_rng rat _ sample_suite) :
  tasks_of pair 1 r 0 = [:: ReceiverTask 0 1 (generate_receiver_package (r Z0)).1] /\
  tasks_of pair 1 r 1 = [:: SenderTask 0 0 (generate_sender_package (r 1%Z)).1].
Proof.
have role01 : is_sender 0 0 1 = false by vm_compute.
have role10 : is_sender 0 1 0 = true by vm_compute.
split; rewrite /tasks_of.
  have [r' ->] := one_task wide_ot_laws 0 0 1 (r Z0); rewrite role01; reflexivity.
have [r' ->] := one_task wide_ot_laws 0 1 0 (r 1%Z); rewrite role10; reflexivity.
Qed.

(** When one of two participants sends and the other receives. *)
Lemma roles_generic (F : fieldType) (tasks : Participant -> seq (@MultiplicationTask F)) sp0 rp0 :
  tasks Z0 = [:: ReceiverTask 0 1 rp0] -> tasks 1%Z = [:: SenderTask 0 0 sp0] -> generic sp0 rp0 ->
  {in pl_participants pair &, forall p q i sp rp,
    List.In (SenderTask i q sp) (tasks p) -> List.In (ReceiverTask i p rp) (tasks q) -> generic sp rp}.
Proof.
move=> tasks0 tasks1 gen p q /pair_in [] -> /pair_in [] -> i sp rp; rewrite ?tasks0 ?tasks1 => -[] //.
by move=> [_ <-] [] // [_ <-].
Qed.

Definition pair_mul_rng (p : Participant) : @cs_rng rat _ sample_suite :=
  cf_rng (confirmed pair 1 2 pair_rng pair_start p).

Lemma pair_transfers : {in pl_participants pair &, forall p q i sp rp,
  List.In (SenderTask i q sp) (tasks_of pair 1 pair_mul_rng p) ->
  List.In (ReceiverTask i p rp) (tasks_of pair 1 pair_mul_rng q) -> generic sp rp}.
Proof.
have [tasks0 tasks1] := pair_tasks pair_mul_rng.
apply: (roles_generic tasks0 tasks1); apply: packages_generic; right.
vm_compute; reflexivity.
Qed.

Lemma pair_ok : ParticipantList_ok pair.
Proof. by case: (ParticipantList_new_ok [:: 0; 1]%Z pair erefl). Qed.

(** ** Threshold signatures: correctness of the triple generation

    All participants run [do_generation_many] with each other: the multiplications share the products,
    no check fails, and the outputs are shares of Beaver triples in the sense that presigning asks for. *)

Import GRing.Theory.

Section Generation.
Context {K : Keccak} {KL : KeccakLaws} {F : fieldType} {G : lmodType F} {C : Ciphersuite G} {D : DkgSuite C} {O : OtSuite D}.
Context {H : ChallengeSuite F} {GS : GenerationSuite D}.
Context {L : CiphersuiteLaws C} {DL : DkgSuiteLaws D} {OL : OtSuiteLaws O} {GL : GenerationSuiteLaws GS}.
Implicit Types (p q : Participant) (i : nat) (l : ParticipantList).

(** C26: two parties that multiply, with random packages drawn as the code draws them, both end, and
    their results add up to the mixed products of their inputs: the base transfers, the extension with
    its consistency check and the two conversions together share the products. *)
Theorem multiplication_shares_products sid (a_s b_s a_r b_r : F) rng_s rng_r :
  generic (generate_sender_package rng_s).1 (generate_receiver_package rng_r).1 ->
  exists sm rm gamma_s gamma_r,
  [/\ multiplication_sender sid a_s b_s (generate_sender_package rng_s).1 rm = Ok (sm, gamma_s),
      multiplication_receiver sid a_r b_r (generate_receiver_package rng_r).1 sm = Ok (rm, gamma_r) &
      gamma_s + gamma_r = a_s * b_r + b_s * a_r].
Proof. exact: (multiplication_pair _ _ _ _ _ (sender_package_fine _) (receiver_package_fine _)). Qed.

(** ** Messages of a wrong length *)













(** What [p] multiplies, and its random numbers at that point. *)
Definition constants_e (st : Participant -> @Start F G C) N p : seq F := [seq (poly_e (sec st p i)).[0] | i <- iota 0 N].
Definition constants_f (st : Participant -> @Start F G C) N p : seq F := [seq (poly_f (sec st p i)).[0] | i <- iota 0 N].
Definition multiplication_rng l N threshold rngs (st : Participant -> @Start F G C) p : @cs_rng F G C :=
  cf_rng (confirmed l N threshold rngs st p).

(** The random choices of an honest run, apart from exceptions of negligible probability: the
    polynomials have their full degree and no sum of them vanishes, the hashes that fix the roles in
    the multiplications differ, and no exponent of the base transfers meets another. *)
Record generic_choices l N threshold (rngs : Participant -> @cs_rng F G C) (st : Participant -> @Start F G C) : Prop := {
  gc_started : {in pl_participants l, forall p, generation_start N l threshold (rngs p) = Ok (st p)};
  gc_sizes : {in pl_participants l, forall p i, (i < N)%N ->
    [/\ size (poly_e (sec st p i)) = Z.to_nat threshold, size (poly_f (sec st p i)) = Z.to_nat threshold &
        size (poly_l (sec st p i)) = (Z.to_nat threshold).-1]};
  gc_sums : {in pl_participants l, forall p i j, (i < N)%N ->
    let qs := p :: take j (ParticipantList_others l p) in
    [/\ \sum_(q <- qs) poly_e (sec st q i) != 0, \sum_(q <- qs) poly_f (sec st q i) != 0 &
        \sum_(q <- qs) poly_l (sec st q i) != 0]};
  gc_constants : forall i, (i < N)%N -> (\sum_(q <- pl_participants l) poly_f (sec st q i)).[0] != 0;
  gc_keys : {in pl_participants l &, forall p q, p != q -> forall i, (i < N)%N -> key_of i p != key_of i q};
  gc_transfers : {in pl_participants l &, forall p q i sp rp,
    List.In (SenderTask i q sp) (tasks_of l N (multiplication_rng l N threshold rngs st) p) ->
    List.In (ReceiverTask i p rp) (tasks_of l N (multiplication_rng l N threshold rngs st) q) -> generic sp rp};
}.

(** The messages of [honest_generation] are the ones that the participants send in the rounds. *)
Record messages_sent l N threshold (rngs : Participant -> @cs_rng F G C) (st : Participant -> @Start F G C)
    (l0 : Participant -> seq F) : Prop := {
  ms_confirmations : {in pl_participants l, forall p,
    generation_confirm N (st_transcript (st p)) (honest_maps l N st) (st_rng (st p)) = Ok (confirmed l N threshold rngs st p) /\
    cf_confirmations (confirmed l N threshold rngs st p) = honest_confirmations l N st};
  ms_openings : {in pl_participants l, forall p,
    generation_opening N p (st_secrets (st p)) (confirmed l N threshold rngs st p) = Ok (opening l N threshold rngs st p)};
  ms_shares : {in pl_participants l &, forall p q,
    generation_shares (st_secrets (st p)) q = Ok (share_message N st p q)};
  ms_products : {in pl_participants l, forall p,
    generation_products N p (cf_transcript (confirmed l N threshold rngs st p)) (st_secrets (st p))
      [seq sums_after l st p (ParticipantList_others l p) i | i <- iota 0 N]
      [seq shares_after st p (ParticipantList_others l p) i | i <- iota 0 N]
      (cf_noncesq (confirmed l N threshold rngs st p)) = Ok (products l N threshold rngs st p)};
  ms_hats : {in pl_participants l, forall p,
    generation_hats p (cf_transcript (confirmed l N threshold rngs st p)) (l0 p) (cf_nonces2 (confirmed l N threshold rngs st p)) =
    Ok (hats l N threshold rngs st l0 p)};
  ms_c_shares : {in pl_participants l &, forall p q,
    (let* ls := complete_l N (st_secrets (st p)) (l0 p) in generation_c_shares ls q) = Ok (c_share_message N st l0 p q)};
}.

Section Honest.
Context (l : ParticipantList) (N : nat) (threshold : Z) (rngs : Participant -> @cs_rng F G C).
Context (st : Participant -> @Start F G C).
Hypothesis l_ok : ParticipantList_ok l.
Hypothesis l_range : all is_participant (pl_participants l).
Hypothesis N_gt0 : (0 < N)%N.
Hypothesis N_le : Z.le (Z.of_nat N) (2 ^ 20).
Hypothesis thr_ge : Z.le 2 threshold.
Hypothesis thr_le : Z.le threshold (Z.of_nat (size (pl_participants l))).
Hypothesis choices : generic_choices l N threshold rngs st.
Abbreviation ps := (pl_participants l).
Abbreviation sum_e i := (\sum_(q <- ps) poly_e (sec st q i)).
Abbreviation sum_f i := (\sum_(q <- ps) poly_f (sec st q i)).

Let started := gc_started choices.

Lemma honest_messages_sent (l0 : Participant -> seq F) :
  {in ps, forall p, size (l0 p) = N} -> {in ps, forall p i, (i < N)%N -> (l0 p)`_i != 0} ->
  messages_sent l N threshold rngs st l0.
Proof.
move=> l0_size l0_neq0.
have cf_tE p : p \in ps -> cf_transcript (confirmed l N threshold rngs st p) = run_transcript l N threshold st.
  by case/(confirmedP N_le started)=> _ [].
split.
- by move=> p p_in; have [E [_ cE _ _ _ _] _] := confirmedP N_le started p_in; rewrite (start_transcriptE started p_in).
- by move=> p p_in; exact: (openingE N_le started).
- by move=> p q p_in q_in; exact: (sharesE l_range started).
- by move=> p p_in; rewrite cf_tE //; exact: (productsE l_ok l_range N_le started (gc_sums choices) (gc_constants choices)).
- by move=> p p_in; rewrite cf_tE //; exact: (hatsE N_le started).
- by move=> p q p_in q_in; rewrite (complete_lE started l0_size l0_neq0 p_in) rbindE (c_sharesE l_range started l0_neq0).
Qed.

Lemma size_sum_le (f : Participant -> {poly F}) n : {in ps, forall p, (size (f p) <= n)%N} ->
  (size (\sum_(q <- ps) f q)%R <= n)%N.
Proof.
move=> f_size; rewrite big_seq; elim/big_ind: _ => [|x y x_le y_le|q /f_size //]; first by rewrite size_poly0.
by apply: leq_trans (size_polyD _ _) _; rewrite geq_max x_le.
Qed.

(** The outputs share triples. *)
Lemma outputs_shared i : (i < N)%N ->
  triple_shared l (sum_e i) (sum_f i) (sum_c l st i) (triple_share l st i) (triple_pub l threshold st i).
Proof.
move=> i_lt; have size_le n : (n <= Z.to_nat threshold)%N -> (n <= size ps)%N.
  by move/leq_trans; apply; apply/leP; lia.
split=> //=; last first.
- by rewrite /sum_c hornerD hornerM hornerX mul0r add0r hornerC.
- by rewrite /sum_c hornerD hornerM hornerX mul0r add0r hornerC.
split; [|split]; apply: size_le.
- by apply: size_sum_le => p p_in; have [-> _ _] := gc_sizes choices p_in i_lt.
- by apply: size_sum_le => p p_in; have [_ -> _] := gc_sizes choices p_in i_lt.
rewrite /sum_c; apply: leq_trans (size_polyD _ _) _; rewrite geq_max; apply/andP; split.
  rewrite mulrC; apply: leq_trans (size_polyMleq _ _) _; rewrite size_polyX addn2 /=.
  have thr_gt0 : (0 < Z.to_nat threshold)%N by apply/leP; lia.
  rewrite -(prednK thr_gt0) ltnS.
  by apply: size_sum_le => p p_in; have [_ _ ->] := gc_sizes choices p_in i_lt.
by apply: leq_trans (size_polyC_leq1 _) _; apply/leP; lia.
Qed.

(** The multiplications of an honest run. *)
Lemma honest_multiplications :
  exists (mul : Participant -> @MultiplicationMessages F G) (sent : Participant -> seq (@SentMessages F G))
    (l0 : Participant -> seq F),
  [/\ {in ps, forall p, multiplication_many N (honest_confirmations l N st) l p (constants_e st N p) (constants_f st N p)
        (multiplication_rng l N threshold rngs st p) (mul p) = Ok (sent p, l0 p)},
      {in ps &, forall p q i,
        (forall m, List.In (SentAsSender i q m) (sent p) -> mm_sender (mul q) i p = m) /\
        (forall m, List.In (SentAsReceiver i q m) (sent p) -> mm_receiver (mul q) i p = m)},
      {in ps, forall p, size (l0 p) = N} &
      forall i, (i < N)%N ->
        \sum_(q <- ps) (l0 q)`_i = (\sum_(q <- ps) (poly_e (sec st q i)).[0]) * (\sum_(q <- ps) (poly_f (sec st q i)).[0])].
Proof.
have sizeE (f : nat -> F) : size [seq f i | i <- iota 0 N] = N by rewrite size_map size_iota.
have nthE (f : nat -> F) i : (i < N)%N -> [seq f i | i <- iota 0 N]`_i = f i.
  by move=> i_lt; rewrite (nth_map 0%N) ?size_iota // nth_iota.
have sids_size : size (honest_confirmations l N st) = N by rewrite size_map size_iota.
have [mul [sent [l0 [runs delivered size_l0 sumE]]]] :=
  multiplication_many_correct (av := constants_e st N) (bv := constants_f st N) l_ok N_gt0 sids_size
    (fun p _ => sizeE _) (fun p _ => sizeE _) (gc_keys choices) (gc_transfers choices).
exists mul, sent, l0; split=> // i i_lt; rewrite sumE //.
by congr (_ * _); apply: eq_bigr => q _; rewrite nthE.
Qed.

(** C11: triple generation is correct.  When all participants run [do_generation_many] and receive what
    the others send, with random choices outside the exceptions of negligible probability in
    [generic_choices], every multiplication ends, and then either a share of a product is zero (what
    the code refuses) or every participant ends with the outcome [Ok]: its [N] triple shares and the public
    parts, and each triple is shared among the participants, with the third secret the product of the
    first two, as presigning asks for. *)
Theorem triple_generation_correct :
  exists (mul : Participant -> @MultiplicationMessages F G) (sent : Participant -> seq (@SentMessages F G))
    (l0 : Participant -> seq F),
  [/\ {in ps, forall p, multiplication_many N (honest_confirmations l N st) l p (constants_e st N p) (constants_f st N p)
        (multiplication_rng l N threshold rngs st p) (mul p) = Ok (sent p, l0 p)},
      {in ps &, forall p q i,
        (forall m, List.In (SentAsSender i q m) (sent p) -> mm_sender (mul q) i p = m) /\
        (forall m, List.In (SentAsReceiver i q m) (sent p) -> mm_receiver (mul q) i p = m)} &
      has (fun p => has (fun x => x == 0) (l0 p)) ps \/
      exists (share : nat -> Participant -> @TripleShare F) (pub : nat -> @TriplePub F G),
      [/\ messages_sent l N threshold rngs st l0,
          {in ps, forall p, do_generation_many N l p threshold (rngs p) (honest_generation l N threshold rngs st l0 mul p) =
            Some (Ok [seq (share i p, pub i) | i <- iota 0 N])} &
          forall i, (i < N)%N -> exists fa fb fc,
            triple_shared l fa fb fc (share i) (pub i) /\ tp_threshold (pub i) = threshold]].
Proof.
have [mul [sent [l0 [runs delivered size_l0 sumE]]]] := honest_multiplications.
exists mul, sent, l0; split=> //; case: (boolP (has _ ps)) => [|/hasPn no_zero]; [by left | right].
have l0_neq0 : {in ps, forall p i, (i < N)%N -> (l0 p)`_i != 0}.
  by move=> p p_in i i_lt; have /hasPn := no_zero p p_in; apply; rewrite mem_nth // size_l0.
exists (triple_share l st), (triple_pub l threshold st); split=> [|p p_in|i i_lt].
- exact: honest_messages_sent.
- exact: (honest_generation_run l_ok l_range N_gt0 N_le thr_ge started (gc_sizes choices) (gc_sums choices)
    (gc_constants choices) size_l0 l0_neq0 sumE runs).
- by exists (sum_e i), (sum_f i), (sum_c l st i); split; first exact: outputs_shared.
Qed.
End Honest.
End Generation.

Lemma pair_choices : generic_choices pair 1 2 pair_rng pair_start.
Proof.
exact: (Build_generic_choices pair_started pair_sizes pair_sums pair_sum_f pair_keys pair_transfers).
Qed.

Lemma triple_generation_correct_witness :
  exists (mul : Participant -> @MultiplicationMessages rat rat^o) (l0 : Participant -> seq rat),
  has (fun p => has (fun x => x == 0) (l0 p)) (pl_participants pair) \/
  exists (share : Participant -> @TripleShare rat) (pub : @TriplePub rat rat^o) (fa fb fc : {poly rat}),
  [/\ do_generation_many 1 pair 0 2 (pair_rng 0) (honest_generation pair 1 2 pair_rng pair_start l0 mul 0) =
        Some (Ok [:: (share 0%Z, pub)]),
      do_generation_many 1 pair 1 2 (pair_rng 1) (honest_generation pair 1 2 pair_rng pair_start l0 mul 1) =
        Some (Ok [:: (share 1%Z, pub)]) &
      triple_shared pair fa fb fc share pub].
Proof.
have N_le : Z.le (Z.of_nat 1) (2 ^ 20) by [].
have thr_le : Z.le 2 (Z.of_nat (size (pl_participants pair))) by [].
have [mul [sent [l0 [_ _ outcome]]]] :=
  triple_generation_correct pair_ok (isT : all is_participant (pl_participants pair)) (ltn0Sn 0) N_le (Z.le_refl 2) thr_le pair_choices.
exists mul, l0; case: outcome => [zero|[share [pub [_ runs shared]]]]; [by left | right].
have [fa [fb [fc [triple _]]]] := shared 0%N isT.
exists (share 0%N), (pub 0%N), fa, fb, fc; split=> //; exact: runs.
Defined.

Lemma multiplication_shares_products_witness :
  exists sm rm gamma_s gamma_r,
  [/\ multiplication_sender [:: 1%Z] (2%:R : rat) 3%:R (generate_sender_package (200%N : @cs_rng _ _ sample_suite)).1 rm =
        Ok (sm, gamma_s),
      multiplication_receiver [:: 1%Z] (5%:R : rat) 7%:R (generate_receiver_package (0%N : @cs_rng _ _ sample_suite)).1 sm =
        Ok (rm, gamma_r) &
      gamma_s + gamma_r = 2%:R * 7%:R + 3%:R * 5%:R].
Proof. by apply: multiplication_shares_products; apply: packages_generic; right. Defined.


