(* ===== verification/NodePrimitives.v ===== *)
(** * Node: unique ids

    [node/src/primitives.rs]: the 128-bit ids of triples, presignatures and
    channels, made of a participant, a timestamp in seconds and a counter, and
    their big-endian encoding, by which the database orders its keys.  The wall
    clock is an argument [now].  The node is built with overflow checks, so an
    overflowing addition panics. *)

From S2P Require Import Prelude Types.

Definition is_u128 (a : Z) : Prop := 0 ≤ a ≤ u128_max.
Definition as_u64 (a : Z) : Z := a mod 2 ^ 64.

Definition add_overflow : panic := PanicStr "attempt to add with overflow".

Definition u32_checked_add (a b : Z) : option Z := if a + b <=? u32_max then Some (a + b) else None.

(** [to_be_bytes] of an integer of [n] bytes, and [from_be_bytes]. *)
Fixpoint be_bytes (n : nat) (x : Z) : bytes :=
  match n with
  | O => []
  | S n => (x / 2 ^ (8 * Z.of_nat n)) mod 256 :: be_bytes n x
  end.

Definition from_be_bytes (b : bytes) : Z := foldl (λ x byte, x * 256 + byte) 0 b.

(** Lexicographic order on byte strings, the order of the keys of the database. *)
Fixpoint bytes_lt (a b : bytes) : bool :=
  match a, b with
  | _, [] => false
  | [], _ :: _ => true
  | x :: a, y :: b => (x <? y) || (x =? y) && bytes_lt a b
  end.

Definition bytes_le (a b : bytes) : bool := negb (bytes_lt b a).

(** ** Participant ids and unique ids *)

Definition ParticipantId : Type := Z.
Definition UniqueId : Type := Z.

#[global] Instance UniqueId_eq_dec : EqDecision UniqueId := Z.eq_dec.

Definition UniqueId_new (participant_id : ParticipantId) (timestamp counter : Z) : UniqueId :=
  Z.lor (Z.lor (Z.shiftl participant_id 96) (Z.shiftl timestamp 32)) counter.

Definition UniqueId_generate (participant_id : ParticipantId) (now : Z) : UniqueId :=
  UniqueId_new participant_id now 0.

Definition UniqueId_participant_id (id : UniqueId) : ParticipantId := as_u32 (Z.shiftr id 96).

Definition UniqueId_timestamp (id : UniqueId) : Z :=
  as_u64 (Z.land (Z.shiftr id 32) (Z.shiftl 1 64 - 1)).

Definition UniqueId_counter (id : UniqueId) : Z := as_u32 (Z.land id (Z.shiftl 1 32 - 1)).

Definition UniqueId_prefix_for_participant_id (participant_id : ParticipantId) : bytes :=
  be_bytes 4 participant_id.

Definition UniqueId_pick_new_after (id : UniqueId) (now : Z) : result string UniqueId :=
  if UniqueId_timestamp id <? now then
    Ok (UniqueId_new (UniqueId_participant_id id) now 0)
  else
    match u32_checked_add (UniqueId_counter id) 1 with
    | Some counter =>
      Ok (UniqueId_new (UniqueId_participant_id id) (UniqueId_timestamp id) counter)
    | None => Panic add_overflow
    end.

Definition UniqueId_add_to_counter (id : UniqueId) (delta : Z) : result string UniqueId :=
  new_counter ← ok_or (u32_checked_add (UniqueId_counter id) delta) "Counter overflow";
  Ok (UniqueId_new (UniqueId_participant_id id) (UniqueId_timestamp id) new_counter).

Definition UniqueId_serialize (id : UniqueId) : bytes := be_bytes 16 id.

(** [try_from_slice]: sixteen bytes and nothing after them. *)
Definition UniqueId_deserialize (b : bytes) : result string UniqueId :=
  if (length b =? 16)%nat then Ok (from_be_bytes b)
  else if (length b <? 16)%nat then Err "Unexpected length of input"
  else Err "Not all bytes read".

(** ** Bytes *)

Definition byte (x : Z) : Prop := 0 ≤ x < 256.

Lemma length_be_bytes n x : length (be_bytes n x) = n.
Proof. induction n; simpl; congruence. Qed.

Lemma be_bytes_bytes n x : Forall byte (be_bytes n x).
Proof. induction n; constructor; [apply Z.mod_pos_bound; lia|done]. Qed.

Lemma from_be_bytes_acc b x :
  foldl (λ x byte, x * 256 + byte) x b = x * 2 ^ (8 * zlen b) + from_be_bytes b.
Proof.
  unfold from_be_bytes. revert x. induction b as [|y b IH]; intros x; simpl; [change (zlen []) with 0; lia|].
  rewrite (IH (x * 256 + y)), (IH (0 * 256 + y)), zlen_cons.
  replace (8 * (1 + zlen b)) with (8 + 8 * zlen b) by lia.
  rewrite Z.pow_add_r by (pose proof (zlen_nonneg b); lia). lia.
Qed.

Lemma from_be_bytes_cons y b : from_be_bytes (y :: b) = y * 2 ^ (8 * zlen b) + from_be_bytes b.
Proof. unfold from_be_bytes at 1. simpl. by rewrite from_be_bytes_acc. Qed.

Lemma from_be_bytes_app a b :
  from_be_bytes (a ++ b) = from_be_bytes a * 2 ^ (8 * zlen b) + from_be_bytes b.
Proof. unfold from_be_bytes at 1. rewrite foldl_app. apply from_be_bytes_acc. Qed.

Lemma from_be_bytes_bound b : Forall byte b → 0 ≤ from_be_bytes b < 2 ^ (8 * zlen b).
Proof.
  induction 1 as [|y b Hy Hb IH]; [done|]. rewrite from_be_bytes_cons, zlen_cons.
  replace (8 * (1 + zlen b)) with (8 + 8 * zlen b) by lia.
  rewrite Z.pow_add_r by (pose proof (zlen_nonneg b); lia). unfold byte in Hy. nia.
Qed.

Lemma from_be_bytes_be n x :
  from_be_bytes (be_bytes n x) = x mod 2 ^ (8 * Z.of_nat n).
Proof.
  induction n as [|n IH]; [by rewrite Z.mod_1_r|]. cbn [be_bytes].
  rewrite from_be_bytes_cons, IH. unfold zlen. rewrite length_be_bytes.
  replace (8 * Z.of_nat (S n)) with (8 * Z.of_nat n + 8) by lia.
  rewrite Z.pow_add_r, Z.rem_mul_r by lia. change (2 ^ 8) with 256. lia.
Qed.

(** Numbers are ordered as their encodings. *)
Lemma bytes_lt_value a b :
  length a = length b → Forall byte a → Forall byte b →
  bytes_lt a b = (from_be_bytes a <? from_be_bytes b).
Proof.
  revert b. induction a as [|x a IH]; intros [|y b] Hlen Ha Hb; try done.
  simpl in Hlen. injection Hlen as Hlen.
  apply Forall_cons in Ha as [Hx Ha]. apply Forall_cons in Hb as [Hy Hb].
  pose proof (from_be_bytes_bound a Ha). pose proof (from_be_bytes_bound b Hb).
  simpl. rewrite (IH b), !from_be_bytes_cons by done.
  replace (zlen b) with (zlen a) in * by (unfold zlen; congruence).
  apply Bool.eq_iff_eq_true. rewrite orb_true_iff, andb_true_iff, !Z.ltb_lt, Z.eqb_eq.
  split; [nia|]. intros Hlt. assert (x < y ∨ x = y) as [?| ->] by nia; [by left|right; lia].
Qed.

Lemma bytes_lt_app p a b : bytes_lt (p ++ a) (p ++ b) = bytes_lt a b.
Proof. induction p as [|x p IH]; [done|]. simpl. by rewrite Z.ltb_irrefl, Z.eqb_refl, IH. Qed.

(** With prefixes of equal length, the prefixes decide unless they are equal. *)
Lemma bytes_lt_app_ne p q a b :
  length p = length q → p ≠ q → bytes_lt (p ++ a) (q ++ b) = bytes_lt p q.
Proof.
  revert q. induction p as [|x p IH]; intros [|y q] Hlen Hne; try done.
  simpl in *. destruct (decide (x = y)) as [->|Hxy].
  - rewrite (IH q) by congruence. done.
  - rewrite (proj2 (Z.eqb_neq x y)) by done. by rewrite !andb_false_l.
Qed.

(** The order is total. *)
Lemma bytes_lt_irrefl a : bytes_lt a a = false.
Proof. induction a as [|x a IH]; [done|]. simpl. by rewrite Z.ltb_irrefl, Z.eqb_refl, IH. Qed.

Lemma bytes_lt_cons x a y b :
  bytes_lt (x :: a) (y :: b) = true ↔ x < y ∨ x = y ∧ bytes_lt a b = true.
Proof. simpl. by rewrite orb_true_iff, andb_true_iff, Z.ltb_lt, Z.eqb_eq. Qed.

Lemma bytes_lt_trans a b c : bytes_lt a b = true → bytes_lt b c = true → bytes_lt a c = true.
Proof.
  revert b c. induction a as [|x a IH]; intros [|y b] [|z c]; try done.
  rewrite !bytes_lt_cons. intros [?|[-> ?]] [?|[-> ?]]; [left; lia|by left|by left|].
  right. split; [done|]. by eapply IH.
Qed.

Lemma bytes_lt_trichotomy a b : a = b ∨ bytes_lt a b = true ∨ bytes_lt b a = true.
Proof.
  revert b. induction a as [|x a IH]; intros [|y b]; [by left|by right; left|by right; right|].
  rewrite !bytes_lt_cons. destruct (Z.lt_trichotomy x y) as [?|[->|?]]; [auto| |auto].
  destruct (IH b) as [->|[?|?]]; auto.
Qed.

Lemma bytes_le_iff a b : bytes_le a b = true ↔ a = b ∨ bytes_lt a b = true.
Proof.
  unfold bytes_le. rewrite negb_true_iff. split.
  - destruct (bytes_lt_trichotomy a b) as [?|[?|?]]; [auto|auto|congruence].
  - intros [->|Hlt]; [apply bytes_lt_irrefl|]. destruct (bytes_lt b a) eqn:E; [|done].
    by rewrite <-(bytes_lt_irrefl a), (bytes_lt_trans a b a).
Qed.

Lemma bytes_le_refl a : bytes_le a a = true.
Proof. apply bytes_le_iff. by left. Qed.

Lemma bytes_le_trans a b c : bytes_le a b = true → bytes_le b c = true → bytes_le a c = true.
Proof.
  rewrite !bytes_le_iff. intros [->|?] [->|?]; eauto using bytes_lt_trans.
Qed.

Lemma bytes_le_total a b : bytes_le a b = true ∨ bytes_le b a = true.
Proof. rewrite !bytes_le_iff. destruct (bytes_lt_trichotomy a b) as [->|[?|?]]; auto. Qed.

(** ** Unique ids as triples *)

Lemma lor_disjoint a b n : 0 ≤ n → 0 ≤ b < 2 ^ n → Z.lor (Z.shiftl a n) b = a * 2 ^ n + b.
Proof.
  intros Hn Hb. rewrite Z.shiftl_mul_pow2 by done.
  assert (Hdis : Z.land (a * 2 ^ n) b = 0).
  { apply Z.bits_inj'. intros i Hi. rewrite Z.land_spec, Z.bits_0.
    destruct (Z.lt_ge_cases i n).
    - by rewrite Z.mul_pow2_bits_low.
    - rewrite <-(Z.mod_small b (2 ^ n)) by done.
      by rewrite Z.mod_pow2_bits_high, andb_false_r by lia. }
  by rewrite <-Z.lxor_lor, <-Z.add_nocarry_lxor.
Qed.

Lemma UniqueId_new_eq p t c :
  is_u64 t → is_u32 c → UniqueId_new p t c = p * 2 ^ 96 + t * 2 ^ 32 + c.
Proof.
  unfold is_u64, is_u32, u64_max, u32_max. intros Ht Hc. unfold UniqueId_new.
  rewrite <-Z.lor_assoc, (lor_disjoint t c) by lia. rewrite lor_disjoint by lia. lia.
Qed.

(** A well-formed id, of a 32-bit participant. *)
Definition UniqueId_ok (id : UniqueId) : Prop := is_u128 id.

Section Fields.
Context (p t c : Z) (Hp : is_u32 p) (Ht : is_u64 t) (Hc : is_u32 c).

Lemma UniqueId_new_ok : UniqueId_ok (UniqueId_new p t c).
Proof.
  rewrite UniqueId_new_eq by done. unfold UniqueId_ok, is_u128, u128_max.
  unfold is_u32, is_u64, u32_max, u64_max in *. lia.
Qed.

Lemma UniqueId_participant_id_new : UniqueId_participant_id (UniqueId_new p t c) = p.
Proof.
  unfold UniqueId_participant_id, as_u32. rewrite UniqueId_new_eq, Z.shiftr_div_pow2 by done.
  unfold is_u32, is_u64, u32_max, u64_max in *.
  replace (p * 2 ^ 96 + t * 2 ^ 32 + c) with ((t * 2 ^ 32 + c) + p * 2 ^ 96) by lia.
  rewrite Z.div_add, Z.div_small, Z.mod_small by lia. lia.
Qed.

Lemma UniqueId_timestamp_new : UniqueId_timestamp (UniqueId_new p t c) = t.
Proof.
  unfold UniqueId_timestamp, as_u64. rewrite UniqueId_new_eq, Z.shiftr_div_pow2 by done.
  unfold is_u32, is_u64, u32_max, u64_max in *.
  replace (p * 2 ^ 96 + t * 2 ^ 32 + c) with (c + (t + p * 2 ^ 64) * 2 ^ 32) by lia.
  rewrite Z.div_add, Z.div_small by lia. change (Z.shiftl 1 64 - 1) with (Z.ones 64).
  rewrite Z.land_ones, Z.add_0_l, Z.mod_mod, Z.mod_add, Z.mod_small by lia. done.
Qed.

Lemma UniqueId_counter_new : UniqueId_counter (UniqueId_new p t c) = c.
Proof.
  unfold UniqueId_counter, as_u32. rewrite UniqueId_new_eq by done.
  unfold is_u32, is_u64, u32_max, u64_max in *.
  replace (p * 2 ^ 96 + t * 2 ^ 32 + c) with (c + (t + p * 2 ^ 64) * 2 ^ 32) by lia.
  change (Z.shiftl 1 32 - 1) with (Z.ones 32).
  rewrite Z.land_ones, Z.mod_mod, Z.mod_add, Z.mod_small by lia. done.
Qed.
End Fields.

Lemma UniqueId_fields_range id :
  is_u32 (UniqueId_participant_id id) ∧ is_u64 (UniqueId_timestamp id) ∧
  is_u32 (UniqueId_counter id).
Proof.
  unfold UniqueId_participant_id, UniqueId_timestamp, UniqueId_counter, as_u32, as_u64.
  unfold is_u32, is_u64, u32_max, u64_max.
  repeat split; try apply Z.lt_le_pred; try apply Z.mod_pos_bound; lia.
Qed.

(** Every id is made of its parts. *)
Lemma UniqueId_eta id :
  UniqueId_ok id →
  UniqueId_new (UniqueId_participant_id id) (UniqueId_timestamp id) (UniqueId_counter id) = id.
Proof.
  intros Hid. destruct (UniqueId_fields_range id) as (? & ? & ?).
  rewrite UniqueId_new_eq by done. unfold UniqueId_ok, is_u128, u128_max in Hid.
  unfold UniqueId_participant_id, UniqueId_timestamp, UniqueId_counter, as_u32, as_u64.
  change (Z.shiftl 1 64 - 1) with (Z.ones 64). change (Z.shiftl 1 32 - 1) with (Z.ones 32).
  rewrite !Z.land_ones, !Z.shiftr_div_pow2, !Z.mod_mod by lia.
  rewrite (Z.mod_small (id / 2 ^ 96)) by (split; [apply Z.div_pos|apply Z.div_lt_upper_bound]; lia).
  replace (id / 2 ^ 96) with (id / 2 ^ 32 / 2 ^ 64) by (by rewrite Z.div_div by lia).
  pose proof (Z.div_mod (id / 2 ^ 32) (2 ^ 64) ltac:(lia)).
  pose proof (Z.div_mod id (2 ^ 32) ltac:(lia)). lia.
Qed.

(** Ids of one participant are ordered by timestamp, then by counter. *)
Lemma UniqueId_new_lt p t c t' c' :
  is_u64 t → is_u32 c → is_u64 t' → is_u32 c' →
  UniqueId_new p t c < UniqueId_new p t' c' ↔ t < t' ∨ t = t' ∧ c < c'.
Proof.
  intros. rewrite !UniqueId_new_eq by done. unfold is_u32, is_u64, u32_max, u64_max in *. lia.
Qed.

Lemma UniqueId_lt_iff id id' :
  UniqueId_ok id → UniqueId_ok id' → UniqueId_participant_id id = UniqueId_participant_id id' →
  id < id' ↔ UniqueId_timestamp id < UniqueId_timestamp id' ∨
    UniqueId_timestamp id = UniqueId_timestamp id' ∧ UniqueId_counter id < UniqueId_counter id'.
Proof.
  intros Hid Hid' Hp.
  destruct (UniqueId_fields_range id) as (? & ? & ?), (UniqueId_fields_range id') as (? & ? & ?).
  rewrite <-(UniqueId_eta id), <-(UniqueId_eta id') at 1 by done.
  rewrite <-Hp. by apply UniqueId_new_lt.
Qed.

Lemma UniqueId_pick_new_after_ok id now id' :
  is_u64 now → UniqueId_pick_new_after id now = Ok id' →
  UniqueId_ok id' ∧ UniqueId_participant_id id' = UniqueId_participant_id id ∧
  UniqueId_timestamp id' = Z.max now (UniqueId_timestamp id) ∧
  (UniqueId_timestamp id < UniqueId_timestamp id' ∨
   UniqueId_timestamp id = UniqueId_timestamp id' ∧ UniqueId_counter id < UniqueId_counter id').
Proof.
  intros Hnow. unfold UniqueId_pick_new_after, u32_checked_add.
  destruct (UniqueId_fields_range id) as (Hp & Ht & Hc).
  destruct (Z.ltb_spec (UniqueId_timestamp id) now); [intros [= <-]|].
  - assert (is_u32 0) by done. rewrite UniqueId_participant_id_new, UniqueId_timestamp_new by done.
    split; [by apply UniqueId_new_ok|]. split; [done|]. split; [lia|auto].
  - destruct (Z.leb_spec (UniqueId_counter id + 1) u32_max); [intros [= <-]|done].
    assert (is_u32 (UniqueId_counter id + 1)) by (unfold is_u32 in *; lia).
    rewrite UniqueId_participant_id_new, UniqueId_timestamp_new, UniqueId_counter_new by done.
    split; [by apply UniqueId_new_ok|]. split; [done|]. split; lia.
Qed.

Lemma UniqueId_add_to_counter_ok id delta id' :
  0 ≤ delta → UniqueId_add_to_counter id delta = Ok id' →
  UniqueId_ok id' ∧ UniqueId_participant_id id' = UniqueId_participant_id id ∧
  UniqueId_timestamp id' = UniqueId_timestamp id ∧
  UniqueId_counter id' = UniqueId_counter id + delta.
Proof.
  intros Hd. unfold UniqueId_add_to_counter, u32_checked_add.
  destruct (UniqueId_fields_range id) as (Hp & Ht & Hc).
  destruct (Z.leb_spec (UniqueId_counter id + delta) u32_max); [intros [= <-]|done].
  assert (is_u32 (UniqueId_counter id + delta)) by (unfold is_u32 in *; lia).
  rewrite UniqueId_participant_id_new, UniqueId_timestamp_new, UniqueId_counter_new by done.
  eauto using UniqueId_new_ok.
Qed.

Lemma UniqueId_deserialize_serialize id :
  UniqueId_ok id → UniqueId_deserialize (UniqueId_serialize id) = Ok id.
Proof.
  intros Hid. unfold UniqueId_deserialize, UniqueId_serialize. rewrite length_be_bytes.
  rewrite Nat.eqb_refl, from_be_bytes_be, Z.mod_small; [done|].
  unfold UniqueId_ok, is_u128, u128_max in Hid. simpl. lia.
Qed.

(** The keys of a participant are those between two prefixes. *)
Lemma be_bytes_app n m x : be_bytes (n + m) x = be_bytes n (x / 2 ^ (8 * Z.of_nat m)) ++ be_bytes m x.
Proof.
  induction n as [|n IH]; [done|]. cbn [be_bytes Nat.add app]. rewrite IH. f_equal.
  rewrite Z.div_div by lia. rewrite <-Z.pow_add_r by lia. do 3 f_equal. lia.
Qed.

Lemma be_bytes_inj n x y :
  0 ≤ x < 2 ^ (8 * Z.of_nat n) → 0 ≤ y < 2 ^ (8 * Z.of_nat n) → be_bytes n x = be_bytes n y → x = y.
Proof.
  intros Hx Hy E. apply (f_equal from_be_bytes) in E. rewrite !from_be_bytes_be in E.
  by rewrite !Z.mod_small in E.
Qed.

Lemma UniqueId_serialize_prefix id :
  UniqueId_ok id → ∃ rest, length rest = 12%nat ∧
  UniqueId_serialize id = UniqueId_prefix_for_participant_id (UniqueId_participant_id id) ++ rest.
Proof.
  intros Hid. exists (be_bytes 12 id). split; [apply length_be_bytes|].
  unfold UniqueId_serialize, UniqueId_prefix_for_participant_id, UniqueId_participant_id.
  change (be_bytes 16 id) with (be_bytes (4 + 12) id). rewrite be_bytes_app. f_equal. unfold as_u32. rewrite Z.shiftr_div_pow2, Z.mod_small.
  - done.
  - unfold UniqueId_ok, is_u128, u128_max in Hid.
    split; [apply Z.div_pos|apply Z.div_lt_upper_bound]; lia.
  - done.
Qed.

Lemma prefix_lt p q rest :
  is_u32 p → is_u32 q →
  bytes_lt (UniqueId_prefix_for_participant_id q ++ rest) (UniqueId_prefix_for_participant_id p) =
  (q <? p).
Proof.
  intros Hp Hq. rewrite <-(app_nil_r (UniqueId_prefix_for_participant_id p)).
  unfold UniqueId_prefix_for_participant_id. destruct (decide (q = p)) as [->|Hqp].
  { rewrite bytes_lt_app, Z.ltb_irrefl. by destruct rest. }
  unfold is_u32, u32_max in *. rewrite bytes_lt_app_ne; rewrite ?length_be_bytes; [|done|].
  - rewrite bytes_lt_value by (rewrite ?length_be_bytes; auto using be_bytes_bytes).
    by rewrite !from_be_bytes_be, !Z.mod_small by (simpl; lia).
  - intros E. apply Hqp. apply be_bytes_inj in E; simpl; lia.
Qed.

Lemma UniqueId_in_prefix_range id p :
  UniqueId_ok id → is_u32 p → is_u32 (p + 1) →
  bytes_le (UniqueId_prefix_for_participant_id p) (UniqueId_serialize id) &&
  bytes_lt (UniqueId_serialize id) (UniqueId_prefix_for_participant_id (p + 1)) =
  bool_decide (UniqueId_participant_id id = p).
Proof.
  intros Hid Hp Hp1. destruct (UniqueId_serialize_prefix id Hid) as (rest & Hlen & ->).
  destruct (UniqueId_fields_range id) as (Hq & _). unfold bytes_le. rewrite !prefix_lt by done.
  apply Bool.eq_iff_eq_true. rewrite bool_decide_eq_true, andb_true_iff, negb_true_iff.
  rewrite Z.ltb_ge, Z.ltb_lt. lia.
Qed.
