(* ===== verification/Db.v ===== *)
(** * Node: the encrypted key-value store

    [node/src/db.rs]: values are encrypted with AES-GCM under a random nonce that
    is stored in front of the ciphertext; keys are in the clear and iterated in
    the order of their bytes.  RocksDB is a map per column; writes are batches
    that are applied at once.  The cipher is the class [AesGcm]; nonces are
    arguments.  I/O errors of RocksDB are not modelled. *)

From stdpp Require Import sorting.
From S2P Require Import Prelude Types NodePrimitives.

(** The [aes_gcm] crate: key, nonce, text. *)
Class AesGcm : Type := {
  aes_encrypt : bytes → bytes → bytes → option bytes;
  aes_decrypt : bytes → bytes → bytes → option bytes;
}.

Class AesGcmLaws `{!AesGcm} : Prop := {
  aes_decrypt_encrypt key nonce plaintext ciphertext :
    aes_encrypt key nonce plaintext = Some ciphertext →
    aes_decrypt key nonce ciphertext = Some plaintext;
}.

Inductive DBCol : Type :=
  | Triple
  | Presignature
  | SignRequest
  | CKDRequest
  | VerifyForeignTxRequest
  | EpochData.

#[global] Instance DBCol_eq_dec : EqDecision DBCol.
Proof. solve_decision. Defined.

Definition EPOCH_ID_KEY : bytes := [69; 80; 79; 67; 72; 95; 73; 68].

Section Db.
Context `{!AesGcm}.

Definition NONCE_LEN : nat := 12.

Definition encrypt (cipher nonce plaintext : bytes) : result string bytes :=
  ciphertext ← unwrap (aes_encrypt cipher nonce plaintext);
  Ok (nonce ++ ciphertext).

Definition decrypt (cipher ciphertext : bytes) : result string bytes :=
  if (length ciphertext <? NONCE_LEN)%nat then Err "ciphertext is too short"
  else
    let nonce := take NONCE_LEN ciphertext in
    let ciphertext := drop NONCE_LEN ciphertext in
    ok_or (aes_decrypt cipher nonce ciphertext) "decryption failed".

(** ** The database *)

Abbreviation Column := (gmap (list Z) (list Z)).

Record SecretDB : Type := mkSecretDB {
  db_columns : DBCol → Column;
  db_cipher : bytes;
}.

Definition set_column (db : SecretDB) (col : DBCol) (c : Column) : SecretDB :=
  mkSecretDB (λ col', if decide (col' = col) then c else db_columns db col') (db_cipher db).

Definition SecretDB_get (db : SecretDB) (col : DBCol) (key : bytes) :
    result string (option bytes) :=
  match db_columns db col !! key with
  | None => Ok None
  | Some v => Some <$> decrypt (db_cipher db) v
  end.

(** The entries of a column in the order of their keys. *)
Definition key_le (a b : list Z * list Z) : Prop := bytes_le a.1 b.1 = true.
#[local] Instance key_le_dec : RelDecision key_le := λ a b, decide (bytes_le a.1 b.1 = true).

Definition column_entries (c : Column) : list (list Z * list Z) := merge_sort key_le (map_to_list c).

Definition SecretDB_iter_range (db : SecretDB) (col : DBCol) (start end_ : bytes) :
    list (result string (bytes * bytes)) :=
  (λ '(key, value), pair key <$> decrypt (db_cipher db) value) <$>
    filter (λ kv, bytes_le start kv.1 && bytes_lt kv.1 end_ = true)
      (column_entries (db_columns db col)).

(** ** Batches of writes *)

Inductive BatchOp : Type :=
  | BatchPut (col : DBCol) (key value : bytes)
  | BatchDelete (col : DBCol) (key : bytes)
  | BatchDeleteRange (col : DBCol) (from to : bytes).

Record SecretDBUpdate : Type := mkSecretDBUpdate { update_batch : list BatchOp }.

Definition SecretDB_update : SecretDBUpdate := mkSecretDBUpdate [].

Definition SecretDBUpdate_push (u : SecretDBUpdate) (op : BatchOp) : SecretDBUpdate :=
  mkSecretDBUpdate (update_batch u ++ [op]).

Definition SecretDBUpdate_put (db : SecretDB) (u : SecretDBUpdate) (col : DBCol)
    (key value nonce : bytes) : result string SecretDBUpdate :=
  value ← encrypt (db_cipher db) nonce value;
  Ok (SecretDBUpdate_push u (BatchPut col key value)).

Definition SecretDBUpdate_delete (u : SecretDBUpdate) (col : DBCol) (key : bytes) :
    SecretDBUpdate :=
  SecretDBUpdate_push u (BatchDelete col key).

(** The smallest and the largest key of a column. *)
Definition get_cf_key_range (db : SecretDB) (col : DBCol) : option (bytes * bytes) :=
  let entries := column_entries (db_columns db col) in
  match head entries, last entries with
  | Some start, Some end_ => Some (start.1, end_.1)
  | _, _ => None
  end.

Definition SecretDBUpdate_delete_all (db : SecretDB) (u : SecretDBUpdate) (col : DBCol) :
    SecretDBUpdate :=
  match get_cf_key_range db col with
  | Some (start, end_) =>
    SecretDBUpdate_push (SecretDBUpdate_push u (BatchDeleteRange col start end_))
      (BatchDelete col end_)
  | None => u
  end.

Definition apply_batch_op (db : SecretDB) (op : BatchOp) : SecretDB :=
  match op with
  | BatchPut col key value => set_column db col (<[key := value]> (db_columns db col))
  | BatchDelete col key => set_column db col (delete key (db_columns db col))
  | BatchDeleteRange col from to =>
    set_column db col
      (filter (λ kv, bytes_le from kv.1 && bytes_lt kv.1 to = false) (db_columns db col))
  end.

Definition SecretDBUpdate_commit (db : SecretDB) (u : SecretDBUpdate) : SecretDB :=
  foldl apply_batch_op db (update_batch u).

(** ** Encryption *)

Lemma decrypt_encrypt `{!AesGcmLaws} cipher nonce plaintext ciphertext :
  length nonce = NONCE_LEN → encrypt cipher nonce plaintext = Ok ciphertext →
  decrypt cipher ciphertext = Ok plaintext.
Proof.
  unfold encrypt, decrypt. intros Hlen Henc.
  destruct (aes_encrypt cipher nonce plaintext) as [c|] eqn:E; [|done]. injection Henc as <-.
  rewrite length_app. destruct (Nat.ltb_spec (length nonce + length c) NONCE_LEN); [lia|].
  rewrite <-Hlen, take_app_length, drop_app_length.
  by rewrite (aes_decrypt_encrypt cipher nonce plaintext).
Qed.

(** ** Iteration *)

#[local] Instance key_le_total : Total key_le.
Proof. intros a b. apply bytes_le_total. Qed.
#[local] Instance key_le_trans : Transitive key_le.
Proof. intros a b c. apply bytes_le_trans. Qed.

Lemma column_entries_perm c : column_entries c ≡ₚ map_to_list c.
Proof. apply merge_sort_Permutation. Qed.

Lemma column_entries_sorted c : StronglySorted key_le (column_entries c).
Proof. apply (StronglySorted_merge_sort key_le). Qed.

Lemma column_entries_NoDup c : NoDup (column_entries c).*1.
Proof. rewrite column_entries_perm. apply NoDup_fst_map_to_list. Qed.

Lemma elem_of_column_entries c kv : kv ∈ column_entries c ↔ c !! kv.1 = Some kv.2.
Proof. rewrite column_entries_perm. destruct kv. apply elem_of_map_to_list. Qed.

(** The values as a reader sees them. *)
Definition db_plain (db : SecretDB) (col : DBCol) (key : bytes) : option bytes :=
  match SecretDB_get db col key with Ok v => v | _ => None end.

Lemma SecretDB_get_plain db col key v :
  SecretDB_get db col key = Ok (Some v) ↔ db_plain db col key = Some v.
Proof. unfold db_plain. destruct (SecretDB_get db col key); naive_solver. Qed.

(** ** Writes *)

Lemma set_column_same db col c : db_columns (set_column db col c) col = c.
Proof. simpl. by rewrite decide_True. Qed.

Lemma commit_put db col key value nonce u :
  SecretDBUpdate_put db SecretDB_update col key value nonce = Ok u →
  ∃ ciphertext, encrypt (db_cipher db) nonce value = Ok ciphertext ∧
  SecretDBUpdate_commit db u = set_column db col (<[key := ciphertext]> (db_columns db col)).
Proof. unfold SecretDBUpdate_put. intros. inv_ok. eauto. Qed.

Lemma commit_delete db col key :
  SecretDBUpdate_commit db (SecretDBUpdate_delete SecretDB_update col key) =
  set_column db col (delete key (db_columns db col)).
Proof. done. Qed.

Lemma set_column_ne db col c col' :
  col' ≠ col → db_columns (set_column db col c) col' = db_columns db col'.
Proof. intros. simpl. by rewrite decide_False. Qed.

(** A batch of deletions. *)
Lemma foldl_deletes db col (keys : list (list Z)) :
  let db' := foldl apply_batch_op db (BatchDelete col <$> keys) in
  db_cipher db' = db_cipher db ∧
  (∀ key, db_columns db' col !! key = if decide (key ∈ keys) then None else db_columns db col !! key) ∧
  ∀ col', col' ≠ col → db_columns db' col' = db_columns db col'.
Proof.
  revert db. induction keys as [|k keys IH]; intros db.
  { split; [done|]. split; [|done]. intros key. by rewrite decide_False by set_solver. }
  cbn [fmap list_fmap foldl apply_batch_op].
  destruct (IH (set_column db col (delete k (db_columns db col)))) as (Hc & Hk & Ho).
  split; [done|]. split.
  - intros key. rewrite Hk, set_column_same. destruct (decide (key = k)) as [->|Hne].
    + rewrite (decide_True (P := k ∈ k :: keys)) by set_solver. rewrite lookup_delete_eq. by case_decide.
    + rewrite lookup_delete_ne by done. repeat case_decide; set_solver.
  - intros col' Hne. rewrite Ho by done. by apply set_column_ne.
Qed.

(** [delete_all] leaves nothing, although the range of RocksDB is half open. *)
Definition delete_all_ops (db : SecretDB) (col : DBCol) : list BatchOp :=
  match get_cf_key_range db col with
  | Some (start, end_) => [BatchDeleteRange col start end_; BatchDelete col end_]
  | None => []
  end.

Lemma delete_all_batch db u col :
  update_batch (SecretDBUpdate_delete_all db u col) = update_batch u ++ delete_all_ops db col.
Proof.
  unfold SecretDBUpdate_delete_all, delete_all_ops.
  destruct (get_cf_key_range db col) as [[start end_]|]; simpl; [by rewrite <-app_assoc|by rewrite app_nil_r].
Qed.

Lemma key_range_None db col : get_cf_key_range db col = None → db_columns db col = ∅.
Proof.
  unfold get_cf_key_range. pose proof (elem_of_column_entries (db_columns db col)) as Hentry.
  destruct (column_entries (db_columns db col)) as [|[k0 v0] es].
  - intros _. apply map_empty. intros k. destruct (db_columns db col !! k) as [v|] eqn:Hk; [|done].
    specialize (Hentry (k, v)). set_solver.
  - destruct (last ((k0, v0) :: es)) eqn:El; [done|]. by apply last_None in El.
Qed.

Lemma key_range_Some db col start end_ :
  get_cf_key_range db col = Some (start, end_) →
  ∀ k v, db_columns db col !! k = Some v → bytes_le start k && bytes_lt k end_ = true ∨ k = end_.
Proof.
  unfold get_cf_key_range. pose proof (elem_of_column_entries (db_columns db col)) as Hentry.
  pose proof (column_entries_sorted (db_columns db col)) as Hsorted.
  destruct (column_entries (db_columns db col)) as [|[k0 v0] es]; [done|].
  destruct (last ((k0, v0) :: es)) as [[kl vl]|] eqn:Hlast; [|done]. intros [= <- <-] k v Hk.
  apply (Hentry (k, v)) in Hk. clear Hentry.
  assert (Hlow : bytes_le k0 k = true).
  { apply StronglySorted_inv in Hsorted as [_ Hall]. apply elem_of_cons in Hk as [[= -> ->]|Hin].
    - apply bytes_le_refl.
    - rewrite Forall_forall in Hall. by apply (Hall (k, v)). }
  rewrite Hlow. simpl. destruct (proj1 (last_Some _ _) Hlast) as [l' El]. rewrite El in Hk, Hsorted.
  apply elem_of_app in Hk as [Hin|Hin]; [|apply list_elem_of_singleton in Hin; naive_solver].
  eapply (StronglySorted_app_1_elem_of key_le l' [(kl, vl)] (k, v) (kl, vl)) in Hsorted;
    [|done|set_solver]. apply bytes_le_iff in Hsorted as [?|?]; auto.
Qed.

Lemma apply_delete_all db db1 col :
  db_columns db1 col = db_columns db col →
  let db' := foldl apply_batch_op db1 (delete_all_ops db col) in
  db_cipher db' = db_cipher db1 ∧ db_columns db' col = ∅ ∧
  ∀ col', col' ≠ col → db_columns db' col' = db_columns db1 col'.
Proof.
  intros Hcol. unfold delete_all_ops. destruct (get_cf_key_range db col) as [[start end_]|] eqn:Hr.
  2: { simpl. split; [done|]. split; [|done]. rewrite Hcol. by apply key_range_None. }
  cbn [foldl apply_batch_op]. split; [done|]. split.
  - rewrite !set_column_same, Hcol. apply map_empty. intros k.
    destruct (decide (k = end_)) as [->|Hne]; [apply lookup_delete_eq|].
    rewrite lookup_delete_ne by done. apply map_lookup_filter_None. right. intros v Hv. simpl.
    destruct (key_range_Some db col start end_ Hr k v Hv) as [Hk|Hk]; [|done]. by rewrite Hk.
  - intros col' Hne. by rewrite !set_column_ne.
Qed.
End Db.
