(* ===== verification/Assets.v ===== *)
(** * Node: storage of triples and presignatures

    [node/src/assets.rs]: the cold queue with its two barriers, the double queue
    of fresh and set-aside assets, and the storage that keeps assets in the
    database and the owned ones in memory.  Clock and participants alive are read
    where the code reads them, as arguments [now] and [fetched].  The second half has
    the properties of the queues and of the storage. *)

From S2P Require Import Prelude Types NodePrimitives Db.

(** [serde_json] on an asset type. *)
Class Serde (T : Type) : Type := {
  serde_to_vec : T → option bytes;
  serde_from_slice : bytes → option T;
}.

Class SerdeLaws (T : Type) `{!Serde T} : Prop := {
  serde_from_to v b : serde_to_vec v = Some b → serde_from_slice b = Some v;
}.

Definition pop_front {A} (l : list A) : option (A * list A) :=
  match l with [] => None | x :: l => Some (x, l) end.

Definition pop_back {A} (l : list A) : option (A * list A) :=
  match last l with None => None | Some x => Some (x, removelast l) end.

(** ** The cold queue *)

Section ColdQueue.
Context {T CondVal : Type} `{!EqDecision CondVal} (condition : CondVal → T → bool).

Record ColdQueue : Type := mkColdQueue {
  cold_ready : Z;
  cold_available : Z;
  cold_queue : list (UniqueId * T);
  last_condition_value : CondVal;
  next_fetch_due : Z;
}.

Inductive ColdQueueTakeResult : Type :=
  | Taken (item : UniqueId * T)
  | NotTakenButSomeMayBeAvailable
  | NotTakenAndNoneAvailable.

Inductive ColdQueueDiscardResult : Type :=
  | Discarded (item : UniqueId * T)
  | NotDiscardedButSomeMayBeAvailable
  | NotDiscardedAndNoneAvailable.

Inductive ColdQueueAddIfSatisfiedResult : Type :=
  | ConditionNotSatisfied (value : T)
  | EnqueuedSatisfied.

Inductive ColdQueueAddIfNotSatisfiedResult : Type :=
  | ConditionSatisfied (value : T)
  | EnqueuedNotSatisfied.

(** [CondVal::default()] is an argument. *)
Definition ColdQueue_new (default : CondVal) (now : Z) : ColdQueue := mkColdQueue 0 0 [] default now.

(** One second, in nanoseconds. *)
Definition CONDITION_REFRESH_INTERVAL : Z := 1000000000.

Definition ColdQueue_update_condition_value (q : ColdQueue) (now : Z) (fetched : CondVal) :
    ColdQueue :=
  let next_fetch_due := now + CONDITION_REFRESH_INTERVAL in
  if decide (fetched = last_condition_value q) then
    mkColdQueue (cold_ready q) (cold_available q) (cold_queue q) (last_condition_value q)
      next_fetch_due
  else mkColdQueue 0 (zlen (cold_queue q)) (cold_queue q) fetched next_fetch_due.

Definition ColdQueue_update_condition_value_if_due (q : ColdQueue) (now : Z) (fetched : CondVal) :
    ColdQueue :=
  if now <? next_fetch_due q then q else ColdQueue_update_condition_value q now fetched.

Definition set_queue (q : ColdQueue) (ready available : Z) (l : list (UniqueId * T)) : ColdQueue :=
  mkColdQueue ready available l (last_condition_value q) (next_fetch_due q).

Definition ColdQueue_take (q : ColdQueue) (now : Z) (fetched : CondVal) :
    result string (ColdQueue * ColdQueueTakeResult) :=
  let q := ColdQueue_update_condition_value_if_due q now fetched in
  if cold_available q =? 0 then Ok (q, NotTakenAndNoneAvailable)
  else
    '((id, value), queue) ← unwrap (pop_front (cold_queue q));
    let available := cold_available q - 1 in
    if 0 <? cold_ready q then
      Ok (set_queue q (cold_ready q - 1) available queue, Taken (id, value))
    else if condition (last_condition_value q) value then
      Ok (set_queue q (cold_ready q) available queue, Taken (id, value))
    else
      Ok (set_queue q (cold_ready q) available (queue ++ [(id, value)]),
          NotTakenButSomeMayBeAvailable).

Definition ColdQueue_discard (q : ColdQueue) (now : Z) (fetched : CondVal) :
    result string (ColdQueue * ColdQueueDiscardResult) :=
  let q := ColdQueue_update_condition_value_if_due q now fetched in
  if cold_ready q =? zlen (cold_queue q) then Ok (q, NotDiscardedAndNoneAvailable)
  else
    '((id, value), queue) ← unwrap (pop_back (cold_queue q));
    let '(available, condition_satisfied) :=
      if zlen queue <? cold_available q then
        (cold_available q - 1, condition (last_condition_value q) value)
      else (cold_available q, false) in
    if negb condition_satisfied then
      Ok (set_queue q (cold_ready q) available queue, Discarded (id, value))
    else
      Ok (set_queue q (cold_ready q + 1) (available + 1) ((id, value) :: queue),
          NotDiscardedButSomeMayBeAvailable).

Definition ColdQueue_add_if_condition_satisfied (q : ColdQueue) (now : Z) (fetched : CondVal)
    (id : UniqueId) (value : T) : ColdQueue * ColdQueueAddIfSatisfiedResult :=
  let q := ColdQueue_update_condition_value_if_due q now fetched in
  if condition (last_condition_value q) value then
    (set_queue q (cold_ready q + 1) (cold_available q + 1) ((id, value) :: cold_queue q),
     EnqueuedSatisfied)
  else (q, ConditionNotSatisfied value).

Definition ColdQueue_add_if_condition_not_satisfied (q : ColdQueue) (now : Z) (fetched : CondVal)
    (id : UniqueId) (value : T) : ColdQueue * ColdQueueAddIfNotSatisfiedResult :=
  let q := ColdQueue_update_condition_value_if_due q now fetched in
  if condition (last_condition_value q) value then (q, ConditionSatisfied value)
  else (set_queue q (cold_ready q) (cold_available q) (cold_queue q ++ [(id, value)]),
        EnqueuedNotSatisfied).

(** ** The double queue *)

(** The hot queue is the unbounded channel of fresh assets. *)
Record DoubleQueue : Type := mkDoubleQueue {
  dq_hot : list (UniqueId * T);
  dq_cold : ColdQueue;
}.

Definition DoubleQueue_new (default : CondVal) (now : Z) : DoubleQueue :=
  mkDoubleQueue [] (ColdQueue_new default now).

Definition DoubleQueue_add_owned (q : DoubleQueue) (id : UniqueId) (value : T) : DoubleQueue :=
  mkDoubleQueue (dq_hot q ++ [(id, value)]) (dq_cold q).

(** What one iteration of a loop reads: the clock, the participants alive, and
    whether the channel is ready before the timer. *)
Record Poll : Type := mkPoll { poll_now : Z; poll_fetched : CondVal; poll_received : bool }.

(** One iteration of the loop of [take_owned]: an asset, or go on. *)
Definition take_owned_iter (q : DoubleQueue) (p : Poll) :
    result string (DoubleQueue * option (UniqueId * T)) :=
  '(cold, taken) ← ColdQueue_take (dq_cold q) (poll_now p) (poll_fetched p);
  match taken with
  | Taken item => Ok (mkDoubleQueue (dq_hot q) cold, Some item)
  | NotTakenButSomeMayBeAvailable => Ok (mkDoubleQueue (dq_hot q) cold, None)
  | NotTakenAndNoneAvailable =>
    match dq_hot q with
    | (id, value) :: hot =>
      if poll_received p then
        let '(cold, added) := ColdQueue_add_if_condition_not_satisfied cold (poll_now p)
          (poll_fetched p) id value in
        match added with
        | ConditionSatisfied value => Ok (mkDoubleQueue hot cold, Some (id, value))
        | EnqueuedNotSatisfied => Ok (mkDoubleQueue hot cold, None)
        end
      else Ok (mkDoubleQueue (dq_hot q) cold, None)
    | [] => Ok (mkDoubleQueue [] cold, None)
    end
  end.

(** The loop, for as long as [polls] lasts; [None] while it waits. *)
Fixpoint take_owned_loop (q : DoubleQueue) (polls : list Poll) :
    result string (DoubleQueue * option (UniqueId * T)) :=
  match polls with
  | [] => Ok (q, None)
  | p :: polls =>
    '(q, item) ← take_owned_iter q p;
    match item with
    | Some item => Ok (q, Some item)
    | None => take_owned_loop q polls
    end
  end.

Definition DoubleQueue_take_owned (q : DoubleQueue) (now : Z) (fetched : CondVal)
    (polls : list Poll) : result string (DoubleQueue * option (UniqueId * T)) :=
  take_owned_loop
    (mkDoubleQueue (dq_hot q) (ColdQueue_update_condition_value (dq_cold q) now fetched)) polls.

(** The two loops of [maybe_discard_owned], on the number of elements left; the
    iteration with [n] elements left reads clock and participants as [read n]. *)
Fixpoint discard_cold (cold : ColdQueue) (n : nat) (read : nat → Z * CondVal) :
    result string (ColdQueue * list UniqueId * nat) :=
  match n with
  | O => Ok (cold, [], O)
  | S n' =>
    '(cold, discarded) ← ColdQueue_discard cold (read n).1 (read n).2;
    match discarded with
    | Discarded (id, _) =>
      '(cold, removed, n) ← discard_cold cold n' read;
      Ok (cold, id :: removed, n)
    | NotDiscardedButSomeMayBeAvailable => discard_cold cold n' read
    | NotDiscardedAndNoneAvailable => Ok (cold, [], n)
    end
  end.

Fixpoint discard_hot (q : DoubleQueue) (n : nat) (read : nat → Z * CondVal) : DoubleQueue :=
  match n with
  | O => q
  | S n' =>
    match dq_hot q with
    | (id, value) :: hot =>
      let '(cold, _) :=
        ColdQueue_add_if_condition_satisfied (dq_cold q) (read n).1 (read n).2 id value in
      discard_hot (mkDoubleQueue hot cold) n' read
    | [] => q
    end
  end.

Definition DoubleQueue_maybe_discard_owned (q : DoubleQueue) (num_elements_to_process : nat)
    (now : Z) (fetched : CondVal) (read : nat → Z * CondVal) :
    result string (DoubleQueue * list UniqueId) :=
  let cold := ColdQueue_update_condition_value (dq_cold q) now fetched in
  '(cold, removed_from_cold_queue, n) ← discard_cold cold num_elements_to_process read;
  Ok (discard_hot (mkDoubleQueue (dq_hot q) cold) n read, removed_from_cold_queue).

Definition DoubleQueue_available (q : DoubleQueue) : Z :=
  zlen (dq_hot q) + cold_available (dq_cold q).

Definition DoubleQueue_ready (q : DoubleQueue) : Z := cold_ready (dq_cold q).

Definition DoubleQueue_offline (q : DoubleQueue) : Z :=
  zlen (cold_queue (dq_cold q)) - cold_available (dq_cold q).
End ColdQueue.

Arguments ColdQueue : clear implicits.
Arguments DoubleQueue : clear implicits.
Arguments Poll : clear implicits.

(** ** The storage *)

Section Storage.
Context {T : Type} `{!AesGcm, !Serde T}.
Context (condition : list ParticipantId → T → bool).

(** The database is shared with other storages and passed separately. *)
Record DistributedAssetStorage : Type := mkDistributedAssetStorage {
  das_col : DBCol;
  das_domain_id : option Z;
  das_my_participant_id : ParticipantId;
  das_owned_queue : DoubleQueue T (list ParticipantId);
  das_last_id : option UniqueId;
}.

Definition domain_prefix (domain_id : option Z) : bytes :=
  match domain_id with Some d => be_bytes 8 d | None => [] end.

Definition make_prefix_range (participant_id : ParticipantId) (domain_id : option Z) :
    result string (bytes * bytes) :=
  next ← unwrap (u32_checked_add participant_id 1);
  Ok (domain_prefix domain_id ++ UniqueId_prefix_for_participant_id participant_id,
      domain_prefix domain_id ++ UniqueId_prefix_for_participant_id next).

Definition make_key (domain_id : option Z) (id : UniqueId) : bytes :=
  domain_prefix domain_id ++ UniqueId_serialize id.

(** [&key[8..]] panics on a shorter key. *)
Definition decode_key (key : bytes) (domain_id : option Z) : result string UniqueId :=
  match domain_id with
  | Some _ =>
    if (length key <? 8)%nat then Panic PanicIndex else UniqueId_deserialize (drop 8 key)
  | None => UniqueId_deserialize key
  end.

(** The loop of [new] over the entries of the database. *)
Fixpoint load_owned (items : list (result string (bytes * bytes))) (domain_id : option Z)
    (q : DoubleQueue T (list ParticipantId)) (last_id : option UniqueId) :
    result string (DoubleQueue T (list ParticipantId) * option UniqueId) :=
  match items with
  | [] => Ok (q, last_id)
  | item :: items =>
    '(key, value) ← item;
    id ← decode_key key domain_id;
    value ← ok_or (serde_from_slice value) "serde_json";
    load_owned items domain_id (DoubleQueue_add_owned q id value) (Some id)
  end.

Definition DistributedAssetStorage_new (now : Z) (db : SecretDB) (col : DBCol)
    (domain_id : option Z) (my_participant_id : ParticipantId) :
    result string DistributedAssetStorage :=
  '(start, end_) ← make_prefix_range my_participant_id domain_id;
  '(owned_queue, last_id) ← load_owned (SecretDB_iter_range db col start end_) domain_id
    (DoubleQueue_new [] now) None;
  Ok (mkDistributedAssetStorage col domain_id my_participant_id owned_queue last_id).

Definition set_owned_queue (s : DistributedAssetStorage) q : DistributedAssetStorage :=
  mkDistributedAssetStorage (das_col s) (das_domain_id s) (das_my_participant_id s) q (das_last_id s).

(** [now] is the wall clock in seconds. *)
Definition generate_and_reserve_id_range (s : DistributedAssetStorage) (count now : Z) :
    result string (DistributedAssetStorage * UniqueId) :=
  if negb (0 <? count) then Panic (PanicAssert "count > 0")
  else
    start ← match das_last_id s with
            | Some last_id => UniqueId_pick_new_after last_id now
            | None => Ok (UniqueId_generate (das_my_participant_id s) now)
            end;
    end_ ← match UniqueId_add_to_counter start (count - 1) with
           | Err _ => Panic PanicUnwrap
           | r => r
           end;
    Ok (mkDistributedAssetStorage (das_col s) (das_domain_id s) (das_my_participant_id s)
          (das_owned_queue s) (Some end_), start).

Definition generate_and_reserve_id (s : DistributedAssetStorage) (now : Z) :
    result string (DistributedAssetStorage * UniqueId) :=
  generate_and_reserve_id_range s 1 now.

(** Removing an owned asset from the database. *)
Definition delete_asset (db : SecretDB) (s : DistributedAssetStorage) (id : UniqueId) : SecretDB :=
  SecretDBUpdate_commit db
    (SecretDBUpdate_delete SecretDB_update (das_col s) (make_key (das_domain_id s) id)).

Definition DistributedAssetStorage_take_owned (db : SecretDB) (s : DistributedAssetStorage)
    (now : Z) (fetched : list ParticipantId) (polls : list (Poll (list ParticipantId))) :
    result string (SecretDB * DistributedAssetStorage * option (UniqueId * T)) :=
  '(q, item) ← DoubleQueue_take_owned condition (das_owned_queue s) now fetched polls;
  let s := set_owned_queue s q in
  match item with
  | Some (id, asset) => Ok (delete_asset db s id, s, Some (id, asset))
  | None => Ok (db, s, None)
  end.

(** Writing an asset to the database. *)
Definition put_asset (db : SecretDB) (s : DistributedAssetStorage) (id : UniqueId) (value : T)
    (nonce : bytes) : result string SecretDB :=
  value_ser ← unwrap (serde_to_vec value);
  update ← SecretDBUpdate_put db SecretDB_update (das_col s) (make_key (das_domain_id s) id)
    value_ser nonce;
  Ok (SecretDBUpdate_commit db update).

Definition DistributedAssetStorage_add_owned (db : SecretDB) (s : DistributedAssetStorage)
    (id : UniqueId) (value : T) (nonce : bytes) : result string (SecretDB * DistributedAssetStorage) :=
  db ← put_asset db s id value nonce;
  Ok (db, set_owned_queue s (DoubleQueue_add_owned (das_owned_queue s) id value)).

(** The batch that deletes what [maybe_discard_owned] removed. *)
Definition delete_assets (db : SecretDB) (s : DistributedAssetStorage) (ids : list UniqueId) :
    SecretDB :=
  SecretDBUpdate_commit db
    (foldl (λ u id, SecretDBUpdate_delete u (das_col s) (make_key (das_domain_id s) id))
       SecretDB_update ids).

Definition DistributedAssetStorage_maybe_discard_owned (db : SecretDB)
    (s : DistributedAssetStorage) (num_assets_to_process : nat) (now : Z)
    (fetched : list ParticipantId) (read : nat → Z * list ParticipantId) :
    result string (SecretDB * DistributedAssetStorage) :=
  '(q, removed_cold_ids) ← DoubleQueue_maybe_discard_owned condition (das_owned_queue s)
    num_assets_to_process now fetched read;
  let s := set_owned_queue s q in
  match removed_cold_ids with
  | [] => Ok (db, s)
  | _ => Ok (delete_assets db s removed_cold_ids, s)
  end.

Definition DistributedAssetStorage_add_unowned (db : SecretDB) (s : DistributedAssetStorage)
    (id : UniqueId) (value : T) (nonce : bytes) : result string SecretDB :=
  put_asset db s id value nonce.

(** The read of [take_unowned]; the deletion is [delete_asset]. *)
Definition get_unowned (db : SecretDB) (s : DistributedAssetStorage) (id : UniqueId) :
    result string bytes :=
  value_ser ← SecretDB_get db (das_col s) (make_key (das_domain_id s) id);
  ok_or value_ser "Unowned asset not found in the database".

Definition DistributedAssetStorage_take_unowned (db : SecretDB) (s : DistributedAssetStorage)
    (id : UniqueId) : SecretDB * result string T :=
  match get_unowned db s id with
  | Ok value_ser =>
    (delete_asset db s id, ok_or (serde_from_slice value_ser) "serde_json")
  | Err e => (db, Err e)
  | Panic p => (db, Panic p)
  end.

Definition num_owned (s : DistributedAssetStorage) : Z := DoubleQueue_available (das_owned_queue s).
Definition num_owned_ready (s : DistributedAssetStorage) : Z := DoubleQueue_ready (das_owned_queue s).
Definition num_owned_offline (s : DistributedAssetStorage) : Z :=
  DoubleQueue_offline (das_owned_queue s).

(** ** Cleaning *)

(** [clean_db], with [is_subset_of_active_participants] as an argument. *)
Fixpoint clean_entries (is_subset : T → bool) (items : list (result string (bytes * bytes)))
    (col : DBCol) (u : SecretDBUpdate) : result string SecretDBUpdate :=
  match items with
  | [] => Ok u
  | item :: items =>
    '(key, value) ← item;
    value ← ok_or (serde_from_slice value) "serde_json";
    clean_entries is_subset items col
      (if negb (is_subset value) then SecretDBUpdate_delete u col key else u)
  end.

Definition clean_db (is_subset_of_active_participants : list ParticipantId → T → bool)
    (db : SecretDB) (db_col : DBCol) (persistent_participants : list ParticipantId)
    (my_participant_id : ParticipantId) (domain_id : option Z) : result string SecretDB :=
  '(start, end_) ← make_prefix_range my_participant_id domain_id;
  update_writer ← clean_entries (is_subset_of_active_participants persistent_participants)
    (SecretDB_iter_range db db_col start end_) db_col SecretDB_update;
  Ok (SecretDBUpdate_commit db update_writer).
End Storage.

Arguments DistributedAssetStorage : clear implicits.

(** ** Node: properties of the asset queues and of the asset storage *)

Lemma snoc_cases {A} (l : list A) : l = [] ∨ ∃ l' x, l = l' ++ [x].
Proof. destruct l as [|x l _] using rev_ind; eauto. Qed.

Section Cold.
Context {T CondVal : Type} `{!EqDecision CondVal} (condition : CondVal → T → bool).
Implicit Types (q : ColdQueue T CondVal) (l : list (UniqueId * T)).

Definition satisfies (c : CondVal) (item : UniqueId * T) : Prop := condition c item.2 = true.
Definition violates (c : CondVal) (item : UniqueId * T) : Prop := condition c item.2 = false.

(** The three sections of the cold queue. *)
Definition sections q (ready unknown rest : list (UniqueId * T)) : Prop :=
  cold_queue q = ready ++ unknown ++ rest ∧
  cold_ready q = zlen ready ∧ cold_available q = zlen ready + zlen unknown ∧
  Forall (satisfies (last_condition_value q)) ready ∧
  Forall (violates (last_condition_value q)) rest.

Definition ColdQueue_ok q : Prop := ∃ ready unknown rest, sections q ready unknown rest.

Lemma ColdQueue_new_ok default now : ColdQueue_ok (ColdQueue_new default now).
Proof. exists [], [], []. repeat split; constructor. Qed.

Lemma update_condition_value_ok q now fetched :
  ColdQueue_ok q → ColdQueue_ok (ColdQueue_update_condition_value q now fetched).
Proof.
  intros (R & U & V & Hq & Hr & Ha & HR & HV). unfold ColdQueue_update_condition_value.
  case_decide; [exists R, U, V; done|]. exists [], (cold_queue q), [].
  split; simpl; [by rewrite app_nil_r|]. repeat split; constructor.
Qed.

Abbreviation refresh q now fetched := (ColdQueue_update_condition_value_if_due q now fetched).

Lemma refresh_ok q now fetched : ColdQueue_ok q → ColdQueue_ok (refresh q now fetched).
Proof.
  unfold ColdQueue_update_condition_value_if_due. case_match; auto using update_condition_value_ok.
Qed.

Lemma refresh_queue q now fetched : cold_queue (refresh q now fetched) = cold_queue q.
Proof.
  unfold ColdQueue_update_condition_value_if_due, ColdQueue_update_condition_value.
  by repeat case_match.
Qed.

(** What each operation does to a well-formed queue; the items are moved, never
    copied or lost, and what is taken satisfies the condition. *)
Lemma take_spec q now fetched :
  ColdQueue_ok q →
  ∃ q' r, ColdQueue_take condition q now fetched = Ok (q', r) ∧ ColdQueue_ok q' ∧
  last_condition_value q' = last_condition_value (refresh q now fetched) ∧
  next_fetch_due q' = next_fetch_due (refresh q now fetched) ∧
  match r with
  | Taken item => cold_queue q ≡ₚ item :: cold_queue q' ∧ satisfies (last_condition_value q') item
  | NotTakenButSomeMayBeAvailable =>
    cold_queue q' ≡ₚ cold_queue q ∧ cold_ready q' = 0 ∧
    cold_available q' = cold_available (refresh q now fetched) - 1
  | NotTakenAndNoneAvailable =>
    q' = refresh q now fetched ∧ cold_available q' = 0 ∧
    Forall (violates (last_condition_value q')) (cold_queue q')
  end.
Proof.
  intros Hok. apply (refresh_ok q now fetched) in Hok. rewrite <-(refresh_queue q now fetched).
  unfold ColdQueue_take. set (qr := refresh q now fetched) in *.
  destruct Hok as (R & U & V & Hq & Hr & Ha & HR & HV).
  pose proof (zlen_nonneg R). pose proof (zlen_nonneg U).
  destruct (Z.eqb_spec (cold_available qr) 0) as [Hav|Hav].
  - eexists _, _. split; [done|]. destruct R as [|x R]; [|unfold zlen in *; simpl in *; lia].
    destruct U as [|x U]; [|unfold zlen in *; simpl in *; lia]. simpl in Hq.
    split; [exists [], [], V; done|]. repeat split; try done. by rewrite Hq.
  - destruct R as [|[id v] R].
    + destruct U as [|[id v] U]; [done|]. simpl in Hq. rewrite Hq. simpl. rewrite Hr. simpl.
      rewrite zlen_nil, zlen_cons in *.
      destruct (condition (last_condition_value qr) v) eqn:Hc; (eexists _, _; split; [done|]).
      * split; [exists [], U, V; repeat split; simpl; auto; rewrite ?zlen_nil; lia|]. done.
      * split.
        { exists [], U, (V ++ [(id, v)]). repeat split; simpl; rewrite ?app_assoc, ?zlen_nil; auto; try lia.
          apply Forall_app. split; [done|]. by constructor. }
        repeat split; simpl; try done. by rewrite <-Permutation_cons_append.
    + simpl in Hq. rewrite Hq. simpl. rewrite Hr, zlen_cons in *.
      pose proof (zlen_nonneg R). destruct (Z.ltb_spec 0 (1 + zlen R)); [|lia]. eexists _, _. split; [done|].
      apply Forall_cons in HR as [Hv HR].
      split; [exists R, U, V; repeat split; simpl; auto; lia|]. done.
Qed.

Lemma pop_back_app {A} (l : list A) x : pop_back (l ++ [x]) = Some (x, l).
Proof. unfold pop_back. by rewrite last_snoc, removelast_last. Qed.

Lemma discard_spec q now fetched :
  ColdQueue_ok q →
  ∃ q' r, ColdQueue_discard condition q now fetched = Ok (q', r) ∧ ColdQueue_ok q' ∧
  last_condition_value q' = last_condition_value (refresh q now fetched) ∧
  match r with
  | Discarded item => cold_queue q ≡ₚ item :: cold_queue q' ∧ violates (last_condition_value q') item
  | NotDiscardedButSomeMayBeAvailable =>
    cold_queue q' ≡ₚ cold_queue q ∧ cold_ready q' = cold_ready (refresh q now fetched) + 1
  | NotDiscardedAndNoneAvailable =>
    q' = refresh q now fetched ∧ Forall (satisfies (last_condition_value q')) (cold_queue q')
  end.
Proof.
  intros Hok. apply (refresh_ok q now fetched) in Hok. rewrite <-(refresh_queue q now fetched).
  unfold ColdQueue_discard. set (qr := refresh q now fetched) in *.
  destruct Hok as (R & U & V & Hq & Hr & Ha & HR & HV).
  pose proof (zlen_nonneg U). pose proof (zlen_nonneg V).
  destruct (Z.eqb_spec (cold_ready qr) (zlen (cold_queue qr))) as [Hend|Hend]; rewrite Hq, !zlen_app in Hend.
  - eexists _, _. split; [done|]. destruct U as [|x U]; [|unfold zlen in *; simpl in *; lia].
    destruct V as [|x V]; [|unfold zlen in *; simpl in *; lia]. simpl in Hq. rewrite app_nil_r in Hq.
    split; [exists R, [], []; repeat split; simpl; rewrite ?app_nil_r; auto|].
    repeat split; try done. by rewrite Hq.
  - destruct (snoc_cases V) as [->|(V' & [id v] & ->)].
    + rewrite app_nil_r in Hq. destruct (snoc_cases U) as [->|(U' & [id v] & ->)].
      { rewrite !zlen_nil in *. lia. }
      rewrite app_assoc in Hq. rewrite Hq, pop_back_app. simpl. rewrite Ha, !zlen_app, zlen_cons, zlen_nil.
      destruct (Z.ltb_spec (zlen R + zlen U') (zlen R + (zlen U' + (1 + 0)))); [|lia].
      destruct (condition (last_condition_value qr) v) eqn:Hc; simpl; (eexists _, _; split; [done|]).
      * split.
        { exists ((id, v) :: R), U', []. repeat split; simpl; rewrite ?app_nil_r, ?zlen_cons; auto; try lia. }
        repeat split; try done. simpl. by rewrite Permutation_cons_append.
      * split.
        { exists R, U', []. repeat split; simpl; rewrite ?app_nil_r; auto; lia. }
        repeat split; try done. symmetry. apply Permutation_cons_append.
    + rewrite !app_assoc, <-app_assoc in Hq. rewrite app_assoc in Hq. rewrite Hq, pop_back_app. simpl.
      rewrite Ha, !zlen_app. apply Forall_app in HV as [HV Hv]. apply Forall_cons in Hv as [Hv _].
      destruct (Z.ltb_spec (zlen R + zlen U + zlen V') (zlen R + zlen U)) as [Hlt|_].
      { pose proof (zlen_nonneg V'). lia. }
      simpl. eexists _, _. split; [done|]. split.
      { exists R, U, V'. repeat split; simpl; rewrite <-?app_assoc; auto. }
      repeat split; try done. symmetry. apply Permutation_cons_append.
Qed.

Lemma add_satisfied_spec q now fetched id v q' r :
  ColdQueue_ok q → ColdQueue_add_if_condition_satisfied condition q now fetched id v = (q', r) →
  ColdQueue_ok q' ∧ last_condition_value q' = last_condition_value (refresh q now fetched) ∧
  match r with
  | EnqueuedSatisfied => cold_queue q' = (id, v) :: cold_queue q
  | ConditionNotSatisfied _ => q' = refresh q now fetched ∧ violates (last_condition_value q') (id, v)
  end.
Proof.
  intros Hok%(refresh_ok q now fetched). unfold ColdQueue_add_if_condition_satisfied.
  destruct (condition _ v) eqn:Hc; intros [= <- <-]; [|done]. simpl. rewrite refresh_queue.
  destruct Hok as (R & U & V & Hq & Hr & Ha & HR & HV). rewrite refresh_queue in Hq.
  split; [|done]. exists ((id, v) :: R), U, V.
  repeat split; simpl; rewrite ?zlen_cons; auto; [by rewrite Hq|lia|lia].
Qed.

Lemma add_not_satisfied_spec q now fetched id v q' r :
  ColdQueue_ok q → ColdQueue_add_if_condition_not_satisfied condition q now fetched id v = (q', r) →
  ColdQueue_ok q' ∧ last_condition_value q' = last_condition_value (refresh q now fetched) ∧
  match r with
  | EnqueuedNotSatisfied =>
    cold_queue q' = cold_queue q ++ [(id, v)] ∧ cold_available q' = cold_available (refresh q now fetched) ∧
    violates (last_condition_value q') (id, v)
  | ConditionSatisfied v' =>
    q' = refresh q now fetched ∧ v' = v ∧ satisfies (last_condition_value q') (id, v)
  end.
Proof.
  intros Hok%(refresh_ok q now fetched). unfold ColdQueue_add_if_condition_not_satisfied.
  destruct (condition _ v) eqn:Hc; intros [= <- <-]; [done|]. simpl. rewrite refresh_queue.
  destruct Hok as (R & U & V & Hq & Hr & Ha & HR & HV). rewrite refresh_queue in Hq.
  split; [|done]. exists R, U, (V ++ [(id, v)]).
  repeat split; simpl; auto; [by rewrite Hq, <-!app_assoc|]. apply Forall_app. split; [done|by constructor].
Qed.

Lemma refresh_steady q now c :
  last_condition_value q = c →
  last_condition_value (refresh q now c) = c ∧ cold_available (refresh q now c) = cold_available q.
Proof.
  intros <-. unfold ColdQueue_update_condition_value_if_due, ColdQueue_update_condition_value.
  rewrite decide_True by done. by case_match.
Qed.

Lemma available_bounds q : ColdQueue_ok q → 0 ≤ cold_available q ≤ zlen (cold_queue q).
Proof.
  intros (R & U & V & Hq & Hr & Ha & _). rewrite Hq, Ha, !zlen_app.
  pose proof (zlen_nonneg R). pose proof (zlen_nonneg U). pose proof (zlen_nonneg V). lia.
Qed.

(** ** The double queue *)

Definition items (q : DoubleQueue T CondVal) : list (UniqueId * T) := dq_hot q ++ cold_queue (dq_cold q).
Definition DoubleQueue_ok (q : DoubleQueue T CondVal) : Prop := ColdQueue_ok (dq_cold q).
Definition dq_condition (q : DoubleQueue T CondVal) : CondVal := last_condition_value (dq_cold q).

Lemma take_owned_iter_spec (q : DoubleQueue T CondVal) p :
  DoubleQueue_ok q →
  ∃ (q' : DoubleQueue T CondVal) o, take_owned_iter condition q p = Ok (q', o) ∧ DoubleQueue_ok q' ∧
  match o with
  | Some item => items q ≡ₚ item :: items q' ∧ satisfies (dq_condition q') item
  | None => items q ≡ₚ items q'
  end.
Proof.
  intros Hok. unfold take_owned_iter, items, DoubleQueue_ok, dq_condition.
  destruct (take_spec (dq_cold q) (poll_now p) (poll_fetched p) Hok)
    as (cold & r & -> & Hcold & Hlast & _ & Hr). simpl.
  destruct r as [item| |].
  - destruct Hr as [Hperm Hsat]. eexists _, _. split; [done|]. simpl. split; [done|].
    split; [|done]. rewrite Hperm. by rewrite <-Permutation_middle.
  - destruct Hr as [Hperm _]. eexists _, _. split; [done|]. simpl. by rewrite Hperm.
  - destruct Hr as (-> & _ & Hnone). destruct (dq_hot q) as [|[id v] hot] eqn:Hhot.
    { eexists _, _. split; [done|]. simpl. split; [done|]. by rewrite refresh_queue. }
    destruct (poll_received p).
    2: { eexists _, _. split; [done|]. simpl. split; [done|]. by rewrite refresh_queue. }
    destruct (ColdQueue_add_if_condition_not_satisfied _ _ _ _ _ _) as [cold a] eqn:Hadd.
    apply add_not_satisfied_spec in Hadd as (Hok' & Hl & Ha); [|done].
    destruct a; (eexists _, _; split; [done|]); simpl; (split; [done|]).
    + destruct Ha as (-> & -> & Hs). split; [|done]. by rewrite !refresh_queue.
    + destruct Ha as (-> & _). rewrite refresh_queue, app_assoc, <-Permutation_cons_append. done.
Qed.

Lemma take_owned_loop_spec (q : DoubleQueue T CondVal) polls :
  DoubleQueue_ok q →
  ∃ (q' : DoubleQueue T CondVal) o, take_owned_loop condition q polls = Ok (q', o) ∧ DoubleQueue_ok q' ∧
  match o with
  | Some item => items q ≡ₚ item :: items q' ∧ satisfies (dq_condition q') item
  | None => items q ≡ₚ items q'
  end.
Proof.
  revert q. induction polls as [|p polls IH]; intros q Hok; [by eexists _, _|]. simpl.
  destruct (take_owned_iter_spec q p Hok) as (q1 & o & -> & Hok1 & Ho). simpl.
  destruct o as [item|]; [by eexists _, _|].
  destruct (IH q1 Hok1) as (q2 & o & -> & Hok2 & Ho2). eexists _, _. split; [done|].
  split; [done|]. destruct o; by rewrite Ho.
Qed.

(** ** [take_owned] ends *)

(** The assets that may still be looked at. *)
Definition unchecked (q : DoubleQueue T CondVal) : Z := zlen (dq_hot q) + cold_available (dq_cold q).

(** The participants alive do not change, and the channel is served. *)
Definition steady (c : CondVal) (p : Poll CondVal) : Prop := poll_fetched p = c ∧ poll_received p = true.

Lemma unchecked_none (q : DoubleQueue T CondVal) :
  DoubleQueue_ok q → unchecked q ≤ 0 → Forall (violates (dq_condition q)) (items q).
Proof.
  intros (R & U & V & Hq & Hr & Ha & HR & HV). unfold unchecked, items. rewrite Ha, Hq.
  destruct (dq_hot q), R, U; unfold zlen; simpl; try lia. done.
Qed.

Lemma take_owned_iter_steady (q : DoubleQueue T CondVal) p (q' : DoubleQueue T CondVal) o :
  DoubleQueue_ok q → steady (dq_condition q) p → take_owned_iter condition q p = Ok (q', o) →
  dq_condition q' = dq_condition q ∧
  (o = None → 0 < unchecked q → unchecked q' = unchecked q - 1).
Proof.
  unfold DoubleQueue_ok, dq_condition, unchecked, take_owned_iter. intros Hok [Hf Hrec].
  destruct p as [now f rec]. simpl in Hf, Hrec. subst f rec. simpl.
  destruct (take_spec (dq_cold q) now (last_condition_value (dq_cold q)) Hok)
    as (cold & r & -> & Hcold & Hlast & _ & Hr). simpl.
  destruct (refresh_steady (dq_cold q) now _ eq_refl) as [Hl1 Ha1]. rewrite Hl1 in Hlast.
  destruct r as [item| |]; [by intros [= <- <-]| |].
  - destruct Hr as (_ & _ & Ha). intros [= <- <-]. simpl. rewrite Ha. split; [done|lia].
  - destruct Hr as (-> & Hav & _). destruct (dq_hot q) as [|[id v] hot] eqn:Hhot.
    { intros [= <- <-]. split; [done|]. unfold zlen. simpl. lia. }
    destruct (ColdQueue_add_if_condition_not_satisfied _ _ _ _ _ _) as [cold a] eqn:Hadd.
    apply add_not_satisfied_spec in Hadd as (Hok' & Hl & Ha); [|done].
    destruct (refresh_steady (refresh (dq_cold q) now (last_condition_value (dq_cold q)))
      now _ Hl1) as [Hl2 Ha2].
    destruct a; intros [= <- <-]; simpl; rewrite Hl, Hl2; (split; [done|]); [done|].
    destruct Ha as (_ & -> & _). rewrite zlen_cons. lia.
Qed.

Lemma take_owned_loop_returns (q : DoubleQueue T CondVal) polls :
  DoubleQueue_ok q → Forall (steady (dq_condition q)) polls → unchecked q ≤ zlen polls →
  Exists (satisfies (dq_condition q)) (items q) →
  ∃ (q' : DoubleQueue T CondVal) item, take_owned_loop condition q polls = Ok (q', Some item) ∧
    DoubleQueue_ok q' ∧ items q ≡ₚ item :: items q' ∧ satisfies (dq_condition q) item.
Proof.
  revert q. induction polls as [|p polls IH]; intros q Hok Hsteady Hlen Hex.
  - apply unchecked_none in Hlen; [|done]. exfalso. apply Exists_exists in Hex as (x & Hx & Hs).
    rewrite Forall_forall in Hlen. specialize (Hlen x Hx). unfold satisfies, violates in *. congruence.
  - apply Forall_cons in Hsteady as [Hp Hpolls]. rewrite zlen_cons in Hlen.
    destruct (Z.le_gt_cases (unchecked q) 0) as [H0|Hpos].
    { apply unchecked_none in H0; [|done]. exfalso. apply Exists_exists in Hex as (x & Hx & Hs).
      rewrite Forall_forall in H0. specialize (H0 x Hx). unfold satisfies, violates in *. congruence. }
    simpl. destruct (take_owned_iter_spec q p Hok) as (q1 & o & Hiter & Hok1 & Ho).
    rewrite Hiter. apply take_owned_iter_steady in Hiter as [Hc Hun]; [|done..].
    simpl. destruct o as [item|].
    + exists q1, item. rewrite Hc in Ho. naive_solver.
    + specialize (Hun eq_refl Hpos). destruct (IH q1) as (q2 & item & -> & Hok2 & Hperm & Hs); [done|by rewrite Hc|lia|by rewrite Hc, <-Ho|].
      exists q2, item. rewrite Hc in Hs. split; [done|]. split; [done|]. split; [by rewrite Ho|done].
Qed.
End Cold.
