(* ===== verification/AssetWorld.v ===== *)
(** * Node: the asset storage with concurrent tasks and restarts

    Tasks of the node share one storage.  Each access to the database, to the
    channel or to the locked cold queue is one step; between the steps of a task
    the others run, and the process may stop at any point and start again from
    the database.  The relation [step] has one rule per access, in terms of the
    operations of [Assets]; the lists of [World] are what the tasks hold between
    two of their accesses.  The second half shows that an owned asset is used at most
    once. *)

From S2P Require Import Prelude Types NodePrimitives Db Assets.

Section World.
Context {T : Type} `{!AesGcm, !Serde T}.
Context (condition : list ParticipantId → T → bool).
Context (me : ParticipantId) (col : DBCol) (domain_id : option Z).

Record World : Type := mkWorld {
  w_db : SecretDB;
  w_store : DistributedAssetStorage T;
  w_reserved : list UniqueId;
  (** ids reserved for an asset that is being generated *)
  w_adding : list (UniqueId * T);
  (** [add_owned]: in the database, not yet in the queue *)
  w_received : list (UniqueId * T);
  (** [take_owned]: received from the channel *)
  w_taken : list (UniqueId * T);
  (** [take_owned]: out of the queue, not yet deleted *)
  w_set_aside : list (UniqueId * T);
  (** [maybe_discard_owned]: received from the channel *)
  w_discarding : list UniqueId;
  (** [maybe_discard_owned]: out of the queue, not yet deleted *)
  w_used : list (UniqueId * T);
  (** what [take_owned] has returned so far *)
  w_clock : Z;
  (** the latest second read from the wall clock *)
  w_floor : Z;
  (** the wall clock does not go below this in the present run *)
}.

(** The ids reserved by one call. *)
Definition reserved_ids (start : UniqueId) (count : Z) : list UniqueId :=
  omap (λ i, match UniqueId_add_to_counter start i with Ok id => Some id | _ => None end)
    (seqZ 0 count).

Definition w_queue (w : World) : DoubleQueue T (list ParticipantId) := das_owned_queue (w_store w).

Definition with_queue (w : World) hot cold : DistributedAssetStorage T :=
  set_owned_queue (w_store w) (mkDoubleQueue hot cold).

(** Keys that the storage owns, and no other storage writes. *)
Definition own_range (key : bytes) : bool :=
  match make_prefix_range me domain_id with
  | Ok (start, end_) => bytes_le start key && bytes_lt key end_
  | _ => false
  end.

Inductive step (w : World) : World → Prop :=
  | step_reserve count now store' start :
    0 < count → is_u64 now → w_floor w ≤ now →
    generate_and_reserve_id_range (w_store w) count now = Ok (store', start) →
    step w (mkWorld (w_db w) store' (reserved_ids start count ++ w_reserved w) (w_adding w)
              (w_received w) (w_taken w) (w_set_aside w) (w_discarding w) (w_used w)
              (Z.max now (w_clock w)) (w_floor w))
  | step_add_put id v nonce rest db' :
    w_reserved w ≡ₚ id :: rest → length nonce = NONCE_LEN →
    put_asset (w_db w) (w_store w) id v nonce = Ok db' →
    step w (mkWorld db' (w_store w) rest ((id, v) :: w_adding w) (w_received w) (w_taken w)
              (w_set_aside w) (w_discarding w) (w_used w) (w_clock w) (w_floor w))
  | step_add_send id v rest :
    w_adding w ≡ₚ (id, v) :: rest →
    step w (mkWorld (w_db w)
              (set_owned_queue (w_store w) (DoubleQueue_add_owned (w_queue w) id v))
              (w_reserved w) rest (w_received w) (w_taken w) (w_set_aside w) (w_discarding w)
              (w_used w) (w_clock w) (w_floor w))
  | step_update now fetched :
    step w (mkWorld (w_db w)
              (with_queue w (dq_hot (w_queue w))
                 (ColdQueue_update_condition_value (dq_cold (w_queue w)) now fetched))
              (w_reserved w) (w_adding w) (w_received w) (w_taken w) (w_set_aside w)
              (w_discarding w) (w_used w) (w_clock w) (w_floor w))
  | step_take now fetched cold' r :
    ColdQueue_take condition (dq_cold (w_queue w)) now fetched = Ok (cold', r) →
    step w (mkWorld (w_db w) (with_queue w (dq_hot (w_queue w)) cold') (w_reserved w) (w_adding w)
              (w_received w) (match r with Taken it => it :: w_taken w | _ => w_taken w end)
              (w_set_aside w) (w_discarding w) (w_used w) (w_clock w) (w_floor w))
  | step_receive it hot' :
    dq_hot (w_queue w) = it :: hot' →
    step w (mkWorld (w_db w) (with_queue w hot' (dq_cold (w_queue w))) (w_reserved w) (w_adding w)
              (it :: w_received w) (w_taken w) (w_set_aside w) (w_discarding w) (w_used w)
              (w_clock w) (w_floor w))
  | step_settle id v rest now fetched cold' r :
    w_received w ≡ₚ (id, v) :: rest →
    ColdQueue_add_if_condition_not_satisfied condition (dq_cold (w_queue w)) now fetched id v =
      (cold', r) →
    step w (mkWorld (w_db w) (with_queue w (dq_hot (w_queue w)) cold') (w_reserved w) (w_adding w)
              rest (match r with ConditionSatisfied v => (id, v) :: w_taken w | _ => w_taken w end)
              (w_set_aside w) (w_discarding w) (w_used w) (w_clock w) (w_floor w))
  | step_finish it rest :
    w_taken w ≡ₚ it :: rest →
    step w (mkWorld (delete_asset (w_db w) (w_store w) it.1) (w_store w) (w_reserved w) (w_adding w)
              (w_received w) rest (w_set_aside w) (w_discarding w) (it :: w_used w) (w_clock w)
              (w_floor w))
  | step_discard now fetched cold' r :
    ColdQueue_discard condition (dq_cold (w_queue w)) now fetched = Ok (cold', r) →
    step w (mkWorld (w_db w) (with_queue w (dq_hot (w_queue w)) cold') (w_reserved w) (w_adding w)
              (w_received w) (w_taken w) (w_set_aside w)
              (match r with Discarded it => it.1 :: w_discarding w | _ => w_discarding w end)
              (w_used w) (w_clock w) (w_floor w))
  | step_discard_receive it hot' :
    dq_hot (w_queue w) = it :: hot' →
    step w (mkWorld (w_db w) (with_queue w hot' (dq_cold (w_queue w))) (w_reserved w) (w_adding w)
              (w_received w) (w_taken w) (it :: w_set_aside w) (w_discarding w) (w_used w)
              (w_clock w) (w_floor w))
  | step_discard_settle id v rest now fetched cold' r :
    w_set_aside w ≡ₚ (id, v) :: rest →
    ColdQueue_add_if_condition_satisfied condition (dq_cold (w_queue w)) now fetched id v = (cold', r) →
    step w (mkWorld (w_db w) (with_queue w (dq_hot (w_queue w)) cold') (w_reserved w) (w_adding w)
              (w_received w) (w_taken w) rest (w_discarding w) (w_used w) (w_clock w) (w_floor w))
  | step_discard_commit ids rest :
    w_discarding w ≡ₚ ids ++ rest →
    step w (mkWorld (delete_assets (w_db w) (w_store w) ids) (w_store w) (w_reserved w) (w_adding w)
              (w_received w) (w_taken w) (w_set_aside w) rest (w_used w) (w_clock w) (w_floor w))
  | step_unowned_add id v nonce db' :
    (** followers store and delete assets of other owners *)
    UniqueId_ok id → UniqueId_participant_id id ≠ me →
    put_asset (w_db w) (w_store w) id v nonce = Ok db' →
    step w (mkWorld db' (w_store w) (w_reserved w) (w_adding w) (w_received w) (w_taken w)
              (w_set_aside w) (w_discarding w) (w_used w) (w_clock w) (w_floor w))
  | step_unowned_delete id :
    UniqueId_ok id → UniqueId_participant_id id ≠ me →
    step w (mkWorld (delete_asset (w_db w) (w_store w) id) (w_store w) (w_reserved w) (w_adding w)
              (w_received w) (w_taken w) (w_set_aside w) (w_discarding w) (w_used w) (w_clock w)
              (w_floor w))
  | step_other db' :
    (** other storages and columns *)
    db_cipher db' = db_cipher (w_db w) →
    (∀ key, own_range key = true → db_columns db' col !! key = db_columns (w_db w) col !! key) →
    step w (mkWorld db' (w_store w) (w_reserved w) (w_adding w) (w_received w) (w_taken w)
              (w_set_aside w) (w_discarding w) (w_used w) (w_clock w) (w_floor w))
  | step_restart now store' :
    (** at least a second passes during a restart *)
    DistributedAssetStorage_new now (w_db w) col domain_id me = Ok store' →
    step w (mkWorld (w_db w) store' [] [] [] [] [] [] (w_used w) (w_clock w) (w_clock w + 1)).

(** A first start, with no assets of this participant in the database. *)
Definition initial (w : World) : Prop :=
  (∀ key, own_range key = true → db_columns (w_db w) col !! key = None) ∧
  (∃ now, DistributedAssetStorage_new now (w_db w) col domain_id me = Ok (w_store w)) ∧
  w_reserved w = [] ∧ w_adding w = [] ∧ w_received w = [] ∧ w_taken w = [] ∧ w_set_aside w = [] ∧
  w_discarding w = [] ∧ w_used w = [].

Definition reachable (w : World) : Prop := ∃ w0, initial w0 ∧ rtc step w0 w.
End World.

(** ** Followers

    [take_unowned] reads the asset and then deletes it; nothing excludes another
    task in between. *)

Section Unowned.
Context {T : Type} `{!AesGcm, !Serde T} (s : DistributedAssetStorage T).

Inductive UnownedTask : Type :=
  | UnownedStart (id : UniqueId)
  | UnownedRead (id : UniqueId) (value_ser : bytes)
  | UnownedDone (r : result string T).

Definition unowned_step (db : SecretDB) (task : UnownedTask) : SecretDB * UnownedTask :=
  match task with
  | UnownedStart id =>
    (db, match get_unowned db s id with
         | Ok value_ser => UnownedRead id value_ser
         | Err e => UnownedDone (Err e)
         | Panic p => UnownedDone (Panic p)
         end)
  | UnownedRead id value_ser =>
    (delete_asset db s id, UnownedDone (ok_or (serde_from_slice value_ser) "serde_json"))
  | UnownedDone r => (db, UnownedDone r)
  end.

(** Two tasks, in the order of a schedule. *)
Fixpoint unowned_run (db : SecretDB) (t1 t2 : UnownedTask) (schedule : list bool) :
    SecretDB * UnownedTask * UnownedTask :=
  match schedule with
  | [] => (db, t1, t2)
  | false :: schedule =>
    let '(db, t1) := unowned_step db t1 in unowned_run db t1 t2 schedule
  | true :: schedule =>
    let '(db, t2) := unowned_step db t2 in unowned_run db t1 t2 schedule
  end.

(** Without interruption a task does what [take_unowned] does. *)
Lemma unowned_steps db id :
  let '(db1, t1) := unowned_step db (UnownedStart id) in
  unowned_step db1 t1 =
  let '(db', r) := DistributedAssetStorage_take_unowned db s id in (db', UnownedDone r).
Proof.
  unfold DistributedAssetStorage_take_unowned. simpl. by destruct (get_unowned db s id).
Qed.
End Unowned.

(** ** Node: an owned asset is used at most once

    The invariant of [AssetWorld] and its preservation by every step. *)

(** ** Keys *)

Lemma make_key_inj domain_id id id' :
  UniqueId_ok id → UniqueId_ok id' → make_key domain_id id = make_key domain_id id' → id = id'.
Proof.
  unfold make_key, UniqueId_serialize. intros Hid Hid' Heq. apply app_inv_head in Heq.
  unfold UniqueId_ok, is_u128, u128_max in *. apply be_bytes_inj in Heq; simpl; lia.
Qed.

Lemma decode_key_make_key domain_id id :
  UniqueId_ok id → decode_key (make_key domain_id id) domain_id = Ok id.
Proof.
  intros Hid. unfold decode_key, make_key. destruct domain_id as [d|]; cbn [domain_prefix].
  - rewrite length_app, length_be_bytes. destruct (Nat.ltb_spec (8 + length (UniqueId_serialize id)) 8).
    { lia. }
    rewrite drop_app_length' by (by rewrite length_be_bytes).
    by apply UniqueId_deserialize_serialize.
  - by apply UniqueId_deserialize_serialize.
Qed.

Lemma make_prefix_range_eq me domain_id :
  make_prefix_range me domain_id =
  if me + 1 <=? u32_max then
    Ok (domain_prefix domain_id ++ UniqueId_prefix_for_participant_id me,
        domain_prefix domain_id ++ UniqueId_prefix_for_participant_id (me + 1))
  else Panic PanicUnwrap.
Proof. unfold make_prefix_range, u32_checked_add. by destruct (me + 1 <=? u32_max). Qed.

Lemma own_range_make_key me domain_id id :
  is_u32 me → me + 1 ≤ u32_max → UniqueId_ok id →
  own_range me domain_id (make_key domain_id id) = bool_decide (UniqueId_participant_id id = me).
Proof.
  intros Hme Hme1 Hid. unfold own_range. rewrite make_prefix_range_eq.
  rewrite (proj2 (Z.leb_le _ _) Hme1). unfold bytes_le, make_key. rewrite !bytes_lt_app.
  apply UniqueId_in_prefix_range; [done|done|]. unfold is_u32 in *. lia.
Qed.

(** ** Counting *)

Definition cnt (id : UniqueId) (l : list UniqueId) : nat := length (filter (λ x, x = id) l).

Lemma cnt_nil id : cnt id [] = 0%nat.
Proof. done. Qed.

Lemma cnt_cons id x l : cnt id (x :: l) = ((if decide (x = id) then 1 else 0) + cnt id l)%nat.
Proof. unfold cnt. rewrite filter_cons. by case_decide. Qed.

Lemma cnt_app id l k : cnt id (l ++ k) = (cnt id l + cnt id k)%nat.
Proof. unfold cnt. by rewrite filter_app, length_app. Qed.

#[global] Instance cnt_proper id : Proper ((≡ₚ) ==> eq) (cnt id).
Proof. intros l k Hlk. unfold cnt. by rewrite Hlk. Qed.

Lemma elem_of_cnt id l : id ∈ l ↔ (0 < cnt id l)%nat.
Proof.
  induction l as [|x l IH]; [rewrite cnt_nil; split; [set_solver|lia]|].
  rewrite cnt_cons, elem_of_cons, IH. case_decide; naive_solver lia.
Qed.

Lemma NoDup_cnt l : NoDup l ↔ ∀ id, (cnt id l ≤ 1)%nat.
Proof.
  induction l as [|x l IH]; [split; [intros _ id; rewrite cnt_nil; lia|constructor]|].
  rewrite NoDup_cons, IH, elem_of_cnt. setoid_rewrite cnt_cons. split.
  - intros [Hx Hl] id. specialize (Hl id). case_decide; [subst; lia|lia].
  - intros Hall. split.
    + specialize (Hall x). rewrite decide_True in Hall by done. lia.
    + intros id. specialize (Hall id). lia.
Qed.

(** ** Reserved ids *)

Lemma elem_of_reserved_ids start count id :
  id ∈ reserved_ids start count →
  ∃ i, 0 ≤ i < count ∧ UniqueId_add_to_counter start i = Ok id.
Proof.
  unfold reserved_ids. rewrite list_elem_of_omap. intros (i & Hi & Hid).
  apply elem_of_seqZ in Hi. exists i. split; [lia|]. by destruct (UniqueId_add_to_counter start i); simplify_eq.
Qed.

Lemma reserved_ids_NoDup start count : NoDup (reserved_ids start count).
Proof.
  unfold reserved_ids. assert (Hnd : NoDup (seqZ 0 count)) by apply NoDup_seqZ.
  assert (Hpos : Forall (λ i, 0 ≤ i) (seqZ 0 count)).
  { apply Forall_forall. intros i Hi%elem_of_seqZ. lia. }
  induction Hnd as [|i l Hi Hl IH]; [constructor|]. apply Forall_cons in Hpos as [Hi0 Hl0].
  simpl. destruct (UniqueId_add_to_counter start i) as [id| |] eqn:E; auto.
  constructor; [|auto]. intros (j & Hj & Hid)%list_elem_of_omap.
  destruct (UniqueId_add_to_counter start j) eqn:Ej; simplify_eq.
  apply UniqueId_add_to_counter_ok in E as (_ & _ & _ & Ec); [|done].
  apply UniqueId_add_to_counter_ok in Ej as (_ & _ & _ & Ejc).
  - assert (i = j) as -> by lia. done.
  - by eapply (proj1 (Forall_forall _ _) Hl0).
Qed.

(** ** The invariant *)

Section Invariant.
Context {T : Type} `{!AesGcm, !Serde T}.
Context (condition : list ParticipantId → T → bool).
Context (me : ParticipantId) (col : DBCol) (domain_id : option Z).
Implicit Types (w : @World T) (id : UniqueId) (db : SecretDB).

Definition own id : Prop := UniqueId_ok id ∧ UniqueId_participant_id id = me.

Definition stored db id : Prop := is_Some (db_columns db col !! make_key domain_id id).

(** The assets in memory. *)
Definition held w : list UniqueId :=
  (items (w_queue w)).*1 ++ (w_received w).*1 ++ (w_taken w).*1 ++ (w_adding w).*1 ++
  (w_set_aside w).*1 ++ w_discarding w.

(** Ids that are not given out again: older than the present run, or not above
    the last reserved one. *)
Definition past w id : Prop :=
  UniqueId_timestamp id ≤ w_clock w ∧
  (UniqueId_timestamp id < w_floor w ∨ ∃ last, das_last_id (w_store w) = Some last ∧ id ≤ last).

Definition readable db : Prop :=
  ∀ key ct, own_range me domain_id key = true → db_columns db col !! key = Some ct →
  ∃ id v b, own id ∧ key = make_key domain_id id ∧ decrypt (db_cipher db) ct = Ok b ∧
    serde_from_slice b = Some (v : T).

Record Inv w : Prop := {
  inv_col : das_col (w_store w) = col;
  inv_domain : das_domain_id (w_store w) = domain_id;
  inv_me : das_my_participant_id (w_store w) = me;
  inv_cold : DoubleQueue_ok condition (w_queue w);
  inv_once id : (cnt id (held w) + cnt id (w_reserved w) ≤ 1)%nat;
  inv_held id : id ∈ held w → own id ∧ stored (w_db w) id;
  inv_reserved id : id ∈ w_reserved w → own id ∧ ¬ stored (w_db w) id ∧ past w id;
  inv_used id : id ∈ (w_used w).*1 →
    own id ∧ ¬ stored (w_db w) id ∧ (id ∉ w_reserved w) ∧ past w id;
  inv_used_once : NoDup (w_used w).*1;
  inv_stored id : own id → stored (w_db w) id → past w id;
  inv_last last : das_last_id (w_store w) = Some last →
    own last ∧ UniqueId_timestamp last ≤ w_clock w;
  inv_db : readable (w_db w);
}.

(** Steps that move assets in memory, or drop them. *)
Lemma inv_move w w' :
  Inv w → w_db w' = w_db w → w_reserved w' = w_reserved w → w_used w' = w_used w →
  w_clock w' = w_clock w → w_floor w' = w_floor w →
  (∃ q, w_store w' = set_owned_queue (w_store w) q) →
  DoubleQueue_ok condition (w_queue w') → (∀ id, (cnt id (held w') ≤ cnt id (held w))%nat) → Inv w'.
Proof.
  intros [] Hdb Hres Hused Hclk Hfl [q Hq] Hok Hcnt. destruct w' as [db store res ad rc tk sa di us clk fl].
  simpl in *. subst. unfold past in *. simpl in *. split; simpl; auto.
  - intros id. specialize (Hcnt id). specialize (inv_once0 id). lia.
  - intros id Hid%elem_of_cnt. apply inv_held0. apply elem_of_cnt. specialize (Hcnt id). lia.
Qed.

(** Steps that change nothing in the range of this storage. *)
Lemma inv_other w db' :
  is_u32 me → me + 1 ≤ u32_max → Inv w → db_cipher db' = db_cipher (w_db w) →
  (∀ key, own_range me domain_id key = true → db_columns db' col !! key = db_columns (w_db w) col !! key) →
  Inv (mkWorld db' (w_store w) (w_reserved w) (w_adding w) (w_received w) (w_taken w)
         (w_set_aside w) (w_discarding w) (w_used w) (w_clock w) (w_floor w)).
Proof.
  intros Hme Hme1 [] Hcipher Hsame.
  assert (Hst : ∀ id, own id → stored db' id ↔ stored (w_db w) id).
  { intros id [Hid Hown]. unfold stored. rewrite Hsame; [done|].
    rewrite own_range_make_key by done. by apply bool_decide_eq_true. }
  split; simpl; auto; unfold past in *; simpl.
  - intros id Hid. destruct (inv_held0 id Hid) as [Ho Hs]. split; [done|]. by apply Hst.
  - intros id Hid. destruct (inv_reserved0 id Hid) as (Ho & Hs & Hp). by rewrite Hst.
  - intros id Hid. destruct (inv_used0 id Hid) as (Ho & Hs & Hr & Hp). by rewrite Hst.
  - intros id Ho Hs. apply inv_stored0; [done|]. by apply Hst.
  - intros key ct Hr Hct. rewrite Hcipher. rewrite Hsame in Hct by done. by apply inv_db0.
Qed.

(** ** Database writes *)

Lemma put_asset_Ok db (s : DistributedAssetStorage T) id v nonce db' :
  put_asset db s id v nonce = Ok db' →
  ∃ b ct, serde_to_vec v = Some b ∧ encrypt (db_cipher db) nonce b = Ok ct ∧
  db' = set_column db (das_col s) (<[make_key (das_domain_id s) id := ct]> (db_columns db (das_col s))).
Proof.
  unfold put_asset. destruct (serde_to_vec v) as [b|] eqn:Hb; [|done]. simpl. intros Hput.
  apply bind_Ok in Hput as (u & Hu & [= <-]). apply commit_put in Hu as (ct & Hct & ->). eauto 10.
Qed.

Lemma delete_assets_columns db (s : DistributedAssetStorage T) ids :
  db_cipher (delete_assets db s ids) = db_cipher db ∧
  ∀ key, db_columns (delete_assets db s ids) (das_col s) !! key =
    if decide (key ∈ make_key (das_domain_id s) <$> ids) then None else db_columns db (das_col s) !! key.
Proof.
  unfold delete_assets, SecretDBUpdate_commit.
  assert (Hbatch : ∀ u, update_batch (foldl (λ u id, SecretDBUpdate_delete u (das_col s)
    (make_key (das_domain_id s) id)) u ids) =
    update_batch u ++ (BatchDelete (das_col s) <$> (make_key (das_domain_id s) <$> ids))).
  { induction ids as [|id ids IH]; intros u; simpl; [by rewrite app_nil_r|].
    rewrite IH. simpl. by rewrite <-app_assoc. }
  rewrite Hbatch. simpl. by destruct (foldl_deletes db (das_col s) (make_key (das_domain_id s) <$> ids)) as (? & ? & _).
Qed.

(** Assets leave memory and database; at most one of them is handed out. *)
Lemma inv_delete w w' ids out :
  Inv w → w_store w' = w_store w → w_reserved w' = w_reserved w → w_clock w' = w_clock w →
  w_floor w' = w_floor w → db_cipher (w_db w') = db_cipher (w_db w) →
  (∀ key, db_columns (w_db w') col !! key =
    if decide (key ∈ make_key domain_id <$> ids) then None else db_columns (w_db w) col !! key) →
  (∀ id, cnt id (held w) = (cnt id ids + cnt id (held w'))%nat) →
  (w_used w').*1 = out ++ (w_used w).*1 → out = [] ∨ (∃ id, out = [id] ∧ ids = [id]) → Inv w'.
Proof.
  intros [] Hstore Hres Hclk Hfl Hcipher Hcols Hcnt Hused Hout.
  assert (Hsub : ∀ id, stored (w_db w') id → stored (w_db w) id).
  { intros id. unfold stored. rewrite Hcols. case_decide; [by intros [? ?]|done]. }
  assert (Hpast : ∀ id, past w id → past w' id).
  { intros id. unfold past. by rewrite Hstore, Hclk, Hfl. }
  assert (Hids : ∀ id, id ∈ ids → id ∈ held w).
  { intros id Hid%elem_of_cnt. apply elem_of_cnt. rewrite Hcnt. lia. }
  split; rewrite ?Hstore, ?Hres, ?Hclk; unfold w_queue in *; rewrite ?Hstore; auto.
  - intros id. specialize (inv_once0 id). rewrite Hcnt in inv_once0. lia.
  - intros id Hid. apply elem_of_cnt in Hid. assert (Hheld : id ∈ held w) by (apply elem_of_cnt; rewrite Hcnt; lia).
    destruct (inv_held0 id Hheld) as [Hown Hst]. split; [done|]. unfold stored. rewrite Hcols.
    rewrite decide_False; [done|]. intros (id' & Hkey & Hid')%list_elem_of_fmap.
    destruct (inv_held0 id' (Hids id' Hid')) as [[Hok' _] _].
    apply make_key_inj in Hkey as <-; [|apply Hown|done]. apply elem_of_cnt in Hid'.
    specialize (inv_once0 id). rewrite Hcnt in inv_once0. lia.
  - intros id Hid. destruct (inv_reserved0 id Hid) as (? & Hns & ?). split; [done|]. split; [|auto]. intros Hs. by apply Hns, Hsub.
  - intros id. rewrite Hused. intros [Hid|Hid]%elem_of_app.
    2: { destruct (inv_used0 id Hid) as (? & Hns & ? & ?). split; [done|]. split; [|auto].
      intros Hs. by apply Hns, Hsub. }
    destruct Hout as [->|(id' & -> & ->)]; [set_solver|]. apply list_elem_of_singleton in Hid as ->.
    assert (Hheld : id' ∈ held w) by (apply Hids; set_solver).
    destruct (inv_held0 _ Hheld) as [Hown Hst]. split; [done|]. split.
    { unfold stored. rewrite Hcols. rewrite decide_True; [by intros [? ?]|]. set_solver. }
    split; [|by apply Hpast, inv_stored0]. intros Hr%elem_of_cnt. apply elem_of_cnt in Hheld.
    specialize (inv_once0 id'). lia.
  - rewrite Hused. destruct Hout as [->|(id' & -> & ->)]; [done|]. simpl. constructor; [|done].
    intros Hin. destruct (inv_used0 id' Hin) as (_ & Hns & _). apply Hns.
    apply (inv_held0 id'). apply Hids. set_solver.
  - intros key ct Hr Hct. rewrite Hcipher. rewrite Hcols in Hct. case_decide; [done|]. by apply inv_db0.
Qed.

(** A reserved asset is written. *)
Lemma inv_put `{!AesGcmLaws, !SerdeLaws T} w id v nonce rest db' :
  is_u32 me → me + 1 ≤ u32_max →
  Inv w → w_reserved w ≡ₚ id :: rest → length nonce = NONCE_LEN →
  put_asset (w_db w) (w_store w) id v nonce = Ok db' →
  Inv (mkWorld db' (w_store w) rest ((id, v) :: w_adding w) (w_received w) (w_taken w)
         (w_set_aside w) (w_discarding w) (w_used w) (w_clock w) (w_floor w)).
Proof.
  intros Hme Hme1 [] Hres Hnonce (b & ct & Hb & Hct & ->)%put_asset_Ok.
  rewrite inv_col0, inv_domain0.
  assert (Hin : id ∈ w_reserved w) by (rewrite Hres; set_solver).
  destruct (inv_reserved0 id Hin) as (Hown & Hns & Hpast).
  assert (Hcnt : ∀ x, cnt x (held (mkWorld (set_column (w_db w) col
    (<[make_key domain_id id:=ct]> (db_columns (w_db w) col))) (w_store w) rest
    ((id, v) :: w_adding w) (w_received w) (w_taken w) (w_set_aside w) (w_discarding w) (w_used w)
    (w_clock w) (w_floor w))) = ((if decide (id = x) then 1 else 0) + cnt x (held w))%nat).
  { intros x. unfold held, w_queue. cbn [w_store w_adding w_received w_taken w_set_aside w_discarding].
    rewrite fmap_cons, !cnt_app, cnt_cons. cbn [fst]. lia. }
  assert (Hst : ∀ x, own x → x ≠ id → stored (set_column (w_db w) col
    (<[make_key domain_id id:=ct]> (db_columns (w_db w) col))) x ↔ stored (w_db w) x).
  { intros x Hx Hne. unfold stored. rewrite set_column_same, lookup_insert_ne; [done|].
    intros Hk%make_key_inj; [done|apply Hown|apply Hx]. }
  assert (Hst' : stored (set_column (w_db w) col
    (<[make_key domain_id id:=ct]> (db_columns (w_db w) col))) id).
  { unfold stored. rewrite set_column_same, lookup_insert_eq. eauto. }
  assert (Hrest : ∀ x, x ∈ rest → x ∈ w_reserved w ∧ x ≠ id).
  { intros x Hx. rewrite Hres. split; [set_solver|]. intros ->. specialize (inv_once0 id).
    rewrite Hres, cnt_cons, decide_True in inv_once0 by done. apply elem_of_cnt in Hx. lia. }
  split; simpl; auto.
  - intros x. rewrite Hcnt. specialize (inv_once0 x). rewrite Hres, cnt_cons in inv_once0. lia.
  - intros x Hx. destruct (decide (x = id)) as [->|Hne]; [done|].
    apply elem_of_cnt in Hx. rewrite Hcnt, decide_False in Hx by done.
    destruct (inv_held0 x) as [Hox Hsx]; [by apply elem_of_cnt|]. split; [done|]. by apply Hst.
  - intros x Hx. destruct (Hrest x Hx) as [Hx' Hne]. destruct (inv_reserved0 x Hx') as (? & ? & ?).
    by rewrite Hst.
  - intros x Hx. destruct (inv_used0 x Hx) as (Hox & Hnx & Hrx & Hpx).
    assert (x ≠ id) by (intros ->; done). rewrite Hst by done. split; [done|]. split; [done|]. split; [|done].
    intros Hx'%Hrest. naive_solver.
  - intros x Hox Hsx. destruct (decide (x = id)) as [->|Hne]; [done|]. apply Hst in Hsx; [|done..].
    by apply inv_stored0.
  - intros key ct' Hr Hct'. rewrite set_column_same in Hct'.
    apply lookup_insert_Some in Hct' as [[<- <-]|[Hne Hct']]; [|by apply inv_db0].
    exists id, v, b. split; [done|]. split; [done|].
    split; [by eapply decrypt_encrypt|by apply serde_from_to].
Qed.

(** ** Reserving ids *)

Lemma UniqueId_le_of id id' :
  own id → own id' → UniqueId_timestamp id = UniqueId_timestamp id' →
  UniqueId_counter id ≤ UniqueId_counter id' → id ≤ id'.
Proof.
  intros [Hid Hp] [Hid' Hp'] Ht Hc. destruct (Z.le_gt_cases id id') as [?|Hlt]; [done|].
  apply UniqueId_lt_iff in Hlt; [lia|done|done|congruence].
Qed.

(** The first id of a range is new. *)
Lemma start_spec (s : DistributedAssetStorage T) now start :
  is_u32 me → is_u64 now → das_my_participant_id s = me →
  (∀ last, das_last_id s = Some last → own last) →
  match das_last_id s with
  | Some last_id => UniqueId_pick_new_after last_id now
  | None => Ok (UniqueId_generate (das_my_participant_id s) now)
  end = Ok start →
  own start ∧ now ≤ UniqueId_timestamp start ∧
  (∀ last, das_last_id s = Some last →
    last < start ∧ UniqueId_timestamp start = Z.max now (UniqueId_timestamp last)) ∧
  (das_last_id s = None → UniqueId_timestamp start = now).
Proof.
  intros Hme Hnow Hmy Hlast. destruct (das_last_id s) as [last|] eqn:E.
  - intros Hpick. apply UniqueId_pick_new_after_ok in Hpick as (Hok & Hp & Ht & Hlt); [|done].
    destruct (Hlast last eq_refl) as [Hlok Hlp]. split; [split; congruence|]. split; [lia|].
    split; [|done]. intros ? [= <-]. split; [|done]. apply UniqueId_lt_iff; [done|done|congruence|done].
  - intros [= <-]. unfold UniqueId_generate. rewrite Hmy. assert (is_u32 0) by done.
    unfold own. rewrite UniqueId_participant_id_new, UniqueId_timestamp_new by done.
    split; [split; [by apply UniqueId_new_ok|done]|]. split; [lia|]. done.
Qed.

Lemma inv_reserve w count now store' start :
  is_u32 me → Inv w → 0 < count → is_u64 now → w_floor w ≤ now →
  generate_and_reserve_id_range (w_store w) count now = Ok (store', start) →
  Inv (mkWorld (w_db w) store' (reserved_ids start count ++ w_reserved w) (w_adding w)
         (w_received w) (w_taken w) (w_set_aside w) (w_discarding w) (w_used w)
         (Z.max now (w_clock w)) (w_floor w)).
Proof.
  intros Hme Hinv Hcount Hnow Hfloor. unfold generate_and_reserve_id_range.
  rewrite (proj2 (Z.ltb_lt 0 count)) by done. simpl. intros Hgen.
  apply bind_Ok in Hgen as (st & Hst & Hgen). apply bind_Ok in Hgen as (end_ & Hend & [= <- ->]).
  assert (Hend' : UniqueId_add_to_counter start (count - 1) = Ok end_).
  { by destruct (UniqueId_add_to_counter start (count - 1)). } clear Hend.
  destruct Hinv as [Hcol Hdom Hmy Hcold Honce Hheld Hres Hused Hnd Hstored Hlast Hdb].
  apply start_spec in Hst as (Hown & Hts & Hafter & Hfirst); [|done|done|done|intros last Hl; by apply (Hlast last)].
  apply UniqueId_add_to_counter_ok in Hend' as (Heok & Hep & Het & Hec); [|lia].
  assert (Hnew : ∀ id, id ∈ reserved_ids start count →
    own id ∧ UniqueId_timestamp id = UniqueId_timestamp start ∧ start ≤ id ∧ id ≤ end_).
  { intros id (i & Hi & Hadd)%elem_of_reserved_ids.
    apply UniqueId_add_to_counter_ok in Hadd as (Hok & Hp & Ht & Hc); [|lia].
    assert (own id) by (split; [done|rewrite Hp; apply Hown]).
    assert (own end_) by (split; [done|rewrite Hep; apply Hown]).
    split; [done|]. split; [done|]. split; apply UniqueId_le_of; auto; try lia; congruence. }
  assert (Htend : UniqueId_timestamp start ≤ Z.max now (w_clock w)).
  { destruct (das_last_id (w_store w)) as [last|] eqn:E; [|rewrite Hfirst by done; lia].
    destruct (Hafter last eq_refl) as [_ ->]. destruct (Hlast last eq_refl). lia. }
  assert (Hend_ge : start ≤ end_).
  { apply UniqueId_le_of; [done|split; [done|rewrite Hep; apply Hown]|done|lia]. }
  set (w' := mkWorld _ _ _ _ _ _ _ _ _ _ _).
  assert (Hpast : ∀ id, past w id → past w' id).
  { intros id [Hclk [Hold|(last & Hl & Hle)]]; (split; [simpl; lia|]); [by left|right].
    exists end_. split; [done|]. destruct (Hafter last Hl). lia. }
  assert (Hfresh : ∀ id, id ∈ reserved_ids start count → ¬ past w id).
  { intros id Hid [_ [Hold|(last & Hl & Hle)]]; destruct (Hnew id Hid) as (_ & Ht & Hge & _); [lia|].
    destruct (Hafter last Hl). lia. }
  assert (Hnewpast : ∀ id, id ∈ reserved_ids start count → past w' id).
  { intros id Hid. destruct (Hnew id Hid) as (_ & Ht & _ & Hle). split; [simpl; lia|]. right. by exists end_. }
  split; simpl; auto.
  - intros id. rewrite cnt_app. specialize (Honce id).
    assert (Hdup : (cnt id (reserved_ids start count) ≤ 1)%nat) by apply NoDup_cnt, reserved_ids_NoDup.
    destruct (decide (id ∈ reserved_ids start count)) as [Hid|Hid].
    + assert (Hn1 : id ∉ held w). { intros Hh. destruct (Hheld id Hh). by apply (Hfresh id), Hstored. }
      assert (Hn2 : id ∉ w_reserved w). { intros Hh. destruct (Hres id Hh) as (_ & _ & ?). by apply (Hfresh id). }
      rewrite elem_of_cnt in Hn1, Hn2. change (held w') with (held w). lia.
    + rewrite elem_of_cnt in Hid. change (held w') with (held w). lia.
  - intros id [Hid|Hid]%elem_of_app.
    + split; [by apply Hnew|]. split; [|by apply Hnewpast]. intros Hs.
      apply (Hfresh id Hid), Hstored; [by apply Hnew|done].
    + destruct (Hres id Hid) as (? & ? & ?). auto.
  - intros id Hid. destruct (Hused id Hid) as (? & ? & Hnr & Hp). split; [done|]. split; [done|].
    split; [|by apply Hpast]. intros [Hin|Hin]%elem_of_app; [|done]. by apply (Hfresh id).
  - intros last [= <-]. split; [split; [done|rewrite Hep; apply Hown]|lia].
Qed.

(** ** Starting *)

Lemma load_owned_spec cipher es q last_id :
  Forall (λ e : list Z * list Z, ∃ id v b, own id ∧ e.1 = make_key domain_id id ∧
    decrypt cipher e.2 = Ok b ∧ serde_from_slice b = Some (v : T)) es →
  ∃ l : list (UniqueId * T),
  load_owned ((λ '(key, value), pair key <$> decrypt cipher value) <$> es) domain_id q last_id =
    Ok (mkDoubleQueue (dq_hot q ++ l) (dq_cold q),
        match last l with Some item => Some item.1 | None => last_id end) ∧
  es.*1 = make_key domain_id <$> l.*1 ∧ Forall own l.*1.
Proof.
  intros Hes. revert q last_id. induction Hes as [|[key ct] es (id & v & b & Hown & Hk & Hd & Hv) _ IH];
    intros q last_id.
  { exists []. simpl. rewrite app_nil_r. by destruct q. }
  simpl in Hk, Hd. subst key.
  destruct (IH (DoubleQueue_add_owned q id v) (Some id)) as (l & Hl & Hkeys & Hall).
  exists ((id, v) :: l). rewrite !fmap_cons. cbn [load_owned]. rewrite Hd.
  cbn [mbind result_bind fmap result_fmap fst]. rewrite decode_key_make_key by apply Hown.
  cbn [mbind result_bind]. rewrite Hv. cbn [mbind result_bind ok_or]. split.
  - etrans; [exact Hl|]. cbn [DoubleQueue_add_owned dq_hot dq_cold]. rewrite <-app_assoc. do 2 f_equal.
    destruct (snoc_cases l) as [->|(l' & x & ->)]; [done|].
    by rewrite app_comm_cons, !last_snoc.
  - split; [by rewrite Hkeys|by constructor].
Qed.

Lemma new_spec db now :
  is_u32 me → me + 1 ≤ u32_max → readable db →
  ∃ l : list (UniqueId * T),
  DistributedAssetStorage_new now db col domain_id me =
    Ok (mkDistributedAssetStorage col domain_id me (mkDoubleQueue l (ColdQueue_new [] now))
          (match last l with Some item => Some item.1 | None => None end)) ∧
  NoDup l.*1 ∧ (∀ id, id ∈ l.*1 ↔ own id ∧ stored db id).
Proof.
  intros Hme Hme1 Hread. unfold DistributedAssetStorage_new. rewrite make_prefix_range_eq.
  pose proof Hme1 as Hle. apply Z.leb_le in Hle. rewrite Hle. cbn [mbind result_bind].
  unfold SecretDB_iter_range. set (es := filter _ (column_entries _)).
  assert (Hes : ∀ e, e ∈ es → db_columns db col !! e.1 = Some e.2 ∧ own_range me domain_id e.1 = true).
  { intros e [Hr Hin]%list_elem_of_filter. apply elem_of_column_entries in Hin. split; [done|].
    unfold own_range. by rewrite make_prefix_range_eq, Hle. }
  destruct (load_owned_spec (db_cipher db) es (DoubleQueue_new [] now) None) as (l & Hl & Hkeys & Hown).
  { apply Forall_forall. intros e He. destruct (Hes e He) as [Hct Hr]. by apply Hread. }
  exists l. rewrite Hl. split; [done|]. split.
  - apply (NoDup_fmap_1 (make_key domain_id)). rewrite <-Hkeys.
    eapply sublist_NoDup; [apply (column_entries_NoDup (db_columns db col))|].
    apply fmap_sublist. apply sublist_filter.
  - intros id. split.
    + intros Hid. split; [by apply (proj1 (Forall_forall _ _) Hown)|].
      assert (Hk : make_key domain_id id ∈ es.*1) by (rewrite Hkeys; by apply list_elem_of_fmap_2).
      apply list_elem_of_fmap in Hk as (e & He & Hein). destruct (Hes e Hein) as [Hct _].
      unfold stored. rewrite He, Hct. eauto.
    + intros [[Hid Hp] [ct Hct]]. assert (Hk : make_key domain_id id ∈ es.*1).
      { apply list_elem_of_fmap. exists (make_key domain_id id, ct). split; [done|].
        apply list_elem_of_filter. rewrite elem_of_column_entries. split; [|done].
        pose proof (own_range_make_key me domain_id id Hme Hme1 Hid) as Hr.
        unfold own_range in Hr. rewrite make_prefix_range_eq, Hle in Hr. simpl fst. rewrite Hr.
        by apply bool_decide_eq_true. }
      rewrite Hkeys in Hk. apply list_elem_of_fmap in Hk as (id' & Hk & Hid').
      apply make_key_inj in Hk as ->; [done|done|]. by apply (proj1 (Forall_forall _ _) Hown).
Qed.

Lemma inv_start w now :
  is_u32 me → me + 1 ≤ u32_max → readable (w_db w) →
  (∀ id, own id → stored (w_db w) id → UniqueId_timestamp id ≤ w_clock w ∧ UniqueId_timestamp id < w_floor w) →
  (∀ id, id ∈ (w_used w).*1 → own id ∧ ¬ stored (w_db w) id ∧
    UniqueId_timestamp id ≤ w_clock w ∧ UniqueId_timestamp id < w_floor w) →
  NoDup (w_used w).*1 →
  DistributedAssetStorage_new now (w_db w) col domain_id me = Ok (w_store w) →
  w_reserved w = [] → w_adding w = [] → w_received w = [] → w_taken w = [] → w_set_aside w = [] →
  w_discarding w = [] → Inv w.
Proof.
  intros Hme Hme1 Hread Hold Hused Hnd Hnew Hr Ha Hrc Ht Hs Hd.
  destruct (new_spec (w_db w) now Hme Hme1 Hread) as (l & Heq & Hndl & Hl).
  rewrite Hnew in Heq. injection Heq as Hstore.
  assert (Hheld : held w = l.*1).
  { unfold held, items, w_queue. rewrite Hstore, Ha, Hrc, Ht, Hs, Hd. simpl. by rewrite !app_nil_r. }
  split; rewrite ?Hheld, ?Hr; unfold w_queue, past; rewrite ?Hstore; simpl; auto; try (by apply Hl).
  - apply ColdQueue_new_ok.
  - intros id. rewrite cnt_nil. rewrite NoDup_cnt in Hndl. specialize (Hndl id). lia.
  - set_solver.
  - intros id Hid. destruct (Hused id Hid) as (? & ? & ? & ?). split; [done|]. split; [done|].
    split; [set_solver|]. auto.
  - intros id Ho Hst. destruct (Hold id Ho Hst). auto.
  - intros last'. destruct (last l) as [item|] eqn:El; [|done]. intros [= <-].
    destruct (proj1 (Hl item.1)) as [Hown Hst].
    { apply list_elem_of_fmap_2. apply last_Some in El as [l' ->]. set_solver. }
    split; [done|]. by apply Hold.
Qed.

(** ** Every step *)

#[local] Ltac count_held :=
  intros ?id; unfold held, items, w_queue, with_queue;
  cbn [w_store w_adding w_received w_taken w_set_aside w_discarding set_owned_queue das_owned_queue
       dq_hot dq_cold DoubleQueue_add_owned];
  rewrite ?fmap_app, ?fmap_cons, ?cnt_app, ?cnt_cons; cbn [fst fmap list_fmap]; rewrite ?cnt_nil.

Lemma delete_inv w w' ids out :
  Inv w → w_db w' = delete_assets (w_db w) (w_store w) ids → w_store w' = w_store w →
  w_reserved w' = w_reserved w → w_clock w' = w_clock w → w_floor w' = w_floor w →
  (∀ id, cnt id (held w) = (cnt id ids + cnt id (held w'))%nat) →
  (w_used w').*1 = out ++ (w_used w).*1 → out = [] ∨ (∃ id, out = [id] ∧ ids = [id]) → Inv w'.
Proof.
  intros Hinv Hdb ? ? ? ? ? ? ?. destruct (delete_assets_columns (w_db w) (w_store w) ids) as [Hc Hk].
  rewrite (inv_col _ Hinv), (inv_domain _ Hinv) in Hk.
  eapply (inv_delete w w' ids out); rewrite ?Hdb; done.
Qed.

(** Writes of followers, for assets of other owners. *)
Lemma foreign_inv w id db' :
  is_u32 me → me + 1 ≤ u32_max → Inv w → UniqueId_ok id → UniqueId_participant_id id ≠ me →
  db_cipher db' = db_cipher (w_db w) →
  (∀ key, key ≠ make_key domain_id id → db_columns db' col !! key = db_columns (w_db w) col !! key) →
  Inv (mkWorld db' (w_store w) (w_reserved w) (w_adding w) (w_received w) (w_taken w)
         (w_set_aside w) (w_discarding w) (w_used w) (w_clock w) (w_floor w)).
Proof.
  intros Hme Hme1 Hinv Hok Hne Hc Hk. apply inv_other; [done..|]. intros key Hkey. apply Hk. intros ->.
  rewrite own_range_make_key in Hkey by done. by apply bool_decide_eq_true in Hkey.
Qed.

Lemma step_queue_inv w w' cold' hot' :
  Inv w → w_db w' = w_db w → w_reserved w' = w_reserved w → w_used w' = w_used w →
  w_clock w' = w_clock w → w_floor w' = w_floor w → w_store w' = with_queue w hot' cold' →
  ColdQueue_ok condition cold' → (∀ id, (cnt id (held w') ≤ cnt id (held w))%nat) → Inv w'.
Proof.
  intros Hinv ? ? ? ? ? Hstore Hok Hcnt. eapply (inv_move w); try done; [by eexists|].
  unfold DoubleQueue_ok, w_queue. by rewrite Hstore.
Qed.

Context `{!AesGcmLaws, !SerdeLaws T}.

Lemma step_inv w w' :
  is_u32 me → me + 1 ≤ u32_max → Inv w → step condition me col domain_id w w' → Inv w'.
Proof.
  intros Hme Hme1 Hinv Hstep. pose proof (inv_cold _ Hinv) as Hcold. unfold DoubleQueue_ok in Hcold.
  destruct Hstep as [count now store' start Hc Hn Hf Hgen|id v nonce rest db' Hres Hnonce Hput
    |id v rest Hadd|now fetched|now fetched cold' r Htake|it hot' Hhot
    |id v rest now fetched cold' r Hrec Hadd|it rest Htk|now fetched cold' r Hdisc|it hot' Hhot
    |id v rest now fetched cold' r Hset Hadd|ids rest Hdi|id v nonce db' Hok Hne Hput|id Hok Hne
    |db' Hcipher Hsame|now store' Hnew].
  - by eapply inv_reserve.
  - by eapply inv_put.
  - eapply (inv_move w); try done; [by eexists|]. count_held. rewrite Hadd, !fmap_cons, !cnt_cons. cbn [fst]. lia.
  - eapply (step_queue_inv w); try done; [by apply update_condition_value_ok|]. count_held.
    unfold ColdQueue_update_condition_value. case_decide; done.
  - destruct (take_spec condition (dq_cold (w_queue w)) now fetched Hcold) as (cold & r0 & Heq & Hok & _ & _ & Hr).
    rewrite Htake in Heq. injection Heq as <- <-. eapply (step_queue_inv w); try done. count_held.
    destruct r as [item| |].
    + destruct Hr as [Hp _]. unfold w_queue in Hp. rewrite Hp, !fmap_cons, !cnt_cons. lia.
    + destruct Hr as [Hp _]. unfold w_queue in Hp. rewrite Hp. lia.
    + destruct Hr as (-> & _). rewrite refresh_queue. unfold w_queue. lia.
  - eapply (step_queue_inv w); try done. count_held. unfold w_queue in Hhot. rewrite Hhot, !fmap_cons, !cnt_cons. lia.
  - apply add_not_satisfied_spec in Hadd as (Hok & _ & Hr); [|done].
    eapply (step_queue_inv w); try done. count_held. rewrite Hrec, !fmap_cons, !cnt_cons. cbn [fst].
    destruct r as [v'|].
    + destruct Hr as (-> & -> & _). rewrite refresh_queue, fmap_cons, cnt_cons. cbn [fst]. unfold w_queue. lia.
    + destruct Hr as (-> & _). rewrite fmap_app, cnt_app, fmap_cons, cnt_cons. cbn [fst fmap list_fmap].
      rewrite cnt_nil. unfold w_queue. lia.
  - eapply (delete_inv w _ [it.1] [it.1]); try done; [|by right; eexists].
    count_held. rewrite Htk, !fmap_cons, !cnt_cons. lia.
  - destruct (discard_spec condition (dq_cold (w_queue w)) now fetched Hcold) as (cold & r0 & Heq & Hok & _ & Hr).
    rewrite Hdisc in Heq. injection Heq as <- <-. eapply (step_queue_inv w); try done. count_held.
    destruct r as [item| |].
    + destruct Hr as [Hp _]. unfold w_queue in Hp. rewrite Hp, !fmap_cons, !cnt_cons. lia.
    + destruct Hr as [Hp _]. unfold w_queue in Hp. rewrite Hp. lia.
    + destruct Hr as (-> & _). rewrite refresh_queue. unfold w_queue. lia.
  - eapply (step_queue_inv w); try done. count_held. unfold w_queue in Hhot. rewrite Hhot, !fmap_cons, !cnt_cons. lia.
  - apply add_satisfied_spec in Hadd as (Hok & _ & Hr); [|done].
    eapply (step_queue_inv w); try done. count_held. rewrite Hset, !fmap_cons, !cnt_cons. cbn [fst].
    destruct r as [v'|].
    + destruct Hr as (-> & _). rewrite refresh_queue. unfold w_queue. lia.
    + rewrite Hr, fmap_cons, cnt_cons. cbn [fst]. unfold w_queue. lia.
  - eapply (delete_inv w _ ids []); try done; [|by left]. count_held. rewrite Hdi, cnt_app. lia.
  - apply put_asset_Ok in Hput as (b & ct & _ & _ & ->).
    rewrite (inv_col _ Hinv), (inv_domain _ Hinv). eapply (foreign_inv w id); try done.
    intros key Hkey. by rewrite set_column_same, lookup_insert_ne.
  - destruct (delete_assets_columns (w_db w) (w_store w) [id]) as [Hc Hk].
    rewrite (inv_col _ Hinv), (inv_domain _ Hinv) in Hk. eapply (foreign_inv w id); try done.
    intros key Hkey. rewrite Hk. rewrite decide_False; [done|]. set_solver.
  - by apply inv_other.
  - destruct Hinv. eapply (inv_start _ now); simpl; try done.
    + intros id Ho Hst. destruct (inv_stored0 id Ho Hst) as [? _]. lia.
    + intros id Hid. destruct (inv_used0 id Hid) as (? & ? & _ & [? _]). split; [done|]. split; [done|]. lia.
Qed.

Lemma reachable_inv w : is_u32 me → reachable condition me col domain_id w → me + 1 ≤ u32_max ∧ Inv w.
Proof.
  intros Hme (w0 & (Hempty & [now Hnew] & Hr & Ha & Hrc & Ht & Hs & Hd & Hu) & Hsteps).
  assert (Hme1 : me + 1 ≤ u32_max).
  { unfold DistributedAssetStorage_new in Hnew. rewrite make_prefix_range_eq in Hnew.
    destruct (Z.leb_spec (me + 1) u32_max); [done|discriminate]. }
  assert (Hinv0 : Inv w0).
  { eapply (inv_start w0 now); try done.
    - intros key ct Hkey Hct. by rewrite Hempty in Hct.
    - intros id [Hok Hp] [ct Hct]. rewrite Hempty in Hct; [done|].
      rewrite own_range_make_key by done. by apply bool_decide_eq_true.
    - rewrite Hu. set_solver.
    - rewrite Hu. constructor. }
  split; [done|]. clear Hempty Hnew Hr Ha Hrc Ht Hs Hd Hu.
  induction Hsteps as [|w0 w1 w2 Hstep _ IH]; [done|]. apply IH. by eapply step_inv.
Qed.
End Invariant.
