(* ===== verification/AssetTheorems.v ===== *)
(** * Node: theorems about the storage of triples and presignatures

    An owned asset is handed out at most once, whatever the tasks of the node and
    its restarts do; [take_owned] finds a usable asset when there is one.  Three
    theorems show where the code falls short: an owned asset can be taken as an
    unowned one, an unowned asset can be taken by two tasks, and discarded assets
    can stay in the database. *)

From S2P Require Import Prelude Types NodePrimitives Db Assets AssetWorld.

Section Theorems.
Context {T : Type} `{!AesGcm, !Serde T, !AesGcmLaws, !SerdeLaws T}.
Context (condition : list ParticipantId → T → bool).

(** C7: an owned asset is used at most once.  In every history of the tasks of a
    node that share a storage, with any interleaving of their accesses and
    restarts at any point that take at least a second, and in which followers
    only touch assets of other owners, [take_owned] never returns the same asset
    twice, and what it has returned is neither in memory nor in the database. *)
Theorem owned_asset_used_once (me : ParticipantId) (col : DBCol) (domain_id : option Z) (w : World) :
  is_u32 me → reachable condition me col domain_id w →
  NoDup (w_used w).*1 ∧
  ∀ id, id ∈ (w_used w).*1 → (id ∉ held w) ∧ ¬ stored col domain_id (w_db w) id.
Proof.
  intros Hme Hw. destruct (reachable_inv condition me col domain_id w Hme Hw) as [_ Hinv]. split; [apply Hinv|].
  intros id Hid. destruct (inv_used _ _ _ _ _ Hinv id Hid) as (_ & Hns & _). split; [|done].
  intros Hheld. by apply Hns, (inv_held _ _ _ _ _ Hinv).
Qed.

(** A restart succeeds and loses nothing: the storage loads exactly the assets
    of this participant that are in the database. *)
Lemma restart_loads_all (me : ParticipantId) (col : DBCol) (domain_id : option Z) (w : World) now :
  is_u32 me → reachable condition me col domain_id w →
  ∃ store', DistributedAssetStorage_new now (w_db w) col domain_id me = Ok store' ∧
  ∀ id, id ∈ (items (das_owned_queue (T := T) store')).*1 ↔ own me id ∧ stored col domain_id (w_db w) id.
Proof.
  intros Hme Hw. destruct (reachable_inv condition me col domain_id w Hme Hw) as [Hme1 Hinv].
  destruct (new_spec me col domain_id (w_db w) now Hme Hme1) as (l & Hnew & _ & Hl).
  { apply Hinv. }
  eexists. split; [exact Hnew|]. intros id. unfold items. simpl. rewrite app_nil_r. apply Hl.
Qed.

Lemma take_owned_finds (db : SecretDB) (s : DistributedAssetStorage T) (now : Z)
    (fetched : list ParticipantId) (polls : list (Poll (list ParticipantId))) :
  DoubleQueue_ok condition (das_owned_queue s) →
  Forall (steady fetched) polls → zlen (items (das_owned_queue s)) ≤ zlen polls →
  Exists (satisfies condition fetched) (items (das_owned_queue s)) →
  ∃ db' s' id v,
    DistributedAssetStorage_take_owned condition db s now fetched polls = Ok (db', s', Some (id, v)) ∧
    condition fetched v = true ∧
    items (das_owned_queue s) ≡ₚ (id, v) :: items (das_owned_queue s') ∧
    ¬ stored (das_col s) (das_domain_id s) db' id.
Proof.
  intros Hok Hsteady Hlen Hex. unfold DistributedAssetStorage_take_owned, DoubleQueue_take_owned.
  set (q := das_owned_queue s) in *.
  set (q1 := mkDoubleQueue (dq_hot q) (ColdQueue_update_condition_value (dq_cold q) now fetched)).
  assert (Hok1 : DoubleQueue_ok condition q1) by (by apply update_condition_value_ok).
  assert (Hc : dq_condition q1 = fetched).
  { unfold q1, dq_condition, ColdQueue_update_condition_value. simpl. by case_decide. }
  assert (Hitems : items q1 = items q).
  { unfold q1, items, ColdQueue_update_condition_value. simpl. by case_decide. }
  assert (Hun : unchecked q1 ≤ zlen polls).
  { pose proof (available_bounds condition _ Hok1). rewrite <-Hitems in Hlen.
    unfold unchecked, items in *. rewrite zlen_app in Hlen. lia. }
  destruct (take_owned_loop_returns condition q1 polls) as (q2 & [id v] & Hloop & _ & Hperm & Hs);
    rewrite ?Hc, ?Hitems; try done.
  rewrite Hloop, Hitems, Hc in *. simpl. eexists _, _, id, v. split; [done|]. split; [done|].
  split; [done|]. unfold stored, delete_asset. rewrite commit_delete, set_column_same, lookup_delete_eq.
  by intros [? ?].
Qed.

(** C25: [take_owned] returns a usable asset when there is one.  While the
    participants alive do not change, it looks at each queued asset at most once,
    and ends with an asset that satisfies the condition if there is one; the other
    assets stay queued and the entry of the returned one leaves the database. *)
Theorem take_owned_returns (db : SecretDB) (s : DistributedAssetStorage T) (now : Z)
    (fetched : list ParticipantId) (polls : list (Poll (list ParticipantId))) :
  DoubleQueue_ok condition (das_owned_queue s) →
  Forall (steady fetched) polls → zlen (items (das_owned_queue s)) ≤ zlen polls →
  Exists (satisfies condition fetched) (items (das_owned_queue s)) →
  ∃ db' s' id v,
    DistributedAssetStorage_take_owned condition db s now fetched polls = Ok (db', s', Some (id, v)) ∧
    condition fetched v = true ∧
    items (das_owned_queue s) ≡ₚ (id, v) :: items (das_owned_queue s') ∧
    ¬ stored (das_col s) (das_domain_id s) db' id.
Proof. apply take_owned_finds. Qed.

(** An owned asset can be used twice.  Nothing keeps [take_unowned] from an id
    of this node: a peer that names an owned asset in a task gets it used, and
    [take_owned] still returns the same asset afterwards. *)
Theorem owned_asset_taken_as_unowned (db : SecretDB) (s : DistributedAssetStorage T) (id : UniqueId)
    (v : T) (b : bytes) (now : Z) (fetched : list ParticipantId) :
  DoubleQueue_ok condition (das_owned_queue s) → items (das_owned_queue s) = [(id, v)] →
  SecretDB_get db (das_col s) (make_key (das_domain_id s) id) = Ok (Some b) →
  serde_from_slice b = Some v → condition fetched v = true →
  ∃ db',
    DistributedAssetStorage_take_unowned db s id = (db', Ok v) ∧
    ∃ db'' s', DistributedAssetStorage_take_owned condition db' s now fetched
      [mkPoll now fetched true] = Ok (db'', s', Some (id, v)).
Proof.
  intros Hok Hitems Hget Hv Hc. eexists. split.
  { unfold DistributedAssetStorage_take_unowned, get_unowned. rewrite Hget. simpl. rewrite Hv. done. }
  edestruct (take_owned_finds (delete_asset db s id) s now fetched [mkPoll now fetched true])
    as (db'' & s' & id' & v' & Htake & _ & Hperm & _).
  - done.
  - repeat constructor.
  - by rewrite Hitems.
  - rewrite Hitems. by constructor.
  - rewrite Hitems in Hperm. symmetry in Hperm. apply Permutation_singleton_r in Hperm. simplify_eq.
    by exists db'', s'.
Qed.

(** An unowned asset can be used twice.  Two tasks of a follower that take the
    same unowned asset one after the other get it once; but when the second reads
    before the first deletes, both get it. *)
Theorem unowned_asset_taken_twice (db : SecretDB) (s : DistributedAssetStorage T) (id : UniqueId)
    (v : T) (b : bytes) :
  SecretDB_get db (das_col s) (make_key (das_domain_id s) id) = Ok (Some b) →
  serde_from_slice b = Some v →
  let run := unowned_run s db (UnownedStart id) (UnownedStart id) in
  (∃ db', run [false; false; true; true] =
    (db', UnownedDone (Ok v), UnownedDone (Err "Unowned asset not found in the database"))) ∧
  ∃ db', run [false; true; false; true] = (db', UnownedDone (Ok v), UnownedDone (Ok v)).
Proof.
  intros Hget Hv. simpl. unfold get_unowned. rewrite Hget. simpl. rewrite Hv.
  split; [|by eexists]. unfold SecretDB_get, delete_asset.
  rewrite commit_delete, set_column_same, lookup_delete_eq. by eexists.
Qed.

(** Discarded assets can stay in the database.  A fresh asset that does not
    satisfy the condition leaves the queues in [maybe_discard_owned], but the
    database is not changed: the asset is not available any more, and comes back
    with the next restart. *)
Theorem fresh_discard_keeps_entry (db : SecretDB) (s : DistributedAssetStorage T) (id : UniqueId)
    (v : T) (n : nat) (now : Z) (fetched : list ParticipantId) :
  dq_hot (das_owned_queue s) = [(id, v)] → cold_queue (dq_cold (das_owned_queue s)) = [] →
  DoubleQueue_ok condition (das_owned_queue s) → condition fetched v = false →
  ∃ s', DistributedAssetStorage_maybe_discard_owned condition db s (S n) now fetched
      (λ _, (now, fetched)) = Ok (db, s') ∧ items (das_owned_queue s') = [].
Proof.
  intros Hhot Hcold Hok Hc. unfold DistributedAssetStorage_maybe_discard_owned, DoubleQueue_maybe_discard_owned.
  set (q := das_owned_queue s) in *. set (cold := ColdQueue_update_condition_value (dq_cold q) now fetched).
  assert (Hq : cold_queue cold = []).
  { unfold cold, ColdQueue_update_condition_value. by case_decide. }
  assert (Hlast : last_condition_value cold = fetched).
  { unfold cold, ColdQueue_update_condition_value. by case_decide. }
  assert (Hcok : ColdQueue_ok condition cold) by (by apply update_condition_value_ok).
  assert (Hready : cold_ready cold = 0).
  { destruct Hcok as (R & U & V & Hp & Hr & _). rewrite Hq in Hp. symmetry in Hp.
    apply app_nil in Hp as [-> _]. done. }
  assert (Hdue : ColdQueue_update_condition_value_if_due cold now fetched = cold).
  { unfold ColdQueue_update_condition_value_if_due, cold, ColdQueue_update_condition_value, CONDITION_REFRESH_INTERVAL.
    case_decide; simpl; destruct (Z.ltb_spec now (now + 1000000000)); done || lia. }
  cbn [discard_cold]. unfold ColdQueue_discard. cbn [fst snd]. rewrite Hdue, Hready, Hq.
  simpl.
  rewrite Hhot. unfold ColdQueue_add_if_condition_satisfied. simpl. rewrite Hdue, Hlast, Hc.
  eexists. split; [done|]. unfold items. destruct n; simpl; by rewrite Hq.
Qed.
End Theorems.

(** ** An example

    A cipher that changes nothing, numbers as assets, and assets that are usable
    while the participant of their number is alive. *)

#[local] Instance sample_aes : AesGcm := {|
  aes_encrypt _ _ plaintext := Some plaintext;
  aes_decrypt _ _ ciphertext := Some ciphertext;
|}.

#[local] Instance sample_aes_laws : AesGcmLaws.
Proof. split. intros key nonce plaintext ciphertext [= ->]. done. Qed.

#[local] Instance sample_serde : Serde Z := {|
  serde_to_vec v := Some [v];
  serde_from_slice b := match b with [v] => Some v | _ => None end;
|}.

#[local] Instance sample_serde_laws : SerdeLaws Z.
Proof. split. intros v b [= <-]. done. Qed.

Definition sample_condition (alive : list ParticipantId) (v : Z) : bool := bool_decide (v ∈ alive).

Definition sample_nonce : bytes := replicate NONCE_LEN 0.

Definition sample_id : UniqueId := UniqueId_new 7 5 0.

Definition sample_db : SecretDB := mkSecretDB (λ _, ∅) [].

Definition sample_store : DistributedAssetStorage Z :=
  mkDistributedAssetStorage Presignature (Some 1) 7 (mkDoubleQueue [] (ColdQueue_new [] 0)) None.

Definition sample_world : World (T := Z) := mkWorld sample_db sample_store [] [] [] [] [] [] [] 0 0.

(** Participant 7 generates an asset at second 5, restarts, and uses it. *)
Definition sample_stored : SecretDB :=
  match put_asset sample_db sample_store sample_id 3 sample_nonce with Ok db => db | _ => sample_db end.

Definition sample_loaded (hot : list (UniqueId * Z)) (cold : ColdQueue Z (list ParticipantId)) :
    DistributedAssetStorage Z :=
  mkDistributedAssetStorage Presignature (Some 1) 7 (mkDoubleQueue hot cold) (Some sample_id).

Definition sample_cold : ColdQueue Z (list ParticipantId) := ColdQueue_new [] 9.
Definition sample_cold' : ColdQueue Z (list ParticipantId) :=
  ColdQueue_update_condition_value sample_cold 9 [3; 7].

Definition sample_reserved : World (T := Z) :=
  mkWorld sample_db (sample_loaded [] (ColdQueue_new [] 0)) (reserved_ids sample_id 1 ++ []) [] [] [] [] [] [] 5 0.
Definition sample_adding : World (T := Z) :=
  mkWorld sample_stored (sample_loaded [] (ColdQueue_new [] 0)) [] [(sample_id, 3)] [] [] [] [] [] 5 0.
Definition sample_restarted : World (T := Z) :=
  mkWorld sample_stored (sample_loaded [(sample_id, 3)] sample_cold) [] [] [] [] [] [] [] 5 6.
Definition sample_received : World (T := Z) :=
  mkWorld sample_stored (sample_loaded [] sample_cold) [] [] [(sample_id, 3)] [] [] [] [] 5 6.
Definition sample_taken : World (T := Z) :=
  mkWorld sample_stored (sample_loaded [] sample_cold') [] [] [] [(sample_id, 3)] [] [] [] 5 6.
Definition sample_used : World (T := Z) :=
  mkWorld (delete_asset sample_stored (sample_loaded [] sample_cold') sample_id)
    (sample_loaded [] sample_cold') [] [] [] [] [] [] [(sample_id, 3)] 5 6.

Lemma sample_history : reachable sample_condition 7 Presignature (Some 1) sample_used.
Proof.
  exists sample_world. split.
  { split; [intros key _; apply lookup_empty|]. split; [exists 0; by vm_compute|done]. }
  eapply (rtc_l _ _ sample_reserved).
  { apply (step_reserve _ _ _ _ sample_world 1 5 (sample_loaded [] (ColdQueue_new [] 0)) sample_id);
      [done|done|done|by vm_compute]. }
  eapply (rtc_l _ _ sample_adding).
  { apply (step_add_put _ _ _ _ sample_reserved sample_id 3 sample_nonce []); [by vm_compute|done|by vm_compute]. }
  eapply (rtc_l _ _ sample_restarted).
  { apply (step_restart _ _ _ _ sample_adding 9 (sample_loaded [(sample_id, 3)] sample_cold)). by vm_compute. }
  eapply (rtc_l _ _ sample_received).
  { by apply (step_receive _ _ _ _ sample_restarted (sample_id, 3) []). }
  eapply (rtc_l _ _ sample_taken).
  { apply (step_settle _ _ _ _ sample_received sample_id 3 [] 9 [3; 7] sample_cold' (ConditionSatisfied 3));
      [reflexivity|by vm_compute]. }
  apply rtc_once. by apply (step_finish _ _ _ _ sample_taken (sample_id, 3) []).
Qed.

Lemma owned_asset_used_once_witness :
  (w_used sample_used).*1 = [sample_id] ∧ ¬ stored Presignature (Some 1) (w_db sample_used) sample_id.
Proof.
  split; [done|]. assert (Hme : is_u32 7) by done.
  apply (owned_asset_used_once sample_condition 7 Presignature (Some 1) sample_used Hme sample_history).
  by left.
Defined.

(** One owned asset, usable while 3 is alive. *)
Lemma sample_queue_ok : DoubleQueue_ok sample_condition (das_owned_queue (w_store sample_restarted)).
Proof. apply ColdQueue_new_ok. Qed.

Lemma take_owned_returns_witness :
  ∃ db' s' id v, DistributedAssetStorage_take_owned sample_condition sample_stored
    (w_store sample_restarted) 9 [3] [mkPoll 9 [3] true] = Ok (db', s', Some (id, v)).
Proof.
  destruct (take_owned_returns sample_condition sample_stored (w_store sample_restarted) 9 [3]
    [mkPoll 9 [3] true] sample_queue_ok) as (db' & s' & id & v & Heq & _).
  - by repeat constructor.
  - done.
  - by repeat constructor.
  - by exists db', s', id, v.
Defined.

Lemma sample_get : SecretDB_get sample_stored Presignature (make_key (Some 1) sample_id) = Ok (Some [3]).
Proof. by vm_compute. Qed.

Lemma sample_value : serde_from_slice (T := Z) [3] = Some 3.
Proof. done. Qed.

Lemma owned_asset_taken_as_unowned_witness :
  ∃ db' db'' s', DistributedAssetStorage_take_unowned sample_stored (w_store sample_restarted) sample_id =
    (db', Ok 3) ∧
  DistributedAssetStorage_take_owned sample_condition db' (w_store sample_restarted) 9 [3]
    [mkPoll 9 [3] true] = Ok (db'', s', Some (sample_id, 3)).
Proof.
  destruct (owned_asset_taken_as_unowned sample_condition sample_stored (w_store sample_restarted)
    sample_id 3 [3] 9 [3] sample_queue_ok eq_refl sample_get sample_value eq_refl)
    as (db' & Hun & db'' & s' & Htake).
  exists db', db'', s'. exact (conj Hun Htake).
Defined.

Lemma unowned_asset_taken_twice_witness :
  ∃ db', unowned_run (w_store sample_restarted) sample_stored (UnownedStart sample_id)
    (UnownedStart sample_id) [false; true; false; true] = (db', UnownedDone (Ok 3), UnownedDone (Ok 3)).
Proof.
  apply (unowned_asset_taken_twice sample_stored (w_store sample_restarted) sample_id 3 [3]
    sample_get sample_value).
Defined.

Lemma fresh_discard_keeps_entry_witness :
  ∃ s', DistributedAssetStorage_maybe_discard_owned sample_condition sample_stored
      (w_store sample_restarted) 1 9 [] (λ _, (9, [])) = Ok (sample_stored, s') ∧
    items (das_owned_queue s') = [].
Proof.
  apply (fresh_discard_keeps_entry sample_condition sample_stored (w_store sample_restarted) sample_id 3
    0 9 [] eq_refl eq_refl sample_queue_ok eq_refl).
Defined.
