(* ===== verification/AssetCleanup.v ===== *)
(** * Node: cleaning the asset storage when the committee changes

    [node/src/assets/cleanup.rs]: on entering the running state the node deletes
    all triples and presignatures if the epoch has changed, and those that involve
    participants with a new TLS key otherwise. *)

From S2P Require Import Prelude Types NodePrimitives Db Assets AssetWorld.

(** [providers::HasParticipants]. *)
Class HasParticipants (T : Type) : Type :=
  is_subset_of_active_participants : T → list ParticipantId → bool.

Record ParticipantInfo : Type := mkParticipantInfo {
  pi_id : ParticipantId;
  pi_address : string;
  pi_port : Z;
  pi_p2p_public_key : bytes;
  pi_near_account_id : AccountId;
}.

Record ParticipantsConfig : Type := mkParticipantsConfig {
  pc_threshold : Z;
  pc_participants : list ParticipantInfo;
}.

Definition ParticipantsConfig_get_info (c : ParticipantsConfig) (id : ParticipantId) :
    option ParticipantInfo :=
  find (λ participant_info, pi_id participant_info =? id) (pc_participants c).

Record EpochData : Type := mkEpochData {
  ed_epoch_id : EpochId;
  ed_participants : ParticipantsConfig;
}.

Inductive EpochDataWrapper : Type :=
  | Legacy (epoch_id : EpochId)
  | Current (epoch_data : EpochData).

Inductive AssetCleanup : Type :=
  | Keep
  | DeleteAll
  | KeepOnly (participants : list ParticipantId).

Definition cleanup_behavior (previous_epoch_data current_epoch_data : EpochData) : AssetCleanup :=
  if negb (ed_epoch_id previous_epoch_data =? ed_epoch_id current_epoch_data) then DeleteAll
  else
    let persitent_participants := omap (λ current,
      match ParticipantsConfig_get_info (ed_participants previous_epoch_data) (pi_id current) with
      | None => Some (pi_id current)
      | Some prev =>
        if bool_decide (pi_p2p_public_key current = pi_p2p_public_key prev) then Some (pi_id prev)
        else None
      end) (pc_participants (ed_participants current_epoch_data)) in
    let tls_key_changed := negb (zlen persitent_participants =?
      zlen (pc_participants (ed_participants current_epoch_data))) in
    if tls_key_changed then KeepOnly persitent_participants else Keep.

Definition cleanup_behavior_during_update (previous_epoch_id current_epoch_id : EpochId) :
    AssetCleanup :=
  if negb (previous_epoch_id =? current_epoch_id) then DeleteAll else Keep.

Section Cleanup.
Context `{!AesGcm, !Serde EpochData}.
Context {PairedTriple PresignOutputWithParticipants : Type}.
Context `{!Serde PairedTriple, !HasParticipants PairedTriple}.
Context `{!Serde PresignOutputWithParticipants, !HasParticipants PresignOutputWithParticipants}.

Definition get_epoch_data (db : SecretDB) : result string (option EpochDataWrapper) :=
  db_res ← SecretDB_get db Db.EpochData EPOCH_ID_KEY;
  match db_res with
  | None => Ok None
  | Some db_res =>
    match serde_from_slice db_res with
    | Some epoch_data => Ok (Some (Current epoch_data))
    | None =>
      if (length db_res =? 8)%nat then Ok (Some (Legacy (from_be_bytes db_res)))
      else Err "Can't deserialize EPOCH_ID entry"
    end
  end.

Definition TRIPLE_STORE_DOMAIN_ID : option Z := None.

Definition clean_triples (db : SecretDB) (persistent_participants : list ParticipantId)
    (my_participant_id : ParticipantId) : result string SecretDB :=
  clean_db (T := PairedTriple) (λ ps v, is_subset_of_active_participants v ps) db Triple
    persistent_participants my_participant_id TRIPLE_STORE_DOMAIN_ID.

(** What was committed before an error stays. *)
Fixpoint clean_presignatures (db : SecretDB) (persistent_participants : list ParticipantId)
    (my_participant_id : ParticipantId) (domains : list Z) : SecretDB * result string unit :=
  match domains with
  | [] => (db, Ok tt)
  | domain_id :: domains =>
    match clean_db (T := PresignOutputWithParticipants)
      (λ ps v, is_subset_of_active_participants v ps) db Presignature persistent_participants
      my_participant_id (Some domain_id) with
    | Ok db => clean_presignatures db persistent_participants my_participant_id domains
    | Err e => (db, Err e)
    | Panic p => (db, Panic p)
    end
  end.

Definition store_epoch_data (db : SecretDB) (current_epoch_data : EpochData) (nonce : bytes) :
    result string SecretDB :=
  current_epoch_data_ser ← ok_or (serde_to_vec current_epoch_data) "serde_json";
  update_writer ← SecretDBUpdate_put db SecretDB_update Db.EpochData EPOCH_ID_KEY
    current_epoch_data_ser nonce;
  Ok (SecretDBUpdate_commit db update_writer).

(** Which cleanup is due. *)
Definition asset_cleanup (db : SecretDB) (current_epoch_data : EpochData) :
    result string AssetCleanup :=
  epoch_data ← get_epoch_data db;
  Ok match epoch_data with
     | None => Keep
     | Some (Legacy previous_epoch_id) =>
       cleanup_behavior_during_update previous_epoch_id (ed_epoch_id current_epoch_data)
     | Some (Current previous_epoch_data) => cleanup_behavior previous_epoch_data current_epoch_data
     end.

Definition clean_assets (db : SecretDB) (cleanup : AssetCleanup) (my_participant_id : ParticipantId)
    (ecdsa_domain_ds : list Z) : SecretDB * result string unit :=
  match cleanup with
  | Keep => (db, Ok tt)
  | DeleteAll =>
    let update_writer := SecretDBUpdate_delete_all db SecretDB_update Presignature in
    let update_writer := SecretDBUpdate_delete_all db update_writer Triple in
    (SecretDBUpdate_commit db update_writer, Ok tt)
  | KeepOnly persitent_participants =>
    match clean_triples db persitent_participants my_participant_id with
    | Ok db => clean_presignatures db persitent_participants my_participant_id ecdsa_domain_ds
    | Err e => (db, Err e)
    | Panic p => (db, Panic p)
    end
  end.

Definition delete_stale_triples_and_presignatures (db : SecretDB) (current_epoch_data : EpochData)
    (my_participant_id : ParticipantId) (ecdsa_domain_ds : list Z) (nonce : bytes) :
    SecretDB * result string unit :=
  match asset_cleanup db current_epoch_data with
  | Ok cleanup =>
    match clean_assets db cleanup my_participant_id ecdsa_domain_ds with
    | (db, Ok _) =>
      match store_epoch_data db current_epoch_data nonce with
      | Ok db => (db, Ok tt)
      | Err e => (db, Err e)
      | Panic p => (db, Panic p)
      end
    | (db, r) => (db, r)
    end
  | Err e => (db, Err e)
  | Panic p => (db, Panic p)
  end.
End Cleanup.

(** ** What [clean_db] does *)

Section CleanDb.
Context `{!AesGcm} {T : Type} `{!Serde T}.
Implicit Types (db : SecretDB) (sub : list ParticipantId → T → bool).

Lemma decrypt_no_panic cipher ct : no_panic (decrypt cipher ct).
Proof. unfold decrypt. case_match; [done|]. apply ok_or_no_panic. Qed.

(** The parsed value of a ciphertext. *)
Definition parses (cipher ct : bytes) (v : T) : Prop :=
  ∃ b, decrypt cipher ct = Ok b ∧ serde_from_slice b = Some v.

Lemma clean_entries_Ok keep col cipher (es : list (list Z * list Z)) u u' :
  clean_entries keep ((λ '(key, value), pair key <$> decrypt cipher value) <$> es) col u = Ok u' →
  ∃ gone, update_batch u' = update_batch u ++ (BatchDelete col <$> gone) ∧
  (∀ key, key ∈ gone → ∃ kv v, kv ∈ es ∧ kv.1 = key ∧ parses cipher kv.2 v ∧ keep v = false) ∧
  (∀ kv, kv ∈ es → ∃ v, parses cipher kv.2 v ∧ (keep v = false → kv.1 ∈ gone)).
Proof.
  revert u. induction es as [|[key ct] es IH]; intros u.
  { intros [= <-]. exists []. split; [by rewrite app_nil_r|]. split; set_solver. }
  rewrite fmap_cons. cbn [clean_entries]. destruct (decrypt cipher ct) as [b| |] eqn:Hd; [|done..].
  cbn [mbind result_bind fmap result_fmap]. destruct (serde_from_slice b) as [v|] eqn:Hv; [|done].
  cbn [mbind result_bind ok_or]. intros Hrec.
  assert (Hp : parses cipher ct v) by (by exists b).
  destruct (keep v) eqn:Hk; simpl negb in Hrec; cbv iota in Hrec;
    apply IH in Hrec as (gone & Hbatch & Hgone & Hall).
  - exists gone. split; [done|]. split.
    + intros k Hin. destruct (Hgone k Hin) as (kv & v' & ? & ? & ? & ?). exists kv, v'. set_solver.
    + intros kv [->|Hin]%elem_of_cons; [|by apply Hall]. exists v. split; [done|]. congruence.
  - exists (key :: gone). split; [rewrite Hbatch; simpl; by rewrite <-app_assoc|]. split.
    + intros k [->|Hin]%elem_of_cons; [exists (key, ct), v; set_solver|].
      destruct (Hgone k Hin) as (kv & v' & ? & ? & ? & ?). exists kv, v'. set_solver.
    + intros kv [->|Hin]%elem_of_cons; [exists v; set_solver|].
      destruct (Hall kv Hin) as (v' & ? & ?). exists v'. set_solver.
Qed.

Lemma clean_entries_Err keep col cipher (es : list (list Z * list Z)) u :
  (∃ kv, kv ∈ es ∧ ∀ v, ¬ parses cipher kv.2 v) →
  ∃ e, clean_entries keep ((λ '(key, value), pair key <$> decrypt cipher value) <$> es) col u = Err e.
Proof.
  revert u. induction es as [|[key ct] es IH]; intros u (kv & Hin & Hbad); [set_solver|].
  rewrite fmap_cons. cbn [clean_entries]. pose proof (decrypt_no_panic cipher ct) as Hnp.
  destruct (decrypt cipher ct) as [b|e|] eqn:Hd; [|by exists e|done].
  cbn [mbind result_bind fmap result_fmap]. destruct (serde_from_slice b) as [v|] eqn:Hv; [|by eexists].
  cbn [mbind result_bind ok_or]. apply IH. exists kv. split; [|done].
  apply elem_of_cons in Hin as [->|]; [|done]. destruct (Hbad v). by exists b.
Qed.

Lemma clean_entries_no_panic keep col cipher (es : list (list Z * list Z)) u :
  no_panic (clean_entries keep ((λ '(key, value), pair key <$> decrypt cipher value) <$> es) col u).
Proof.
  revert u. induction es as [|[key ct] es IH]; intros u; [done|].
  rewrite fmap_cons. cbn [clean_entries]. pose proof (decrypt_no_panic cipher ct) as Hnp.
  destruct (decrypt cipher ct) as [b|e|]; [|done..].
  cbn [mbind result_bind fmap result_fmap]. destruct (serde_from_slice b); [|done]. apply IH.
Qed.

Lemma elem_of_range db col start end_ kv :
  kv ∈ filter (λ kv, bytes_le start kv.1 && bytes_lt kv.1 end_ = true) (column_entries (db_columns db col)) ↔
  bytes_le start kv.1 && bytes_lt kv.1 end_ = true ∧ db_columns db col !! kv.1 = Some kv.2.
Proof. by rewrite list_elem_of_filter, elem_of_column_entries. Qed.

Lemma clean_db_Ok sub db col ps me domain_id db' :
  clean_db sub db col ps me domain_id = Ok db' →
  db_cipher db' = db_cipher db ∧ (∀ col', col' ≠ col → db_columns db' col' = db_columns db col') ∧
  (∀ key ct, db_columns db' col !! key = Some ct → db_columns db col !! key = Some ct) ∧
  (∀ key, own_range me domain_id key = false → db_columns db' col !! key = db_columns db col !! key) ∧
  ∀ key ct, own_range me domain_id key = true → db_columns db col !! key = Some ct →
  ∃ v, parses (db_cipher db) ct v ∧
    (db_columns db' col !! key = if sub ps v then Some ct else None).
Proof.
  unfold clean_db, own_range. destruct (make_prefix_range me domain_id) as [[start end_]| |]; [|done..].
  cbn [mbind result_bind]. intros Hclean. apply bind_Ok in Hclean as (u & Hu & [= <-]).
  apply clean_entries_Ok in Hu as (gone & Hbatch & Hgone & Hall). simpl in Hbatch.
  unfold SecretDBUpdate_commit. rewrite Hbatch. destruct (foldl_deletes db col gone) as (Hc & Hk & Ho).
  split; [done|]. split; [done|]. split.
  { intros key ct. rewrite Hk. by case_decide. }
  split.
  { intros key Hr. rewrite Hk. rewrite decide_False; [done|]. intros Hin.
    destruct (Hgone key Hin) as ([k c] & v' & Hkv & Hkey & _). apply elem_of_range in Hkv as [Hkv _].
    simpl in *. congruence. }
  intros key ct Hr Hct. destruct (Hall (key, ct)) as (v & Hp & Hdel); [by apply elem_of_range|].
  exists v. split; [done|]. rewrite Hk. destruct (sub ps v) eqn:Hs.
  - rewrite decide_False; [done|]. intros Hin. destruct (Hgone key Hin) as ([k c] & v' & Hkv & Hkey & Hp' & Hs').
    apply elem_of_range in Hkv as [_ Hkv]. simpl in *. subst k. simplify_eq.
    destruct Hp as (b & Hb & Hv), Hp' as (b' & Hb' & Hv'). simplify_eq. congruence.
  - rewrite decide_True; [done|]. by apply Hdel.
Qed.

Lemma clean_db_Err sub db col ps me domain_id key ct :
  me + 1 ≤ u32_max → own_range me domain_id key = true → db_columns db col !! key = Some ct →
  (∀ v, ¬ parses (db_cipher db) ct v) → ∃ e, clean_db sub db col ps me domain_id = Err e.
Proof.
  intros Hme Hr Hct Hbad. unfold clean_db, own_range in *. rewrite make_prefix_range_eq in *.
  rewrite (proj2 (Z.leb_le _ _) Hme) in *. cbn [mbind result_bind].
  unfold SecretDB_iter_range. set (es := filter _ _).
  destruct (clean_entries_Err (sub ps) col (db_cipher db) es SecretDB_update) as [e He].
  { exists (key, ct). split; [|done]. by apply elem_of_range. }
  exists e. by rewrite He.
Qed.

Lemma clean_db_no_panic sub db col ps me domain_id p :
  me + 1 ≤ u32_max → clean_db sub db col ps me domain_id ≠ Panic p.
Proof.
  intros Hme Hclean. unfold clean_db in Hclean. rewrite make_prefix_range_eq in Hclean.
  rewrite (proj2 (Z.leb_le _ _) Hme) in Hclean. cbn [mbind result_bind] in Hclean.
  unfold SecretDB_iter_range in Hclean.
  match type of Hclean with ?r = _ => assert (Hnp : no_panic r) end.
  { apply bind_no_panic; [apply clean_entries_no_panic|done]. }
  by rewrite Hclean in Hnp.
Qed.
End CleanDb.

(** ** The cleanup as a whole *)

Section CleanupProofs.
Context `{!AesGcm, !AesGcmLaws, !Serde EpochData, !SerdeLaws EpochData}.
Context {PairedTriple PresignOutputWithParticipants : Type}.
Context `{!Serde PairedTriple, !HasParticipants PairedTriple}.
Context `{!Serde PresignOutputWithParticipants, !HasParticipants PresignOutputWithParticipants}.
Implicit Types (db : SecretDB) (ps : list ParticipantId).
Local Abbreviation Tr := PairedTriple.
Local Abbreviation Pre := PresignOutputWithParticipants.

(** The own assets of a column all involve members of [ps] only. *)
Definition only_persistent (T : Type) `{!Serde T, !HasParticipants T} (db : SecretDB) (col : DBCol)
    (me : ParticipantId) (domain_id : option Z) (ps : list ParticipantId) : Prop :=
  ∀ key ct, own_range me domain_id key = true → db_columns db col !! key = Some ct →
  ∃ v : T, parses (db_cipher db) ct v ∧ is_subset_of_active_participants v ps = true.

Lemma clean_db_only_persistent {T : Type} `{!Serde T, !HasParticipants T} db col ps me domain_id db' :
  clean_db (T := T) (λ ps v, is_subset_of_active_participants v ps) db col ps me domain_id = Ok db' →
  only_persistent T db' col me domain_id ps.
Proof.
  intros (Hc & _ & Hsub & _ & Hown)%clean_db_Ok key ct Hr Hct.
  destruct (Hown key ct Hr (Hsub key ct Hct)) as (v & Hp & Hk). exists v. rewrite Hc. split; [done|].
  rewrite Hct in Hk. by destruct (is_subset_of_active_participants v ps).
Qed.

Lemma clean_presignatures_spec db ps me ds db' r :
  clean_presignatures (PresignOutputWithParticipants := Pre) db ps me ds = (db', r) →
  db_cipher db' = db_cipher db ∧
  (∀ col, col ≠ Presignature → db_columns db' col = db_columns db col) ∧
  (∀ key ct, db_columns db' Presignature !! key = Some ct → db_columns db Presignature !! key = Some ct) ∧
  (r = Ok tt → ∀ d, d ∈ ds → only_persistent Pre db' Presignature me (Some d) ps).
Proof.
  revert db. induction ds as [|d ds IH]; intros db; cbn [clean_presignatures].
  { intros [= <- <-]. repeat split; try done. set_solver. }
  destruct (clean_db _ db Presignature ps me (Some d)) as [db1|e|p] eqn:Hclean.
  2,3: intros [= <- <-]; repeat split; done.
  intros Hrec. apply IH in Hrec as (Hc & Hother & Hsub & Hall).
  pose proof (clean_db_only_persistent _ _ _ _ _ _ Hclean) as Hd.
  apply clean_db_Ok in Hclean as (Hc1 & Hother1 & Hsub1 & _).
  split; [congruence|]. split; [intros; rewrite Hother by done; auto|]. split; [auto|].
  intros Hr d' [->|Hin]%elem_of_cons; [|by apply Hall].
  intros key ct Hk Hct. destruct (Hd key ct Hk (Hsub key ct Hct)) as (v & Hp & Hs).
  exists v. by rewrite Hc.
Qed.

(** What is left in the database after each kind of cleanup. *)
Definition cleaned (db db' : SecretDB) (cleanup : AssetCleanup) (me : ParticipantId) (ds : list Z) : Prop :=
  match cleanup with
  | Keep => db_columns db' Triple = db_columns db Triple ∧
            db_columns db' Presignature = db_columns db Presignature
  | DeleteAll => db_columns db' Triple = ∅ ∧ db_columns db' Presignature = ∅
  | KeepOnly ps => only_persistent Tr db' Triple me TRIPLE_STORE_DOMAIN_ID ps ∧
                   ∀ d, d ∈ ds → only_persistent Pre db' Presignature me (Some d) ps
  end.

Lemma clean_assets_spec db cleanup me ds db' :
  clean_assets (PairedTriple := Tr) (PresignOutputWithParticipants := Pre) db cleanup me ds = (db', Ok tt) →
  db_cipher db' = db_cipher db ∧ cleaned db db' cleanup me ds.
Proof.
  destruct cleanup as [| |ps]; cbn [clean_assets].
  - intros [= <-]. done.
  - intros [= <-]. unfold SecretDBUpdate_commit. rewrite !delete_all_batch, app_nil_l, foldl_app.
    destruct (apply_delete_all db db Presignature eq_refl) as (Hc & Hp & Ho).
    destruct (apply_delete_all db (foldl apply_batch_op db (delete_all_ops db Presignature)) Triple)
      as (Hc' & Ht & Ho'); [by apply Ho|].
    split; [congruence|]. split; [done|]. by rewrite Ho'.
  - unfold clean_triples. destruct (clean_db _ db Triple _ _ _) as [db1| |] eqn:Hclean; [|done..].
    intros (Hc & Hother & _ & Hall)%clean_presignatures_spec.
    pose proof (clean_db_only_persistent _ _ _ _ _ _ Hclean) as Ht.
    apply clean_db_Ok in Hclean as (Hc1 & _). split; [congruence|]. split; [|by apply Hall].
    intros key ct Hk Hct. rewrite Hother in Hct by done. rewrite Hc. by apply Ht with key.
Qed.

Lemma store_epoch_data_spec db cur nonce db' :
  length nonce = NONCE_LEN → store_epoch_data db cur nonce = Ok db' →
  get_epoch_data db' = Ok (Some (Current cur)) ∧
  ∀ col, col ≠ Db.EpochData → db_columns db' col = db_columns db col.
Proof.
  intros Hn Hst. unfold store_epoch_data in Hst. apply bind_Ok in Hst as (ser & Hser & Hst).
  apply bind_Ok in Hst as (u & Hu & [= <-]). apply commit_put in Hu as (ct & Hct & Hcommit).
  rewrite Hcommit. split; [|intros; by apply set_column_ne].
  unfold get_epoch_data, SecretDB_get. rewrite set_column_same, lookup_insert_eq. simpl db_cipher.
  rewrite (decrypt_encrypt _ _ _ _ Hn Hct). simpl.
  destruct (serde_to_vec cur) as [b|] eqn:Hb; [|done]. injection Hser as ->.
  by rewrite (serde_from_to cur ser Hb).
Qed.

Lemma store_epoch_data_cipher db cur nonce db' :
  store_epoch_data db cur nonce = Ok db' → db_cipher db' = db_cipher db.
Proof.
  unfold store_epoch_data. intros Hst. apply bind_Ok in Hst as (ser & _ & Hst).
  apply bind_Ok in Hst as (u & Hu & [= <-]). apply commit_put in Hu as (ct & _ & ->). done.
Qed.

Lemma delete_stale_Ok db cur me ds nonce db' :
  length nonce = NONCE_LEN →
  delete_stale_triples_and_presignatures (PairedTriple := Tr) (PresignOutputWithParticipants := Pre)
    db cur me ds nonce = (db', Ok tt) →
  ∃ cleanup, asset_cleanup db cur = Ok cleanup ∧ get_epoch_data db' = Ok (Some (Current cur)) ∧
  cleaned db db' cleanup me ds.
Proof.
  unfold delete_stale_triples_and_presignatures. intros Hn Hdel.
  destruct (asset_cleanup db cur) as [cleanup| |]; [|done..]. exists cleanup. split; [done|].
  destruct (clean_assets db cleanup me ds) as [db1 [[]| |]] eqn:Hclean; [|done..].
  destruct (store_epoch_data db1 cur nonce) as [db2| |] eqn:Hst; [|done..]. injection Hdel as <-.
  pose proof (store_epoch_data_cipher _ _ _ _ Hst) as Hc.
  apply store_epoch_data_spec in Hst as [Hget Hcols]; [|done]. split; [done|].
  apply clean_assets_spec in Hclean as [_ Hcl].
  assert (Ht : db_columns db2 Triple = db_columns db1 Triple) by (by apply Hcols).
  assert (Hp : db_columns db2 Presignature = db_columns db1 Presignature) by (by apply Hcols).
  unfold cleaned, only_persistent in *. rewrite Hc, Ht, Hp. done.
Qed.

(** A participant of the current configuration whose TLS key differs from the
    stored one. *)
Definition key_changed (previous : EpochData) (current : ParticipantInfo) : Prop :=
  ∃ prev, ParticipantsConfig_get_info (ed_participants previous) (pi_id current) = Some prev ∧
  pi_p2p_public_key current ≠ pi_p2p_public_key prev.

Lemma omap_length_lt {A B} (f : A → option B) l x : x ∈ l → f x = None → zlen (omap f l) < zlen l.
Proof.
  unfold zlen. assert (Hle : ∀ l, (length (omap f l) ≤ length l)%nat).
  { clear. induction l as [|y l IH]; csimpl; [lia|]. destruct (f y); csimpl; lia. }
  induction l as [|y l IH]; intros Hin Hx; [set_solver|]. specialize (Hle l). csimpl.
  apply elem_of_cons in Hin as [->|Hin]; [rewrite Hx; lia|].
  specialize (IH Hin Hx). destruct (f y); csimpl; lia.
Qed.

Lemma get_info_id c id info : ParticipantsConfig_get_info c id = Some info → pi_id info = id.
Proof. unfold ParticipantsConfig_get_info. intros Hf. apply find_Some in Hf as [_ Heq]. by apply Z.eqb_eq. Qed.

Lemma cleanup_behavior_changed previous current changed :
  ed_epoch_id previous = ed_epoch_id current →
  changed ∈ pc_participants (ed_participants current) → key_changed previous changed →
  ∃ ps, cleanup_behavior previous current = KeepOnly ps ∧
  ∀ p, p ∈ ps → ∃ info, info ∈ pc_participants (ed_participants current) ∧ pi_id info = p ∧
    ¬ key_changed previous info.
Proof.
  intros He Hin (prev & Hprev & Hkey). unfold cleanup_behavior. rewrite He, Z.eqb_refl. cbn [negb].
  set (f := λ current, match ParticipantsConfig_get_info (ed_participants previous) (pi_id current) with
    | Some prev => _ | None => _ end).
  assert (Hlt := omap_length_lt f _ changed Hin). rewrite (proj2 (Z.eqb_neq _ _)).
  2: { unfold f in Hlt. rewrite Hprev in Hlt. rewrite bool_decide_false in Hlt by done.
       specialize (Hlt eq_refl). fold f in Hlt. lia. }
  eexists. split; [done|]. intros p (info & Hinfo & Hf)%list_elem_of_omap. exists info.
  split; [done|]. subst f. cbv beta in Hf. split.
  - clear Hlt. destruct (ParticipantsConfig_get_info _ (pi_id info)) as [i|] eqn:Hi; [|congruence].
    case_bool_decide; [|done]. injection Hf as <-. symmetry. by eapply get_info_id.
  - intros (prev' & Hprev' & Hne). rewrite Hprev', bool_decide_false in Hf by done. done.
Qed.

(** C24: when the cleanup of stored assets succeeds, the database records the current
    epoch data, and: after an epoch change no triple and no presignature is left; in
    the same epoch, if some participant has a new TLS key, each triple and each
    presignature of the node's own that is left involves only participants of the
    current configuration whose key did not change. *)
Theorem cleanup_removes_stale_assets db previous current me ds nonce db' :
  length nonce = NONCE_LEN →
  get_epoch_data db = Ok (Some (Current previous)) →
  delete_stale_triples_and_presignatures (PairedTriple := Tr) (PresignOutputWithParticipants := Pre)
    db current me ds nonce = (db', Ok tt) →
  get_epoch_data db' = Ok (Some (Current current)) ∧
  (ed_epoch_id previous ≠ ed_epoch_id current →
   db_columns db' Triple = ∅ ∧ db_columns db' Presignature = ∅) ∧
  (ed_epoch_id previous = ed_epoch_id current →
   (∃ changed, changed ∈ pc_participants (ed_participants current) ∧ key_changed previous changed) →
   ∃ ps, (∀ p, p ∈ ps → ∃ info, info ∈ pc_participants (ed_participants current) ∧ pi_id info = p ∧
            ¬ key_changed previous info) ∧
     only_persistent Tr db' Triple me TRIPLE_STORE_DOMAIN_ID ps ∧
     ∀ d, d ∈ ds → only_persistent Pre db' Presignature me (Some d) ps).
Proof.
  intros Hn Hprev (cleanup & Hcl & Hget & Hdone)%delete_stale_Ok; [|done].
  unfold asset_cleanup in Hcl. rewrite Hprev in Hcl. injection Hcl as <-. split; [done|]. split.
  - intros Hne. unfold cleanup_behavior in Hdone. by rewrite (proj2 (Z.eqb_neq _ _) Hne) in Hdone.
  - intros He (changed & Hin & Hch).
    destruct (cleanup_behavior_changed _ _ _ He Hin Hch) as (ps & Hps & Hall).
    rewrite Hps in Hdone. by exists ps.
Qed.

Lemma clean_presignatures_stuck db ps me ds d key ct :
  me + 1 ≤ u32_max → d ∈ ds → own_range me (Some d) key = true →
  db_columns db Presignature !! key = Some ct → (∀ v : Pre, ¬ parses (db_cipher db) ct v) →
  ∃ db' e, clean_presignatures (PresignOutputWithParticipants := Pre) db ps me ds = (db', Err e) ∧
  db_columns db' Presignature !! key = Some ct.
Proof.
  intros Hme. revert db. induction ds as [|d' ds IH]; intros db Hd Hr Hct Hbad; [set_solver|].
  cbn [clean_presignatures]. destruct (own_range me (Some d') key) eqn:Hr'.
  { destruct (clean_db_Err (T := Pre) (λ ps v, is_subset_of_active_participants v ps)
      db Presignature ps me (Some d') key ct) as [e He]; [done..|].
    rewrite He. by exists db, e. }
  destruct (clean_db _ db Presignature ps me (Some d')) as [db1|e|p] eqn:Hclean.
  - apply clean_db_Ok in Hclean as (Hc & _ & _ & Hout & _). apply IH; [|done| |].
    + apply elem_of_cons in Hd as [->|]; [congruence|done].
    + by rewrite Hout.
    + by rewrite Hc.
  - by exists db, e.
  - exfalso. eapply (clean_db_no_panic (T := Pre)); [exact Hme|exact Hclean].
Qed.

(** A presignature of one of the listed domains that does not parse as an
    OT-based ECDSA presignature, which is what a robust ECDSA domain stores in the
    same column, makes the cleanup after a TLS key change fail: the epoch data is
    not updated and the entry stays, so the next attempt fails in the same way. *)
Theorem foreign_presignature_blocks_cleanup db previous current changed me ds nonce d key ct :
  me + 1 ≤ u32_max → get_epoch_data db = Ok (Some (Current previous)) →
  ed_epoch_id previous = ed_epoch_id current →
  changed ∈ pc_participants (ed_participants current) → key_changed previous changed →
  d ∈ ds → own_range me (Some d) key = true →
  db_columns db Presignature !! key = Some ct → (∀ v : Pre, ¬ parses (db_cipher db) ct v) →
  ∃ db' e, delete_stale_triples_and_presignatures (PairedTriple := Tr)
      (PresignOutputWithParticipants := Pre) db current me ds nonce = (db', Err e) ∧
    get_epoch_data db' = Ok (Some (Current previous)) ∧ db_columns db' Presignature !! key = Some ct.
Proof.
  intros Hme Hprev He Hin Hch Hd Hr Hct Hbad.
  destruct (cleanup_behavior_changed _ _ _ He Hin Hch) as (ps & Hps & _).
  unfold delete_stale_triples_and_presignatures, asset_cleanup. rewrite Hprev.
  cbn [mbind result_bind]. rewrite Hps. cbn [clean_assets].
  destruct (clean_triples db ps me) as [db1|e|p] eqn:Hclean.
  - apply clean_db_Ok in Hclean as (Hc & Hother & _).
    destruct (clean_presignatures_stuck db1 ps me ds d key ct) as (db' & e & Hstuck & Hct');
      [done..|by rewrite Hother|by rewrite Hc|].
    rewrite Hstuck. exists db', e. split; [done|]. split; [|done].
    apply clean_presignatures_spec in Hstuck as (Hc' & Hother' & _).
    unfold get_epoch_data, SecretDB_get in *. by rewrite Hother', Hother, Hc', Hc.
  - by exists db, e.
  - exfalso. eapply (clean_db_no_panic (T := Tr)); [exact Hme|exact Hclean].
Qed.
End CleanupProofs.

(** ** An example

    A cipher that changes nothing, an encoding of configurations of one participant,
    and assets that involve the participant of their number only. *)

#[local] Instance plain_aes : AesGcm := {|
  aes_encrypt _ _ plaintext := Some plaintext;
  aes_decrypt _ _ ciphertext := Some ciphertext;
|}.

#[local] Instance plain_aes_laws : AesGcmLaws.
Proof. split. intros key nonce plaintext ciphertext [= ->]. done. Qed.

#[local] Instance number_serde : Serde Z := {|
  serde_to_vec v := Some [v];
  serde_from_slice b := match b with [v] => Some v | _ => None end;
|}.

#[local] Instance number_participants : HasParticipants Z := λ v ps, bool_decide (v ∈ ps).

Definition one_participant (epoch threshold id key : Z) : EpochData :=
  mkEpochData epoch (mkParticipantsConfig threshold
    [mkParticipantInfo id EmptyString 0 [key] EmptyString]).

#[local] Instance epoch_serde : Serde EpochData := {|
  serde_to_vec v := match v with
    | mkEpochData e (mkParticipantsConfig t [mkParticipantInfo id EmptyString 0 [k] EmptyString]) =>
      Some [e; t; id; k]
    | _ => None
    end;
  serde_from_slice b := match b with [e; t; id; k] => Some (one_participant e t id k) | _ => None end;
|}.

#[local] Instance epoch_serde_laws : SerdeLaws EpochData.
Proof.
  split. intros [e [t [|[id [|] [| |] [|k [|]] [|]] [|]]]] b Hb; simpl in Hb; simplify_eq; done.
Qed.

Definition zero_nonce : bytes := replicate NONCE_LEN 0.

Definition previous_epoch : EpochData := one_participant 1 1 3 10.

(** A triple and a presignature of participant 7 that involve participant 3, and an
    epoch entry. The presignature is given as its plaintext. *)
Definition stale_key (domain_id : option Z) : bytes := make_key domain_id (UniqueId_new 7 5 0).
Definition stale_db (presignature : bytes) : SecretDB := mkSecretDB (λ col, match col with
  | Triple => {[ stale_key None := zero_nonce ++ [3] ]}
  | Presignature => {[ stale_key (Some 1) := zero_nonce ++ presignature ]}
  | Db.EpochData => {[ EPOCH_ID_KEY := zero_nonce ++ [1; 1; 3; 10] ]}
  | _ => ∅
  end) [].

Definition stale_cleaned (current : EpochData) : SecretDB :=
  (delete_stale_triples_and_presignatures (PairedTriple := Z) (PresignOutputWithParticipants := Z)
    (stale_db [3]) current 7 [1] zero_nonce).1.

Lemma cleanup_removes_stale_assets_witness :
  get_epoch_data (stale_cleaned (one_participant 1 1 3 11)) = Ok (Some (Current (one_participant 1 1 3 11))) ∧
  ∃ ps, only_persistent Z (stale_cleaned (one_participant 1 1 3 11)) Triple 7 TRIPLE_STORE_DOMAIN_ID ps.
Proof.
  destruct (cleanup_removes_stale_assets (PairedTriple := Z) (PresignOutputWithParticipants := Z)
    (stale_db [3]) previous_epoch (one_participant 1 1 3 11) 7 [1] zero_nonce
    (stale_cleaned (one_participant 1 1 3 11))) as (Hget & _ & Hkeep).
  - reflexivity.
  - vm_compute. reflexivity.
  - vm_compute. reflexivity.
  - split; [exact Hget|]. destruct Hkeep as (ps & _ & Ht & _); [reflexivity| |exists ps; exact Ht].
    exists (mkParticipantInfo 3 EmptyString 0 [11] EmptyString). split; [apply list_elem_of_here|].
    exists (mkParticipantInfo 3 EmptyString 0 [10] EmptyString). split; [reflexivity|done].
Defined.

Lemma foreign_presignature_blocks_cleanup_witness :
  ∃ db' e, delete_stale_triples_and_presignatures (PairedTriple := Z)
      (PresignOutputWithParticipants := Z) (stale_db []) (one_participant 1 1 3 11) 7 [1] zero_nonce
      = (db', Err e) ∧
    get_epoch_data db' = Ok (Some (Current previous_epoch)) ∧
    db_columns db' Presignature !! stale_key (Some 1) = Some (zero_nonce ++ []).
Proof.
  apply (foreign_presignature_blocks_cleanup (PairedTriple := Z) (PresignOutputWithParticipants := Z)
    (stale_db []) previous_epoch (one_participant 1 1 3 11)
    (mkParticipantInfo 3 EmptyString 0 [11] EmptyString) 7 [1] zero_nonce 1).
  - vm_compute. discriminate.
  - vm_compute. reflexivity.
  - reflexivity.
  - apply list_elem_of_here.
  - exists (mkParticipantInfo 3 EmptyString 0 [10] EmptyString). split; [reflexivity|done].
  - apply list_elem_of_here.
  - vm_compute. reflexivity.
  - vm_compute. reflexivity.
  - intros v (b & Hb & Hv). vm_compute in Hb. injection Hb as <-. discriminate Hv.
Defined.
