(* ===== verification/RecentBlocks.v ===== *)
(** * Node: the tree of recent blocks

    [node/src/requests/recent_blocks_tracker.rs]. The nodes of the tree are shared and
    mutated through [Arc]s, so they live in a store here: an [Arc<BlockNode>] is an index
    of the list [heap], which only grows. A node is created after its parent, so that
    parents have smaller indices; the loops along [parent] are bounded by the index they
    start from and the recursion along [children] by the size of the store. *)

From S2P Require Import Prelude Types NodePrimitives.

Abbreviation CryptoHash := Z (only parsing).
Abbreviation BlockHeight := Z (only parsing).
Abbreviation Arc := nat (only parsing).

Record BlockNode : Type := mkBlockNode {
  bn_hash : CryptoHash;
  bn_height : BlockHeight;
  bn_canonical : bool;
  bn_is_final : bool;
  bn_parent : option Arc;
  bn_children : list Arc;
}.

#[export] Instance BlockNode_inhabited : Inhabited BlockNode :=
  populate (mkBlockNode 0 0 false false None []).

Abbreviation Heap := (list BlockNode).

Record BlockViewLite : Type := mkBlockViewLite {
  bv_hash : CryptoHash;
  bv_height : BlockHeight;
  bv_prev_hash : CryptoHash;
  bv_last_final_block : CryptoHash;
}.

Record RecentBlocksTracker (T : Type) : Type := mkRecentBlocksTracker {
  window_size : Z;
  root_children : list Arc;
  canonical_head : option Arc;
  final_head : option Arc;
  maximum_height_available : BlockHeight;
  hash_to_node : gmap CryptoHash Arc;
  node_to_content : gmap CryptoHash T;
  heap : Heap;
}.
#[global] Arguments mkRecentBlocksTracker {T} _ _ _ _ _ _ _ _.
#[global] Arguments window_size {T} _.
#[global] Arguments root_children {T} _.
#[global] Arguments canonical_head {T} _.
#[global] Arguments final_head {T} _.
#[global] Arguments maximum_height_available {T} _.
#[global] Arguments hash_to_node {T} _.
#[global] Arguments node_to_content {T} _.
#[global] Arguments heap {T} _.

Inductive CheckBlockResult : Type :=
  | OlderThanRecentWindow
  | RecentAndFinal
  | NotIncluded
  | OptimisticAndCanonical
  | OptimisticButNotCanonical
  | Unknown.

(** ** Writes to the cells of a node *)

Definition store_canonical (b : bool) (n : BlockNode) : BlockNode :=
  mkBlockNode (bn_hash n) (bn_height n) b (bn_is_final n) (bn_parent n) (bn_children n).
Definition store_final (b : bool) (n : BlockNode) : BlockNode :=
  mkBlockNode (bn_hash n) (bn_height n) (bn_canonical n) b (bn_parent n) (bn_children n).
Definition store_parent (p : option Arc) (n : BlockNode) : BlockNode :=
  mkBlockNode (bn_hash n) (bn_height n) (bn_canonical n) (bn_is_final n) p (bn_children n).
Definition push_child (c : Arc) (n : BlockNode) : BlockNode :=
  mkBlockNode (bn_hash n) (bn_height n) (bn_canonical n) (bn_is_final n) (bn_parent n)
    (bn_children n ++ [c]).

(** ** [BlockNode] *)

(** The closest descendants of [node] of at least the given height, and the lower nodes
    above them. *)
Fixpoint closest_descendants_with_height_at_least (fuel : nat) (h : Heap) (node : Arc) (height : Z)
    (descendants_output old_nodes : list Arc) : list Arc * list Arc :=
  match fuel with
  | O => (descendants_output, old_nodes)
  | S fuel =>
    if height <=? bn_height (h !!! node) then (descendants_output ++ [node], old_nodes)
    else
      foldl (λ acc child,
          closest_descendants_with_height_at_least fuel h child height acc.1 acc.2)
        (descendants_output, old_nodes ++ [node]) (bn_children (h !!! node))
  end.

(** ** [RecentBlocksTracker] *)

Section Tracker.
Context {T : Type}.
Implicit Types (t : RecentBlocksTracker T).

Definition RecentBlocksTracker_new (window_size : Z) : RecentBlocksTracker T :=
  mkRecentBlocksTracker window_size [] None None 0 ∅ ∅ [].

Definition set_heap (t : RecentBlocksTracker T) (h : Heap) : RecentBlocksTracker T :=
  mkRecentBlocksTracker (window_size t) (root_children t) (canonical_head t) (final_head t)
    (maximum_height_available t) (hash_to_node t) (node_to_content t) h.
Definition set_final_head (t : RecentBlocksTracker T) (f : option Arc) : RecentBlocksTracker T :=
  mkRecentBlocksTracker (window_size t) (root_children t) (canonical_head t) f
    (maximum_height_available t) (hash_to_node t) (node_to_content t) (heap t).
Definition set_canonical_head (t : RecentBlocksTracker T) (c : option Arc) : RecentBlocksTracker T :=
  mkRecentBlocksTracker (window_size t) (root_children t) c (final_head t)
    (maximum_height_available t) (hash_to_node t) (node_to_content t) (heap t).
Definition set_maximum_height (t : RecentBlocksTracker T) (m : Z) : RecentBlocksTracker T :=
  mkRecentBlocksTracker (window_size t) (root_children t) (canonical_head t) (final_head t) m
    (hash_to_node t) (node_to_content t) (heap t).

(** The loop of [maybe_update_final_head]: marks a node and its ancestors final up to
    the first that is, and collects them. *)
Fixpoint mark_final (fuel : nat) (h : Heap) (node : Arc) (new_final_blocks : list Arc) :
    Heap * list Arc :=
  match fuel with
  | O => (h, new_final_blocks)
  | S fuel =>
    if bn_is_final (h !!! node) then (h, new_final_blocks)
    else
      let h := alter (store_final true) node h in
      let new_final_blocks := new_final_blocks ++ [node] in
      match bn_parent (h !!! node) with
      | None => (h, new_final_blocks)
      | Some parent => mark_final fuel h parent new_final_blocks
      end
  end.

Definition maybe_update_final_head (t : RecentBlocksTracker T) (potential_final_head : CryptoHash) :
    RecentBlocksTracker T * list Arc :=
  match hash_to_node t !! potential_final_head with
  | None => (t, [])
  | Some final_head_node =>
    let '(h, new_final_blocks) := mark_final (S final_head_node) (heap t) final_head_node [] in
    let t := set_heap t h in
    let t :=
      if match final_head t with
         | None => true
         | Some prev_final_head =>
           bn_height (h !!! prev_final_head) <? bn_height (h !!! final_head_node)
         end
      then set_final_head t (Some final_head_node) else t in
    (t, reverse new_final_blocks)
  end.

(** The first loop of [update_canonical_head]; returns the common ancestor. *)
Fixpoint mark_canonical (fuel : nat) (h : Heap) (node : option Arc) : Heap * option Arc :=
  match fuel, node with
  | S fuel, Some current_node =>
    if bn_canonical (h !!! current_node) then (h, Some current_node)
    else
      let h := alter (store_canonical true) current_node h in
      mark_canonical fuel h (bn_parent (h !!! current_node))
  | _, _ => (h, node)
  end.

(** The second loop. *)
Fixpoint unmark_canonical (fuel : nat) (h : Heap) (common_ancestor old_node : option Arc) : Heap :=
  match fuel, old_node with
  | S fuel, Some current_node =>
    if bool_decide (common_ancestor = Some current_node) then h
    else
      let h := alter (store_canonical false) current_node h in
      unmark_canonical fuel h common_ancestor (bn_parent (h !!! current_node))
  | _, _ => h
  end.

(** A bound on the length of the parent chain from a node. *)
Definition chain_fuel (node : option Arc) : nat := match node with Some a => S (S a) | None => 1%nat end.

Definition update_canonical_head (t : RecentBlocksTracker T) (new_canonical_head : Arc) :
    RecentBlocksTracker T :=
  let '(h, common_ancestor) :=
    mark_canonical (chain_fuel (Some new_canonical_head)) (heap t) (Some new_canonical_head) in
  let h := unmark_canonical (chain_fuel (canonical_head t)) h common_ancestor (canonical_head t) in
  set_canonical_head (set_heap t h) (Some new_canonical_head).

(** [maximum_height_available.saturating_sub(window_size).add(1)]. *)
Definition window_start (t : RecentBlocksTracker T) : result string Z :=
  let start := Z.max 0 (maximum_height_available t - window_size t) in
  if start + 1 <=? u64_max then Ok (start + 1) else Panic add_overflow.

Definition minimum_height_to_keep (t : RecentBlocksTracker T) : result string (option Z) :=
  match final_head t with
  | None => Ok None
  | Some final_head => start ← window_start t; Ok (Some (Z.min start (bn_height (heap t !!! final_head))))
  end.

Definition prune_old_blocks (t : RecentBlocksTracker T) : result string (RecentBlocksTracker T) :=
  minimum ← minimum_height_to_keep t;
  match minimum with
  | None => Ok t
  | Some minimum_height_to_keep =>
    let heights := (λ child, bn_height (heap t !!! child)) <$> root_children t in
    let lowest := match heights with [] => 0 | x :: heights => foldl Z.min x heights end in
    if minimum_height_to_keep <=? lowest then Ok t
    else
      let '(new_root_children, old_nodes) :=
        foldl (λ acc child, closest_descendants_with_height_at_least (length (heap t)) (heap t)
            child minimum_height_to_keep acc.1 acc.2) ([], []) (root_children t) in
      let h := foldl (λ h child, alter (store_parent None) child h) (heap t) new_root_children in
      let old_hashes := (λ old_node, bn_hash (heap t !!! old_node)) <$> old_nodes in
      Ok (mkRecentBlocksTracker (window_size t) new_root_children (canonical_head t) (final_head t)
        (maximum_height_available t)
        (foldl (λ m hash, delete hash m) (hash_to_node t) old_hashes)
        (foldl (λ m hash, delete hash m) (node_to_content t) old_hashes) h)
  end.

(** The new node, in the store, the maps and its parent or the root. *)
Definition insert_node (t : RecentBlocksTracker T) (block : BlockViewLite) (content : T) :
    RecentBlocksTracker T * Arc :=
  let parent := hash_to_node t !! bv_prev_hash block in
  let node := length (heap t) in
  let h := heap t ++ [mkBlockNode (bv_hash block) (bv_height block) false false parent []] in
  (mkRecentBlocksTracker (window_size t)
    (match parent with Some _ => root_children t | None => root_children t ++ [node] end)
    (canonical_head t) (final_head t) (maximum_height_available t)
    (<[bv_hash block := node]> (hash_to_node t)) (<[bv_hash block := content]> (node_to_content t))
    (match parent with Some parent => alter (push_child node) parent h | None => h end),
   node).

Definition final_content (t : RecentBlocksTracker T) (node : Arc) : option (Z * T) :=
  content ← node_to_content t !! bn_hash (heap t !!! node);
  Some (bn_height (heap t !!! node), content).

Definition add_block (t : RecentBlocksTracker T) (block : BlockViewLite) (content : T) :
    result string (RecentBlocksTracker T * list (Z * T)) :=
  match hash_to_node t !! bv_hash block with
  | Some _ => Err "Block already exists in the tracker"
  | None =>
    let '(t, node) := insert_node t block content in
    let '(t, new_final_blocks) := maybe_update_final_head t (bv_last_final_block block) in
    let new_final_blocks := omap (final_content t) new_final_blocks in
    let t :=
      match canonical_head t with
      | None => update_canonical_head t node
      | Some canonical_head =>
        if bn_height (heap t !!! canonical_head) <? bv_height block then update_canonical_head t node
        else t
      end in
    let t :=
      if maximum_height_available t <? bv_height block then set_maximum_height t (bv_height block)
      else t in
    t ← prune_old_blocks t;
    Ok (t, new_final_blocks)
  end.

Definition notify_maximum_height_available (t : RecentBlocksTracker T) (height : Z) :
    result string (RecentBlocksTracker T) :=
  if maximum_height_available t <? height then prune_old_blocks (set_maximum_height t height)
  else Ok t.

Definition classify_block (t : RecentBlocksTracker T) (block_hash : CryptoHash) (block_height : Z) :
    result string CheckBlockResult :=
  start ← window_start t;
  if block_height <? start then Ok OlderThanRecentWindow
  else
    match hash_to_node t !! block_hash with
    | Some node =>
      if bn_is_final (heap t !!! node) then Ok RecentAndFinal
      else if match final_head t with
              | Some final_head => block_height <=? bn_height (heap t !!! final_head)
              | None => false
              end then Ok NotIncluded
      else if bn_canonical (heap t !!! node) then Ok OptimisticAndCanonical
      else Ok OptimisticButNotCanonical
    | None => Ok Unknown
    end.
End Tracker.
