(* ===== verification/RecentBlocksProofs.v ===== *)
(** * Node: the invariant of the tree of recent blocks

    What holds of the tracker whatever blocks it is given: the nodes that its map knows
    form a forest, the loops along the parents reach their end, the canonical flags are
    those of the chain of the highest block, and pruning cuts the forest at one height. *)

From S2P Require Import Prelude Types NodePrimitives RecentBlocks.

(** ** Walking up the parents *)

Definition par (h : Heap) (a b : Arc) : Prop := ∃ n, h !! a = Some n ∧ bn_parent n = Some b.

(** Every node is younger than its parent. *)
Definition older_parents (h : Heap) : Prop := ∀ a b, par h a b → (b < a)%nat.

(** The nodes from [o] upwards before the first at which [stop] holds, and that one. *)
Inductive walk (h : Heap) (stop : Arc → bool) : option Arc → list Arc → option Arc → Prop :=
  | walk_none : walk h stop None [] None
  | walk_stop a : stop a = true → walk h stop (Some a) [] (Some a)
  | walk_step a n l e : h !! a = Some n → stop a = false → walk h stop (bn_parent n) l e →
      walk h stop (Some a) (a :: l) e.

Definition in_heap (h : Heap) (o : option Arc) : Prop :=
  match o with Some a => (a < length h)%nat | None => True end.

Lemma walk_total h stop o : older_parents h → in_heap h o → ∃ l e, walk h stop o l e.
Proof.
  intros Hold. destruct o as [a|]; [|by repeat econstructor].
  induction (lt_wf a) as [a _ IH]. intros Ha. destruct (stop a) eqn:Hs; [by repeat econstructor|].
  destruct (lookup_lt_is_Some_2 h a Ha) as [n Hn]. destruct (bn_parent n) as [p|] eqn:Hp.
  - assert (Hlt : (p < a)%nat) by (apply Hold; by exists n).
    destruct (IH p Hlt) as (l & e & Hw); [simpl in *; lia|].
    exists (a :: l), e. apply walk_step with n; [done..|by rewrite Hp].
  - exists [a], None. apply walk_step with n; [done..|]. rewrite Hp. constructor.
Qed.

Lemma walk_le h stop a l e : older_parents h → walk h stop (Some a) l e → ∀ x, x ∈ l → (x ≤ a)%nat.
Proof.
  intros Hold. revert l. induction (lt_wf a) as [a _ IH]. intros l Hw. inversion Hw as [|? Hs|? n l' ? Hn Hs Hw']; subst.
  { set_solver. }
  intros x [->|Hx]%elem_of_cons; [lia|]. destruct (bn_parent n) as [p|] eqn:Hp.
  - assert (Hlt : (p < a)%nat) by (apply Hold; by exists n).
    specialize (IH p Hlt l' Hw' x Hx). lia.
  - inversion Hw'; subst. set_solver.
Qed.

Lemma walk_end h stop o l e : walk h stop o l e → match e with Some a => stop a = true | None => True end.
Proof. by induction 1. Qed.

Lemma walk_not_stop h stop o l e x : walk h stop o l e → x ∈ l → stop x = false.
Proof. induction 1; set_solver. Qed.

(** The walk reads nothing but the nodes below its start. *)
Lemma walk_ext h h' stop stop' o l e m :
  older_parents h → walk h stop o l e → (∀ a, o = Some a → (a < m)%nat) →
  (∀ a, (a < m)%nat → stop' a = stop a ∧ bn_parent <$> h' !! a = bn_parent <$> h !! a) →
  walk h' stop' o l e.
Proof.
  intros Hold. revert m. induction 1 as [|a Hs|a n l e Hn Hs Hw IH]; intros Hm Hag.
  - constructor.
  - constructor. destruct (Hag a) as [-> _]; auto.
  - destruct (Hag a) as [Hst Hpar]; [auto|]. rewrite Hn in Hpar.
    destruct (h' !! a) as [n'|] eqn:Hn'; [|done]. injection Hpar as Hpar.
    apply walk_step with n'; [done|congruence|]. rewrite Hpar. apply IH; [|done].
    intros b Hb. assert (Hlt : (b < a)%nat) by (apply Hold; by exists n).
    specialize (Hm a eq_refl). lia.
Qed.

Lemma walk_length h stop a l e : older_parents h → walk h stop (Some a) l e → (length l ≤ S a)%nat.
Proof.
  intros Hold. revert l. induction (lt_wf a) as [a _ IH]. intros l Hw.
  inversion Hw as [|? Hs|? n l' ? Hn Hs Hw']; subst; simpl; [lia|].
  destruct (bn_parent n) as [p|] eqn:Hp; [|inversion Hw'; simpl; lia].
  assert (Hlt : (p < a)%nat) by (apply Hold; by exists n). specialize (IH p Hlt l' Hw'). lia.
Qed.

(** ** Stores to several nodes *)

Definition store_all (f : BlockNode → BlockNode) (l : list Arc) (h : Heap) : Heap :=
  foldl (λ h a, alter f a h) h l.

Lemma store_all_length f l h : length (store_all f l h) = length h.
Proof. revert h. induction l as [|a l IH]; intros h; [done|]. simpl. by rewrite IH, length_alter. Qed.

Lemma store_all_lookup f l h a :
  (∀ n, f (f n) = f n) → store_all f l h !! a = if decide (a ∈ l) then f <$> h !! a else h !! a.
Proof.
  intros Hf. revert h. induction l as [|b l IH]; intros h; [by rewrite decide_False by set_solver|].
  simpl. rewrite IH. destruct (decide (a = b)) as [->|Hne].
  - rewrite list_lookup_alter_eq. destruct (decide (b ∈ b :: l)); [|set_solver].
    destruct (decide (b ∈ l)), (h !! b); simpl; by rewrite ?Hf.
  - rewrite list_lookup_alter_ne by done. by destruct (decide (a ∈ l)), (decide (a ∈ b :: l)); set_solver.
Qed.

Lemma lookup_total_alter_ne (f : BlockNode → BlockNode) a b (h : Heap) :
  a ≠ b → alter f a h !!! b = h !!! b.
Proof. intros Hne. by rewrite !list_lookup_total_alt, list_lookup_alter_ne. Qed.

Lemma older_parents_alter f a h :
  (∀ n, bn_parent (f n) = bn_parent n) → older_parents h → older_parents (alter f a h).
Proof.
  intros Hf Hold x y (n & Hn & Hp). apply Hold. destruct (decide (x = a)) as [->|Hne].
  - rewrite list_lookup_alter_eq in Hn. destruct (h !! a) as [n0|] eqn:Hn0; [|done].
    injection Hn as <-. exists n0. by rewrite <-Hf.
  - rewrite list_lookup_alter_ne in Hn by done. by exists n.
Qed.

(** After a store to the start of the walk the rest of the walk is the same. *)
Lemma walk_after_store h f (stop : Heap → Arc → bool) a n l e :
  (∀ n, bn_parent (f n) = bn_parent n) → older_parents h → h !! a = Some n →
  (∀ b, a ≠ b → stop (alter f a h) b = stop h b) →
  walk h (stop h) (bn_parent n) l e →
  walk (alter f a h) (stop (alter f a h)) (bn_parent n) l e.
Proof.
  intros Hf Hold Hn Hstop Hw. eapply (walk_ext h _ (stop h) _ _ _ _ a); [done|done| |].
  - intros b Hb. apply Hold. by exists n.
  - intros b Hb. rewrite Hstop by lia. by rewrite list_lookup_alter_ne by lia.
Qed.

Definition final_in (h : Heap) (a : Arc) : bool := bn_is_final (h !!! a).
Definition canonical_in (h : Heap) (a : Arc) : bool := bn_canonical (h !!! a).

Lemma mark_final_walk fuel h a l e acc :
  older_parents h → walk h (final_in h) (Some a) l e → (S a ≤ fuel)%nat →
  mark_final fuel h a acc = (store_all (store_final true) l h, acc ++ l).
Proof.
  revert h a l acc. induction fuel as [|fuel IH]; intros h a l acc Hold Hw Hfuel; [lia|].
  cbn [mark_final]. change (bn_is_final (h !!! a)) with (final_in h a).
  inversion Hw as [|? Hs|? n l' ? Hn Hs Hw']; subst; rewrite Hs; [by rewrite app_nil_r|].
  rewrite (list_lookup_total_correct _ a (store_final true n)) by (by rewrite list_lookup_alter_eq, Hn).
  simpl bn_parent. destruct (bn_parent n) as [p|] eqn:Hp.
  - rewrite (IH _ p l'); [simpl; by rewrite <-app_assoc| | |].
    + by apply older_parents_alter.
    + rewrite <-Hp. apply walk_after_store; [done|done|done| |by rewrite Hp].
      intros b Hb. unfold final_in. by rewrite lookup_total_alter_ne.
    + assert (p < a)%nat by (apply Hold; by exists n). lia.
  - inversion Hw'; subst. done.
Qed.

Lemma mark_canonical_walk fuel h a l e :
  older_parents h → walk h (canonical_in h) a l e → (chain_fuel a ≤ fuel)%nat →
  mark_canonical fuel h a = (store_all (store_canonical true) l h, e).
Proof.
  revert h a l. induction fuel as [|fuel IH]; intros h a l Hold Hw Hfuel; [destruct a; simpl in *; lia|].
  destruct a as [a|]; [|by inversion Hw]. cbn [mark_canonical].
  change (bn_canonical (h !!! a)) with (canonical_in h a).
  inversion Hw as [|? Hs|? n l' ? Hn Hs Hw']; subst; rewrite Hs; [done|].
  rewrite (list_lookup_total_correct _ a (store_canonical true n)) by (by rewrite list_lookup_alter_eq, Hn).
  simpl bn_parent. rewrite (IH _ _ l'); [done|..].
  - by apply older_parents_alter.
  - apply walk_after_store; [done|done|done| |done].
    intros b Hb. unfold canonical_in. by rewrite lookup_total_alter_ne.
  - destruct (bn_parent n) as [p|] eqn:Hp; simpl in *; [|lia].
    assert (p < a)%nat by (apply Hold; by exists n). lia.
Qed.

Lemma unmark_canonical_walk fuel h (common : option Arc) a l e :
  older_parents h → walk h (λ x, bool_decide (common = Some x)) a l e → (chain_fuel a ≤ fuel)%nat →
  unmark_canonical fuel h common a = store_all (store_canonical false) l h.
Proof.
  revert h a l. induction fuel as [|fuel IH]; intros h a l Hold Hw Hfuel; [destruct a; simpl in *; lia|].
  destruct a as [a|]; [|by inversion Hw]. cbn [unmark_canonical].
  inversion Hw as [|? Hs|? n l' ? Hn Hs Hw']; subst; rewrite Hs; [done|].
  rewrite (list_lookup_total_correct _ a (store_canonical false n)) by (by rewrite list_lookup_alter_eq, Hn).
  simpl bn_parent. rewrite (IH _ _ l'); [done|..].
  - by apply older_parents_alter.
  - by apply (walk_after_store h _ (λ _ x, bool_decide (common = Some x))).
  - destruct (bn_parent n) as [p|] eqn:Hp; simpl in *; [|lia].
    assert (p < a)%nat by (apply Hold; by exists n). lia.
Qed.

(** ** The walk and the ancestors *)

(** [anc h a b]: [b] is [a] or an ancestor of it. *)
Definition anc (h : Heap) : Arc → Arc → Prop := rtc (par h).

Lemma par_fun h a b c : par h a b → par h a c → b = c.
Proof. intros (n & Hn & Hb) (n' & Hn' & Hc). simplify_eq. congruence. Qed.

Lemma anc_le h a b : older_parents h → anc h a b → (b ≤ a)%nat.
Proof. intros Hold. induction 1 as [|x y z Hp _ IH]; [lia|]. specialize (Hold _ _ Hp). lia. Qed.

Lemma anc_antisym h a b : older_parents h → anc h a b → anc h b a → a = b.
Proof. intros Hold Ha Hb. apply (anc_le _ _ _ Hold) in Ha, Hb. lia. Qed.

(** The ancestors of a node are linearly ordered. *)
Lemma anc_linear h a b c : anc h a b → anc h a c → anc h b c ∨ anc h c b.
Proof.
  induction 1 as [|x y z Hp Hyz IH]; [auto|]. intros Hxc.
  inversion Hxc as [|? y' ? Hp' Hy'c]; subst; [right; by eapply rtc_l|].
  rewrite (par_fun _ _ _ _ Hp' Hp) in Hy'c. auto.
Qed.

Lemma walk_anc h stop a l e x : walk h stop (Some a) l e → x ∈ l ∨ e = Some x → anc h a x.
Proof.
  remember (Some a) as o eqn:Ho. intros Hw. revert a Ho.
  induction Hw as [|b Hs|b n l e Hn Hs Hw IH]; intros a Ho Hx; simplify_eq.
  - destruct Hx as [?|[= ->]]; [set_solver|apply rtc_refl].
  - destruct Hx as [Hx%elem_of_cons|Hx].
    + destruct Hx as [->|Hx]; [apply rtc_refl|]. destruct (bn_parent n) as [p|] eqn:Hp.
      * apply rtc_l with p; [by exists n|]. apply IH; auto.
      * inversion Hw; subst. set_solver.
    + destruct (bn_parent n) as [p|] eqn:Hp; [|inversion Hw; by subst].
      apply rtc_l with p; [by exists n|]. apply IH; auto.
Qed.

(** An ancestor is passed by the walk or above its end. *)
Lemma anc_walk h stop a l e x :
  walk h stop (Some a) l e → anc h a x → x ∈ l ∨ ∃ b, e = Some b ∧ anc h b x.
Proof.
  remember (Some a) as o eqn:Ho. intros Hw. revert a Ho.
  induction Hw as [|b Hs|b n l e Hn Hs Hw IH]; intros a Ho Hx; simplify_eq; [eauto|].
  inversion Hx as [|? p ? Hp Hpx]; subst; [left; set_solver|].
  destruct Hp as (n' & Hn' & Hp). simplify_eq. destruct (IH p) as [?|?]; [done..|set_solver|auto].
Qed.

Lemma walk_next h stop o l e x p :
  walk h stop o l e → x ∈ l → par h x p → p ∈ l ∨ e = Some p.
Proof.
  induction 1 as [|b Hs|b n l e Hn Hs Hw IH]; intros Hx Hp; [set_solver..|].
  apply elem_of_cons in Hx as [->|Hx]; [|destruct IH; [done|done|set_solver|auto]].
  destruct Hp as (n' & Hn' & Hp). simplify_eq. rewrite Hp in Hw.
  inversion Hw; subst; [auto|left; set_solver].
Qed.

Lemma walk_to_end h stop o l e x : walk h stop o l (Some e) → x ∈ l → anc h x e.
Proof.
  remember (Some e) as e' eqn:He. intros Hw. revert He.
  induction Hw as [|b Hs|b n l e' Hn Hs Hw IH]; intros He Hx; [set_solver..|].
  apply elem_of_cons in Hx as [->|Hx]; [|by apply IH].
  destruct (bn_parent n) as [p|] eqn:Hp; [|inversion Hw; by subst].
  apply rtc_l with p; [by exists n|]. eapply walk_anc; [done|auto].
Qed.

(** ** The forest *)

Definition live (h : Heap) (m : gmap CryptoHash Arc) (a : Arc) (n : BlockNode) : Prop :=
  h !! a = Some n ∧ m !! bn_hash n = Some a.

Record tree (h : Heap) (m : gmap CryptoHash Arc) (roots : list Arc) : Prop := {
  t_parent : older_parents h;
  t_map hash a : m !! hash = Some a → ∃ n, h !! a = Some n ∧ bn_hash n = hash;
  t_up a n p : live h m a n → bn_parent n = Some p → ∃ pn, live h m p pn ∧ a ∈ bn_children pn;
  t_down p pn c : live h m p pn → c ∈ bn_children pn → ∃ cn, live h m c cn ∧ bn_parent cn = Some p;
  t_roots r : r ∈ roots ↔ ∃ n, live h m r n ∧ bn_parent n = None;
}.

(** What the flags of a node are not part of. *)
Definition shape (n : BlockNode) : CryptoHash * BlockHeight * option Arc * list Arc :=
  (bn_hash n, bn_height n, bn_parent n, bn_children n).

Definition same_tree (h h' : Heap) : Prop := ∀ a : Arc, shape <$> h !! a = shape <$> h' !! a.

#[export] Instance same_tree_equivalence : Equivalence same_tree.
Proof.
  split.
  - by intros h a.
  - by intros h h' Hs a.
  - intros h1 h2 h3 H12 H23 a. by rewrite H12.
Qed.

Lemma same_tree_lookup h h' a n' :
  same_tree h h' → h' !! a = Some n' → ∃ n, h !! a = Some n ∧ shape n = shape n'.
Proof.
  intros Hs Hn. specialize (Hs a). rewrite Hn in Hs. destruct (h !! a) as [n|]; [|done].
  exists n. split; [done|]. simpl in Hs. congruence.
Qed.

Lemma live_same_tree h h' m a n' :
  same_tree h h' → live h' m a n' → ∃ n, live h m a n ∧ shape n = shape n'.
Proof.
  intros Hs [Hn Hm]. destruct (same_tree_lookup _ _ _ _ Hs Hn) as (n & Hn' & E). exists n.
  assert (Hh : bn_hash n = bn_hash n') by (unfold shape in E; congruence). unfold live. by rewrite Hh.
Qed.

#[export] Instance par_proper : Proper (same_tree ==> eq ==> eq ==> iff) par.
Proof.
  assert (Hhalf : ∀ h h' a b, same_tree h h' → par h' a b → par h a b).
  { intros h h' a b Hs (n' & Hn' & Hp). destruct (same_tree_lookup _ _ _ _ Hs Hn') as (n & Hn & E).
    exists n. unfold shape in E. split; [done|congruence]. }
  intros h h' Hs a ? <- b ? <-. split; [symmetry in Hs|]; by apply Hhalf.
Qed.

#[export] Instance anc_proper : Proper (same_tree ==> eq ==> eq ==> iff) anc.
Proof.
  intros h h' Hs a ? <- b ? <-. split; intros Ha.
  - induction Ha as [|x y z Hp _ IH]; [apply rtc_refl|]. apply rtc_l with y; [by rewrite <-Hs|done].
  - induction Ha as [|x y z Hp _ IH]; [apply rtc_refl|]. apply rtc_l with y; [by rewrite Hs|done].
Qed.

Lemma tree_same_tree h h' m roots : same_tree h h' → tree h m roots → tree h' m roots.
Proof.
  intros Hs [Hpar Hmap Hup Hdown Hroots]. assert (Hs' := Hs). symmetry in Hs'.
  split.
  - intros a b Hp. apply Hpar. by rewrite Hs.
  - intros hash a Hm. destruct (Hmap hash a Hm) as (n & Hn & Hh).
    destruct (same_tree_lookup _ _ _ _ Hs' Hn) as (n' & Hn' & E). exists n'. unfold shape in E.
    split; [done|congruence].
  - intros a n' p Hl Hp. destruct (live_same_tree _ _ _ _ _ Hs Hl) as (n & Hl0 & E).
    destruct (Hup a n p Hl0) as (pn & Hpl & Hin); [unfold shape in E; congruence|].
    destruct (live_same_tree _ _ _ _ _ Hs' Hpl) as (pn' & Hpl' & E'). exists pn'.
    split; [done|]. unfold shape in E'. congruence.
  - intros p pn' c Hl Hin. destruct (live_same_tree _ _ _ _ _ Hs Hl) as (pn & Hl0 & E).
    destruct (Hdown p pn c Hl0) as (cn & Hcl & Hcp); [unfold shape in E; congruence|].
    destruct (live_same_tree _ _ _ _ _ Hs' Hcl) as (cn' & Hcl' & E'). exists cn'.
    split; [done|]. unfold shape in E'. congruence.
  - intros r. rewrite Hroots. split.
    + intros (n & Hl & Hp). destruct (live_same_tree _ _ _ _ _ Hs' Hl) as (n' & Hl' & E').
      exists n'. split; [done|]. unfold shape in E'. congruence.
    + intros (n & Hl & Hp). destruct (live_same_tree _ _ _ _ _ Hs Hl) as (n' & Hl' & E').
      exists n'. split; [done|]. unfold shape in E'. congruence.
Qed.

Lemma store_all_same_tree f l h : (∀ n, shape (f n) = shape n) → same_tree h (store_all f l h).
Proof.
  intros Hf. revert h. induction l as [|b l IH]; intros h; [reflexivity|]. simpl. rewrite <-IH.
  intros a. destruct (decide (a = b)) as [->|Hne].
  - rewrite list_lookup_alter_eq. destruct (h !! b); simpl; [by rewrite Hf|done].
  - by rewrite list_lookup_alter_ne.
Qed.

Section Forest.
Context (h : Heap) (m : gmap CryptoHash Arc) (roots : list Arc) (Htree : tree h m roots).

Lemma live_fun a n n' : live h m a n → live h m a n' → n = n'.
Proof. intros [Hn _] [Hn' _]. congruence. Qed.

Lemma live_lt a n : live h m a n → (a < length h)%nat.
Proof. intros [Hn _]. by eapply lookup_lt_Some. Qed.

Lemma map_live hash a : m !! hash = Some a → ∃ n, live h m a n ∧ bn_hash n = hash.
Proof.
  intros Hm. destruct (t_map _ _ _ Htree _ _ Hm) as (n & Hn & <-). exists n. by split; [split|].
Qed.

Lemma par_live a n b : live h m a n → par h a b → ∃ nb, live h m b nb.
Proof.
  intros Hl (n' & Hn' & Hp). assert (n' = n) as -> by (destruct Hl; congruence).
  destruct (t_up _ _ _ Htree a n b Hl Hp) as (pn & ? & _). by exists pn.
Qed.

Lemma anc_live a n b : live h m a n → anc h a b → ∃ nb, live h m b nb.
Proof.
  intros Hl Ha. revert n Hl. induction Ha as [a|a p b Hp _ IH]; intros n Hl; [by exists n|].
  destruct (par_live _ _ _ Hl Hp) as [pn Hpl]. by apply (IH pn).
Qed.
End Forest.
