(* ===== verification/RecentBlocksInv.v ===== *)
(** * Node: the operations on the tree of recent blocks keep its invariant

    The stages of [add_block] one by one: inserting the node, marking the new final
    chain, moving the canonical head, pruning. *)

From S2P Require Import Prelude Types NodePrimitives RecentBlocks RecentBlocksProofs.

Definition height_in (h : Heap) (a : Arc) : Z := bn_height (h !!! a).
Definition hash_in (h : Heap) (a : Arc) : Z := bn_hash (h !!! a).
Definition alive (h : Heap) (m : gmap CryptoHash Arc) (a : Arc) : Prop := ∃ n, live h m a n.

Lemma live_lookup_total h m a n : live h m a n → h !!! a = n.
Proof. intros [Hn _]. by apply list_lookup_total_correct. Qed.

Lemma alive_alt h m a : alive h m a ↔ (a < length h)%nat ∧ m !! hash_in h a = Some a.
Proof.
  split.
  - intros [n Hl]. unfold hash_in. rewrite (live_lookup_total _ _ _ _ Hl).
    destruct Hl as [Hn Hm]. split; [by eapply lookup_lt_Some|done].
  - intros [Hlt Hm]. destruct (lookup_lt_is_Some_2 h a Hlt) as [n Hn]. exists n. split; [done|].
    unfold hash_in in Hm. by rewrite (list_lookup_total_correct _ _ _ Hn) in Hm.
Qed.

Lemma same_tree_total h h' a : same_tree h h' → shape (h !!! a) = shape (h' !!! a).
Proof.
  intros Hs. specialize (Hs a). rewrite !list_lookup_total_alt.
  destruct (h !! a), (h' !! a); simpl in *; congruence.
Qed.

Lemma same_tree_height h h' a : same_tree h h' → height_in h a = height_in h' a.
Proof. intros Hs%(same_tree_total _ _ a). unfold shape in Hs. unfold height_in. congruence. Qed.

Lemma same_tree_hash h h' a : same_tree h h' → hash_in h a = hash_in h' a.
Proof. intros Hs%(same_tree_total _ _ a). unfold shape in Hs. unfold hash_in. congruence. Qed.

Lemma same_tree_length h h' : same_tree h h' → length h = length h'.
Proof.
  intros Hs. assert (Hle : ∀ h h', same_tree h h' → (length h ≤ length h')%nat).
  { clear. intros h h' Hs. destruct (decide (length h ≤ length h')%nat) as [|Hgt]; [done|].
    destruct (lookup_lt_is_Some_2 h (length h')) as [n Hn]; [lia|].
    specialize (Hs (length h')). rewrite Hn, (lookup_ge_None_2 h') in Hs by lia. done. }
  pose proof (Hle _ _ Hs). symmetry in Hs. pose proof (Hle _ _ Hs). lia.
Qed.

#[export] Instance alive_proper : Proper (same_tree ==> eq ==> eq ==> iff) alive.
Proof.
  intros h h' Hs m ? <- a ? <-.
  by rewrite !alive_alt, (same_tree_hash _ _ a Hs), (same_tree_length _ _ Hs).
Qed.

(** ** Flags *)

Definition closed_final (h : Heap) (m : gmap CryptoHash Arc) : Prop :=
  ∀ a b, alive h m a → final_in h a = true → par h a b → final_in h b = true.

Definition canon_flags (h : Heap) (m : gmap CryptoHash Arc) (head : option Arc) : Prop :=
  ∀ a, alive h m a → (canonical_in h a = true ↔ ∃ c, head = Some c ∧ anc h c a).

Lemma store_all_final l h a :
  final_in (store_all (store_final true) l h) a =
  final_in h a || bool_decide (a ∈ l ∧ (a < length h)%nat).
Proof.
  unfold final_in. rewrite !list_lookup_total_alt, store_all_lookup by done.
  destruct (h !! a) as [n|] eqn:Hn; simpl.
  - pose proof (lookup_lt_Some _ _ _ Hn). case_decide; simpl.
    + rewrite bool_decide_true by done. by rewrite orb_true_r.
    + rewrite bool_decide_false by tauto. by rewrite orb_false_r.
  - pose proof (lookup_ge_None_1 _ _ Hn). rewrite bool_decide_false by lia. by case_decide.
Qed.

Lemma store_all_canonical b l h a :
  canonical_in (store_all (store_canonical b) l h) a =
  if bool_decide (a ∈ l ∧ (a < length h)%nat) then b else canonical_in h a.
Proof.
  unfold canonical_in. rewrite !list_lookup_total_alt, store_all_lookup by done.
  destruct (h !! a) as [n|] eqn:Hn; simpl.
  - pose proof (lookup_lt_Some _ _ _ Hn). case_decide; simpl.
    + by rewrite bool_decide_true by done.
    + by rewrite bool_decide_false by tauto.
  - pose proof (lookup_ge_None_1 _ _ Hn). rewrite bool_decide_false by lia. by case_decide.
Qed.

Lemma store_all_final_canonical l h a :
  canonical_in (store_all (store_final true) l h) a = canonical_in h a.
Proof.
  unfold canonical_in. rewrite !list_lookup_total_alt, store_all_lookup by done.
  by destruct (h !! a), (decide (a ∈ l)).
Qed.

Lemma store_all_canonical_final b l h a :
  final_in (store_all (store_canonical b) l h) a = final_in h a.
Proof.
  unfold final_in. rewrite !list_lookup_total_alt, store_all_lookup by done.
  by destruct (h !! a), (decide (a ∈ l)).
Qed.

Section Flags.
Context (h : Heap) (m : gmap CryptoHash Arc) (roots : list Arc) (Htree : tree h m roots).

Lemma anc_alive a b : alive h m a → anc h a b → alive h m b.
Proof. intros [n Hl] Ha. by eapply anc_live. Qed.

Lemma alive_lt a : alive h m a → (a < length h)%nat.
Proof. intros [n Hl]. by eapply live_lt. Qed.

Lemma final_up a b : closed_final h m → alive h m a → final_in h a = true → anc h a b → final_in h b = true.
Proof.
  intros Hclosed Ha Hf. induction 1 as [|a p b Hp _ IH]; [done|]. apply IH.
  - apply (anc_alive a); [done|]. by apply rtc_once.
  - by apply (Hclosed a).
Qed.

(** Marking final from [f] upwards makes exactly [f] and its ancestors final. *)
Lemma mark_final_flags f l e :
  closed_final h m → alive h m f → walk h (final_in h) (Some f) l e →
  let h' := store_all (store_final true) l h in
  same_tree h h' ∧ closed_final h' m ∧
  ∀ a, alive h m a → (final_in h' a = true ↔ final_in h a = true ∨ anc h f a).
Proof.
  intros Hclosed Hf Hw h'. assert (Hsame : same_tree h h') by (by apply store_all_same_tree).
  assert (Hflag : ∀ a, alive h m a → (final_in h' a = true ↔ final_in h a = true ∨ anc h f a)).
  { intros a Ha. unfold h'. rewrite store_all_final, orb_true_iff, bool_decide_eq_true. split.
    - intros [?|[Hl _]]; [auto|]. right. eapply walk_anc; eauto.
    - intros [?|Hanc]; [auto|]. destruct (anc_walk _ _ _ _ _ _ Hw Hanc) as [?|(b & -> & Hb)].
      + right. split; [done|]. by apply alive_lt.
      + left. apply (final_up b); [done| | |done].
        * apply (anc_alive f); [done|]. eapply walk_anc; eauto.
        * exact (walk_end _ _ _ _ _ Hw). }
  split; [done|]. split; [|done]. intros a b Ha Hfa Hp. rewrite <-Hsame in Ha, Hp.
  assert (Hab : anc h a b) by (by apply rtc_once).
  apply Hflag; [by eapply anc_alive|]. apply Hflag in Hfa as [Hfa|Hfa]; [|by right; etrans|done].
  left. by apply (Hclosed a).
Qed.
End Flags.

Lemma walk_same_tree h h' stop o l e : same_tree h h' → walk h stop o l e → walk h' stop o l e.
Proof.
  intros Hs. symmetry in Hs. induction 1 as [|a Ha|a n l e Hn Ha Hw IH]; [by constructor..|].
  destruct (same_tree_lookup _ _ _ _ Hs Hn) as (n' & Hn' & E).
  apply walk_step with n'; [done..|]. replace (bn_parent n') with (bn_parent n); [done|].
  unfold shape in E. congruence.
Qed.

Section Canonical.
Context (h : Heap) (m : gmap CryptoHash Arc) (roots : list Arc) (Htree : tree h m roots).
Context (head : option Arc) (Hflags : canon_flags h m head).
Context (Hhead : ∀ c, head = Some c → alive h m c).
Context (new : Arc) (Hnew : alive h m new).
Context (l1 : list Arc) (common : option Arc) (Hw1 : walk h (canonical_in h) (Some new) l1 common).
Context (l2 : list Arc) (e2 : option Arc).
Context (Hw2 : walk h (λ x, bool_decide (common = Some x)) head l2 e2).

Lemma unmarked_canonical a : a ∈ l2 → ∃ c, head = Some c ∧ anc h c a.
Proof.
  intros Ha. destruct head as [c|]; [|inversion Hw2; subst; set_solver].
  exists c. split; [done|]. eapply walk_anc; eauto.
Qed.

(** The old canonical chain is unmarked below the common ancestor only. *)
Lemma unmarked_below a : a ∈ l2 → ¬ anc h new a.
Proof.
  intros Ha Hanc. destruct (unmarked_canonical a Ha) as (c & Hc & Hca).
  assert (Halive : alive h m a) by (eapply anc_alive; eauto).
  assert (Hcan : canonical_in h a = true) by (apply Hflags; eauto).
  destruct (anc_walk _ _ _ _ _ _ Hw1 Hanc) as [Hl1|(b & Hb & Hba)].
  { by rewrite (walk_not_stop _ _ _ _ _ _ Hw1 Hl1) in Hcan. }
  assert (Hne : a ≠ b).
  { intros ->. apply (walk_not_stop _ _ _ _ _ _ Hw2) in Ha. by rewrite bool_decide_true in Ha. }
  (* [b] is canonical, so it is above the old head, and the second walk ends at it *)
  assert (Hnb : anc h new b) by (eapply walk_anc; eauto).
  assert (Hcb : ∃ c', head = Some c' ∧ anc h c' b).
  { apply Hflags; [by apply (anc_alive _ _ _ Htree new)|]. pose proof (walk_end _ _ _ _ _ Hw1) as He. by rewrite Hb in He. }
  destruct Hcb as (c' & Hc' & Hcb). assert (c' = c) as -> by congruence.
  rewrite Hc in Hw2. destruct (anc_walk _ _ _ _ _ _ Hw2 Hcb) as [Hl2|(b' & Hb' & Hb'b)].
  { apply (walk_not_stop _ _ _ _ _ _ Hw2) in Hl2. by rewrite bool_decide_true in Hl2. }
  pose proof (walk_end _ _ _ _ _ Hw2) as He. rewrite Hb' in He. apply bool_decide_eq_true in He.
  assert (b' = b) as -> by congruence. rewrite Hb' in Hw2.
  apply Hne. apply (anc_antisym h); [apply Htree| |done]. by eapply walk_to_end.
Qed.

Lemma unmarked_or_new a c : head = Some c → anc h c a → a ∈ l2 ∨ anc h new a.
Proof.
  intros Hc Hca. rewrite Hc in Hw2. destruct (anc_walk _ _ _ _ _ _ Hw2 Hca) as [?|(b & Hb & Hba)]; [auto|].
  pose proof (walk_end _ _ _ _ _ Hw2) as He. rewrite Hb in He. apply bool_decide_eq_true in He.
  right. trans b; [|done]. eapply walk_anc; eauto.
Qed.

Lemma move_canonical :
  let h2 := store_all (store_canonical false) l2 (store_all (store_canonical true) l1 h) in
  same_tree h h2 ∧ canon_flags h2 m (Some new) ∧ ∀ a, final_in h2 a = final_in h a.
Proof.
  intros h2. assert (Hsame : same_tree h h2).
  { unfold h2. rewrite <-store_all_same_tree by done. by apply store_all_same_tree. }
  split; [done|]. split; [|intros a; unfold h2; by rewrite !store_all_canonical_final].
  intros a Ha. rewrite <-Hsame in Ha. unfold h2. rewrite !store_all_canonical, store_all_length.
  fold h2. pose proof (alive_lt _ _ _ Ha) as Hlt.
  trans (anc h new a); [|rewrite Hsame; naive_solver].
  destruct (bool_decide (a ∈ l2 ∧ _)) eqn:E2.
  { apply bool_decide_eq_true in E2 as [E2 _]. split; [done|]. intros Hanc. by destruct (unmarked_below a). }
  apply bool_decide_eq_false in E2. destruct (bool_decide (a ∈ l1 ∧ _)) eqn:E1.
  { apply bool_decide_eq_true in E1 as [E1 _]. split; [|done]. intros _. eapply walk_anc; eauto. }
  apply bool_decide_eq_false in E1. rewrite (Hflags a Ha). split.
  - intros (c & Hc & Hca). destruct (unmarked_or_new a c); tauto.
  - intros Hanc. destruct (anc_walk _ _ _ _ _ _ Hw1 Hanc) as [?|(b & Hb & Hba)]; [tauto|].
    assert (Hnb : anc h new b) by (eapply walk_anc; eauto).
    destruct (proj1 (Hflags b (anc_alive _ _ _ Htree _ _ Hnew Hnb))) as (c & Hc & Hcb).
    { pose proof (walk_end _ _ _ _ _ Hw1) as He. by rewrite Hb in He. }
    exists c. split; [done|]. by trans b.
Qed.
End Canonical.

(** ** The forest by its relations *)

Definition children_in (h : Heap) (a : Arc) : list Arc := bn_children (h !!! a).

Lemma par_alt h m a n p : live h m a n → par h a p ↔ bn_parent n = Some p.
Proof.
  intros [Hn _]. split; [|by exists n]. intros (n' & Hn' & Hp). by simplify_eq.
Qed.

Lemma tree_alt h m roots :
  tree h m roots ↔
  older_parents h ∧ (∀ hash a, m !! hash = Some a → (a < length h)%nat ∧ hash_in h a = hash) ∧
  (∀ a p, alive h m a → par h a p → alive h m p ∧ a ∈ children_in h p) ∧
  (∀ p c, alive h m p → c ∈ children_in h p → alive h m c ∧ par h c p) ∧
  (∀ r, r ∈ roots ↔ alive h m r ∧ ∀ p, ¬ par h r p).
Proof.
  assert (Hroot : ∀ r, (alive h m r ∧ ∀ p, ¬ par h r p) ↔ ∃ n, live h m r n ∧ bn_parent n = None).
  { intros r. split.
    - intros [[n Hl] Hp]. exists n. split; [done|]. destruct (bn_parent n) as [p|] eqn:E; [|done].
      destruct (Hp p). by apply (par_alt _ _ _ _ _ Hl).
    - intros (n & Hl & Hn). split; [by exists n|]. intros p Hp. apply (par_alt _ _ _ _ _ Hl) in Hp. congruence. }
  split.
  - intros [Hpar Hmap Hup Hdown Hroots]. split; [done|]. split.
    { intros hash a Hm. destruct (Hmap hash a Hm) as (n & Hn & Hh). unfold hash_in.
      rewrite (list_lookup_total_correct _ _ _ Hn). split; [by eapply lookup_lt_Some|done]. }
    split.
    { intros a p [n Hl] Hp%(par_alt _ _ _ _ _ Hl). destruct (Hup a n p Hl Hp) as (pn & Hpl & Hin).
      split; [by exists pn|]. unfold children_in. by rewrite (live_lookup_total _ _ _ _ Hpl). }
    split; [|intros r; by rewrite Hroots, Hroot].
    intros p c [pn Hl]. unfold children_in. rewrite (live_lookup_total _ _ _ _ Hl). intros Hin.
    destruct (Hdown p pn c Hl Hin) as (cn & Hcl & Hp). split; [by exists cn|]. by apply (par_alt _ _ _ _ _ Hcl).
  - intros (Hpar & Hmap & Hup & Hdown & Hroots). split; [done| | | |intros r; by rewrite Hroots, Hroot].
    + intros hash a Hm. destruct (Hmap hash a Hm) as [Hlt Hh].
      destruct (lookup_lt_is_Some_2 h a Hlt) as [n Hn]. exists n. split; [done|].
      unfold hash_in in Hh. by rewrite (list_lookup_total_correct _ _ _ Hn) in Hh.
    + intros a n p Hl Hp. destruct (Hup a p) as [[pn Hpl] Hin]; [by exists n|by apply (par_alt _ _ _ _ _ Hl)|].
      exists pn. split; [done|]. unfold children_in in Hin. by rewrite (live_lookup_total _ _ _ _ Hpl) in Hin.
    + intros p pn c Hl Hin. destruct (Hdown p c) as [[cn Hcl] Hp]; [by exists pn| |].
      { unfold children_in. by rewrite (live_lookup_total _ _ _ _ Hl). }
      exists cn. split; [done|]. by apply (par_alt _ _ _ _ _ Hcl).
Qed.

(** ** Inserting a node *)

Section Insert.
Context (h : Heap) (m : gmap CryptoHash Arc) (roots : list Arc) (Htree : tree h m roots).
Context (hash : CryptoHash) (height : Z) (prev : CryptoHash) (Hfresh : m !! hash = None).

Definition new_node : BlockNode := mkBlockNode hash height false false (m !! prev) [].
Definition heap_with_node : Heap :=
  match m !! prev with
  | Some parent => alter (push_child (length h)) parent (h ++ [new_node])
  | None => h ++ [new_node]
  end.
Definition roots_with_node : list Arc :=
  match m !! prev with Some _ => roots | None => roots ++ [length h] end.

Lemma insert_parent_lt p : m !! prev = Some p → (p < length h)%nat.
Proof. intros Hp. destruct (map_live _ _ _ Htree _ _ Hp) as (n & Hl & _). by eapply live_lt. Qed.

Lemma insert_lookup_new : heap_with_node !! length h = Some new_node.
Proof.
  unfold heap_with_node. destruct (m !! prev) as [p|] eqn:Hp.
  - rewrite list_lookup_alter_ne by (apply insert_parent_lt in Hp; lia). apply list_lookup_middle. done.
  - by apply list_lookup_middle.
Qed.

Lemma insert_lookup_old a : (a < length h)%nat →
  heap_with_node !! a = (if bool_decide (m !! prev = Some a) then push_child (length h) else id) <$> h !! a.
Proof.
  intros Hlt. unfold heap_with_node. destruct (m !! prev) as [p|] eqn:Hp.
  - destruct (decide (p = a)) as [->|Hne].
    + rewrite list_lookup_alter_eq, lookup_app_l by done. by rewrite bool_decide_true.
    + rewrite list_lookup_alter_ne, lookup_app_l by done. rewrite bool_decide_false by congruence.
      by rewrite option_fmap_id.
  - rewrite lookup_app_l by done. rewrite bool_decide_false by done. by rewrite option_fmap_id.
Qed.

Lemma insert_length : length heap_with_node = S (length h).
Proof.
  unfold heap_with_node. destruct (m !! prev); rewrite ?length_alter, length_app; simpl; lia.
Qed.

Lemma insert_lookup_inv a n1 : heap_with_node !! a = Some n1 →
  (a = length h ∧ n1 = new_node) ∨
  ∃ n, h !! a = Some n ∧ n1 = (if bool_decide (m !! prev = Some a) then push_child (length h) else id) n.
Proof.
  intros Ha. pose proof (lookup_lt_Some _ _ _ Ha) as Hlt. rewrite insert_length in Hlt.
  destruct (decide (a = length h)) as [->|Hne].
  - left. rewrite insert_lookup_new in Ha. split; congruence.
  - right. rewrite insert_lookup_old in Ha by lia. destruct (h !! a) as [n|]; [|done].
    exists n. split; [done|]. simpl in Ha. congruence.
Qed.

Lemma insert_par a b :
  par heap_with_node a b ↔ par h a b ∨ (a = length h ∧ m !! prev = Some b).
Proof.
  split.
  - intros (n1 & Hn1 & Hp). apply insert_lookup_inv in Hn1 as [[-> ->]|(n & Hn & ->)]; [auto|].
    left. exists n. split; [done|]. by destruct (bool_decide _).
  - intros [(n & Hn & Hp)|[-> Hp]].
    + assert (Hlt : (a < length h)%nat) by (by eapply lookup_lt_Some).
      eexists. rewrite insert_lookup_old, Hn by done. split; [done|]. by destruct (bool_decide _).
    + exists new_node. by rewrite insert_lookup_new.
Qed.

Lemma insert_anc_old a b : (a < length h)%nat → anc heap_with_node a b ↔ anc h a b.
Proof.
  intros Hlt. split; intros Ha.
  - induction Ha as [|a p b Hp _ IH]; [apply rtc_refl|]. apply insert_par in Hp as [Hp|[-> _]]; [|lia].
    pose proof (t_parent _ _ _ Htree _ _ Hp). apply rtc_l with p; [done|]. apply IH. lia.
  - induction Ha as [|a p b Hp _ IH]; [apply rtc_refl|].
    pose proof (t_parent _ _ _ Htree _ _ Hp). apply rtc_l with p; [apply insert_par; auto|]. apply IH. lia.
Qed.

Lemma insert_fields a : (a < length h)%nat →
  hash_in heap_with_node a = hash_in h a ∧ height_in heap_with_node a = height_in h a ∧
  final_in heap_with_node a = final_in h a ∧ canonical_in heap_with_node a = canonical_in h a.
Proof.
  intros Hlt. unfold hash_in, height_in, final_in, canonical_in. rewrite !list_lookup_total_alt.
  rewrite insert_lookup_old by done. by destruct (h !! a), (bool_decide _).
Qed.

Lemma insert_alive a :
  alive heap_with_node (<[hash := length h]> m) a ↔ a = length h ∨ alive h m a.
Proof.
  rewrite !alive_alt, insert_length. destruct (decide (a = length h)) as [->|Hne].
  - split; [auto|]. intros _. split; [lia|]. unfold hash_in.
    rewrite (list_lookup_total_correct _ _ _ insert_lookup_new). apply lookup_insert_eq.
  - split.
    + intros [Hlt Hm]. right. destruct (insert_fields a) as [Hh _]; [lia|]. rewrite Hh in Hm.
      apply lookup_insert_Some in Hm as [[_ ?]|[_ Hm]]; [lia|]. split; [lia|done].
    + intros [?|[Hlt Hm]]; [done|]. destruct (insert_fields a) as [Hh _]; [lia|]. rewrite Hh.
      split; [lia|]. rewrite lookup_insert_ne by (intros ->; congruence). done.
Qed.

Lemma insert_children a : (a < length h)%nat →
  children_in heap_with_node a =
  children_in h a ++ (if bool_decide (m !! prev = Some a) then [length h] else []).
Proof.
  intros Hlt. unfold children_in. rewrite !list_lookup_total_alt.
  rewrite insert_lookup_old by done. destruct (lookup_lt_is_Some_2 h a Hlt) as [n ->].
  destruct (bool_decide _); simpl; [done|by rewrite app_nil_r].
Qed.

Lemma insert_children_new : children_in heap_with_node (length h) = [].
Proof. unfold children_in. by rewrite (list_lookup_total_correct _ _ _ insert_lookup_new). Qed.

Lemma insert_tree : tree heap_with_node (<[hash := length h]> m) roots_with_node.
Proof.
  destruct (proj1 (tree_alt _ _ _) Htree) as (Hpar & Hmap & Hup & Hdown & Hroots).
  apply tree_alt. split.
  { intros a b [Hp|[-> Hp]]%insert_par; [by apply Hpar|by apply insert_parent_lt]. }
  split.
  { intros hash' a Hm. apply lookup_insert_Some in Hm as [[? ?]|[Hne Hm]].
    - subst. rewrite insert_length. split; [lia|]. unfold hash_in.
      by rewrite (list_lookup_total_correct _ _ _ insert_lookup_new).
    - destruct (Hmap hash' a Hm) as [Hlt Hh]. rewrite insert_length. split; [lia|].
      by rewrite (proj1 (insert_fields a Hlt)). }
  split.
  { intros a p Ha%insert_alive Hp%insert_par. rewrite insert_alive. destruct Hp as [Hp|[-> Hp]].
    - destruct Ha as [->|Ha].
      { destruct Hp as (n & Hn & _). apply lookup_lt_Some in Hn. lia. }
      destruct (Hup a p Ha Hp) as [Hpa Hin]. split; [auto|].
      rewrite insert_children by (by eapply alive_lt). set_solver.
    - destruct (map_live _ _ _ Htree _ _ Hp) as (pn & Hpl & _).
      split; [right; by exists pn|]. rewrite insert_children by (by eapply live_lt).
      rewrite bool_decide_true by done. set_solver. }
  split.
  { intros p c [->|Hp]%insert_alive; [rewrite insert_children_new; set_solver|].
    rewrite insert_children by (by eapply alive_lt). rewrite elem_of_app, insert_alive, insert_par.
    intros [Hin|Hin]; [naive_solver|]. case_bool_decide; [|set_solver].
    apply list_elem_of_singleton in Hin as ->. auto. }
  intros r. rewrite insert_alive. setoid_rewrite insert_par. unfold roots_with_node.
  destruct (m !! prev) as [p|] eqn:Hp.
  - rewrite Hroots. split; [|naive_solver]. intros [Ha Hn]. split; [auto|].
    intros q [?|[-> _]]; [by eapply Hn|]. apply alive_lt in Ha. lia.
  - rewrite elem_of_app, Hroots, list_elem_of_singleton. split; [|naive_solver].
    intros [[Ha Hn]| ->]; [naive_solver|]. split; [auto|].
    intros q [(n & Hn & _)|[_ ?]]; [|done]. apply lookup_lt_Some in Hn. lia.
Qed.
End Insert.

(** ** Pruning *)

Section Prune.
Context (h : Heap) (m : gmap CryptoHash Arc) (roots : list Arc) (Htree : tree h m roots).
Context (min : Z).

(** The steps of the recursion: from a node that is too low to its children. *)
Definition descend (x y : Arc) : Prop := height_in h x < min ∧ y ∈ children_in h x.

(** Some ancestor of the node, or the node, is high enough to be kept. *)
Definition high (a : Arc) : Prop := ∃ b, anc h a b ∧ min ≤ height_in h b.

Lemma child_alive p c : alive h m p → c ∈ children_in h p → alive h m c ∧ par h c p.
Proof. apply (tree_alt h m roots). done. Qed.

Lemma root_alive r : r ∈ roots → alive h m r ∧ ∀ p, ¬ par h r p.
Proof. apply (tree_alt h m roots). done. Qed.

Lemma child_gt p c : alive h m p → c ∈ children_in h p → (p < c)%nat.
Proof. intros Hp Hc. destruct (child_alive p c Hp Hc) as [_ Hpar]. by apply (t_parent _ _ _ Htree). Qed.

Lemma descend_alive x y : alive h m x → rtc descend x y → alive h m y.
Proof.
  intros Hx. induction 1 as [|x z y [_ Hc] _ IH]; [done|]. apply IH. by apply (child_alive x).
Qed.

Definition collects (xs : list Arc) (D' O' : list Arc) : Prop :=
  (∀ a, a ∈ D' ↔ ∃ x, x ∈ xs ∧ rtc descend x a ∧ min ≤ height_in h a) ∧
  (∀ a, a ∈ O' ↔ ∃ x, x ∈ xs ∧ rtc descend x a ∧ height_in h a < min).

Lemma closest_fold fuel xs D O :
  (∀ x D O, x ∈ xs → ∃ D' O', closest_descendants_with_height_at_least fuel h x min D O = (D ++ D', O ++ O') ∧
     collects [x] D' O') →
  ∃ D' O', foldl (λ acc child, closest_descendants_with_height_at_least fuel h child min acc.1 acc.2)
     (D, O) xs = (D ++ D', O ++ O') ∧ collects xs D' O'.
Proof.
  revert D O. induction xs as [|x xs IH]; intros D O Hall.
  { exists [], []. rewrite !app_nil_r. split; [done|]. split; set_solver. }
  destruct (Hall x D O) as (D1 & O1 & Heq & HD1 & HO1); [set_solver|]. cbn [foldl fst snd]. rewrite Heq.
  destruct (IH (D ++ D1) (O ++ O1)) as (D2 & O2 & Heq2 & HD2 & HO2); [set_solver|].
  exists (D1 ++ D2), (O1 ++ O2). rewrite !app_assoc. split; [done|].
  split; intros a; rewrite elem_of_app; [rewrite HD1, HD2|rewrite HO1, HO2]; set_solver.
Qed.

Lemma closest_spec fuel x D O :
  alive h m x → (length h - x ≤ fuel)%nat →
  ∃ D' O', closest_descendants_with_height_at_least fuel h x min D O = (D ++ D', O ++ O') ∧
    collects [x] D' O'.
Proof.
  revert x D O. induction fuel as [|fuel IH]; intros x D O Hx Hfuel.
  { apply alive_lt in Hx. lia. }
  cbn [closest_descendants_with_height_at_least]. fold (height_in h x). fold (children_in h x).
  destruct (Z.leb_spec min (height_in h x)) as [Hhigh|Hlow].
  { exists [x], []. rewrite app_nil_r. split; [done|].
    assert (Hstop : ∀ a, rtc descend x a → a = x).
    { intros a Ha. inversion Ha as [|? y ? [Hd _]]; [done|lia]. }
    split; intros a; [|set_solver by lia]. rewrite list_elem_of_singleton. split.
    - intros ->. exists x. split; [set_solver|]. split; [apply rtc_refl|done].
    - intros (x' & Hx' & Ha & _). apply list_elem_of_singleton in Hx' as ->. by apply Hstop. }
  destruct (closest_fold fuel (children_in h x) D (O ++ [x])) as (D' & O' & Heq & HD & HO).
  { intros c D1 O1 Hc. apply IH; [by apply (child_alive x)|].
    pose proof (child_gt x c Hx Hc). lia. }
  exists D', ([x] ++ O'). rewrite Heq, app_assoc. split; [done|].
  assert (Hsplit : ∀ a, rtc descend x a ↔ a = x ∨ ∃ c, c ∈ children_in h x ∧ rtc descend c a).
  { intros a. split.
    - intros Ha. inversion Ha as [|? c ? [_ Hc] Hca]; subst; eauto.
    - intros [->|(c & Hc & Hca)]; [apply rtc_refl|]. apply rtc_l with c; [by split|done]. }
  split; intros a.
  - rewrite HD. split.
    + intros (c & Hc & Hca & Ha). exists x. rewrite Hsplit. set_solver.
    + intros (x' & Hx' & Ha & Hh). apply list_elem_of_singleton in Hx' as ->.
      apply Hsplit in Ha as [->|(c & ? & ?)]; [lia|eauto].
  - rewrite elem_of_app, HO, list_elem_of_singleton. split.
    + intros [->|(c & Hc & Hca & Ha)].
      * exists x. split; [apply list_elem_of_here|]. split; [apply rtc_refl|done].
      * exists x. split; [apply list_elem_of_here|]. split; [|done]. apply Hsplit. eauto.
    + intros (x' & Hx' & Ha & Hh). apply list_elem_of_singleton in Hx' as ->.
      apply Hsplit in Ha as [->|(c & ? & ?)]; eauto.
Qed.

Lemma collect_roots D O :
  foldl (λ acc child, closest_descendants_with_height_at_least (length h) h child min acc.1 acc.2)
    ([], []) roots = (D, O) → collects roots D O.
Proof.
  intros Hfold. destruct (closest_fold (length h) roots [] []) as (D' & O' & Heq & Hc).
  { intros x D0 O0 Hx. apply closest_spec; [|lia]. by apply root_alive. }
  simpl in Heq. rewrite Heq in Hfold. by injection Hfold as -> ->.
Qed.

Lemma high_or_low a : alive h m a → high a ∨ ∀ b, anc h a b → height_in h b < min.
Proof.
  induction (lt_wf a) as [a _ IH]. intros Ha. destruct (decide (min ≤ height_in h a)) as [Hh|Hh].
  { left. exists a. split; [apply rtc_refl|done]. }
  destruct Ha as [n Hl]. destruct (bn_parent n) as [p|] eqn:Hp.
  - assert (Hpar : par h a p) by (by apply (par_alt _ _ _ _ _ Hl)).
    destruct (IH p) as [(b & Hb & Hbh)|Hlow].
    + by apply (t_parent _ _ _ Htree).
    + apply (anc_alive _ _ _ Htree a); [by exists n|by apply rtc_once].
    + left. exists b. split; [by apply rtc_l with p|done].
    + right. intros b Hb. inversion Hb as [|? p' ? Hp' Hpb]; subst; [lia|].
      apply Hlow. by rewrite (par_fun _ _ _ _ Hpar Hp').
  - right. intros b Hb. inversion Hb as [|? p' ? Hp' Hpb]; subst; [lia|].
    apply (par_alt _ _ _ _ _ Hl) in Hp'. congruence.
Qed.

(** The recursion visits the nodes all of whose proper ancestors are too low. *)
Lemma visited_iff a :
  alive h m a →
  (∃ r, r ∈ roots ∧ rtc descend r a) ↔ ∀ p b, par h a p → anc h p b → height_in h b < min.
Proof.
  intros Ha. split.
  - intros (r & Hr & Hra). clear Ha. revert Hra. apply (rtc_ind_r (λ a,
      ∀ p b, par h a p → anc h p b → height_in h b < min)).
    + intros p b Hp. by apply root_alive in Hr as [_ ?%(.$ p)].
    + intros x y Hrx [Hlow Hc] IH p b Hp Hpb.
      assert (Hx : alive h m x) by (eapply descend_alive; [by apply root_alive|done]).
      destruct (child_alive x y Hx Hc) as [_ Hyx]. rewrite (par_fun _ _ _ _ Hp Hyx) in Hpb.
      inversion Hpb as [|? q ? Hq Hqb]; subst; [done|]. by apply (IH q).
  - induction (lt_wf a) as [a _ IH]. intros Hlow. pose proof Ha as [n Hl].
    destruct (bn_parent n) as [p|] eqn:Hp.
    + assert (Hpar : par h a p) by (by apply (par_alt _ _ _ _ _ Hl)).
      destruct (IH p) as (r & Hr & Hrp).
      * by apply (t_parent _ _ _ Htree).
      * apply (anc_alive _ _ _ Htree a); [done|by apply rtc_once].
      * intros q b Hq Hqb. apply (Hlow p b); [done|by apply rtc_l with q].
      * exists r. split; [done|]. eapply rtc_r; [done|]. split.
        -- apply (Hlow p); [done|apply rtc_refl].
        -- destruct (proj1 (tree_alt _ _ _) Htree) as (_ & _ & Hup & _). by apply Hup.
    + exists a. split; [|apply rtc_refl]. apply (t_roots _ _ _ Htree). by exists n.
Qed.

Context (D O : list Arc) (Hcol : collects roots D O).

Lemma old_iff a : a ∈ O ↔ alive h m a ∧ ¬ high a.
Proof.
  destruct Hcol as [_ HO]. rewrite HO. split.
  - intros (r & Hr & Hra & Hlow).
    assert (Ha : alive h m a) by (eapply descend_alive; [by apply root_alive|done]).
    split; [done|]. intros (b & Hb & Hbh). inversion Hb as [|? p ? Hp Hpb]; subst; [lia|].
    assert (height_in h b < min); [|lia]. eapply visited_iff; [done|eauto|done|done].
  - intros [Ha Hnh]. destruct (high_or_low a Ha) as [?|Hlow]; [done|].
    destruct (proj2 (visited_iff a Ha)) as (r & Hr & Hra).
    + intros p b Hp Hb. apply Hlow. by apply rtc_l with p.
    + exists r. split; [done|]. split; [done|]. apply Hlow. apply rtc_refl.
Qed.

Lemma new_root_iff a :
  a ∈ D ↔ alive h m a ∧ min ≤ height_in h a ∧ ∀ p, par h a p → ¬ high p.
Proof.
  destruct Hcol as [HD _]. rewrite HD. split.
  - intros (r & Hr & Hra & Hh).
    assert (Ha : alive h m a) by (eapply descend_alive; [by apply root_alive|done]).
    split; [done|]. split; [done|]. intros p Hp (b & Hb & Hbh).
    assert (height_in h b < min); [|lia]. eapply visited_iff; [done|eauto|done|done].
  - intros (Ha & Hh & Hlow). destruct (proj2 (visited_iff a Ha)) as (r & Hr & Hra); [|eauto].
    intros p b Hp Hb. apply Z.nle_gt. intros Hle. apply (Hlow p Hp). by exists b.
Qed.

Definition pruned_heap : Heap := store_all (store_parent None) D h.
Definition pruned_map {A} (c : gmap CryptoHash A) : gmap CryptoHash A :=
  foldl (λ m hash, delete hash m) c (hash_in h <$> O).

Lemma pruned_lookup a : pruned_heap !! a = if decide (a ∈ D) then store_parent None <$> h !! a else h !! a.
Proof. by apply store_all_lookup. Qed.

Lemma pruned_fields a :
  hash_in pruned_heap a = hash_in h a ∧ height_in pruned_heap a = height_in h a ∧
  final_in pruned_heap a = final_in h a ∧ canonical_in pruned_heap a = canonical_in h a ∧
  children_in pruned_heap a = children_in h a.
Proof.
  unfold hash_in, height_in, final_in, canonical_in, children_in. rewrite !list_lookup_total_alt, pruned_lookup.
  by destruct (h !! a), (decide (a ∈ D)).
Qed.

Lemma pruned_par_iff a b : par pruned_heap a b ↔ par h a b ∧ a ∉ D.
Proof.
  unfold par. rewrite pruned_lookup. destruct (decide (a ∈ D)) as [Hin|Hin].
  - split; [|naive_solver]. intros (n & Hn & Hp). destruct (h !! a); [|done]. by simplify_eq/=.
  - naive_solver.
Qed.

Lemma pruned_map_lookup {A} (c : gmap CryptoHash A) hash :
  pruned_map c !! hash = if decide (hash ∈ hash_in h <$> O) then None else c !! hash.
Proof.
  unfold pruned_map. generalize (hash_in h <$> O). intros l. revert c.
  induction l as [|x l IH]; intros c; [by rewrite decide_False by set_solver|]. simpl. rewrite IH.
  destruct (decide (hash = x)) as [->|Hne].
  - destruct (decide (x ∈ x :: l)); [|set_solver]. case_decide; [done|]. apply lookup_delete_eq.
  - rewrite lookup_delete_ne by done. by destruct (decide (hash ∈ l)), (decide (hash ∈ x :: l)); set_solver.
Qed.

Lemma alive_hash_inj a b : alive h m a → alive h m b → hash_in h a = hash_in h b → a = b.
Proof. rewrite !alive_alt. intros [_ Ha] [_ Hb] E. congruence. Qed.

Lemma pruned_map_alive {A} (c : gmap CryptoHash A) a :
  alive h m a → pruned_map c !! hash_in h a = if decide (a ∈ O) then None else c !! hash_in h a.
Proof.
  intros Ha. rewrite pruned_map_lookup. destruct (decide (a ∈ O)) as [Hin|Hin].
  - rewrite decide_True; [done|]. apply list_elem_of_fmap. eauto.
  - rewrite decide_False; [done|]. intros (b & E & Hb)%list_elem_of_fmap.
    pose proof Hb as Hb'. apply old_iff in Hb' as [Hbl _].
    by rewrite (alive_hash_inj a b Ha Hbl E) in Hin.
Qed.

Lemma pruned_alive a : alive pruned_heap (pruned_map m) a ↔ alive h m a ∧ high a.
Proof.
  rewrite alive_alt. destruct (pruned_fields a) as [-> _]. unfold pruned_heap. rewrite store_all_length.
  fold pruned_heap. split.
  - intros [Hlt Hm]. assert (Ha : alive h m a).
    { apply alive_alt. split; [done|]. rewrite pruned_map_lookup in Hm. by case_decide. }
    split; [done|]. rewrite pruned_map_alive in Hm by done. case_decide as Hin; [done|].
    destruct (high_or_low a Ha) as [?|Hlow]; [done|]. destruct Hin. apply old_iff.
    split; [done|]. intros (b & Hb & Hbh). specialize (Hlow b Hb). lia.
  - intros [Ha Hh]. rewrite pruned_map_alive by done. rewrite decide_False.
    + by apply alive_alt.
    + intros [_ ?]%old_iff. done.
Qed.

Lemma high_anc a b : anc h a b → high b → high a.
Proof. intros Ha (c & Hc & Hh). exists c. split; [by trans b|done]. Qed.

Lemma pruned_par a b : alive h m a → high a → par pruned_heap a b ↔ par h a b ∧ high b.
Proof.
  intros Ha Hh. rewrite pruned_par_iff. split; intros [Hp HD]; split; try done.
  - assert (Hb : alive h m b) by (apply (anc_alive _ _ _ Htree a); [done|by apply rtc_once]).
    destruct (high_or_low b Hb) as [?|Hlow]; [done|]. destruct HD. apply new_root_iff.
    split; [done|]. split.
    + destruct Hh as (c & Hc & Hch). inversion Hc as [|? p ? Hp' Hpc]; subst; [done|].
      rewrite (par_fun _ _ _ _ Hp' Hp) in Hpc. specialize (Hlow c Hpc). lia.
    + intros p Hp' (c & Hc & Hch). rewrite (par_fun _ _ _ _ Hp' Hp) in Hc. specialize (Hlow c Hc). lia.
  - intros (_ & _ & Hlow)%new_root_iff. by apply (Hlow b).
Qed.

Lemma pruned_anc a b : alive h m a → high b → anc pruned_heap a b ↔ anc h a b.
Proof.
  intros Ha Hb. split.
  - clear Ha. induction 1 as [|a p b Hp _ IH]; [apply rtc_refl|].
    apply pruned_par_iff in Hp as [Hp _]. apply rtc_l with p; [done|]. by apply IH.
  - intros Hanc. induction Hanc as [|a p b Hp Hpb IH]; [apply rtc_refl|].
    assert (Hhp : high p) by (by apply (high_anc p b)).
    apply rtc_l with p.
    + apply pruned_par; [done|by apply (high_anc a p); [apply rtc_once|]|done].
    + apply IH; [|done]. apply (anc_alive _ _ _ Htree a); [done|by apply rtc_once].
Qed.

Lemma pruned_tree : tree pruned_heap (pruned_map m) D.
Proof.
  destruct (proj1 (tree_alt _ _ _) Htree) as (Hpar & Hmap & Hup & Hdown & Hroots).
  apply tree_alt. split.
  { intros a b [Hp _]%pruned_par_iff. by apply Hpar. }
  split.
  { intros hash a Hm. rewrite pruned_map_lookup in Hm. case_decide; [done|].
    destruct (pruned_fields a) as [-> _]. unfold pruned_heap. rewrite store_all_length. by apply Hmap. }
  split.
  { intros a p [Ha Hh]%pruned_alive [Hp Hhp]%pruned_par; [|done..]. rewrite pruned_alive.
    destruct (Hup a p Ha Hp) as [Hpl Hin]. split; [done|].
    by destruct (pruned_fields p) as (_ & _ & _ & _ & ->). }
  split.
  { intros p c [Hp Hh]%pruned_alive. destruct (pruned_fields p) as (_ & _ & _ & _ & ->). intros Hin.
    destruct (Hdown p c Hp Hin) as [Hc Hcp].
    assert (Hch : high c) by (apply (high_anc c p); [by apply rtc_once|done]).
    by rewrite pruned_alive, pruned_par. }
  intros r. rewrite pruned_alive. split.
  - intros Hr. pose proof Hr as Hr'. apply new_root_iff in Hr' as (Ha & Hh & _). split.
    + split; [done|]. exists r. split; [apply rtc_refl|done].
    + intros p [_ Hn]%pruned_par_iff. done.
  - intros [[Ha (b & Hb & Hbh)] Hno]. apply new_root_iff. split; [done|].
    assert (Hlow : ∀ p, par h r p → ¬ high p).
    { intros p Hp Hhp. apply (Hno p). apply pruned_par; [done| |done].
      apply (high_anc r p); [by apply rtc_once|done]. }
    split; [|done]. inversion Hb as [|? p ? Hp Hpb]; subst; [done|].
    destruct (Hlow p Hp). by exists b.
Qed.
End Prune.

(** ** Node: the operations of the recent blocks tracker

    The effect of each stage of [add_block] on the whole tracker, for any input. *)

Abbreviation known t := (alive (heap t) (hash_to_node t)).

Section Ops.
Context {T : Type}.
Implicit Types (t : RecentBlocksTracker T).

(** What holds at every moment; between inserting a node and moving the canonical head
    the new node may be higher than the canonical head. *)
Record Pre (t : RecentBlocksTracker T) : Prop := {
  i_tree : tree (heap t) (hash_to_node t) (root_children t);
  i_content hash : is_Some (node_to_content t !! hash) ↔ is_Some (hash_to_node t !! hash);
  i_final : closed_final (heap t) (hash_to_node t);
  i_final_head :
    match final_head t with
    | Some f => known t f ∧ final_in (heap t) f = true
    | None => ∀ a, known t a → final_in (heap t) a = false
    end;
  i_canon : canon_flags (heap t) (hash_to_node t) (canonical_head t);
  i_canon_known c : canonical_head t = Some c → known t c;
  i_window : 1 ≤ window_size t;
  i_max : 0 ≤ maximum_height_available t ≤ u64_max;
}.

Definition top (t : RecentBlocksTracker T) : Prop :=
  match canonical_head t with
  | Some c => ∀ a, known t a → height_in (heap t) a ≤ height_in (heap t) c
  | None => hash_to_node t = ∅
  end.

Definition Inv (t : RecentBlocksTracker T) : Prop := Pre t ∧ top t.

Lemma new_Inv w : 1 ≤ w → Inv (RecentBlocksTracker_new w).
Proof.
  intros Hw. assert (Hnone : ∀ a, ¬ alive [] (∅ : gmap CryptoHash Arc) a).
  { intros a [n [Hn _]]. done. }
  split; [|done]. split; simpl; try done.
  - apply tree_alt. split; [by intros a b (n & Hn & _)|]. split; [done|].
    split; [by intros a p Ha; destruct (Hnone a)|]. split; [by intros a p Ha; destruct (Hnone a)|].
    intros r. split; [set_solver|]. intros [Ha _]. by destruct (Hnone r).
  - intros hash. rewrite !lookup_empty. done.
  - intros a Ha. by destruct (Hnone a).
Qed.

Lemma insert_node_eq t block content :
  insert_node t block content =
  (mkRecentBlocksTracker (window_size t)
    (roots_with_node (heap t) (hash_to_node t) (root_children t) (bv_prev_hash block))
    (canonical_head t) (final_head t) (maximum_height_available t)
    (<[bv_hash block := length (heap t)]> (hash_to_node t))
    (<[bv_hash block := content]> (node_to_content t))
    (heap_with_node (heap t) (hash_to_node t) (bv_hash block) (bv_height block) (bv_prev_hash block)),
   length (heap t)).
Proof. done. Qed.

Lemma insert_node_Pre t block content :
  Inv t → hash_to_node t !! bv_hash block = None → Pre (insert_node t block content).1.
Proof.
  intros [Hpre Htop] Hfresh. rewrite insert_node_eq. pose proof (i_tree t Hpre) as Htree.
  set (h1 := heap_with_node _ _ _ _ _). pose proof (alive_lt (heap t) (hash_to_node t)) as Hlt.
  assert (Halive := insert_alive _ _ _ Htree _ (bv_height block) (bv_prev_hash block) Hfresh).
  assert (Hfields := insert_fields (heap t) (hash_to_node t) (bv_hash block) (bv_height block) (bv_prev_hash block)).
  fold h1 in Hfields. assert (Hnew : h1 !!! length (heap t) = new_node (hash_to_node t) (bv_hash block) (bv_height block) (bv_prev_hash block)).
  { apply list_lookup_total_correct. by eapply insert_lookup_new. }
  split; cbn [fst heap hash_to_node root_children node_to_content final_head canonical_head window_size
    maximum_height_available]; fold h1.
  - by apply insert_tree.
  - intros hash. destruct (decide (hash = bv_hash block)) as [->|Hne].
    + rewrite !lookup_insert_eq. by split.
    + rewrite !lookup_insert_ne by done. apply (i_content t Hpre).
  - intros a b [->|Ha]%Halive Hf Hp; [unfold final_in in Hf; by rewrite Hnew in Hf|].
    apply (insert_par _ _ _ Htree) in Hp as [Hp|[-> _]]; [|apply Hlt in Ha; lia].
    assert (Hb : known t b) by (apply (anc_alive _ _ _ Htree a); [done|by apply rtc_once]).
    destruct (Hfields a (Hlt a Ha)) as (_ & _ & Hfa & _), (Hfields b (Hlt b Hb)) as (_ & _ & Hfb & _).
    rewrite Hfb. rewrite Hfa in Hf. by apply (i_final t Hpre a).
  - pose proof (i_final_head t Hpre) as Hhead. destruct (final_head t) as [f|].
    + destruct Hhead as [Hf Hff]. split; [apply Halive; auto|].
      by destruct (Hfields f (Hlt f Hf)) as (_ & _ & -> & _).
    + intros a [->|Ha]%Halive; [unfold final_in; by rewrite Hnew|].
      destruct (Hfields a (Hlt a Ha)) as (_ & _ & Hfa & _). rewrite Hfa. auto.
  - intros a Ha%Halive. destruct Ha as [->|Ha].
    + unfold canonical_in. rewrite Hnew. split; [done|]. intros (c & Hc & Hca).
      pose proof (Hlt c (i_canon_known t Hpre c Hc)) as Hcl.
      apply (insert_anc_old _ _ _ Htree) in Hca; [|done]. apply anc_le in Hca; [lia|apply Htree].
    + destruct (Hfields a (Hlt a Ha)) as (_ & _ & _ & Hca). rewrite Hca, (i_canon t Hpre a Ha).
      split; intros (c & Hc & Hanc); exists c; (split; [done|]);
        pose proof (Hlt c (i_canon_known t Hpre c Hc)) as Hcl;
        by apply (insert_anc_old _ _ _ Htree (bv_hash block) (bv_height block) (bv_prev_hash block) c a Hcl).
  - intros c Hc. apply Halive. right. by apply (i_canon_known t Hpre).
  - apply Hpre.
  - apply Hpre.
Qed.

(** The parts of the tracker that the loops over flags do not touch. *)
Definition same_but_flags (t t' : RecentBlocksTracker T) : Prop :=
  window_size t' = window_size t ∧ root_children t' = root_children t ∧
  maximum_height_available t' = maximum_height_available t ∧
  hash_to_node t' = hash_to_node t ∧ node_to_content t' = node_to_content t ∧
  same_tree (heap t) (heap t').

Definition higher_final (t : RecentBlocksTracker T) (f : Arc) : option Arc :=
  match final_head t with
  | Some f0 => if height_in (heap t) f0 <? height_in (heap t) f then Some f else Some f0
  | None => Some f
  end.

Lemma update_final_effect t hash t' new :
  Pre t → maybe_update_final_head t hash = (t', new) →
  Pre t' ∧ same_but_flags t t' ∧ canonical_head t' = canonical_head t ∧
  match hash_to_node t !! hash with
  | None => t' = t ∧ new = []
  | Some f =>
    final_head t' = higher_final t f ∧
    (∀ a, known t a → (final_in (heap t') a = true ↔ final_in (heap t) a = true ∨ anc (heap t) f a)) ∧
    ∃ l e, walk (heap t) (final_in (heap t)) (Some f) l e ∧ new = reverse l
  end.
Proof.
  intros Hpre. unfold maybe_update_final_head. destruct (hash_to_node t !! hash) as [f|] eqn:Hf.
  2: { intros [= <- <-]. split; [done|]. split; [|done]. by repeat split. }
  destruct (map_live _ _ _ (i_tree t Hpre) _ _ Hf) as (fn & Hfl & _).
  assert (Hfk : known t f) by (by exists fn).
  destruct (walk_total (heap t) (final_in (heap t)) (Some f)) as (l & e & Hw); [apply Hpre|by eapply live_lt|].
  rewrite (mark_final_walk _ _ _ _ _ _ (t_parent _ _ _ (i_tree t Hpre)) Hw) by lia.
  destruct (mark_final_flags _ _ _ (i_tree t Hpre) f l e (i_final t Hpre) Hfk Hw) as (Hsame & Hclosed & Hflag).
  set (h' := store_all (store_final true) l (heap t)) in *. rewrite app_nil_l. cbn [final_head set_heap].
  fold (height_in h' f). assert (Hfin : final_in h' f = true) by (apply Hflag; [done|right; apply rtc_refl]).
  assert (Hhead : ∀ f', alive h' (hash_to_node t) f' → final_in h' f' = true →
    Pre (set_final_head (set_heap t h') (Some f'))).
  { intros f' Hk Hf'. split; simpl; try apply Hpre; try done.
    - apply (tree_same_tree (heap t)); [done|apply Hpre].
    - intros a Ha. rewrite <-Hsame in Ha. unfold h'. rewrite store_all_final_canonical.
      rewrite (i_canon t Hpre a Ha). fold h'.
      split; intros (c & Hc & Hca); exists c; (split; [done|]); [by rewrite <-Hsame|by rewrite Hsame].
    - intros c Hc. rewrite <-Hsame. by apply (i_canon_known t Hpre). }
  assert (Hfk' : alive h' (hash_to_node t) f) by (by rewrite <-Hsame).
  unfold higher_final. destruct (final_head t) as [f0|] eqn:Hf0.
  - change (bn_height (h' !!! f0)) with (height_in h' f0). rewrite <-!(same_tree_height _ _ _ Hsame).
    pose proof (i_final_head t Hpre) as Hih. rewrite Hf0 in Hih. destruct Hih as [Hk0 Hfi0].
    destruct (height_in (heap t) f0 <? height_in (heap t) f).
    + intros [= <- <-]. split; [by apply Hhead|]. split; [by repeat split|]. eauto 10.
    + intros [= <- <-]. split.
      { replace (set_heap t h') with (set_final_head (set_heap t h') (Some f0)) by (unfold set_final_head, set_heap; simpl; by rewrite Hf0).
        apply Hhead; [by rewrite <-Hsame|]. apply Hflag; auto. }
      split; [by repeat split|]. eauto 10.
  - intros [= <- <-]. split; [by apply Hhead|]. split; [by repeat split|]. eauto 10.
Qed.

Lemma update_canonical_effect t new :
  Pre t → known t new →
  let t' := update_canonical_head t new in
  Pre t' ∧ same_but_flags t t' ∧ canonical_head t' = Some new ∧ final_head t' = final_head t ∧
  ∀ a, final_in (heap t') a = final_in (heap t) a.
Proof.
  intros Hpre Hnew t'. pose proof (i_tree t Hpre) as Htree. pose proof (t_parent _ _ _ Htree) as Hold.
  destruct (walk_total (heap t) (canonical_in (heap t)) (Some new)) as (l1 & common & Hw1); [done|by eapply alive_lt|].
  destruct (walk_total (heap t) (λ x, bool_decide (common = Some x)) (canonical_head t)) as (l2 & e2 & Hw2).
  { done. } { destruct (canonical_head t) eqn:Hc; [|done]. eapply alive_lt. by apply (i_canon_known t Hpre). }
  unfold t', update_canonical_head. rewrite (mark_canonical_walk _ _ _ _ _ Hold Hw1) by lia.
  set (h1 := store_all (store_canonical true) l1 (heap t)).
  assert (Hs1 : same_tree (heap t) h1) by (by apply store_all_same_tree).
  rewrite (unmark_canonical_walk _ h1 common _ l2 e2).
  2: { intros a b Hp. apply Hold. by rewrite Hs1. }
  2: { by apply (walk_same_tree (heap t)). } 2: done.
  destruct (move_canonical _ _ _ Htree _ (i_canon t Hpre) (i_canon_known t Hpre) new Hnew l1 common Hw1 l2 e2 Hw2)
    as (Hsame & Hflags & Hfin). fold h1 in Hsame, Hflags, Hfin.
  set (h2 := store_all (store_canonical false) l2 h1) in *.
  split; [|split; [by repeat split|done]]. split; simpl; try apply Hpre; try done.
  - by apply (tree_same_tree (heap t)).
  - intros a b Ha Hf Hp. rewrite <-Hsame in Ha, Hp. rewrite Hfin in *. by apply (i_final t Hpre a).
  - pose proof (i_final_head t Hpre) as Hih. destruct (final_head t) as [f|].
    + destruct Hih as [Hk Hf]. split; [by rewrite <-Hsame|by rewrite Hfin].
    + intros a Ha. rewrite <-Hsame in Ha. rewrite Hfin. auto.
  - intros c [= <-]. by rewrite <-Hsame.
Qed.

Definition start_of (t : RecentBlocksTracker T) : Z :=
  Z.max 0 (maximum_height_available t - window_size t) + 1.

Lemma window_start_Ok t : Pre t → window_start t = Ok (start_of t).
Proof.
  intros Hpre. unfold window_start, start_of. pose proof (i_window t Hpre). pose proof (i_max t Hpre).
  rewrite (proj2 (Z.leb_le _ _)); [done|assert (1 ≤ u64_max) by done; lia].
Qed.

Lemma foldl_min_le (l : list Z) x y : y ∈ x :: l → foldl Z.min x l ≤ y.
Proof.
  revert x y. induction l as [|z l IH]; intros x y Hy; [set_solver by lia|]. simpl.
  apply elem_of_cons in Hy as [->|Hy]; [|].
  - assert (foldl Z.min (x `min` z) l ≤ x `min` z) by (apply IH; set_solver). lia.
  - apply elem_of_cons in Hy as [->|Hy].
    + assert (foldl Z.min (x `min` z) l ≤ x `min` z) by (apply IH; set_solver). lia.
    + apply IH. set_solver.
Qed.

(** The height below which the tracker prunes. *)
Definition cut (t : RecentBlocksTracker T) (f : Arc) : Z := Z.min (start_of t) (height_in (heap t) f).

(** What pruning leaves. *)
Record Pruned (t : RecentBlocksTracker T) (min : Z) (t' : RecentBlocksTracker T) : Prop := {
  p_known a : known t' a ↔ known t a ∧ high (heap t) min a;
  p_hash a : hash_in (heap t') a = hash_in (heap t) a;
  p_height a : height_in (heap t') a = height_in (heap t) a;
  p_final a : final_in (heap t') a = final_in (heap t) a;
  p_par a b : known t' a → (par (heap t') a b ↔ par (heap t) a b ∧ high (heap t) min b);
  p_content a : known t' a → node_to_content t' !! hash_in (heap t) a = node_to_content t !! hash_in (heap t) a;
}.

(** With all the roots high enough, everything is. *)
Lemma roots_high t min : Pre t →
  (∀ r, r ∈ root_children t → min ≤ height_in (heap t) r) → ∀ a, known t a → high (heap t) min a.
Proof.
  intros Hpre Hroots a Ha. pose proof (i_tree t Hpre) as Htree.
  destruct (high_or_low _ _ _ Htree min a Ha) as [?|Hlow]; [done|].
  destruct (proj2 (visited_iff _ _ _ Htree min a Ha)) as (r & Hr & Hra).
  { intros p b Hp Hb. apply Hlow. by apply rtc_l with p. }
  specialize (Hroots r Hr). inversion Hra as [|? y ? [Hd _]]; subst; [|lia].
  exists a. split; [apply rtc_refl|done].
Qed.

Lemma prune_nothing t min : Pre t → (∀ a, known t a → high (heap t) min a) → Pruned t min t.
Proof.
  intros Hpre Hall. split; try done.
  - intros a. split; [|by intros [? _]]. intros Ha. split; [done|]. by apply Hall.
  - intros a b Ha. split; [|by intros [? _]]. intros Hp. split; [done|]. apply Hall.
    apply (anc_alive _ _ _ (i_tree t Hpre) a); [done|by apply rtc_once].
Qed.

Lemma prune_some t f (D O : list Arc) :
  Inv t → final_head t = Some f → collects (heap t) (cut t f) (root_children t) D O →
  let t' := mkRecentBlocksTracker (window_size t) D (canonical_head t) (final_head t)
      (maximum_height_available t) (pruned_map (heap t) O (hash_to_node t))
      (pruned_map (heap t) O (node_to_content t)) (pruned_heap (heap t) D) in
  Inv t' ∧ Pruned t (cut t f) t'.
Proof.
  intros [Hpre Htop] Hf Hcol t'. pose proof (i_tree t Hpre) as Htree.
  pose proof (pruned_alive _ _ _ Htree _ _ _ Hcol) as Halive.
  assert (Hfields := pruned_fields (heap t) D).
  pose proof (i_final_head t Hpre) as Hih. rewrite Hf in Hih. destruct Hih as [Hfk Hff].
  assert (Hhigh : ∀ a, height_in (heap t) f ≤ height_in (heap t) a → high (heap t) (cut t f) a).
  { intros a Hle. exists a. split; [apply rtc_refl|]. unfold cut. lia. }
  assert (Hpruned : Pruned t (cut t f) t').
  { split; simpl; try (intros a; apply (Hfields a)).
    - done.
    - intros a b [Ha Hh]%Halive. by apply (pruned_par _ _ _ Htree _ _ _ Hcol).
    - intros a [Ha Hh]%Halive. rewrite (pruned_map_alive _ _ _ Htree _ _ _ Hcol) by done.
      rewrite decide_False; [done|]. by intros [_ ?]%(old_iff _ _ _ Htree _ _ _ Hcol). }
  split; [|done]. split; [split|]; simpl; try apply Hpre.
  - exact (pruned_tree _ _ _ Htree _ D O Hcol).
  - intros hash. rewrite !(pruned_map_lookup _ _ _ Htree (cut t f) D O Hcol). case_decide; [done|]. apply Hpre.
  - intros a b [Ha Hh]%Halive Hfa [Hp _]%pruned_par_iff.
    destruct (Hfields a) as (_ & _ & Ea & _), (Hfields b) as (_ & _ & Eb & _).
    rewrite Eb. rewrite Ea in Hfa. by apply (i_final t Hpre a).
  - rewrite Hf. destruct (Hfields f) as (_ & _ & -> & _). split; [|done]. apply Halive. split; [done|].
    by apply Hhigh.
  - intros a [Ha Hh]%Halive. destruct (Hfields a) as (_ & _ & _ & -> & _). rewrite (i_canon t Hpre a Ha).
    split; intros (c & Hc & Hca); exists c; (split; [done|]);
      by apply (pruned_anc _ _ _ Htree _ _ _ Hcol c a (i_canon_known t Hpre c Hc) Hh).
  - intros c Hc. apply Halive. split; [by apply (i_canon_known t Hpre)|]. apply Hhigh.
    unfold top in Htop. rewrite Hc in Htop. by apply Htop.
  - unfold top in *. simpl. destruct (canonical_head t) as [c|]; [|by rewrite Htop in Hfk; destruct Hfk as [n [_ ?]]].
    intros a [Ha _]%Halive. destruct (Hfields a) as (_ & -> & _), (Hfields c) as (_ & -> & _). by apply Htop.
Qed.

Lemma prune_effect t :
  Inv t → ∃ t', prune_old_blocks t = Ok t' ∧ Inv t' ∧
  window_size t' = window_size t ∧ canonical_head t' = canonical_head t ∧
  final_head t' = final_head t ∧ maximum_height_available t' = maximum_height_available t ∧
  match final_head t with None => t' = t | Some f => Pruned t (cut t f) t' end.
Proof.
  intros Hinv. pose proof (proj1 Hinv) as Hpre. unfold prune_old_blocks, minimum_height_to_keep.
  destruct (final_head t) as [f|] eqn:Hf; [|exists t; naive_solver].
  rewrite window_start_Ok by done. cbn [mbind result_bind].
  fold (height_in (heap t) f). fold (cut t f). fold (height_in (heap t)).
  destruct (Z.leb_spec (cut t f) (match height_in (heap t) <$> root_children t with
    [] => 0 | x :: l => foldl Z.min x l end)) as [Hle|Hlt].
  - exists t. split; [done|]. split; [done|]. do 3 (split; [done|]). split; [done|].
    apply prune_nothing; [done|]. apply roots_high; [done|]. intros r Hr.
    assert (Hin : height_in (heap t) r ∈ height_in (heap t) <$> root_children t) by (apply list_elem_of_fmap; eauto).
    destruct (height_in (heap t) <$> root_children t) as [|x l]; [set_solver|].
    pose proof (foldl_min_le l x _ Hin). lia.
  - destruct (foldl _ ([], []) (root_children t)) as [D O] eqn:Hfold.
    apply (collect_roots _ _ _ (i_tree t Hpre)) in Hfold.
    destruct (prune_some t f D O Hinv Hf Hfold) as [Hinv' Hpr]. rewrite Hf in Hinv', Hpr.
    eexists. split; [done|]. split; [exact Hinv'|]. do 4 (split; [done|]). exact Hpr.
Qed.
End Ops.
