(* ===== verification/RecentBlocksRun.v ===== *)
(** * Node: the recent blocks tracker against the history of blocks

    The tracker forgets old blocks and works on a mutable tree. Here its answers are
    described by the list of all the blocks it was given: for an indexer that keeps the
    order the documentation of [RecentBlocksTracker] asks for, the known nodes are the
    blocks above a floor, their flags are those of the block chain, and the blocks
    returned as final form one chain. *)

From S2P Require Import Prelude Types NodePrimitives RecentBlocks RecentBlocksProofs RecentBlocksInv.

Implicit Types (b x y p q : BlockViewLite) (bs : list BlockViewLite).

(** ** Block chains *)

Definition blink (bs : list BlockViewLite) (x p : BlockViewLite) : Prop :=
  x ∈ bs ∧ p ∈ bs ∧ bv_prev_hash x = bv_hash p.

(** [banc bs x y]: [y] is [x] or an ancestor of it. *)
Definition banc (bs : list BlockViewLite) : BlockViewLite → BlockViewLite → Prop := rtc (blink bs).

(** [x] was given and some given block says that it is final. *)
Definition announced (bs : list BlockViewLite) (x : BlockViewLite) : Prop :=
  x ∈ bs ∧ ∃ b, b ∈ bs ∧ bv_last_final_block b = bv_hash x.

(** The order in which the indexer gives blocks: no block twice, none before its parent or
    before a block that announces it as final, heights grow along the chain, and the
    announced final blocks are on one chain. *)
Inductive indexer_ok : list BlockViewLite → Prop :=
  | indexer_nil : indexer_ok []
  | indexer_snoc bs b :
      indexer_ok bs → 0 ≤ bv_height b ≤ u64_max →
      (∀ x, x ∈ bs → bv_hash x ≠ bv_hash b) →
      bv_prev_hash b ≠ bv_hash b → (∀ x, x ∈ bs → bv_prev_hash x ≠ bv_hash b) →
      (∀ x, x ∈ bs → bv_prev_hash b = bv_hash x → bv_height x < bv_height b) →
      bv_last_final_block b ≠ bv_hash b → (∀ x, x ∈ bs → bv_last_final_block x ≠ bv_hash b) →
      (∀ x y, x ∈ bs → bv_last_final_block b = bv_hash x → announced bs y → banc bs x y ∨ banc bs y x) →
      indexer_ok (bs ++ [b]).

(** The head of the canonical chain: the first block of the greatest height. *)
Definition top_block (bs : list BlockViewLite) : option BlockViewLite :=
  foldl (λ head b,
    match head with
    | None => Some b
    | Some x => if bv_height x <? bv_height b then Some b else head
    end) None bs.

Lemma indexer_ok_unsnoc bs b : indexer_ok (bs ++ [b]) →
  indexer_ok bs ∧ 0 ≤ bv_height b ≤ u64_max ∧
  (∀ x, x ∈ bs → bv_hash x ≠ bv_hash b) ∧
  (∀ x, x ∈ bs ++ [b] → bv_prev_hash x ≠ bv_hash b) ∧
  (∀ x, x ∈ bs → bv_prev_hash b = bv_hash x → bv_height x < bv_height b) ∧
  (∀ x, x ∈ bs ++ [b] → bv_last_final_block x ≠ bv_hash b) ∧
  (∀ x y, x ∈ bs → bv_last_final_block b = bv_hash x → announced bs y → banc bs x y ∨ banc bs y x).
Proof.
  intros Hok. inversion Hok as [E|bs' b' H1 H2 H3 H4 H5 H6 H7 H8 H9 E]; [by destruct bs|].
  apply app_inj_tail in E as [-> ->]. split; [done|]. split; [done|]. split; [done|].
  split; [set_solver|]. split; [done|]. split; [set_solver|done].
Qed.

Lemma hash_inj bs x y : indexer_ok bs → x ∈ bs → y ∈ bs → bv_hash x = bv_hash y → x = y.
Proof.
  induction 1 as [|bs b Hok IH _ Hne _ _ _ _ _ _]; [set_solver|].
  intros Hx%elem_of_app Hy%elem_of_app E. rewrite list_elem_of_singleton in Hx, Hy.
  destruct Hx as [Hx| ->], Hy as [Hy| ->]; [auto| | |done].
  - by destruct (Hne x Hx).
  - by destruct (Hne y Hy).
Qed.

Lemma height_nonneg bs x : indexer_ok bs → x ∈ bs → 0 ≤ bv_height x.
Proof. induction 1; set_solver by lia. Qed.

Lemma blink_height bs x p : indexer_ok bs → blink bs x p → bv_height p < bv_height x.
Proof.
  induction 1 as [|bs b Hok IH _ Hne Hpb Hprev Hh _ _ _]; intros (Hx & Hp & E); [set_solver|].
  apply elem_of_app in Hx, Hp. rewrite list_elem_of_singleton in Hx, Hp.
  destruct Hx as [Hx| ->], Hp as [Hp| ->].
  - apply IH. by split.
  - by destruct (Hprev x Hx).
  - by apply Hh.
  - done.
Qed.

Lemma banc_height bs x y : indexer_ok bs → banc bs x y → bv_height y ≤ bv_height x.
Proof.
  intros Hok. induction 1 as [|x p y Hl _ IH]; [lia|]. pose proof (blink_height _ _ _ Hok Hl). lia.
Qed.

Lemma banc_eq bs x y : indexer_ok bs → banc bs x y → bv_height x ≤ bv_height y → x = y.
Proof.
  intros Hok Hb Hle. destruct Hb as [|x p y Hl Hb]; [done|].
  pose proof (blink_height _ _ _ Hok Hl). pose proof (banc_height _ _ _ Hok Hb). lia.
Qed.

Lemma banc_in bs x y : x ∈ bs → banc bs x y → y ∈ bs.
Proof. intros Hx. induction 1 as [|x p y (_ & Hp & _) _ IH]; auto. Qed.

Lemma banc_snoc bs b x y :
  indexer_ok (bs ++ [b]) → x ∈ bs → banc (bs ++ [b]) x y ↔ banc bs x y.
Proof.
  intros (_ & _ & _ & Hprev & _)%indexer_ok_unsnoc Hx. split; intros Hb.
  - induction Hb as [|x p y (_ & Hp & E) _ IH]; [apply rtc_refl|].
    assert (Hpin : p ∈ bs).
    { apply elem_of_app in Hp as [?|Hp]; [done|]. apply list_elem_of_singleton in Hp as ->.
      destruct (Hprev x); set_solver. }
    apply rtc_l with p; [done|by apply IH].
  - clear Hx. induction Hb as [|x p y (Hx & Hp & E) _ IH]; [apply rtc_refl|].
    apply rtc_l with p; [|done]. split; [set_solver|]. split; [set_solver|done].
Qed.

Lemma banc_last bs b x : indexer_ok (bs ++ [b]) → x ∈ bs ++ [b] → banc (bs ++ [b]) x b → x = b.
Proof.
  intros Hok Hx Hb. apply elem_of_app in Hx as [Hx|Hx]; [|by apply list_elem_of_singleton in Hx].
  apply (banc_snoc _ _ _ _ Hok Hx) in Hb. apply banc_in in Hb; [|done].
  destruct (indexer_ok_unsnoc _ _ Hok) as (_ & _ & Hne & _). by destruct (Hne b Hb).
Qed.

Lemma announced_snoc bs b x : indexer_ok (bs ++ [b]) →
  announced (bs ++ [b]) x ↔ announced bs x ∨ (x ∈ bs ∧ bv_last_final_block b = bv_hash x).
Proof.
  intros (_ & _ & _ & _ & _ & Hlf & _)%indexer_ok_unsnoc. unfold announced. split.
  - intros [Hx (c & Hc & E)]. apply elem_of_app in Hx as [Hx|Hx].
    + apply elem_of_app in Hc as [?|Hc]; [eauto|]. apply list_elem_of_singleton in Hc as ->. auto.
    + apply list_elem_of_singleton in Hx as ->. by destruct (Hlf c).
  - intros [[Hx (c & Hc & E)]|[Hx E]]; (split; [set_solver|]); [exists c; set_solver|exists b; set_solver].
Qed.

Lemma top_block_snoc bs b : top_block (bs ++ [b]) =
  match top_block bs with
  | None => Some b
  | Some x => if bv_height x <? bv_height b then Some b else Some x
  end.
Proof. unfold top_block. rewrite foldl_app. simpl. by destruct (foldl _ _ _). Qed.

(** ** The nodes are the blocks above a floor *)

Section Refinement.
Context {T : Type}.
Implicit Types (t : RecentBlocksTracker T).

Definition node_of (t : RecentBlocksTracker T) (a : Arc) (b : BlockViewLite) : Prop :=
  hash_in (heap t) a = bv_hash b ∧ height_in (heap t) a = bv_height b.

Record Ref (bs : list BlockViewLite) (floor : Z) (t : RecentBlocksTracker T) : Prop := {
  r_known a : known t a → ∃ b, b ∈ bs ∧ node_of t a b;
  r_blocks b : b ∈ bs → floor ≤ bv_height b → ∃ a, known t a ∧ node_of t a b;
  r_par a c b p : known t a → known t c → b ∈ bs → p ∈ bs → node_of t a b → node_of t c p →
    (par (heap t) a c ↔ bv_prev_hash b = bv_hash p);
}.

Section Chains.
Context (bs : list BlockViewLite) (Hok : indexer_ok bs).
Context (floor : Z) (t : RecentBlocksTracker T) (Hpre : Pre t) (Href : Ref bs floor t).

Lemma node_of_fun a b b' : b ∈ bs → b' ∈ bs → node_of t a b → node_of t a b' → b = b'.
Proof. intros Hb Hb' [E _] [E' _]. apply (hash_inj bs); [done..|congruence]. Qed.

Lemma node_of_inj a a' b : known t a → known t a' → node_of t a b → node_of t a' b → a = a'.
Proof. intros Ha Ha' [E _] [E' _]. apply (alive_hash_inj (heap t) (hash_to_node t)); [done..|congruence]. Qed.

Lemma anc_banc a c b y :
  known t a → b ∈ bs → y ∈ bs → node_of t a b → node_of t c y → anc (heap t) a c → banc bs b y.
Proof.
  intros Ha Hb Hy Hab Hcy Hanc. revert b Hb Hab Ha.
  induction Hanc as [a|a p c Hp Hpc IH]; intros b Hb Hab Ha.
  { rewrite (node_of_fun a b y) by done. apply rtc_refl. }
  assert (Hpk : known t p) by (apply (anc_alive _ _ _ (i_tree t Hpre) a); [done|by apply rtc_once]).
  destruct (r_known _ _ _ Href p Hpk) as (q & Hq & Hpq).
  apply rtc_l with q; [|by apply IH]. split; [done|]. split; [done|]. by eapply (r_par _ _ _ Href a p).
Qed.

Lemma banc_anc a b y :
  known t a → b ∈ bs → node_of t a b → floor ≤ bv_height y → banc bs b y →
  ∃ c, known t c ∧ node_of t c y ∧ anc (heap t) a c.
Proof.
  intros Ha Hb Hab Hfl Hbanc. revert a Ha Hb Hab.
  induction Hbanc as [b|b p y Hl Hpy IH]; intros a Ha Hb Hab.
  { exists a. split; [done|]. split; [done|]. apply rtc_refl. }
  pose proof Hl as (_ & Hp & E). pose proof (banc_height _ _ _ Hok Hpy).
  destruct (r_blocks _ _ _ Href p Hp) as (a' & Ha' & Hap); [lia|].
  destruct (IH Hfl a' Ha' Hp Hap) as (c & Hc & Hcy & Hanc). exists c. split; [done|]. split; [done|].
  apply rtc_l with a'; [|done]. by apply (r_par _ _ _ Href a a' b p).
Qed.

Lemma anc_iff_banc a c b y :
  known t a → known t c → b ∈ bs → y ∈ bs → node_of t a b → node_of t c y → floor ≤ bv_height y →
  anc (heap t) a c ↔ banc bs b y.
Proof.
  intros Ha Hc Hb Hy Hab Hcy Hfl. split; [by apply anc_banc|]. intros Hban.
  destruct (banc_anc a b y) as (c' & Hc' & Hcy' & Hanc); [done..|].
  by rewrite (node_of_inj c c' y).
Qed.

(** Heights grow along the parents of the tree too. *)
Lemma anc_height a c : known t a → anc (heap t) a c → height_in (heap t) c ≤ height_in (heap t) a.
Proof.
  intros Ha Hanc. assert (Hc : known t c) by (by apply (anc_alive _ _ _ (i_tree t Hpre) a)).
  destruct (r_known _ _ _ Href a Ha) as (b & Hb & Hab), (r_known _ _ _ Href c Hc) as (y & Hy & Hcy).
  pose proof (banc_height _ _ _ Hok (anc_banc a c b y Ha Hb Hy Hab Hcy Hanc)).
  destruct Hab as [_ ->], Hcy as [_ ->]. done.
Qed.

Lemma high_iff min a : known t a → high (heap t) min a ↔ min ≤ height_in (heap t) a.
Proof.
  intros Ha. split.
  - intros (c & Hanc & Hc). pose proof (anc_height a c Ha Hanc). lia.
  - intros Hle. exists a. split; [apply rtc_refl|done].
Qed.
End Chains.

(** The stages keep the correspondence. *)
Lemma same_but_flags_Ref bs floor t t' : same_but_flags t t' → Ref bs floor t → Ref bs floor t'.
Proof.
  intros (_ & _ & _ & Hm & _ & Hsame) [Hk Hb Hp].
  assert (Hnode : ∀ a b, node_of t a b ↔ node_of t' a b).
  { intros a b. unfold node_of. by rewrite (same_tree_hash _ _ a Hsame), (same_tree_height _ _ a Hsame). }
  split.
  - intros a Ha. rewrite Hm, <-Hsame in Ha. destruct (Hk a Ha) as (b & ? & ?). exists b. by rewrite <-Hnode.
  - intros b Hin Hfl. destruct (Hb b Hin Hfl) as (a & ? & ?). exists a. rewrite <-Hnode, Hm. by rewrite <-Hsame.
  - intros a c b p Ha Hc Hbin Hpin Hab Hcp. rewrite Hm, <-Hsame in Ha, Hc. rewrite <-Hnode in Hab, Hcp.
    rewrite <-Hsame. by apply Hp.
Qed.

Lemma insert_Ref bs floor t b content :
  indexer_ok (bs ++ [b]) → Pre t → hash_to_node t !! bv_hash b = None → Ref bs floor t →
  Ref (bs ++ [b]) floor (insert_node t b content).1.
Proof.
  intros Hok Hpre Hfresh [Hk Hb Hp]. rewrite insert_node_eq. pose proof (i_tree t Hpre) as Htree.
  destruct (indexer_ok_unsnoc _ _ Hok) as (Hok' & _ & Hne & Hprev & _).
  assert (Halive := insert_alive _ _ _ Htree _ (bv_height b) (bv_prev_hash b) Hfresh).
  assert (Hpar := insert_par _ _ _ Htree (bv_hash b) (bv_height b) (bv_prev_hash b)).
  set (t1 := mkRecentBlocksTracker _ _ _ _ _ _ _ _). cbn [fst].
  assert (Hold : ∀ a c, known t a → node_of t1 a c ↔ node_of t a c).
  { intros a c Ha. unfold node_of. simpl.
    by destruct (insert_fields (heap t) (hash_to_node t) (bv_hash b) (bv_height b) (bv_prev_hash b) a) as (-> & -> & _);
      [by eapply alive_lt|]. }
  assert (Hnew : ∀ c, node_of t1 (length (heap t)) c ↔ bv_hash b = bv_hash c ∧ bv_height b = bv_height c).
  { intros c. unfold node_of, hash_in, height_in. simpl.
    by rewrite (list_lookup_total_correct _ _ _ (insert_lookup_new _ _ _ Htree _ _ _)). }
  assert (Hnewb : ∀ c, c ∈ bs ++ [b] → node_of t1 (length (heap t)) c → c = b).
  { intros c Hc [E _]%Hnew. symmetry. apply (hash_inj (bs ++ [b])); [done|set_solver|done|done]. }
  assert (Holdb : ∀ a c, known t a → c ∈ bs ++ [b] → node_of t1 a c → c ∈ bs).
  { intros a c Ha Hc Hac%Hold; [|done]. apply elem_of_app in Hc as [?|Hc]; [done|].
    apply list_elem_of_singleton in Hc as ->. destruct (Hk a Ha) as (c & Hc & [E _]).
    destruct Hac as [E' _]. destruct (Hne c); [done|congruence]. }
  split.
  - intros a [->|Ha]%Halive; [exists b; split; [set_solver|by apply Hnew]|].
    destruct (Hk a Ha) as (c & Hc & Hac). exists c. split; [set_solver|by apply Hold].
  - intros c Hc Hfl. apply elem_of_app in Hc as [Hc|Hc].
    + destruct (Hb c Hc Hfl) as (a & Ha & Hac). exists a. split; [apply Halive; auto|by apply Hold].
    + apply list_elem_of_singleton in Hc as ->. exists (length (heap t)).
      split; [apply Halive; auto|by apply Hnew].
  - intros a c d p [->|Ha]%Halive [->|Hc]%Halive Hd Hpin Had Hcp; simpl; rewrite Hpar.
    + assert (d = b) as -> by auto. assert (p = b) as -> by auto. split; [|intros E; by destruct (Hprev b Hd)].
      intros [(n & Hn & _)|[_ Hm]]; [apply lookup_lt_Some in Hn; lia|].
      apply (insert_parent_lt _ _ _ Htree) in Hm. lia.
    + assert (d = b) as -> by auto. apply Hold in Hcp; [|done]. split.
      * intros [(n & Hn & _)|[_ Hm]]; [apply lookup_lt_Some in Hn; lia|].
        destruct (map_live _ _ _ Htree _ _ Hm) as (n & Hl & Hh). destruct Hcp as [E _].
        unfold hash_in in E. rewrite (live_lookup_total _ _ _ _ Hl) in E. congruence.
      * intros E. right. split; [done|]. apply alive_alt in Hc as [_ Hm]. destruct Hcp as [E' _]. congruence.
    + assert (p = b) as -> by auto. split; [|intros E; by destruct (Hprev d Hd)].
      intros [Hp'|[-> _]]; [|apply alive_lt in Ha; lia].
      pose proof (t_parent _ _ _ Htree _ _ Hp'). apply alive_lt in Ha. lia.
    + pose proof (Holdb a d Ha Hd Had) as Hd'. pose proof (Holdb c p Hc Hpin Hcp) as Hp'.
      apply Hold in Had, Hcp; [|done..]. rewrite <-(Hp a c d p) by done. split; [|auto].
      intros [?|[-> _]]; [done|]. apply alive_lt in Ha. lia.
Qed.

Lemma prune_Ref bs floor t min t' :
  indexer_ok bs → Pre t → Ref bs floor t → floor ≤ min → Pruned t min t' → Pre t' →
  Ref bs min t' ∧ ∀ a, known t' a → min ≤ height_in (heap t') a.
Proof.
  intros Hok Hpre Href Hle [Hk Hhash Hheight _ Hpar _] Hpre'. pose proof Href as [Hrk Hrb Hrp].
  assert (Hnode : ∀ a b, node_of t' a b ↔ node_of t a b).
  { intros a b. unfold node_of. by rewrite Hhash, Hheight. }
  assert (Hknown : ∀ a, known t' a ↔ known t a ∧ min ≤ height_in (heap t) a).
  { intros a. rewrite Hk. split; intros [Ha Hh]; (split; [done|]); by apply (high_iff bs Hok floor t Hpre Href). }
  split; [split|].
  - intros a [Ha _]%Hknown. destruct (Hrk a Ha) as (b & ? & ?). exists b. by rewrite Hnode.
  - intros b Hb Hm. destruct (Hrb b Hb) as (a & Ha & Hab); [lia|]. exists a. rewrite Hnode, Hknown.
    split; [|done]. split; [done|]. destruct Hab as [_ ->]. lia.
  - intros a c b p Ha Hc Hb Hp Hab Hcp. rewrite Hpar by done. rewrite Hnode in Hab, Hcp.
    apply Hk in Ha as [Ha _], Hc as [Hc Hch]. rewrite <-(Hrp a c b p) by done. naive_solver.
  - intros a [Ha Hm]%Hknown. by rewrite Hheight.
Qed.
End Refinement.

(** ** Node: histories of the recent blocks tracker

    The correspondence above along any sequence of [add_block] and
    [notify_maximum_height_available]. *)

Section Run.
Context {T : Type}.
Implicit Types (t : RecentBlocksTracker T).

(** The tracker against the blocks it was given; new nodes may be below the floor until
    they are pruned. *)
Record Mid (bs : list BlockViewLite) (floor : Z) (t : RecentBlocksTracker T) : Prop := {
  k_ref : Ref bs floor t;
  k_start : floor ≤ start_of t;
  k_final a b : known t a → b ∈ bs → node_of t a b → floor ≤ bv_height b →
    (final_in (heap t) a = true ↔ ∃ x, announced bs x ∧ banc bs x b);
  k_final_head :
    match final_head t with
    | None => floor ≤ 0 ∧ ∀ x, ¬ announced bs x
    | Some f => ∃ x, announced bs x ∧ node_of t f x ∧ floor ≤ bv_height x ∧
                ∀ y, announced bs y → banc bs x y
    end;
  k_canonical_head :
    match canonical_head t with
    | None => bs = []
    | Some c => ∃ x, x ∈ bs ∧ node_of t c x ∧ top_block bs = Some x
    end;
}.

Definition above (floor : Z) (t : RecentBlocksTracker T) : Prop :=
  ∀ a, known t a → floor ≤ height_in (heap t) a.

Definition Track (bs : list BlockViewLite) (t : RecentBlocksTracker T) : Prop :=
  Inv t ∧ ∃ floor, Mid bs floor t ∧ above floor t.

(** ** Raising the maximum height *)

Lemma set_maximum_Inv t height :
  Inv t → maximum_height_available t ≤ height ≤ u64_max → Inv (set_maximum_height t height).
Proof.
  intros [Hpre Htop] Hle. split; [|done]. destruct Hpre. split; try done. simpl. lia.
Qed.

Lemma set_maximum_Mid bs floor t height :
  maximum_height_available t ≤ height → Mid bs floor t → Mid bs floor (set_maximum_height t height).
Proof.
  intros Hle [Href Hstart Hfin Hfh Hch]. split; try done.
  - by destruct Href; split.
  - unfold start_of in *. simpl. lia.
Qed.

(** ** Pruning *)

Lemma prune_Track bs floor t :
  indexer_ok bs → Inv t → Mid bs floor t →
  ∃ t', prune_old_blocks t = Ok t' ∧ Track bs t' ∧ final_head t' = final_head t ∧
    (∀ a, known t' a → known t a) ∧
    (∀ a, hash_in (heap t') a = hash_in (heap t) a ∧ height_in (heap t') a = height_in (heap t) a) ∧
    (∀ a, known t' a → node_to_content t' !! hash_in (heap t) a = node_to_content t !! hash_in (heap t) a).
Proof.
  intros Hok Hinv [Href Hstart Hfin Hfh Hch].
  destruct (prune_effect t Hinv) as (t' & Ht' & Hinv' & Hw & Hc & Hf & Hmax & Hpr).
  exists t'. split; [done|]. destruct (final_head t) as [f|] eqn:Hfe.
  - destruct Hfh as (x & Hx & Hfx & Hflx & Hall).
    assert (Hcut : floor ≤ cut t f) by (unfold cut; destruct Hfx as [_ ->]; lia).
    destruct (prune_Ref bs floor t (cut t f) t' Hok (proj1 Hinv) Href Hcut Hpr (proj1 Hinv')) as [Href' Habove].
    pose proof Hpr as [Hk Hhash Hheight Hfinal Hpar Hcontent].
    assert (Hnode : ∀ a b, node_of t' a b ↔ node_of t a b).
    { intros a b. unfold node_of. by rewrite Hhash, Hheight. }
    split; [|split; [done|split; [naive_solver|split; [naive_solver|done]]]].
    split; [done|]. exists (cut t f). split; [|done]. split.
    + done.
    + unfold start_of. rewrite Hw, Hmax. unfold cut, start_of. lia.
    + intros a b [Ha _]%Hk Hb Hab Hfl. rewrite Hfinal. apply Hfin; [done|done|by rewrite <-Hnode|lia].
    + rewrite Hf. exists x. rewrite Hnode. split; [done|]. split; [done|]. split; [|done].
      unfold cut. destruct Hfx as [_ ->]. lia.
    + rewrite Hc. destruct (canonical_head t) as [c|]; [|done]. destruct Hch as (y & ? & ? & ?).
      exists y. by rewrite Hnode.
  - subst t'. split; [|naive_solver]. split; [done|]. exists floor. split.
    + split; try done. by rewrite Hfe.
    + intros a Ha. destruct (r_known _ _ _ Href a Ha) as (b & Hb & [_ ->]).
      pose proof (height_nonneg _ _ Hok Hb). lia.
Qed.

(** ** The final chain *)

Section Final.
Context (bs : list BlockViewLite) (b : BlockViewLite) (Hok : indexer_ok (bs ++ [b])).
Context (floor : Z) (t : RecentBlocksTracker T) (Hinv : Inv t) (Hmid : Mid bs floor t) (Habove : above floor t).
Context (content : T).

Lemma fresh_hash : hash_to_node t !! bv_hash b = None.
Proof.
  destruct (hash_to_node t !! bv_hash b) as [a|] eqn:Ha; [|done]. exfalso.
  destruct (map_live _ _ _ (i_tree t (proj1 Hinv)) _ _ Ha) as (n & Hl & Hn).
  destruct (r_known _ _ _ (k_ref _ _ _ Hmid) a) as (c & Hc & [E _]); [by exists n|].
  unfold hash_in in E. rewrite (live_lookup_total _ _ _ _ Hl) in E.
  destruct (indexer_ok_unsnoc _ _ Hok) as (_ & _ & Hne & _). destruct (Hne c); [done|congruence].
Qed.

Abbreviation t1 := (insert_node t b content).1.

Lemma t1_Pre : Pre t1.
Proof. apply insert_node_Pre; [done|apply fresh_hash]. Qed.

Lemma t1_Ref : Ref (bs ++ [b]) floor t1.
Proof. apply insert_Ref; [done|apply Hinv|apply fresh_hash|apply Hmid]. Qed.

Lemma t1_known a : known t1 a ↔ a = length (heap t) ∨ known t a.
Proof. exact (insert_alive _ _ _ (i_tree t (proj1 Hinv)) _ (bv_height b) (bv_prev_hash b) fresh_hash a). Qed.

Lemma t1_fields a : known t a →
  hash_in (heap t1) a = hash_in (heap t) a ∧ height_in (heap t1) a = height_in (heap t) a ∧
  final_in (heap t1) a = final_in (heap t) a.
Proof.
  intros Ha. destruct (insert_fields (heap t) (hash_to_node t) (bv_hash b) (bv_height b) (bv_prev_hash b) a)
    as (? & ? & ? & _); [by eapply alive_lt|done].
Qed.

Lemma t1_new : node_of t1 (length (heap t)) b ∧ final_in (heap t1) (length (heap t)) = false.
Proof.
  assert (E := list_lookup_total_correct _ _ _
    (insert_lookup_new _ _ _ (i_tree t (proj1 Hinv)) (bv_hash b) (bv_height b) (bv_prev_hash b))).
  rewrite insert_node_eq. unfold node_of, hash_in, height_in, final_in. cbn [fst heap]. by rewrite E.
Qed.

(** [x] is what [b] announces. *)
Abbreviation newly x := (x ∈ bs ∧ bv_last_final_block b = bv_hash x).

(** The node that [b] announces as final, if it is known. *)
Lemma announced_node f :
  hash_to_node t1 !! bv_last_final_block b = Some f →
  ∃ x, newly x ∧ known t f ∧ node_of t1 f x ∧ floor ≤ bv_height x.
Proof.
  intros Hf. destruct (map_live _ _ _ (i_tree _ t1_Pre) _ _ Hf) as (n & Hl & Hn).
  assert (Hk : known t1 f) by (by exists n). destruct (r_known _ _ _ t1_Ref f Hk) as (x & Hx & Hfx).
  assert (E : bv_last_final_block b = bv_hash x).
  { destruct Hfx as [<- _]. unfold hash_in. by rewrite (live_lookup_total _ _ _ _ Hl). }
  destruct (indexer_ok_unsnoc _ _ Hok) as (_ & _ & _ & _ & _ & Hlf & _).
  assert (Hxb : x ≠ b) by (intros ->; by destruct (Hlf b); [set_solver|]).
  assert (Hxbs : x ∈ bs) by set_solver. exists x. split; [done|].
  apply t1_known in Hk as [->|Hk].
  { destruct Hxb. eapply (node_of_fun (bs ++ [b])); [done|done|set_solver|done|apply t1_new]. }
  split; [done|]. split; [done|]. destruct Hfx as [_ <-].
  destruct (t1_fields f Hk) as (_ & -> & _). by apply Habove.
Qed.

(** If it is not known, it is below the floor. *)
Lemma announced_unknown x :
  newly x → hash_to_node t1 !! bv_last_final_block b = None → bv_height x < floor.
Proof.
  intros [Hx E] Hnone. apply Z.nle_gt. intros Hle.
  destruct (r_blocks _ _ _ t1_Ref x) as (a & Ha & [Ea _]); [set_solver|done|].
  apply alive_alt in Ha as [_ Ha]. rewrite Ea, <-E in Ha. congruence.
Qed.

Lemma newly_chain a d :
  known t1 a → d ∈ bs ++ [b] → node_of t1 a d → floor ≤ bv_height d →
  (∃ f, hash_to_node t1 !! bv_last_final_block b = Some f ∧ anc (heap t1) f a) ↔
  ∃ x, newly x ∧ banc (bs ++ [b]) x d.
Proof.
  intros Ha Hd Had Hfl. split.
  - intros (f & Hf & Hanc). destruct (announced_node f Hf) as (x & [Hx E] & Hk & Hfx & _).
    exists x. split; [done|]. eapply (anc_banc _ Hok floor t1 t1_Pre t1_Ref f a); try done; [|set_solver].
    apply t1_known. auto.
  - intros (x & Hnew & Hb). destruct (hash_to_node t1 !! bv_last_final_block b) as [f|] eqn:Hf.
    + exists f. split; [done|]. destruct (announced_node f Hf) as (x' & [Hx' E'] & Hk & Hfx & _).
      assert (x' = x) as ->.
      { apply (hash_inj (bs ++ [b])); [done|set_solver|set_solver|]. destruct Hnew. congruence. }
      apply (anc_iff_banc _ Hok floor t1 t1_Pre t1_Ref f a x d); try done; [|set_solver].
      apply t1_known. auto.
    + pose proof (announced_unknown x Hnew Hf). pose proof (banc_height _ _ _ Hok Hb). lia.
Qed.

Lemma t1_final a d :
  known t1 a → d ∈ bs ++ [b] → node_of t1 a d → floor ≤ bv_height d →
  (final_in (heap t1) a = true ↔ ∃ x, announced bs x ∧ banc (bs ++ [b]) x d).
Proof.
  intros Ha Hd Had Hfl. apply t1_known in Ha as [->|Ha].
  - destruct t1_new as [Hb ->]. split; [done|]. intros (x & [Hx _] & Hxd).
    assert (d = b) as -> by (eapply (node_of_fun (bs ++ [b])); [done|done|set_solver|done|done]).
    apply banc_last in Hxd; [|done|set_solver]. subst x.
    destruct (indexer_ok_unsnoc _ _ Hok) as (_ & _ & Hne & _). by destruct (Hne b).
  - destruct (t1_fields a Ha) as (Eh & Ehh & ->).
    assert (Hadt : node_of t a d) by (unfold node_of; by rewrite <-Eh, <-Ehh).
    assert (Hdbs : d ∈ bs).
    { destruct (r_known _ _ _ (k_ref _ _ _ Hmid) a Ha) as (d' & Hd' & [E _]). destruct Hadt as [E' _].
      assert (d = d') as ->; [|done]. apply (hash_inj (bs ++ [b])); [done|done|set_solver|congruence]. }
    rewrite (k_final _ _ _ Hmid a d) by done.
    split; intros (x & Hx & Hxd); exists x; (split; [done|]); apply (banc_snoc _ _ _ _ Hok); try done; apply Hx.
Qed.

Context (t2 : RecentBlocksTracker T) (new : list Arc).
Context (Hupd : maybe_update_final_head t1 (bv_last_final_block b) = (t2, new)).

Lemma t2_node a d : node_of t2 a d ↔ node_of t1 a d.
Proof.
  destruct (update_final_effect _ _ _ _ t1_Pre Hupd) as (_ & (_ & _ & _ & _ & _ & Hsame) & _).
  unfold node_of. by rewrite (same_tree_hash _ _ a Hsame), (same_tree_height _ _ a Hsame).
Qed.

Lemma t2_known a : known t2 a ↔ known t1 a.
Proof.
  destruct (update_final_effect _ _ _ _ t1_Pre Hupd) as (_ & (_ & _ & _ & Hm & _ & Hsame) & _).
  by rewrite Hm, <-Hsame.
Qed.

Lemma t2_final a d :
  known t2 a → d ∈ bs ++ [b] → node_of t2 a d → floor ≤ bv_height d →
  (final_in (heap t2) a = true ↔ ∃ x, announced (bs ++ [b]) x ∧ banc (bs ++ [b]) x d).
Proof.
  rewrite t2_known, t2_node. intros Ha Hd Had Hfl.
  destruct (update_final_effect _ _ _ _ t1_Pre Hupd) as (_ & _ & _ & Hcase).
  trans (final_in (heap t1) a = true ∨
    ∃ f, hash_to_node t1 !! bv_last_final_block b = Some f ∧ anc (heap t1) f a).
  - destruct (hash_to_node t1 !! bv_last_final_block b) as [f|].
    + destruct Hcase as (_ & Hflag & _). rewrite Hflag by done. naive_solver.
    + destruct Hcase as [-> _]. naive_solver.
  - rewrite (t1_final a d), (newly_chain a d) by done. setoid_rewrite (announced_snoc _ _ _ Hok). naive_solver.
Qed.

(** The final head after the update. *)
Definition head_ok (head : option Arc) : Prop :=
  match head with
  | None => floor ≤ 0 ∧ ∀ x, ¬ (announced bs x ∨ newly x)
  | Some f => ∃ x, (announced bs x ∨ newly x) ∧ node_of t1 f x ∧ floor ≤ bv_height x ∧
              ∀ y, announced bs y ∨ newly y → banc (bs ++ [b]) x y
  end.

Lemma newly_fun x y : newly x → newly y → x = y.
Proof. intros [Hx Ex] [Hy Ey]. apply (hash_inj (bs ++ [b])); [done|set_solver|set_solver|congruence]. Qed.

Lemma banc_grows x y : x ∈ bs → banc bs x y → banc (bs ++ [b]) x y.
Proof. intros Hx Hxy. by apply (banc_snoc _ _ _ _ Hok). Qed.

Lemma old_final_head f : final_head t = Some f →
  ∃ x, announced bs x ∧ node_of t1 f x ∧ floor ≤ bv_height x ∧ ∀ y, announced bs y → banc bs x y.
Proof.
  intros Hf. pose proof (k_final_head _ _ _ Hmid) as Hhead. rewrite Hf in Hhead.
  destruct Hhead as (x & Hx & Hfx & Hrest). exists x. split; [done|]. split; [|done].
  pose proof (i_final_head t (proj1 Hinv)) as Hi. rewrite Hf in Hi. destruct Hi as [Hk _].
  destruct (t1_fields f Hk) as (E1 & E2 & _). unfold node_of. by rewrite E1, E2.
Qed.

Lemma head_known f : hash_to_node t1 !! bv_last_final_block b = Some f → head_ok (higher_final t1 f).
Proof.
  intros Hf. destruct (announced_node f Hf) as (y & Hy & Hfk & Hfy & Hfly).
  destruct (indexer_ok_unsnoc _ _ Hok) as (Hokbs & _ & _ & _ & _ & _ & Hlin).
  assert (Hown : (∀ z, announced bs z → banc (bs ++ [b]) y z) → head_ok (Some f)).
  { intros Hz. exists y. split; [auto|]. split; [done|]. split; [done|]. intros z [?|?]; [auto|].
    rewrite (newly_fun z y) by done. apply rtc_refl. }
  unfold higher_final. change (final_head t1) with (final_head t).
  destruct (final_head t) as [f0|] eqn:Hf0.
  - destruct (old_final_head f0 Hf0) as (x & Hx & Hfx & Hflx & Hall).
    assert (E3 : height_in (heap t1) f0 = bv_height x) by apply Hfx.
    assert (E4 : height_in (heap t1) f = bv_height y) by apply Hfy. rewrite E3, E4.
    assert (Hstay : banc bs x y → head_ok (Some f0)).
    { intros Hxy. exists x. split; [auto|]. split; [done|]. split; [done|].
      intros z [Hz|Hz]; (apply banc_grows; [apply Hx|]); [by apply Hall|by rewrite (newly_fun z y)]. }
    destruct (Hlin y x (proj1 Hy) (proj2 Hy) Hx) as [Hyx|Hxy].
    + destruct (Z.ltb_spec (bv_height x) (bv_height y)) as [Hlt|Hge].
      * apply Hown. intros z Hz. apply banc_grows; [apply Hy|]. trans x; [done|]. by apply Hall.
      * apply Hstay. rewrite (banc_eq _ _ _ Hokbs Hyx Hge). apply rtc_refl.
    + rewrite (proj2 (Z.ltb_ge _ _) (banc_height _ _ _ Hokbs Hxy)). by apply Hstay.
  - apply Hown. intros z Hz. pose proof (k_final_head _ _ _ Hmid) as Hhead. rewrite Hf0 in Hhead.
    by destruct (proj2 Hhead z).
Qed.

Lemma head_unknown : hash_to_node t1 !! bv_last_final_block b = None → head_ok (final_head t).
Proof.
  intros Hf. destruct (indexer_ok_unsnoc _ _ Hok) as (Hokbs & _ & _ & _ & _ & _ & Hlin).
  pose proof (λ x Hx, announced_unknown x Hx Hf) as Hlow. destruct (final_head t) as [f0|] eqn:Hf0.
  - destruct (old_final_head f0 Hf0) as (x & Hx & Hfx & Hflx & Hall).
    exists x. split; [auto|]. split; [done|]. split; [done|].
    intros z [Hz|Hz]; (apply banc_grows; [apply Hx|]); [by apply Hall|].
    destruct (Hlin z x (proj1 Hz) (proj2 Hz) Hx) as [Hzx|?]; [|done].
    pose proof (banc_height _ _ _ Hokbs Hzx). specialize (Hlow z Hz). lia.
  - pose proof (k_final_head _ _ _ Hmid) as Hhead. rewrite Hf0 in Hhead.
    destruct Hhead as [Hfl Hno]. split; [done|]. intros x [Hx|Hx]; [by destruct (Hno x)|].
    specialize (Hlow x Hx). pose proof (height_nonneg bs x Hokbs (proj1 Hx)). lia.
Qed.

Lemma t2_final_head :
  match final_head t2 with
  | None => floor ≤ 0 ∧ ∀ x, ¬ announced (bs ++ [b]) x
  | Some f => ∃ x, announced (bs ++ [b]) x ∧ node_of t2 f x ∧ floor ≤ bv_height x ∧
              ∀ y, announced (bs ++ [b]) y → banc (bs ++ [b]) x y
  end.
Proof.
  assert (Hhead : head_ok (final_head t2)).
  { destruct (update_final_effect _ _ _ _ t1_Pre Hupd) as (_ & _ & _ & Hcase).
    destruct (hash_to_node t1 !! bv_last_final_block b) as [f|] eqn:Hf.
    - destruct Hcase as (-> & _). by apply head_known.
    - destruct Hcase as [-> _]. by apply head_unknown. }
  unfold head_ok in Hhead. destruct (final_head t2) as [f|].
  - destruct Hhead as (x & Hx & Hfx & Hfl & Hall). exists x. rewrite t2_node, (announced_snoc _ _ _ Hok).
    split; [done|]. split; [done|]. split; [done|]. intros y Hy%(announced_snoc _ _ _ Hok). auto.
  - destruct Hhead as [Hfl Hno]. split; [done|]. intros x Hx%(announced_snoc _ _ _ Hok). by apply (Hno x).
Qed.
End Final.

(** ** The canonical head *)

(** The part of [add_block] between the final chain and pruning. *)
Definition move_head (t : RecentBlocksTracker T) (node : Arc) (height : Z) : RecentBlocksTracker T :=
  let t :=
    match canonical_head t with
    | None => update_canonical_head t node
    | Some canonical_head =>
      if bn_height (heap t !!! canonical_head) <? height then update_canonical_head t node else t
    end in
  if maximum_height_available t <? height then set_maximum_height t height else t.

Definition higher_canonical (t : RecentBlocksTracker T) (node : Arc) : Arc :=
  match canonical_head t with
  | None => node
  | Some c => if height_in (heap t) c <? height_in (heap t) node then node else c
  end.

Lemma same_but_flags_refl t : same_but_flags t t.
Proof. by repeat split. Qed.

Lemma move_head_effect t node :
  Pre t → known t node → 0 ≤ height_in (heap t) node ≤ u64_max →
  (∀ a, known t a → a ≠ node → ∃ c, canonical_head t = Some c ∧ height_in (heap t) a ≤ height_in (heap t) c) →
  ∃ t' m, move_head t node (height_in (heap t) node) = set_maximum_height t' m ∧
    Inv (set_maximum_height t' m) ∧ same_but_flags t t' ∧ final_head t' = final_head t ∧
    canonical_head t' = Some (higher_canonical t node) ∧
    (∀ a, final_in (heap t') a = final_in (heap t) a) ∧ maximum_height_available t ≤ m.
Proof.
  intros Hpre Hnode Hheight Htop. set (height := height_in (heap t) node) in *.
  assert (Hhead : ∃ t', (match canonical_head t with
      | None => update_canonical_head t node
      | Some c => if bn_height (heap t !!! c) <? height then update_canonical_head t node else t
      end) = t' ∧ Pre t' ∧ same_but_flags t t' ∧ final_head t' = final_head t ∧
      canonical_head t' = Some (higher_canonical t node) ∧
      ∀ a, final_in (heap t') a = final_in (heap t) a).
  { destruct (update_canonical_effect t node Hpre Hnode) as (Hpre' & Hsame & Hc & Hf & Hfin).
    unfold higher_canonical. fold height. destruct (canonical_head t) as [c|] eqn:Hce.
    - fold (height_in (heap t) c). destruct (height_in (heap t) c <? height); eexists; (split; [done|]).
      + done.
      + split; [done|]. split; [apply same_but_flags_refl|done].
    - eexists. done. }
  destruct Hhead as (t' & Et' & Hpre' & Hsame & Hf & Hc & Hfin). unfold move_head. rewrite Et'.
  pose proof Hsame as (_ & _ & Hmax & Hm & _ & Htree).
  assert (Hinv' : Inv t').
  { split; [done|]. unfold top. rewrite Hc. intros a Ha. rewrite Hm, <-Htree in Ha.
    rewrite <-!(same_tree_height _ _ _ Htree). unfold higher_canonical.
    destruct (decide (a = node)) as [->|Hne].
    - destruct (canonical_head t) as [c|]; [|lia]. fold height.
      destruct (Z.ltb_spec (height_in (heap t) c) height); lia.
    - destruct (Htop a Ha Hne) as (c & -> & Hle). fold height.
      destruct (Z.ltb_spec (height_in (heap t) c) height); lia. }
  destruct (Z.ltb_spec (maximum_height_available t') height) as [Hlt|Hge].
  - exists t', height. split; [done|]. split; [apply set_maximum_Inv; [done|lia]|]. rewrite Hmax in Hlt.
    repeat (split; [done|]). lia.
  - exists t', (maximum_height_available t'). split; [by destruct t'|]. split; [by destruct t'|].
    repeat (split; [done|]). lia.
Qed.

(** ** One block *)

Lemma add_block_stages t b content t2 new :
  hash_to_node t !! bv_hash b = None →
  maybe_update_final_head (insert_node t b content).1 (bv_last_final_block b) = (t2, new) →
  add_block t b content =
    (t' ← prune_old_blocks (move_head t2 (length (heap t)) (bv_height b)); Ok (t', omap (final_content t2) new)).
Proof. intros Hfresh Hupd. unfold add_block. rewrite Hfresh. simpl in *. by rewrite Hupd. Qed.

Lemma same_but_flags_node t t' a b : same_but_flags t t' → node_of t' a b ↔ node_of t a b.
Proof.
  intros (_ & _ & _ & _ & _ & Hs). unfold node_of.
  by rewrite (same_tree_hash _ _ a Hs), (same_tree_height _ _ a Hs).
Qed.

Lemma same_but_flags_known t t' a : same_but_flags t t' → known t' a ↔ known t a.
Proof. intros (_ & _ & _ & Hm & _ & Hs). by rewrite Hm, <-Hs. Qed.

Section AddBlock.
Context (bs : list BlockViewLite) (b : BlockViewLite) (Hok : indexer_ok (bs ++ [b])).
Context (floor : Z) (t : RecentBlocksTracker T) (Hinv : Inv t) (Hmid : Mid bs floor t) (Habove : above floor t).
Context (content : T) (t2 : RecentBlocksTracker T) (new : list Arc).
Context (Hupd : maybe_update_final_head (insert_node t b content).1 (bv_last_final_block b) = (t2, new)).

Lemma t2_effect :
  Pre t2 ∧ same_but_flags (insert_node t b content).1 t2 ∧ canonical_head t2 = canonical_head t.
Proof.
  destruct (update_final_effect _ _ _ _ (t1_Pre bs b Hok floor t Hinv Hmid content) Hupd) as (? & ? & ? & _).
  done.
Qed.

Lemma t2_new : known t2 (length (heap t)) ∧ node_of t2 (length (heap t)) b.
Proof.
  split.
  - rewrite (t2_known bs b Hok floor t Hinv Hmid content t2 new Hupd).
    rewrite (t1_known bs b Hok floor t Hinv Hmid content). auto.
  - rewrite (t2_node bs b Hok floor t Hinv Hmid content t2 new Hupd). by eapply t1_new.
Qed.

Lemma t2_old a : known t a → known t2 a ∧ ∀ d, node_of t2 a d ↔ node_of t a d.
Proof.
  intros Ha. rewrite (t2_known bs b Hok floor t Hinv Hmid content t2 new Hupd).
  rewrite (t1_known bs b Hok floor t Hinv Hmid content). split; [auto|]. intros d.
  rewrite (t2_node bs b Hok floor t Hinv Hmid content t2 new Hupd). unfold node_of.
  destruct (t1_fields b t content a Ha) as (E1 & E2 & _). by rewrite E1, E2.
Qed.

Lemma t2_top a : known t2 a → a ≠ length (heap t) →
  ∃ c, canonical_head t2 = Some c ∧ height_in (heap t2) a ≤ height_in (heap t2) c.
Proof.
  rewrite (t2_known bs b Hok floor t Hinv Hmid content t2 new Hupd).
  rewrite (t1_known bs b Hok floor t Hinv Hmid content). intros [?|Ha] Hne; [done|].
  destruct t2_effect as (_ & _ & ->). destruct Hinv as [Hpre Htop]. unfold top in Htop.
  destruct (canonical_head t) as [c|] eqn:Hc; [|rewrite Htop in Ha; by destruct Ha as [n [_ ?]]].
  exists c. split; [done|]. pose proof (i_canon_known t Hpre c Hc) as Hck.
  assert (Hh : ∀ a, known t a → height_in (heap t2) a = height_in (heap t) a).
  { intros a' Ha'. destruct (r_known _ _ _ (k_ref _ _ _ Hmid) a' Ha') as (d & Hd & Had).
    destruct (t2_old a' Ha') as [_ Hn]. pose proof (proj2 (Hn d) Had) as [_ ->]. destruct Had as [_ ->]. done. }
  rewrite !Hh by done. by apply Htop.
Qed.

Lemma t2_canonical :
  ∃ x, x ∈ bs ++ [b] ∧ node_of t2 (higher_canonical t2 (length (heap t))) x ∧ top_block (bs ++ [b]) = Some x.
Proof.
  destruct t2_effect as (_ & _ & Hc). destruct t2_new as [_ Hb]. unfold higher_canonical. rewrite Hc, top_block_snoc.
  pose proof (k_canonical_head _ _ _ Hmid) as Hch. destruct (canonical_head t) as [c|] eqn:Hce.
  - destruct Hch as (x & Hx & Hcx & ->). destruct (t2_old c) as [_ Hn]; [by apply (i_canon_known t (proj1 Hinv))|].
    pose proof (proj2 (Hn x) Hcx) as Hcx2. pose proof (proj2 Hcx2) as E1. pose proof (proj2 Hb) as E2. rewrite E1, E2.
    destruct (bv_height x <? bv_height b); [exists b|exists x]; (split; [set_solver|]); done.
  - subst bs. exists b. split; [set_solver|done].
Qed.

Lemma moved_Mid t3 m :
  same_but_flags t2 t3 → final_head t3 = final_head t2 →
  canonical_head t3 = Some (higher_canonical t2 (length (heap t))) →
  (∀ a, final_in (heap t3) a = final_in (heap t2) a) → maximum_height_available t2 ≤ m →
  Mid (bs ++ [b]) floor (set_maximum_height t3 m).
Proof.
  intros Hsame Hf Hc Hfin Hm. destruct t2_effect as (_ & Hsame12 & _).
  assert (Hnode : ∀ a d, node_of (set_maximum_height t3 m) a d ↔ node_of t2 a d).
  { intros a d. by apply (same_but_flags_node t2 t3). }
  split.
  - pose proof (same_but_flags_Ref _ _ _ _ Hsame12 (t1_Ref bs b Hok floor t Hinv Hmid content)) as Href2.
    pose proof (same_but_flags_Ref _ _ _ _ Hsame Href2) as Href3. by destruct Href3; split.
  - pose proof (k_start _ _ _ Hmid) as Hst. destruct Hsame as (Ew & _ & Em & _), Hsame12 as (Ew2 & _ & Em2 & _).
    unfold start_of in *. simpl in *. rewrite Ew, Ew2. rewrite Em2 in Hm. lia.
  - intros a d Ha Hd Had Hfl. simpl. rewrite Hfin. rewrite Hnode in Had.
    apply (same_but_flags_known t2 t3 a Hsame) in Ha.
    by apply (t2_final bs b Hok floor t Hinv Hmid Habove content t2 new Hupd).
  - simpl. rewrite Hf. pose proof (t2_final_head bs b Hok floor t Hinv Hmid Habove content t2 new Hupd) as Hfh.
    destruct (final_head t2) as [f|]; [|done]. destruct Hfh as (x & ? & ? & ?). exists x. by rewrite Hnode.
  - simpl. rewrite Hc. destruct t2_canonical as (x & ? & ? & ?). exists x. by rewrite Hnode.
Qed.
End AddBlock.

Lemma add_block_Track bs b t content :
  indexer_ok (bs ++ [b]) → Track bs t →
  ∃ t2 new t', maybe_update_final_head (insert_node t b content).1 (bv_last_final_block b) = (t2, new) ∧
    add_block t b content = Ok (t', omap (final_content t2) new) ∧ Track (bs ++ [b]) t' ∧
    final_head t' = final_head t2 ∧
    (∀ a, known t' a → known t2 a) ∧
    (∀ a, hash_in (heap t') a = hash_in (heap t2) a ∧ height_in (heap t') a = height_in (heap t2) a) ∧
    (∀ a, known t' a → node_to_content t' !! hash_in (heap t2) a = node_to_content t2 !! hash_in (heap t2) a).
Proof.
  intros Hok (Hinv & floor & Hmid & Habove).
  destruct (maybe_update_final_head (insert_node t b content).1 (bv_last_final_block b)) as [t2 new] eqn:Hupd.
  exists t2, new. pose proof (fresh_hash bs b Hok floor t Hinv Hmid) as Hfresh.
  destruct (t2_effect bs b Hok floor t Hinv Hmid content t2 new Hupd) as (Hpre2 & _).
  destruct (t2_new bs b Hok floor t Hinv Hmid content t2 new Hupd) as [Hk2 Hn2].
  destruct (indexer_ok_unsnoc _ _ Hok) as (_ & Hheight & _).
  destruct (move_head_effect t2 (length (heap t)) Hpre2 Hk2) as (t3 & m & Hmove & Hinv3 & Hsame & Hf & Hc & Hfin & Hm).
  { by destruct Hn2 as [_ ->]. }
  { by apply (t2_top bs b Hok floor t Hinv Hmid content t2 new). }
  pose proof (moved_Mid bs b Hok floor t Hinv Hmid Habove content t2 new Hupd t3 m Hsame Hf Hc Hfin Hm) as Hmid3.
  destruct (prune_Track _ _ _ Hok Hinv3 Hmid3) as (t' & Hpr & Htrack & Hf' & Hk & Hfields & Hcont).
  exists t'. split; [done|]. rewrite (add_block_stages _ _ _ _ _ Hfresh Hupd).
  destruct Hn2 as [_ Eh]. rewrite <-Eh, Hmove, Hpr. split; [done|]. split; [done|].
  split; [by rewrite Hf'|]. pose proof Hsame as (_ & _ & _ & _ & Ec & Hs).
  split; [intros a Ha; apply (same_but_flags_known _ _ _ Hsame), Hk, Ha|]. split.
  - intros a. destruct (Hfields a) as [-> ->]. simpl.
    by rewrite (same_tree_hash _ _ a Hs), (same_tree_height _ _ a Hs).
  - intros a Ha. rewrite (same_tree_hash _ _ a Hs), <-Ec. by apply Hcont.
Qed.

(** ** Any indexer *)

Lemma prune_keeps t t' : prune_old_blocks t = Ok t' →
  window_size t' = window_size t ∧ maximum_height_available t' = maximum_height_available t.
Proof.
  unfold prune_old_blocks. intros Hp. apply bind_Ok in Hp as ([min|] & _ & Hp); [|by simplify_eq].
  case_match; [by simplify_eq|]. destruct (foldl _ ([], []) (root_children t)). by simplify_eq.
Qed.

Lemma move_head_keeps t node height :
  window_size (move_head t node height) = window_size t ∧
  maximum_height_available (move_head t node height) = Z.max (maximum_height_available t) height.
Proof.
  assert (Hup : ∀ t node, window_size (update_canonical_head t node) = window_size t ∧
    maximum_height_available (update_canonical_head t node) = maximum_height_available t).
  { intros t' node'. unfold update_canonical_head. by destruct (mark_canonical _ _ _). }
  unfold move_head. set (t' := match canonical_head t with Some _ => _ | None => _ end).
  assert (Ht' : window_size t' = window_size t ∧ maximum_height_available t' = maximum_height_available t).
  { unfold t'. destruct (canonical_head t); [|apply Hup]. case_match; [apply Hup|done]. }
  destruct Ht' as [Ew Em]. destruct (Z.ltb_spec (maximum_height_available t') height); simpl; split; [done| |done|]; lia.
Qed.

(** One [add_block] on a fresh hash, whatever the block. *)
Lemma add_block_Ok t b content :
  Inv t → 0 ≤ bv_height b ≤ u64_max → hash_to_node t !! bv_hash b = None →
  ∃ t' out, add_block t b content = Ok (t', out) ∧ Inv t' ∧ window_size t' = window_size t ∧
    maximum_height_available t' = Z.max (maximum_height_available t) (bv_height b).
Proof.
  intros Hinv Hheight Hfresh. pose proof Hinv as [Hpre Htop]. pose proof (i_tree t Hpre) as Htree.
  destruct (maybe_update_final_head (insert_node t b content).1 (bv_last_final_block b)) as [t2 new] eqn:Hupd.
  pose proof (insert_node_Pre t b content Hinv Hfresh) as Hpre1.
  destruct (update_final_effect _ _ _ _ Hpre1 Hupd) as (Hpre2 & Hsame & Hc & _).
  assert (Hk2 : ∀ a, known t2 a ↔ a = length (heap t) ∨ known t a).
  { intros a. rewrite (same_but_flags_known _ _ _ Hsame).
    exact (insert_alive _ _ _ Htree _ (bv_height b) (bv_prev_hash b) Hfresh a). }
  pose proof Hsame as (Ew & _ & Em & _ & _ & Hs).
  assert (Hh : height_in (heap t2) (length (heap t)) = bv_height b).
  { rewrite <-(same_tree_height _ _ _ Hs), insert_node_eq. unfold height_in. cbn [fst heap].
    by rewrite (list_lookup_total_correct _ _ _ (insert_lookup_new _ _ _ Htree _ _ _)). }
  assert (Hold : ∀ a, known t a → height_in (heap t2) a = height_in (heap t) a).
  { intros a Ha. rewrite <-(same_tree_height _ _ _ Hs). by apply (t1_fields b t content). }
  destruct (move_head_effect t2 (length (heap t)) Hpre2) as (t3 & m & Hmove & Hinv3 & _).
  { apply Hk2. auto. } { by rewrite Hh. }
  { intros a [?|Ha]%Hk2 Hne; [done|]. rewrite Hc. simpl. unfold top in Htop.
    destruct (canonical_head t) as [c|] eqn:Ec; [|rewrite Htop in Ha; by destruct Ha as [n [_ ?]]].
    exists c. split; [done|]. rewrite !Hold; [by apply Htop|by apply (i_canon_known t Hpre)|done]. }
  destruct (prune_effect _ Hinv3) as (t' & Hpr & Hinv' & _).
  rewrite (add_block_stages _ _ _ _ _ Hfresh Hupd), <-Hh, Hmove, Hpr.
  exists t', (omap (final_content t2) new). split; [done|]. split; [done|].
  destruct (prune_keeps _ _ Hpr) as [-> ->]. rewrite <-Hmove.
  destruct (move_head_keeps t2 (length (heap t)) (height_in (heap t2) (length (heap t)))) as [-> ->].
  rewrite Ew, Em. done.
Qed.

Lemma notify_Ok t height :
  Inv t → 0 ≤ height ≤ u64_max →
  ∃ t', notify_maximum_height_available t height = Ok t' ∧ Inv t' ∧ window_size t' = window_size t ∧
    maximum_height_available t' = Z.max (maximum_height_available t) height.
Proof.
  intros Hinv Hh. unfold notify_maximum_height_available.
  destruct (Z.ltb_spec (maximum_height_available t) height).
  - destruct (prune_effect (set_maximum_height t height)) as (t' & Hpr & Hinv' & _).
    { apply set_maximum_Inv; [done|lia]. }
    exists t'. split; [done|]. split; [done|]. destruct (prune_keeps _ _ Hpr) as [-> ->]. simpl. split; [done|lia].
  - exists t. split; [done|]. split; [done|]. split; [done|lia].
Qed.
End Run.

(** ** Classification *)

Lemma banc_linear bs x y z : indexer_ok bs → banc bs x y → banc bs x z → banc bs y z ∨ banc bs z y.
Proof.
  intros Hok Hxy. revert z. induction Hxy as [|x p y Hl Hpy IH]; intros z Hxz; [auto|].
  destruct Hxz as [|x p' z Hl' Hpz]; [right; by eapply rtc_l|].
  assert (p' = p) as ->; [|auto]. destruct Hl as (_ & Hp & E), Hl' as (_ & Hp' & E').
  apply (hash_inj bs); [done..|congruence].
Qed.

Definition final_block (bs : list BlockViewLite) (b : BlockViewLite) : Prop :=
  ∃ x, announced bs x ∧ banc bs x b.

(** What a classification says about the blocks seen: a block that is not included is on
    no chain through an announced final block. *)
Definition classified (bs : list BlockViewLite) (start : Z) (b : BlockViewLite) (r : CheckBlockResult) : Prop :=
  let recent := start ≤ bv_height b in
  match r with
  | OlderThanRecentWindow => ¬ recent
  | RecentAndFinal => recent ∧ final_block bs b
  | NotIncluded => recent ∧ ¬ final_block bs b ∧
      ∃ x, announced bs x ∧ bv_height b ≤ bv_height x ∧ ∀ y, banc bs y x → ¬ banc bs y b
  | OptimisticAndCanonical => recent ∧ (∀ x, announced bs x → bv_height x < bv_height b) ∧
      ∃ c, top_block bs = Some c ∧ banc bs c b
  | OptimisticButNotCanonical => recent ∧ (∀ x, announced bs x → bv_height x < bv_height b) ∧
      ∃ c, top_block bs = Some c ∧ ¬ banc bs c b
  | Unknown => False
  end.

Lemma classify_Track {T} bs (t : RecentBlocksTracker T) b :
  indexer_ok bs → Track bs t → b ∈ bs →
  ∃ r, classify_block t (bv_hash b) (bv_height b) = Ok r ∧ classified bs (start_of t) b r.
Proof.
  intros Hok (Hinv & floor & Hmid & Habove) Hb. pose proof (proj1 Hinv) as Hpre.
  unfold classify_block. rewrite window_start_Ok by done. cbn [mbind result_bind].
  pose proof (k_start _ _ _ Hmid) as Hst.
  destruct (Z.ltb_spec (bv_height b) (start_of t)).
  { eexists. split; [done|]. simpl. lia. }
  pose proof (k_ref _ _ _ Hmid) as Href. destruct (r_blocks _ _ _ Href b Hb) as (a & Ha & Hab); [lia|].
  assert (Hma : hash_to_node t !! bv_hash b = Some a) by (apply alive_alt in Ha as [_ Ha]; by rewrite (proj1 Hab) in Ha).
  rewrite Hma. fold (final_in (heap t) a). fold (canonical_in (heap t) a).
  assert (Hfinal := k_final _ _ _ Hmid a b Ha Hb Hab). specialize (Hfinal ltac:(lia)).
  destruct (final_in (heap t) a) eqn:Hfa.
  { exists RecentAndFinal. split; [done|]. split; [lia|]. by apply Hfinal. }
  assert (Hnf : ¬ final_block (bs) b) by (intros Hf; apply Hfinal in Hf; done).
  pose proof (k_final_head _ _ _ Hmid) as Hfh.
  assert (Hcanon : (∀ x, announced (bs) x → bv_height x < bv_height b) →
    ∃ r, (if canonical_in (heap t) a then Ok OptimisticAndCanonical else Ok OptimisticButNotCanonical) =
        (Ok r : result string CheckBlockResult) ∧
      classified bs (start_of t) b r).
  { intros Hlow. pose proof (k_canonical_head _ _ _ Hmid) as Hch.
    destruct (canonical_head t) as [c|] eqn:Hce; [|rewrite Hch in Hb; set_solver].
    destruct Hch as (x & Hx & Hcx & Htop). pose proof (i_canon_known t Hpre c Hce) as Hck.
    assert (Hiff := anc_iff_banc _ Hok floor t Hpre Href c a x b Hck Ha Hx Hb Hcx Hab ltac:(lia)).
    assert (Hflag := i_canon t Hpre a Ha). rewrite Hce in Hflag. destruct (canonical_in (heap t) a).
    - eexists. split; [done|]. split; [lia|]. split; [done|]. exists x. split; [done|]. apply Hiff.
      destruct (proj1 Hflag eq_refl) as (c' & [= <-] & ?). done.
    - eexists. split; [done|]. split; [lia|]. split; [done|]. exists x. split; [done|]. intros Hban.
      assert (false = true); [|done]. apply Hflag. exists c. split; [done|]. by apply Hiff. }
  destruct (final_head t) as [f|].
  - destruct Hfh as (x & Hx & Hfx & _ & Hall). fold (height_in (heap t) f). rewrite (proj2 Hfx).
    destruct (Z.leb_spec (bv_height b) (bv_height x)).
    + exists NotIncluded. split; [done|]. split; [lia|]. split; [done|]. exists x. split; [done|]. split; [done|].
      intros y Hyx Hyb. destruct (banc_linear _ _ _ _ Hok Hyx Hyb) as [Hxb|Hbx]; apply Hnf; exists x; (split; [done|]).
      * done.
      * by rewrite (banc_eq _ _ _ Hok Hbx).
    + apply Hcanon. intros y Hy. pose proof (banc_height _ _ _ Hok (Hall y Hy)). lia.
  - apply Hcanon. intros x Hx. by destruct (proj2 Hfh x).
Qed.
