(* ===== verification/RecentBlocksTheorems.v ===== *)
(** * Node: what the recent blocks tracker guarantees

    The classification of a block and the stream of final blocks, for any history of
    blocks and heights in which the indexer keeps its order. *)

From S2P Require Import Prelude Types NodePrimitives RecentBlocks RecentBlocksProofs RecentBlocksInv RecentBlocksRun.

Implicit Types (b d x y : BlockViewLite) (bs ds : list BlockViewLite).

(** ** Histories *)

Inductive Event : Type :=
  | AddBlock (block : BlockViewLite)
  | NotifyHeight (height : Z).

Abbreviation Tracker := (RecentBlocksTracker BlockViewLite).

(** The content of a block is the block itself; a block that is already known is ignored,
    as [notify_new_block] does. *)
Definition step_event (t : Tracker) (e : Event) : result string (Tracker * list (Z * BlockViewLite)) :=
  match e with
  | AddBlock b =>
    match add_block t b b with
    | Ok r => Ok r
    | Err _ => Ok (t, [])
    | Panic p => Panic p
    end
  | NotifyHeight height => t ← notify_maximum_height_available t height; Ok (t, [])
  end.

Fixpoint run (t : Tracker) (es : list Event) : result string (Tracker * list (Z * BlockViewLite)) :=
  match es with
  | [] => Ok (t, [])
  | e :: es => '(t, out) ← step_event t e; '(t, out') ← run t es; Ok (t, out ++ out')
  end.

Definition blocks_of (es : list Event) : list BlockViewLite :=
  omap (λ e, match e with AddBlock b => Some b | NotifyHeight _ => None end) es.

Definition height_of (e : Event) : Z :=
  match e with AddBlock b => bv_height b | NotifyHeight height => height end.

(** The greatest height seen or heard of. *)
Definition highest (es : list Event) : Z := foldl (λ m e, Z.max m (height_of e)) 0 es.

(** ** The stream of final blocks *)

(** Each block is the parent of the next. *)
Fixpoint linked (l : list BlockViewLite) : Prop :=
  match l with
  | x :: ((y :: _) as l) => bv_prev_hash y = bv_hash x ∧ linked l
  | _ => True
  end.

Lemma linked_app l1 l2 :
  linked l1 → linked l2 →
  (∀ x y, last l1 = Some x → head l2 = Some y → bv_prev_hash y = bv_hash x) → linked (l1 ++ l2).
Proof.
  induction l1 as [|x l1 IH]; intros H1 H2 H12; [done|]. destruct l1 as [|y l1].
  - destruct l2 as [|z l2]; [done|]. split; [|done]. by apply H12.
  - destruct H1 as [E H1]. split; [done|]. apply IH; [done..|]. intros z w Hz. by apply H12.
Qed.

Definition contents (bs : list BlockViewLite) (t : Tracker) : Prop :=
  ∀ a b, known t a → b ∈ bs → node_of t a b → node_to_content t !! bv_hash b = Some b.

(** The blocks passed on a walk, from the top down. *)
Lemma walk_blocks bs floor (t : Tracker) stop o l e fc :
  indexer_ok bs → Pre t → Ref bs floor t →
  (∀ a d, known t a → d ∈ bs → node_of t a d → fc a = Some (bv_height d, d)) →
  walk (heap t) stop o l e → (∀ a, o = Some a → known t a) →
  ∃ ds, omap fc (reverse l) = (λ d, (bv_height d, d)) <$> ds ∧ linked ds ∧
    (∀ d, d ∈ ds → ∃ a, a ∈ l ∧ known t a ∧ d ∈ bs ∧ node_of t a d) ∧
    (l ≠ [] → ∃ a d, o = Some a ∧ d ∈ bs ∧ node_of t a d ∧ last ds = Some d) ∧
    (∀ d g y, head ds = Some d → e = Some g → y ∈ bs → node_of t g y → bv_prev_hash d = bv_hash y).
Proof.
  intros Hok Hpre Href Hfc. induction 1 as [|a Hs|a n l e Hn Hs Hw IH]; intros Ho.
  - exists []. split; [done|]. split; [done|]. split; [set_solver|]. done.
  - exists []. split; [done|]. split; [done|]. split; [set_solver|]. done.
  - pose proof (Ho a eq_refl) as Ha. destruct (r_known _ _ _ Href a Ha) as (d & Hd & Had).
    assert (Hup : ∀ p, bn_parent n = Some p → par (heap t) a p) by (intros p Hp; by exists n).
    destruct IH as (ds & Eds & Hl & Hmem & Hlast & Hhead).
    { intros p Hp. apply (anc_alive _ _ _ (i_tree t Hpre) a); [done|]. apply rtc_once. auto. }
    exists (ds ++ [d]). rewrite reverse_cons, omap_app, Eds, fmap_app. simpl. rewrite (Hfc a d) by done.
    split; [done|].
    assert (Hnext : ∀ p y, bn_parent n = Some p → y ∈ bs → node_of t p y → bv_prev_hash d = bv_hash y).
    { intros p y Hp Hy Hpy. eapply (r_par _ _ _ Href a p); try done; [|by apply Hup].
      apply (anc_alive _ _ _ (i_tree t Hpre) a); [done|]. apply rtc_once. auto. }
    split; [|split; [|split]].
    + apply linked_app; [done|done|]. intros z w Hz [= <-].
      destruct Hlast as (p & y & Hp & Hy & Hpy & E); [|rewrite E in Hz; simplify_eq; by eapply Hnext].
      intros ->. simpl in Eds. by destruct ds.
    + intros d' [Hd'|Hd']%elem_of_app; [destruct (Hmem d' Hd') as (a' & ? & ?); exists a'; set_solver|].
      apply list_elem_of_singleton in Hd' as ->. exists a. set_solver.
    + intros _. exists a, d. by rewrite last_snoc.
    + intros d' g y Hd' -> Hy Hgy. destruct ds as [|d0 ds]; [|by apply (Hhead d' g)].
      simpl in Hd'. simplify_eq. destruct l as [|a' l].
      * inversion Hw; subst. by eapply Hnext.
      * destruct Hlast as (? & ? & _ & _ & _ & ?); done.
Qed.

(** What has been returned so far ends at the final head. *)
Record Stream (bs : list BlockViewLite) (t : Tracker) (ds : list BlockViewLite) : Prop := {
  s_linked : linked ds;
  s_final d : d ∈ ds → ∃ x, announced bs x ∧ banc bs x d;
  s_head :
    match final_head t with
    | None => ds = []
    | Some f => ∃ x, last ds = Some x ∧ x ∈ bs ∧ node_of t f x
    end;
}.

Section StreamStep.
Context (bs : list BlockViewLite) (b : BlockViewLite) (Hok : indexer_ok (bs ++ [b])).
Context (floor : Z) (t : Tracker) (Hinv : Inv t) (Hmid : Mid bs floor t) (Habove : above floor t).
Context (Hcont : contents bs t) (ds : list BlockViewLite) (Hstream : Stream bs t ds).
Context (t2 : Tracker) (new : list Arc).
Context (Hupd : maybe_update_final_head (insert_node t b b).1 (bv_last_final_block b) = (t2, new)).

Abbreviation t1 := (insert_node t b b).1.
Abbreviation bs' := (bs ++ [b]).

Lemma t2_contents : contents bs' t2.
Proof.
  intros a d Ha Hd Had. destruct (t2_effect bs b Hok floor t Hinv Hmid b t2 new Hupd) as (_ & Hsame & _).
  assert (Ec : node_to_content t2 = <[bv_hash b := b]> (node_to_content t)) by apply Hsame. rewrite Ec.
  destruct (indexer_ok_unsnoc _ _ Hok) as (_ & _ & Hne & _).
  apply (t2_known bs b Hok floor t Hinv Hmid b t2 new Hupd), (t1_known bs b Hok floor t Hinv Hmid b) in Ha.
  destruct Ha as [->|Ha].
  - destruct (t2_new bs b Hok floor t Hinv Hmid b t2 new Hupd) as [_ Hb].
    assert (d = b) as -> by (eapply (node_of_fun bs'); [done|done|set_solver|done|done]). apply lookup_insert_eq.
  - destruct (t2_old bs b Hok floor t Hinv Hmid b t2 new Hupd a Ha) as [_ Hn]. apply Hn in Had.
    destruct (r_known _ _ _ (k_ref _ _ _ Hmid) a Ha) as (d' & Hd' & Had').
    assert (d = d') as ->.
    { apply (hash_inj bs'); [done|done|set_solver|]. destruct Had as [E1 _], Had' as [E2 _]. congruence. }
    rewrite lookup_insert_ne; [by apply (Hcont a)|]. intros E. by destruct (Hne d' Hd').
Qed.

Lemma final_content_block a d :
  known t1 a → d ∈ bs' → node_of t1 a d → final_content t2 a = Some (bv_height d, d).
Proof.
  intros Ha Hd Had. apply (t2_known bs b Hok floor t Hinv Hmid b t2 new Hupd) in Ha.
  apply (t2_node bs b Hok floor t Hinv Hmid b t2 new Hupd) in Had.
  unfold final_content. fold (hash_in (heap t2) a). fold (height_in (heap t2) a).
  pose proof (t2_contents a d Ha Hd Had) as E. destruct Had as [-> ->]. by rewrite E.
Qed.

(** A block whose node is final is on the chain of the final head. *)
Lemma final_below_head f x a d :
  final_head t = Some f → announced bs x → node_of t1 f x → (∀ y, announced bs y → banc bs x y) →
  known t1 a → d ∈ bs' → node_of t1 a d → floor ≤ bv_height d → final_in (heap t1) a = true → banc bs' x d.
Proof.
  intros Hf Hx Hfx Hall Ha Hd Had Hfl Hfin.
  apply (t1_final bs b Hok floor t Hinv Hmid Habove b a d) in Hfin as (x' & Hx' & Hx'd); [|done..].
  trans x'; [|done]. apply (banc_grows bs b Hok); [apply Hx|]. by apply Hall.
Qed.

Lemma stream_stays f y :
  hash_to_node t1 !! bv_last_final_block b = Some f → y ∈ bs → known t f → node_of t1 f y → floor ≤ bv_height y →
  final_in (heap t1) f = true → higher_final t1 f = final_head t.
Proof.
  intros Hf Hy Hk Hfy Hfl Hfin. unfold higher_final. change (final_head t1) with (final_head t).
  assert (Hk1 : known t1 f) by (apply (t1_known bs b Hok floor t Hinv Hmid b); auto).
  destruct (final_head t) as [f0|] eqn:Hf0.
  - destruct (old_final_head bs b floor t Hinv Hmid b f0 Hf0) as (x & Hx & Hfx & Hflx & Hall).
    assert (Hb : banc bs' x y) by (eapply (final_below_head f0 x f y); try done; set_solver).
    pose proof (banc_height _ _ _ Hok Hb) as Hle. destruct Hfx as [_ ->], Hfy as [_ ->].
    by rewrite (proj2 (Z.ltb_ge _ _) Hle).
  - apply (t1_final bs b Hok floor t Hinv Hmid Habove b f y) in Hfin as (x & Hx & _); [|done|set_solver|done|done].
    pose proof (k_final_head _ _ _ Hmid) as Hhead. rewrite Hf0 in Hhead. by destruct (proj2 Hhead x).
Qed.

(** The new part of the stream begins at the old final head. *)
Lemma stream_extends f y l e f0 x :
  hash_to_node t1 !! bv_last_final_block b = Some f → y ∈ bs → bv_last_final_block b = bv_hash y →
  known t f → node_of t1 f y → floor ≤ bv_height y →
  walk (heap t1) (final_in (heap t1)) (Some f) l e → final_in (heap t1) f = false →
  final_head t = Some f0 → announced bs x → node_of t1 f0 x → floor ≤ bv_height x →
  (∀ y, announced bs y → banc bs x y) → bv_height x < bv_height y ∧ e = Some f0.
Proof.
  intros Hf Hy Elf Hk Hfy Hfl Hw Hnf Hf0 Hx Hfx Hflx Hall.
  destruct (indexer_ok_unsnoc _ _ Hok) as (Hokbs & _ & _ & _ & _ & _ & Hlin).
  pose proof (t1_Pre bs b Hok floor t Hinv Hmid b) as Hpre1.
  pose proof (t1_Ref bs b Hok floor t Hinv Hmid b) as Href1.
  assert (Hk1 : known t1 f) by (apply (t1_known bs b Hok floor t Hinv Hmid b); auto).
  pose proof (i_final_head t (proj1 Hinv)) as Hi. rewrite Hf0 in Hi. destruct Hi as [Hk0 Hfin0].
  assert (Hk01 : known t1 f0) by (apply (t1_known bs b Hok floor t Hinv Hmid b); auto).
  assert (Hfin01 : final_in (heap t1) f0 = true) by (destruct (t1_fields b t b f0 Hk0) as (_ & _ & ->); done).
  assert (Hnot : ¬ banc bs x y).
  { intros Hxy. assert (final_in (heap t1) f = true); [|congruence].
    apply (t1_final bs b Hok floor t Hinv Hmid Habove b f y); [done|set_solver|done|done|].
    exists x. split; [done|]. by apply (banc_grows bs b Hok); [apply Hx|]. }
  destruct (Hlin y x Hy Elf Hx) as [Hyx|?]; [|done].
  assert (Hlt : bv_height x < bv_height y).
  { apply Z.nle_gt. intros Hle. destruct Hnot. rewrite (banc_eq _ _ _ Hokbs Hyx Hle). apply rtc_refl. }
  split; [done|]. assert (Hanc : anc (heap t1) f f0).
  { eapply (anc_iff_banc bs' Hok floor t1 Hpre1 Href1 f f0 y x); try done; [set_solver|set_solver by (apply Hx)|].
    by apply (banc_grows bs b Hok). }
  destruct (anc_walk _ _ _ _ _ _ Hw Hanc) as [Hl|(g & -> & Hg0)].
  { apply (walk_not_stop _ _ _ _ _ _ Hw) in Hl. congruence. }
  assert (Hgk : known t1 g) by (apply (anc_alive _ _ _ (i_tree t1 Hpre1) f); [done|eapply walk_anc; eauto]).
  destruct (r_known _ _ _ Href1 g Hgk) as (z & Hz & Hgz).
  assert (Hxin : x ∈ bs') by (destruct Hx; set_solver).
  pose proof (anc_banc bs' Hok floor t1 Hpre1 Href1 g f0 z x Hgk Hz Hxin Hgz Hfx Hg0) as Hzx.
  assert (Hflz : floor ≤ bv_height z) by (pose proof (banc_height _ _ _ Hok Hzx); lia).
  assert (Hxz : banc bs' x z).
  { eapply (final_below_head f0 x g z); try done. exact (walk_end _ _ _ _ _ Hw). }
  f_equal. apply (anc_antisym (heap t1)); [apply (i_tree t1 Hpre1)|done|].
  by apply (anc_iff_banc bs' Hok floor t1 Hpre1 Href1 f0 g x z).
Qed.

Lemma t1_node_old a d : known t a → node_of t a d → node_of t1 a d.
Proof.
  intros Ha [E1 E2]. destruct (t1_fields b t b a Ha) as (F1 & F2 & _). unfold node_of. by rewrite F1, F2.
Qed.

(** Nothing new is final: the final head is the old one. *)
Lemma stream_same : new = [] → final_head t2 = final_head t → Stream bs' t2 ds.
Proof.
  intros _ Hf. destruct Hstream as [Hl Hfin Hhead]. split; [done| |].
  - intros d Hd. destruct (Hfin d Hd) as (x & Hx & Hxd). exists x. rewrite (announced_snoc _ _ _ Hok).
    split; [auto|]. apply (banc_grows bs b Hok); [apply Hx|done].
  - rewrite Hf. destruct (final_head t) as [f|] eqn:Hf0; [|done]. destruct Hhead as (x & ? & ? & Hfx).
    exists x. split; [done|]. split; [set_solver|].
    apply (t2_node bs b Hok floor t Hinv Hmid b t2 new Hupd), t1_node_old; [|done].
    pose proof (i_final_head t (proj1 Hinv)) as Hi. rewrite Hf0 in Hi. apply Hi.
Qed.

Lemma stream_new :
  ∃ ds', omap (final_content t2) new = (λ d, (bv_height d, d)) <$> ds' ∧ Stream bs' t2 (ds ++ ds').
Proof.
  destruct (update_final_effect _ _ _ _ (t1_Pre bs b Hok floor t Hinv Hmid b) Hupd) as (_ & _ & _ & Hcase).
  destruct (hash_to_node t1 !! bv_last_final_block b) as [f|] eqn:Hf.
  2: { destruct Hcase as [E Enew]. exists []. rewrite app_nil_r. split; [by rewrite Enew|].
       apply stream_same; [done|]. by rewrite E. }
  destruct Hcase as (Hfh & _ & l & e & Hw & Enew).
  destruct (announced_node bs b Hok floor t Hinv Hmid Habove b f Hf) as (y & [Hy Elf] & Hk & Hfy & Hfly).
  destruct (final_in (heap t1) f) eqn:Hnf.
  { assert (El : l = []) by (inversion Hw; congruence). rewrite El in Enew.
    exists []. rewrite app_nil_r. split; [by rewrite Enew|]. apply stream_same; [done|]. rewrite Hfh. by apply (stream_stays f y). }
  assert (Hl : l ≠ []) by (inversion Hw; congruence).
  assert (Hk1 : known t1 f) by (apply (t1_known bs b Hok floor t Hinv Hmid b); auto).
  destruct (walk_blocks bs' floor t1 _ (Some f) l e (final_content t2) Hok
    (t1_Pre bs b Hok floor t Hinv Hmid b) (t1_Ref bs b Hok floor t Hinv Hmid b) final_content_block Hw)
    as (ds' & Eds & Hlink & Hmem & Hlast & Hhead); [by intros a [= <-]|].
  exists ds'. rewrite Enew. split; [done|]. destruct (Hlast Hl) as (f' & y' & [= <-] & Hy' & Hfy' & Elast).
  assert (y' = y) as -> by (eapply (node_of_fun bs'); [done|done|set_solver|done|done]).
  destruct Hstream as [Hlinked Hfin Hsh]. split.
  - apply linked_app; [done|done|]. intros x d Hx Hd. destruct (final_head t) as [f0|] eqn:Hf0; [|by rewrite Hsh in Hx].
    destruct (old_final_head bs b floor t Hinv Hmid b f0 Hf0) as (x0 & Hx0 & Hfx0 & Hflx0 & Hall).
    destruct (stream_extends f y l e f0 x0) as [_ ->]; [done..|].
    destruct Hsh as (x' & Ex' & Hxin & Hfx'). assert (x' = x) as -> by congruence.
    apply (Hhead d f0 x); [done|done|set_solver|]. apply t1_node_old; [|done].
    pose proof (i_final_head t (proj1 Hinv)) as Hi. rewrite Hf0 in Hi. apply Hi.
  - intros d [Hd|Hd]%elem_of_app.
    + destruct (Hfin d Hd) as (x & Hx & Hxd). exists x. rewrite (announced_snoc _ _ _ Hok).
      split; [auto|]. apply (banc_grows bs b Hok); [apply Hx|done].
    + destruct (Hmem d Hd) as (a & Ha & Hak & Hdin & Had). exists y. rewrite (announced_snoc _ _ _ Hok).
      split; [auto|]. eapply (anc_banc bs' Hok floor t1 (t1_Pre bs b Hok floor t Hinv Hmid b)
        (t1_Ref bs b Hok floor t Hinv Hmid b) f a); try done. eapply walk_anc; eauto.
  - assert (E : final_head t2 = Some f).
    { rewrite Hfh. unfold higher_final. change (final_head t1) with (final_head t).
      destruct (final_head t) as [f0|] eqn:Hf0; [|done].
      destruct (old_final_head bs b floor t Hinv Hmid b f0 Hf0) as (x0 & Hx0 & Hfx0 & Hflx0 & Hall).
      destruct (stream_extends f y l e f0 x0) as [Hlt _]; [done..|]. destruct Hfx0 as [_ ->], Hfy as [_ ->].
      by rewrite (proj2 (Z.ltb_lt _ _) Hlt). }
    rewrite E. exists y. rewrite last_app, Elast. split; [done|]. split; [done|].
    by apply (t2_node bs b Hok floor t Hinv Hmid b t2 new Hupd).
Qed.
End StreamStep.

(** ** The invariant of a history *)

Lemma run_app t es e :
  run t (es ++ [e]) = ('(t, out) ← run t es; '(t, out') ← step_event t e; Ok (t, out ++ out')).
Proof.
  revert t. induction es as [|e0 es IH]; intros t; simpl.
  - destruct (step_event t e) as [[t' out]| |]; simpl; [by rewrite app_nil_r|done..].
  - destruct (step_event t e0) as [[t' out]| |]; [|done..]. cbn [mbind result_bind]. rewrite IH.
    destruct (run t' es) as [[t'' out'']| |]; [|done..]. cbn [mbind result_bind].
    destruct (step_event t'' e) as [[t3 out3]| |]; [|done..]. simpl. by rewrite app_assoc.
Qed.

Lemma blocks_of_snoc es e :
  blocks_of (es ++ [e]) = match e with AddBlock b => blocks_of es ++ [b] | NotifyHeight _ => blocks_of es end.
Proof. unfold blocks_of. rewrite omap_app. destruct e; simpl; [done|by rewrite app_nil_r]. Qed.

Lemma highest_snoc es e : highest (es ++ [e]) = Z.max (highest es) (height_of e).
Proof. unfold highest. by rewrite foldl_app. Qed.

Definition heights_ok (es : list Event) : Prop := Forall (λ e, 0 ≤ height_of e ≤ u64_max) es.

Lemma add_block_known t b a content :
  hash_to_node t !! bv_hash b = Some a →
  add_block (T := BlockViewLite) t b content = Err "Block already exists in the tracker".
Proof. intros Ha. unfold add_block. by rewrite Ha. Qed.

(** Whatever the indexer gives, the tracker goes on. *)
Lemma run_Inv w es : 1 ≤ w → heights_ok es →
  ∃ t out, run (RecentBlocksTracker_new w) es = Ok (t, out) ∧ Inv t ∧ window_size t = w.
Proof.
  intros Hw. induction es as [|e es IH] using rev_ind; intros Hes.
  { exists (RecentBlocksTracker_new w), []. split; [done|]. split; [by apply new_Inv|done]. }
  apply Forall_app in Hes as [Hes He]. apply Forall_cons_1 in He as [He _].
  destruct (IH Hes) as (t & out & Hrun & Hinv & Ew). rewrite run_app, Hrun. simpl.
  destruct e as [b|height]; simpl in *.
  - destruct (hash_to_node t !! bv_hash b) as [a|] eqn:Hb.
    + rewrite (add_block_known t b a b Hb). exists t, (out ++ []). done.
    + destruct (add_block_Ok t b b Hinv He Hb) as (t' & out' & -> & Hinv' & Ew' & _).
      exists t', (out ++ out'). split; [done|]. split; [done|congruence].
  - destruct (notify_Ok t height Hinv He) as (t' & -> & Hinv' & Ew' & _).
    exists t', (out ++ []). split; [done|]. split; [done|congruence].
Qed.

(** The tracker, its contents and the stream after a history. *)
Record RunInv (w : Z) (es : list Event) (t : Tracker) (ds : list BlockViewLite) : Prop := {
  ri_track : Track (blocks_of es) t;
  ri_contents : contents (blocks_of es) t;
  ri_stream : Stream (blocks_of es) t ds;
  ri_window : window_size t = w;
  ri_max : maximum_height_available t = highest es;
}.

Lemma known_node_transfer bs floor (t t' : Tracker) :
  (∀ a, known t' a → known t a) →
  (∀ a, hash_in (heap t') a = hash_in (heap t) a ∧ height_in (heap t') a = height_in (heap t) a) →
  (∀ a, known t' a → node_to_content t' !! hash_in (heap t) a = node_to_content t !! hash_in (heap t) a) →
  Ref bs floor t → contents bs t → contents bs t' ∧ ∀ a d, node_of t' a d ↔ node_of t a d.
Proof.
  intros Hk Hf Hc Href Hcont.
  assert (Hnode : ∀ a d, node_of t' a d ↔ node_of t a d).
  { intros a d. unfold node_of. by destruct (Hf a) as [-> ->]. }
  split; [|done]. intros a d Ha Hd Had%Hnode. pose proof (Hc a Ha) as E.
  destruct Had as [E1 E2] eqn:Had'. rewrite E1 in E. rewrite E. by apply (Hcont a); auto.
Qed.

Lemma stream_transfer bs (t t' : Tracker) ds :
  final_head t' = final_head t → (∀ a d, node_of t' a d ↔ node_of t a d) → Stream bs t ds → Stream bs t' ds.
Proof.
  intros Hf Hnode [Hl Hfin Hh]. split; [done..|]. rewrite Hf. destruct (final_head t); [|done].
  destruct Hh as (x & ? & ? & ?). exists x. by rewrite Hnode.
Qed.

Lemma add_RunInv w es b t ds :
  indexer_ok (blocks_of es ++ [b]) → RunInv w es t ds →
  ∃ t' ds', add_block t b b = Ok (t', (λ d, (bv_height d, d)) <$> ds') ∧
    RunInv w (es ++ [AddBlock b]) t' (ds ++ ds').
Proof.
  intros Hok [Htrack Hcont Hstream Hw Hm]. pose proof Htrack as (Hinv & floor & Hmid & Habove).
  destruct (add_block_Track _ b t b Hok Htrack) as (t2 & new & t' & Hupd & Hadd & Htrack' & Hfh & Hk & Hf & Hc).
  destruct (stream_new _ b Hok floor t Hinv Hmid Habove Hcont ds Hstream t2 new Hupd) as (ds' & Eds & Hstream').
  pose proof (t2_contents _ b Hok floor t Hinv Hmid Habove Hcont ds Hstream t2 new Hupd) as Hcont2.
  destruct (t2_effect _ b Hok floor t Hinv Hmid b t2 new Hupd) as (_ & Hsame & _).
  pose proof (same_but_flags_Ref _ _ _ _ Hsame (t1_Ref _ b Hok floor t Hinv Hmid b)) as Href2.
  destruct (known_node_transfer _ _ _ _ Hk Hf Hc Href2 Hcont2) as [Hcont' Hnode].
  destruct (add_block_Ok t b b Hinv) as (t'' & out'' & Hadd' & _ & Ew & Em).
  { by apply indexer_ok_unsnoc in Hok as (_ & ? & _). } { by apply (fresh_hash _ b Hok floor). }
  rewrite Hadd in Hadd'. injection Hadd' as <- _.
  exists t', ds'. rewrite Hadd, Eds. split; [done|]. split; rewrite ?blocks_of_snoc, ?highest_snoc; try done.
  - by apply (stream_transfer _ t2).
  - congruence.
  - by rewrite Em, Hm.
Qed.

Lemma notify_RunInv w es height t ds :
  indexer_ok (blocks_of es) → 0 ≤ height ≤ u64_max → RunInv w es t ds →
  ∃ t', notify_maximum_height_available t height = Ok t' ∧ RunInv w (es ++ [NotifyHeight height]) t' ds.
Proof.
  intros Hok Hh [Htrack Hcont Hstream Hw Hm]. pose proof Htrack as (Hinv & floor & Hmid & Habove).
  destruct (notify_Ok t height Hinv Hh) as (t' & Hn & Hinv' & Ew & Em). exists t'. split; [done|].
  unfold notify_maximum_height_available in Hn.
  assert (Ht' : Track (blocks_of es) t' ∧ contents (blocks_of es) t' ∧ Stream (blocks_of es) t' ds).
  { destruct (Z.ltb_spec (maximum_height_available t) height); [|by simplify_eq].
    destruct (prune_Track (blocks_of es) floor (set_maximum_height t height) Hok) as (t'' & Hpr & Htr & Hfh & Hk & Hf & Hc).
    { apply set_maximum_Inv; [done|lia]. } { apply set_maximum_Mid; [lia|done]. }
    rewrite Hpr in Hn. injection Hn as ->. split; [done|].
    destruct (known_node_transfer (blocks_of es) floor (set_maximum_height t height) t' Hk Hf Hc) as [Hcont' Hnode].
    { apply set_maximum_Mid; [lia|done]. } { done. }
    split; [done|]. by apply (stream_transfer _ t). }
  destruct Ht' as (? & ? & ?). split; rewrite ?blocks_of_snoc, ?highest_snoc; try done.
  - congruence.
  - by rewrite Em, Hm.
Qed.

Lemma run_RunInv w es : 1 ≤ w → indexer_ok (blocks_of es) → heights_ok es →
  ∃ t ds, run (RecentBlocksTracker_new w) es = Ok (t, (λ d, (bv_height d, d)) <$> ds) ∧ RunInv w es t ds.
Proof.
  intros Hw. induction es as [|e es IH] using rev_ind; intros Hok Hes.
  { exists (RecentBlocksTracker_new w), []. split; [done|]. pose proof (new_Inv (T := BlockViewLite) w Hw) as Hinv.
    assert (Hnone : ∀ a, ¬ known (RecentBlocksTracker_new (T := BlockViewLite) w) a) by (intros a [n [Hn _]]; done).
    split; try done; [|intros a b Ha; by destruct (Hnone a)|split; [done|set_solver|done]].
    split; [done|]. exists 0. split; [|intros a Ha; by destruct (Hnone a)].
    assert (Hann : ∀ x, ¬ announced [] x) by (intros x [Hx _]; set_solver).
    split; [split| | | |done].
    - intros a Ha. by destruct (Hnone a).
    - intros b Hb. set_solver.
    - intros a c b p Ha. by destruct (Hnone a).
    - unfold start_of. simpl. lia.
    - intros a b Ha. by destruct (Hnone a).
    - done. }
  apply Forall_app in Hes as [Hes He]. apply Forall_cons_1 in He as [He _].
  assert (Hok' : indexer_ok (blocks_of es)).
  { rewrite blocks_of_snoc in Hok. destruct e; [by apply indexer_ok_unsnoc in Hok as [? _]|done]. }
  destruct (IH Hok' Hes) as (t & ds & Hrun & Hri). rewrite run_app, Hrun. simpl.
  destruct e as [b|height]; simpl in *.
  - rewrite blocks_of_snoc in Hok. destruct (add_RunInv w es b t ds Hok Hri) as (t' & ds' & -> & Hri').
    exists t', (ds ++ ds'). by rewrite fmap_app.
  - destruct (notify_RunInv w es height t ds Hok' He Hri) as (t' & -> & Hri').
    exists t', ds. simpl. by rewrite app_nil_r.
Qed.

(** ** Classification *)

(** C8: for any history of blocks and heights in which the indexer keeps its order, the
    tracker does not panic, and it classifies each block it was given by the whole
    history: as final exactly if it is an ancestor of an announced final block; as not
    included only if no chain through an announced final block contains it; as canonical
    exactly if it is on the chain of the first highest block; a block within the window
    is never unknown, although old blocks are pruned. *)
Theorem classification_is_correct w es b :
  1 ≤ w → indexer_ok (blocks_of es) → heights_ok es → b ∈ blocks_of es →
  ∃ t out r, run (RecentBlocksTracker_new w) es = Ok (t, out) ∧
    classify_block t (bv_hash b) (bv_height b) = Ok r ∧
    classified (blocks_of es) (Z.max 0 (highest es - w) + 1) b r.
Proof.
  intros Hw Hok Hes Hb. destruct (run_RunInv w es Hw Hok Hes) as (t & ds & Hrun & Hri).
  destruct Hri as [Htrack _ _ Ew Em]. destruct (classify_Track _ t b Hok Htrack Hb) as (r & Hr & Hcl).
  unfold start_of in Hcl. rewrite Ew, Em in Hcl. eauto 10.
Qed.

(** C21: for any such history the blocks that the tracker returns as final over all its
    calls form one chain, each the parent of the next; each of them is an ancestor of
    an announced final block; and the last one has all announced final blocks among
    its ancestors. *)
Theorem final_stream_contiguous w es :
  1 ≤ w → indexer_ok (blocks_of es) → heights_ok es →
  ∃ t out, run (RecentBlocksTracker_new w) es = Ok (t, out) ∧ linked out.*2 ∧
    (∀ height d, (height, d) ∈ out → height = bv_height d ∧ final_block (blocks_of es) d) ∧
    (∀ x, announced (blocks_of es) x → ∃ d, last out.*2 = Some d ∧ banc (blocks_of es) d x).
Proof.
  intros Hw Hok Hes. destruct (run_RunInv w es Hw Hok Hes) as (t & ds & Hrun & [Htrack _ Hstream _ _]).
  exists t, ((λ d, (bv_height d, d)) <$> ds). rewrite <-list_fmap_compose. split; [done|].
  assert (E : snd ∘ (λ d, (bv_height d, d)) <$> ds = ds) by (rewrite <-(list_fmap_id ds) at 2; done).
  rewrite E. destruct Hstream as [Hl Hfin Hhead]. split; [done|]. split.
  - intros height d (d' & [= -> ->] & Hd)%list_elem_of_fmap. split; [done|]. by apply Hfin.
  - intros x Hx. destruct Htrack as (Hinv & floor & Hmid & _). pose proof (k_final_head _ _ _ Hmid) as Hfh.
    destruct (final_head t) as [f|]; [|by destruct (proj2 Hfh x)].
    destruct Hfh as (y & Hy & Hfy & _ & Hall), Hhead as (d & Ed & Hd & Hfd). exists d. split; [done|].
    rewrite (node_of_fun _ Hok t f d y); [by apply Hall|done|apply Hy|done|done].
Qed.

(** ** An example: a fork at height 2, and two blocks that become final *)

Definition block_1 : BlockViewLite := mkBlockViewLite 1 1 10 10.
Definition block_2 : BlockViewLite := mkBlockViewLite 2 2 1 10.
Definition block_2_fork : BlockViewLite := mkBlockViewLite 5 2 1 10.
Definition block_3 : BlockViewLite := mkBlockViewLite 3 3 2 1.
Definition block_4 : BlockViewLite := mkBlockViewLite 4 4 3 2.
Definition sample_events : list Event :=
  [AddBlock block_1; AddBlock block_2_fork; AddBlock block_2; AddBlock block_3; NotifyHeight 3; AddBlock block_4].

Ltac each_block :=
  let x := fresh "x" in let Hx := fresh "Hx" in
  intros x Hx; simpl in Hx;
  repeat (apply elem_of_cons in Hx as [->|Hx]; [simpl; lia|]); by apply elem_of_nil in Hx.

Lemma sample_indexer_ok : indexer_ok (blocks_of sample_events).
Proof.
  assert (Hann : ∀ y, announced [block_1; block_2_fork; block_2; block_3] y → y = block_1).
  { intros y [Hy (c & Hc & E)].
    repeat (apply elem_of_cons in Hc as [->|Hc]; [|]); [..|by apply elem_of_nil in Hc];
      repeat (apply elem_of_cons in Hy as [->|Hy]; [done|]); by apply elem_of_nil in Hy. }
  change (indexer_ok (([block_1; block_2_fork; block_2; block_3]) ++ [block_4])).
  apply indexer_snoc; [|done|each_block|done|each_block|each_block|done|each_block|].
  - change (indexer_ok (([block_1; block_2_fork; block_2]) ++ [block_3])).
    apply indexer_snoc; [|done|each_block|done|each_block|each_block|done|each_block|].
    + change (indexer_ok (([block_1; block_2_fork]) ++ [block_2])).
      apply indexer_snoc; [|done|each_block|done|each_block|each_block|done|each_block|].
      * change (indexer_ok (([block_1]) ++ [block_2_fork])).
        apply indexer_snoc; [|done|each_block|done|each_block|each_block|done|each_block|].
        -- change (indexer_ok ([] ++ [block_1])).
           apply indexer_snoc; [constructor|done|each_block|done|each_block|each_block|done|each_block|].
           intros x y Hx. by apply elem_of_nil in Hx.
        -- intros x y Hx E. exfalso. revert x Hx E. each_block.
      * intros x y Hx E. exfalso. revert x Hx E. each_block.
    + intros x y _ _ [Hy (c & Hc & E)]. exfalso.
      repeat (apply elem_of_cons in Hc as [->|Hc]; [|]); [..|by apply elem_of_nil in Hc];
        repeat (apply elem_of_cons in Hy as [->|Hy]; [done|]); by apply elem_of_nil in Hy.
  - intros x y Hx E ->%Hann. left. simpl in Hx.
    repeat (apply elem_of_cons in Hx as [->|Hx]; [|]); [done|done| |done|by apply elem_of_nil in Hx].
    apply rtc_once. split; [set_solver|]. split; [set_solver|done].
Qed.

Lemma sample_heights_ok : heights_ok sample_events.
Proof. repeat constructor; done. Qed.

Lemma classification_is_correct_witness :
  ∃ t out r, run (RecentBlocksTracker_new 2) sample_events = Ok (t, out) ∧
    classify_block t (bv_hash block_3) (bv_height block_3) = Ok r ∧
    classified (blocks_of sample_events) 3 block_3 r.
Proof.
  apply (classification_is_correct 2 sample_events block_3);
    [lia|apply sample_indexer_ok|apply sample_heights_ok|vm_compute; repeat constructor].
Defined.

Lemma final_stream_contiguous_witness :
  ∃ t out, run (RecentBlocksTracker_new 2) sample_events = Ok (t, out) ∧ linked out.*2 ∧
    out.*2 = [block_1; block_2].
Proof.
  destruct (final_stream_contiguous 2 sample_events) as (t & out & Hrun & Hl & _);
    [lia|apply sample_indexer_ok|apply sample_heights_ok|].
  exists t, out. split; [exact Hrun|]. split; [exact Hl|].
  vm_compute in Hrun. injection Hrun as _ <-. reflexivity.
Defined.
