(* ===== verification/RequestQueue.v ===== *)
(** * Node: the queue of pending requests

    [node/src/requests/queue.rs] and the buffer of completed requests of
    [node/src/requests/debug.rs]. The progress of a computation is shared between the
    queue, the attempts and the completed requests, and an attempt is watched through a
    [Weak], so both live in stores: an [Arc<Mutex<ComputationProgress>>] is an index of
    [pr_progress] and an [Arc<GenerationAttempt>] an index of [pr_attempts]. The attempts that
    still have a strong reference, the clock, the network state and the order in which
    the hash map is traversed are arguments. Metrics are left out. *)

From stdpp Require Import sorting.
From S2P Require Import Prelude Types NodePrimitives RecentBlocks.

Abbreviation RequestId := Z (only parsing).

(** [types::Request]. *)
Class Request (R : Type) : Type := get_id : R → RequestId.

(** [Sha256] of the [sha2] crate. *)
Class Sha256 : Type := sha256 : bytes → bytes.

Definition NANOSECONDS : Z := 1000000000.
Definition CHECK_EACH_REQUEST_INTERVAL : Z := 1 * NANOSECONDS.
Definition STALE_PARTICIPANT_THRESHOLD : Z := 10.
Definition REQUEST_EXPIRATION_BLOCKS : Z := 200.
Definition MAX_LATENCY_BEFORE_EXPECTING_TRANSACTION_TO_FINALIZE : Z := 10 * NANOSECONDS.
Definition MAX_ATTEMPTS_PER_REQUEST_AS_LEADER : Z := 10.
Definition NUM_COMPLETED_REQUESTS_TO_KEEP : nat := 100.

Definition sub_overflow : panic := PanicStr "attempt to subtract with overflow".

Record BufferedBlockData : Type := mkBufferedBlockData {
  bd_requests : list RequestId;
  bd_completed_requests : list RequestId;
  bd_timestamp_received : Z;
}.

Record ComputationProgress (C : Type) : Type := mkComputationProgress {
  cp_attempts : Z;
  cp_computed_response : option C;
  cp_selected_leader : option ParticipantId;
  cp_last_response_submission : option Z;
}.
#[global] Arguments mkComputationProgress {C} _ _ _ _.
#[global] Arguments cp_attempts {C} _.
#[global] Arguments cp_computed_response {C} _.
#[global] Arguments cp_selected_leader {C} _.
#[global] Arguments cp_last_response_submission {C} _.

Definition ComputationProgress_default {C} : ComputationProgress C := mkComputationProgress 0 None None None.

#[export] Instance ComputationProgress_inhabited {C} : Inhabited (ComputationProgress C) :=
  populate ComputationProgress_default.

Record GenerationAttempt (R : Type) : Type := mkGenerationAttempt {
  ga_request : R;
  ga_computation_progress : Arc;
}.
#[global] Arguments mkGenerationAttempt {R} _ _.
#[global] Arguments ga_request {R} _.
#[global] Arguments ga_computation_progress {R} _.

Record QueuedRequest (R : Type) : Type := mkQueuedRequest {
  qr_request : R;
  qr_block_hash : CryptoHash;
  qr_block_height : Z;
  qr_leader_selection_order : list ParticipantId;
  qr_next_check_due : Z;
  qr_computation_progress : Arc;
  qr_active_attempt : option Arc;
  qr_time_indexed : Z;
}.
#[global] Arguments mkQueuedRequest {R} _ _ _ _ _ _ _ _.
#[global] Arguments qr_request {R} _.
#[global] Arguments qr_block_hash {R} _.
#[global] Arguments qr_block_height {R} _.
#[global] Arguments qr_leader_selection_order {R} _.
#[global] Arguments qr_next_check_due {R} _.
#[global] Arguments qr_computation_progress {R} _.
#[global] Arguments qr_active_attempt {R} _.
#[global] Arguments qr_time_indexed {R} _.

Record CompletedRequest (R : Type) : Type := mkCompletedRequest {
  cr_request : R;
  cr_progress : Arc;
  cr_indexed_block_height : Z;
  cr_completion_delay : option (Z * Z);
}.
#[global] Arguments mkCompletedRequest {R} _ _ _ _.
#[global] Arguments cr_request {R} _.
#[global] Arguments cr_progress {R} _.
#[global] Arguments cr_indexed_block_height {R} _.
#[global] Arguments cr_completion_delay {R} _.

Record PendingRequests (R C : Type) : Type := mkPendingRequests {
  pr_all_participants : list ParticipantId;
  pr_my_participant_id : ParticipantId;
  pr_requests : gmap RequestId (QueuedRequest R);
  pr_recent_blocks : RecentBlocksTracker BufferedBlockData;
  pr_recently_completed_requests : list (CompletedRequest R);
  pr_progress : list (ComputationProgress C);
  pr_attempts : list (GenerationAttempt R);
}.
#[global] Arguments mkPendingRequests {R C} _ _ _ _ _ _ _.
#[global] Arguments pr_all_participants {R C} _.
#[global] Arguments pr_my_participant_id {R C} _.
#[global] Arguments pr_requests {R C} _.
#[global] Arguments pr_recent_blocks {R C} _.
#[global] Arguments pr_recently_completed_requests {R C} _.
#[global] Arguments pr_progress {R C} _.
#[global] Arguments pr_attempts {R C} _.

(** What the queue sees of the network. *)
Record NetworkState : Type := mkNetworkState {
  alive_participants : list ParticipantId;
  indexer_heights : gmap ParticipantId Z;
}.

(** ** Leaders *)

Definition le_bytes (n : nat) (x : Z) : bytes := reverse (be_bytes n x).
Definition from_le_bytes (b : bytes) : Z := from_be_bytes (reverse b).

Definition pair_le (x y : Z * ParticipantId) : Prop := x.1 < y.1 ∨ (x.1 = y.1 ∧ x.2 ≤ y.2).

#[export] Instance pair_le_dec : RelDecision pair_le.
Proof. intros x y. unfold pair_le. apply _. Defined.

Section Leaders.
Context `{!Sha256}.

Definition leader_selection_hash (participant_id : ParticipantId) (request_id : RequestId) : Z :=
  let hash := sha256 (le_bytes 4 participant_id ++ be_bytes 32 request_id) in
  from_le_bytes (take 8 hash).

Definition leader_selection_order (participants : list ParticipantId) (request_id : RequestId) :
    list ParticipantId :=
  (merge_sort pair_le ((λ p, (leader_selection_hash p request_id, p)) <$> participants)).*2.
End Leaders.

Definition current_leader (leader_selection_order eligible_leaders : list ParticipantId) :
    option ParticipantId :=
  find (λ candidate_leader, bool_decide (candidate_leader ∈ eligible_leaders)) leader_selection_order.

(** ** Completed requests *)

Section Completed.
Context {R : Type} `{!Request R}.

Definition completed_key (c : CompletedRequest R) : Z * RequestId :=
  (cr_indexed_block_height c, get_id (cr_request c)).

(** The top of the heap, whose order is reversed: the smallest key. *)
Fixpoint pop_oldest (l : list (CompletedRequest R)) : option (CompletedRequest R * list (CompletedRequest R)) :=
  match l with
  | [] => None
  | c :: l =>
    match pop_oldest l with
    | None => Some (c, [])
    | Some (c', l') =>
      if bool_decide (pair_le (completed_key c) (completed_key c')) then Some (c, c' :: l')
      else Some (c', c :: l')
    end
  end.

Definition add_completed_request (requests : list (CompletedRequest R)) (request : CompletedRequest R) :
    list (CompletedRequest R) :=
  let requests := request :: requests in
  if (NUM_COMPLETED_REQUESTS_TO_KEEP <? length requests)%nat then
    match pop_oldest requests with Some (_, requests) => requests | None => requests end
  else requests.
End Completed.

(** ** The queue *)

Section Queue.
Context {R C : Type} `{!Request R, !Sha256}.
Implicit Types (q : PendingRequests R C).

Definition PendingRequests_new (all_participants : list ParticipantId)
    (my_participant_id : ParticipantId) : PendingRequests R C :=
  mkPendingRequests all_participants my_participant_id ∅
    (RecentBlocksTracker_new REQUEST_EXPIRATION_BLOCKS) [] [] [].

Definition set_requests (q : PendingRequests R C) (rs : gmap RequestId (QueuedRequest R)) : PendingRequests R C :=
  mkPendingRequests (pr_all_participants q) (pr_my_participant_id q) rs (pr_recent_blocks q)
    (pr_recently_completed_requests q) (pr_progress q) (pr_attempts q).
Definition set_recent_blocks (q : PendingRequests R C) (t : RecentBlocksTracker BufferedBlockData) :
    PendingRequests R C :=
  mkPendingRequests (pr_all_participants q) (pr_my_participant_id q) (pr_requests q) t
    (pr_recently_completed_requests q) (pr_progress q) (pr_attempts q).
Definition set_completed (q : PendingRequests R C) (c : list (CompletedRequest R)) : PendingRequests R C :=
  mkPendingRequests (pr_all_participants q) (pr_my_participant_id q) (pr_requests q) (pr_recent_blocks q)
    c (pr_progress q) (pr_attempts q).
Definition set_progress (q : PendingRequests R C) (p : list (ComputationProgress C)) : PendingRequests R C :=
  mkPendingRequests (pr_all_participants q) (pr_my_participant_id q) (pr_requests q) (pr_recent_blocks q)
    (pr_recently_completed_requests q) p (pr_attempts q).
Definition set_attempts (q : PendingRequests R C) (a : list (GenerationAttempt R)) : PendingRequests R C :=
  mkPendingRequests (pr_all_participants q) (pr_my_participant_id q) (pr_requests q) (pr_recent_blocks q)
    (pr_recently_completed_requests q) (pr_progress q) a.

(** Removes a request whose response is in a final block. *)
Definition complete_request (q : PendingRequests R C) (final_block_height timestamp_received : Z)
    (request_id : RequestId) : result string (PendingRequests R C) :=
  match pr_requests q !! request_id with
  | None => Ok q
  | Some request =>
    let q := set_requests q (delete request_id (pr_requests q)) in
    if final_block_height <? qr_block_height request then Panic sub_overflow
    else
      let response_latency_blocks := final_block_height - qr_block_height request in
      let response_latency_duration := timestamp_received - qr_time_indexed request in
      Ok (set_completed q (add_completed_request (pr_recently_completed_requests q)
        (mkCompletedRequest (qr_request request) (qr_computation_progress request)
          (qr_block_height request) (Some (response_latency_blocks, response_latency_duration)))))
  end.

Fixpoint complete_requests (q : PendingRequests R C) (final_block_height timestamp_received : Z)
    (ids : list RequestId) : result string (PendingRequests R C) :=
  match ids with
  | [] => Ok q
  | id :: ids =>
    q ← complete_request q final_block_height timestamp_received id;
    complete_requests q final_block_height timestamp_received ids
  end.

Fixpoint process_final_blocks (q : PendingRequests R C) (blocks : list (Z * BufferedBlockData)) :
    result string (PendingRequests R C) :=
  match blocks with
  | [] => Ok q
  | (final_block_height, data) :: blocks =>
    q ← complete_requests q final_block_height (bd_timestamp_received data) (bd_completed_requests data);
    process_final_blocks q blocks
  end.

(** [requests.entry(id).or_insert(QueuedRequest::new(..))]. The new entry, with its
    progress, is built in either case. *)
Definition insert_request (now : Z) (block : BlockViewLite) (q : PendingRequests R C) (request : R) :
    PendingRequests R C :=
  let new := mkQueuedRequest request (bv_hash block) (bv_height block)
    (leader_selection_order (pr_all_participants q) (get_id request)) now
    (length (pr_progress q)) None now in
  let q := set_progress q (pr_progress q ++ [ComputationProgress_default]) in
  match pr_requests q !! get_id request with
  | Some _ => q
  | None => set_requests q (<[get_id request := new]> (pr_requests q))
  end.

Definition notify_new_block (now : Z) (q : PendingRequests R C) (requests : list R)
    (completed_requests : list RequestId) (block : BlockViewLite) : result string (PendingRequests R C) :=
  match add_block (pr_recent_blocks q) block
          (mkBufferedBlockData (get_id <$> requests) completed_requests now) with
  | Err _ => Ok q
  | Panic p => Panic p
  | Ok (recent_blocks, new_final_blocks) =>
    q ← process_final_blocks (set_recent_blocks q recent_blocks) new_final_blocks;
    Ok (foldl (insert_request now block) q requests)
  end.

Definition indexer_height (net : NetworkState) (p : ParticipantId) : Z :=
  default 0 (indexer_heights net !! p).

(** The filter, with the overflow check of the addition. *)
Fixpoint eligible_leaders (net : NetworkState) (maximum_height : Z) (participants : list ParticipantId) :
    result string (list ParticipantId) :=
  match participants with
  | [] => Ok []
  | p :: participants =>
    eligible ←
      (if bool_decide (p ∈ alive_participants net) then
         if indexer_height net p + STALE_PARTICIPANT_THRESHOLD <=? u64_max then
           Ok (maximum_height <=? indexer_height net p + STALE_PARTICIPANT_THRESHOLD)
         else Panic add_overflow
       else Ok false);
    rest ← eligible_leaders net maximum_height participants;
    Ok (if eligible : bool then p :: rest else rest)
  end.

Definition eligible_leaders_and_maximum_height (q : PendingRequests R C) (net : NetworkState) :
    result string (list ParticipantId * Z) :=
  let maximum_height := foldl Z.max 0 (indexer_height net <$> alive_participants net) in
  leaders ← eligible_leaders net maximum_height (pr_all_participants q);
  Ok (leaders, maximum_height).

(** Whether an attempt still has a strong reference. *)
Definition attempt_active (held : list Arc) (active_attempt : option Arc) : bool :=
  match active_attempt with Some a => bool_decide (a ∈ held) | None => false end.

Definition set_next_check_due (r : QueuedRequest R) (due : Z) : QueuedRequest R :=
  mkQueuedRequest (qr_request r) (qr_block_hash r) (qr_block_height r) (qr_leader_selection_order r) due
    (qr_computation_progress r) (qr_active_attempt r) (qr_time_indexed r).
Definition set_active_attempt (r : QueuedRequest R) (a : option Arc) : QueuedRequest R :=
  mkQueuedRequest (qr_request r) (qr_block_hash r) (qr_block_height r) (qr_leader_selection_order r)
    (qr_next_check_due r) (qr_computation_progress r) a (qr_time_indexed r).
Definition set_selected_leader (p : ComputationProgress C) (leader : ParticipantId) : ComputationProgress C :=
  mkComputationProgress (cp_attempts p) (cp_computed_response p) (Some leader) (cp_last_response_submission p).
Definition incr_attempts (p : ComputationProgress C) : ComputationProgress C :=
  mkComputationProgress (cp_attempts p + 1) (cp_computed_response p) (cp_selected_leader p)
    (cp_last_response_submission p).

(** The part of the loop body for a request whose block may still count. *)
Definition try_attempt (now : Z) (leaders : list ParticipantId) (q : PendingRequests R C)
    (id : RequestId) (request : QueuedRequest R) : PendingRequests R C * list Arc * list RequestId :=
  match current_leader (qr_leader_selection_order request) leaders with
  | None => (q, [], [])
  | Some leader =>
    let cell := qr_computation_progress request in
    let q := set_progress q (alter (λ p, set_selected_leader p leader) cell (pr_progress q)) in
    if negb (leader =? pr_my_participant_id q) then (q, [], [])
    else
      let progress := pr_progress q !!! cell in
      if MAX_ATTEMPTS_PER_REQUEST_AS_LEADER <=? cp_attempts progress then (q, [], [id])
      else if match cp_last_response_submission progress with
              | Some t => now <? t + MAX_LATENCY_BEFORE_EXPECTING_TRANSACTION_TO_FINALIZE
              | None => false
              end then (q, [], [])
      else
        let q := set_progress q (alter incr_attempts cell (pr_progress q)) in
        let attempt := length (pr_attempts q) in
        let q := set_attempts q (pr_attempts q ++ [mkGenerationAttempt (qr_request request) cell]) in
        (set_requests q (<[id := set_active_attempt request (Some attempt)]> (pr_requests q)), [attempt], [])
  end.

(** The loop body: the new state, the attempt if any, and whether to remove the request. *)
Definition check_request (now : Z) (held : list Arc) (leaders : list ParticipantId)
    (q : PendingRequests R C) (id : RequestId) : result string (PendingRequests R C * list Arc * list RequestId) :=
  match pr_requests q !! id with
  | None => Ok (q, [], [])
  | Some request =>
    if now <? qr_next_check_due request then Ok (q, [], [])
    else
      let request := set_next_check_due request (now + CHECK_EACH_REQUEST_INTERVAL) in
      let q := set_requests q (<[id := request]> (pr_requests q)) in
      if attempt_active held (qr_active_attempt request) then Ok (q, [], [])
      else
        class ← classify_block (pr_recent_blocks q) (qr_block_hash request) (qr_block_height request);
        match class with
        | RecentAndFinal | OptimisticAndCanonical | Unknown => Ok (try_attempt now leaders q id request)
        | OptimisticButNotCanonical => Ok (q, [], [])
        | NotIncluded | OlderThanRecentWindow => Ok (q, [], [id])
        end
  end.

Fixpoint check_requests (now : Z) (held : list Arc) (leaders : list ParticipantId)
    (q : PendingRequests R C) (ids : list RequestId) :
    result string (PendingRequests R C * list Arc * list RequestId) :=
  match ids with
  | [] => Ok (q, [], [])
  | id :: ids =>
    '(q, result, requests_to_remove) ← check_request now held leaders q id;
    '(q, result', requests_to_remove') ← check_requests now (result ++ held) leaders q ids;
    Ok (q, result ++ result', requests_to_remove ++ requests_to_remove')
  end.

Definition remove_request (q : PendingRequests R C) (id : RequestId) : PendingRequests R C :=
  match pr_requests q !! id with
  | None => q
  | Some request =>
    let q := set_requests q (delete id (pr_requests q)) in
    set_completed q (add_completed_request (pr_recently_completed_requests q)
      (mkCompletedRequest (qr_request request) (qr_computation_progress request) (qr_block_height request) None))
  end.

(** [order] is the order in which the hash map is traversed. *)
Definition get_requests_to_attempt (now : Z) (net : NetworkState) (held : list Arc) (order : list RequestId)
    (q : PendingRequests R C) : result string (PendingRequests R C * list Arc) :=
  '(leaders, maximum_height) ← eligible_leaders_and_maximum_height q net;
  recent_blocks ← notify_maximum_height_available (pr_recent_blocks q) maximum_height;
  '(q, result, requests_to_remove) ← check_requests now held leaders (set_recent_blocks q recent_blocks) order;
  Ok (foldl remove_request q requests_to_remove, result).
End Queue.
