(* ===== verification/RequestQueueProofs.v ===== *)
(** * Node: the queue of pending requests, histories and invariant

    A history of the queue: blocks from the indexer, calls that hand out attempts, and the
    code that computes responses, which drops attempts and writes their progress at any
    time. *)

From stdpp Require Import sorting.
From S2P Require Import Prelude Types NodePrimitives RecentBlocks RecentBlocksProofs RecentBlocksInv RecentBlocksRun RequestQueue.

(** ** Leaders *)

#[export] Instance pair_le_transitive : Transitive pair_le.
Proof. intros x y z. unfold pair_le. lia. Qed.

#[export] Instance pair_le_total : Total pair_le.
Proof. intros x y. unfold pair_le. lia. Qed.

#[export] Instance pair_le_antisymm : AntiSymm (=) pair_le.
Proof. intros [x1 x2] [y1 y2]. unfold pair_le. simpl. intros. f_equal; lia. Qed.

Section LeaderLemmas.
Context `{!Sha256}.

(** The order does not depend on the order in which the participants are listed. *)
Lemma leader_selection_order_perm ps ps' id :
  ps ≡ₚ ps' → leader_selection_order ps id = leader_selection_order ps' id.
Proof.
  intros Hperm. unfold leader_selection_order. f_equal. apply (StronglySorted_unique pair_le).
  - apply (StronglySorted_merge_sort pair_le).
  - apply (StronglySorted_merge_sort pair_le).
  - rewrite !merge_sort_Permutation. by apply fmap_Permutation.
Qed.

Lemma elem_of_leader_selection_order ps id p : p ∈ leader_selection_order ps id ↔ p ∈ ps.
Proof.
  unfold leader_selection_order. rewrite merge_sort_Permutation, <-list_fmap_compose.
  rewrite list_elem_of_fmap. split; [by intros (p' & -> & ?)|]. intros Hp. by exists p.
Qed.
End LeaderLemmas.

Lemma current_leader_ext order ls ls' :
  (∀ p, p ∈ order → p ∈ ls ↔ p ∈ ls') → current_leader order ls = current_leader order ls'.
Proof.
  unfold current_leader. induction order as [|p order IH]; intros Hls; [done|]. simpl.
  rewrite (bool_decide_ext (p ∈ ls) (p ∈ ls')) by (apply Hls; set_solver).
  case_bool_decide; [done|]. apply IH. set_solver.
Qed.

Lemma current_leader_Some order ls p :
  current_leader order ls = Some p → p ∈ order ∧ p ∈ ls.
Proof. intros [Hp Hl]%find_Some. by apply bool_decide_eq_true in Hl. Qed.

Definition maximum_height_of (net : NetworkState) : Z :=
  foldl Z.max 0 (indexer_height net <$> alive_participants net).

Definition eligible (net : NetworkState) (p : ParticipantId) : Prop :=
  p ∈ alive_participants net ∧
  maximum_height_of net ≤ indexer_height net p + STALE_PARTICIPANT_THRESHOLD.

Lemma eligible_leaders_spec net ps leaders :
  eligible_leaders net (maximum_height_of net) ps = Ok leaders →
  ∀ p, p ∈ leaders ↔ p ∈ ps ∧ eligible net p.
Proof.
  revert leaders. induction ps as [|p ps IH]; intros leaders; simpl.
  { intros [= <-]. set_solver. }
  intros Hel. apply bind_Ok in Hel as (e & He & Hel). apply bind_Ok in Hel as (rest & Hrest & [= <-]).
  specialize (IH rest Hrest). unfold eligible in *.
  assert (Hep : e = true ↔ p ∈ alive_participants net ∧
    maximum_height_of net ≤ indexer_height net p + STALE_PARTICIPANT_THRESHOLD).
  { destruct (bool_decide (p ∈ alive_participants net)) eqn:Hal.
    - apply bool_decide_eq_true in Hal. destruct (_ <=? u64_max); [|done]. injection He as <-.
      rewrite Z.leb_le. tauto.
    - apply bool_decide_eq_false in Hal. injection He as <-. split; [done|]. tauto. }
  intros x. destruct e.
  - rewrite elem_of_cons, elem_of_cons, IH. assert (Hp := proj1 Hep eq_refl).
    split; [intros [->|?]; tauto|tauto].
  - rewrite elem_of_cons, IH. split; [tauto|]. intros [[->|?] Hx]; [|tauto].
    by apply Hep in Hx.
Qed.

(** ** Histories *)

Section Histories.
Context {R C : Type} `{!Request R, !Sha256}.
Implicit Types (q : PendingRequests R C) (r : QueuedRequest R) (held : list Arc).

(** The queue, the attempts with a strong reference, and the blocks given so far. *)
Record QWorld : Type := mkQWorld {
  qw_queue : PendingRequests R C;
  qw_held : list Arc;
  qw_blocks : list BlockViewLite;
}.

(** A write to the progress by the code that computes the response. *)
Definition write_progress (response : option C) (submission : option Z) (p : ComputationProgress C) :
    ComputationProgress C :=
  mkComputationProgress (cp_attempts p) response (cp_selected_leader p) submission.

Definition heights_in_range (net : NetworkState) : Prop :=
  map_Forall (λ _ height, 0 ≤ height ≤ u64_max) (indexer_heights net).

Inductive qstep : QWorld → QWorld → Prop :=
  | q_block w now requests completed block q' :
      notify_new_block now (qw_queue w) requests completed block = Ok q' →
      qstep w (mkQWorld q' (qw_held w) (qw_blocks w ++ [block]))
  | q_attempt w now net order q' result :
      order ≡ₚ (map_to_list (pr_requests (qw_queue w))).*1 → heights_in_range net →
      get_requests_to_attempt now net (qw_held w) order (qw_queue w) = Ok (q', result) →
      qstep w (mkQWorld q' (result ++ qw_held w) (qw_blocks w))
  | q_drop w a :
      qstep w (mkQWorld (qw_queue w) (filter (λ b, b ≠ a) (qw_held w)) (qw_blocks w))
  | q_write w a attempt response submission :
      a ∈ qw_held w → pr_attempts (qw_queue w) !! a = Some attempt →
      qstep w (mkQWorld (set_progress (qw_queue w)
        (alter (write_progress response submission) (ga_computation_progress attempt)
          (pr_progress (qw_queue w)))) (qw_held w) (qw_blocks w)).

Definition qreachable (all_participants : list ParticipantId) (me : ParticipantId) (w : QWorld) : Prop :=
  rtc qstep (mkQWorld (PendingRequests_new all_participants me) [] []) w.

(** ** The invariant of the queue *)

Definition attempts_of (attempts : list (GenerationAttempt R)) (cell : Arc) : list (GenerationAttempt R) :=
  filter (λ a, ga_computation_progress a = cell) attempts.

Record QInv (q : PendingRequests R C) (held : list Arc) : Prop := {
  qi_id id r : pr_requests q !! id = Some r →
    get_id (qr_request r) = id ∧
    qr_leader_selection_order r = leader_selection_order (pr_all_participants q) id;
  qi_cell id r : pr_requests q !! id = Some r → (qr_computation_progress r < length (pr_progress q))%nat;
  qi_own_cell id id' r r' : pr_requests q !! id = Some r → pr_requests q !! id' = Some r' →
    qr_computation_progress r = qr_computation_progress r' → id = id';
  qi_attempts c : (c < length (pr_progress q))%nat →
    cp_attempts (pr_progress q !!! c) = zlen (attempts_of (pr_attempts q) c) ∧
    cp_attempts (pr_progress q !!! c) ≤ MAX_ATTEMPTS_PER_REQUEST_AS_LEADER;
  qi_attempt_cell a attempt : pr_attempts q !! a = Some attempt →
    (ga_computation_progress attempt < length (pr_progress q))%nat;
  qi_held a : a ∈ held → (a < length (pr_attempts q))%nat;
  qi_active a attempt id r : a ∈ held → pr_attempts q !! a = Some attempt →
    pr_requests q !! id = Some r → ga_computation_progress attempt = qr_computation_progress r →
    qr_active_attempt r = Some a;
  qi_one a a' attempt attempt' : a ∈ held → a' ∈ held →
    pr_attempts q !! a = Some attempt → pr_attempts q !! a' = Some attempt' →
    ga_computation_progress attempt = ga_computation_progress attempt' → a = a';
  qi_weak id r a : pr_requests q !! id = Some r → qr_active_attempt r = Some a →
    (a < length (pr_attempts q))%nat;
}.

Lemma QInv_new all_participants me : QInv (PendingRequests_new all_participants me) [].
Proof. split; simpl; try done; try set_solver; intros; lia. Qed.

(** Fewer requests. *)
Lemma QInv_fewer q q' held :
  pr_all_participants q' = pr_all_participants q → pr_progress q' = pr_progress q →
  pr_attempts q' = pr_attempts q →
  (∀ id r, pr_requests q' !! id = Some r → pr_requests q !! id = Some r) →
  QInv q held → QInv q' held.
Proof.
  intros Ep Epr Ea Hsub [H1 H2 H3 H4 H5 H6 H7 H8 H9].
  split; rewrite ?Ep, ?Epr, ?Ea; eauto.
Qed.

(** Changes to the progress that keep the number of attempts. *)
Lemma QInv_progress q held f cell :
  (∀ p, cp_attempts (f p) = cp_attempts p) → QInv q held →
  QInv (set_progress q (alter f cell (pr_progress q))) held.
Proof.
  intros Hf [H1 H2 H3 H4 H5 H6 H7 H8 H9]. split; simpl; rewrite ?length_alter; try done.
  intros c Hc. rewrite list_lookup_total_alt. destruct (decide (c = cell)) as [->|Hne].
  - rewrite list_lookup_alter_eq. destruct (lookup_lt_is_Some_2 _ _ Hc) as [p Hp]. rewrite Hp. simpl.
    rewrite Hf. specialize (H4 cell Hc). by rewrite (list_lookup_total_correct _ _ _ Hp) in H4.
  - rewrite list_lookup_alter_ne by done. rewrite <-list_lookup_total_alt. by apply H4.
Qed.

(** A request keeps its identity, cell and active attempt. *)
Lemma QInv_update q held id r r' :
  pr_requests q !! id = Some r → qr_request r' = qr_request r →
  qr_leader_selection_order r' = qr_leader_selection_order r →
  qr_computation_progress r' = qr_computation_progress r → qr_active_attempt r' = qr_active_attempt r →
  QInv q held → QInv (set_requests q (<[id := r']> (pr_requests q))) held.
Proof.
  intros Hr Ereq Eord Ecell Eact [H1 H2 H3 H4 H5 H6 H7 H8 H9].
  assert (Hlook : ∀ i x, <[id := r']> (pr_requests q) !! i = Some x → ∃ y, pr_requests q !! i = Some y ∧
    qr_request x = qr_request y ∧ qr_leader_selection_order x = qr_leader_selection_order y ∧
    qr_computation_progress x = qr_computation_progress y ∧ qr_active_attempt x = qr_active_attempt y).
  { intros i x [[? ?]|[Hne Hx]]%lookup_insert_Some; [subst; by exists r|by exists x]. }
  split; simpl; try done.
  - intros i x (y & Hy & -> & -> & _)%Hlook. by apply H1.
  - intros i x (y & Hy & _ & _ & -> & _)%Hlook. by apply (H2 i).
  - intros i i' x x' (y & Hy & _ & _ & -> & _)%Hlook (y' & Hy' & _ & _ & -> & _)%Hlook. by apply H3.
  - intros a at' i x Ha Hat (y & Hy & _ & _ & -> & ->)%Hlook. by apply (H7 a at' i).
  - intros i x a (y & Hy & _ & _ & _ & ->)%Hlook. by apply (H9 i).
Qed.

Lemma QInv_insert q held now block request :
  QInv q held → QInv (insert_request now block q request) held.
Proof.
  intros [H1 H2 H3 H4 H5 H6 H7 H8 H9]. unfold insert_request.
  assert (Hold : ∀ c, (c < length (pr_progress q))%nat →
    (pr_progress q ++ [ComputationProgress_default]) !!! c = pr_progress q !!! c).
  { intros c Hc. by rewrite !list_lookup_total_alt, lookup_app_l. }
  assert (Hnone : attempts_of (pr_attempts q) (length (pr_progress q)) = []).
  { apply elem_of_nil_inv. intros a [Ha Hin]%list_elem_of_filter.
    apply list_elem_of_lookup in Hin as [i Hi]. apply H5 in Hi. lia. }
  assert (Hq1 : QInv (set_progress q (pr_progress q ++ [ComputationProgress_default])) held).
  { split; simpl; rewrite ?length_app; simpl; try done.
    - intros id r Hr. apply H2 in Hr. lia.
    - intros c Hc. destruct (decide (c = length (pr_progress q))) as [->|Hne].
      + rewrite Hnone. rewrite (list_lookup_total_correct _ _ ComputationProgress_default) by (by apply list_lookup_middle).
        done.
      + rewrite Hold by lia. apply H4. lia.
    - intros a at' Hat. apply H5 in Hat. lia. }
  simpl. destruct (pr_requests q !! get_id request) as [r0|] eqn:Hr0; [done|].
  destruct Hq1 as [K1 K2 K3 K4 K5 K6 K7 K8 K9]. simpl in *. split; simpl; try done.
  - intros id r [[? ?]|[Hne Hr]]%lookup_insert_Some; [subst; done|auto].
  - intros id r [[? ?]|[Hne Hr]]%lookup_insert_Some; [subst; simpl; rewrite length_app; simpl; lia|by eapply K2].
  - intros id id' r r' [[? ?]|[Hne Hr]]%lookup_insert_Some [[? ?]|[Hne' Hr']]%lookup_insert_Some; subst; simpl.
    + done.
    + apply H2 in Hr'. lia.
    + apply H2 in Hr. lia.
    + by apply K3.
  - intros a at' id r Ha Hat [[? ?]|[Hne Hr]]%lookup_insert_Some; [|by eapply K7].
    subst. simpl. intros E. apply H5 in Hat. lia.
  - intros id r a [[? ?]|[Hne Hr]]%lookup_insert_Some; [by subst|by eapply K9].
Qed.

Lemma QInv_inserts q held now block requests :
  QInv q held → QInv (foldl (insert_request now block) q requests) held.
Proof.
  revert q. induction requests as [|r rs IH]; intros q Hq; [done|]. simpl. apply IH. by apply QInv_insert.
Qed.

(** The requests of a later state, the participants and the stores of an earlier one. *)
Definition fewer (q q' : PendingRequests R C) : Prop :=
  pr_all_participants q' = pr_all_participants q ∧ pr_my_participant_id q' = pr_my_participant_id q ∧
  pr_progress q' = pr_progress q ∧ pr_attempts q' = pr_attempts q ∧ pr_recent_blocks q' = pr_recent_blocks q ∧
  ∀ id r, pr_requests q' !! id = Some r → pr_requests q !! id = Some r.

Lemma fewer_refl q : fewer q q.
Proof. done. Qed.

Lemma fewer_trans q1 q2 q3 : fewer q1 q2 → fewer q2 q3 → fewer q1 q3.
Proof. unfold fewer. intros (? & ? & ? & ? & ? & ?) (? & ? & ? & ? & ? & ?). repeat split; try congruence; auto. Qed.

Lemma fewer_QInv q q' held : fewer q q' → QInv q held → QInv q' held.
Proof. intros (? & ? & ? & ? & ? & ?). by apply QInv_fewer. Qed.

Lemma complete_request_fewer q height time id q' : complete_request q height time id = Ok q' → fewer q q'.
Proof.
  unfold complete_request. destruct (pr_requests q !! id); [|by intros [= <-]].
  case_match; [done|]. intros [= <-]. repeat split. simpl. intros i r Hr. by apply lookup_delete_Some in Hr as [_ ?].
Qed.

Lemma complete_requests_fewer q height time ids q' : complete_requests q height time ids = Ok q' → fewer q q'.
Proof.
  revert q. induction ids as [|id ids IH]; intros q; simpl; [by intros [= <-]|]. intros Hc.
  apply bind_Ok in Hc as (q1 & H1 & H2). eapply fewer_trans; [by eapply complete_request_fewer|by apply IH].
Qed.

Lemma process_final_blocks_fewer q blocks q' : process_final_blocks q blocks = Ok q' → fewer q q'.
Proof.
  revert q. induction blocks as [|[height data] blocks IH]; intros q; simpl; [by intros [= <-]|]. intros Hc.
  apply bind_Ok in Hc as (q1 & H1 & H2). eapply fewer_trans; [by eapply complete_requests_fewer|by apply IH].
Qed.

Lemma remove_requests_fewer q ids : fewer q (foldl remove_request q ids).
Proof.
  revert q. induction ids as [|id ids IH]; intros q; [done|]. simpl. eapply fewer_trans; [|apply IH].
  unfold remove_request. destruct (pr_requests q !! id); [|done]. repeat split. simpl.
  intros i r Hr. by apply lookup_delete_Some in Hr as [_ ?].
Qed.

Lemma notify_new_block_inv now q requests completed block q' :
  notify_new_block now q requests completed block = Ok q' →
  (q' = q ∧ ∃ e, add_block (pr_recent_blocks q) block
     (mkBufferedBlockData (get_id <$> requests) completed now) = Err e) ∨
  ∃ t blocks q1, add_block (pr_recent_blocks q) block
      (mkBufferedBlockData (get_id <$> requests) completed now) = Ok (t, blocks) ∧
    fewer (set_recent_blocks q t) q1 ∧ q' = foldl (insert_request now block) q1 requests.
Proof.
  unfold notify_new_block. destruct (add_block _ _ _) as [[t blocks]|e|p]; [|naive_solver|done].
  intros Hn. apply bind_Ok in Hn as (q1 & Hq1 & [= <-]). right. exists t, blocks, q1.
  split; [done|]. split; [by apply process_final_blocks_fewer in Hq1|done].
Qed.

Lemma QInv_recent_blocks q t held : QInv q held → QInv (set_recent_blocks q t) held.
Proof. by intros [H1 H2 H3 H4 H5 H6 H7 H8 H9]. Qed.

Lemma QInv_notify now q requests completed block q' held :
  QInv q held → notify_new_block now q requests completed block = Ok q' → QInv q' held.
Proof.
  intros Hq [[-> _]|(t & blocks & q1 & _ & Hf & ->)]%notify_new_block_inv; [done|].
  apply QInv_inserts. eapply fewer_QInv; [done|]. by apply QInv_recent_blocks.
Qed.

(** ** Handing out an attempt *)

Definition issue (q : PendingRequests R C) (id : RequestId) (r : QueuedRequest R) : PendingRequests R C :=
  let cell := qr_computation_progress r in
  let q := set_progress q (alter incr_attempts cell (pr_progress q)) in
  let attempt := length (pr_attempts q) in
  let q := set_attempts q (pr_attempts q ++ [mkGenerationAttempt (qr_request r) cell]) in
  set_requests q (<[id := set_active_attempt r (Some attempt)]> (pr_requests q)).

Lemma attempts_of_snoc l a cell :
  attempts_of (l ++ [a]) cell = attempts_of l cell ++ (if decide (ga_computation_progress a = cell) then [a] else []).
Proof. unfold attempts_of. rewrite filter_app, filter_cons, filter_nil. by case_decide. Qed.

Lemma QInv_issue q held id r :
  pr_requests q !! id = Some r → attempt_active held (qr_active_attempt r) = false →
  cp_attempts (pr_progress q !!! qr_computation_progress r) < MAX_ATTEMPTS_PER_REQUEST_AS_LEADER →
  QInv q held → QInv (issue q id r) (length (pr_attempts q) :: held).
Proof.
  intros Hr Hact Hlt [H1 H2 H3 H4 H5 H6 H7 H8 H9].
  set (new := mkGenerationAttempt (qr_request r) (qr_computation_progress r)).
  assert (Hother : ∀ a at', a ∈ held → pr_attempts q !! a = Some at' →
    ga_computation_progress at' ≠ qr_computation_progress r).
  { intros a at' Ha Hat E. rewrite (H7 a at' id r Ha Hat Hr E) in Hact. simpl in Hact.
    by apply bool_decide_eq_false in Hact. }
  assert (Hatt : ∀ a at', (pr_attempts q ++ [new]) !! a = Some at' →
    (a = length (pr_attempts q) ∧ at' = new) ∨ pr_attempts q !! a = Some at').
  { intros a at' [Ha|[Hle Ha]]%lookup_app_Some; [auto|]. left.
    apply list_lookup_singleton_Some in Ha as [Ha <-]. split; [lia|done]. }
  assert (Hreq : ∀ i x, <[id := set_active_attempt r (Some (length (pr_attempts q)))]> (pr_requests q) !! i = Some x →
    ∃ y, pr_requests q !! i = Some y ∧ qr_request x = qr_request y ∧
      qr_leader_selection_order x = qr_leader_selection_order y ∧
      qr_computation_progress x = qr_computation_progress y).
  { intros i x [[? ?]|[Hne Hx]]%lookup_insert_Some; [subst; by exists r|by exists x]. }
  split; simpl; rewrite ?length_alter, ?length_app; try done.
  - intros i x (y & Hy & -> & -> & _)%Hreq. by apply H1.
  - intros i x (y & Hy & _ & _ & ->)%Hreq. by apply (H2 i).
  - intros i i' x x' (y & Hy & _ & _ & ->)%Hreq (y' & Hy' & _ & _ & ->)%Hreq. by apply H3.
  - intros c Hc. destruct (H4 c Hc) as [E Hle]. rewrite attempts_of_snoc, list_lookup_total_alt.
    simpl ga_computation_progress. destruct (decide (qr_computation_progress r = c)) as [<-|Hne].
    + rewrite list_lookup_alter_eq. destruct (lookup_lt_is_Some_2 _ _ Hc) as [p Hp].
      rewrite (list_lookup_total_correct _ _ _ Hp) in E, Hlt. rewrite Hp. simpl. rewrite E in *.
      unfold zlen in *. rewrite length_app. simpl. lia.
    + rewrite list_lookup_alter_ne by done. rewrite <-list_lookup_total_alt, app_nil_r. done.
  - intros a at' [[-> ->]|Ha]%Hatt; [by apply (H2 id)|by eapply H5].
  - intros a [->|Ha]%elem_of_cons; [simpl; lia|]. apply H6 in Ha. lia.
  - intros a at' i x Ha [[-> ->]|Hat]%Hatt Hx E.
    + pose proof Hx as (y & Hy & _ & _ & Ey)%Hreq. assert (i = id) as -> by (apply (H3 i id y r); [done..|simpl in E; congruence]).
      rewrite lookup_insert_eq in Hx. by injection Hx as <-.
    + apply elem_of_cons in Ha as [->|Ha]; [apply lookup_lt_Some in Hat; lia|].
      apply lookup_insert_Some in Hx as [[? ?]|[Hne Hx]]; [|by eapply H7].
      subst. by destruct (Hother a at' Ha Hat).
  - intros a a' at' at'' Ha Ha' [[-> ->]|Hat]%Hatt [[-> ->]|Hat']%Hatt E.
    + done.
    + apply elem_of_cons in Ha' as [->|Ha']; [done|]. by destruct (Hother a' at'' Ha' Hat').
    + apply elem_of_cons in Ha as [->|Ha]; [done|]. by destruct (Hother a at' Ha Hat).
    + apply elem_of_cons in Ha as [->|Ha]; [apply lookup_lt_Some in Hat; lia|].
      apply elem_of_cons in Ha' as [->|Ha']; [apply lookup_lt_Some in Hat'; lia|]. by eapply H8.
  - intros i x a [[? ?]|[Hne Hx]]%lookup_insert_Some; [subst; simpl; intros [= <-]; lia|].
    intros Hxa. apply (H9 i x a Hx) in Hxa. simpl. lia.
Qed.

(** The part of a queue that checking requests does not change. *)
Definition same_requests (q q' : PendingRequests R C) : Prop :=
  pr_all_participants q' = pr_all_participants q ∧ pr_my_participant_id q' = pr_my_participant_id q ∧
  pr_recent_blocks q' = pr_recent_blocks q ∧
  (∀ a x, pr_attempts q !! a = Some x → pr_attempts q' !! a = Some x) ∧
  ∀ id r', pr_requests q' !! id = Some r' → ∃ r, pr_requests q !! id = Some r ∧
    qr_request r' = qr_request r ∧ qr_block_hash r' = qr_block_hash r ∧
    qr_block_height r' = qr_block_height r ∧ qr_leader_selection_order r' = qr_leader_selection_order r.

Lemma same_requests_refl q : same_requests q q.
Proof. repeat split; eauto 10. Qed.

Lemma same_requests_trans q1 q2 q3 : same_requests q1 q2 → same_requests q2 q3 → same_requests q1 q3.
Proof.
  intros (A1 & A2 & A3 & A4 & A5) (B1 & B2 & B3 & B4 & B5). repeat split; try congruence; [by auto|].
  intros id r3 Hr3. destruct (B5 id r3 Hr3) as (r2 & Hr2 & ? & ? & ? & ?).
  destruct (A5 id r2 Hr2) as (r1 & Hr1 & ? & ? & ? & ?). exists r1. repeat split; congruence.
Qed.

(** Why an attempt was handed out. *)
Definition justified (leaders : list ParticipantId) (q q' : PendingRequests R C) (a : Arc) : Prop :=
  ∃ id r, pr_requests q !! id = Some r ∧
    (∃ attempt, pr_attempts q' !! a = Some attempt ∧ ga_request attempt = qr_request r) ∧
    current_leader (qr_leader_selection_order r) leaders = Some (pr_my_participant_id q) ∧
    ∃ class, classify_block (pr_recent_blocks q) (qr_block_hash r) (qr_block_height r) = Ok class ∧
      (class = RecentAndFinal ∨ class = OptimisticAndCanonical ∨ class = Unknown).

Lemma try_attempt_spec now held leaders q id r q' result rem :
  pr_requests q !! id = Some r → attempt_active held (qr_active_attempt r) = false → QInv q held →
  try_attempt now leaders q id r = (q', result, rem) →
  QInv q' (result ++ held) ∧ same_requests q q' ∧
  ∀ a, a ∈ result → (∃ attempt, pr_attempts q' !! a = Some attempt ∧ ga_request attempt = qr_request r) ∧
    current_leader (qr_leader_selection_order r) leaders = Some (pr_my_participant_id q).
Proof.
  intros Hr Hact Hq. unfold try_attempt.
  destruct (current_leader (qr_leader_selection_order r) leaders) as [leader|].
  2: { intros [= <- <- <-]. split; [done|]. split; [apply same_requests_refl|set_solver]. }
  set (q1 := set_progress q _). cbv zeta.
  assert (Hq1 : QInv q1 held) by (by apply QInv_progress).
  assert (Hs1 : same_requests q q1) by (repeat split; eauto 10).
  change (pr_my_participant_id q1) with (pr_my_participant_id q).
  assert (Hnothing : ∀ rem', (q1, [], rem') = (q', result, rem) →
    QInv q' (result ++ held) ∧ same_requests q q' ∧ ∀ a, a ∈ result →
      (∃ attempt, pr_attempts q' !! a = Some attempt ∧ ga_request attempt = qr_request r) ∧
      Some leader = Some (pr_my_participant_id q)).
  { intros rem' [= <- <- <-]. split; [done|]. split; [done|set_solver]. }
  destruct (leader =? pr_my_participant_id q) eqn:Hme; simpl negb; cbv iota; [|apply Hnothing].
  apply Z.eqb_eq in Hme. subst leader.
  destruct (Z.leb_spec MAX_ATTEMPTS_PER_REQUEST_AS_LEADER (cp_attempts (pr_progress q1 !!! qr_computation_progress r)));
    [apply Hnothing|].
  destruct (match cp_last_response_submission _ with Some _ => _ | None => _ end); [apply Hnothing|].
  intros [= <- <- <-]. change (pr_attempts q) with (pr_attempts q1). split; [|split].
  - exact (QInv_issue q1 held id r Hr Hact ltac:(done) Hq1).
  - apply (same_requests_trans _ q1); [done|]. repeat split; simpl.
    + intros a x Ha. by apply lookup_app_l_Some.
    + intros i x [[? ?]|[Hne Hx]]%lookup_insert_Some; [subst; by exists r|by exists x].
  - intros a Ha. apply list_elem_of_singleton in Ha as ->. split; [|done].
    eexists. split; [by apply list_lookup_middle|done].
Qed.

Lemma check_request_spec now held leaders q id q' result rem :
  QInv q held → check_request now held leaders q id = Ok (q', result, rem) →
  QInv q' (result ++ held) ∧ same_requests q q' ∧ ∀ a, a ∈ result → justified leaders q q' a.
Proof.
  intros Hq. unfold check_request. destruct (pr_requests q !! id) as [r|] eqn:Hr.
  2: { intros [= <- <- <-]. split; [done|]. split; [apply same_requests_refl|set_solver]. }
  destruct (now <? qr_next_check_due r).
  { intros [= <- <- <-]. split; [done|]. split; [apply same_requests_refl|set_solver]. }
  set (r1 := set_next_check_due r _). set (q1 := set_requests q _). cbv zeta.
  assert (Hq1 : QInv q1 held) by (by apply (QInv_update q held id r r1)).
  assert (Hs1 : same_requests q q1).
  { repeat split; simpl; [by auto|]. intros i x [[? ?]|[Hne Hx]]%lookup_insert_Some; [subst; by exists r|by exists x]. }
  assert (Hnothing : ∀ rem', Ok (q1, [], rem') = (Ok (q', result, rem) : Prelude.result string _) →
    QInv q' (result ++ held) ∧ same_requests q q' ∧ ∀ a, a ∈ result → justified leaders q q' a).
  { intros rem' [= <- <- <-]. split; [done|]. split; [done|set_solver]. }
  change (qr_active_attempt r1) with (qr_active_attempt r).
  destruct (attempt_active held (qr_active_attempt r)) eqn:Hact; [apply Hnothing|].
  change (pr_recent_blocks q1) with (pr_recent_blocks q). change (qr_block_hash r1) with (qr_block_hash r).
  change (qr_block_height r1) with (qr_block_height r).
  destruct (classify_block (pr_recent_blocks q) (qr_block_hash r) (qr_block_height r)) as [class| |] eqn:Hclass; [|done..].
  cbn [mbind result_bind].
  assert (Htry : (class = RecentAndFinal ∨ class = OptimisticAndCanonical ∨ class = Unknown) →
    Ok (try_attempt now leaders q1 id r1) = (Ok (q', result, rem) : Prelude.result string _) →
    QInv q' (result ++ held) ∧ same_requests q q' ∧ ∀ a, a ∈ result → justified leaders q q' a).
  { intros Hc Htry. injection Htry as Htry.
    destruct (try_attempt_spec now held leaders q1 id r1 q' result rem) as (Hq' & Hs' & Ha); try done.
    { apply lookup_insert_eq. }
    split; [done|]. split; [by apply (same_requests_trans _ q1)|]. intros a Hin.
    destruct (Ha a Hin) as [Hat Hl]. exists id, r. eauto 10. }
  destruct class; try apply Hnothing; apply Htry; auto.
Qed.

Lemma justified_later leaders q q1 q2 q3 a :
  same_requests q q1 → same_requests q2 q3 → justified leaders q1 q2 a → justified leaders q q3 a.
Proof.
  intros (E1 & E2 & E3 & E4 & E5) (F1 & F2 & F3 & F4 & F5) (id & r & Hr & (x & Hx & Hxr) & Hl & class & Hc & Hcl).
  destruct (E5 id r Hr) as (r0 & Hr0 & R1 & R2 & R3 & R4). exists id, r0. split; [done|]. split.
  - exists x. split; [by apply F4|congruence].
  - rewrite <-R4, <-E2. split; [done|]. exists class. rewrite <-R2, <-R3, <-E3. done.
Qed.

Lemma check_requests_spec now held leaders q ids q' result rem :
  QInv q held → check_requests now held leaders q ids = Ok (q', result, rem) →
  QInv q' (result ++ held) ∧ same_requests q q' ∧ ∀ a, a ∈ result → justified leaders q q' a.
Proof.
  revert q held result rem. induction ids as [|id ids IH]; intros q held result rem Hq; simpl.
  { intros [= <- <- <-]. split; [done|]. split; [apply same_requests_refl|set_solver]. }
  intros Hc. apply bind_Ok in Hc as ([[q1 res1] rem1] & H1 & Hc).
  apply bind_Ok in Hc as ([[q2 res2] rem2] & H2 & [= <- <- <-]).
  destruct (check_request_spec _ _ _ _ _ _ _ _ Hq H1) as (Hq1 & Hs1 & Hj1).
  destruct (IH _ _ _ _ Hq1 H2) as (Hq2 & Hs2 & Hj2). split; [|split].
  - assert (Hsub : ∀ a, a ∈ (res1 ++ res2) ++ held ↔ a ∈ res2 ++ res1 ++ held) by set_solver.
    destruct Hq2 as [K1 K2 K3 K4 K5 K6 K7 K8 K9]. split; try done.
    + intros a Ha%Hsub. by apply K6.
    + intros a x i y Ha%Hsub. by apply K7.
    + intros a a' x x' Ha%Hsub Ha'%Hsub. by apply K8.
  - by eapply same_requests_trans.
  - intros a [Ha|Ha]%elem_of_app.
    + apply (justified_later leaders q q q1 q2); [apply same_requests_refl|done|auto].
    + apply (justified_later leaders q q1 q2 q2); [done|apply same_requests_refl|auto].
Qed.

Lemma get_requests_spec now net held order q q' result :
  QInv q held → get_requests_to_attempt now net held order q = Ok (q', result) →
  ∃ leaders t q1,
    (∀ p, p ∈ leaders ↔ p ∈ pr_all_participants q ∧ eligible net p) ∧
    notify_maximum_height_available (pr_recent_blocks q) (maximum_height_of net) = Ok t ∧
    same_requests (set_recent_blocks q t) q1 ∧ fewer q1 q' ∧ QInv q' (result ++ held) ∧
    ∀ a, a ∈ result → justified leaders (set_recent_blocks q t) q' a.
Proof.
  intros Hq. unfold get_requests_to_attempt. intros Hg.
  apply bind_Ok in Hg as ([leaders maximum] & Hl & Hg). apply bind_Ok in Hg as (t & Ht & Hg).
  apply bind_Ok in Hg as ([[q1 res] rem] & Hc & [= <- <-]).
  unfold eligible_leaders_and_maximum_height in Hl. fold (maximum_height_of net) in Hl.
  apply bind_Ok in Hl as (ls & Hls & [= <- <-]).
  destruct (check_requests_spec now held ls (set_recent_blocks q t) order q1 res rem) as (Hq1 & Hs1 & Hj).
  { by apply QInv_recent_blocks. } { done. }
  pose proof (remove_requests_fewer q1 rem) as Hf. exists ls, t, q1.
  split; [by apply eligible_leaders_spec|]. split; [done|]. split; [done|]. split; [done|].
  split; [by eapply fewer_QInv|]. intros a Ha.
  destruct (Hj a Ha) as (id & r & Hr & (x & Hx & Hxr) & Hrest). exists id, r. split; [done|].
  split; [|done]. exists x. split; [|done]. destruct Hf as (_ & _ & _ & -> & _). done.
Qed.

Lemma qreachable_QInv ps me w :
  qreachable ps me w → QInv (qw_queue w) (qw_held w) ∧
  pr_all_participants (qw_queue w) = ps ∧ pr_my_participant_id (qw_queue w) = me.
Proof.
  intros Hreach. unfold qreachable in Hreach. apply (rtc_ind_r (λ w, QInv (qw_queue w) (qw_held w) ∧
    pr_all_participants (qw_queue w) = ps ∧ pr_my_participant_id (qw_queue w) = me)) in Hreach; [done| |].
  { split; [apply QInv_new|done]. }
  clear. intros w w' _ Hstep (Hq & Hps & Hme). destruct Hstep as
    [w now requests completed block q' Hn|w now net order q' result _ _ Hg|w a|w a x response submission Ha Hx]; simpl.
  - split; [by eapply QInv_notify|]. apply notify_new_block_inv in Hn as [[-> _]|(t & blocks & q1 & _ & Hf & ->)]; [done|].
    destruct Hf as (E1 & E2 & _). simpl in E1, E2. rewrite <-Hps, <-Hme, <-E1, <-E2. clear.
    revert q1. induction requests as [|r rs IH]; intros q1; [done|]. simpl.
    destruct (IH (insert_request now block q1 r)) as [-> ->]. unfold insert_request. simpl. by case_match.
  - destruct (get_requests_spec _ _ _ _ _ _ _ Hq Hg) as (ls & t & q1 & _ & _ & (S1 & S2 & _) & (F1 & F2 & _) & Hq' & _).
    split; [done|]. simpl in *. split; congruence.
  - split; [|done]. destruct Hq as [K1 K2 K3 K4 K5 K6 K7 K8 K9]. split; try done.
    + intros b [_ Hb]%list_elem_of_filter. by apply K6.
    + intros b y i z [_ Hb]%list_elem_of_filter. by apply K7.
    + intros b b' y y' [_ Hb]%list_elem_of_filter [_ Hb']%list_elem_of_filter. by apply K8.
  - split; [by apply QInv_progress|done].
Qed.
End Histories.
