(* ===== verification/RequestQueueTheorems.v ===== *)
(** * Node: what the queue of pending requests guarantees

    Which requests are attempted, by whom, and how often. *)

From S2P Require Import Prelude Types NodePrimitives RecentBlocks RecentBlocksProofs RecentBlocksInv RecentBlocksRun RecentBlocksTheorems RequestQueue RequestQueueProofs.

Section Theorems.
Context {R C : Type} `{!Request R, !Sha256}.
Implicit Types (q : PendingRequests R C) (r : QueuedRequest R) (w : QWorld (R := R) (C := C)).

(** ** The blocks of the queued requests *)

Lemma notify_Track {T} bs (t t' : RecentBlocksTracker T) height :
  indexer_ok bs → 0 ≤ height ≤ u64_max → Track bs t →
  notify_maximum_height_available t height = Ok t' → Track bs t'.
Proof.
  intros Hok Hh (Hinv & floor & Hmid & Habove). unfold notify_maximum_height_available.
  destruct (Z.ltb_spec (maximum_height_available t) height) as [Hlt|Hge].
  - intros Hpr. destruct (prune_Track bs floor (set_maximum_height t height) Hok) as (t'' & Hpr' & Htr & _).
    { apply set_maximum_Inv; [done|lia]. } { apply set_maximum_Mid; [lia|done]. }
    rewrite Hpr in Hpr'. by injection Hpr' as ->.
  - intros [= <-]. split; [done|]. by exists floor.
Qed.

Lemma new_Track {T} (size : Z) : 1 ≤ size → Track [] (RecentBlocksTracker_new (T := T) size).
Proof.
  intros Hw. split; [by apply new_Inv|]. exists 0.
  assert (Hnone : ∀ a, ¬ known (RecentBlocksTracker_new (T := T) size) a) by (intros a [n [Hn _]]; done).
  split; [|intros a Ha; by destruct (Hnone a)]. split; [split| | | |done].
  - intros a Ha. by destruct (Hnone a).
  - intros b Hb. set_solver.
  - intros a c b p Ha. by destruct (Hnone a).
  - unfold start_of. simpl. lia.
  - intros a b Ha. by destruct (Hnone a).
  - split; [lia|]. intros x [Hx _]. set_solver.
Qed.

Lemma maximum_height_in_range net : heights_in_range net → 0 ≤ maximum_height_of net ≤ u64_max.
Proof.
  intros Hnet. assert (Hh : ∀ p, 0 ≤ indexer_height net p ≤ u64_max).
  { intros p. unfold indexer_height. destruct (indexer_heights net !! p) as [h|] eqn:E; [by apply (Hnet p)|done]. }
  unfold maximum_height_of. assert (Hfold : ∀ l m, 0 ≤ m ≤ u64_max →
    0 ≤ foldl Z.max m (indexer_height net <$> l) ≤ u64_max).
  { induction l as [|p l IH]; intros m Hm; [done|]. simpl. apply IH. specialize (Hh p). lia. }
  apply Hfold. done.
Qed.

Definition from_blocks (bs : list BlockViewLite) (q : PendingRequests R C) : Prop :=
  ∀ id r, pr_requests q !! id = Some r →
  ∃ b, b ∈ bs ∧ qr_block_hash r = bv_hash b ∧ qr_block_height r = bv_height b.

Lemma insert_requests_from now (block : BlockViewLite) bs q (requests : list R) :
  block ∈ bs → from_blocks bs q →
  from_blocks bs (foldl (insert_request now block) q requests) ∧
  pr_recent_blocks (foldl (insert_request now block) q requests) = pr_recent_blocks q.
Proof.
  intros Hb. revert q. induction requests as [|x xs IH]; intros q Hq; [done|]. simpl.
  assert (Hq' : from_blocks bs (insert_request now block q x) ∧
    pr_recent_blocks (insert_request now block q x) = pr_recent_blocks q).
  { unfold insert_request. simpl. case_match; [done|]. split; [|done].
    intros id r Hr. simpl in Hr. apply lookup_insert_Some in Hr as [[? ?]|[Hne Hr]]; [subst; by exists block|by eapply Hq]. }
  destruct Hq' as [Hq' E]. destruct (IH _ Hq') as [? E']. split; [done|congruence].
Qed.

Lemma from_blocks_mono bs bs' q : (∀ b, b ∈ bs → b ∈ bs') → from_blocks bs q → from_blocks bs' q.
Proof. intros Hsub Hq id r Hr. destruct (Hq id r Hr) as (b & ? & ?). exists b. auto. Qed.

Lemma fewer_from_blocks bs q q' : fewer q q' → from_blocks bs q → from_blocks bs q'.
Proof. intros (_ & _ & _ & _ & _ & Hsub) Hq id r Hr. by apply (Hq id), Hsub. Qed.

Lemma same_requests_from_blocks bs q q' : same_requests q q' → from_blocks bs q → from_blocks bs q'.
Proof.
  intros (_ & _ & _ & _ & Hsub) Hq id r Hr. destruct (Hsub id r Hr) as (r0 & Hr0 & _ & -> & -> & _). by apply (Hq id).
Qed.

Lemma qreachable_Track ps me w :
  qreachable ps me w → indexer_ok (qw_blocks w) →
  Track (qw_blocks w) (pr_recent_blocks (qw_queue w)) ∧ from_blocks (qw_blocks w) (qw_queue w).
Proof.
  intros Hreach. unfold qreachable in Hreach. pose proof Hreach as Hreach'. revert Hreach'.
  pattern w. eapply (rtc_ind_r _ (mkQWorld (PendingRequests_new ps me) [] [])); [| |exact Hreach].
  { intros _ _. split; [by apply new_Track|]. intros id r Hr. simpl in Hr. by rewrite lookup_empty in Hr. }
  clear w Hreach. intros w w' Hreach Hstep IH Hreach' Hok. specialize (IH Hreach).
  destruct (qreachable_QInv ps me w Hreach) as (Hq & _). destruct Hstep as
    [w now requests completed block q' Hn|w now net order q' result _ Hnet Hg|w a|w a x response submission Ha Hx]; simpl in *.
  - destruct (indexer_ok_unsnoc _ _ Hok) as (Hok' & _). destruct (IH Hok') as [Htr Hfrom].
    destruct (add_block_Track _ block _ (mkBufferedBlockData (get_id <$> requests) completed now) Hok Htr)
      as (t2 & new & t' & _ & Hadd & Htr' & _).
    apply notify_new_block_inv in Hn as [[_ [e He]]|(t & blocks & q1 & Hadd' & Hf & ->)]; [congruence|].
    rewrite Hadd in Hadd'. injection Hadd' as <- <-.
    destruct (insert_requests_from now block (qw_blocks w ++ [block]) q1 requests) as [Hfrom' E]; [set_solver| |].
    { apply (fewer_from_blocks _ _ _ Hf). apply (from_blocks_mono (qw_blocks w)); [set_solver|done]. }
    split; [|done]. rewrite E. by destruct Hf as (_ & _ & _ & _ & -> & _).
  - destruct (IH Hok) as [Htr Hfrom].
    destruct (get_requests_spec _ _ _ _ _ _ _ Hq Hg) as (ls & t & q1 & _ & Ht & Hs & Hf & _).
    split.
    + destruct Hf as (_ & _ & _ & _ & -> & _), Hs as (_ & _ & -> & _).
      eapply notify_Track; [done|by apply maximum_height_in_range|exact Htr|exact Ht].
    + apply (fewer_from_blocks _ _ _ Hf). apply (same_requests_from_blocks _ _ _ Hs). done.
  - by apply IH.
  - by apply IH.
Qed.

(** ** Which requests are attempted *)

(** C18: in any history of the queue whose blocks the indexer gives in order, an attempt is
    handed out only for a queued request whose block, the one in which the node first
    saw the request, is an ancestor of an announced final block or on the chain of the
    first highest block; and only while the node itself is connected and its indexer not
    stale. *)
Theorem attempts_are_on_chain ps me w now net order q' result a :
  qreachable ps me w → indexer_ok (qw_blocks w) → heights_in_range net →
  get_requests_to_attempt now net (qw_held w) order (qw_queue w) = Ok (q', result) → a ∈ result →
  ∃ attempt r b, pr_attempts q' !! a = Some attempt ∧
    pr_requests (qw_queue w) !! get_id (ga_request attempt) = Some r ∧
    b ∈ qw_blocks w ∧ qr_block_hash r = bv_hash b ∧ qr_block_height r = bv_height b ∧
    (final_block (qw_blocks w) b ∨ ∃ c, top_block (qw_blocks w) = Some c ∧ banc (qw_blocks w) c b) ∧
    eligible net me.
Proof.
  intros Hreach Hok Hnet Hg Ha. destruct (qreachable_QInv ps me w Hreach) as (Hq & _ & Hme).
  destruct (qreachable_Track ps me w Hreach Hok) as [Htr Hfrom].
  destruct (get_requests_spec _ _ _ _ _ _ _ Hq Hg) as (ls & t & q1 & Hls & Ht & _ & _ & _ & Hj).
  destruct (Hj a Ha) as (id & r & Hr & (attempt & Hat & Ereq) & Hl & class & Hc & Hcl). simpl in Hr, Hl, Hc.
  destruct (qi_id _ _ Hq id r Hr) as [Eid _]. destruct (Hfrom id r Hr) as (b & Hb & Eh & Ehh).
  exists attempt, r, b. rewrite Ereq, Eid. do 5 (split; [done|]). split.
  - pose proof (notify_Track _ _ _ _ Hok (maximum_height_in_range net Hnet) Htr Ht) as Htr'.
    destruct (classify_Track _ t b Hok Htr' Hb) as (class' & Hc' & Hcls). rewrite <-Eh, <-Ehh, Hc in Hc'.
    injection Hc' as <-. destruct Hcl as [->|[->| ->]]; simpl in Hcls; [left; apply Hcls|right; apply Hcls|done].
  - rewrite <-Hme. by apply Hls, (current_leader_Some _ _ _ Hl).
Qed.

(** C19: two nodes that list the same participants, in whatever order, and see the same
    network never hand out attempts for the same request at the same time. *)
Theorem one_leader_attempts ps ps' me me' w w' now now' net order order' q q' result result' a a' attempt attempt' :
  qreachable ps me w → qreachable ps' me' w' → ps ≡ₚ ps' → me ≠ me' →
  get_requests_to_attempt now net (qw_held w) order (qw_queue w) = Ok (q, result) →
  get_requests_to_attempt now' net (qw_held w') order' (qw_queue w') = Ok (q', result') →
  a ∈ result → pr_attempts q !! a = Some attempt → a' ∈ result' → pr_attempts q' !! a' = Some attempt' →
  get_id (ga_request attempt) ≠ get_id (ga_request attempt').
Proof.
  intros Hr Hr' Hps Hme Hg Hg' Ha Hat Ha' Hat' E.
  assert (Hleader : ∀ ps me w now order q result a attempt, qreachable ps me w →
    get_requests_to_attempt now net (qw_held w) order (qw_queue w) = Ok (q, result) → a ∈ result →
    pr_attempts q !! a = Some attempt → ∃ ls, (∀ p, p ∈ ls ↔ p ∈ ps ∧ eligible net p) ∧
    current_leader (leader_selection_order ps (get_id (ga_request attempt))) ls = Some me).
  { clear. intros ps me w now order q result a attempt Hreach Hg Ha Hat.
    destruct (qreachable_QInv ps me w Hreach) as (Hq & Eps & Eme).
    destruct (get_requests_spec _ _ _ _ _ _ _ Hq Hg) as (ls & t & q1 & Hls & _ & _ & _ & _ & Hj).
    destruct (Hj a Ha) as (id & r & Hr & (x & Hx & Ereq) & Hl & _). simpl in Hr, Hl.
    destruct (qi_id _ _ Hq id r Hr) as [Eid Eord]. exists ls. rewrite Eps in *. split; [done|].
    assert (x = attempt) as -> by congruence. by rewrite Ereq, Eid, <-Eord, <-Eme. }
  destruct (Hleader ps me w now order q result a attempt) as (ls & Hls & Hl); [done..|].
  destruct (Hleader ps' me' w' now' order' q' result' a' attempt') as (ls' & Hls' & Hl'); [done..|].
  rewrite <-E, <-(leader_selection_order_perm ps ps') in Hl' by done.
  rewrite (current_leader_ext _ ls' ls) in Hl'; [congruence|]. intros p _. rewrite Hls, Hls', Hps. done.
Qed.

(** C36: in any history of the queue, at most ten attempts share the progress of a
    queued request, and of these at most one is still held. *)
Theorem attempts_are_bounded ps me w id r :
  qreachable ps me w → pr_requests (qw_queue w) !! id = Some r →
  zlen (attempts_of (pr_attempts (qw_queue w)) (qr_computation_progress r)) ≤ MAX_ATTEMPTS_PER_REQUEST_AS_LEADER ∧
  ∀ a a' attempt attempt', a ∈ qw_held w → a' ∈ qw_held w →
    pr_attempts (qw_queue w) !! a = Some attempt → pr_attempts (qw_queue w) !! a' = Some attempt' →
    ga_computation_progress attempt = qr_computation_progress r →
    ga_computation_progress attempt' = qr_computation_progress r → a = a'.
Proof.
  intros Hreach Hr. destruct (qreachable_QInv ps me w Hreach) as (Hq & _).
  destruct (qi_attempts _ _ Hq _ (qi_cell _ _ Hq id r Hr)) as [<- Hle]. split; [done|].
  intros a a' x x' Ha Ha' Hx Hx' E E'. by apply (qi_one _ _ Hq a a' x x'); [..|congruence].
Qed.

(** ** A due request is attempted *)

(** Checking another request leaves this one alone. *)
Definition untouched (id : RequestId) (r : QueuedRequest R) (q q' : PendingRequests R C) (held held' : list Arc) : Prop :=
  pr_requests q' !! id = Some r ∧
  pr_progress q' !!! qr_computation_progress r = pr_progress q !!! qr_computation_progress r ∧
  pr_recent_blocks q' = pr_recent_blocks q ∧ pr_my_participant_id q' = pr_my_participant_id q ∧
  attempt_active held' (qr_active_attempt r) = attempt_active held (qr_active_attempt r).

Lemma check_request_frame now held leaders q id id' r q' res rem :
  id' ≠ id → QInv q held → pr_requests q !! id = Some r →
  check_request now held leaders q id' = Ok (q', res, rem) → untouched id r q q' held (res ++ held).
Proof.
  intros Hne Hq Hr. assert (Hrefl : untouched id r q q held held) by done.
  unfold check_request. destruct (pr_requests q !! id') as [r'|] eqn:Hr'; [|by intros [= <- <- <-]].
  destruct (now <? qr_next_check_due r'); [by intros [= <- <- <-]|].
  set (r1 := set_next_check_due r' _). set (q1 := set_requests q _). cbv zeta.
  assert (Hq1 : untouched id r q q1 held held).
  { split; [|done]. simpl. by rewrite lookup_insert_ne. }
  destruct (attempt_active held (qr_active_attempt r1)); [by intros [= <- <- <-]|].
  destruct (classify_block _ _ _) as [class| |]; [|done..]. cbn [mbind result_bind].
  assert (Htry : Ok (try_attempt now leaders q1 id' r1) = (Ok (q', res, rem) : result string _) →
    untouched id r q q' held (res ++ held)).
  { assert (Hcell : qr_computation_progress r1 ≠ qr_computation_progress r).
    { intros E. apply Hne. by apply (qi_own_cell _ _ Hq id' id r' r). }
    intros Htry. injection Htry as Htry. unfold try_attempt in Htry.
    destruct (current_leader _ leaders) as [leader|]; [|by simplify_eq].
    destruct (negb _); [simplify_eq; split; [by simpl; rewrite lookup_insert_ne|]; split; [|done];
      simpl; by rewrite list_lookup_total_alter_ne|].
    destruct (_ <=? _); [simplify_eq; split; [by simpl; rewrite lookup_insert_ne|]; split; [|done];
      simpl; by rewrite list_lookup_total_alter_ne|].
    destruct (match cp_last_response_submission _ with Some _ => _ | None => _ end);
      [simplify_eq; split; [by simpl; rewrite lookup_insert_ne|]; split; [|done];
      simpl; by rewrite list_lookup_total_alter_ne|].
    simplify_eq. simpl. split; [simpl; by rewrite !lookup_insert_ne|]. split.
    { simpl. by rewrite !list_lookup_total_alter_ne. }
    split; [done|]. split; [done|]. destruct (qr_active_attempt r) as [a|] eqn:Ha; [|done]. simpl.
    pose proof (qi_weak _ _ Hq id r a Hr Ha). apply bool_decide_ext. rewrite elem_of_cons.
    split; [intros [->|?]; [lia|done]|auto]. }
  destruct class; try exact Htry; by intros [= <- <- <-].
Qed.

Lemma check_requests_frame now held leaders q ids id r q' res rem :
  id ∉ ids → QInv q held → pr_requests q !! id = Some r →
  check_requests now held leaders q ids = Ok (q', res, rem) →
  ∃ held', untouched id r q q' held held' ∧ ∀ a, a ∈ held' ↔ a ∈ res ++ held.
Proof.
  revert q held res rem. induction ids as [|i ids IH]; intros q held res rem Hni Hq Hr; simpl.
  { intros [= <- <- <-]. by exists held. }
  intros Hc. apply bind_Ok in Hc as ([[q1 res1] rem1] & H1 & Hc).
  apply bind_Ok in Hc as ([[q2 res2] rem2] & H2 & [= <- <- <-]). apply not_elem_of_cons in Hni as [Hne Hni].
  pose proof (check_request_frame _ _ _ _ _ _ _ _ _ _ (not_eq_sym Hne) Hq Hr H1) as (U1 & U2 & U3 & U4 & U5).
  destruct (check_request_spec _ _ _ _ _ _ _ _ Hq H1) as (Hq1 & _).
  destruct (IH _ _ _ _ Hni Hq1 U1 H2) as (held' & (V1 & V2 & V3 & V4 & V5) & Hh). exists held'.
  split; [repeat split; congruence|]. intros a. rewrite Hh. set_solver.
Qed.

Lemma window_start_classify {T} (t : RecentBlocksTracker T) hash height class :
  classify_block t hash height = Ok class → ∀ hash' height', ∃ class', classify_block t hash' height' = Ok class'.
Proof.
  unfold classify_block. destruct (window_start t); [|done..]. intros _ hash' height'. cbn [mbind result_bind].
  repeat case_match; eauto.
Qed.

Lemma check_requests_total now held leaders q ids hash height class :
  classify_block (pr_recent_blocks q) hash height = Ok class → QInv q held →
  ∃ q' res rem, check_requests now held leaders q ids = Ok (q', res, rem).
Proof.
  revert q held. induction ids as [|id ids IH]; intros q held Hclass Hq; simpl; [eauto|].
  assert (Hone : ∃ q1 res1 rem1, check_request now held leaders q id = Ok (q1, res1, rem1)).
  { unfold check_request. destruct (pr_requests q !! id) as [r|]; [|eauto]. case_match; [eauto|]. cbv zeta.
    case_match; [eauto|]. simpl. destruct (window_start_classify _ _ _ _ Hclass (qr_block_hash r) (qr_block_height r))
      as (class' & ->). cbn [mbind result_bind]. destruct class'; eauto;
      destruct (try_attempt _ _ _ _ _) as [[q1 res1] rem1]; eauto. }
  destruct Hone as (q1 & res1 & rem1 & H1). rewrite H1. cbn [mbind result_bind].
  destruct (check_request_spec _ _ _ _ _ _ _ _ Hq H1) as (Hq1 & (_ & _ & E & _) & _).
  destruct (IH q1 (res1 ++ held)) as (q2 & res2 & rem2 & H2); [by rewrite E|done|].
  rewrite H2. cbn [mbind result_bind]. eauto.
Qed.

(** The request is due, not in progress, its block may count, the node is its leader,
    and neither the number of attempts nor a recent response keeps it back. *)
Definition ready (now : Z) (held : list Arc) (leaders : list ParticipantId) (q : PendingRequests R C)
    (r : QueuedRequest R) : Prop :=
  let progress := pr_progress q !!! qr_computation_progress r in
  qr_next_check_due r ≤ now ∧ attempt_active held (qr_active_attempt r) = false ∧
  current_leader (qr_leader_selection_order r) leaders = Some (pr_my_participant_id q) ∧
  (∃ class, classify_block (pr_recent_blocks q) (qr_block_hash r) (qr_block_height r) = Ok class ∧
    (class = RecentAndFinal ∨ class = OptimisticAndCanonical ∨ class = Unknown)) ∧
  cp_attempts progress < MAX_ATTEMPTS_PER_REQUEST_AS_LEADER ∧
  ∀ t, cp_last_response_submission progress = Some t →
    t + MAX_LATENCY_BEFORE_EXPECTING_TRANSACTION_TO_FINALIZE ≤ now.

Lemma check_request_attempts now held leaders q id r q' res rem :
  QInv q held → pr_requests q !! id = Some r → ready now held leaders q r →
  check_request now held leaders q id = Ok (q', res, rem) →
  ∃ a attempt, a ∈ res ∧ pr_attempts q' !! a = Some attempt ∧ ga_request attempt = qr_request r.
Proof.
  intros Hq Hr (Hdue & Hact & Hl & (class & Hclass & Hcl) & Hatt & Hsub). unfold check_request. rewrite Hr.
  rewrite (proj2 (Z.ltb_ge _ _) Hdue). cbv zeta. simpl qr_active_attempt. rewrite Hact.
  simpl pr_recent_blocks. simpl qr_block_hash. simpl qr_block_height. rewrite Hclass. cbn [mbind result_bind].
  set (q1 := set_requests q _). set (r1 := set_next_check_due r _).
  assert (Htry : ∀ q' res rem, try_attempt now leaders q1 id r1 = (q', res, rem) →
    ∃ a attempt, a ∈ res ∧ pr_attempts q' !! a = Some attempt ∧ ga_request attempt = qr_request r).
  { intros q2 res2 rem2. unfold try_attempt. change (qr_leader_selection_order r1) with (qr_leader_selection_order r).
    rewrite Hl. change (pr_my_participant_id _) with (pr_my_participant_id q) at 1. rewrite Z.eqb_refl. simpl negb. cbv iota.
    simpl pr_progress. change (qr_computation_progress r1) with (qr_computation_progress r).
    destruct (lookup_lt_is_Some_2 _ _ (qi_cell _ _ Hq id r Hr)) as [p Hp].
    rewrite (list_lookup_total_correct _ _ _ Hp) in Hatt, Hsub.
    rewrite (list_lookup_total_correct _ _ (set_selected_leader p (pr_my_participant_id q))) by (by rewrite list_lookup_alter_eq, Hp).
    simpl cp_attempts. rewrite (proj2 (Z.leb_gt _ _) Hatt). simpl cp_last_response_submission.
    destruct (match cp_last_response_submission p with Some t => _ | None => _ end) eqn:Hrecent.
    - destruct (cp_last_response_submission p) as [t|]; [|done]. apply Z.ltb_lt in Hrecent. specialize (Hsub t eq_refl). lia.
    - intros [= <- <- <-]. eexists _, _. split; [apply list_elem_of_here|].
      split; [by apply list_lookup_middle|done]. }
  destruct Hcl as [->|[->| ->]]; intros Hok; apply (Htry q' res rem); by injection Hok.
Qed.

Lemma check_requests_attempts now held leaders q ids id r q' res rem :
  NoDup ids → id ∈ ids → QInv q held → pr_requests q !! id = Some r → ready now held leaders q r →
  check_requests now held leaders q ids = Ok (q', res, rem) →
  ∃ a attempt, a ∈ res ∧ pr_attempts q' !! a = Some attempt ∧ ga_request attempt = qr_request r.
Proof.
  revert q held res rem. induction ids as [|i ids IH]; intros q held res rem Hnd Hin Hq Hr Hready; [set_solver|].
  simpl. intros Hc. apply bind_Ok in Hc as ([[q1 res1] rem1] & H1 & Hc).
  apply bind_Ok in Hc as ([[q2 res2] rem2] & H2 & [= <- <- <-]). apply NoDup_cons in Hnd as [Hni Hnd].
  destruct (check_request_spec _ _ _ _ _ _ _ _ Hq H1) as (Hq1 & _).
  destruct (decide (i = id)) as [->|Hne].
  - destruct (check_request_attempts _ _ _ _ _ _ _ _ _ Hq Hr Hready H1) as (a & x & Ha & Hx & E).
    exists a, x. split; [set_solver|]. split; [|done].
    destruct (check_requests_spec _ _ _ _ _ _ _ _ Hq1 H2) as (_ & (_ & _ & _ & Hmono & _) & _). auto.
  - destruct (check_request_frame _ _ _ _ _ _ _ _ _ _ Hne Hq Hr H1) as (U1 & U2 & U3 & U4 & U5).
    destruct (IH q1 (res1 ++ held) res2 rem2) as (a & x & Ha & Hx & E); try done; [set_solver| |].
    + unfold ready in *. rewrite U2, U3, U4, U5. exact Hready.
    + exists a, x. split; [set_solver|done].
Qed.

Lemma eligible_leaders_total net m ps :
  (∀ p, indexer_height net p + STALE_PARTICIPANT_THRESHOLD ≤ u64_max) → ∃ ls, eligible_leaders net m ps = Ok ls.
Proof.
  intros Hh. induction ps as [|p ps [ls IH]]; simpl; [eauto|]. rewrite IH.
  destruct (bool_decide _); [|cbn [mbind result_bind]; eauto].
  rewrite (proj2 (Z.leb_le _ _) (Hh p)). cbn [mbind result_bind]. eauto.
Qed.

#[export] Instance eligible_dec net p : Decision (eligible net p).
Proof. unfold eligible. apply _. Defined.

(** The leader for a request as every node with this view of the network computes it. *)
Definition leader_of (ps : list ParticipantId) (net : NetworkState) (id : RequestId) : option ParticipantId :=
  current_leader (leader_selection_order ps id) (filter (eligible net) ps).

(** C20: in any history of the queue, a request that is due, whose block is final,
    canonical or unknown, whose leader is this node, that has no attempt in progress,
    fewer than ten attempts and no response submitted in the last ten seconds, is
    attempted by the next call, in whatever order the map is traversed. *)
Theorem due_request_is_attempted ps me w now net order id r t class :
  qreachable ps me w → order ≡ₚ (map_to_list (pr_requests (qw_queue w))).*1 →
  (∀ p, indexer_height net p + STALE_PARTICIPANT_THRESHOLD ≤ u64_max) →
  pr_requests (qw_queue w) !! id = Some r → qr_next_check_due r ≤ now →
  attempt_active (qw_held w) (qr_active_attempt r) = false → leader_of ps net id = Some me →
  notify_maximum_height_available (pr_recent_blocks (qw_queue w)) (maximum_height_of net) = Ok t →
  classify_block t (qr_block_hash r) (qr_block_height r) = Ok class →
  (class = RecentAndFinal ∨ class = OptimisticAndCanonical ∨ class = Unknown) →
  cp_attempts (pr_progress (qw_queue w) !!! qr_computation_progress r) < MAX_ATTEMPTS_PER_REQUEST_AS_LEADER →
  (∀ s, cp_last_response_submission (pr_progress (qw_queue w) !!! qr_computation_progress r) = Some s →
    s + MAX_LATENCY_BEFORE_EXPECTING_TRANSACTION_TO_FINALIZE ≤ now) →
  ∃ q' result a attempt,
    get_requests_to_attempt now net (qw_held w) order (qw_queue w) = Ok (q', result) ∧
    a ∈ result ∧ pr_attempts q' !! a = Some attempt ∧ get_id (ga_request attempt) = id.
Proof.
  intros Hreach Horder Hnet Hr Hdue Hact Hleader Ht Hclass Hcl Hatt Hsub.
  destruct (qreachable_QInv ps me w Hreach) as (Hq & Hps & Hme). set (q := qw_queue w) in *.
  destruct (qi_id _ _ Hq id r Hr) as [Eid Eord].
  destruct (eligible_leaders_total net (maximum_height_of net) ps Hnet) as [ls Hls].
  pose proof (eligible_leaders_spec net ps ls Hls) as Hmem.
  assert (Hq' : QInv (set_recent_blocks q t) (qw_held w)) by (by apply QInv_recent_blocks).
  destruct (check_requests_total now (qw_held w) ls (set_recent_blocks q t) order _ _ _ Hclass Hq') as (q1 & res & rem & Hc).
  destruct (check_requests_attempts now (qw_held w) ls (set_recent_blocks q t) order id r q1 res rem) as (a & x & Ha & Hx & E).
  - rewrite Horder. apply NoDup_fst_map_to_list.
  - rewrite Horder. apply list_elem_of_fmap. exists (id, r). split; [done|]. by apply elem_of_map_to_list.
  - done.
  - done.
  - repeat split; try done; [|by exists class]. rewrite Eord. simpl. rewrite Hps, Hme.
    rewrite <-Hleader. unfold leader_of. apply current_leader_ext. intros p _.
    rewrite Hmem, list_elem_of_filter. tauto.
  - done.
  - exists (foldl remove_request q1 rem), res, a, x.
    unfold get_requests_to_attempt, eligible_leaders_and_maximum_height. fold (maximum_height_of net).
    rewrite Hps, Hls. cbn [mbind result_bind]. rewrite Ht. cbn [mbind result_bind]. rewrite Hc. cbn [mbind result_bind].
    split; [done|]. split; [done|]. split; [|congruence].
    destruct (remove_requests_fewer q1 rem) as (_ & _ & _ & -> & _). done.
Qed.
End Theorems.

(** ** Requests on forks *)

(** A queue that is given a sequence of blocks with their requests and responses. *)
Fixpoint feed {R C : Type} `{!Request R, !Sha256} (now : Z) (q : PendingRequests R C)
    (hist : list (BlockViewLite * list R * list RequestId)) : result string (PendingRequests R C) :=
  match hist with
  | [] => Ok q
  | (block, requests, completed) :: hist => q ← notify_new_block now q requests completed block; feed now q hist
  end.

(** Requests that are their own identifiers; a hash that makes participant 1 the first
    choice for odd requests and participant 2 for even ones. *)
#[local] Instance number_request : Request Z := λ id, id.
#[local] Instance parity_hash : Sha256 := λ b, ((default 0 (head b) + default 0 (last b)) mod 2) :: replicate 31 0.

Definition both_alive : NetworkState := mkNetworkState [1; 2] {[ 1 := 4; 2 := 4 ]}.

Definition empty_queue (me : ParticipantId) : PendingRequests Z unit := PendingRequests_new [1; 2] me.

(** Request 7 is seen in the fork at height 2 first, and then in the block of height 2
    that becomes final. *)
Definition fork_history : list (BlockViewLite * list Z * list Z) :=
  [(block_1, [], []); (block_2_fork, [7], []); (block_2, [7], []); (block_3, [], []); (block_4, [], [])].

(** There is a history of blocks in order in which a request is in a final block, has
    no response, and this node is its leader, and yet the queue discards it without an
    attempt: the entry keeps the block in which the request was seen first, and that
    block is on a fork. *)
Theorem forked_request_is_dropped :
  ∃ q q', indexer_ok (fork_history.*1).*1 ∧ feed 0 (empty_queue 1) fork_history = Ok q ∧
    (block_2, [7], []) ∈ fork_history ∧ final_block (fork_history.*1).*1 block_2 ∧
    leader_of [1; 2] both_alive 7 = Some 1 ∧ is_Some (pr_requests q !! 7) ∧
    get_requests_to_attempt 1 both_alive [] [7] q = Ok (q', []) ∧ pr_requests q' !! 7 = None.
Proof.
  eexists _, _. split; [exact sample_indexer_ok|]. split; [vm_compute; reflexivity|].
  split; [apply list_elem_of_further, list_elem_of_further, list_elem_of_here|]. split.
  { exists block_2. split; [|apply rtc_refl]. split; [vm_compute; set_solver|].
    exists block_4. split; [vm_compute; set_solver|done]. }
  split; [vm_compute; reflexivity|]. split; [vm_compute; by eexists|]. split; vm_compute; reflexivity.
Qed.

(** Request 7 is seen first in a fork at height 5, and answered in the block of height 3
    of the chain that becomes final. *)
Definition high_fork : BlockViewLite := mkBlockViewLite 6 5 1 10.
Definition block_5 : BlockViewLite := mkBlockViewLite 7 5 4 3.
Definition high_fork_history : list (BlockViewLite * list Z * list Z) :=
  [(block_1, [], []); (high_fork, [7], []); (block_2, [7], []); (block_3, [], [7]); (block_4, [], []); (block_5, [], [])].

Ltac no_announcement :=
  let x := fresh "x" in let Hx := fresh "Hx" in let E := fresh "E" in
  intros x ? Hx E; exfalso; revert x Hx E; each_block.

Lemma high_fork_indexer_ok : indexer_ok (high_fork_history.*1).*1.
Proof.
  assert (Hann : ∀ bs y, bs = [block_1; high_fork; block_2; block_3] ∨ bs = [block_1; high_fork; block_2; block_3; block_4] →
    announced bs y → y = block_1 ∨ y = block_2).
  { intros bs y Hbs [Hy (c & Hc & E)].
    assert (Hin : y ∈ [block_1; high_fork; block_2; block_3; block_4]) by (destruct Hbs as [->| ->]; set_solver).
    assert (Hcin : c ∈ [block_1; high_fork; block_2; block_3; block_4]) by (destruct Hbs as [->| ->]; set_solver).
    clear Hy Hc Hbs. repeat (apply elem_of_cons in Hcin as [->|Hcin]; [|]); [..|by apply elem_of_nil in Hcin];
      repeat (apply elem_of_cons in Hin as [->|Hin]; [solve [auto | done]|]); by apply elem_of_nil in Hin. }
  change (indexer_ok ([block_1; high_fork; block_2; block_3; block_4] ++ [block_5])).
  apply indexer_snoc; [|done|each_block|done|each_block|each_block|done|each_block|].
  - change (indexer_ok ([block_1; high_fork; block_2; block_3] ++ [block_4])).
    apply indexer_snoc; [|done|each_block|done|each_block|each_block|done|each_block|].
    + change (indexer_ok ([block_1; high_fork; block_2] ++ [block_3])).
      apply indexer_snoc; [|done|each_block|done|each_block|each_block|done|each_block|].
      * change (indexer_ok ([block_1; high_fork] ++ [block_2])).
        apply indexer_snoc; [|done|each_block|done|each_block|each_block|done|each_block|no_announcement].
        change (indexer_ok ([block_1] ++ [high_fork])).
        apply indexer_snoc; [|done|each_block|done|each_block|each_block|done|each_block|no_announcement].
        change (indexer_ok ([] ++ [block_1])).
        apply indexer_snoc; [constructor|done|each_block|done|each_block|each_block|done|each_block|].
        intros x y Hx. by apply elem_of_nil in Hx.
      * intros x y _ _ [Hy (c & Hc & E)]. exfalso.
        repeat (apply elem_of_cons in Hc as [->|Hc]; [|]); [..|by apply elem_of_nil in Hc];
          repeat (apply elem_of_cons in Hy as [->|Hy]; [done|]); by apply elem_of_nil in Hy.
    + intros x y Hx E Hy. assert (x = block_2) as ->.
      { repeat (apply elem_of_cons in Hx as [->|Hx]; [done|]). by apply elem_of_nil in Hx. }
      left. destruct (Hann _ y (or_introl eq_refl) Hy) as [->| ->]; [|apply rtc_refl].
      apply rtc_once. split; [set_solver|]. split; [set_solver|done].
  - intros x y Hx E Hy. assert (x = block_3) as ->.
    { repeat (apply elem_of_cons in Hx as [->|Hx]; [done|]). by apply elem_of_nil in Hx. }
    left. assert (Hlink : ∀ u v, u ∈ [block_1; high_fork; block_2; block_3; block_4] →
      v ∈ [block_1; high_fork; block_2; block_3; block_4] → bv_prev_hash u = bv_hash v →
      blink [block_1; high_fork; block_2; block_3; block_4] u v) by (intros u v ? ? ?; by split).
    apply rtc_l with block_2; [apply Hlink; [set_solver|set_solver|done]|].
    destruct (Hann _ y (or_intror eq_refl) Hy) as [->| ->]; [|apply rtc_refl].
    apply rtc_once. apply Hlink; [set_solver|set_solver|done].
Qed.

(** There is a history of blocks in order on which the queue panics: the latency of a
    response is computed as the height of the final block with the response minus the
    height at which the request was seen first, which may be greater on a fork. *)
Theorem response_below_fork_panics :
  indexer_ok (high_fork_history.*1).*1 ∧ feed 0 (empty_queue 1) high_fork_history = Panic sub_overflow.
Proof. split; [exact high_fork_indexer_ok|]. vm_compute. reflexivity. Qed.

(** ** Examples *)

(** Node [me] with one request, in the first block. *)
Definition one_request (me : ParticipantId) (id : Z) : PendingRequests Z unit :=
  match notify_new_block 0 (empty_queue me) [id] [] block_1 with Ok q => q | _ => empty_queue me end.

Definition one_request_world (me : ParticipantId) (id : Z) : QWorld (R := Z) (C := unit) :=
  mkQWorld (one_request me id) [] [block_1].

Definition one_request_attempted (me : ParticipantId) (id : Z) : PendingRequests Z unit * list Arc :=
  match get_requests_to_attempt 1 both_alive [] [id] (one_request me id) with Ok r => r | _ => (empty_queue me, []) end.

Lemma one_request_reachable me id :
  notify_new_block 0 (empty_queue me) [id] [] block_1 = Ok (one_request me id) →
  qreachable [1; 2] me (one_request_world me id).
Proof. intros Hn. apply rtc_once. exact (q_block (mkQWorld (empty_queue me) [] []) 0 [id] [] block_1 _ Hn). Qed.

Lemma block_1_indexer_ok : indexer_ok [block_1].
Proof.
  change (indexer_ok ([] ++ [block_1])).
  apply indexer_snoc; [constructor|done|each_block|done|each_block|each_block|done|each_block|].
  intros x y Hx. by apply elem_of_nil in Hx.
Qed.

Lemma both_alive_in_range : heights_in_range both_alive.
Proof. apply map_Forall_insert_2; [done|]. apply map_Forall_singleton. done. Qed.

Lemma attempts_are_on_chain_witness :
  ∃ attempt r b, pr_attempts (one_request_attempted 1 7).1 !! 0%nat = Some attempt ∧
    pr_requests (one_request 1 7) !! get_id (ga_request attempt) = Some r ∧
    b ∈ [block_1] ∧ qr_block_hash r = bv_hash b ∧ qr_block_height r = bv_height b ∧
    (final_block [block_1] b ∨ ∃ c, top_block [block_1] = Some c ∧ banc [block_1] c b) ∧ eligible both_alive 1.
Proof.
  apply (attempts_are_on_chain [1; 2] 1 (one_request_world 1 7) 1 both_alive [7]
    (one_request_attempted 1 7).1 (one_request_attempted 1 7).2 0%nat).
  - apply one_request_reachable. vm_compute. reflexivity.
  - exact block_1_indexer_ok.
  - exact both_alive_in_range.
  - vm_compute. reflexivity.
  - vm_compute. constructor.
Defined.

Lemma one_leader_attempts_witness :
  get_id (ga_request (mkGenerationAttempt 7 0)) ≠ get_id (ga_request (mkGenerationAttempt 8 0)).
Proof.
  apply (one_leader_attempts [1; 2] [1; 2] 1 2 (one_request_world 1 7) (one_request_world 2 8) 1 1 both_alive
    [7] [8] (one_request_attempted 1 7).1 (one_request_attempted 2 8).1
    (one_request_attempted 1 7).2 (one_request_attempted 2 8).2 0%nat 0%nat).
  - apply one_request_reachable. vm_compute. reflexivity.
  - apply one_request_reachable. vm_compute. reflexivity.
  - reflexivity.
  - discriminate.
  - vm_compute. reflexivity.
  - vm_compute. reflexivity.
  - vm_compute. constructor.
  - vm_compute. reflexivity.
  - vm_compute. constructor.
  - vm_compute. reflexivity.
Defined.

(** The queue of node 1 after it has handed out its attempt. *)
Definition attempted_world : QWorld (R := Z) (C := unit) :=
  mkQWorld (one_request_attempted 1 7).1 ((one_request_attempted 1 7).2 ++ []) [block_1].

Lemma attempted_reachable : qreachable [1; 2] 1 attempted_world.
Proof.
  eapply rtc_r; [apply (one_request_reachable 1 7); vm_compute; reflexivity|].
  apply (q_attempt (one_request_world 1 7) 1 both_alive [7]).
  - vm_compute. reflexivity.
  - exact both_alive_in_range.
  - vm_compute. reflexivity.
Qed.

Definition attempted_request : QueuedRequest Z := mkQueuedRequest 7 1 1 [1; 2] (1 + NANOSECONDS) 0 (Some 0%nat) 0.

Lemma attempts_are_bounded_witness :
  zlen (attempts_of (pr_attempts (qw_queue attempted_world)) 0) ≤ MAX_ATTEMPTS_PER_REQUEST_AS_LEADER.
Proof.
  apply (attempts_are_bounded [1; 2] 1 attempted_world 7 attempted_request attempted_reachable).
  vm_compute. reflexivity.
Defined.

Definition waiting_request : QueuedRequest Z := mkQueuedRequest 7 1 1 [1; 2] 0 0 None 0.

Definition notified_tracker : RecentBlocksTracker BufferedBlockData :=
  match notify_maximum_height_available (pr_recent_blocks (one_request 1 7)) 4 with Ok t => t | _ => RecentBlocksTracker_new 200 end.

Lemma due_request_is_attempted_witness :
  ∃ q' result a attempt,
    get_requests_to_attempt 1 both_alive [] [7] (one_request 1 7) = Ok (q', result) ∧
    a ∈ result ∧ pr_attempts q' !! a = Some attempt ∧ get_id (ga_request attempt) = 7.
Proof.
  apply (due_request_is_attempted [1; 2] 1 (one_request_world 1 7) 1 both_alive [7] 7 waiting_request
    notified_tracker OptimisticAndCanonical).
  - apply one_request_reachable. vm_compute. reflexivity.
  - vm_compute. reflexivity.
  - intros p. unfold indexer_height. simpl.
    destruct ({[1 := 4; 2 := 4]} !! p) as [h|] eqn:Hp; [|vm_compute; discriminate].
    apply lookup_insert_Some in Hp as [[? ?]|[? Hp]]; [subst; vm_compute; discriminate|].
    apply lookup_singleton_Some in Hp as [? ?]. subst. vm_compute. discriminate.
  - vm_compute. reflexivity.
  - vm_compute. discriminate.
  - reflexivity.
  - vm_compute. reflexivity.
  - vm_compute. reflexivity.
  - vm_compute. reflexivity.
  - auto.
  - vm_compute. reflexivity.
  - intros s Hs. vm_compute in Hs. discriminate.
Defined.
