(* ===== verification/Keyshare.v ===== *)
(** * Node: storage of keyshares

    [node/src/keyshare.rs] with [keyshare/permanent.rs], [keyshare/temporary.rs],
    [keyshare/local.rs] and [keyshare/compat.rs]. The storage is a directory. An operation returns,
    besides its result, the states of the directory after each of its writes, which are the
    states a crash may leave: a file that was created but not written is empty. A file of
    the temporary storage is identified by the key event of its name, and a file of the
    permanent storage by the epoch and the number of domains of its name. Points and scalars are
    given by their bytes; nonces are arguments. *)

From S2P Require Import Prelude Types CryptoTypes Participants KeyState NodePrimitives Db Assets.

(** ** Keyshares *)

(** Encodings of curve points by the curve crates. *)
Class KeyEncodings : Type := {
  secp256k1_of_affine : bytes → option bytes;
  ed25519_compress : bytes → bytes;
  bls12381_of_element : bytes → bytes;
}.

Record KeygenOutput : Type := mkKeygenOutput {
  ko_private_share : bytes;
  ko_public_key : bytes;
}.

Inductive KeyshareData : Type :=
  | KdSecp256k1 (data : KeygenOutput)
  | KdEd25519 (data : KeygenOutput)
  | KdBls12381 (data : KeygenOutput)
  | KdV2Secp256k1 (data : KeygenOutput).

Record Keyshare : Type := mkKeyshare {
  kshare_key_id : KeyEventId;
  kshare_data : KeyshareData;
}.

#[export] Instance KeygenOutput_eq_dec : EqDecision KeygenOutput.
Proof. solve_decision. Defined.
#[export] Instance KeyshareData_eq_dec : EqDecision KeyshareData.
Proof. solve_decision. Defined.
#[export] Instance Keyshare_eq_dec : EqDecision Keyshare.
Proof. solve_decision. Defined.

#[export] Instance KeyEventId_countable : Countable KeyEventId.
Proof.
  refine (inj_countable' (λ k, (ke_epoch_id k, ke_domain_id k, ke_attempt_id k))
    (λ '(e, d, a), mkKeyEventId e d a) _); by intros [].
Defined.

Definition Keyshare_public_key `{!KeyEncodings} (k : Keyshare) : result string DtoPublicKey :=
  match kshare_data k with
  | KdSecp256k1 data | KdV2Secp256k1 data =>
    b ← ok_or (secp256k1_of_affine (ko_public_key data)) "invalid point"; Ok (DtoSecp256k1 b)
  | KdEd25519 data => Ok (DtoEd25519 (ed25519_compress (ko_public_key data)))
  | KdBls12381 data => Ok (DtoBls12381 (bls12381_of_element (ko_public_key data)))
  end.

Definition check_consistency `{!KeyEncodings} (k : Keyshare) (epoch_id : EpochId) (key : KeyForDomain) :
    result string unit :=
  let key_id := mkKeyEventId epoch_id (kd_domain_id key) (kd_attempt key) in
  if bool_decide (kshare_key_id k ≠ key_id) then Err "Keyshare has incorrect key ID"
  else
    public_key ← Keyshare_public_key k;
    if bool_decide (public_key ≠ dto_of_extended (kd_key key)) then Err "Keyshare has incorrect public key"
    else Ok tt.

(** ** Permanent data *)

Record PermanentKeyshareData : Type := mkPermanentKeyshareData {
  pk_epoch_id : EpochId;
  pk_keyshares : list Keyshare;
}.

Record LegacyRootKeyshareData : Type := mkLegacyRootKeyshareData {
  lr_epoch : Z;
  lr_private_share : bytes;
  lr_public_key : bytes;
}.

Definition legacy_ecdsa_id : DomainId := 0.
Definition legacy_attempt_id : AttemptId := 0.

Definition Keyshare_from_legacy (legacy : LegacyRootKeyshareData) : Keyshare :=
  mkKeyshare (mkKeyEventId (lr_epoch legacy) legacy_ecdsa_id legacy_attempt_id)
    (KdSecp256k1 (mkKeygenOutput (lr_private_share legacy) (lr_public_key legacy))).

Definition PermanentKeyshareData_from_legacy (legacy : LegacyRootKeyshareData) : PermanentKeyshareData :=
  mkPermanentKeyshareData (lr_epoch legacy) [Keyshare_from_legacy legacy].

Definition legacy_ecdsa_key_from_keyshares (keyshares : list Keyshare) : result string LegacyRootKeyshareData :=
  match keyshares with
  | [keyshare] =>
    if negb (ke_domain_id (kshare_key_id keyshare) =? legacy_ecdsa_id) then
      Err "Expected keyshare for legacy ECDSA domain"
    else
      match kshare_data keyshare with
      | KdSecp256k1 data => Ok (mkLegacyRootKeyshareData (ke_epoch_id (kshare_key_id keyshare))
          (ko_private_share data) (ko_public_key data))
      | _ => Err "Expected keyshare for legacy ECDSA domain"
      end
  | _ => Err "Expected exactly one keyshare"
  end.

(** [windows(2).all(..)]. *)
Fixpoint consistent_windows (keyshares : list Keyshare) : bool :=
  match keyshares with
  | k0 :: ((k1 :: _) as rest) =>
    (ke_epoch_id (kshare_key_id k0) =? ke_epoch_id (kshare_key_id k1)) &&
    (ke_domain_id (kshare_key_id k0) <? ke_domain_id (kshare_key_id k1)) && consistent_windows rest
  | _ => true
  end.

Definition PermanentKeyshareData_new (epoch_id : EpochId) (keyshares : list Keyshare) :
    result string PermanentKeyshareData :=
  if negb (consistent_windows keyshares) then Err "Inconsistent key ids"
  else
    match keyshares with
    | [] => Err "Keyshares must not be empty"
    | first :: _ =>
      if negb (ke_epoch_id (kshare_key_id first) =? epoch_id) then Err "Inconsistent epoch id"
      else Ok (mkPermanentKeyshareData epoch_id keyshares)
    end.

(** ** The directory *)

Inductive TempName : Type :=
  | KeyshareFile (key_id : KeyEventId)
  | StartedFile (key_id : KeyEventId).

#[export] Instance TempName_eq_dec : EqDecision TempName.
Proof. solve_decision. Defined.
#[export] Instance TempName_countable : Countable TempName.
Proof.
  refine (inj_countable' (λ n, match n with KeyshareFile k => inl k | StartedFile k => inr k end)
    (λ s, match s with inl k => KeyshareFile k | inr k => StartedFile k end) _); by intros [].
Defined.

Definition name_key (n : TempName) : KeyEventId := match n with KeyshareFile k | StartedFile k => k end.

Record Home : Type := mkHome {
  temporary_keys : gmap TempName bytes;
  permanent_keys : gmap (Z * Z) bytes;
  key_file : option bytes;
}.

(** ** Operations on the directory *)

Definition FsM (A : Type) : Type := Home → list Home * Home * result string A.

#[export] Instance FsM_ret : MRet FsM := λ A a h, ([], h, Ok a).
#[export] Instance FsM_bind : MBind FsM := λ A B k m h,
  match m h with
  | (trace, h, Ok a) => let '(trace', h, r) := k a h in (trace ++ trace', h, r)
  | (trace, h, Err e) => (trace, h, Err e)
  | (trace, h, Panic p) => (trace, h, Panic p)
  end.

Definition fs_read {A} (f : Home → result string A) : FsM A := λ h, ([], h, f h).
Definition fs_result {A} (r : result string A) : FsM A := fs_read (λ _, r).
(** One write, which may fail without effect. *)
Definition fs_write (f : Home → result string Home) : FsM unit := λ h,
  match f h with
  | Ok h' => ([h'], h', Ok tt)
  | Err e => ([], h, Err e)
  | Panic p => ([], h, Panic p)
  end.

Definition set_temporary (h : Home) (t : gmap TempName bytes) : Home := mkHome t (permanent_keys h) (key_file h).
Definition set_permanent (h : Home) (p : gmap (Z * Z) bytes) : Home := mkHome (temporary_keys h) p (key_file h).
Definition set_key_file (h : Home) (k : option bytes) : Home := mkHome (temporary_keys h) (permanent_keys h) k.

(** [File::create_new], [write_all] and [remove_file] in the two directories, and the
    hard link. *)
Definition create_temporary (n : TempName) : FsM unit := fs_write (λ h,
  match temporary_keys h !! n with
  | Some _ => Err "file exists"
  | None => Ok (set_temporary h (<[n := []]> (temporary_keys h)))
  end).
Definition write_temporary (n : TempName) (b : bytes) : FsM unit :=
  fs_write (λ h, Ok (set_temporary h (<[n := b]> (temporary_keys h)))).
Definition remove_temporary (n : TempName) : FsM unit :=
  fs_write (λ h, Ok (set_temporary h (delete n (temporary_keys h)))).
Definition create_permanent (id : Z * Z) : FsM unit := fs_write (λ h,
  match permanent_keys h !! id with
  | Some _ => Err "Failed to create PermanentKeyshareData file"
  | None => Ok (set_permanent h (<[id := []]> (permanent_keys h)))
  end).
Definition write_permanent (id : Z * Z) (b : bytes) : FsM unit :=
  fs_write (λ h, Ok (set_permanent h (<[id := b]> (permanent_keys h)))).
Definition remove_key : FsM unit := fs_write (λ h, Ok (set_key_file h None)).
Definition link_key (id : Z * Z) : FsM unit := fs_write (λ h,
  match key_file h, permanent_keys h !! id with
  | None, Some b => Ok (set_key_file h (Some b))
  | _, _ => Err "Failed to link PermanentKeyshareData file"
  end).

Section Storage.
Context `{!AesGcm, !KeyEncodings, !Serde Keyshare, !Serde PermanentKeyshareData, !Serde LegacyRootKeyshareData}.
Context (encryption_key : bytes).

(** ** [LocalPermanentKeyStorageBackend] *)

Definition backend_load : FsM (option bytes) := fs_read (λ h,
  match key_file h with
  | None => Ok None
  | Some data => decrypted ← decrypt encryption_key data; Ok (Some decrypted)
  end).

Definition backend_store (data : bytes) (identifier : Z * Z) (nonce : bytes) : FsM unit :=
  encrypted ← fs_result (encrypt encryption_key nonce data);
  _ ← create_permanent identifier;
  _ ← write_permanent identifier encrypted;
  _ ← remove_key;
  link_key identifier.

(** ** [PermanentKeyStorage] *)

Definition PermanentKeyStorage_load : FsM (option PermanentKeyshareData) :=
  data ← backend_load;
  match data with
  | None => mret None
  | Some data => v ← fs_result (ok_or (serde_from_slice data) "serde_json"); mret (Some v)
  end.

Definition store_unchecked (keyshare_data : PermanentKeyshareData) (nonce : bytes) : FsM unit :=
  data_json ← fs_result (ok_or (serde_to_vec keyshare_data) "serde_json");
  backend_store data_json (pk_epoch_id keyshare_data, zlen (pk_keyshares keyshare_data)) nonce.

Definition PermanentKeyStorage_new (nonce : bytes) : FsM unit :=
  existing_data ← backend_load;
  match existing_data with
  | None => mret tt
  | Some data =>
    match (serde_from_slice data : option PermanentKeyshareData) with
    | Some _ => mret tt
    | None =>
      legacy_data ← fs_result (ok_or (serde_from_slice data) "serde_json");
      store_unchecked (PermanentKeyshareData_from_legacy legacy_data) nonce
    end
  end.

(** The checks of a new keyshare against the existing one at its place. *)
Fixpoint check_overwrite (is_same_epoch_id : bool) (existing new : list Keyshare) : result string unit :=
  match existing, new with
  | e :: existing, n :: new =>
    if negb (ke_domain_id (kshare_key_id e) =? ke_domain_id (kshare_key_id n)) then
      Err "Refusing to overwrite: different domain id"
    else if is_same_epoch_id && bool_decide (kshare_key_id e ≠ kshare_key_id n) then
      Err "Refusing to overwrite: different key id for the same epoch"
    else
      existing_pk ← Keyshare_public_key e;
      new_pk ← Keyshare_public_key n;
      if bool_decide (existing_pk ≠ new_pk) then Err "Refusing to overwrite: different public key"
      else check_overwrite is_same_epoch_id existing new
  | _, _ => Ok tt
  end.

Definition check_store (existing keyshare_data : PermanentKeyshareData) : result string unit :=
  if pk_epoch_id keyshare_data <? pk_epoch_id existing then Err "Refusing to overwrite: older epoch"
  else if zlen (pk_keyshares keyshare_data) <? zlen (pk_keyshares existing) then
    Err "Refusing to overwrite: fewer domains"
  else
    let is_same_epoch_id := pk_epoch_id existing =? pk_epoch_id keyshare_data in
    if is_same_epoch_id && (zlen (pk_keyshares keyshare_data) <=? zlen (pk_keyshares existing)) then
      Err "Refusing to overwrite: same epoch but equal number of domains"
    else check_overwrite is_same_epoch_id (pk_keyshares existing) (pk_keyshares keyshare_data).

Definition PermanentKeyStorage_store (keyshare_data : PermanentKeyshareData) (nonce : bytes) : FsM unit :=
  existing ← PermanentKeyStorage_load;
  _ ← fs_result (match existing with
                 | Some existing => check_store existing keyshare_data
                 | None => Ok tt
                 end);
  store_unchecked keyshare_data nonce.

(** ** [TemporaryKeyStorage] *)

(** Returns the handle, which is the key event. *)
Definition start_generating_keyshare (key_id : KeyEventId) : FsM KeyEventId :=
  _ ← create_temporary (StartedFile key_id);
  mret key_id.

Definition load_keyshare (key_id : KeyEventId) : FsM (option Keyshare) := fs_read (λ h,
  match temporary_keys h !! KeyshareFile key_id with
  | None => Ok None
  | Some data =>
    decrypted ← decrypt encryption_key data;
    keyshare ← ok_or (serde_from_slice decrypted) "serde_json";
    if bool_decide (kshare_key_id keyshare ≠ key_id) then Err "Keyshare has unexpected key ID"
    else Ok (Some keyshare)
  end).

Fixpoint delete_files (names : list TempName) (epoch_id : EpochId) : FsM unit :=
  match names with
  | [] => mret tt
  | n :: names =>
    if ke_epoch_id (name_key n) <? epoch_id then
      _ ← remove_temporary n;
      delete_files names epoch_id
    else delete_files names epoch_id
  end.

Definition delete_keyshares_prior_to_epoch_id (epoch_id : EpochId) : FsM unit := λ h,
  delete_files (map_to_list (temporary_keys h)).*1 epoch_id h.

Definition commit_keyshare (handle : KeyEventId) (keyshare : Keyshare) (nonce : bytes) : FsM unit :=
  if bool_decide (kshare_key_id keyshare ≠ handle) then fs_result (Err "Keyshare has unexpected key ID")
  else
    data ← fs_result (ok_or (serde_to_vec keyshare) "serde_json");
    encrypted ← fs_result (encrypt encryption_key nonce data);
    _ ← create_temporary (KeyshareFile handle);
    write_temporary (KeyshareFile handle) encrypted.

(** ** [KeyshareStorage] *)

Fixpoint check_prefix (existing_keyshares : list Keyshare) (epoch_id : EpochId)
    (expected_keys : list KeyForDomain) : result string unit :=
  match existing_keyshares, expected_keys with
  | k :: existing_keyshares, domain :: expected_keys =>
    _ ← check_consistency k epoch_id domain;
    check_prefix existing_keyshares epoch_id expected_keys
  | _, _ => Ok tt
  end.

Definition verify_existing_keyshares_are_prefix_of_keyset (existing_keyshares : list Keyshare)
    (epoch_id : EpochId) (expected_keys : list KeyForDomain) : result string unit :=
  if zlen expected_keys <? zlen existing_keyshares then
    Err "Existing permanent keyshare has more domains than expected"
  else check_prefix existing_keyshares epoch_id expected_keys.

Definition load_keyshare_from_temporary (epoch_id : EpochId) (key : KeyForDomain) : FsM Keyshare :=
  let key_id := mkKeyEventId epoch_id (kd_domain_id key) (kd_attempt key) in
  loaded ← load_keyshare key_id;
  keyshare ← fs_result (ok_or loaded "Missing temporary keyshare");
  _ ← fs_result (check_consistency keyshare epoch_id key);
  mret keyshare.

Fixpoint load_all_from_temporary (epoch_id : EpochId) (keys : list KeyForDomain) : FsM unit :=
  match keys with
  | [] => mret tt
  | key :: keys => _ ← load_keyshare_from_temporary epoch_id key; load_all_from_temporary epoch_id keys
  end.

Definition start_generating_key (already_generated_keys : list KeyForDomain)
    (key_id_to_generate : KeyEventId) : FsM KeyEventId :=
  permanent ← PermanentKeyStorage_load;
  let epoch_id := ke_epoch_id key_id_to_generate in
  num_permanent_keys_same_epoch ← fs_result
    (match permanent with
     | Some permanent =>
       if pk_epoch_id permanent =? epoch_id then
         _ ← verify_existing_keyshares_are_prefix_of_keyset (pk_keyshares permanent) epoch_id
               already_generated_keys;
         Ok (length (pk_keyshares permanent))
       else if epoch_id <? pk_epoch_id permanent then Err "Permanent key storage has newer epoch ID"
       else Ok 0%nat
     | None => Ok 0%nat
     end);
  _ ← load_all_from_temporary epoch_id (drop num_permanent_keys_same_epoch already_generated_keys);
  start_generating_keyshare key_id_to_generate.

Definition start_resharing_key (already_reshared_keys : list KeyForDomain)
    (key_id_to_generate : KeyEventId) : FsM KeyEventId :=
  permanent ← PermanentKeyStorage_load;
  let epoch_id := ke_epoch_id key_id_to_generate in
  _ ← fs_result
    (match permanent with
     | Some permanent =>
       if epoch_id <=? pk_epoch_id permanent then Err "Permanent key storage has epoch ID which is not older"
       else Ok tt
     | None => Ok tt
     end);
  _ ← load_all_from_temporary epoch_id already_reshared_keys;
  start_generating_keyshare key_id_to_generate.

Definition load_prefix_from_permanent (keyset : Keyset) : FsM (list Keyshare) :=
  permanent ← PermanentKeyStorage_load;
  let existing_keyshares :=
    match permanent with
    | Some permanent =>
      if pk_epoch_id permanent =? ks_epoch_id keyset then pk_keyshares permanent else []
    | None => []
    end in
  _ ← fs_result (verify_existing_keyshares_are_prefix_of_keyset existing_keyshares (ks_epoch_id keyset)
        (ks_domains keyset));
  mret existing_keyshares.

Definition store_new_permanent_keyset_data_delete_temporary (epoch_id : EpochId)
    (keyshares : list Keyshare) (nonce : bytes) : FsM unit :=
  new_permanent_keyshare ← fs_result (PermanentKeyshareData_new epoch_id keyshares);
  _ ← PermanentKeyStorage_store new_permanent_keyshare nonce;
  delete_keyshares_prior_to_epoch_id epoch_id.

(** The keyshares of the remaining domains, from the temporary storage, or else by
    [missing]. *)
Fixpoint load_rest (missing : KeyEventId → option Keyshare) (epoch_id : EpochId) (domains : list KeyForDomain) :
    FsM (list Keyshare) :=
  match domains with
  | [] => mret []
  | domain :: domains =>
    let key_id := mkKeyEventId epoch_id (kd_domain_id domain) (kd_attempt domain) in
    loaded ← load_keyshare key_id;
    keyshare ← fs_result (ok_or (match loaded with Some k => Some k | None => missing key_id end)
                 "Missing temporary keyshare");
    rest ← load_rest missing epoch_id domains;
    mret (keyshare :: rest)
  end.

Inductive LoadedKeyset : Type :=
  | LoadedPermanent (keyshares : list Keyshare)
  | LoadedPermanentAndTemporary (keyshares : list Keyshare).

Definition load_keyshares_from_permanent_or_temporary (keyset : Keyset) : FsM LoadedKeyset :=
  existing_keyshares ← load_prefix_from_permanent keyset;
  if zlen existing_keyshares =? zlen (ks_domains keyset) then mret (LoadedPermanent existing_keyshares)
  else
    rest ← load_rest (λ _, None) (ks_epoch_id keyset)
             (drop (length existing_keyshares) (ks_domains keyset));
    mret (LoadedPermanentAndTemporary (existing_keyshares ++ rest)).

Definition update_permanent_keyshares (keyset : Keyset) (nonce : bytes) : FsM (list Keyshare) :=
  loaded ← load_keyshares_from_permanent_or_temporary keyset;
  match loaded with
  | LoadedPermanent keyshares => mret keyshares
  | LoadedPermanentAndTemporary keyshares =>
    _ ← store_new_permanent_keyset_data_delete_temporary (ks_epoch_id keyset) keyshares nonce;
    mret keyshares
  end.

Definition get_keyshares (keyset : Keyset) : FsM (list Keyshare) :=
  loaded ← load_keyshares_from_permanent_or_temporary keyset;
  match loaded with
  | LoadedPermanent keyshares | LoadedPermanentAndTemporary keyshares => mret keyshares
  end.

Definition import_backup (backup : list Keyshare) (contract_keyset : Keyset) (nonce : bytes) : FsM unit :=
  _ ← fs_result (verify_existing_keyshares_are_prefix_of_keyset backup (ks_epoch_id contract_keyset)
        (ks_domains contract_keyset));
  _ ← fs_result (if negb (zlen backup =? zlen (ks_domains contract_keyset)) then
         Err "backup keyshares is not an exact match for the contract keyset" else Ok tt);
  existing_keyshares ← load_prefix_from_permanent contract_keyset;
  rest ← load_rest (λ key_id, find (λ share, bool_decide (kshare_key_id share = key_id)) backup)
           (ks_epoch_id contract_keyset) (drop (length existing_keyshares) (ks_domains contract_keyset));
  let new_keyshares := existing_keyshares ++ rest in
  let consistent_keyset := forallb (λ '(constructed_share, backup_share),
    bool_decide (constructed_share = backup_share)) (zip new_keyshares backup) in
  _ ← fs_result (if consistent_keyset then Ok tt else
         Err "corrupted backup or corrupted keystore: found a mismatch between secret shares");
  store_new_permanent_keyset_data_delete_temporary (ks_epoch_id contract_keyset) new_keyshares nonce.
End Storage.
