(* ===== verification/KeyshareProofs.v ===== *)
(** * Node: the keyshare storage, operation by operation

    How the permanent and the temporary keyshares change under each operation, in every
    state of the directory that it goes through. *)

From S2P Require Import Prelude Types CryptoTypes Participants KeyState NodePrimitives Db Assets Keyshare.

(** ** States that an operation goes through *)

Definition reaches {A} (m : FsM A) (h h' : Home) : Prop :=
  match m h with (trace, final, _) => h' ∈ trace ∨ h' = final end.

Definition final_of {A} (m : FsM A) (h : Home) : Home := (m h).1.2.
Definition value_of {A} (m : FsM A) (h : Home) : result string A := (m h).2.

Definition readonly {A} (m : FsM A) : Prop := ∀ h, m h = ([], h, value_of m h).

Lemma readonly_read {A} (f : Home → result string A) : readonly (fs_read f).
Proof. done. Qed.

Lemma readonly_ret {A} (a : A) : readonly (mret a : FsM A).
Proof. done. Qed.

Lemma readonly_bind {A B} (m : FsM A) (k : A → FsM B) :
  readonly m → (∀ a, readonly (k a)) → readonly (m ≫= k).
Proof.
  intros Hm Hk h. unfold value_of, mbind, FsM_bind. rewrite (Hm h).
  destruct (value_of m h) as [a| |]; [|done..]. by rewrite (Hk a h).
Qed.

Lemma value_bind {A B} (m : FsM A) (k : A → FsM B) h :
  readonly m → value_of (m ≫= k) h = (a ← value_of m h; value_of (k a) h).
Proof.
  intros Hm. unfold value_of at 1. unfold mbind at 1, FsM_bind. rewrite (Hm h).
  destruct (value_of m h) as [a| |]; [|done..]. unfold value_of. simpl.
  by destruct (k a h) as [[tr h'] r].
Qed.

Lemma bind_readonly {A B} (m : FsM A) (k : A → FsM B) h :
  readonly m → (m ≫= k) h =
    match value_of m h with Ok a => k a h | Err e => ([], h, Err e) | Panic p => ([], h, Panic p) end.
Proof.
  intros Hm. unfold mbind, FsM_bind. rewrite (Hm h). destruct (value_of m h) as [a| |]; [|done..].
  by destruct (k a h) as [[tr h'] r].
Qed.

Lemma reaches_readonly {A} (m : FsM A) h h' : readonly m → reaches m h h' → h' = h.
Proof. intros Hm. unfold reaches. rewrite (Hm h). set_solver. Qed.

Lemma reaches_bind {A B} (m : FsM A) (k : A → FsM B) h h' :
  reaches (m ≫= k) h h' →
  reaches m h h' ∨ ∃ a, value_of m h = Ok a ∧ reaches (k a) (final_of m h) h'.
Proof.
  unfold reaches, value_of, final_of, mbind, FsM_bind. destruct (m h) as [[tr h1] [a|e|p]]; simpl; [|auto..].
  destruct (k a h1) as [[tr' h2] r] eqn:E. rewrite elem_of_app.
  intros [[?|?]|?]; [auto|right; exists a; rewrite E; auto|right; exists a; rewrite E; auto].
Qed.

Lemma bind_Ok_fs {A B} (m : FsM A) (k : A → FsM B) h b :
  value_of (m ≫= k) h = Ok b →
  ∃ a, value_of m h = Ok a ∧ value_of (k a) (final_of m h) = Ok b ∧
    final_of (m ≫= k) h = final_of (k a) (final_of m h).
Proof.
  unfold value_of, final_of, mbind, FsM_bind. destruct (m h) as [[tr h1] [a|e|p]]; simpl; [|done..].
  destruct (k a h1) as [[tr' h2] r] eqn:E. simpl. intros ->. exists a. by rewrite E.
Qed.

Lemma reaches_write f h h' : reaches (fs_write f) h h' → h' = h ∨ f h = Ok h'.
Proof. unfold reaches, fs_write. destruct (f h); [|set_solver..]. intros [Hin|Hin]; right; set_solver. Qed.

Lemma reaches_final {A} (m : FsM A) h : reaches m h (final_of m h).
Proof. unfold reaches, final_of. destruct (m h) as [[tr h1] r]. by right. Qed.

Section Proofs.
Context `{!AesGcm, !AesGcmLaws, !KeyEncodings, !Serde Keyshare, !SerdeLaws Keyshare}.
Context `{!Serde PermanentKeyshareData, !SerdeLaws PermanentKeyshareData, !Serde LegacyRootKeyshareData}.
Context (ek : bytes).

Lemma load_readonly : readonly (PermanentKeyStorage_load ek).
Proof. apply readonly_bind; [apply readonly_read|]. intros [d|]; [|apply readonly_ret]. apply readonly_bind; [apply readonly_read|intros; apply readonly_ret]. Qed.

Lemma load_keyshare_readonly k : readonly (load_keyshare ek k).
Proof. apply readonly_read. Qed.

Lemma load_rest_readonly missing e domains : readonly (load_rest ek missing e domains).
Proof.
  induction domains as [|d domains IH]; [apply readonly_ret|]. simpl.
  apply readonly_bind; [apply load_keyshare_readonly|]. intros loaded.
  apply readonly_bind; [apply readonly_read|]. intros k. apply readonly_bind; [done|]. intros; apply readonly_ret.
Qed.

Lemma load_temporary_readonly e key : readonly (load_keyshare_from_temporary ek e key).
Proof.
  apply readonly_bind; [apply load_keyshare_readonly|]. intros loaded.
  apply readonly_bind; [apply readonly_read|]. intros k.
  apply readonly_bind; [apply readonly_read|]. intros; apply readonly_ret.
Qed.

Lemma load_all_readonly e keys : readonly (load_all_from_temporary ek e keys).
Proof.
  induction keys as [|k keys IH]; [apply readonly_ret|]. simpl.
  apply readonly_bind; [apply load_temporary_readonly|done].
Qed.

Lemma load_prefix_readonly keyset : readonly (load_prefix_from_permanent ek keyset).
Proof.
  apply readonly_bind; [apply load_readonly|]. intros p. apply readonly_bind; [apply readonly_read|].
  intros; apply readonly_ret.
Qed.

Lemma load_keyset_readonly keyset : readonly (load_keyshares_from_permanent_or_temporary ek keyset).
Proof.
  apply readonly_bind; [apply load_prefix_readonly|]. intros l. case_match; [apply readonly_ret|].
  apply readonly_bind; [apply load_rest_readonly|]. intros; apply readonly_ret.
Qed.

(** ** The permanent keyshares *)

Definition permanent (h : Home) : result string (option PermanentKeyshareData) :=
  value_of (PermanentKeyStorage_load ek) h.

Lemma permanent_key_file h h' : key_file h' = key_file h → permanent h' = permanent h.
Proof.
  intros E. unfold permanent, PermanentKeyStorage_load. rewrite !value_bind by apply readonly_read.
  unfold backend_load, value_of, fs_read. simpl. rewrite E.
  destruct (key_file h) as [b|]; simpl; [|done]. destruct (decrypt ek b) as [d| |]; simpl; [|done..].
  unfold mbind, FsM_bind, fs_result, fs_read. by destruct (ok_or (serde_from_slice d) _).
Qed.

Lemma permanent_no_key h : key_file h = None → permanent h = Ok None.
Proof.
  intros Hk. unfold permanent, value_of, PermanentKeyStorage_load, mbind, FsM_bind, backend_load, fs_read.
  by rewrite Hk.
Qed.

(** The new keyset keeps the place, the domain and the public key of every keyshare of the
    old one, and in the same epoch also its key event. *)
Definition extends (old new : PermanentKeyshareData) : Prop :=
  pk_epoch_id old ≤ pk_epoch_id new ∧
  ∀ i k, pk_keyshares old !! i = Some k → ∃ k', pk_keyshares new !! i = Some k' ∧
    ke_domain_id (kshare_key_id k') = ke_domain_id (kshare_key_id k) ∧
    Keyshare_public_key k' = Keyshare_public_key k ∧
    (pk_epoch_id new = pk_epoch_id old → kshare_key_id k' = kshare_key_id k).

Lemma extends_refl d : extends d d.
Proof. split; [done|]. intros i k Hk. by exists k. Qed.

Lemma extends_trans d1 d2 d3 : extends d1 d2 → extends d2 d3 → extends d1 d3.
Proof.
  intros [L1 E1] [L2 E2]. split; [lia|]. intros i k Hk. destruct (E1 i k Hk) as (k2 & Hk2 & D2 & P2 & I2).
  destruct (E2 i k2 Hk2) as (k3 & Hk3 & D3 & P3 & I3). exists k3. split; [done|].
  split; [congruence|]. split; [congruence|]. intros E. rewrite I3, I2 by lia. done.
Qed.

Lemma check_overwrite_Ok same old new :
  check_overwrite same old new = Ok tt → (length old ≤ length new)%nat →
  ∀ i k, old !! i = Some k → ∃ k', new !! i = Some k' ∧
    ke_domain_id (kshare_key_id k') = ke_domain_id (kshare_key_id k) ∧
    Keyshare_public_key k' = Keyshare_public_key k ∧ (same = true → kshare_key_id k' = kshare_key_id k).
Proof.
  revert new. induction old as [|e old IH]; intros [|n new] Hc Hlen i k Hk; simpl in *; [done|done|lia|].
  destruct (Z.eqb_spec (ke_domain_id (kshare_key_id e)) (ke_domain_id (kshare_key_id n))) as [Ed|]; [|done].
  simpl in Hc. destruct (same && bool_decide (kshare_key_id e ≠ kshare_key_id n)) eqn:Es; [done|].
  apply bind_Ok in Hc as (pe & He & Hc). apply bind_Ok in Hc as (pn & Hn & Hc).
  destruct (bool_decide (pe ≠ pn)) eqn:Ep; [done|]. apply bool_decide_eq_false in Ep. apply dec_stable in Ep.
  destruct i as [|i]; simpl in *; [|by apply (IH new); [|lia|]].
  injection Hk as <-. exists n. split; [done|]. split; [done|]. split; [congruence|].
  intros ->. simpl in Es. apply bool_decide_eq_false in Es. apply dec_stable in Es. done.
Qed.

Lemma check_store_Ok old new : check_store old new = Ok tt →
  extends old new ∧ (pk_epoch_id old, zlen (pk_keyshares old)) ≠ (pk_epoch_id new, zlen (pk_keyshares new)).
Proof.
  unfold check_store. destruct (Z.ltb_spec (pk_epoch_id new) (pk_epoch_id old)); [done|].
  destruct (Z.ltb_spec (zlen (pk_keyshares new)) (zlen (pk_keyshares old))); [done|].
  destruct (Z.eqb_spec (pk_epoch_id old) (pk_epoch_id new)) as [E|E]; simpl.
  - destruct (Z.leb_spec (zlen (pk_keyshares new)) (zlen (pk_keyshares old))) as [Hle|Hlt]; [done|].
    intros Hc. split; [|intros [= _ E2]; lia]. split; [lia|]. intros i k Hk.
    destruct (check_overwrite_Ok _ _ _ Hc ltac:(unfold zlen in *; lia) i k Hk) as (k' & ? & ? & ? & ?).
    exists k'. auto.
  - intros Hc. split; [|intros [= E1 _]; lia]. split; [lia|]. intros i k Hk.
    destruct (check_overwrite_Ok _ _ _ Hc ltac:(unfold zlen in *; lia) i k Hk) as (k' & ? & ? & ? & ?).
    exists k'. split; [done|]. split; [done|]. split; [done|]. intros E'. lia.
Qed.

(** ** Writing the permanent keyshares *)

Definition identifier (d : PermanentKeyshareData) : Z * Z := (pk_epoch_id d, zlen (pk_keyshares d)).

Lemma permanent_of_encrypted h data b nonce (d : PermanentKeyshareData) :
  length nonce = NONCE_LEN → encrypt ek nonce data = Ok b → serde_to_vec d = Some data →
  key_file h = Some b → permanent h = Ok (Some d).
Proof.
  intros Hn Henc Hser Hk. unfold permanent, PermanentKeyStorage_load. rewrite value_bind by apply readonly_read.
  assert (E : value_of (backend_load ek) h = Ok (Some data)).
  { unfold value_of, backend_load, fs_read. simpl. by rewrite Hk, (decrypt_encrypt _ _ _ _ Hn Henc). }
  rewrite E. simpl. unfold value_of, mbind, FsM_bind, fs_result, fs_read. by rewrite (serde_from_to d data Hser).
Qed.

(** The states on the way: the file of the new keyset, then no key file, then the new one. *)
Lemma backend_store_states data id nonce h h' :
  reaches (backend_store ek data id nonce) h h' →
  temporary_keys h' = temporary_keys h ∧
  (key_file h' = key_file h ∨
   (key_file h' = None ∧ is_Some (permanent_keys h' !! id)) ∨
   ∃ b, encrypt ek nonce data = Ok b ∧ key_file h' = Some b).
Proof.
  unfold backend_store, reaches, mbind, FsM_bind, fs_result, fs_read.
  destruct (encrypt ek nonce data) as [b| |]; simpl; [|set_solver..].
  unfold create_permanent, write_permanent, remove_key, link_key, fs_write.
  destruct (permanent_keys h !! id) eqn:Hid; simpl; [set_solver|].
  rewrite lookup_insert_eq. simpl. intros Hin.
  repeat match goal with
    | H : _ ∨ _ |- _ => destruct H as [H|H]
    | H : _ ∈ _ :: _ |- _ => apply elem_of_cons in H
    | H : _ ∈ [] |- _ => by apply elem_of_nil in H
    end; subst h'; simpl; rewrite ?lookup_insert_eq; eauto 10.
Qed.

Lemma backend_store_Ok data id nonce h :
  value_of (backend_store ek data id nonce) h = Ok tt →
  permanent_keys h !! id = None ∧
  ∃ b, encrypt ek nonce data = Ok b ∧ key_file (final_of (backend_store ek data id nonce) h) = Some b.
Proof.
  unfold backend_store, value_of, final_of, mbind, FsM_bind, fs_result, fs_read.
  destruct (encrypt ek nonce data) as [b| |]; simpl; [|done..].
  unfold create_permanent, write_permanent, remove_key, link_key, fs_write.
  destruct (permanent_keys h !! id) eqn:Hid; simpl; [done|].
  rewrite lookup_insert_eq. simpl. intros _. eauto.
Qed.

Lemma backend_store_exists data id nonce h :
  is_Some (permanent_keys h !! id) →
  ∃ r, backend_store ek data id nonce h = ([], h, r) ∧ r ≠ Ok tt.
Proof.
  intros [b Hb]. unfold backend_store, mbind, FsM_bind, fs_result, fs_read.
  destruct (encrypt ek nonce data) as [c|e|p]; simpl; [|by eexists..].
  unfold create_permanent, fs_write. rewrite Hb. simpl. by eexists.
Qed.

Lemma store_unchecked_states d nonce h h' :
  length nonce = NONCE_LEN → reaches (store_unchecked ek d nonce) h h' →
  temporary_keys h' = temporary_keys h ∧
  (key_file h' = key_file h ∨ (key_file h' = None ∧ is_Some (permanent_keys h' !! identifier d)) ∨
   permanent h' = Ok (Some d)).
Proof.
  intros Hn Hr. apply reaches_bind in Hr as [Hr|(data & Hdata & Hr)].
  { apply reaches_readonly in Hr as ->; [auto|apply readonly_read]. }
  unfold value_of, fs_result, fs_read in Hdata. simpl in Hdata.
  destruct (serde_to_vec d) as [data'|] eqn:Hser; [|done]. injection Hdata as <-.
  apply backend_store_states in Hr as (Ht & Hcase). split; [done|].
  destruct Hcase as [?|[?|(b & Hb & Hk)]]; [auto|auto|]. right. right.
  by eapply permanent_of_encrypted.
Qed.

Lemma store_unchecked_Ok d nonce h :
  length nonce = NONCE_LEN → value_of (store_unchecked ek d nonce) h = Ok tt →
  permanent (final_of (store_unchecked ek d nonce) h) = Ok (Some d) ∧
  temporary_keys (final_of (store_unchecked ek d nonce) h) = temporary_keys h.
Proof.
  intros Hn Hok. pose proof (reaches_final (store_unchecked ek d nonce) h) as Hr.
  destruct (store_unchecked_states d nonce h _ Hn Hr) as [Ht _]. split; [|done].
  unfold store_unchecked in *. apply bind_Ok_fs in Hok as (data & Hdata & Hst & ->).
  unfold value_of, fs_result, fs_read in Hdata. simpl in Hdata.
  destruct (serde_to_vec d) as [data'|] eqn:Hser; [|done]. injection Hdata as <-.
  apply backend_store_Ok in Hst as (_ & b & Hb & Hk). by eapply permanent_of_encrypted.
Qed.

(** ** What an operation may do *)

(** The permanent keyshares grow, and a temporary file goes only when the permanent
    keyshares are of a later epoch. *)
Record Moved (h h' : Home) : Prop := {
  mv_permanent old : permanent h = Ok (Some old) → ∃ new, permanent h' = Ok (Some new) ∧ extends old new;
  mv_temporary n b : temporary_keys h !! n = Some b →
    temporary_keys h' !! n = Some b ∨
    ∃ d, permanent h' = Ok (Some d) ∧ ke_epoch_id (name_key n) < pk_epoch_id d;
}.

Lemma Moved_refl h : Moved h h.
Proof. split; [|auto]. intros old Ho. exists old. split; [done|apply extends_refl]. Qed.

Lemma Moved_trans h1 h2 h3 : Moved h1 h2 → Moved h2 h3 → Moved h1 h3.
Proof.
  intros [P1 T1] [P2 T2]. split.
  - intros old Ho. destruct (P1 old Ho) as (d2 & H2 & E2). destruct (P2 d2 H2) as (d3 & H3 & E3).
    exists d3. split; [done|by eapply extends_trans].
  - intros n b Hb. destruct (T1 n b Hb) as [Hb2|(d2 & H2 & L2)]; [by apply T2|].
    destruct (P2 d2 H2) as (d3 & H3 & [L3 _]). right. exists d3. split; [done|lia].
Qed.

Lemma Moved_same h h' :
  key_file h' = key_file h → (∀ n b, temporary_keys h !! n = Some b → temporary_keys h' !! n = Some b) → Moved h h'.
Proof.
  intros Hk Ht. split; [|auto]. intros old Ho. exists old. rewrite (permanent_key_file h h' Hk).
  split; [done|apply extends_refl].
Qed.

(** The crash window of [backend_store]. *)
Definition no_key (h h' : Home) : Prop := key_file h' = None ∧ key_file h ≠ None.

Lemma delete_files_states names e h h' d :
  permanent h = Ok (Some d) → e ≤ pk_epoch_id d → reaches (delete_files names e) h h' →
  key_file h' = key_file h ∧ Moved h h'.
Proof.
  intros Hp He. revert h Hp. induction names as [|n names IH]; intros h Hp; simpl.
  { intros Hr. apply reaches_readonly in Hr as ->; [|apply readonly_ret]. split; [done|apply Moved_refl]. }
  destruct (Z.ltb_spec (ke_epoch_id (name_key n)) e) as [Hlt|Hge]; [|by apply IH].
  assert (Hone : ∀ h2, h2 = set_temporary h (delete n (temporary_keys h)) → key_file h2 = key_file h ∧ Moved h h2).
  { intros h2 ->. split; [done|]. split.
    - intros old Ho. exists old. split; [|apply extends_refl]. by rewrite (permanent_key_file h).
    - intros n' b Hb. destruct (decide (n' = n)) as [->|Hne].
      + right. exists d. rewrite (permanent_key_file h) by done. split; [done|lia].
      + left. simpl. by rewrite lookup_delete_ne. }
  intros Hr. apply reaches_bind in Hr as [Hr|(u & Hu & Hr)].
  - unfold remove_temporary in Hr. apply reaches_write in Hr as [->|[= <-]]; [split; [done|apply Moved_refl]|by apply Hone].
  - destruct (Hone _ eq_refl) as [Hk Hm].
    destruct (IH (set_temporary h (delete n (temporary_keys h)))) as [Hk' Hm'].
    + by rewrite (permanent_key_file h).
    + exact Hr.
    + split; [congruence|by eapply Moved_trans].
Qed.

Lemma delete_files_final names e h d :
  permanent h = Ok (Some d) → e ≤ pk_epoch_id d → permanent (final_of (delete_files names e) h) = Ok (Some d).
Proof.
  intros Hp He. destruct (delete_files_states names e h _ d Hp He (reaches_final _ _)) as [Hk _].
  by rewrite (permanent_key_file h).
Qed.

(** ** The operations *)

Definition nonce_ok (nonce : bytes) : Prop := length nonce = NONCE_LEN.

Lemma PermanentKeyshareData_new_Ok e ks d :
  PermanentKeyshareData_new e ks = Ok d → d = mkPermanentKeyshareData e ks ∧ ks ≠ [].
Proof.
  unfold PermanentKeyshareData_new. destruct (negb (consistent_windows ks)); [done|].
  destruct ks as [|k ks]; [done|]. destruct (negb _); [done|]. by intros [= <-].
Qed.

Lemma store_states d nonce h h' :
  nonce_ok nonce → reaches (PermanentKeyStorage_store ek d nonce) h h' →
  temporary_keys h' = temporary_keys h ∧
  (key_file h' = key_file h ∨ (key_file h' = None ∧ is_Some (permanent_keys h' !! identifier d)) ∨
   (permanent h' = Ok (Some d) ∧ ∀ old, permanent h = Ok (Some old) → extends old d)).
Proof.
  intros Hn Hr. unfold PermanentKeyStorage_store in Hr. apply reaches_bind in Hr as [Hr|(o & Ho & Hr)].
  { apply reaches_readonly in Hr as ->; [auto|apply load_readonly]. }
  assert (Ef : final_of (PermanentKeyStorage_load ek) h = h) by (unfold final_of; by rewrite load_readonly).
  rewrite Ef in Hr. apply reaches_bind in Hr as [Hr|([] & Hc & Hr)].
  { apply reaches_readonly in Hr as ->; [auto|apply readonly_read]. }
  destruct (store_unchecked_states d nonce h h' Hn Hr) as (Ht & [?|[?|Hp]]); [auto|auto|].
  split; [done|]. right. right. split; [done|]. intros old Hold. unfold permanent in Hold.
  assert (o = Some old) as -> by congruence. by apply check_store_Ok.
Qed.

Lemma store_Ok d nonce h :
  nonce_ok nonce → value_of (PermanentKeyStorage_store ek d nonce) h = Ok tt →
  permanent (final_of (PermanentKeyStorage_store ek d nonce) h) = Ok (Some d).
Proof.
  intros Hn Hok. unfold PermanentKeyStorage_store in *. apply bind_Ok_fs in Hok as (o & Ho & Hok & ->).
  apply bind_Ok_fs in Hok as ([] & Hc & Hok & ->). by apply store_unchecked_Ok.
Qed.

(** Every state of storing a new keyset but the window moves on. *)
Lemma store_new_states e ks nonce h h' :
  nonce_ok nonce → reaches (store_new_permanent_keyset_data_delete_temporary ek e ks nonce) h h' →
  (Moved h h' ∧ ¬ no_key h h') ∨
  (no_key h h' ∧ temporary_keys h' = temporary_keys h ∧ is_Some (permanent_keys h' !! (e, zlen ks))).
Proof.
  intros Hn Hr. unfold store_new_permanent_keyset_data_delete_temporary in Hr.
  apply reaches_bind in Hr as [Hr|(d & Hd & Hr)].
  { apply reaches_readonly in Hr as ->; [left; split; [apply Moved_refl|by intros []]|apply readonly_read]. }
  apply PermanentKeyshareData_new_Ok in Hd as [-> _].
  change (final_of (fs_result _) h) with h in Hr. set (d := mkPermanentKeyshareData e ks) in *.
  assert (Hst : ∀ h2, reaches (PermanentKeyStorage_store ek d nonce) h h2 →
    (Moved h h2 ∧ ¬ no_key h h2) ∨
    (no_key h h2 ∧ temporary_keys h2 = temporary_keys h ∧ is_Some (permanent_keys h2 !! (e, zlen ks)))).
  { intros h2 Hr2. destruct (store_states d nonce h h2 Hn Hr2) as (Ht & [Hk|[[Hk Hp]|[Hp Hext]]]).
    - left. split; [|intros []; congruence]. apply Moved_same; [done|]. by rewrite Ht.
    - destruct (key_file h) as [b|] eqn:Hkh.
      + right. split; [|done]. split; [done|]. by rewrite Hkh.
      + left. split; [|by intros []]. apply Moved_same; [by rewrite Hk, Hkh|]. by rewrite Ht.
    - left. split; [|intros [Hk _]; by rewrite (permanent_no_key _ Hk) in Hp].
      split; [|rewrite Ht; auto]. intros old Ho. exists d. auto. }
  apply reaches_bind in Hr as [Hr|([] & Hok & Hr)]; [by apply Hst|].
  pose proof (store_Ok d nonce h Hn Hok) as Hp. left.
  destruct (delete_files_states _ e _ h' d Hp ltac:(simpl; lia) Hr) as [Hk' Hm'].
  destruct (Hst _ (reaches_final _ _)) as [[Hm _]|[[Hk _] _]]; [|by rewrite (permanent_no_key _ Hk) in Hp].
  split; [by eapply Moved_trans|]. intros [Hk _]. rewrite Hk in Hk'. by rewrite permanent_no_key in Hp.
Qed.

Lemma store_new_Ok e ks nonce h :
  nonce_ok nonce → value_of (store_new_permanent_keyset_data_delete_temporary ek e ks nonce) h = Ok tt →
  permanent (final_of (store_new_permanent_keyset_data_delete_temporary ek e ks nonce) h) =
    Ok (Some (mkPermanentKeyshareData e ks)).
Proof.
  intros Hn Hok. unfold store_new_permanent_keyset_data_delete_temporary in *.
  apply bind_Ok_fs in Hok as (d & Hd & Hok & ->). apply PermanentKeyshareData_new_Ok in Hd as [-> _].
  apply bind_Ok_fs in Hok as ([] & Hst & Hok & ->). apply store_Ok in Hst; [|done].
  by apply (delete_files_final _ e).
Qed.
End Proofs.
