(* ===== verification/KeyshareTheorems.v ===== *)
(** * Node: what the keyshare storage guarantees

    Histories of the storage in which the node may crash after any write, and the theorems
    about them. *)

From S2P Require Import Prelude Types CryptoTypes Participants KeyState NodePrimitives Db Assets Keyshare KeyshareProofs.

Section Theorems.
Context `{!AesGcm, !AesGcmLaws, !KeyEncodings, !Serde Keyshare, !SerdeLaws Keyshare}.
Context `{!Serde PermanentKeyshareData, !SerdeLaws PermanentKeyshareData, !Serde LegacyRootKeyshareData}.
Context (ek : bytes).

(** ** Histories *)

Inductive Op : Type :=
  | OpNew (nonce : bytes)
  | OpStartGenerating (keys : list KeyForDomain) (key_id : KeyEventId)
  | OpStartResharing (keys : list KeyForDomain) (key_id : KeyEventId)
  | OpCommit (handle : KeyEventId) (keyshare : Keyshare) (nonce : bytes)
  | OpUpdate (keyset : Keyset) (nonce : bytes)
  | OpImport (backup : list Keyshare) (keyset : Keyset) (nonce : bytes).

(** The operation; a started key event is returned. *)
Definition run_op (op : Op) : FsM (option KeyEventId) :=
  match op with
  | OpNew nonce => _ ← PermanentKeyStorage_new ek nonce; mret None
  | OpStartGenerating keys key_id => k ← start_generating_key ek keys key_id; mret (Some k)
  | OpStartResharing keys key_id => k ← start_resharing_key ek keys key_id; mret (Some k)
  | OpCommit handle keyshare nonce => _ ← commit_keyshare ek handle keyshare nonce; mret None
  | OpUpdate keyset nonce => _ ← update_permanent_keyshares ek keyset nonce; mret None
  | OpImport backup keyset nonce => _ ← import_backup ek backup keyset nonce; mret None
  end.

Definition op_ok (op : Op) : Prop :=
  match op with
  | OpNew nonce | OpCommit _ _ nonce | OpUpdate _ nonce | OpImport _ _ nonce => nonce_ok nonce
  | _ => True
  end.

(** The directory and the key events that were started. *)
Record KWorld : Type := mkKWorld {
  kw_home : Home;
  kw_started : list KeyEventId;
}.

Inductive kstep : KWorld → KWorld → Prop :=
  | k_run w op : op_ok op →
      kstep w (mkKWorld (final_of (run_op op) (kw_home w))
        (match value_of (run_op op) (kw_home w) with Ok (Some k) => k :: kw_started w | _ => kw_started w end))
  | k_crash w op h' : op_ok op → reaches (run_op op) (kw_home w) h' → ¬ no_key (kw_home w) h' →
      kstep w (mkKWorld h' (kw_started w)).

(** Steps with crashes anywhere, also in the window. *)
Inductive kstep_any : KWorld → KWorld → Prop :=
  | ka_run w op : op_ok op →
      kstep_any w (mkKWorld (final_of (run_op op) (kw_home w))
        (match value_of (run_op op) (kw_home w) with Ok (Some k) => k :: kw_started w | _ => kw_started w end))
  | ka_crash w op h' : op_ok op → reaches (run_op op) (kw_home w) h' →
      kstep_any w (mkKWorld h' (kw_started w)).

Lemma kstep_kstep_any w w' : kstep w w' → kstep_any w w'.
Proof. intros [w0 op ?|w0 op h' ???]; [by apply ka_run|by apply (ka_crash w0 op)]. Qed.

(** ** Every operation moves on *)

Lemma start_keyshare_moves k h h' : reaches (start_generating_keyshare k) h h' → Moved ek h h'.
Proof.
  intros Hr. unfold start_generating_keyshare in Hr. apply reaches_bind in Hr as [Hr|(u & Hu & Hr)].
  - unfold create_temporary in Hr. apply reaches_write in Hr as [->|Hr]; [apply Moved_refl|].
    destruct (temporary_keys h !! StartedFile k) eqn:Hk; [done|]. injection Hr as <-. apply Moved_same; [done|].
    intros n b Hb. simpl. rewrite lookup_insert_ne; [done|]. intros <-. congruence.
  - apply reaches_readonly in Hr as ->; [|apply readonly_ret]. unfold value_of, final_of, create_temporary, fs_write in *.
    destruct (temporary_keys h !! StartedFile k) eqn:Hk; [done|]. simpl. apply Moved_same; [done|].
    intros n b Hb. simpl. rewrite lookup_insert_ne; [done|]. intros <-. congruence.
Qed.

Lemma readonly_then {A B} (m : FsM A) (k : A → FsM B) h h' (P : Home → Prop) :
  readonly m → P h → (∀ a, value_of m h = Ok a → reaches (k a) h h' → P h') → reaches (m ≫= k) h h' → P h'.
Proof.
  intros Hm Hh Hk Hr. apply reaches_bind in Hr as [Hr|(a & Ha & Hr)].
  - by apply (reaches_readonly _ _ _ Hm) in Hr as ->.
  - apply (Hk a Ha). unfold final_of in Hr. by rewrite (Hm h) in Hr.
Qed.

Lemma start_generating_moves keys k h h' : reaches (start_generating_key ek keys k) h h' → Moved ek h h'.
Proof.
  apply (readonly_then _ _ h h' (Moved ek h)); [apply load_readonly|apply Moved_refl|]. intros p _.
  apply (readonly_then _ _ h h' (Moved ek h)); [apply readonly_read|apply Moved_refl|]. intros n _.
  apply (readonly_then _ _ h h' (Moved ek h)); [apply load_all_readonly|apply Moved_refl|]. intros u _.
  apply start_keyshare_moves.
Qed.

Lemma start_resharing_moves keys k h h' : reaches (start_resharing_key ek keys k) h h' → Moved ek h h'.
Proof.
  apply (readonly_then _ _ h h' (Moved ek h)); [apply load_readonly|apply Moved_refl|]. intros p _.
  apply (readonly_then _ _ h h' (Moved ek h)); [apply readonly_read|apply Moved_refl|]. intros n _.
  apply (readonly_then _ _ h h' (Moved ek h)); [apply load_all_readonly|apply Moved_refl|]. intros u _.
  apply start_keyshare_moves.
Qed.

Lemma commit_moves k share nonce h h' : reaches (commit_keyshare ek k share nonce) h h' → Moved ek h h'.
Proof.
  unfold commit_keyshare. destruct (bool_decide _).
  { intros Hr. apply reaches_readonly in Hr as ->; [apply Moved_refl|apply readonly_read]. }
  apply (readonly_then _ _ h h' (Moved ek h)); [apply readonly_read|apply Moved_refl|]. intros data _.
  apply (readonly_then _ _ h h' (Moved ek h)); [apply readonly_read|apply Moved_refl|]. intros enc _.
  intros Hr. unfold reaches, mbind, FsM_bind, create_temporary, write_temporary, fs_write in Hr.
  destruct (temporary_keys h !! KeyshareFile k) eqn:Hk; simpl in Hr.
  { assert (h' = h) as -> by set_solver. apply Moved_refl. }
  assert (Hins : ∀ b, Moved ek h (set_temporary h (<[KeyshareFile k := b]> (temporary_keys h)))).
  { intros b. apply Moved_same; [done|]. intros n b' Hb. simpl. rewrite lookup_insert_ne; [done|]. intros <-. congruence. }
  rewrite insert_insert_eq in Hr.
  assert (Hcase : h' = set_temporary h (<[KeyshareFile k := []]> (temporary_keys h)) ∨
    h' = set_temporary h (<[KeyshareFile k := enc]> (temporary_keys h))) by set_solver.
  destruct Hcase as [->| ->]; apply Hins.
Qed.

Lemma reaches_then_ret {A B} (m : FsM A) (f : A → B) h h' : reaches (m ≫= λ a, mret (f a)) h h' → reaches m h h'.
Proof.
  intros [?|(a & Ha & Hr)]%reaches_bind; [done|]. apply reaches_readonly in Hr as ->; [|apply readonly_ret].
  apply reaches_final.
Qed.

Lemma reaches_ret {A B} (m : FsM A) (f : A → B) h h' : reaches m h h' → reaches (m ≫= λ a, mret (f a)) h h'.
Proof.
  unfold reaches, mbind, FsM_bind. destruct (m h) as [[tr h1] [a|e|p]]; simpl; [|done..]. by rewrite app_nil_r.
Qed.

Definition moves_or_window (h h' : Home) : Prop :=
  Moved ek h h' ∨ (no_key h h' ∧ temporary_keys h' = temporary_keys h).

Lemma moves_refl h : moves_or_window h h.
Proof. left. apply Moved_refl. Qed.

Lemma new_moves nonce h h' : nonce_ok nonce → reaches (PermanentKeyStorage_new ek nonce) h h' → moves_or_window h h'.
Proof.
  intros Hn. apply (readonly_then _ _ h h' (moves_or_window h)); [apply readonly_read|apply moves_refl|].
  intros [data|] Hdata Hr; [|apply reaches_readonly in Hr as ->; [apply moves_refl|apply readonly_ret]].
  destruct (serde_from_slice data : option PermanentKeyshareData) as [v|] eqn:Hser.
  { apply reaches_readonly in Hr as ->; [apply moves_refl|apply readonly_ret]. }
  revert Hr. apply (readonly_then _ _ h h' (moves_or_window h)); [apply readonly_read|apply moves_refl|].
  intros legacy _ Hr. destruct (store_unchecked_states ek _ nonce h h' Hn Hr) as (Ht & [Hk|[[Hk _]|Hp]]).
  - left. apply Moved_same; [done|]. by rewrite Ht.
  - destruct (key_file h) as [b|] eqn:Hkh.
    + right. split; [|done]. split; [done|]. by rewrite Hkh.
    + left. apply Moved_same; [by rewrite Hk, Hkh|]. by rewrite Ht.
  - left. split; [|rewrite Ht; auto]. intros old Ho. exfalso.
    unfold permanent, PermanentKeyStorage_load in Ho. rewrite value_bind, Hdata in Ho by apply readonly_read.
    unfold value_of, mbind, result_bind, FsM_bind, fs_result, fs_read in Ho. simpl in Ho. by rewrite Hser in Ho.
Qed.

Lemma update_moves keyset nonce h h' :
  nonce_ok nonce → reaches (update_permanent_keyshares ek keyset nonce) h h' → moves_or_window h h'.
Proof.
  intros Hn. apply (readonly_then _ _ h h' (moves_or_window h)); [apply load_keyset_readonly|apply moves_refl|].
  intros [ks|ks] _ Hr.
  - apply reaches_readonly in Hr as ->; [apply moves_refl|apply readonly_ret].
  - apply (reaches_then_ret _ (λ _, ks)) in Hr.
    destruct (store_new_states ek _ _ _ _ _ Hn Hr) as [[? _]|(? & ? & _)]; [by left|by right].
Qed.

Lemma import_moves backup keyset nonce h h' :
  nonce_ok nonce → reaches (import_backup ek backup keyset nonce) h h' → moves_or_window h h'.
Proof.
  intros Hn. apply (readonly_then _ _ h h' (moves_or_window h)); [apply readonly_read|apply moves_refl|]. intros [] _.
  apply (readonly_then _ _ h h' (moves_or_window h)); [apply readonly_read|apply moves_refl|]. intros [] _.
  apply (readonly_then _ _ h h' (moves_or_window h)); [apply load_prefix_readonly|apply moves_refl|]. intros ks _.
  apply (readonly_then _ _ h h' (moves_or_window h)); [apply load_rest_readonly|apply moves_refl|]. intros rest _.
  apply (readonly_then _ _ h h' (moves_or_window h)); [apply readonly_read|apply moves_refl|]. intros [] _ Hr.
  destruct (store_new_states ek _ _ _ _ _ Hn Hr) as [[? _]|(? & ? & _)]; [by left|by right].
Qed.

Lemma run_op_moves op h h' : op_ok op → reaches (run_op op) h h' → moves_or_window h h'.
Proof.
  intros Hok Hr. destruct op; simpl in *; apply reaches_then_ret in Hr.
  - by eapply new_moves.
  - left. by eapply start_generating_moves.
  - left. by eapply start_resharing_moves.
  - left. by eapply commit_moves.
  - by eapply update_moves.
  - by eapply import_moves.
Qed.

(** ** Running to the end does not stop in the window *)

Definition keeps_key {A} (m : FsM A) : Prop := ∀ h, key_file h ≠ None → key_file (final_of m h) ≠ None.

Lemma keeps_readonly {A} (m : FsM A) : readonly m → keeps_key m.
Proof. intros Hm h. unfold final_of. by rewrite (Hm h). Qed.

Lemma keeps_bind {A B} (m : FsM A) (k : A → FsM B) : keeps_key m → (∀ a, keeps_key (k a)) → keeps_key (m ≫= k).
Proof.
  intros Hm Hk h Hh. specialize (Hm h Hh). unfold final_of, mbind, FsM_bind in *.
  destruct (m h) as [[tr h1] [a|e|p]]; [|done..]. simpl in Hm. specialize (Hk a h1 Hm). unfold final_of in Hk.
  by destruct (k a h1) as [[tr' h2] r].
Qed.

Lemma keeps_temporary f : (∀ h h', f h = Ok h' → key_file h' = key_file h) → keeps_key (fs_write f).
Proof. intros Hf h Hh. unfold final_of, fs_write. destruct (f h) as [h'| |] eqn:E; [|done..]. simpl. by rewrite (Hf _ _ E). Qed.

Lemma keeps_backend_store data id nonce : keeps_key (backend_store ek data id nonce).
Proof.
  intros h Hh. unfold backend_store, final_of, mbind, FsM_bind, fs_result, fs_read.
  destruct (encrypt ek nonce data) as [b| |]; simpl; [|done..].
  unfold create_permanent, write_permanent, remove_key, link_key, fs_write.
  destruct (permanent_keys h !! id) eqn:Hid; simpl; [done|]. by rewrite lookup_insert_eq.
Qed.

Lemma keeps_store_unchecked d nonce : keeps_key (store_unchecked ek d nonce).
Proof. apply keeps_bind; [by apply keeps_readonly|]. intros. apply keeps_backend_store. Qed.

Lemma keeps_delete_files names e : keeps_key (delete_files names e).
Proof.
  induction names as [|n names IH]; [by apply keeps_readonly|]. simpl. case_match; [|done].
  apply keeps_bind; [|done]. apply keeps_temporary. by intros h h' [= <-].
Qed.

Lemma keeps_store_new e ks nonce : keeps_key (store_new_permanent_keyset_data_delete_temporary ek e ks nonce).
Proof.
  apply keeps_bind; [by apply keeps_readonly|]. intros d. apply keeps_bind.
  - apply keeps_bind; [apply keeps_readonly, load_readonly|intros o].
    apply keeps_bind; [by apply keeps_readonly|intros _]. apply keeps_store_unchecked.
  - intros _ h. apply keeps_delete_files.
Qed.

Lemma keeps_start k : keeps_key (start_generating_keyshare k).
Proof.
  apply keeps_bind; [|intros; by apply keeps_readonly]. apply keeps_temporary. intros h h'. case_match; [done|].
  by intros [= <-].
Qed.

Lemma keeps_commit k share nonce : keeps_key (commit_keyshare ek k share nonce).
Proof.
  unfold commit_keyshare. case_bool_decide; [by apply keeps_readonly|].
  repeat (apply keeps_bind; [try by apply keeps_readonly|intros ?]).
  - apply keeps_temporary. intros h h'. case_match; [done|]. by intros [= <-].
  - apply keeps_temporary. by intros h h' [= <-].
Qed.

Lemma run_op_keeps_key op : keeps_key (run_op op).
Proof.
  destruct op; simpl; (apply keeps_bind; [|intros; by apply keeps_readonly]).
  - apply keeps_bind; [by apply keeps_readonly|]. intros [data|]; [|by apply keeps_readonly].
    case_match; [by apply keeps_readonly|].
    apply keeps_bind; [by apply keeps_readonly|intros legacy]. apply keeps_store_unchecked.
  - apply keeps_bind; [apply keeps_readonly, load_readonly|]. intros p.
    apply keeps_bind; [by apply keeps_readonly|]. intros n.
    apply keeps_bind; [apply keeps_readonly, load_all_readonly|]. intros u.
    apply keeps_start.
  - apply keeps_bind; [apply keeps_readonly, load_readonly|]. intros p.
    apply keeps_bind; [by apply keeps_readonly|]. intros n.
    apply keeps_bind; [apply keeps_readonly, load_all_readonly|]. intros u.
    apply keeps_start.
  - apply keeps_commit.
  - apply keeps_bind; [apply keeps_readonly, load_keyset_readonly|]. intros [ks|ks]; [by apply keeps_readonly|].
    apply keeps_bind; [apply keeps_store_new|intros; by apply keeps_readonly].
  - do 2 (apply keeps_bind; [by apply keeps_readonly|intros ?]).
    apply keeps_bind; [apply keeps_readonly, load_prefix_readonly|]. intros p.
    apply keeps_bind; [apply keeps_readonly, load_rest_readonly|]. intros rest.
    apply keeps_bind; [by apply keeps_readonly|]. intros u. apply keeps_store_new.
Qed.

(** Every step moves on. *)
Lemma kstep_moves w w' : kstep w w' → Moved ek (kw_home w) (kw_home w').
Proof.
  intros [w0 op Hok|w0 op h' Hok Hr Hw]; simpl.
  - destruct (run_op_moves op (kw_home w0) _ Hok (reaches_final _ _)) as [?|[[Hk Hn] _]]; [done|].
    by destruct (run_op_keeps_key op _ Hn).
  - by destruct (run_op_moves op (kw_home w0) h' Hok Hr) as [?|[? _]].
Qed.

Lemma ksteps_move w w' : rtc kstep w w' → Moved ek (kw_home w) (kw_home w').
Proof. induction 1; [apply Moved_refl|]. eapply Moved_trans; [by apply kstep_moves|done]. Qed.

(** ** Starting a key event *)

Lemma start_keyshare_Ok k k' h :
  value_of (start_generating_keyshare k) h = Ok k' →
  k' = k ∧ temporary_keys h !! StartedFile k = None ∧
  is_Some (temporary_keys (final_of (start_generating_keyshare k) h) !! StartedFile k).
Proof.
  unfold start_generating_keyshare, value_of, final_of, mbind, FsM_bind, create_temporary, fs_write.
  destruct (temporary_keys h !! StartedFile k) eqn:Hk; simpl; [done|]. intros [= <-]. rewrite lookup_insert_eq. eauto.
Qed.

Lemma readonly_Ok {A B} (m : FsM A) (k : A → FsM B) h b :
  readonly m → value_of (m ≫= k) h = Ok b →
  ∃ a, value_of m h = Ok a ∧ value_of (k a) h = Ok b ∧ final_of (m ≫= k) h = final_of (k a) h.
Proof.
  intros Hm (a & Ha & Hb & Hf)%bind_Ok_fs. unfold final_of in Hb, Hf. rewrite (Hm h) in Hb, Hf. by exists a.
Qed.

(** The event was not started before, and the permanent keyshares are not of a later epoch. *)
Definition fresh_start (k : KeyEventId) (h h' : Home) : Prop :=
  temporary_keys h !! StartedFile k = None ∧ is_Some (temporary_keys h' !! StartedFile k) ∧
  ∀ d, permanent ek h = Ok (Some d) → pk_epoch_id d ≤ ke_epoch_id k.

Lemma start_generating_Ok keys k k' h :
  value_of (start_generating_key ek keys k) h = Ok k' →
  k' = k ∧ fresh_start k h (final_of (start_generating_key ek keys k) h).
Proof.
  unfold fresh_start, start_generating_key. intros (p & Hp & Hok & ->)%readonly_Ok; [|apply load_readonly].
  apply readonly_Ok in Hok as (n & Hn & Hok & ->); [|apply readonly_read].
  apply readonly_Ok in Hok as (u & _ & Hok & ->); [|apply load_all_readonly].
  apply start_keyshare_Ok in Hok as (-> & Hs & Hs'). split; [done|]. split; [done|]. split; [done|].
  intros d Hd. unfold permanent in Hd. assert (p = Some d) as -> by congruence.
  unfold value_of, fs_result, fs_read in Hn. simpl in Hn.
  destruct (Z.eqb_spec (pk_epoch_id d) (ke_epoch_id k)); [lia|].
  destruct (Z.ltb_spec (ke_epoch_id k) (pk_epoch_id d)); [done|lia].
Qed.

Lemma start_resharing_Ok keys k k' h :
  value_of (start_resharing_key ek keys k) h = Ok k' →
  k' = k ∧ fresh_start k h (final_of (start_resharing_key ek keys k) h).
Proof.
  unfold fresh_start, start_resharing_key. intros (p & Hp & Hok & ->)%readonly_Ok; [|apply load_readonly].
  apply readonly_Ok in Hok as (n & Hn & Hok & ->); [|apply readonly_read].
  apply readonly_Ok in Hok as (u & _ & Hok & ->); [|apply load_all_readonly].
  apply start_keyshare_Ok in Hok as (-> & Hs & Hs'). split; [done|]. split; [done|]. split; [done|].
  intros d Hd. unfold permanent in Hd. assert (p = Some d) as -> by congruence.
  unfold value_of, fs_result, fs_read in Hn. simpl in Hn.
  destruct (Z.leb_spec (ke_epoch_id k) (pk_epoch_id d)); [done|lia].
Qed.

Lemma run_op_started op h k :
  value_of (run_op op) h = Ok (Some k) → fresh_start k h (final_of (run_op op) h).
Proof.
  destruct op; simpl; intros (k' & Hv & Hr & ->)%bind_Ok_fs; try done; injection Hr as ->; unfold final_of at 1; simpl.
  - by apply start_generating_Ok in Hv as [-> Hv].
  - by apply start_resharing_Ok in Hv as [-> Hv].
Qed.

(** A started event has its marker, or the permanent keyshares are of a later epoch. *)
Definition marked (h : Home) (k : KeyEventId) : Prop :=
  is_Some (temporary_keys h !! StartedFile k) ∨ ∃ d, permanent ek h = Ok (Some d) ∧ ke_epoch_id k < pk_epoch_id d.

Lemma Moved_marked h h' k : Moved ek h h' → marked h k → marked h' k.
Proof.
  intros [P T] [[b Hb]|(d & Hd & L)].
  - destruct (T _ _ Hb) as [?|?]; [left; by eexists|by right].
  - right. destruct (P d Hd) as (d' & Hd' & [L' _]). exists d'. split; [done|lia].
Qed.

Definition KInv (w : KWorld) : Prop := NoDup (kw_started w) ∧ Forall (marked (kw_home w)) (kw_started w).

Lemma kstep_KInv w w' : KInv w → kstep w w' → KInv w'.
Proof.
  intros [Hnd Hm] Hs. pose proof (kstep_moves _ _ Hs) as Hmv.
  assert (Hm' : Forall (marked (kw_home w')) (kw_started w)).
  { eapply Forall_impl; [exact Hm|]. intros k. by apply Moved_marked. }
  destruct Hs as [w op Hok|w op h' Hok Hr Hw]; [|done]. simpl in *.
  destruct (value_of (run_op op) (kw_home w)) as [[k|]|e|p] eqn:E; [|done..].
  destruct (run_op_started _ _ _ E) as (Hn & Hs & He). split.
  - constructor; [|done]. intros Hin. rewrite Forall_forall in Hm.
    destruct (Hm k Hin) as [[b Hb]|(d & Hd & L)]; [congruence|]. specialize (He d Hd). lia.
  - constructor; [by left|done].
Qed.

Lemma ksteps_KInv w w' : rtc kstep w w' → KInv w → KInv w'.
Proof. induction 1; [done|]. intros Hi. eauto using kstep_KInv. Qed.

(** The same with crashes in the window, for an event that no permanent keyset has overtaken. *)
Definition not_overtaken (k : KeyEventId) (h : Home) : Prop :=
  ∀ d, permanent ek h = Ok (Some d) → pk_epoch_id d ≤ ke_epoch_id k.

Definition kstep_before (k : KeyEventId) (w w' : KWorld) : Prop :=
  kstep_any w w' ∧ not_overtaken k (kw_home w').

Definition starts (k : KeyEventId) (w : KWorld) : nat := length (filter (λ k', k' = k) (kw_started w)).

Definition KInv1 (k : KeyEventId) (w : KWorld) : Prop :=
  (starts k w ≤ 1)%nat ∧ (k ∈ kw_started w → is_Some (temporary_keys (kw_home w) !! StartedFile k)).

Lemma moves_keep_marker k h h' :
  moves_or_window h h' → not_overtaken k h' →
  is_Some (temporary_keys h !! StartedFile k) → is_Some (temporary_keys h' !! StartedFile k).
Proof.
  intros [[_ T]|[_ Ht]] Hno [b Hb]; [|rewrite Ht; by eexists].
  destruct (T _ _ Hb) as [?|(d & Hd & L)]; [by eexists|]. specialize (Hno d Hd). simpl in L. lia.
Qed.

Lemma starts_none k w : k ∉ kw_started w → starts k w = 0%nat.
Proof.
  intros Hk. unfold starts. destruct (filter _ (kw_started w)) as [|x l] eqn:E; [done|].
  assert (x ∈ filter (λ k', k' = k) (kw_started w)) as [-> Hx]%list_elem_of_filter by (rewrite E; left). done.
Qed.

Lemma kstep_before_KInv1 k w w' : KInv1 k w → kstep_before k w w' → KInv1 k w'.
Proof.
  intros [Hc Hm] [Hs Hno].
  destruct Hs as [w op Hok|w op h' Hok Hr]; simpl in *;
    [|split; [done|]; intros Hin%Hm; by eapply moves_keep_marker; [eapply run_op_moves|..]].
  pose proof (run_op_moves op _ _ Hok (reaches_final (run_op op) (kw_home w))) as Hmv.
  assert (Hold : k ∈ kw_started w → is_Some (temporary_keys (final_of (run_op op) (kw_home w)) !! StartedFile k))
    by (intros Hin%Hm; by eapply moves_keep_marker).
  destruct (value_of (run_op op) (kw_home w)) as [[k'|]|e|p] eqn:E; [|done..].
  destruct (run_op_started _ _ _ E) as (Hn & Hs & _). destruct (decide (k' = k)) as [->|Hne].
  - assert (k ∉ kw_started w) as Hnew by (intros [b Hb]%Hm; congruence).
    apply starts_none in Hnew. unfold KInv1, starts in *. simpl.
    rewrite filter_cons_True by done. simpl. split; [lia|done].
  - unfold KInv1, starts in *. simpl. rewrite filter_cons_False by done. split; [done|].
    intros [->|Hin]%elem_of_cons; [done|by apply Hold].
Qed.

Lemma ksteps_KInv1 k w w' : rtc (kstep_before k) w w' → KInv1 k w → KInv1 k w'.
Proof. induction 1; [done|]. intros Hi. eauto using kstep_before_KInv1. Qed.

(** ** Loading a keyset *)

Definition key_event (e : EpochId) (d : KeyForDomain) : KeyEventId := mkKeyEventId e (kd_domain_id d) (kd_attempt d).

(** The keyshare of the domain, with the public key of the contract. *)
Definition share_of (e : EpochId) (k : Keyshare) (d : KeyForDomain) : Prop :=
  kshare_key_id k = key_event e d ∧ Keyshare_public_key k = Ok (dto_of_extended (kd_key d)).

Lemma check_consistency_Ok k e d : check_consistency k e d = Ok tt → share_of e k d.
Proof.
  unfold check_consistency, share_of. case_bool_decide as Hid; [done|].
  intros (pk & Hpk & Hc)%bind_Ok. case_bool_decide as Hk; [done|]. split; [done|congruence].
Qed.

Lemma verify_prefix_Ok ks e keys :
  verify_existing_keyshares_are_prefix_of_keyset ks e keys = Ok tt →
  (length ks ≤ length keys)%nat ∧ Forall2 (share_of e) ks (take (length ks) keys).
Proof.
  unfold verify_existing_keyshares_are_prefix_of_keyset. destruct (Z.ltb_spec (zlen keys) (zlen ks)) as [|Hle]; [done|].
  unfold zlen in Hle. intros Hc. split; [lia|]. assert (Hlen : (length ks ≤ length keys)%nat) by lia. clear Hle.
  revert keys Hc Hlen. induction ks as [|k ks IH]; intros [|d keys] Hc Hlen; simpl in *; [constructor|constructor|lia|].
  apply bind_Ok in Hc as ([] & Hk & Hc). constructor; [by apply check_consistency_Ok|]. apply IH; [done|lia].
Qed.

Lemma load_keyshare_id k h share : value_of (load_keyshare ek k) h = Ok (Some share) → kshare_key_id share = k.
Proof.
  unfold value_of, load_keyshare, fs_read. simpl. destruct (temporary_keys h !! KeyshareFile k) as [b|]; [|done].
  intros (data & _ & (s' & _ & Hc)%bind_Ok)%bind_Ok. case_bool_decide as Hid; [done|].
  by injection Hc as <-.
Qed.

Lemma load_rest_Ok missing e domains h rest :
  (∀ k share, missing k = Some share → kshare_key_id share = k) →
  value_of (load_rest ek missing e domains) h = Ok rest →
  Forall2 (λ k d, kshare_key_id k = key_event e d) rest domains.
Proof.
  intros Hmiss. revert rest. induction domains as [|d domains IH]; intros rest Hv; simpl in Hv.
  { injection Hv as <-. constructor. }
  apply readonly_Ok in Hv as (loaded & Hl & Hv & _); [|apply load_keyshare_readonly].
  apply readonly_Ok in Hv as (k & Hk & Hv & _); [|apply readonly_read].
  apply readonly_Ok in Hv as (rest' & Hr & Hv & _); [|apply load_rest_readonly]. injection Hv as <-.
  constructor; [|by apply IH]. unfold value_of, fs_result, fs_read in Hk. simpl in Hk.
  destruct loaded as [share|]; simpl in Hk; [injection Hk as <-; by apply load_keyshare_id in Hl|].
  destruct (missing _) as [share|] eqn:Hm; [|done]. injection Hk as <-. by apply Hmiss.
Qed.

(** The permanent keyshares that are used: those of the keyset's epoch. *)
Lemma load_prefix_Ok keyset h ks :
  value_of (load_prefix_from_permanent ek keyset) h = Ok ks →
  (length ks ≤ length (ks_domains keyset))%nat ∧
  Forall2 (share_of (ks_epoch_id keyset)) ks (take (length ks) (ks_domains keyset)) ∧
  (ks ≠ [] → permanent ek h = Ok (Some (mkPermanentKeyshareData (ks_epoch_id keyset) ks))).
Proof.
  intros (p & Hp & Hv & _)%readonly_Ok; [|apply load_readonly].
  apply readonly_Ok in Hv as ([] & Hc & Hv & _); [|apply readonly_read]. injection Hv as Hks.
  unfold value_of, fs_result, fs_read in Hc. simpl in Hc. rewrite Hks in Hc. apply verify_prefix_Ok in Hc as [Hlen Hall].
  split; [done|]. split; [done|]. intros Hne. unfold permanent. rewrite Hp. destruct p as [[e0 ks0]|]; simpl in *; [|congruence].
  destruct (Z.eqb_spec e0 (ks_epoch_id keyset)) as [->|]; congruence.
Qed.

Lemma Forall2_key_event e ks domains :
  Forall2 (share_of e) ks domains → Forall2 (λ k d, kshare_key_id k = key_event e d) ks domains.
Proof. intros Hf. eapply Forall2_impl; [exact Hf|]. by intros ?? [? _]. Qed.

Definition loaded_keyshares (l : LoadedKeyset) : list Keyshare :=
  match l with LoadedPermanent ks | LoadedPermanentAndTemporary ks => ks end.

(** The keyshares that are found are those of the keyset's key events, in its order. *)
Lemma load_keyset_Ok keyset h l :
  value_of (load_keyshares_from_permanent_or_temporary ek keyset) h = Ok l →
  Forall2 (λ k d, kshare_key_id k = key_event (ks_epoch_id keyset) d) (loaded_keyshares l) (ks_domains keyset) ∧
  match l with
  | LoadedPermanent ks => ks_domains keyset ≠ [] →
    permanent ek h = Ok (Some (mkPermanentKeyshareData (ks_epoch_id keyset) ks))
  | LoadedPermanentAndTemporary _ => ks_domains keyset ≠ []
  end.
Proof.
  intros (ks & Hp & Hv & _)%readonly_Ok; [|apply load_prefix_readonly].
  apply load_prefix_Ok in Hp as (Hlen & Hall & Hperm). destruct (Z.eqb_spec (zlen ks) (zlen (ks_domains keyset))) as [E|E];
    unfold zlen in E.
  - injection Hv as <-. simpl. assert (length ks = length (ks_domains keyset)) as El by lia. split.
    + apply Forall2_key_event. by rewrite El, firstn_all in Hall.
    + intros Hne. apply Hperm. intros ->. destruct (ks_domains keyset); [done|discriminate].
  - apply readonly_Ok in Hv as (rest & Hr & Hv & _); [|apply load_rest_readonly]. injection Hv as <-. simpl. split.
    + apply load_rest_Ok in Hr; [|done]. rewrite <- (firstn_skipn (length ks) (ks_domains keyset)).
      apply Forall2_app; [by apply Forall2_key_event|done].
    + intros Hnil. rewrite Hnil in *. simpl in *. lia.
Qed.

(** ** Commit, update and import *)

Lemma commit_Ok k share nonce h :
  nonce_ok nonce → value_of (commit_keyshare ek k share nonce) h = Ok tt →
  ∃ b, temporary_keys (final_of (commit_keyshare ek k share nonce) h) !! KeyshareFile k = Some b ∧
    ∀ h', temporary_keys h' !! KeyshareFile k = Some b → value_of (load_keyshare ek k) h' = Ok (Some share).
Proof.
  intros Hn. unfold commit_keyshare. case_bool_decide as Hid; [done|].
  intros (data & Hd & Hv & ->)%readonly_Ok; [|apply readonly_read].
  apply readonly_Ok in Hv as (b & Hb & Hv & ->); [|apply readonly_read].
  unfold value_of, fs_result, fs_read in Hd, Hb. simpl in Hd, Hb. exists b. split.
  - unfold value_of, final_of, mbind, FsM_bind, create_temporary, write_temporary, fs_write in *.
    destruct (temporary_keys h !! KeyshareFile k); [done|]. simpl. by rewrite lookup_insert_eq.
  - intros h' Hh. unfold value_of, load_keyshare, fs_read. simpl. rewrite Hh, (decrypt_encrypt _ _ _ _ Hn Hb). simpl.
    destruct (serde_to_vec share) as [data'|] eqn:Hser; [|done]. injection Hd as <-.
    rewrite (serde_from_to share _ Hser). simpl. by rewrite bool_decide_false by tauto.
Qed.

Lemma store_new_window e ks nonce h :
  is_Some (permanent_keys h !! (e, zlen ks)) → key_file h = None →
  ∃ r, store_new_permanent_keyset_data_delete_temporary ek e ks nonce h = ([], h, r) ∧ r ≠ Ok tt.
Proof.
  intros Hp Hk. unfold store_new_permanent_keyset_data_delete_temporary. rewrite bind_readonly by apply readonly_read.
  destruct (value_of _ h) as [d|e'|p] eqn:Hd; [|by eexists..].
  apply PermanentKeyshareData_new_Ok in Hd as [-> _].
  assert (Hst : ∃ r, PermanentKeyStorage_store ek (mkPermanentKeyshareData e ks) nonce h = ([], h, r) ∧ r ≠ Ok tt).
  { unfold PermanentKeyStorage_store. rewrite bind_readonly by apply load_readonly.
    pose proof (permanent_no_key ek h Hk) as Hno. unfold permanent in Hno. rewrite Hno. clear Hno.
    rewrite bind_readonly by apply readonly_read. simpl. unfold store_unchecked.
    rewrite bind_readonly by apply readonly_read. destruct (value_of _ h) as [data|e'|p]; [|by eexists..].
    by apply backend_store_exists. }
  destruct Hst as (r & Hst & Hr). unfold mbind, FsM_bind. rewrite Hst.
  destruct r as [[]|e'|p]; [done|by eexists..].
Qed.

Lemma update_window keyset nonce h h' :
  nonce_ok nonce → reaches (update_permanent_keyshares ek keyset nonce) h h' → no_key h h' →
  ks_domains keyset ≠ [] ∧ is_Some (permanent_keys h' !! (ks_epoch_id keyset, zlen (ks_domains keyset))).
Proof.
  intros Hn Hr [Hk' Hk]. apply reaches_bind in Hr as [Hr|(l & Hl & Hr)].
  { apply reaches_readonly in Hr as ->; [done|apply load_keyset_readonly]. }
  unfold final_of in Hr. rewrite load_keyset_readonly in Hr. simpl in Hr.
  pose proof (load_keyset_Ok _ _ _ Hl) as [Hall Hl']. destruct l as [ks|ks]; simpl in Hall.
  { by apply reaches_readonly in Hr as ->; [|apply readonly_ret]. }
  split; [done|]. apply (reaches_then_ret _ (λ _, ks)) in Hr.
  assert (zlen (ks_domains keyset) = zlen ks) as ->
    by (unfold zlen; pose proof (Forall2_length _ _ _ Hall) as Hlen; by rewrite Hlen).
  destruct (store_new_states ek _ _ _ _ _ Hn Hr) as [[_ Hno]|(_ & _ & ?)]; [by destruct Hno|done].
Qed.

Lemma zip_equal {A} `{EqDecision A} (l k : list A) :
  length l = length k → forallb (λ '(x, y), bool_decide (x = y)) (zip l k) = true → l = k.
Proof.
  revert k. induction l as [|x l IH]; intros [|y k] Hlen Hz; [done..|]. simpl in *.
  apply andb_true_iff in Hz as [Hx Hz]. apply bool_decide_eq_true in Hx as ->. f_equal. apply IH; [lia|done].
Qed.

Lemma find_key_event (backup : list Keyshare) k share :
  find (λ share, bool_decide (kshare_key_id share = k)) backup = Some share → kshare_key_id share = k.
Proof. intros [_ Hf]%find_Some. by apply bool_decide_eq_true in Hf. Qed.

(** ** The theorems *)

(** C9: The permanent keyshares of a node are never lost: whatever sequence of operations
    follows, and wherever an operation is interrupted by a crash (the window between the
    removal of the old key file and the link to the new one apart), the permanent keyshares
    stay readable, in the same or a later epoch, and at the place of every keyshare is one
    of the same domain with the same public key. *)
Theorem permanent_keyshares_kept w w' old :
  rtc kstep w w' → permanent ek (kw_home w) = Ok (Some old) →
  ∃ new, permanent ek (kw_home w') = Ok (Some new) ∧ extends old new.
Proof. intros Hs. apply (ksteps_move _ _ Hs). Qed.

(** C15: No key event is started twice, across crashes and restarts: a node never computes
    two keyshares for one key event.  This holds in every history in which no crash hits the
    window between the removal of the old key file and the link to the new one; and whatever
    crashes there are, in the window or not, for every event that is not of an earlier epoch
    than a permanent keyset of the history. *)
Theorem key_event_started_once h w :
  (rtc kstep (mkKWorld h []) w → NoDup (kw_started w)) ∧
  ∀ k, rtc (kstep_before k) (mkKWorld h []) w → (starts k w ≤ 1)%nat.
Proof.
  split.
  - intros Hs. apply (ksteps_KInv _ _ Hs). split; constructor.
  - intros k Hs. apply (ksteps_KInv1 _ _ _ Hs). split; [|by intros ?%elem_of_nil].
    rewrite starts_none; [lia|apply not_elem_of_nil].
Qed.

(** A committed keyshare is found again, whatever happens, until the permanent
    keyshares are of a later epoch. *)
Theorem committed_keyshare_kept k share nonce h started w :
  nonce_ok nonce → value_of (commit_keyshare ek k share nonce) h = Ok tt →
  rtc kstep (mkKWorld (final_of (commit_keyshare ek k share nonce) h) started) w →
  value_of (load_keyshare ek k) (kw_home w) = Ok (Some share) ∨
  ∃ d, permanent ek (kw_home w) = Ok (Some d) ∧ ke_epoch_id k < pk_epoch_id d.
Proof.
  intros Hn (b & Hb & Hload)%commit_Ok Hs; [|done]. destruct (ksteps_move _ _ Hs) as [_ T].
  destruct (T _ _ Hb) as [Hb'|?]; [left; by apply Hload|by right].
Qed.

(** After [update_permanent_keyshares] the permanent storage holds exactly one keyshare
    for each key event of the contract's keyset, in its order, and these are returned. *)
Theorem update_makes_permanent keyset nonce h ks :
  nonce_ok nonce → ks_domains keyset ≠ [] → value_of (update_permanent_keyshares ek keyset nonce) h = Ok ks →
  permanent ek (final_of (update_permanent_keyshares ek keyset nonce) h) =
    Ok (Some (mkPermanentKeyshareData (ks_epoch_id keyset) ks)) ∧
  Forall2 (λ k d, kshare_key_id k = key_event (ks_epoch_id keyset) d) ks (ks_domains keyset).
Proof.
  intros Hn Hne. unfold update_permanent_keyshares. intros (l & Hl & Hv & ->)%readonly_Ok; [|apply load_keyset_readonly].
  apply load_keyset_Ok in Hl as [Hall Hl]. destruct l as [ks0|ks0]; simpl in Hall.
  - injection Hv as <-. split; [by apply Hl|done].
  - apply bind_Ok_fs in Hv as ([] & Hst & Hv & ->). injection Hv as <-. split; [|done]. by apply store_new_Ok in Hst.
Qed.

(** An imported backup becomes the permanent keyset, and every keyshare of it is of
    the key event and the public key that the contract names. *)
Theorem import_backup_correct backup keyset nonce h :
  nonce_ok nonce → value_of (import_backup ek backup keyset nonce) h = Ok tt →
  permanent ek (final_of (import_backup ek backup keyset nonce) h) =
    Ok (Some (mkPermanentKeyshareData (ks_epoch_id keyset) backup)) ∧
  Forall2 (share_of (ks_epoch_id keyset)) backup (ks_domains keyset).
Proof.
  intros Hn. unfold import_backup. intros ([] & Hp & Hv & ->)%readonly_Ok; [|apply readonly_read].
  apply readonly_Ok in Hv as ([] & Hlen & Hv & ->); [|apply readonly_read].
  apply readonly_Ok in Hv as (ks & Hks & Hv & ->); [|apply load_prefix_readonly].
  apply readonly_Ok in Hv as (rest & Hrest & Hv & ->); [|apply load_rest_readonly].
  apply readonly_Ok in Hv as ([] & Hz & Hv & ->); [|apply readonly_read].
  unfold value_of, fs_result, fs_read in Hp, Hlen, Hz. simpl in Hp, Hlen, Hz.
  destruct (Z.eqb_spec (zlen backup) (zlen (ks_domains keyset))) as [E|]; [|done]. unfold zlen in E.
  apply verify_prefix_Ok in Hp as [_ Hall]. apply load_prefix_Ok in Hks as (Hle & _).
  apply load_rest_Ok in Hrest; [|apply find_key_event]. apply Forall2_length in Hrest. rewrite length_drop in Hrest.
  destruct (forallb _ _) eqn:Hf; [|done]. apply zip_equal in Hf; [|rewrite length_app; lia].
  rewrite Hf in *. split; [by apply store_new_Ok|].
  rewrite firstn_all2 in Hall; [done|lia].
Qed.

(** C39: The window of the storage is a trap: when the node stops between the removal of
    the old key file and the link to the new one, the update of the permanent keyshares to
    the same keyset fails in every later attempt and changes nothing, because the file of
    the new keyset already exists. *)
Theorem interrupted_update_never_finishes keyset nonce h h' :
  nonce_ok nonce → reaches (update_permanent_keyshares ek keyset nonce) h h' → no_key h h' →
  ∀ nonce', ∃ r, update_permanent_keyshares ek keyset nonce' h' = ([], h', r) ∧ ∀ ks, r ≠ Ok ks.
Proof.
  intros Hn Hr Hw nonce'. destruct (update_window _ _ _ _ Hn Hr Hw) as [Hne Hex]. destruct Hw as [Hk _].
  unfold update_permanent_keyshares. rewrite bind_readonly by apply load_keyset_readonly.
  destruct (value_of _ h') as [l|e|p] eqn:Hl; [|by eexists..]. apply load_keyset_Ok in Hl as [Hall Hl].
  destruct l as [ks|ks]; [rewrite (permanent_no_key ek _ Hk) in Hl; by specialize (Hl Hne)|]. simpl in Hall.
  assert (zlen (ks_domains keyset) = zlen ks) as E by (unfold zlen; by rewrite (Forall2_length _ _ _ Hall)).
  rewrite E in Hex. destruct (store_new_window _ ks nonce' h' Hex Hk) as (r & Hst & Hr').
  unfold mbind, FsM_bind. rewrite Hst. destruct r as [[]|e|p]; [done|by eexists..].
Qed.
End Theorems.

(** ** Examples

    The identity cipher, and keyshares of ed25519 whose scalar and point are one number. *)

#[local] Instance identity_aes : AesGcm := {|
  aes_encrypt _ _ plaintext := Some plaintext;
  aes_decrypt _ _ ciphertext := Some ciphertext;
|}.

#[local] Instance identity_aes_laws : AesGcmLaws.
Proof. split. intros key nonce plaintext ciphertext [= ->]. done. Qed.

#[local] Instance plain_encodings : KeyEncodings := {|
  secp256k1_of_affine p := Some p;
  ed25519_compress p := p;
  bls12381_of_element p := p;
|}.

Definition small_share (e d a s p : Z) : Keyshare :=
  mkKeyshare (mkKeyEventId e d a) (KdEd25519 (mkKeygenOutput [s] [p])).

Definition share_numbers (k : Keyshare) : option bytes :=
  match k with
  | mkKeyshare (mkKeyEventId e d a) (KdEd25519 (mkKeygenOutput [s] [p])) => Some [e; d; a; s; p]
  | _ => None
  end.

Fixpoint shares_numbers (ks : list Keyshare) : option bytes :=
  match ks with
  | [] => Some []
  | k :: ks =>
    match share_numbers k, shares_numbers ks with Some b, Some bs => Some (b ++ bs) | _, _ => None end
  end.

Fixpoint numbers_shares (fuel : nat) (b : bytes) : option (list Keyshare) :=
  match fuel, b with
  | _, [] => Some []
  | S fuel, e :: d :: a :: s :: p :: b => (small_share e d a s p ::.) <$> numbers_shares fuel b
  | _, _ => None
  end.

#[local] Instance share_serde : Serde Keyshare := {|
  serde_to_vec := share_numbers;
  serde_from_slice b := match b with [e; d; a; s; p] => Some (small_share e d a s p) | _ => None end;
|}.

#[local] Instance keyset_serde : Serde PermanentKeyshareData := {|
  serde_to_vec v := (pk_epoch_id v ::.) <$> shares_numbers (pk_keyshares v);
  serde_from_slice b :=
    match b with e :: b => mkPermanentKeyshareData e <$> numbers_shares (length b) b | [] => None end;
|}.

#[local] Instance no_legacy_serde : Serde LegacyRootKeyshareData := {|
  serde_to_vec _ := None;
  serde_from_slice _ := None;
|}.

Lemma share_numbers_Some k b : share_numbers k = Some b →
  ∃ e d a s p, k = small_share e d a s p ∧ b = [e; d; a; s; p].
Proof.
  destruct k as [[e d a] [|[[|s []] [|p []]]| |]]; simpl; try done. intros [= <-]. by exists e, d, a, s, p.
Qed.

#[local] Instance share_serde_laws : SerdeLaws Keyshare.
Proof. split. by intros v b (e & d & a & s & p & -> & ->)%share_numbers_Some. Qed.

Lemma numbers_shares_numbers ks b fuel :
  shares_numbers ks = Some b → (length b ≤ fuel)%nat → numbers_shares fuel b = Some ks.
Proof.
  revert b fuel. induction ks as [|k ks IH]; intros b fuel Hb Hf; simpl in Hb.
  { injection Hb as <-. by destruct fuel. }
  destruct (share_numbers k) as [bk|] eqn:Hk; [|done]. apply share_numbers_Some in Hk as (e & d & a & s & p & -> & ->).
  destruct (shares_numbers ks) as [bs|]; [|done]. injection Hb as <-. simpl in Hf. destruct fuel as [|fuel]; [lia|].
  simpl. by rewrite (IH bs fuel eq_refl) by lia.
Qed.

#[local] Instance keyset_serde_laws : SerdeLaws PermanentKeyshareData.
Proof.
  split. intros [e ks] b Hb. simpl in *. destruct (shares_numbers ks) as [bs|] eqn:Hs; [|done].
  injection Hb as <-. by rewrite (numbers_shares_numbers ks bs) by done.
Qed.

Definition first_nonce : bytes := replicate NONCE_LEN 0.
Definition no_files : Home := mkHome ∅ ∅ None.
Definition first_event : KeyEventId := mkKeyEventId 1 0 0.
Definition second_event : KeyEventId := mkKeyEventId 2 0 3.
Definition first_share : Keyshare := small_share 1 0 0 5 6.
Definition second_share : Keyshare := small_share 2 0 3 7 6.
Definition domain_key (attempt : Z) : KeyForDomain := mkKeyForDomain 0 (PkEd25519 (mkPublicKey ED25519 [6]) []) attempt.
Definition first_keyset : Keyset := mkKeyset 1 [domain_key 0].
Definition second_keyset : Keyset := mkKeyset 2 [domain_key 3].

Definition sample_ops : list Op :=
  [OpStartGenerating [] first_event; OpCommit first_event first_share first_nonce; OpUpdate first_keyset first_nonce].
Definition later_ops : list Op :=
  [OpStartResharing [] second_event; OpCommit second_event second_share first_nonce].

Definition step_world (w : KWorld) (op : Op) : KWorld :=
  mkKWorld (final_of (run_op [] op) (kw_home w))
    (match value_of (run_op [] op) (kw_home w) with Ok (Some k) => k :: kw_started w | _ => kw_started w end).

Lemma step_worlds ops w : Forall op_ok ops → rtc (kstep []) w (foldl step_world w ops).
Proof.
  intros Hok. revert w. induction Hok as [|op ops Ho Hok IH]; intros w; [apply rtc_refl|]. simpl.
  eapply rtc_l; [apply (k_run [] w op Ho)|]. apply IH.
Qed.

Definition first_world : KWorld := foldl step_world (mkKWorld no_files []) sample_ops.
Definition second_world : KWorld := foldl step_world first_world (later_ops ++ [OpUpdate second_keyset first_nonce]).

Lemma permanent_keyshares_kept_witness :
  permanent [] (kw_home first_world) = Ok (Some (mkPermanentKeyshareData 1 [first_share])) ∧
  permanent [] (kw_home second_world) = Ok (Some (mkPermanentKeyshareData 2 [second_share])) ∧
  ∃ new, permanent [] (kw_home second_world) = Ok (Some new) ∧
    extends (mkPermanentKeyshareData 1 [first_share]) new.
Proof.
  split; [by vm_compute|]. split; [by vm_compute|].
  apply (permanent_keyshares_kept [] first_world); [apply step_worlds; by repeat constructor|by vm_compute].
Defined.

Definition committed_home : Home := final_of (start_generating_keyshare first_event) no_files.

Lemma committed_keyshare_kept_witness :
  let h := final_of (commit_keyshare [] first_event first_share first_nonce) committed_home in
  let w := foldl step_world (mkKWorld h []) [OpUpdate first_keyset first_nonce] in
  value_of (load_keyshare [] first_event) (kw_home w) = Ok (Some first_share) ∨
  ∃ d, permanent [] (kw_home w) = Ok (Some d) ∧ ke_epoch_id first_event < pk_epoch_id d.
Proof.
  apply (committed_keyshare_kept [] first_event first_share first_nonce committed_home []);
    [done|by vm_compute|apply step_worlds; by repeat constructor].
Defined.

Definition reshared_home : Home := kw_home (foldl step_world first_world later_ops).

Lemma update_makes_permanent_witness :
  permanent [] (final_of (update_permanent_keyshares [] second_keyset first_nonce) reshared_home) =
    Ok (Some (mkPermanentKeyshareData 2 [second_share])) ∧
  Forall2 (λ k d, kshare_key_id k = key_event 2 d) [second_share] [domain_key 3].
Proof. apply (update_makes_permanent [] second_keyset first_nonce reshared_home); [done|done|by vm_compute]. Defined.

Lemma import_backup_correct_witness :
  permanent [] (final_of (import_backup [] [first_share] first_keyset first_nonce) no_files) =
    Ok (Some (mkPermanentKeyshareData 1 [first_share])) ∧
  Forall2 (share_of 1) [first_share] [domain_key 0].
Proof. apply (import_backup_correct [] [first_share] first_keyset first_nonce no_files); [done|by vm_compute]. Defined.

(** The state of the third write of the update: the old key file is removed. *)
Definition window_home : Home :=
  match (update_permanent_keyshares [] second_keyset first_nonce reshared_home).1.1 !! 2%nat with
  | Some h => h
  | None => no_files
  end.

Lemma window_reached : reaches (update_permanent_keyshares [] second_keyset first_nonce) reshared_home window_home.
Proof.
  assert (E : (update_permanent_keyshares [] second_keyset first_nonce reshared_home).1.1 !! 2%nat = Some window_home)
    by by vm_compute.
  unfold reaches. destruct (update_permanent_keyshares _ _ _ _) as [[tr f] r]. left. by apply list_elem_of_lookup_2 in E.
Qed.

Lemma interrupted_update_never_finishes_witness :
  key_file window_home = None ∧ permanent [] reshared_home = Ok (Some (mkPermanentKeyshareData 1 [first_share])) ∧
  ∀ nonce', ∃ r, update_permanent_keyshares [] second_keyset nonce' window_home = ([], window_home, r) ∧
    ∀ ks, r ≠ Ok ks.
Proof.
  split; [by vm_compute|]. split; [by vm_compute|].
  apply (interrupted_update_never_finishes [] second_keyset first_nonce reshared_home window_home);
    [done|apply window_reached|by vm_compute].
Defined.

(** The node stops in the window and tries to start the resharing again, in vain. *)
Definition window_world : KWorld := mkKWorld window_home (kw_started (foldl step_world first_world later_ops)).
Definition retried_world : KWorld := step_world window_world (OpStartResharing [] second_event).

Definition overtaken (k : KeyEventId) (h : Home) : bool :=
  match permanent [] h with Ok (Some d) => ke_epoch_id k <? pk_epoch_id d | _ => false end.

Fixpoint never_overtaken (k : KeyEventId) (w : KWorld) (ops : list Op) : bool :=
  match ops with
  | [] => true
  | op :: ops => negb (overtaken k (kw_home (step_world w op))) && never_overtaken k (step_world w op) ops
  end.

Lemma overtaken_false k h : overtaken k h = false → not_overtaken [] k h.
Proof. unfold overtaken. intros Ho d Hd. rewrite Hd in Ho. by apply Z.ltb_ge. Qed.

Lemma steps_before k ops w :
  Forall op_ok ops → never_overtaken k w ops = true → rtc (kstep_before [] k) w (foldl step_world w ops).
Proof.
  intros Hok. revert w. induction Hok as [|op ops Ho Hok IH]; intros w Hp; [apply rtc_refl|]. cbn [foldl].
  cbn [never_overtaken] in Hp. apply andb_true_iff in Hp as [Hp%negb_true_iff Hrest].
  eapply rtc_l; [split; [apply (ka_run [] w op Ho)|]|by apply (IH (step_world w op))].
  by apply overtaken_false.
Qed.

Lemma key_event_started_once_witness :
  kw_started second_world = [second_event; first_event] ∧ NoDup (kw_started second_world) ∧
  key_file window_home = None ∧ (starts second_event retried_world ≤ 1)%nat.
Proof.
  split; [by vm_compute|]. split; [|split; [by vm_compute|]].
  - apply (key_event_started_once [] no_files). transitivity first_world; apply step_worlds; by repeat constructor.
  - apply (key_event_started_once [] no_files).
    transitivity (foldl step_world first_world later_ops).
    { unfold first_world. rewrite <- foldl_app. apply steps_before; [by repeat constructor|by vm_compute]. }
    apply (rtc_l _ _ window_world); [split|].
    + apply (ka_crash [] _ (OpUpdate second_keyset first_nonce)); [done|].
      apply (reaches_ret _ (λ _, None)), window_reached.
    + apply overtaken_false. by vm_compute.
    + apply (steps_before _ [_]); [by repeat constructor|by vm_compute].
Defined.

(** A crash in the window during the update to a third keyset: an event of the first epoch, whose
    marker went with the second keyset, can be started again. *)
Definition third_event : KeyEventId := mkKeyEventId 3 0 0.
Definition third_share : Keyshare := small_share 3 0 0 9 6.
Definition third_keyset : Keyset := mkKeyset 3 [domain_key 0].
Definition third_world : KWorld :=
  foldl step_world second_world [OpStartResharing [] third_event; OpCommit third_event third_share first_nonce].
Definition third_window : Home :=
  match (update_permanent_keyshares [] third_keyset first_nonce (kw_home third_world)).1.1 !! 2%nat with
  | Some h => h
  | None => no_files
  end.

Theorem window_event_started_twice :
  ∃ w, rtc (kstep_any []) (mkKWorld no_files []) w ∧ starts first_event w = 2%nat.
Proof.
  exists (step_world (mkKWorld third_window (kw_started third_world)) (OpStartGenerating [] first_event)).
  split; [|by vm_compute].
  transitivity third_world.
  { apply (rtc_subrel (kstep [])); [apply kstep_kstep_any|]. transitivity first_world; [|transitivity second_world];
      apply step_worlds; by repeat constructor. }
  apply (rtc_l _ _ (mkKWorld third_window (kw_started third_world))).
  - apply (ka_crash [] _ (OpUpdate third_keyset first_nonce)); [done|]. apply (reaches_ret _ (λ _, None)).
    assert (E : (update_permanent_keyshares [] third_keyset first_nonce (kw_home third_world)).1.1 !! 2%nat =
      Some third_window) by by vm_compute.
    unfold reaches. destruct (update_permanent_keyshares _ _ _ _) as [[tr f] r]. left.
    by apply list_elem_of_lookup_2 in E.
  - apply rtc_once, (ka_run [] (mkKWorld _ _) (OpStartGenerating [] first_event)). done.
Qed.
